(* ===== verification/_CoqProject ===== *)
-Q . S2P
Prelude.v
Value.v
Errors.v
Schema.v
Codec.v
Handshake.v
Builder.v
Lint.v
Timestamp.v
Text.v
StoreBase.v
Encryption.v
Samples.v
ObjectStore.v
IdempotencyCache.v
StreamStore.v
RefreshTokens.v
JobStore.v
Authz.v
PlatformEvents.v
PlatformDrivers.v
PlatformDelivery.v
ServerErrors.v
Sessions.v
RegLock.v
Sharing.v
Credentials.v
Ephemeral.v
MediaPlane.v
Calls.v
CallLifecycle.v
Apps.v
Facade.v
Frames.v
Projections.v
Cluster.v
Placement.v
Gateway.v
GatewayHub.v
GatewayFanout.v
GatewayFrames.v
GatewayInvariants.v
GatewayBudgets.v
GatewaySafety.v
PasswordHasher.v
Accounts.v
AuthRoutes.v
AuthSafety.v
IdTokens.v
SealedSender.v
BlobStore.v
BlobProcessors.v
BlobRoutes.v
BlobSafety.v
Push.v
