(* ===== verification/Prelude.v ===== *)
(** * Frick: a verification library for the Rust backend

    Frick is a realtime backend. An application describes its data in a schema
    ([crates/frick-schema], [crates/frick-protocol]); the server keeps objects,
    event streams, jobs, credentials and sharing grants in SQL tables
    ([crates/frick-store]) and serves them over HTTP and WebSocket
    ([crates/frick-server]). A write goes through the facade of the store to one
    table; the facade's listener hands the event to the projections and to the
    gateway, which sends deltas to the subscribed connections and an envelope to
    the other nodes. This library models the protocol and schema crates, the
    stores that carry the data, sign-in and the authorization pipeline, blobs,
    calls, push notifications, and the path of a write to its subscribers, and
    proves what makes them correct.

    ** Files

    - [Prelude] (this file): [result] with [?], the state-and-error monad [M] of
      the stores (a statement that ran keeps its effect when a later one fails),
      [i64] wrap-around, Rust strings (bytes, characters, trimming, ordering,
      UTF-16), the hint database [frick], the tactics [run_M] and [case_matches].
    - [Value], [Errors]: [rmpv::Value], [stable_value], the wire enums (class
      [StringEnum]), the error envelope ([frick-protocol/src/value.rs],
      [errors.rs]).
    - [Schema]: the schema AST, [validate_schema] and the lookups ([schema.rs]).
    - [Codec]: packed records ([codec.rs]).
    - [Handshake]: schema compatibility, capabilities, frame kinds
      ([compatibility.rs], [capabilities.rs], [frame.rs]).
    - [Builder], [Lint]: the schema DSL and the breaking-change linter
      ([frick-schema/src/builder.rs], [lint.rs]).
    - [Timestamp]: the ISO formatters and parsers ([frick-store]); [Text]: strings
      as bytes, splitting and UTF-8 validity.
    - [StoreBase]: store errors, transactions, the class [PackedColumn] for
      [rmp_serde], tables as lists of rows with [select], [update_where],
      [delete_where] and [order_by].
    - [Encryption]: key providers and the envelope engine ([encryption.rs]); the
      crypto crates are the class [Crypto] with its laws [CryptoLaws].
    - [Samples]: concrete instances of these classes, used to evaluate.
    - [ObjectStore], [IdempotencyCache], [StreamStore], [RefreshTokens]: the
      stores of [frick-store/src/stores] of the same names.
    - [JobStore]: the job store with a worker tick and a scheduler tick
      ([stores/job.rs], [frick-server/src/jobs]).
    - [Authz]: principals, decisions, policy hooks, the grant store, object
      visibility, the object list and the object write decision
      ([frick-server/src/authz.rs], [principal.rs], [object_visibility.rs],
      [routes/objects.rs], [stores/grant.rs]).
    - [PlatformEvents], [PlatformDrivers], [PlatformDelivery]: the platform-event
      pipeline ([frick-store/src/platform_events]): validation and the abstract
      pipeline, the in-process and the SQL driver, and their refinement.
    - [ServerErrors]: the error taxonomy of [frick-server/src/error.rs].
    - [Sessions]: the session and tenant stores, bearer tokens and session
      resolution ([stores/session.rs], [stores/tenant.rs], [session.rs],
      [extract.rs]).
    - [RegLock]: the registration lock and its gate ([stores/reglock.rs],
      [auth_reglock.rs]).
    - [Sharing]: invitations and the share routes ([stores/invitation.rs],
      [routes/share.rs]), sequential and statement by statement.
    - [Credentials]: password resets, SAML assertions, sealed-sender access,
      service principals (the stores of these names).
    - [Ephemeral]: presence leases and the signal outbox ([stores/presence.rs],
      [stores/signal.rs]).
    - [MediaPlane]: the media-plane trait as a class with laws and two adapters;
      [Calls]: the call control plane over any of them; [CallLifecycle]: its
      transition system and theorems ([frick-server/src/calls]).
    - [Facade]: the store facade ([frick-store/src/facade.rs]): every write with
      its listener and search projector, app scopes, key retention.
    - [Apps]: the app registry ([frick-server/src/apps.rs]).
    - [Frames]: the payloads of all frames ([frame.rs], [calls.rs] of the
      protocol crate).
    - [Projections]: the projection registry ([projections.rs]).
    - [Cluster]: the envelopes between nodes with their value codec, and the
      in-memory bus ([cluster/envelope.rs], [cluster/memory.rs]); [Placement]:
      which node homes a call's media ([calls/media_placement.rs]).
    - [Gateway], [GatewayFanout], [GatewayFrames]: [gateway.rs] with the write
      listener of [boot.rs]: the hub with its connections, counts and budgets;
      what store writes, projection deltas, signals and envelopes of peers put on
      which connection, at once and in the tasks left behind; the handling of
      every client frame over one [World] of store, grants, calls, projections
      and hub. [GatewayHub]: what the hub operations keep, and the pushes of the
      tenant set interleaved. [GatewayInvariants]: [gateway_step], the node's
      transition system, and its counts; [GatewayBudgets]: subscriptions and
      pending writes; [GatewaySafety]: connections that may not act.
    - [PasswordHasher], [Accounts]: the stored-hash formats with their hashers and
      the account store ([stores/password_hasher.rs], [stores/account.rs]).
    - [AuthRoutes]: signup, login, reset, refresh and the attempt limiter
      ([auth_routes.rs], [auth_lifecycle.rs]); [AuthSafety]: their theorems.
      [IdTokens]: identity tokens, the key cache and the sign-in routes of the
      providers ([auth/verify.rs], [auth/jwks.rs], [auth/routes.rs]).
    - [SealedSender]: sender certificates and sealed delivery
      ([sealed_sender.rs]).
    - [BlobStore]: blob metadata, garbage collection and the SQL and filesystem
      byte drivers behind the class [BlobBytes] ([stores/blob.rs],
      [stores/blob_bytes.rs]); [BlobProcessors]: derivative jobs
      ([blob_processors/mod.rs]); [BlobRoutes]: [routes/blobs.rs]; [BlobSafety]:
      the theorems on all three.
    - [Push]: device registrations, the push routes, the adapter registry and the
      notification router ([stores/push_registration.rs],
      [frick-server/src/push], [routes/push.rs]).

    A store's state is its table (and the cache handed to it); each method is one
    definition with the branches, early returns and SQL predicates of the source.
    Clocks, random ids and nonces are arguments, as they are in most of the code.

    ** Theorems

    - Specifications: [validate_schema] accepts exactly [schema_valid]; the
      linter is silent exactly on compatible changes, and those keep every packed
      record readable; the builder reaches every valid schema; the handshake and
      the authorization pipeline decide exactly their declarative conditions, and
      so do a login and the reader check of a blob; garbage collection removes
      exactly the blobs it should.
    - Round trips: packed records, timestamps, sealed columns, write and read of
      an object through packing and encryption, upload and download of a blob,
      sender certificates, push intents.
    - Refinement, on every sequence of operations: the stamped maps of the
      idempotency cache implement a recency list; both platform-event drivers
      implement the pipeline; password resets are one slot per user; leases and
      signals are maps and queues with expiry; the facade's events replay to its
      contents; the deltas of a projection replay to its rows; fan-out over the
      bus is local fan-out on the peer.
    - Sign-in: who is let in, that a provider session comes from a signed token,
      that a reset ends what was there before, that hashes move to the current
      format once.
    - Blobs: an upload in chunks is the upload at once; no id leaves the root of
      the filesystem driver or reaches the bytes of another id.
    - Delivery: an object delta reaches exactly the subscribers that may read the
      record, a notification exactly the devices that take it, a sealed message
      its log once, nothing crosses tenants or apps, a connection before its Hello or
      after the end of its session changes nothing.
    - Invariants of all reachable states, by induction on a step relation of the
      writing operations: the event log ([stream_step]), token families
      ([token_step]), the job table ([job_step]), grants ([grant_step]), rows of
      other apps ([run_ops]), calls ([call_tr], which every operation of the
      control plane refines), the gateway ([gateway_step]).
    - Liveness: outstanding platform events are delivered; an invited user who
      fits gets into a live call; nodes that homed one call agree on its home.
    - Functional behaviour: compare-and-swap upserts, idempotent appends and
      enqueues, cursor pages, redaction, retention, claims, worker and scheduler
      ticks, token rotation and reuse detection, grant revocation.

    ** Bounds

    Definitions are structurally recursive except [IdempotencyCache.evict] (fuel:
    the number of entries, one of which every round removes;
    [lru_refines_recency] shows the result is the full eviction), the
    trimming of strings and the lossy decoding of UTF-8 (fuel: the length, one
    byte of which every round takes at least). Integers are [Z]; [i64] additions and multiplications the
    code can overflow are wrapped as a release build does ([i64_add], [i64_mul],
    [i64_sub]), [u64] stamps wrap at [2^64]. The theorems on timestamps hold for
    the years 0000 to 9999; those on the cache for fewer than [2^64] operations;
    those on sequences below [i64::MAX].

    ** Not modelled

    The SQL engine and its I/O errors (a statement fails only by a violated
    constraint; each method runs without interleaving, as under SQLite's single
    writer); [to_lowercase] beyond ASCII; epoch milliseconds in [f64], which are
    exact below [2^53], are integers; logging and telemetry. In the gateway, a
    frame is handled in one step, but the grant checks of a fan-out are tasks
    that run later, and the pushes of the tenant set are also given statement by
    statement; a connection's channel is the list of what was put on it, so the
    writer's backpressure and the timers are left out, msgpack bytes are
    parameters, and SFU commands are answered as by a control plane without an
    SFU companion. A filesystem operation of the blob driver fails only on a
    missing file, and a push adapter answers the same for the same intent and
    registration. Cryptography, JSON, base64 and msgpack are parameters with
    their laws.

    Of the repository these are left out: the SQL drivers, migrations and backup,
    whose work is done by the database engine; search, which is SQL full text;
    the S3 driver, the Redis bus, the SFU backends, email and the adapters of the
    push platforms, which only call a service; audit and devtools tables,
    configuration, telemetry and HTTP routing; SAML sign-in, which rests on an XML
    library; the code generators, the command line, and the client packages in
    other languages. *)

From Stdlib Require Import ZArith Lia Ascii String.
From stdpp Require Import base gmap strings list sorting pretty.

#[global] Open Scope Z_scope.

(** ** Results: the Rust [Result<A, E>] and the [?] operator *)

Inductive result (E A : Type) : Type :=
| Ok (a : A)
| Err (e : E).
Arguments Ok {E A} a.
Arguments Err {E A} e.

#[export] Instance result_eq_dec {E A} `{EqDecision E, EqDecision A} :
  EqDecision (result E A).
Proof. solve_decision. Defined.

#[export] Instance result_ret {E} : MRet (result E) := λ A a, Ok a.
#[export] Instance result_bind {E} : MBind (result E) := λ A B f m,
  match m with Ok a => f a | Err e => Err e end.
#[export] Instance result_fmap {E} : FMap (result E) := λ A B f m,
  match m with Ok a => Ok (f a) | Err e => Err e end.

Definition is_ok {E A} (r : result E A) : bool :=
  match r with Ok _ => true | Err _ => false end.

Definition map_err {E F A} (f : E → F) (r : result E A) : result F A :=
  match r with Ok a => Ok a | Err e => Err (f e) end.

Definition ok_or {E A} (o : option A) (e : E) : result E A :=
  match o with Some a => Ok a | None => Err e end.

Definition ok {E A} (r : result E A) : option A :=
  match r with Ok a => Some a | Err _ => None end.

(** [for x in l { f(x)?; }] with an accumulator, the error of the first
    failing step. *)
Fixpoint fold_res {E A B} (f : B → A → result E B) (b : B) (l : list A) : result E B :=
  match l with
  | [] => Ok b
  | x :: l' => match f b x with Ok b' => fold_res f b' l' | Err e => Err e end
  end.

(** [for x in l { f(x)?; }] without an accumulator. *)
Definition for_res {E A} (f : A → result E unit) (l : list A) : result E unit :=
  fold_res (λ _ x, f x) tt l.

(** [l.iter().map(f).collect::<Result<Vec<_>, _>>()]. *)
Fixpoint map_res {E A B} (f : A → result E B) (l : list A) : result E (list B) :=
  match l with
  | [] => Ok []
  | x :: l' =>
      match f x with
      | Ok y => match map_res f l' with Ok ys => Ok (y :: ys) | Err e => Err e end
      | Err e => Err e
      end
  end.

(** [if c { return Err(e); }]. *)
Definition guard_res {E} (c : bool) (e : E) : result E unit :=
  if c then Ok tt else Err e.

(** ** Stateful fallible code: [&mut self] methods returning [Result].

    The state survives an error: a statement that ran before the failing one
    keeps its effect, as it does outside a transaction. *)
Definition M (S E A : Type) : Type := S → result E A * S.

#[export] Instance M_ret {S E} : MRet (M S E) := λ A a s, (Ok a, s).
#[export] Instance M_bind {S E} : MBind (M S E) := λ A B f m s,
  match m s with
  | (Ok a, s') => f a s'
  | (Err e, s') => (Err e, s')
  end.

Definition lift_res {S E A} (r : result E A) : M S E A := λ s, (r, s).
Definition get_state {S E} : M S E S := λ s, (Ok s, s).
Definition put_state {S E} (s : S) : M S E unit := λ _, (Ok tt, s).

(** ** Machine integers *)

Definition i64_min : Z := - 2 ^ 63.
Definition i64_max : Z := 2 ^ 63 - 1.
Definition is_i64 (z : Z) : Prop := i64_min ≤ z ≤ i64_max.

(** Two's-complement wrap of a release-build [i64] operation. *)
Definition wrap64 (z : Z) : Z := (z + 2 ^ 63) mod 2 ^ 64 - 2 ^ 63.
Definition i64_add (a b : Z) : Z := wrap64 (a + b).
Definition i64_sub (a b : Z) : Z := wrap64 (a - b).
Definition i64_mul (a b : Z) : Z := wrap64 (a * b).

Lemma wrap64_id z : is_i64 z → wrap64 z = z.
Proof.
  unfold is_i64, i64_min, i64_max, wrap64. intros H.
  rewrite Z.mod_small; lia.
Qed.

Lemma wrap64_range z : is_i64 (wrap64 z).
Proof.
  unfold is_i64, i64_min, i64_max, wrap64.
  pose proof (Z.mod_pos_bound (z + 2 ^ 63) (2 ^ 64) ltac:(lia)). lia.
Qed.

(** ** Strings

    A Rust [String] is its UTF-8 bytes, a Stdlib [string] whose [ascii] are the
    bytes. [str::trim] strips the Unicode [White_Space] code points and is
    modelled on their UTF-8 encodings; [str::to_lowercase] is modelled on ASCII
    letters, which is the whole of it on the ASCII identifiers schemas use;
    [Ord] on [str] is byte order. *)
Module Str.

Definition byte (c : ascii) : Z := Z.of_nat (nat_of_ascii c).

Definition lower_ascii (c : ascii) : ascii :=
  if (65 <=? byte c) && (byte c <=? 90)
  then ascii_of_nat (nat_of_ascii c + 32) else c.

Fixpoint to_lowercase (s : string) : string :=
  match s with
  | EmptyString => EmptyString
  | String c s' => String (lower_ascii c) (to_lowercase s')
  end.

Definition is_empty (s : string) : bool :=
  match s with EmptyString => true | _ => false end.

(** If [s] starts with a [White_Space] code point, the rest of [s] after its
    UTF-8 encoding. *)
Definition strip_ws (s : string) : option string :=
  match s with
  | String a s1 =>
      let x := byte a in
      if ((9 <=? x) && (x <=? 13)) || (x =? 32) then Some s1
      else match s1 with
      | String b s2 =>
          let y := byte b in
          if (x =? 194) && ((y =? 133) || (y =? 160)) then Some s2
          else match s2 with
          | String c s3 =>
              let z := byte c in
              if ((x =? 225) && (y =? 154) && (z =? 128))
                 || ((x =? 226) && (y =? 128) &&
                     (((128 <=? z) && (z <=? 138))
                      || (z =? 168) || (z =? 169) || (z =? 175)))
                 || ((x =? 226) && (y =? 129) && (z =? 159))
                 || ((x =? 227) && (y =? 128) && (z =? 128))
              then Some s3 else None
          | EmptyString => None
          end
      | EmptyString => None
      end
  | EmptyString => None
  end.

(** Each step removes at least one byte, so the length is enough fuel. *)
Fixpoint trim_start_fuel (n : nat) (s : string) : string :=
  match n with
  | O => s
  | S n' => match strip_ws s with Some s' => trim_start_fuel n' s' | None => s end
  end.
Definition trim_start (s : string) : string := trim_start_fuel (String.length s) s.

Definition all_ws (s : string) : bool := is_empty (trim_start s).

(** Cut [s] where only white space is left. No continuation byte of UTF-8
    starts a white-space encoding, so the cut falls on a code point. *)
Fixpoint trim_end (s : string) : string :=
  match s with
  | EmptyString => EmptyString
  | String c s' => if all_ws s then EmptyString else String c (trim_end s')
  end.

Definition trim (s : string) : string := trim_end (trim_start s).

(** The code points of a UTF-8 string ([str::chars]). *)
Fixpoint chars (s : string) : list Z :=
  match s with
  | EmptyString => []
  | String a s1 =>
      let x := byte a in
      if x <? 128 then x :: chars s1
      else match s1 with
      | EmptyString => [x]
      | String b s2 =>
          let y := byte b - 128 in
          if x <? 224 then ((x - 192) * 64 + y) :: chars s2
          else match s2 with
          | EmptyString => [x]
          | String c s3 =>
              let z := byte c - 128 in
              if x <? 240 then (((x - 224) * 64 + y) * 64 + z) :: chars s3
              else match s3 with
              | EmptyString => [x]
              | String d s4 =>
                  ((((x - 240) * 64 + y) * 64 + z) * 64 + (byte d - 128)) :: chars s4
              end
          end
      end
  end.

(** [str::encode_utf16]: one unit below U+10000, a surrogate pair above. *)
Definition utf16_units (cp : Z) : list Z :=
  if cp <? 65536 then [cp]
  else [55296 + (cp - 65536) / 1024; 56320 + (cp - 65536) mod 1024].
Definition encode_utf16 (s : string) : list Z := concat (utf16_units <$> chars s).

(** Lexicographic order, [Iterator::cmp(..).is_le()]. *)
Fixpoint lex_le (l k : list Z) : bool :=
  match l, k with
  | [], _ => true
  | _ :: _, [] => false
  | x :: l', y :: k' => if x =? y then lex_le l' k' else x <? y
  end.

Fixpoint bytes (s : string) : list Z :=
  match s with EmptyString => [] | String c s' => byte c :: bytes s' end.

(** [a <= b] and [a < b] on [str]: byte order, which is also SQLite's BINARY
    collation on TEXT. *)
Definition leb (a b : string) : bool := lex_le (bytes a) (bytes b).
Definition ltb (a b : string) : bool := negb (leb b a).

Definition starts_with (p s : string) : bool := String.prefix p s.

End Str.

(** [format!("{n}")] of an integer. *)
Definition fmt (z : Z) : string := pretty z.

(** [format!("{n:0w}")]: zero padding to width [w], after the sign. *)
Fixpoint zeros (n : nat) : string :=
  match n with O => EmptyString | S n' => String "0" (zeros n') end.
Definition pad0 (w : nat) (z : Z) : string :=
  if z <? 0
  then let d := pretty (- z) in
       String "-" (zeros (w - 1 - String.length d) +:+ d)
  else let d := pretty z in zeros (w - String.length d) +:+ d.

(** ** Shared lemmas and automation *)

Create HintDb frick discriminated.
Create Rewrite HintDb frick.

Lemma bind_Ok {E A B} (m : result E A) (f : A → result E B) b :
  (m ≫= f) = Ok b ↔ ∃ a, m = Ok a ∧ f a = Ok b.
Proof. destruct m; simpl; naive_solver. Qed.

Lemma bind_unit_Ok {E B} (m : result E unit) (k : result E B) b :
  (m;; k) = Ok b ↔ m = Ok tt ∧ k = Ok b.
Proof. destruct m as [[]|]; simpl; naive_solver. Qed.

Lemma if_Ok {E A} (c : bool) (e : E) (r : result E A) a :
  (if c then Err e else r) = Ok a ↔ c = false ∧ r = Ok a.
Proof. destruct c; naive_solver. Qed.

Lemma if_Ok_r {E A} (c : bool) (e : E) (r : result E A) a :
  (if c then r else Err e) = Ok a ↔ c = true ∧ r = Ok a.
Proof. destruct c; naive_solver. Qed.

Lemma for_res_Ok {E A} (f : A → result E unit) l :
  for_res f l = Ok tt ↔ Forall (λ x, f x = Ok tt) l.
Proof.
  unfold for_res. induction l as [|x l IH]; simpl; [by split|].
  rewrite Forall_cons, <- IH. destruct (f x) as [[]|]; naive_solver.
Qed.

Lemma map_res_Ok {E A B} (f : A → result E B) l ys :
  map_res f l = Ok ys ↔ Forall2 (λ x y, f x = Ok y) l ys.
Proof.
  revert ys. induction l as [|x l IH]; intros ys; simpl.
  - split; [by intros [= <-]|]. by inversion 1.
  - destruct (f x) as [y|] eqn:Ex.
    + destruct (map_res f l) as [ys'|] eqn:El.
      * split; [intros [= <-]; constructor; [done|]; by apply IH|].
        inversion 1 as [|? ? ? ? E1 E2]; subst. apply IH in E2. congruence.
      * split; [done|]. inversion 1 as [|? ? ? ? E1 E2]; subst. apply IH in E2. congruence.
    + split; [done|]. inversion 1; congruence.
Qed.

Lemma map_res_app {E A B} (f : A → result E B) l1 l2 ys :
  map_res f l1 = Ok ys →
  map_res f (l1 ++ l2) = (zs ← map_res f l2; Ok (ys ++ zs)).
Proof.
  revert ys. induction l1 as [|x l1 IH]; intros ys; simpl.
  - intros [= <-]. by destruct (map_res f l2).
  - destruct (f x); [|done]. destruct (map_res f l1) as [ys'|]; [|done]. intros [= <-].
    rewrite (IH ys') by done. by destruct (map_res f l2).
Qed.

Lemma bool_decide_false_iff (P : Prop) `{Decision P} : bool_decide P = false ↔ ¬ P.
Proof. by rewrite bool_decide_eq_false. Qed.

Lemma elem_of_concat {A} (x : A) (ls : list (list A)) :
  x ∈ concat ls ↔ ∃ l, l ∈ ls ∧ x ∈ l.
Proof.
  induction ls as [|l ls IH]; simpl.
  - split; [by inversion 1|]. intros (l & Hl & _). by inversion Hl.
  - rewrite elem_of_app, IH. setoid_rewrite elem_of_cons. naive_solver.
Qed.

(** Case analysis on the first [match] or [if] of the goal or of a hypothesis. *)
Ltac case_matches := repeat (case_match; simplify_eq/=; try done).

(** Evaluate the monadic structure of a stateful computation, in the goal or in a
    hypothesis, leaving the operations it calls. *)
Ltac run_M :=
  unfold lift_res, get_state, put_state, mbind, M_bind, mret, M_ret; cbv beta iota zeta.
Tactic Notation "run_M" "in" hyp(H) :=
  unfold lift_res, get_state, put_state, mbind, M_bind, mret, M_ret in H; cbv beta iota zeta in H.

(** Turn the successful run of a chain of checks into its conjunction. *)
#[export] Hint Rewrite @bind_unit_Ok @if_Ok @if_Ok_r @for_res_Ok
  negb_true_iff negb_false_iff andb_true_iff andb_false_iff orb_true_iff orb_false_iff
  @bool_decide_eq_true @bool_decide_eq_false String.eqb_eq String.eqb_neq
  Z.leb_le Z.leb_gt Z.ltb_lt Z.ltb_ge Z.eqb_eq Z.eqb_neq : frick.

(** A loop that rejects repeated ids and repeated lower-cased names, with a
    further check per element. *)
Section DupLoop.
Context {E A : Type} (fid : A → Z) (fname : A → string).
Context (step : gset Z * gset string → A → result E (gset Z * gset string)).
Context (Q : A → Prop).
Hypothesis step_spec : ∀ ids names a acc,
  step (ids, names) a = Ok acc ↔
  fid a ∉ ids ∧ Str.to_lowercase (fname a) ∉ names ∧ Q a
  ∧ acc = ({[fid a]} ∪ ids, {[Str.to_lowercase (fname a)]} ∪ names).

Lemma dup_loop_from ids names l :
  (∃ acc, fold_res step (ids, names) l = Ok acc) ↔
  NoDup (fid <$> l) ∧ NoDup ((λ a, Str.to_lowercase (fname a)) <$> l) ∧ Forall Q l
  ∧ Forall (λ a, fid a ∉ ids ∧ Str.to_lowercase (fname a) ∉ names) l.
Proof.
  revert ids names. induction l as [|a l IH]; intros ids names; simpl.
  - split; [intros _|naive_solver]. repeat split; constructor.
  - rewrite !NoDup_cons, !Forall_cons. destruct (step (ids, names) a) as [acc|e] eqn:Es.
    + apply step_spec in Es as (H1 & H2 & H3 & ->). rewrite IH.
      rewrite !Forall_forall, !list_elem_of_fmap.
      split; [intros (?&?&?&Hf); split_and!; try done|].
      * intros (x & Hx & Hin). destruct (Hf x Hin). set_solver.
      * intros (x & Hx & Hin). destruct (Hf x Hin). set_solver.
      * intros x Hin. destruct (Hf x Hin). set_solver.
      * intros ((Ha&?)&(Hb&?)&[_ ?]&[_ Hf]). split_and!; try done.
        intros x Hin. specialize (Hf x Hin). split; [|]; set_solver.
    + split; [naive_solver|]. intros (_&_&[HQ _]&[[H1 H2] _]). exfalso.
      assert (Ha : step (ids, names) a
        = Ok ({[fid a]} ∪ ids, {[Str.to_lowercase (fname a)]} ∪ names))
        by by apply step_spec.
      congruence.
Qed.

Lemma dup_loop l :
  (∃ acc, fold_res step (∅, ∅) l = Ok acc) ↔
  NoDup (fid <$> l) ∧ NoDup ((λ a, Str.to_lowercase (fname a)) <$> l) ∧ Forall Q l.
Proof.
  rewrite dup_loop_from. split; [naive_solver|]. intros (?&?&?). split_and!; try done.
  apply Forall_forall. set_solver.
Qed.
End DupLoop.
