(* ===== verification/Value.v ===== *)
(** * Dynamic msgpack values ([crates/frick-protocol/src/value.rs], [errors.rs])

    [rmpv::Value] as an inductive type with its accessors, the key-sorting
    normalisation [stable_value], the [string_enum!] wire enums as a type
    class, and the error envelope with its shape check. *)

From Stdlib Require Import ZArith Lia Ascii String Sorted Permutation.
From stdpp Require Import base gmap strings list sorting pretty.
From S2P Require Import Prelude.

(** ** Protocol errors *)

Record ProtocolError : Type := ProtocolError_new { message : string }.

#[export] Instance ProtocolError_eq_dec : EqDecision ProtocolError.
Proof. solve_decision. Defined.

(** ** The [string_enum!] macro

    A fieldless enum that crosses the wire as one of a fixed set of strings.
    The instance gives the values in declaration order and their strings; the
    laws say that the list is complete and the strings distinct. *)
Class StringEnum (A : Type) : Type := {
  enum_name : string;
  enum_ALL : list A;
  enum_as_str : A → string;
  enum_complete : ∀ a, a ∈ enum_ALL;
  enum_distinct : NoDup (enum_as_str <$> enum_ALL);
}.

#[global] Arguments enum_as_str {A _} _ : simpl never.
#[global] Arguments enum_ALL {A _} : simpl never.

(** The generated [FromStr]: the first literal that equals the text. *)
Definition enum_from_str {A} `{StringEnum A} (text : string) : result ProtocolError A :=
  match list_find (λ a, enum_as_str a = text) enum_ALL with
  | Some (_, a) => Ok a
  | None => Err (ProtocolError_new ("Unknown " +:+ enum_name +:+ ": " +:+ text))
  end.

Lemma enum_as_str_inj {A} `{StringEnum A} (a b : A) :
  enum_as_str a = enum_as_str b → a = b.
Proof.
  intros Heq.
  destruct (proj1 (list_elem_of_lookup enum_ALL a) (enum_complete a)) as [i Hi].
  destruct (proj1 (list_elem_of_lookup enum_ALL b) (enum_complete b)) as [j Hj].
  assert (i = j) as ->.
  { eapply (NoDup_lookup _ _ _ _ enum_distinct); rewrite list_lookup_fmap.
    - by rewrite Hi.
    - rewrite Hj. simpl. by rewrite Heq. }
  congruence.
Qed.

Lemma enum_from_as_str {A} `{StringEnum A} (a : A) : enum_from_str (enum_as_str a) = Ok a.
Proof.
  unfold enum_from_str.
  destruct (list_find _ _) as [[i b]|] eqn:E.
  - apply list_find_Some in E as (_ & E & _). f_equal. by apply enum_as_str_inj.
  - apply list_find_None in E. rewrite Forall_forall in E.
    by destruct (E a (enum_complete a)).
Qed.

Lemma enum_as_from_str {A} `{StringEnum A} text (a : A) :
  enum_from_str text = Ok a → enum_as_str a = text.
Proof.
  unfold enum_from_str. destruct (list_find _ _) as [[i b]|] eqn:E; [|done].
  apply list_find_Some in E as (_ & E & _). by intros [= <-].
Qed.

(** Discharge the two laws of an enum whose list is closed. *)
Ltac solve_enum :=
  first [ intros []; repeat constructor; fail
        | intros []; apply (bool_decide_unpack _); vm_compute; exact I
        | apply (bool_decide_unpack _); vm_compute; exact I ].

#[local] Set Warnings "-register-all".

(** ** Values *)

(** [rmpv::Value]. A msgpack string whose bytes are not UTF-8 is kept apart
    ([VStrBad]): [as_str] is [None] on it. Floats carry their IEEE bits. *)
Inductive Value : Type :=
| VNil
| VBool (b : bool)
| VInt (z : Z)
| VF32 (bits : Z)
| VF64 (bits : Z)
| VStr (s : string)
| VStrBad (raw : string)
| VBin (raw : string)
| VArr (items : list Value)
| VMap (entries : list (Value * Value))
| VExt (ty : Z) (raw : string).

Section Value_ind.
Variable P : Value → Prop.
Hypothesis Hnil : P VNil.
Hypothesis Hbool : ∀ b, P (VBool b).
Hypothesis Hint : ∀ z, P (VInt z).
Hypothesis Hf32 : ∀ z, P (VF32 z).
Hypothesis Hf64 : ∀ z, P (VF64 z).
Hypothesis Hstr : ∀ s, P (VStr s).
Hypothesis Hbad : ∀ s, P (VStrBad s).
Hypothesis Hbin : ∀ s, P (VBin s).
Hypothesis Harr : ∀ l, Forall P l → P (VArr l).
Hypothesis Hmap : ∀ es, Forall (λ e, P e.2) es → P (VMap es).
Hypothesis Hext : ∀ t s, P (VExt t s).

(** Induction through arrays and the values of maps. *)
Fixpoint Value_nested_ind (v : Value) : P v :=
  match v with
  | VNil => Hnil
  | VBool b => Hbool b
  | VInt z => Hint z
  | VF32 z => Hf32 z
  | VF64 z => Hf64 z
  | VStr s => Hstr s
  | VStrBad s => Hbad s
  | VBin s => Hbin s
  | VArr l =>
      Harr l ((fix go (l : list Value) : Forall P l :=
                 match l with
                 | [] => Forall_nil_2 _
                 | x :: l' => Forall_cons_2 _ _ _ (Value_nested_ind x) (go l')
                 end) l)
  | VMap es =>
      Hmap es ((fix go (l : list (Value * Value)) : Forall (λ e, P e.2) l :=
                  match l with
                  | [] => Forall_nil_2 _
                  | e :: l' => Forall_cons_2 _ _ _ (Value_nested_ind e.2) (go l')
                  end) es)
  | VExt t s => Hext t s
  end.
End Value_ind.

Definition as_str (v : Value) : option string :=
  match v with VStr s => Some s | _ => None end.
Definition as_map (v : Value) : option (list (Value * Value)) :=
  match v with VMap es => Some es | _ => None end.
Definition as_bool (v : Value) : option bool :=
  match v with VBool b => Some b | _ => None end.

(** [Value::is_str] holds of every msgpack string, also a non-UTF-8 one. *)
Definition is_str (v : Value) : bool :=
  match v with VStr _ | VStrBad _ => true | _ => false end.
Definition is_bool (v : Value) : bool := match v with VBool _ => true | _ => false end.
Definition is_map (v : Value) : bool := match v with VMap _ => true | _ => false end.
Definition is_nil (v : Value) : bool := match v with VNil => true | _ => false end.

(** The test [key.as_str() == Some(name)]. *)
Definition key_is (name : string) (k : Value) : bool :=
  match as_str k with Some s => String.eqb s name | None => false end.

Lemma key_is_true name k : key_is name k = true ↔ k = VStr name.
Proof.
  unfold key_is. destruct k; simpl; try (split; [done|congruence]).
  rewrite String.eqb_eq. split; [by intros ->|by intros [= ->]].
Qed.

(** The value of the first entry under [name]. *)
Fixpoint map_get (name : string) (es : list (Value * Value)) : option Value :=
  match es with
  | [] => None
  | (k, v) :: es' => if key_is name k then Some v else map_get name es'
  end.

(** ** [stable_value] *)

(** The sort key of an entry: the UTF-16 units of its key, those of the empty
    string for a key that is not text. *)
Definition sort_key (e : Value * Value) : list Z :=
  Str.encode_utf16 (default "" (as_str e.1)).

Definition entry_le (a b : Value * Value) : bool := Str.lex_le (sort_key a) (sort_key b).

(** [slice::sort_by] is stable: an entry goes before the entries it is not
    greater than, and the input is inserted from its end. *)
Fixpoint insert_entry (e : Value * Value) (l : list (Value * Value)) : list (Value * Value) :=
  match l with
  | [] => [e]
  | x :: l' => if entry_le e x then e :: x :: l' else x :: insert_entry e l'
  end.
Fixpoint sort_entries (l : list (Value * Value)) : list (Value * Value) :=
  match l with [] => [] | e :: l' => insert_entry e (sort_entries l') end.

Fixpoint stable_value (v : Value) : Value :=
  match v with
  | VArr items => VArr (map stable_value items)
  | VMap entries =>
      VMap (sort_entries (map (λ e, match e with (k, x) => (k, stable_value x) end) entries))
  | other => other
  end.

(** *** Facts on the order and the sort *)

#[local] Hint Resolve Z.eqb_refl : core.

Lemma lex_le_refl l : Str.lex_le l l = true.
Proof. induction l; simpl; [done|]. by rewrite Z.eqb_refl. Qed.

Lemma lex_le_total l k : Str.lex_le l k = true ∨ Str.lex_le k l = true.
Proof.
  revert k. induction l as [|x l IH]; intros [|y k]; simpl; auto.
  rewrite (Z.eqb_sym y x). destruct (x =? y) eqn:E; [auto|].
  apply Z.eqb_neq in E. rewrite !Z.ltb_lt. lia.
Qed.

Lemma lex_le_trans l k m :
  Str.lex_le l k = true → Str.lex_le k m = true → Str.lex_le l m = true.
Proof.
  revert k m. induction l as [|x l IH]; intros [|y k] [|z m]; simpl; try done.
  destruct (x =? y) eqn:E1, (y =? z) eqn:E2;
    rewrite ?Z.eqb_eq, ?Z.eqb_neq, ?Z.ltb_lt in *; subst.
  - rewrite Z.eqb_refl. eauto.
  - intros _ H. destruct (y =? z) eqn:E3; [lia|]. by apply Z.ltb_lt.
  - intros H _. destruct (x =? z) eqn:E3; [lia|]. by apply Z.ltb_lt.
  - intros H1 H2. destruct (x =? z) eqn:E3; [lia|]. apply Z.ltb_lt. lia.
Qed.

Lemma lex_le_antisym l k : Str.lex_le l k = true → Str.lex_le k l = true → l = k.
Proof.
  revert k. induction l as [|x l IH]; intros [|y k]; simpl; try done.
  rewrite (Z.eqb_sym y x). destruct (x =? y) eqn:E.
  - apply Z.eqb_eq in E as ->. intros. f_equal. auto.
  - rewrite !Z.ltb_lt. lia.
Qed.

Definition entry_ord (a b : Value * Value) : Prop := entry_le a b = true.

#[export] Instance entry_ord_trans : Transitive entry_ord.
Proof. intros a b c. apply lex_le_trans. Qed.

Lemma insert_entry_perm e l : insert_entry e l ≡ₚ e :: l.
Proof.
  induction l as [|x l IH]; simpl; [done|]. destruct (entry_le e x); [done|].
  rewrite IH. apply Permutation_swap.
Qed.

Lemma sort_entries_perm l : sort_entries l ≡ₚ l.
Proof. induction l as [|e l IH]; simpl; [done|]. by rewrite insert_entry_perm, IH. Qed.

Lemma insert_entry_sorted e l :
  StronglySorted entry_ord l → StronglySorted entry_ord (insert_entry e l).
Proof.
  induction 1 as [|x l Hl IH Hx]; simpl; [repeat constructor|].
  destruct (entry_le e x) eqn:E.
  - constructor; [by constructor|]. constructor; [done|].
    eapply Forall_impl; [exact Hx|]. intros y Hy. by transitivity x.
  - constructor; [done|]. rewrite insert_entry_perm. constructor; [|done].
    destruct (lex_le_total (sort_key e) (sort_key x)) as [H|H]; [|done].
    unfold entry_le in E. congruence.
Qed.

Lemma sort_entries_sorted l : StronglySorted entry_ord (sort_entries l).
Proof. induction l; simpl; [constructor|]. by apply insert_entry_sorted. Qed.

Lemma sort_entries_id l : StronglySorted entry_ord l → sort_entries l = l.
Proof.
  induction 1 as [|x l Hl IH Hx]; simpl; [done|]. rewrite IH.
  destruct Hx as [|y l Hxy Hl']; simpl; [done|]. unfold entry_ord in Hxy. by rewrite Hxy.
Qed.

(** Sorting is a function of the multiset of entries when the keys differ. *)
Lemma sort_entries_unique l k :
  NoDup (sort_key <$> l) → l ≡ₚ k → sort_entries l = sort_entries k.
Proof.
  intros Hnd Hp.
  apply (StronglySorted_unique_strong entry_ord); [|apply sort_entries_sorted..|].
  - intros x y Hx Hy Hxy Hyx.
    rewrite sort_entries_perm in Hx, Hy. rewrite <- Hp in Hy.
    apply list_elem_of_lookup in Hx as [i Hi], Hy as [j Hj].
    assert (i = j) as ->.
    { eapply (NoDup_lookup _ _ _ _ Hnd); rewrite list_lookup_fmap.
      - by rewrite Hi.
      - rewrite Hj. simpl. f_equal. by apply lex_le_antisym. }
    congruence.
  - by rewrite !sort_entries_perm.
Qed.

(** *** [stable_value] is a canonical form *)

(** No two entries of a map, at any depth, share a sort key. *)
Fixpoint distinct_keys (v : Value) : Prop :=
  match v with
  | VArr items => fold_right (λ x acc, distinct_keys x ∧ acc) True items
  | VMap es =>
      NoDup (sort_key <$> es)
      ∧ fold_right (λ e acc, match e with (_, x) => distinct_keys x ∧ acc end) True es
  | _ => True
  end.

(** Equality up to the order of map entries, at any depth. *)
Inductive same_upto_order : Value → Value → Prop :=
| same_refl v : same_upto_order v v
| same_arr l k : Forall2 same_upto_order l k → same_upto_order (VArr l) (VArr k)
| same_map es fs gs :
    Forall2 (λ a b, a.1 = b.1 ∧ same_upto_order a.2 b.2) es fs →
    fs ≡ₚ gs →
    same_upto_order (VMap es) (VMap gs).

Definition stable_entry (e : Value * Value) : Value * Value :=
  match e with (k, x) => (k, stable_value x) end.

Lemma sort_key_stable_entry (es : list (Value * Value)) :
  sort_key <$> (stable_entry <$> es) = sort_key <$> es.
Proof. rewrite <- list_fmap_compose. by apply list_fmap_ext; intros ? [? ?]. Qed.

Lemma stable_arr l : stable_value (VArr l) = VArr (stable_value <$> l).
Proof. done. Qed.
Lemma stable_map es : stable_value (VMap es) = VMap (sort_entries (stable_entry <$> es)).
Proof. done. Qed.

Lemma distinct_keys_arr l : distinct_keys (VArr l) ↔ Forall distinct_keys l.
Proof.
  simpl. induction l as [|x l IH]; simpl; [by split|]. rewrite Forall_cons. by rewrite IH.
Qed.
Lemma distinct_keys_map es :
  distinct_keys (VMap es) ↔ NoDup (sort_key <$> es) ∧ Forall (λ e, distinct_keys e.2) es.
Proof.
  simpl. apply and_iff_compat_l. induction es as [|[k x] l IH]; simpl; [by split|].
  rewrite Forall_cons. by rewrite IH.
Qed.

Lemma sort_key_same (es fs : list (Value * Value)) :
  Forall2 (λ a b, a.1 = b.1 ∧ same_upto_order a.2 b.2) es fs →
  sort_key <$> es = sort_key <$> fs.
Proof.
  induction 1 as [|[k x] [k' y] es fs [Hk _] _ IH]; csimpl; [done|].
  simpl in Hk. subst. by rewrite IH.
Qed.

(** [stable_value] is a canonical form: two values that differ only in the
    order of map entries (at any depth), with distinct keys, normalise to the
    same value, so the bytes a schema frame puts on the wire do not depend on
    the order the schema was built in. *)
Theorem stable_value_canonical v w :
  distinct_keys v → same_upto_order v w → stable_value v = stable_value w.
Proof.
  revert w. induction v as [| | | | | | | |l IH|es IH|] using Value_nested_ind;
    intros w Hd Hs; inversion Hs as [|? k Hk|? fs gs Hfs Hp]; subst; try done.
  - apply distinct_keys_arr in Hd. rewrite !stable_arr. f_equal.
    clear Hs. induction Hk as [|x y l k Hxy Hk IHk]; csimpl; [done|].
    inversion IH; inversion Hd; subst. f_equal; auto.
  - apply distinct_keys_map in Hd as [Hnd Hd]. rewrite !stable_map. f_equal.
    rewrite <- (sort_entries_unique (stable_entry <$> fs) (stable_entry <$> gs)).
    + f_equal. clear Hs Hnd Hp gs.
      induction Hfs as [|[k x] [k' y] es fs [Hk Hxy] Hfs IHf]; csimpl; [done|].
      inversion IH; inversion Hd; subst; simpl in *; subst.
      f_equal; [f_equal|]; auto.
    + by rewrite sort_key_stable_entry, <- (sort_key_same es fs).
    + by rewrite Hp.
Qed.

Lemma stable_value_canonical_witness :
  let v := VMap [(VStr "b", VInt 1);
                 (VStr "a", VMap [(VStr "z", VInt 2); (VStr "y", VInt 3)])] in
  let w := VMap [(VStr "a", VMap [(VStr "y", VInt 3); (VStr "z", VInt 2)]);
                 (VStr "b", VInt 1)] in
  distinct_keys v ∧ same_upto_order v w ∧ stable_value v = stable_value w.
Proof.
  assert (Hd : distinct_keys (VMap [(VStr "b", VInt 1);
                 (VStr "a", VMap [(VStr "z", VInt 2); (VStr "y", VInt 3)])])).
  { simpl. repeat split; apply (bool_decide_unpack _); vm_compute; exact I. }
  assert (Hs : same_upto_order
     (VMap [(VStr "b", VInt 1); (VStr "a", VMap [(VStr "z", VInt 2); (VStr "y", VInt 3)])])
     (VMap [(VStr "a", VMap [(VStr "y", VInt 3); (VStr "z", VInt 2)]); (VStr "b", VInt 1)])).
  { eapply (same_map _ [(VStr "b", VInt 1);
                       (VStr "a", VMap [(VStr "y", VInt 3); (VStr "z", VInt 2)])]);
      [|apply Permutation_swap].
    repeat constructor.
    eapply (same_map _ [(VStr "z", VInt 2); (VStr "y", VInt 3)]);
      [repeat constructor|apply Permutation_swap]. }
  split; [exact Hd|]. split; [exact Hs|]. exact (stable_value_canonical _ _ Hd Hs).
Defined.

(** Every map of the value lists its entries in UTF-16 key order. *)
Fixpoint sorted_maps (v : Value) : Prop :=
  match v with
  | VArr items => fold_right (λ x acc, sorted_maps x ∧ acc) True items
  | VMap es =>
      StronglySorted entry_ord es
      ∧ fold_right (λ e acc, match e with (_, x) => sorted_maps x ∧ acc end) True es
  | _ => True
  end.

Lemma sorted_maps_arr l : sorted_maps (VArr l) ↔ Forall sorted_maps l.
Proof.
  simpl. induction l as [|x l IH]; simpl; [by split|]. rewrite Forall_cons. by rewrite IH.
Qed.
Lemma sorted_maps_map es :
  sorted_maps (VMap es) ↔ StronglySorted entry_ord es ∧ Forall (λ e, sorted_maps e.2) es.
Proof.
  simpl. apply and_iff_compat_l. induction es as [|[k x] l IH]; simpl; [by split|].
  rewrite Forall_cons. by rewrite IH.
Qed.

Lemma stable_value_sorted v : sorted_maps (stable_value v).
Proof.
  induction v as [| | | | | | | |l IH|es IH|] using Value_nested_ind; try done.
  - rewrite stable_arr, sorted_maps_arr. by apply Forall_fmap.
  - rewrite stable_map, sorted_maps_map. split; [apply sort_entries_sorted|].
    rewrite sort_entries_perm. apply Forall_fmap.
    eapply Forall_impl; [exact IH|]. by intros [k x].
Qed.

Lemma stable_value_fixpoint v : sorted_maps v → stable_value v = v.
Proof.
  induction v as [| | | | | | | |l IH|es IH|] using Value_nested_ind; try done.
  - rewrite sorted_maps_arr, stable_arr. intros Hs. f_equal.
    induction IH; inversion Hs; subst; csimpl; [done|]. f_equal; auto.
  - rewrite sorted_maps_map, stable_map. intros [Hs Hf]. f_equal.
    rewrite <- (sort_entries_id es) at 2 by done. f_equal. clear Hs.
    induction IH as [|[k x]]; inversion Hf; subst; csimpl; [done|]. f_equal; [f_equal|]; auto.
Qed.

(** [stable_value] sorts every map of the value by the UTF-16 code units of
    its keys, as the TypeScript [stableClone] does, keeps the same entries
    (each map is a permutation of the normalised entries), and is idempotent. *)
Theorem stable_value_spec v :
  sorted_maps (stable_value v)
  ∧ stable_value (stable_value v) = stable_value v
  ∧ match v, stable_value v with
    | VMap es, VMap es' => es' ≡ₚ (stable_entry <$> es)
    | VArr l, VArr l' => l' = stable_value <$> l
    | _, w => w = v
    end.
Proof.
  split; [apply stable_value_sorted|].
  split; [apply stable_value_fixpoint, stable_value_sorted|].
  destruct v; simpl; try done. apply sort_entries_perm.
Qed.
