(* ===== verification/Errors.v ===== *)
(** * The error envelope ([crates/frick-protocol/src/errors.rs])

    The canonical error codes, the envelope every failure surfaces as, its
    serialized map and the shape check [is_envelope_value]. *)

From Stdlib Require Import ZArith Lia Ascii String.
From stdpp Require Import base gmap strings list pretty.
From S2P Require Import Prelude Value.

Inductive FrickErrorCode : Type :=
| AuthUnauthenticated | AuthForbidden | AuthSessionExpired
| SchemaIncompatible | SchemaMigrationRequired
| StorageConflict | StorageNotFound
| StreamAppendRejected | StreamInvalidCursor
| SyncProtocolError | SyncReconnectExhausted
| BlobTooLarge | BlobUnsupportedContentType | BlobQuotaExceeded
| RateLimitExceeded | ServerInternal.

#[export] Instance FrickErrorCode_eq_dec : EqDecision FrickErrorCode.
Proof. solve_decision. Defined.

Definition FrickErrorCode_as_str (c : FrickErrorCode) : string :=
  match c with
  | AuthUnauthenticated => "auth.unauthenticated"
  | AuthForbidden => "auth.forbidden"
  | AuthSessionExpired => "auth.sessionExpired"
  | SchemaIncompatible => "schema.incompatible"
  | SchemaMigrationRequired => "schema.migrationRequired"
  | StorageConflict => "storage.conflict"
  | StorageNotFound => "storage.notFound"
  | StreamAppendRejected => "stream.appendRejected"
  | StreamInvalidCursor => "stream.invalidCursor"
  | SyncProtocolError => "sync.protocolError"
  | SyncReconnectExhausted => "sync.reconnectExhausted"
  | BlobTooLarge => "blob.tooLarge"
  | BlobUnsupportedContentType => "blob.unsupportedContentType"
  | BlobQuotaExceeded => "blob.quotaExceeded"
  | RateLimitExceeded => "rateLimit.exceeded"
  | ServerInternal => "server.internal"
  end.

#[export, refine] Instance FrickErrorCode_enum : StringEnum FrickErrorCode := {|
  enum_name := "FrickErrorCode";
  enum_ALL := [AuthUnauthenticated; AuthForbidden; AuthSessionExpired; SchemaIncompatible;
    SchemaMigrationRequired; StorageConflict; StorageNotFound; StreamAppendRejected;
    StreamInvalidCursor; SyncProtocolError; SyncReconnectExhausted; BlobTooLarge;
    BlobUnsupportedContentType; BlobQuotaExceeded; RateLimitExceeded; ServerInternal];
  enum_as_str := FrickErrorCode_as_str;
|}.
Proof. all: solve_enum. Defined.

Record FrickErrorEnvelope : Type := {
  code : FrickErrorCode;
  env_message : string;
  request_id : string;
  retryable : bool;
  details : option Value;
  schema_hash : option string;
  env_schema_revision : option Z;
}.

(** [skip_serializing_if = "Option::is_none"]. *)
Definition opt_entry {A} (name : string) (f : A → Value) (o : option A) : list (Value * Value) :=
  match o with Some a => [(VStr name, f a)] | None => [] end.

(** The map the derived [Serialize] writes: camelCase keys in field order,
    absent options omitted. *)
Definition envelope_to_value (e : FrickErrorEnvelope) : Value :=
  VMap ([(VStr "code", VStr (FrickErrorCode_as_str (code e)));
         (VStr "message", VStr (env_message e));
         (VStr "requestId", VStr (request_id e));
         (VStr "retryable", VBool (retryable e))]
        ++ opt_entry "details" id (details e)
        ++ opt_entry "schemaHash" VStr (schema_hash e)
        ++ opt_entry "schemaRevision" VInt (env_schema_revision e)).

(** [f.is_finite() && f.fract() == 0.0] on the IEEE bits: [mant] mantissa bits
    below an exponent field of [emax + 1] values with the given bias. *)
Definition float_is_integral (mant emax bias : Z) (bits : Z) : bool :=
  let e := Z.land (Z.shiftr bits mant) emax in
  let m := Z.land bits (2 ^ mant - 1) in
  negb (e =? emax)
  && (if e =? 0 then m =? 0
      else if e <? bias then false
      else if bias + mant <=? e then true
      else m mod 2 ^ (bias + mant - e) =? 0).

(** The [Number.isInteger] guard: [as_i64], [as_u64] or an integral float. *)
Definition is_integer (v : Value) : bool :=
  match v with
  | VInt _ => true
  | VF32 bits => float_is_integral 23 255 127 bits
  | VF64 bits => float_is_integral 52 2047 1023 bits
  | _ => false
  end.

Definition is_some_and {A} (o : option A) (p : A → bool) : bool :=
  match o with Some a => p a | None => false end.

(** [FrickErrorEnvelope::is_envelope_value]; [get] searches from the end, so a
    repeated key resolves to its last value. *)
Definition is_envelope_value (value : Value) : bool :=
  match value with
  | VMap entries =>
      let get name := map_get name (reverse entries) in
      let code_is_known :=
        is_some_and (get "code" ≫= as_str)
          (λ c, is_ok (enum_from_str (A := FrickErrorCode) c)) in
      if negb code_is_known
         || negb (is_some_and (get "message") is_str)
         || negb (is_some_and (get "requestId") is_str)
         || negb (is_some_and (get "retryable") is_bool)
      then false
      else if is_some_and (get "details")
                (λ v, negb (is_map v || match v with VBin _ | VExt _ _ => true | _ => false end))
      then false
      else if is_some_and (get "schemaHash") (λ v, negb (is_str v)) then false
      else if is_some_and (get "schemaRevision") (λ v, negb (is_integer v)) then false
      else true
  | _ => false
  end.

(** [details], when present, is what the guard accepts. *)
Definition details_ok (e : FrickErrorEnvelope) : bool :=
  match details e with
  | None | Some (VMap _) | Some (VBin _) | Some (VExt _ _) => true
  | _ => false
  end.

(** the shape check accepts the serialization of an envelope exactly when
    its [details] is absent or an object (map, binary or extension): every
    envelope the server builds with such details is recognised by the clients'
    guard, and one with scalar or array details is not. *)
Theorem is_envelope_value_of_envelope e :
  is_envelope_value (envelope_to_value e) = details_ok e.
Proof.
  destruct e as [c m r b d h v]. unfold envelope_to_value, is_envelope_value, details_ok.
  simpl details. simpl code. simpl env_message. simpl request_id. simpl retryable.
  simpl schema_hash. simpl env_schema_revision.
  assert (Hc : is_ok (enum_from_str (A := FrickErrorCode) (FrickErrorCode_as_str c)) = true).
  { change (FrickErrorCode_as_str c) with (enum_as_str c). by rewrite enum_from_as_str. }
  destruct d as [[]|], h, v; cbn -[enum_from_str FrickErrorCode_as_str];
    rewrite Hc; reflexivity.
Qed.

Lemma map_get_last name entries k v :
  map_get name (reverse (entries ++ [(k, v)]))
  = if key_is name k then Some v else map_get name (reverse entries).
Proof. by rewrite reverse_snoc. Qed.

(** the last occurrence of a repeated key decides: appending an entry
    [code] with a known code to any envelope value keeps it accepted, and
    appending one with an unknown code makes it rejected. *)
Theorem is_envelope_value_last_wins entries c text :
  is_envelope_value (VMap entries) = true →
  enum_from_str (A := FrickErrorCode) text = Ok c →
  is_envelope_value (VMap (entries ++ [(VStr "code", VStr text)])) = true
  ∧ ∀ bad, is_ok (enum_from_str (A := FrickErrorCode) bad) = false →
      is_envelope_value (VMap (entries ++ [(VStr "code", VStr bad)])) = false.
Proof.
  unfold is_envelope_value. cbv zeta. intros H Ht.
  split.
  - rewrite !map_get_last. simpl key_is. cbv iota. simpl mbind. unfold is_some_and at 1.
    rewrite Ht. simpl is_ok.
    destruct (is_some_and (map_get "code" (reverse entries) ≫= as_str) _); [exact H|done].
  - intros bad Hb. rewrite !map_get_last. simpl key_is. cbv iota. simpl mbind.
    unfold is_some_and at 1. by rewrite Hb.
Qed.

Lemma is_envelope_value_last_wins_witness :
  let base := [(VStr "code", VStr "storage.notFound"); (VStr "message", VStr "missing");
               (VStr "requestId", VStr "req-1"); (VStr "retryable", VBool false)] in
  is_envelope_value (VMap (base ++ [(VStr "code", VStr "auth.forbidden")])) = true
  ∧ is_envelope_value (VMap (base ++ [(VStr "code", VStr "nope.nope")])) = false.
Proof.
  pose proof (is_envelope_value_last_wins
    [(VStr "code", VStr "storage.notFound"); (VStr "message", VStr "missing");
     (VStr "requestId", VStr "req-1"); (VStr "retryable", VBool false)]
    AuthForbidden "auth.forbidden" ltac:(vm_compute; reflexivity)
    ltac:(vm_compute; reflexivity)) as [H1 H2].
  split; [exact H1|]. apply H2. vm_compute. reflexivity.
Defined.
