(* ===== verification/Schema.v ===== *)
(** * The canonical schema ([crates/frick-protocol/src/schema.rs])

    The schema AST, [validate_schema] with its error messages, and the lookups.
    The validator is proved to accept exactly the schemas that satisfy the
    declarative [schema_valid], and the lookups to be inverse to the ids and
    names of a validated schema. *)

From Stdlib Require Import ZArith Lia Ascii String.
From stdpp Require Import base gmap strings list pretty.
From S2P Require Import Prelude Value.

Abbreviation perr s := (Err (ProtocolError_new s)).

(** ** The AST *)

Inductive FieldKind : Type :=
| FK_Id | FK_Ref | FK_String | FK_Bool | FK_Timestamp | FK_Int | FK_Bytes | FK_Enum | FK_Json.
#[export] Instance FieldKind_eq_dec : EqDecision FieldKind.
Proof. solve_decision. Defined.
#[export, refine] Instance FieldKind_enum : StringEnum FieldKind := {|
  enum_name := "FieldKind";
  enum_ALL := [FK_Id; FK_Ref; FK_String; FK_Bool; FK_Timestamp; FK_Int; FK_Bytes; FK_Enum; FK_Json];
  enum_as_str k := match k with
    | FK_Id => "id" | FK_Ref => "ref" | FK_String => "string" | FK_Bool => "bool"
    | FK_Timestamp => "timestamp" | FK_Int => "int" | FK_Bytes => "bytes"
    | FK_Enum => "enum" | FK_Json => "json" end;
|}.
Proof. all: solve_enum. Defined.

Inductive FieldSensitivity : Type := FS_Public | FS_Private | FS_Pii | FS_Secret | FS_Content.
#[export] Instance FieldSensitivity_eq_dec : EqDecision FieldSensitivity.
Proof. solve_decision. Defined.
#[export, refine] Instance FieldSensitivity_enum : StringEnum FieldSensitivity := {|
  enum_name := "FieldSensitivity";
  enum_ALL := [FS_Public; FS_Private; FS_Pii; FS_Secret; FS_Content];
  enum_as_str k := match k with
    | FS_Public => "public" | FS_Private => "private" | FS_Pii => "pii"
    | FS_Secret => "secret" | FS_Content => "content" end;
|}.
Proof. all: solve_enum. Defined.

Definition DEFAULT_FIELD_SENSITIVITY : FieldSensitivity := FS_Private.

Inductive FrickObjectMergePolicy : Type := LastWriteWins | VersionPrecondition.
#[export] Instance FrickObjectMergePolicy_eq_dec : EqDecision FrickObjectMergePolicy.
Proof. solve_decision. Defined.
#[export, refine] Instance FrickObjectMergePolicy_enum : StringEnum FrickObjectMergePolicy := {|
  enum_name := "FrickObjectMergePolicy";
  enum_ALL := [LastWriteWins; VersionPrecondition];
  enum_as_str k := match k with
    | LastWriteWins => "lastWriteWins" | VersionPrecondition => "versionPrecondition" end;
|}.
Proof. all: solve_enum. Defined.

Record FieldDef : Type := {
  fd_id : Z; fd_name : string; fd_kind : FieldKind; fd_required : bool;
  fd_ref : option string; fd_enum_values : option (list string);
  fd_sensitivity : option string;
}.
#[export] Instance FieldDef_eq_dec : EqDecision FieldDef.
Proof. solve_decision. Defined.

Record IndexDef : Type := { ix_id : Z; ix_name : string; ix_fields : list string }.
#[export] Instance IndexDef_eq_dec : EqDecision IndexDef.
Proof. solve_decision. Defined.

Record ObjectDef : Type := {
  od_id : Z; od_name : string; od_fields : list FieldDef; od_indexes : list IndexDef;
  od_merge_policy : option FrickObjectMergePolicy;
}.
Record StreamDef : Type := {
  sd_id : Z; sd_name : string; sd_key_fields : list FieldDef; sd_events : list string;
}.
Record EventDef : Type := { ed_id : Z; ed_name : string; ed_fields : list FieldDef }.
Record PresenceDef : Type := {
  pd_id : Z; pd_name : string; pd_key_fields : list FieldDef; pd_fields : list FieldDef;
  pd_ttl_ms : Z;
}.
Record SignalDef : Type := {
  sg_id : Z; sg_name : string; sg_key_fields : list FieldDef; sg_fields : list FieldDef;
  sg_ttl_ms : Z;
}.
Record BlobDef : Type := { bd_id : Z; bd_name : string; bd_metadata_fields : list FieldDef }.
Record JobDef : Type := { jd_id : Z; jd_name : string; jd_fields : list FieldDef }.
Record ProjectionDef : Type := {
  pj_id : Z; pj_name : string; pj_source : string; pj_fields : list FieldDef;
  pj_indexes : list IndexDef;
}.

Record FrickSchema : Type := {
  s_name : string; schema_id : string; schema_version : string;
  schema_revision : Z; minimum_client_revision : Z; minimum_server_revision : Z;
  protocol : string; protocol_version : Z; compatibility : string; hash : string;
  objects : list ObjectDef; streams : list StreamDef; events : list EventDef;
  presences : list PresenceDef; signals : list SignalDef; blobs : list BlobDef;
  jobs : list JobDef; projections : list ProjectionDef;
}.

(** [FieldDef::resolve_sensitivity]. *)
Definition resolve_sensitivity (f : FieldDef) : FieldSensitivity :=
  default DEFAULT_FIELD_SENSITIVITY
    (fd_sensitivity f ≫= λ text, ok (enum_from_str (A := FieldSensitivity) text)).

(** ** Validation *)

Definition validate_schema_identity (schema : FrickSchema) : result ProtocolError unit :=
  if Str.is_empty (Str.trim (schema_id schema))
  then perr "schemaId must be a non-empty string"
  else if Str.is_empty (Str.trim (schema_version schema))
  then perr "schemaVersion must be a non-empty string"
  else if schema_revision schema <=? 0
  then perr "schemaRevision must be a positive integer"
  else if minimum_client_revision schema <=? 0
  then perr "minimumClientRevision must be a positive integer"
  else if minimum_server_revision schema <=? 0
  then perr "minimumServerRevision must be a positive integer"
  else Ok tt.

(** The loop state is the two [HashSet]s of ids and lower-cased names. *)
Definition validate_type_step (label : string) (seen : gset Z * gset string) (t : Z * string) :
    result ProtocolError (gset Z * gset string) :=
  let '(ids, names) := seen in
  let '(id, name) := t in
  if bool_decide (id ∈ ids) then perr ("Duplicate " +:+ label +:+ " id " +:+ fmt id)
  else if bool_decide (Str.to_lowercase name ∈ names)
  then perr ("Duplicate " +:+ label +:+ " name " +:+ name)
  else Ok ({[id]} ∪ ids, {[Str.to_lowercase name]} ∪ names).

Definition validate_type_set (types : list (Z * string)) (label : string) :
    result ProtocolError unit :=
  match fold_res (validate_type_step label) (∅, ∅) types with
  | Ok _ => Ok tt
  | Err e => Err e
  end.

Record RefTargets : Type := { object_names : list string; blob_names : list string }.

Definition contains (l : list string) (x : string) : bool := bool_decide (x ∈ l).

Definition validate_field_ref (owner : string) (refs : RefTargets) (field : FieldDef) :
    result ProtocolError unit :=
  match fd_kind field, fd_ref field with
  | FK_Ref, Some target =>
      if negb (Str.is_empty target)
         && negb (contains (object_names refs) target)
         && negb (contains (blob_names refs) target)
      then perr ("Unknown ref target " +:+ target +:+ " in " +:+ owner +:+ "." +:+ fd_name field)
      else Ok tt
  | _, _ => Ok tt
  end.

Definition validate_field_enum (owner : string) (field : FieldDef) : result ProtocolError unit :=
  if bool_decide (fd_kind field = FK_Enum)
     && match fd_enum_values field with None => true | Some [] => true | Some _ => false end
  then perr ("Enum field " +:+ owner +:+ "." +:+ fd_name field +:+ " must declare enumValues")
  else Ok tt.

Definition quote : string := String (ascii_of_nat 34) EmptyString.

Definition validate_field_sensitivity (owner : string) (field : FieldDef) :
    result ProtocolError unit :=
  match fd_sensitivity field with
  | Some sensitivity =>
      if is_ok (enum_from_str (A := FieldSensitivity) sensitivity) then Ok tt
      else perr ("Unknown sensitivity " +:+ quote +:+ sensitivity +:+ quote
                 +:+ " for field " +:+ owner +:+ "." +:+ fd_name field)
  | None => Ok tt
  end.

(** One iteration of the loop of [validate_fields]. *)
Definition validate_field_step (owner : string) (refs : RefTargets)
    (seen : gset Z * gset string) (field : FieldDef) :
    result ProtocolError (gset Z * gset string) :=
  let '(ids, names) := seen in
  if bool_decide (fd_id field ∈ ids)
  then perr ("Duplicate field id " +:+ fmt (fd_id field) +:+ " in " +:+ owner)
  else if bool_decide (Str.to_lowercase (fd_name field) ∈ names)
  then perr ("Duplicate field name " +:+ owner +:+ "." +:+ fd_name field)
  else
    validate_field_ref owner refs field;;
    validate_field_enum owner field;;
    validate_field_sensitivity owner field;;
    Ok ({[fd_id field]} ∪ ids, {[Str.to_lowercase (fd_name field)]} ∪ names).

Definition validate_fields (owner : string) (fields : list FieldDef) (refs : RefTargets) :
    result ProtocolError unit :=
  match fold_res (validate_field_step owner refs) (∅, ∅) fields with
  | Ok _ => Ok tt
  | Err e => Err e
  end.

Definition validate_indexes (owner : string) (fields : list FieldDef) (indexes : list IndexDef) :
    result ProtocolError unit :=
  validate_type_set ((λ ix, (ix_id ix, ix_name ix)) <$> indexes) (owner +:+ " index");;
  let field_names := fd_name <$> fields in
  for_res (λ ix,
    for_res (λ field_name,
      if contains field_names field_name then Ok tt
      else perr ("Unknown index field " +:+ owner +:+ "." +:+ ix_name ix +:+ "." +:+ field_name))
      (ix_fields ix)) indexes.

Definition validate_schema (schema : FrickSchema) : result ProtocolError unit :=
  if negb (String.eqb (protocol schema) "frick.realtime")
  then perr ("Unsupported protocol: " +:+ protocol schema)
  else if negb (String.eqb (compatibility schema) "greenfield-cutover")
  then perr ("Unsupported compatibility mode: " +:+ compatibility schema)
  else
  validate_schema_identity schema;;
  validate_type_set ((λ t, (od_id t, od_name t)) <$> objects schema) "object";;
  validate_type_set ((λ t, (sd_id t, sd_name t)) <$> streams schema) "stream";;
  validate_type_set ((λ t, (ed_id t, ed_name t)) <$> events schema) "event";;
  validate_type_set ((λ t, (pd_id t, pd_name t)) <$> presences schema) "presence";;
  validate_type_set ((λ t, (sg_id t, sg_name t)) <$> signals schema) "signal";;
  validate_type_set ((λ t, (bd_id t, bd_name t)) <$> blobs schema) "blob";;
  validate_type_set ((λ t, (jd_id t, jd_name t)) <$> jobs schema) "job";;
  validate_type_set ((λ t, (pj_id t, pj_name t)) <$> projections schema) "projection";;
  let obj_names := od_name <$> objects schema in
  let event_names := ed_name <$> events schema in
  let stream_names := sd_name <$> streams schema in
  let refs := {| object_names := obj_names; blob_names := bd_name <$> blobs schema |} in
  for_res (λ object,
    validate_fields (od_name object) (od_fields object) refs;;
    validate_indexes (od_name object) (od_fields object) (od_indexes object)) (objects schema);;
  for_res (λ stream,
    validate_fields (sd_name stream +:+ ".key") (sd_key_fields stream) refs;;
    for_res (λ event,
      if contains event_names event then Ok tt
      else perr ("Unknown stream event " +:+ event +:+ " in " +:+ sd_name stream))
      (sd_events stream)) (streams schema);;
  for_res (λ event, validate_fields (ed_name event) (ed_fields event) refs) (events schema);;
  for_res (λ presence,
    validate_fields (pd_name presence +:+ ".key") (pd_key_fields presence) refs;;
    validate_fields (pd_name presence) (pd_fields presence) refs) (presences schema);;
  for_res (λ signal,
    validate_fields (sg_name signal +:+ ".key") (sg_key_fields signal) refs;;
    validate_fields (sg_name signal) (sg_fields signal) refs) (signals schema);;
  for_res (λ blob, validate_fields (bd_name blob) (bd_metadata_fields blob) refs) (blobs schema);;
  for_res (λ job, validate_fields (jd_name job) (jd_fields job) refs) (jobs schema);;
  for_res (λ projection,
    (if negb (contains stream_names (pj_source projection))
        && negb (contains obj_names (pj_source projection))
     then perr ("Unknown projection source " +:+ pj_source projection +:+ " in "
                +:+ pj_name projection)
     else Ok tt);;
    validate_fields (pj_name projection) (pj_fields projection) refs;;
    validate_indexes (pj_name projection) (pj_fields projection) (pj_indexes projection))
    (projections schema).

(** ** Lookups *)

Definition find_by_name {T} (types : list T) (label name : string) (get_name : T → string) :
    result ProtocolError T :=
  match list_find (λ t, get_name t = name) types with
  | Some (_, t) => Ok t
  | None => perr ("Unknown " +:+ label +:+ ": " +:+ name)
  end.

Definition find_by_id {T} (types : list T) (label : string) (id : Z) (get_id : T → Z) :
    result ProtocolError T :=
  match list_find (λ t, get_id t = id) types with
  | Some (_, t) => Ok t
  | None => perr ("Unknown " +:+ label +:+ " id: " +:+ fmt id)
  end.

Definition object_by_name (s : FrickSchema) (name : string) :=
  find_by_name (objects s) "object" name od_name.
Definition object_by_id (s : FrickSchema) (id : Z) := find_by_id (objects s) "object" id od_id.

Definition resolve_object_merge_policy (s : FrickSchema) (name : string) : FrickObjectMergePolicy :=
  default LastWriteWins
    (list_find (λ o, od_name o = name) (objects s) ≫= λ p, od_merge_policy p.2).

Definition stream_by_name (s : FrickSchema) (name : string) :=
  find_by_name (streams s) "stream" name sd_name.
Definition stream_by_id (s : FrickSchema) (id : Z) := find_by_id (streams s) "stream" id sd_id.
Definition event_by_name (s : FrickSchema) (name : string) :=
  find_by_name (events s) "event" name ed_name.
Definition event_by_id (s : FrickSchema) (id : Z) := find_by_id (events s) "event" id ed_id.
Definition presence_by_name (s : FrickSchema) (name : string) :=
  find_by_name (presences s) "presence" name pd_name.
Definition presence_by_id (s : FrickSchema) (id : Z) :=
  find_by_id (presences s) "presence" id pd_id.
Definition signal_by_name (s : FrickSchema) (name : string) :=
  find_by_name (signals s) "signal" name sg_name.
Definition signal_by_id (s : FrickSchema) (id : Z) := find_by_id (signals s) "signal" id sg_id.
Definition blob_by_name (s : FrickSchema) (name : string) :=
  find_by_name (blobs s) "blob" name bd_name.
Definition job_by_name (s : FrickSchema) (name : string) :=
  find_by_name (jobs s) "job" name jd_name.
Definition projection_by_name (s : FrickSchema) (name : string) :=
  find_by_name (projections s) "projection" name pj_name.

Definition field_by_name (fields : list FieldDef) (name : string) : result ProtocolError FieldDef :=
  match list_find (λ f, fd_name f = name) fields with
  | Some (_, f) => Ok f
  | None => perr ("Unknown field " +:+ name)
  end.
Definition field_by_id (fields : list FieldDef) (id : Z) : result ProtocolError FieldDef :=
  match list_find (λ f, fd_id f = id) fields with
  | Some (_, f) => Ok f
  | None => perr ("Unknown field id " +:+ fmt id)
  end.

Record BlobRefField : Type := {
  br_object_name : string; br_field : FieldDef; br_blob_name : string;
}.

Definition blob_ref_of_field (blob_names : list string) (object : ObjectDef) (field : FieldDef) :
    list BlobRefField :=
  match fd_kind field, fd_ref field with
  | FK_Ref, Some target =>
      if contains blob_names target
      then [{| br_object_name := od_name object; br_field := field; br_blob_name := target |}]
      else []
  | _, _ => []
  end.
Definition blob_ref_fields (s : FrickSchema) : list BlobRefField :=
  let names := bd_name <$> blobs s in
  concat ((λ object, concat (blob_ref_of_field names object <$> od_fields object)) <$> objects s).

(** ** What a valid schema is *)

(** Ids are unique and so are names up to letter case. *)
Definition types_ok {T} (get_id : T → Z) (get_name : T → string) (types : list T) : Prop :=
  NoDup (get_id <$> types) ∧ NoDup ((λ t, Str.to_lowercase (get_name t)) <$> types).

Definition field_ok (refs : RefTargets) (f : FieldDef) : Prop :=
  (∀ target, fd_kind f = FK_Ref → fd_ref f = Some target → target ≠ "" →
     target ∈ object_names refs ∨ target ∈ blob_names refs)
  ∧ (fd_kind f = FK_Enum → ∃ v vs, fd_enum_values f = Some (v :: vs))
  ∧ (∀ text, fd_sensitivity f = Some text →
       ∃ x : FieldSensitivity, enum_as_str x = text).

Definition fields_ok (refs : RefTargets) (fields : list FieldDef) : Prop :=
  types_ok fd_id fd_name fields ∧ Forall (field_ok refs) fields.

Definition indexes_ok (fields : list FieldDef) (indexes : list IndexDef) : Prop :=
  types_ok ix_id ix_name indexes
  ∧ Forall (λ ix, Forall (λ n, n ∈ fd_name <$> fields) (ix_fields ix)) indexes.

Record identity_ok (s : FrickSchema) : Prop := {
  id_protocol : protocol s = "frick.realtime";
  id_compat : compatibility s = "greenfield-cutover";
  id_schema : Str.trim (schema_id s) ≠ "";
  id_version : Str.trim (schema_version s) ≠ "";
  id_revision : 0 < schema_revision s;
  id_min_client : 0 < minimum_client_revision s;
  id_min_server : 0 < minimum_server_revision s;
}.

Definition schema_refs (s : FrickSchema) : RefTargets :=
  {| object_names := od_name <$> objects s; blob_names := bd_name <$> blobs s |}.

Record schema_valid (s : FrickSchema) : Prop := {
  sv_identity : identity_ok s;
  sv_objects : types_ok od_id od_name (objects s)
    ∧ Forall (λ o, fields_ok (schema_refs s) (od_fields o)
                   ∧ indexes_ok (od_fields o) (od_indexes o)) (objects s);
  sv_streams : types_ok sd_id sd_name (streams s)
    ∧ Forall (λ st, fields_ok (schema_refs s) (sd_key_fields st)
                    ∧ Forall (λ e, e ∈ ed_name <$> events s) (sd_events st)) (streams s);
  sv_events : types_ok ed_id ed_name (events s)
    ∧ Forall (λ e, fields_ok (schema_refs s) (ed_fields e)) (events s);
  sv_presences : types_ok pd_id pd_name (presences s)
    ∧ Forall (λ p, fields_ok (schema_refs s) (pd_key_fields p)
                   ∧ fields_ok (schema_refs s) (pd_fields p)) (presences s);
  sv_signals : types_ok sg_id sg_name (signals s)
    ∧ Forall (λ g, fields_ok (schema_refs s) (sg_key_fields g)
                   ∧ fields_ok (schema_refs s) (sg_fields g)) (signals s);
  sv_blobs : types_ok bd_id bd_name (blobs s)
    ∧ Forall (λ b, fields_ok (schema_refs s) (bd_metadata_fields b)) (blobs s);
  sv_jobs : types_ok jd_id jd_name (jobs s)
    ∧ Forall (λ j, fields_ok (schema_refs s) (jd_fields j)) (jobs s);
  sv_projections : types_ok pj_id pj_name (projections s)
    ∧ Forall (λ p, (pj_source p ∈ sd_name <$> streams s ∨ pj_source p ∈ od_name <$> objects s)
                   ∧ fields_ok (schema_refs s) (pj_fields p)
                   ∧ indexes_ok (pj_fields p) (pj_indexes p)) (projections s);
}.

(** ** The validator decides it *)

Lemma is_empty_false s : Str.is_empty s = false ↔ s ≠ "".
Proof. by destruct s. Qed.

Lemma is_empty_true s : Str.is_empty s = true ↔ s = "".
Proof. by destruct s. Qed.

Lemma validate_schema_identity_Ok s :
  validate_schema_identity s = Ok tt ↔
  Str.trim (schema_id s) ≠ "" ∧ Str.trim (schema_version s) ≠ ""
  ∧ 0 < schema_revision s ∧ 0 < minimum_client_revision s ∧ 0 < minimum_server_revision s.
Proof.
  unfold validate_schema_identity. autorewrite with frick.
  rewrite !is_empty_false. naive_solver.
Qed.

Lemma validate_type_set_Ok {T} (get_id : T → Z) (get_name : T → string) types label :
  validate_type_set ((λ t, (get_id t, get_name t)) <$> types) label = Ok tt
  ↔ types_ok get_id get_name types.
Proof.
  unfold validate_type_set, types_ok.
  pose proof (dup_loop fst snd (validate_type_step label) (λ _, True)) as Hl.
  specialize (Hl ltac:(intros ids names [i n] acc; unfold validate_type_step;
    autorewrite with frick; naive_solver) ((λ t, (get_id t, get_name t)) <$> types)).
  rewrite <- !list_fmap_compose in Hl. unfold compose in Hl. simpl in Hl.
  destruct (fold_res _ _ _) as [acc|e].
  - split; [intros _|done]. destruct (proj1 Hl) as (?&?&_); eauto.
  - split; [done|]. intros [H1 H2]. destruct (proj2 Hl) as [? ?]; [|done].
    split_and!; try done. by apply Forall_true.
Qed.

Lemma validate_field_ref_Ok owner refs f :
  validate_field_ref owner refs f = Ok tt ↔
  ∀ target, fd_kind f = FK_Ref → fd_ref f = Some target → target ≠ "" →
    target ∈ object_names refs ∨ target ∈ blob_names refs.
Proof.
  unfold validate_field_ref, contains.
  destruct (fd_kind f), (fd_ref f) as [t|]; try (split; naive_solver).
  rewrite if_Ok, !andb_false_iff, !negb_false_iff, !bool_decide_eq_true, is_empty_true.
  destruct (decide (t = "")); naive_solver.
Qed.

Lemma validate_field_enum_Ok owner f :
  validate_field_enum owner f = Ok tt ↔
  (fd_kind f = FK_Enum → ∃ v vs, fd_enum_values f = Some (v :: vs)).
Proof.
  unfold validate_field_enum. autorewrite with frick.
  destruct (fd_enum_values f) as [[|v vs]|]; naive_solver.
Qed.

Lemma validate_field_sensitivity_Ok owner f :
  validate_field_sensitivity owner f = Ok tt ↔
  ∀ text, fd_sensitivity f = Some text → ∃ x : FieldSensitivity, enum_as_str x = text.
Proof.
  unfold validate_field_sensitivity. destruct (fd_sensitivity f) as [t|]; [|naive_solver].
  destruct (enum_from_str t) as [x|] eqn:E; simpl.
  - split; [|done]. intros _ ? [= <-]. exists x. by apply enum_as_from_str.
  - split; [done|]. intros H. destruct (H t eq_refl) as [x <-].
    rewrite enum_from_as_str in E. done.
Qed.

Lemma validate_fields_Ok owner fields refs :
  validate_fields owner fields refs = Ok tt ↔ fields_ok refs fields.
Proof.
  unfold validate_fields, fields_ok, types_ok.
  pose proof (dup_loop fd_id fd_name (validate_field_step owner refs) (field_ok refs)) as Hl.
  specialize (Hl ltac:(intros ids names f acc; unfold validate_field_step, field_ok;
    rewrite !if_Ok, !bind_unit_Ok, !bool_decide_eq_false, validate_field_ref_Ok,
      validate_field_enum_Ok, validate_field_sensitivity_Ok; naive_solver) fields).
  destruct (fold_res _ _ _) as [acc|e].
  - split; [intros _|done]. destruct (proj1 Hl) as (?&?&?); eauto.
  - split; [done|]. intros [[H1 H2] H3]. destruct (proj2 Hl) as [? ?]; [|done]. eauto.
Qed.

Lemma contains_check {A} (l : list string) (f : A → ProtocolError) (g : A → string) (xs : list A) :
  for_res (λ x, if contains l (g x) then Ok tt else Err (f x)) xs = Ok tt
  ↔ Forall (λ x, g x ∈ l) xs.
Proof.
  rewrite for_res_Ok. apply Forall_proper; [|done]. intros x.
  unfold contains. rewrite if_Ok_r, bool_decide_eq_true. naive_solver.
Qed.

Lemma validate_indexes_Ok owner fields indexes :
  validate_indexes owner fields indexes = Ok tt ↔ indexes_ok fields indexes.
Proof.
  unfold validate_indexes, indexes_ok. rewrite bind_unit_Ok, validate_type_set_Ok.
  apply and_iff_compat_l. rewrite for_res_Ok. apply Forall_proper; [|done]. intros ix.
  apply (contains_check _ _ id).
Qed.

#[local] Opaque validate_indexes validate_fields.

Lemma validate_schema_Ok s : validate_schema s = Ok tt ↔ schema_valid s.
Proof.
  unfold validate_schema. rewrite !if_Ok, !negb_false_iff, !String.eqb_eq.
  rewrite !bind_unit_Ok, validate_schema_identity_Ok, !validate_type_set_Ok, !for_res_Ok.
  fold (schema_refs s).
  repeat setoid_rewrite bind_unit_Ok. repeat setoid_rewrite validate_fields_Ok.
  repeat setoid_rewrite validate_indexes_Ok.
  setoid_rewrite (contains_check (ed_name <$> events s) _ id).
  setoid_rewrite if_Ok. unfold contains.
  setoid_rewrite andb_false_iff. setoid_rewrite negb_false_iff.
  setoid_rewrite bool_decide_eq_true.
  split.
  - intros (?&?&(?&?&?&?&?)&?&?&?&?&?&?&?&?&?&?&?&?&?&?&?&Hp).
    split; try done. split; [done|].
    eapply Forall_impl; [exact Hp|]. naive_solver.
  - intros [[] [] [] [] [] [] [] [] [? Hp]]. split_and!; try done.
    eapply Forall_impl; [exact Hp|]. naive_solver.
Qed.

(** C2: [validate_schema] accepts exactly the well-formed schemas: the right
    protocol and compatibility mode, a non-blank identity with positive
    revisions, ids unique and names unique up to case in every collection and
    field list, every ref, index, stream event and projection source resolved,
    every enum non-empty and every sensitivity known. *)
Theorem validate_schema_correct s : validate_schema s = Ok tt ↔ schema_valid s.
Proof. exact (validate_schema_Ok s). Qed.

#[local] Transparent validate_indexes validate_fields.

(** ** Lookups in a validated schema *)

Lemma NoDup_list_find {T K} `{EqDecision K} (key : T → K) (types : list T) t :
  NoDup (key <$> types) → t ∈ types →
  ∃ i, list_find (λ x, key x = key t) types = Some (i, t).
Proof.
  induction types as [|x l IH]; intros Hnd Hin; [by inversion Hin|].
  rewrite fmap_cons, NoDup_cons in Hnd. destruct Hnd as [Hx Hnd]. simpl.
  destruct (decide (key x = key t)) as [Hk|Hk].
  - exists 0%nat. apply elem_of_cons in Hin as [->|Hin]; [done|].
    destruct Hx. rewrite Hk. by apply list_elem_of_fmap_2.
  - apply elem_of_cons in Hin as [->|Hin]; [done|].
    destruct (IH Hnd Hin) as [i ->]. by exists (S i).
Qed.

Lemma types_ok_name {T} (get_id : T → Z) (get_name : T → string) types :
  types_ok get_id get_name types → NoDup (get_name <$> types).
Proof.
  intros [_ Hn]. apply (NoDup_fmap_1 Str.to_lowercase). by rewrite <- list_fmap_compose.
Qed.

Lemma find_by_id_in {T} (get_id : T → Z) (get_name : T → string) types label t :
  types_ok get_id get_name types → t ∈ types →
  find_by_id types label (get_id t) get_id = Ok t.
Proof.
  intros [Hi _] Hin. unfold find_by_id.
  by destruct (NoDup_list_find get_id types t Hi Hin) as [i ->].
Qed.

Lemma find_by_name_in {T} (get_id : T → Z) (get_name : T → string) types label t :
  types_ok get_id get_name types → t ∈ types →
  find_by_name types label (get_name t) get_name = Ok t.
Proof.
  intros Hok Hin. apply types_ok_name in Hok. unfold find_by_name.
  by destruct (NoDup_list_find get_name types t Hok Hin) as [i ->].
Qed.

Lemma find_by_name_Ok {T} (get_name : T → string) types label name t :
  find_by_name types label name get_name = Ok t → t ∈ types ∧ get_name t = name.
Proof.
  unfold find_by_name. destruct (list_find _ _) as [[i x]|] eqn:E; [|done].
  intros [= <-]. apply list_find_Some in E as (Hi & Hn & _).
  split; [|done]. by apply list_elem_of_lookup_2 in Hi.
Qed.

Lemma find_by_id_Ok {T} (get_id : T → Z) types label id t :
  find_by_id types label id get_id = Ok t → t ∈ types ∧ get_id t = id.
Proof.
  unfold find_by_id. destruct (list_find _ _) as [[i x]|] eqn:E; [|done].
  intros [= <-]. apply list_find_Some in E as (Hi & Hn & _).
  split; [|done]. by apply list_elem_of_lookup_2 in Hi.
Qed.

(** in a validated schema every lookup is total on declared types and
    inverse to the declarations: an object, stream, event, presence or signal
    is found both by its id and by its name, and whatever a lookup returns is
    declared under that id or name. *)
Theorem schema_lookups_exact s :
  validate_schema s = Ok tt →
  (∀ o, o ∈ objects s → object_by_id s (od_id o) = Ok o ∧ object_by_name s (od_name o) = Ok o)
  ∧ (∀ t, t ∈ streams s → stream_by_id s (sd_id t) = Ok t ∧ stream_by_name s (sd_name t) = Ok t)
  ∧ (∀ e, e ∈ events s → event_by_id s (ed_id e) = Ok e ∧ event_by_name s (ed_name e) = Ok e)
  ∧ (∀ p, p ∈ presences s →
       presence_by_id s (pd_id p) = Ok p ∧ presence_by_name s (pd_name p) = Ok p)
  ∧ (∀ g, g ∈ signals s → signal_by_id s (sg_id g) = Ok g ∧ signal_by_name s (sg_name g) = Ok g)
  ∧ (∀ id o, object_by_id s id = Ok o → o ∈ objects s ∧ od_id o = id)
  ∧ (∀ name o, object_by_name s name = Ok o → o ∈ objects s ∧ od_name o = name).
Proof.
  intros [_ [Ho _] [Hs _] [He _] [Hp _] [Hg _] _ _ _]%validate_schema_Ok.
  split_and!; intros;
    first [ split; [eapply find_by_id_in|eapply find_by_name_in]; eassumption
          | eapply find_by_id_Ok; eassumption
          | eapply find_by_name_Ok; eassumption ].
Qed.

(** [blob_ref_fields], the reference set blob garbage collection keeps,
    lists exactly the declared [ref] fields of objects whose target is a
    declared blob type. *)
Theorem blob_ref_fields_exact s r :
  r ∈ blob_ref_fields s ↔
  ∃ o f b, o ∈ objects s ∧ f ∈ od_fields o ∧ fd_kind f = FK_Ref ∧ fd_ref f = Some b
           ∧ b ∈ bd_name <$> blobs s
           ∧ r = {| br_object_name := od_name o; br_field := f; br_blob_name := b |}.
Proof.
  unfold blob_ref_fields. rewrite elem_of_concat. setoid_rewrite list_elem_of_fmap.
  split.
  - intros (l & (o & -> & Ho) & Hr). apply elem_of_concat in Hr as (k & Hk & Hr).
    apply list_elem_of_fmap in Hk as (f & -> & Hf).
    unfold blob_ref_of_field, contains in Hr.
    destruct (fd_kind f) eqn:Ek, (fd_ref f) as [b|] eqn:Er; try (by inversion Hr).
    case_bool_decide as Hb; [|by inversion Hr]. apply list_elem_of_singleton in Hr as ->.
    exists o, f, b. apply list_elem_of_fmap in Hb. by split_and!.
  - intros (o & f & b & Ho & Hf & Hk & Hr & Hb & ->). eexists. split; [by exists o|].
    apply elem_of_concat. eexists. split; [apply list_elem_of_fmap; by exists f|].
    unfold blob_ref_of_field, contains. rewrite Hk, Hr, bool_decide_true.
    + by apply list_elem_of_singleton.
    + by apply list_elem_of_fmap.
Qed.

(** ** A small schema, for the witnesses *)
Module SampleSchema.

Definition title : FieldDef :=
  {| fd_id := 1; fd_name := "title"; fd_kind := FK_String; fd_required := true;
     fd_ref := None; fd_enum_values := None; fd_sensitivity := None |}.
Definition cover : FieldDef :=
  {| fd_id := 2; fd_name := "cover"; fd_kind := FK_Ref; fd_required := false;
     fd_ref := Some "Image"; fd_enum_values := None; fd_sensitivity := Some "public" |}.
Definition priority : FieldDef :=
  {| fd_id := 3; fd_name := "priority"; fd_kind := FK_Enum; fd_required := false;
     fd_ref := None; fd_enum_values := Some ["low"; "high"]; fd_sensitivity := None |}.
Definition ownerUserId : FieldDef :=
  {| fd_id := 4; fd_name := "ownerUserId"; fd_kind := FK_String; fd_required := false;
     fd_ref := None; fd_enum_values := None; fd_sensitivity := None |}.
Definition task : ObjectDef :=
  {| od_id := 1; od_name := "Task"; od_fields := [title; cover; priority; ownerUserId];
     od_indexes := [{| ix_id := 1; ix_name := "byTitle"; ix_fields := ["title"] |}];
     od_merge_policy := Some VersionPrecondition |}.
Definition task_done : EventDef := {| ed_id := 1; ed_name := "TaskDone"; ed_fields := [title] |}.
Definition task_stream : StreamDef :=
  {| sd_id := 1; sd_name := "TaskStream"; sd_key_fields := [title]; sd_events := ["TaskDone"] |}.
Definition schema : FrickSchema :=
  {| s_name := "sample"; schema_id := "sample"; schema_version := "0.1.0";
     schema_revision := 3; minimum_client_revision := 2; minimum_server_revision := 1;
     protocol := "frick.realtime"; protocol_version := 1;
     compatibility := "greenfield-cutover"; hash := "sample-3";
     objects := [task]; streams := [task_stream]; events := [task_done];
     presences := [{| pd_id := 1; pd_name := "Typing"; pd_key_fields := [title];
                      pd_fields := [title]; pd_ttl_ms := 5000 |}];
     signals := [{| sg_id := 1; sg_name := "Ring"; sg_key_fields := [title];
                    sg_fields := [title]; sg_ttl_ms := 30000 |}];
     blobs := [{| bd_id := 1; bd_name := "Image"; bd_metadata_fields := [] |}];
     jobs := []; projections := [] |}.

Lemma schema_validates : validate_schema schema = Ok tt.
Proof. vm_compute. reflexivity. Qed.

End SampleSchema.

Lemma schema_lookups_exact_witness :
  object_by_id SampleSchema.schema 1 = Ok SampleSchema.task
  ∧ event_by_name SampleSchema.schema "TaskDone" = Ok SampleSchema.task_done.
Proof.
  pose proof (schema_lookups_exact SampleSchema.schema SampleSchema.schema_validates)
    as (Ho & _ & He & _).
  split.
  - apply (Ho SampleSchema.task). apply list_elem_of_singleton. reflexivity.
  - apply (He SampleSchema.task_done). apply list_elem_of_singleton. reflexivity.
Defined.
