(* ===== verification/Codec.v ===== *)
(** * The packed-record codec ([crates/frick-protocol/src/codec.rs])

    Records cross the wire and rest in the database as positional tuples with
    numeric field ids. This file models packing and unpacking of objects,
    stream events, presences and signals and proves the round trips in both
    directions. *)

From Stdlib Require Import ZArith Lia Ascii String.
From stdpp Require Import base gmap strings list pretty.
From S2P Require Import Prelude Value Schema.

Abbreviation PackedField := (Z * Value)%type.
Abbreviation PackedRecord := (Z * string * list PackedField)%type.

(** [[streamTypeId, streamKey, sequence, eventId, eventTypeId, fields]]. *)
Record PackedStreamEvent : Type := {
  pse_stream_type : Z; pse_stream_key : string; pse_sequence : Z;
  pse_event_id : string; pse_event_type : Z; pse_fields : list PackedField;
}.
Abbreviation PackedPresenceRecord := (Z * string * list PackedField)%type.
Abbreviation PackedSignalEnvelope := (Z * string * list PackedField)%type.

Record StreamEventInput : Type := {
  se_stream : string; se_stream_id : string; se_sequence : Z;
  se_event_id : string; se_event : string; se_payload : Value;
}.
Record UnpackedRecord : Type := { ur_type : string; ur_id : string; ur_value : Value }.
Record UnpackedKeyedRecord : Type := { uk_type : string; uk_key : string; uk_value : Value }.

(** ** Packing *)

(** The field name a map key stands for: text, or an integer key's decimal. *)
Definition entry_name (key : Value) : result ProtocolError string :=
  match key with
  | VStr text => Ok text
  | VInt z => Ok (fmt z)
  | _ => perr "expected string field names"
  end.

Definition pack_entry (fields : list FieldDef) (e : Value * Value) :
    result ProtocolError PackedField :=
  name ← entry_name e.1;
  field ← field_by_name fields name;
  Ok (fd_id field, e.2).

Definition pack_fields (fields : list FieldDef) (value : Value) :
    result ProtocolError (list PackedField) :=
  match value with
  | VMap entries => map_res (pack_entry fields) entries
  | VBool _ | VInt _ | VF32 _ | VF64 _ => Ok []
  | _ => perr "expected an object value"
  end.

(** ** Unpacking *)

(** One entry per key name: the first insertion keeps its position, the last
    write wins. *)
Fixpoint put_entry (name : string) (value : Value) (entries : list (Value * Value)) :
    list (Value * Value) :=
  match entries with
  | [] => [(VStr name, value)]
  | (k, v) :: entries' =>
      if key_is name k then (k, value) :: entries' else (k, v) :: put_entry name value entries'
  end.

Definition unpack_step (fields : list FieldDef) (entries : list (Value * Value))
    (pf : PackedField) : result ProtocolError (list (Value * Value)) :=
  field ← field_by_id fields pf.1;
  Ok (put_entry (fd_name field) pf.2 entries).

Definition unpack_fields_into (fields : list FieldDef) (packed : list PackedField)
    (entries : list (Value * Value)) : result ProtocolError (list (Value * Value)) :=
  fold_res (unpack_step fields) entries packed.

Definition unpack_fields (fields : list FieldDef) (packed : list PackedField) :
    result ProtocolError Value :=
  entries ← unpack_fields_into fields packed [];
  Ok (VMap entries).

(** ** Records *)

Definition pack_object_record (schema : FrickSchema) (object_name object_id : string)
    (value : Value) : result ProtocolError PackedRecord :=
  object ← object_by_name schema object_name;
  fields ← pack_fields (od_fields object) value;
  Ok (od_id object, object_id, fields).

Definition unpack_object_record (schema : FrickSchema) (packed : PackedRecord) :
    result ProtocolError UnpackedRecord :=
  let '(type_id, record_id, fields) := packed in
  object ← object_by_id schema type_id;
  entries ← unpack_fields_into (od_fields object) fields [(VStr "id", VStr record_id)];
  Ok {| ur_type := od_name object; ur_id := record_id; ur_value := VMap entries |}.

Definition pack_stream_event (schema : FrickSchema) (input : StreamEventInput) :
    result ProtocolError PackedStreamEvent :=
  stream ← stream_by_name schema (se_stream input);
  event ← event_by_name schema (se_event input);
  fields ← pack_fields (ed_fields event) (se_payload input);
  Ok {| pse_stream_type := sd_id stream; pse_stream_key := se_stream_id input;
        pse_sequence := se_sequence input; pse_event_id := se_event_id input;
        pse_event_type := ed_id event; pse_fields := fields |}.

Definition unpack_stream_event (schema : FrickSchema) (packed : PackedStreamEvent) :
    result ProtocolError StreamEventInput :=
  stream ← stream_by_id schema (pse_stream_type packed);
  event ← event_by_id schema (pse_event_type packed);
  payload ← unpack_fields (ed_fields event) (pse_fields packed);
  Ok {| se_stream := sd_name stream; se_stream_id := pse_stream_key packed;
        se_sequence := pse_sequence packed; se_event_id := pse_event_id packed;
        se_event := ed_name event; se_payload := payload |}.

Definition pack_presence_record (schema : FrickSchema) (presence_name presence_key : string)
    (value : Value) : result ProtocolError PackedPresenceRecord :=
  presence ← presence_by_name schema presence_name;
  fields ← pack_fields (pd_fields presence) value;
  Ok (pd_id presence, presence_key, fields).

Definition unpack_presence_record (schema : FrickSchema) (packed : PackedPresenceRecord) :
    result ProtocolError UnpackedKeyedRecord :=
  let '(type_id, key, fields) := packed in
  presence ← presence_by_id schema type_id;
  value ← unpack_fields (pd_fields presence) fields;
  Ok {| uk_type := pd_name presence; uk_key := key; uk_value := value |}.

Definition pack_signal_envelope (schema : FrickSchema) (signal_name signal_key : string)
    (value : Value) : result ProtocolError PackedSignalEnvelope :=
  signal ← signal_by_name schema signal_name;
  fields ← pack_fields (sg_fields signal) value;
  Ok (sg_id signal, signal_key, fields).

Definition unpack_signal_envelope (schema : FrickSchema) (packed : PackedSignalEnvelope) :
    result ProtocolError UnpackedKeyedRecord :=
  let '(type_id, key, fields) := packed in
  signal ← signal_by_id schema type_id;
  value ← unpack_fields (sg_fields signal) fields;
  Ok {| uk_type := sg_name signal; uk_key := key; uk_value := value |}.

(** ** Round trip of the fields *)

(** A map value whose keys are distinct strings. *)
Definition record_value (v : Value) : Prop :=
  ∃ es : list (string * Value), v = VMap ((λ e, (VStr e.1, e.2)) <$> es) ∧ NoDup es.*1.

Definition str_entries (es : list (string * Value)) : list (Value * Value) :=
  (λ e, (VStr e.1, e.2)) <$> es.

Lemma field_by_name_in fields f :
  types_ok fd_id fd_name fields → f ∈ fields → field_by_name fields (fd_name f) = Ok f.
Proof.
  intros Hok Hin. apply types_ok_name in Hok. unfold field_by_name.
  by destruct (NoDup_list_find fd_name fields f Hok Hin) as [i ->].
Qed.
Lemma field_by_id_in fields f :
  types_ok fd_id fd_name fields → f ∈ fields → field_by_id fields (fd_id f) = Ok f.
Proof.
  intros [Hi _] Hin. unfold field_by_id.
  by destruct (NoDup_list_find fd_id fields f Hi Hin) as [i ->].
Qed.
Lemma field_by_name_Ok fields name f :
  field_by_name fields name = Ok f → f ∈ fields ∧ fd_name f = name.
Proof.
  unfold field_by_name. destruct (list_find _ _) as [[i x]|] eqn:E; [|done].
  intros [= <-]. apply list_find_Some in E as (Hi & Hn & _).
  split; [|done]. by apply list_elem_of_lookup_2 in Hi.
Qed.
Lemma field_by_id_Ok fields id f :
  field_by_id fields id = Ok f → f ∈ fields ∧ fd_id f = id.
Proof.
  unfold field_by_id. destruct (list_find _ _) as [[i x]|] eqn:E; [|done].
  intros [= <-]. apply list_find_Some in E as (Hi & Hn & _).
  split; [|done]. by apply list_elem_of_lookup_2 in Hi.
Qed.

Lemma put_entry_fresh name v es :
  name ∉ es.*1 → put_entry name v (str_entries es) = str_entries (es ++ [(name, v)]).
Proof.
  induction es as [|[k x] es IH]; [done|]. simpl. intros Hn.
  unfold key_is. simpl. destruct (String.eqb_spec k name) as [->|Hk]; [set_solver|].
  rewrite <- IH by set_solver. done.
Qed.

(** Packing an entry succeeds exactly on a declared field and keeps the value. *)
Lemma pack_entry_str fields name v pf :
  pack_entry fields (VStr name, v) = Ok pf ↔
  ∃ f, field_by_name fields name = Ok f ∧ pf = (fd_id f, v).
Proof.
  unfold pack_entry. simpl. rewrite bind_Ok. split.
  - intros (f & ? & [= <-]). eauto.
  - intros (f & ? & ->). eauto.
Qed.

Lemma unpack_pack_entries fields (es done : list (string * Value)) packed :
  types_ok fd_id fd_name fields →
  NoDup (done ++ es).*1 →
  map_res (pack_entry fields) (str_entries es) = Ok packed →
  unpack_fields_into fields packed (str_entries done) = Ok (str_entries (done ++ es)).
Proof.
  intros Hok. revert done packed.
  induction es as [|[name v] es IH]; intros done packed Hnd Hp; simpl in Hp.
  - injection Hp as <-. simpl. by rewrite app_nil_r.
  - destruct (pack_entry fields (VStr name, v)) as [pf|] eqn:Ep; [|done].
    fold (str_entries es) in Hp.
    destruct (map_res _ (str_entries es)) as [pfs|] eqn:Em; [|done]. injection Hp as <-.
    apply pack_entry_str in Ep as (f & Hf & ->). apply field_by_name_Ok in Hf as [Hin <-].
    unfold unpack_fields_into. simpl. unfold unpack_step at 1. simpl.
    rewrite (field_by_id_in _ f) by done. simpl.
    rewrite put_entry_fresh.
    + rewrite (cons_middle _ done es), app_assoc in Hnd |- *. by apply IH.
    + rewrite fmap_app in Hnd. apply NoDup_app in Hnd as (_ & Hd & _).
      intros Hin'. apply (Hd _ Hin'). csimpl. set_solver.
Qed.

Lemma unpack_pack_fields fields v packed :
  types_ok fd_id fd_name fields → record_value v →
  pack_fields fields v = Ok packed → unpack_fields fields packed = Ok v.
Proof.
  intros Hok (es & -> & Hnd) Hp. unfold unpack_fields. simpl in Hp.
  pose proof (unpack_pack_entries fields es [] packed Hok Hnd Hp) as Hu.
  simpl in Hu. by rewrite Hu.
Qed.

(** Unpacked names are those of the packed ids. *)
Lemma pack_unpack_entries fields packed entries :
  types_ok fd_id fd_name fields →
  NoDup packed.*1 →
  unpack_fields_into fields packed [] = Ok entries →
  map_res (pack_entry fields) entries = Ok packed.
Proof.
  intros Hok Hnd Hu.
  assert (Hgen : ∀ done es0,
    NoDup (done ++ packed).*1 →
    map_res (pack_entry fields) (str_entries es0) = Ok done →
    unpack_fields_into fields packed (str_entries es0) = Ok entries →
    map_res (pack_entry fields) entries = Ok (done ++ packed)).
  { clear Hnd Hu. induction packed as [|[id v] packed IH]; intros done es0 Hnd Hm Hu.
    - simpl in Hu. injection Hu as <-. by rewrite app_nil_r.
    - unfold unpack_fields_into in Hu. simpl in Hu. unfold unpack_step at 1 in Hu. simpl in Hu.
      destruct (field_by_id fields id) as [f|] eqn:Ef; [|done]. simpl in Hu.
      apply field_by_id_Ok in Ef as [Hin <-].
      assert (Hfresh : fd_name f ∉ es0.*1).
      { intros Hn. apply list_elem_of_fmap in Hn as ([n x] & Hn & Hx). simpl in Hn.
        apply map_res_Ok in Hm. apply list_elem_of_lookup in Hx as [i Hi].
        destruct (Forall2_lookup_l _ _ _ i (VStr n, x) Hm) as (pf & Hpf & Hpe).
        { unfold str_entries. rewrite list_lookup_fmap, Hi. done. }
        apply pack_entry_str in Hpe as (g & Hg & ->).
        rewrite <- Hn, field_by_name_in in Hg by done. injection Hg as <-.
        rewrite fmap_app, NoDup_app in Hnd. destruct Hnd as (_ & Hd & _).
        apply (Hd (fd_id f)); csimpl; [|set_solver].
        apply list_elem_of_lookup_2 in Hpf. apply list_elem_of_fmap. by eexists (_, _). }
      rewrite put_entry_fresh in Hu by done.
      rewrite (cons_middle _ done packed), app_assoc in Hnd |- *. eapply IH; [exact Hnd| |exact Hu].
      apply map_res_Ok. unfold str_entries. rewrite fmap_app.
      apply Forall2_app; [by apply map_res_Ok|]. constructor; [|constructor].
      apply pack_entry_str. exists f. split; [by apply field_by_name_in|done]. }
  apply (Hgen [] []); done.
Qed.

(** ** Round trips of whole records *)

Lemma valid_fields_types refs fields : fields_ok refs fields → types_ok fd_id fd_name fields.
Proof. by intros [H _]. Qed.


Lemma unpack_pack_stream_event s input packed :
  validate_schema s = Ok tt →
  record_value (se_payload input) →
  pack_stream_event s input = Ok packed →
  unpack_stream_event s packed = Ok input.
Proof.
  intros Hv%validate_schema_Ok Hr Hp. unfold pack_stream_event in Hp.
  apply bind_Ok in Hp as (st & Hst & Hp). apply bind_Ok in Hp as (ev & Hev & Hp).
  apply bind_Ok in Hp as (fs & Hfs & [= <-]).
  apply find_by_name_Ok in Hst as [Hst Hn1]. apply find_by_name_Ok in Hev as [Hev Hn2].
  destruct Hv as [_ _ [Hs _] [He Hef] _ _ _ _ _].
  unfold unpack_stream_event. simpl.
  unfold stream_by_id. rewrite (find_by_id_in sd_id sd_name) by done. simpl.
  unfold event_by_id. rewrite (find_by_id_in ed_id ed_name) by done. simpl.
  rewrite Forall_forall in Hef.
  rewrite (unpack_pack_fields _ (se_payload input) _
             (valid_fields_types _ _ (Hef _ Hev)) Hr Hfs). simpl.
  destruct input. simpl in *. by subst.
Qed.

(** a stream event survives packing: for a validated schema, if
    [pack_stream_event] accepts an event whose payload is a map with distinct
    string keys, [unpack_stream_event] returns that very event, with the
    payload fields in the same order. *)
Theorem stream_event_roundtrip s input packed :
  validate_schema s = Ok tt →
  record_value (se_payload input) →
  pack_stream_event s input = Ok packed →
  unpack_stream_event s packed = Ok input.
Proof. apply unpack_pack_stream_event. Qed.

Lemma unpack_pack_object_record s name oid (es : list (string * Value)) packed :
  validate_schema s = Ok tt →
  NoDup es.*1 → "id" ∉ es.*1 →
  pack_object_record s name oid (VMap (str_entries es)) = Ok packed →
  unpack_object_record s packed
  = Ok {| ur_type := name; ur_id := oid;
          ur_value := VMap (str_entries (("id", VStr oid) :: es)) |}.
Proof.
  intros Hv%validate_schema_Ok Hnd Hid Hp. unfold pack_object_record in Hp.
  apply bind_Ok in Hp as (o & Ho & Hp). apply bind_Ok in Hp as (fs & Hfs & [= <-]).
  apply find_by_name_Ok in Ho as [Ho <-]. destruct Hv as [_ [Hos Hof] _ _ _ _ _ _ _].
  rewrite Forall_forall in Hof. destruct (Hof _ Ho) as [[Hft _] _].
  unfold unpack_object_record, object_by_id.
  rewrite (find_by_id_in od_id od_name) by done. simpl.
  change [(VStr "id", VStr oid)] with (str_entries [("id", VStr oid)]).
  rewrite (unpack_pack_entries _ es [("id", VStr oid)] fs Hft); [done| |exact Hfs].
  simpl. by apply NoDup_cons.
Qed.

(** an object record survives packing: unpacking yields the type name, the
    record id, and the value with [id] injected first and the packed fields in
    their original order (for a value with distinct string keys other than
    [id]). *)
Theorem object_record_roundtrip s name oid (es : list (string * Value)) packed :
  validate_schema s = Ok tt →
  NoDup es.*1 → "id" ∉ es.*1 →
  pack_object_record s name oid (VMap (str_entries es)) = Ok packed →
  unpack_object_record s packed
  = Ok {| ur_type := name; ur_id := oid;
          ur_value := VMap (str_entries (("id", VStr oid) :: es)) |}.
Proof. apply unpack_pack_object_record. Qed.

Lemma unpack_pack_keyed s name key v packed :
  validate_schema s = Ok tt → record_value v →
  (pack_presence_record s name key v = Ok packed →
     unpack_presence_record s packed = Ok {| uk_type := name; uk_key := key; uk_value := v |})
  ∧ (pack_signal_envelope s name key v = Ok packed →
     unpack_signal_envelope s packed = Ok {| uk_type := name; uk_key := key; uk_value := v |}).
Proof.
  intros Hv%validate_schema_Ok Hr.
  destruct Hv as [_ _ _ _ [Hps Hpf] [Hgs Hgf] _ _ _].
  rewrite Forall_forall in Hpf. rewrite Forall_forall in Hgf.
  split; intros Hp.
  - apply bind_Ok in Hp as (p & Hpn & Hp). apply bind_Ok in Hp as (fs & Hfs & [= <-]).
    apply find_by_name_Ok in Hpn as [Hin <-].
    unfold unpack_presence_record, presence_by_id.
    rewrite (find_by_id_in pd_id pd_name) by done. simpl.
    by rewrite (unpack_pack_fields _ v _ (valid_fields_types _ _ (proj2 (Hpf _ Hin))) Hr Hfs).
  - apply bind_Ok in Hp as (g & Hgn & Hp). apply bind_Ok in Hp as (fs & Hfs & [= <-]).
    apply find_by_name_Ok in Hgn as [Hin <-].
    unfold unpack_signal_envelope, signal_by_id.
    rewrite (find_by_id_in sg_id sg_name) by done. simpl.
    by rewrite (unpack_pack_fields _ v _ (valid_fields_types _ _ (proj2 (Hgf _ Hin))) Hr Hfs).
Qed.

(** a presence record and a signal envelope survive packing: unpacking
    returns the type name, the key and the value unchanged. *)
Theorem keyed_record_roundtrip s name key v packed :
  validate_schema s = Ok tt → record_value v →
  (pack_presence_record s name key v = Ok packed →
     unpack_presence_record s packed = Ok {| uk_type := name; uk_key := key; uk_value := v |})
  ∧ (pack_signal_envelope s name key v = Ok packed →
     unpack_signal_envelope s packed = Ok {| uk_type := name; uk_key := key; uk_value := v |}).
Proof. apply unpack_pack_keyed. Qed.

Lemma pack_unpack_stream_event s packed input :
  validate_schema s = Ok tt →
  NoDup (pse_fields packed).*1 →
  unpack_stream_event s packed = Ok input →
  pack_stream_event s input = Ok packed.
Proof.
  intros Hv%validate_schema_Ok Hnd Hu. unfold unpack_stream_event in Hu.
  apply bind_Ok in Hu as (st & Hst & Hu). apply bind_Ok in Hu as (ev & Hev & Hu).
  apply bind_Ok in Hu as (pl & Hpl & [= <-]). apply bind_Ok in Hpl as (es & Hes & [= <-]).
  apply find_by_id_Ok in Hst as [Hst Hn1]. apply find_by_id_Ok in Hev as [Hev Hn2].
  destruct Hv as [_ _ [Hs _] [He Hef] _ _ _ _ _]. rewrite Forall_forall in Hef.
  unfold pack_stream_event. simpl.
  unfold stream_by_name. rewrite (find_by_name_in sd_id sd_name) by done. simpl.
  unfold event_by_name. rewrite (find_by_name_in ed_id ed_name) by done. simpl.
  rewrite (pack_unpack_entries _ _ _ (valid_fields_types _ _ (Hef _ Hev)) Hnd Hes). simpl.
  destruct packed. simpl in *. by subst.
Qed.

(** the other direction: a packed stream event with distinct field ids that
    unpacks packs back to the same tuple, so re-encoding stored or forwarded
    events is lossless. *)
Theorem stream_event_repack s packed input :
  validate_schema s = Ok tt →
  NoDup (pse_fields packed).*1 →
  unpack_stream_event s packed = Ok input →
  pack_stream_event s input = Ok packed.
Proof. apply pack_unpack_stream_event. Qed.

(** ** Witnesses on the sample schema *)

Definition sample_event : StreamEventInput :=
  {| se_stream := "TaskStream"; se_stream_id := "t-1"; se_sequence := 7; se_event_id := "event-1";
     se_event := "TaskDone"; se_payload := VMap [(VStr "title", VStr "ship it")] |}.

Definition sample_packed_event : PackedStreamEvent :=
  {| pse_stream_type := 1; pse_stream_key := "t-1"; pse_sequence := 7; pse_event_id := "event-1";
     pse_event_type := 1; pse_fields := [(1, VStr "ship it")] |}.

Lemma stream_event_roundtrip_witness :
  pack_stream_event SampleSchema.schema sample_event = Ok sample_packed_event
  ∧ unpack_stream_event SampleSchema.schema sample_packed_event = Ok sample_event.
Proof.
  split; [vm_compute; reflexivity|].
  apply (stream_event_roundtrip SampleSchema.schema sample_event).
  - vm_compute. reflexivity.
  - exists [("title", VStr "ship it")]. split; [reflexivity|].
    apply (bool_decide_unpack _). vm_compute. exact I.
  - vm_compute. reflexivity.
Defined.

Lemma object_record_roundtrip_witness :
  unpack_object_record SampleSchema.schema
    (1, "task-9", [(3, VStr "low"); (1, VStr "ship it")])
  = Ok {| ur_type := "Task"; ur_id := "task-9";
          ur_value := VMap [(VStr "id", VStr "task-9"); (VStr "priority", VStr "low");
                            (VStr "title", VStr "ship it")] |}.
Proof.
  apply (object_record_roundtrip SampleSchema.schema "Task" "task-9"
           [("priority", VStr "low"); ("title", VStr "ship it")]).
  - vm_compute. reflexivity.
  - apply (bool_decide_unpack _). vm_compute. exact I.
  - apply (bool_decide_unpack _). vm_compute. exact I.
  - vm_compute. reflexivity.
Defined.

Lemma keyed_record_roundtrip_witness :
  unpack_presence_record SampleSchema.schema (1, "room-1", [(1, VStr "ada")])
  = Ok {| uk_type := "Typing"; uk_key := "room-1"; uk_value := VMap [(VStr "title", VStr "ada")] |}
  ∧ unpack_signal_envelope SampleSchema.schema (1, "room-1", [(1, VStr "ada")])
  = Ok {| uk_type := "Ring"; uk_key := "room-1"; uk_value := VMap [(VStr "title", VStr "ada")] |}.
Proof.
  assert (Hr : record_value (VMap [(VStr "title", VStr "ada")])).
  { exists [("title", VStr "ada")]. split; [reflexivity|].
    apply (bool_decide_unpack _). vm_compute. exact I. }
  split.
  - apply (keyed_record_roundtrip SampleSchema.schema "Typing" "room-1");
      [vm_compute; reflexivity|exact Hr|vm_compute; reflexivity].
  - apply (keyed_record_roundtrip SampleSchema.schema "Ring" "room-1");
      [vm_compute; reflexivity|exact Hr|vm_compute; reflexivity].
Defined.

Lemma stream_event_repack_witness :
  pack_stream_event SampleSchema.schema sample_event = Ok sample_packed_event.
Proof.
  apply (stream_event_repack SampleSchema.schema sample_packed_event).
  - vm_compute. reflexivity.
  - apply (bool_decide_unpack _). vm_compute. exact I.
  - vm_compute. reflexivity.
Defined.
