(* ===== verification/Handshake.v ===== *)
(** * The hello handshake: compatibility, capabilities, frame kinds
    ([crates/frick-protocol/src/compatibility.rs], [capabilities.rs], [frame.rs])

    What a server checks when a client says hello: whether the two schema
    revisions can talk, and whether the server advertises what the client
    requires; and the wire discriminants of the frames they exchange. *)

From Stdlib Require Import ZArith Lia Ascii String.
From stdpp Require Import base gmap strings list pretty.
From S2P Require Import Prelude Value Schema.

(** ** Schema compatibility *)

Inductive SchemaCompatibilityReason : Type :=
| Exact | RevisionCompatibleHashMismatch | SchemaIdMismatch | ClientTooOld | ServerTooOld.
#[export] Instance SchemaCompatibilityReason_eq_dec : EqDecision SchemaCompatibilityReason.
Proof. solve_decision. Defined.
#[export, refine] Instance SchemaCompatibilityReason_enum :
    StringEnum SchemaCompatibilityReason := {|
  enum_name := "SchemaCompatibilityReason";
  enum_ALL := [Exact; RevisionCompatibleHashMismatch; SchemaIdMismatch; ClientTooOld; ServerTooOld];
  enum_as_str r := match r with
    | Exact => "exact" | RevisionCompatibleHashMismatch => "revisionCompatibleHashMismatch"
    | SchemaIdMismatch => "schemaIdMismatch" | ClientTooOld => "clientTooOld"
    | ServerTooOld => "serverTooOld" end;
|}.
Proof. all: solve_enum. Defined.

Record SchemaCompatibilityResult : Type := {
  compatible : bool;
  reason : SchemaCompatibilityReason;
  client_revision : Z;
  server_revision : Z;
  compat_message : option string;
}.

Definition compare_schema_compatibility (client server : FrickSchema) : SchemaCompatibilityResult :=
  let mk c r m := {| compatible := c; reason := r; client_revision := schema_revision client;
                     server_revision := schema_revision server; compat_message := m |} in
  if negb (String.eqb (schema_id client) (schema_id server)) then
    mk false SchemaIdMismatch
      (Some ("Schema id mismatch: client=" +:+ schema_id client +:+ " server=" +:+ schema_id server))
  else if schema_revision client <? minimum_client_revision server then
    mk false ClientTooOld
      (Some ("Client schema revision " +:+ fmt (schema_revision client)
             +:+ " is below server minimum " +:+ fmt (minimum_client_revision server)))
  else if schema_revision server <? minimum_server_revision client then
    mk false ServerTooOld
      (Some ("Server schema revision " +:+ fmt (schema_revision server)
             +:+ " is below client minimum " +:+ fmt (minimum_server_revision client)))
  else if negb (String.eqb (hash client) (hash server)) then
    mk true RevisionCompatibleHashMismatch
      (Some "Schema revisions are compatible but hashes differ")
  else mk true Exact None.

Definition require_schema_compatibility (client server : FrickSchema) :
    result ProtocolError SchemaCompatibilityResult :=
  let result := compare_schema_compatibility client server in
  if negb (compatible result)
  then perr (default "" (compat_message result))
  else Ok result.

(** When two schemas can talk. *)
Definition can_talk (client server : FrickSchema) : Prop :=
  schema_id client = schema_id server
  ∧ minimum_client_revision server ≤ schema_revision client
  ∧ minimum_server_revision client ≤ schema_revision server.

(** the compatibility verdict: compatible exactly when the schema ids are
    equal and each side's revision reaches the other side's minimum; the
    message is absent exactly for an exact match, which requires equal hashes;
    [require_schema_compatibility] succeeds exactly on compatible pairs and
    otherwise fails with the verdict's message. *)
Theorem compare_schema_compatibility_spec client server :
  let r := compare_schema_compatibility client server in
  (compatible r = true ↔ can_talk client server)
  ∧ (reason r = Exact ↔ can_talk client server ∧ hash client = hash server)
  ∧ (compat_message r = None ↔ reason r = Exact)
  ∧ (client_revision r = schema_revision client ∧ server_revision r = schema_revision server)
  ∧ require_schema_compatibility client server
    = (if compatible r then Ok r else perr (default "" (compat_message r))).
Proof.
  simpl. unfold require_schema_compatibility, compare_schema_compatibility, can_talk.
  destruct (String.eqb_spec (schema_id client) (schema_id server)); simpl;
    [|split_and!; naive_solver].
  destruct (Z.ltb_spec (schema_revision client) (minimum_client_revision server)); simpl;
    [split_and!; naive_solver lia|].
  destruct (Z.ltb_spec (schema_revision server) (minimum_server_revision client)); simpl;
    [split_and!; naive_solver lia|].
  destruct (String.eqb_spec (hash client) (hash server)); simpl; split_and!; naive_solver lia.
Qed.

(** ** Capabilities *)

Inductive FrickClientPlatform : Type := CP_Web | CP_Node | CP_Ios | CP_Macos | CP_Android | CP_Test | CP_Service.
#[export] Instance FrickClientPlatform_eq_dec : EqDecision FrickClientPlatform.
Proof. solve_decision. Defined.
#[export, refine] Instance FrickClientPlatform_enum : StringEnum FrickClientPlatform := {|
  enum_name := "FrickClientPlatform";
  enum_ALL := [CP_Web; CP_Node; CP_Ios; CP_Macos; CP_Android; CP_Test; CP_Service];
  enum_as_str p := match p with
    | CP_Web => "web" | CP_Node => "node" | CP_Ios => "ios" | CP_Macos => "macos"
    | CP_Android => "android" | CP_Test => "test" | CP_Service => "service" end;
|}.
Proof. all: solve_enum. Defined.

Inductive FrickTransportCapability : Type := TC_Websocket | TC_Http | TC_Sse.
#[export] Instance FrickTransportCapability_eq_dec : EqDecision FrickTransportCapability.
Proof. solve_decision. Defined.
#[export, refine] Instance FrickTransportCapability_enum : StringEnum FrickTransportCapability := {|
  enum_name := "FrickTransportCapability";
  enum_ALL := [TC_Websocket; TC_Http; TC_Sse];
  enum_as_str t := match t with TC_Websocket => "websocket" | TC_Http => "http" | TC_Sse => "sse" end;
|}.
Proof. all: solve_enum. Defined.

Inductive FrickEncodingCapability : Type := EC_Msgpack | EC_Json.
#[export] Instance FrickEncodingCapability_eq_dec : EqDecision FrickEncodingCapability.
Proof. solve_decision. Defined.
#[export, refine] Instance FrickEncodingCapability_enum : StringEnum FrickEncodingCapability := {|
  enum_name := "FrickEncodingCapability";
  enum_ALL := [EC_Msgpack; EC_Json];
  enum_as_str t := match t with EC_Msgpack => "msgpack" | EC_Json => "json" end;
|}.
Proof. all: solve_enum. Defined.

Inductive FrickPrimitiveCapability : Type :=
| PC_Objects | PC_Streams | PC_Presence | PC_Signals | PC_Blobs | PC_Jobs | PC_Projections.
#[export] Instance FrickPrimitiveCapability_eq_dec : EqDecision FrickPrimitiveCapability.
Proof. solve_decision. Defined.
#[export, refine] Instance FrickPrimitiveCapability_enum : StringEnum FrickPrimitiveCapability := {|
  enum_name := "FrickPrimitiveCapability";
  enum_ALL := [PC_Objects; PC_Streams; PC_Presence; PC_Signals; PC_Blobs; PC_Jobs; PC_Projections];
  enum_as_str t := match t with
    | PC_Objects => "objects" | PC_Streams => "streams" | PC_Presence => "presence"
    | PC_Signals => "signals" | PC_Blobs => "blobs" | PC_Jobs => "jobs"
    | PC_Projections => "projections" end;
|}.
Proof. all: solve_enum. Defined.

Inductive FrickBlobUploadCapability : Type := BU_Direct | BU_Resumable | BU_SignedUrl | BU_LocalOnly.
#[export] Instance FrickBlobUploadCapability_eq_dec : EqDecision FrickBlobUploadCapability.
Proof. solve_decision. Defined.
#[export, refine] Instance FrickBlobUploadCapability_enum : StringEnum FrickBlobUploadCapability := {|
  enum_name := "FrickBlobUploadCapability";
  enum_ALL := [BU_Direct; BU_Resumable; BU_SignedUrl; BU_LocalOnly];
  enum_as_str t := match t with
    | BU_Direct => "direct" | BU_Resumable => "resumable" | BU_SignedUrl => "signedUrl"
    | BU_LocalOnly => "localOnly" end;
|}.
Proof. all: solve_enum. Defined.

Inductive FrickPushCapability : Type := PU_Apns | PU_Fcm | PU_WebPush | PU_Test.
#[export] Instance FrickPushCapability_eq_dec : EqDecision FrickPushCapability.
Proof. solve_decision. Defined.
#[export, refine] Instance FrickPushCapability_enum : StringEnum FrickPushCapability := {|
  enum_name := "FrickPushCapability";
  enum_ALL := [PU_Apns; PU_Fcm; PU_WebPush; PU_Test];
  enum_as_str t := match t with
    | PU_Apns => "apns" | PU_Fcm => "fcm" | PU_WebPush => "webPush" | PU_Test => "test" end;
|}.
Proof. all: solve_enum. Defined.

Record FrickSchemaCapability : Type := {
  sc_schema_id : string; sc_schema_revision : Z; sc_schema_hash : string;
}.
Record FrickOfflineCapabilities : Type := { off_cache : bool; off_pending_appends : bool }.

Record FrickClientCapabilities : Type := {
  cc_platform : FrickClientPlatform; cc_sdk_version : string; cc_schema : FrickSchemaCapability;
  cc_transports : list FrickTransportCapability; cc_encodings : list FrickEncodingCapability;
  cc_primitives : list FrickPrimitiveCapability; cc_offline : FrickOfflineCapabilities;
  cc_blob_uploads : list FrickBlobUploadCapability; cc_push : list FrickPushCapability;
  cc_experimental : list string; cc_required : list string;
}.
Record FrickServerCapabilities : Type := {
  sv_schema : FrickSchemaCapability;
  sv_transports : list FrickTransportCapability; sv_encodings : list FrickEncodingCapability;
  sv_primitives : list FrickPrimitiveCapability;
  sv_blob_uploads : list FrickBlobUploadCapability; sv_push : list FrickPushCapability;
  sv_experimental : list string; sv_limits : list (string * Z);
}.

Definition schema_capability (s : FrickSchema) : FrickSchemaCapability :=
  {| sc_schema_id := schema_id s; sc_schema_revision := schema_revision s;
     sc_schema_hash := hash s |}.

Definition default_client_capabilities (platform : FrickClientPlatform) (sdk_version : string)
    (s : FrickSchema) : FrickClientCapabilities :=
  {| cc_platform := platform; cc_sdk_version := sdk_version; cc_schema := schema_capability s;
     cc_transports := [TC_Websocket]; cc_encodings := [EC_Msgpack];
     cc_primitives := [PC_Objects; PC_Streams; PC_Presence; PC_Signals];
     cc_offline := {| off_cache := true; off_pending_appends := true |};
     cc_blob_uploads := [BU_Direct]; cc_push := []; cc_experimental := []; cc_required := [] |}.

Definition default_server_capabilities (s : FrickSchema) : FrickServerCapabilities :=
  {| sv_schema := schema_capability s; sv_transports := [TC_Websocket; TC_Http];
     sv_encodings := [EC_Msgpack; EC_Json];
     sv_primitives := [PC_Objects; PC_Streams; PC_Presence; PC_Signals; PC_Blobs; PC_Jobs;
                       PC_Projections];
     sv_blob_uploads := [BU_Direct]; sv_push := []; sv_experimental := []; sv_limits := [] |}.

Definition server_capability_names (server : FrickServerCapabilities) : list string :=
  ((λ n, "transport." +:+ enum_as_str n) <$> sv_transports server)
  ++ ((λ n, "encoding." +:+ enum_as_str n) <$> sv_encodings server)
  ++ ((λ n, "primitive." +:+ enum_as_str n) <$> sv_primitives server)
  ++ ((λ n, "blobUpload." +:+ enum_as_str n) <$> sv_blob_uploads server)
  ++ ((λ n, "push." +:+ enum_as_str n) <$> sv_push server)
  ++ ((λ n, "experimental." +:+ n) <$> sv_experimental server).

Definition unsupported_required_capabilities (client : FrickClientCapabilities)
    (server : FrickServerCapabilities) : list string :=
  let supported := list_to_set (C := gset string) (server_capability_names server) in
  List.filter (λ name, negb (bool_decide (name ∈ supported))) (cc_required client).

(** capability negotiation: the reported list is empty exactly when the
    server advertises everything the client requires; in general it is the
    required names the server does not advertise, in the client's order and
    with its repetitions. *)
Theorem unsupported_required_spec client server :
  (unsupported_required_capabilities client server = []
   ↔ ∀ n, n ∈ cc_required client → n ∈ server_capability_names server)
  ∧ (∀ n, n ∈ unsupported_required_capabilities client server
        ↔ n ∈ cc_required client ∧ n ∉ server_capability_names server)
  ∧ sublist (unsupported_required_capabilities client server) (cc_required client).
Proof.
  unfold unsupported_required_capabilities. set (names := server_capability_names server).
  assert (Hin : ∀ n l,
    n ∈ List.filter (λ name, negb (bool_decide (name ∈ list_to_set (C := gset string) names))) l
    ↔ n ∈ l ∧ n ∉ names).
  { intros n l. rewrite !list_elem_of_In, filter_In, negb_true_iff, bool_decide_eq_false.
    by rewrite elem_of_list_to_set, list_elem_of_In. }
  split_and!.
  - split.
    + intros Hnil n Hn. destruct (decide (n ∈ names)) as [|Hnot]; [done|].
      assert (n ∈ List.filter (λ name, negb (bool_decide
        (name ∈ list_to_set (C := gset string) names))) (cc_required client)) as Hbad
        by by apply Hin.
      rewrite Hnil in Hbad. by inversion Hbad.
    + intros H. apply elem_of_nil_inv. intros n [Hn Hnot]%Hin. by apply Hnot, H.
  - intros n. apply Hin.
  - induction (cc_required client) as [|n l IH]; simpl; [constructor|].
    destruct (negb _); by constructor.
Qed.

(** ** Frame kinds *)

Inductive FrameKind : Type :=
| K_Hello | K_Schema | K_Subscribe | K_Snapshot | K_StreamPage | K_Append | K_Ack | K_Nack
| K_Delta | K_PresenceSet | K_PresenceClear | K_PresenceDelta | K_SignalSend | K_SignalDeliver
| K_CursorCommit | K_Ping | K_Pong | K_SyncStatus | K_HelloAck | K_ProjectionDelta
| K_ObjectUpsert | K_CallCommand | K_CallCommandResult.
#[export] Instance FrameKind_eq_dec : EqDecision FrameKind.
Proof. solve_decision. Defined.

(** The [repr(u8)] discriminant, [kind as u8]. *)
Definition FrameKind_as_u8 (k : FrameKind) : Z :=
  match k with
  | K_Hello => 0 | K_Schema => 1 | K_Subscribe => 2 | K_Snapshot => 3 | K_StreamPage => 4
  | K_Append => 5 | K_Ack => 6 | K_Nack => 7 | K_Delta => 8 | K_PresenceSet => 9
  | K_PresenceClear => 10 | K_PresenceDelta => 11 | K_SignalSend => 12 | K_SignalDeliver => 13
  | K_CursorCommit => 14 | K_Ping => 15 | K_Pong => 16 | K_SyncStatus => 17 | K_HelloAck => 18
  | K_ProjectionDelta => 19 | K_ObjectUpsert => 20 | K_CallCommand => 21
  | K_CallCommandResult => 22
  end.

Definition FrameKind_try_from (value : Z) : result ProtocolError FrameKind :=
  match value with
  | 0 => Ok K_Hello | 1 => Ok K_Schema | 2 => Ok K_Subscribe | 3 => Ok K_Snapshot
  | 4 => Ok K_StreamPage | 5 => Ok K_Append | 6 => Ok K_Ack | 7 => Ok K_Nack | 8 => Ok K_Delta
  | 9 => Ok K_PresenceSet | 10 => Ok K_PresenceClear | 11 => Ok K_PresenceDelta
  | 12 => Ok K_SignalSend | 13 => Ok K_SignalDeliver | 14 => Ok K_CursorCommit
  | 15 => Ok K_Ping | 16 => Ok K_Pong | 17 => Ok K_SyncStatus | 18 => Ok K_HelloAck
  | 19 => Ok K_ProjectionDelta | 20 => Ok K_ObjectUpsert | 21 => Ok K_CallCommand
  | 22 => Ok K_CallCommandResult
  | other => perr ("Unknown frame kind: " +:+ fmt other)
  end.

Lemma FrameKind_roundtrip k : FrameKind_try_from (FrameKind_as_u8 k) = Ok k.
Proof. by destruct k. Qed.

Lemma FrameKind_try_from_exact n k :
  FrameKind_try_from n = Ok k → FrameKind_as_u8 k = n.
Proof.
  unfold FrameKind_try_from. intros H. repeat (case_match; simplify_eq/=; try done).
Qed.

Definition reject_schema_mismatch (client_hash server_hash : string) : result ProtocolError unit :=
  if negb (String.eqb client_hash server_hash)
  then perr ("Schema mismatch: client=" +:+ client_hash +:+ " server=" +:+ server_hash)
  else Ok tt.

(** the frame discriminants are a bijection between the 23 frame kinds and
    the integers 0..22: decoding inverts encoding, every other integer is
    rejected with its number in the message. *)
Theorem FrameKind_bijection n :
  (∀ k, FrameKind_try_from n = Ok k ↔ FrameKind_as_u8 k = n)
  ∧ ((∃ k, FrameKind_try_from n = Ok k) ↔ 0 ≤ n ≤ 22)
  ∧ (∀ e, FrameKind_try_from n = Err e → message e = "Unknown frame kind: " +:+ fmt n).
Proof.
  split_and!.
  - intros k. split; [apply FrameKind_try_from_exact|]. intros <-. apply FrameKind_roundtrip.
  - split.
    + intros [k Hk%FrameKind_try_from_exact]. destruct k; simpl in Hk; lia.
    + intros Hn. assert (n = 0 ∨ n = 1 ∨ n = 2 ∨ n = 3 ∨ n = 4 ∨ n = 5 ∨ n = 6 ∨ n = 7 ∨ n = 8
        ∨ n = 9 ∨ n = 10 ∨ n = 11 ∨ n = 12 ∨ n = 13 ∨ n = 14 ∨ n = 15 ∨ n = 16 ∨ n = 17
        ∨ n = 18 ∨ n = 19 ∨ n = 20 ∨ n = 21 ∨ n = 22) by lia.
      destruct_or!; subst; simpl; eauto.
  - intros e. unfold FrameKind_try_from. repeat (case_match; simplify_eq/=; try done);
      by intros [= <-].
Qed.
