(* ===== verification/Builder.v ===== *)
(** * The schema-authoring DSL ([crates/frick-schema/src/builder.rs])

    A builder is a newtype over the definition it accumulates, so each builder
    type is the definition itself and each method a function from it to it; the
    closure a declaration takes is a Rocq function. [build] is characterised by
    the declarative [schema_valid] of [Schema], and the DSL is proved complete:
    every schema the validator accepts is the result of a sequence of builder
    calls. *)

From Stdlib Require Import ZArith Lia Ascii String.
From stdpp Require Import base gmap strings list.
From S2P Require Import Prelude Value Schema.

(** ** Fields *)

Definition FieldBuilder : Type := FieldDef.

Definition FieldBuilder_new (name : string) (id : Z) (kind : FieldKind) : FieldBuilder :=
  {| fd_id := id; fd_name := name; fd_kind := kind; fd_required := false; fd_ref := None;
     fd_enum_values := None; fd_sensitivity := None |}.

Module Field.

(** The methods of [FieldBuilder]. *)
Definition required (b : FieldBuilder) : FieldBuilder :=
  {| fd_id := fd_id b; fd_name := fd_name b; fd_kind := fd_kind b; fd_required := true;
     fd_ref := fd_ref b; fd_enum_values := fd_enum_values b; fd_sensitivity := fd_sensitivity b |}.
Definition optional (b : FieldBuilder) : FieldBuilder :=
  {| fd_id := fd_id b; fd_name := fd_name b; fd_kind := fd_kind b; fd_required := false;
     fd_ref := fd_ref b; fd_enum_values := fd_enum_values b; fd_sensitivity := fd_sensitivity b |}.
Definition set_ref (target : string) (b : FieldBuilder) : FieldBuilder :=
  {| fd_id := fd_id b; fd_name := fd_name b; fd_kind := fd_kind b; fd_required := fd_required b;
     fd_ref := Some target; fd_enum_values := fd_enum_values b; fd_sensitivity := fd_sensitivity b |}.
Definition set_enum_values (values : list string) (b : FieldBuilder) : FieldBuilder :=
  {| fd_id := fd_id b; fd_name := fd_name b; fd_kind := fd_kind b; fd_required := fd_required b;
     fd_ref := fd_ref b; fd_enum_values := Some values; fd_sensitivity := fd_sensitivity b |}.
Definition sensitivity (v : FieldSensitivity) (b : FieldBuilder) : FieldBuilder :=
  {| fd_id := fd_id b; fd_name := fd_name b; fd_kind := fd_kind b; fd_required := fd_required b;
     fd_ref := fd_ref b; fd_enum_values := fd_enum_values b; fd_sensitivity := Some (enum_as_str v) |}.

(** The free constructors of [mod field]. *)

Definition id (name : string) (id : Z) : FieldBuilder := FieldBuilder_new name id FK_Id.

Definition string_ (name : string) (id : Z) : FieldBuilder := FieldBuilder_new name id FK_String.

Definition bool_ (name : string) (id : Z) : FieldBuilder := FieldBuilder_new name id FK_Bool.

Definition timestamp (name : string) (id : Z) : FieldBuilder := FieldBuilder_new name id FK_Timestamp.

Definition int_ (name : string) (id : Z) : FieldBuilder := FieldBuilder_new name id FK_Int.

Definition bytes (name : string) (id : Z) : FieldBuilder := FieldBuilder_new name id FK_Bytes.

Definition json (name : string) (id : Z) : FieldBuilder := FieldBuilder_new name id FK_Json.

Definition ref_ (name : string) (id : Z) (target : string) : FieldBuilder :=
  set_ref target (FieldBuilder_new name id FK_Ref).
Definition enum_ (name : string) (id : Z) (values : list string) : FieldBuilder :=
  set_enum_values values (FieldBuilder_new name id FK_Enum).
End Field.

(** ** One builder per type: every method pushes at the end *)

Module Builder.
Definition object_field (f : FieldBuilder) (b : ObjectDef) : ObjectDef :=
  {| od_id := od_id b; od_name := od_name b; od_fields := od_fields b ++ [f];
     od_indexes := od_indexes b; od_merge_policy := od_merge_policy b |}.
Definition object_index (name : string) (id : Z) (fields : list string) (b : ObjectDef) :
    ObjectDef :=
  {| od_id := od_id b; od_name := od_name b; od_fields := od_fields b;
     od_indexes := od_indexes b ++ [{| ix_id := id; ix_name := name; ix_fields := fields |}];
     od_merge_policy := od_merge_policy b |}.
Definition object_merge_policy (p : FrickObjectMergePolicy) (b : ObjectDef) : ObjectDef :=
  {| od_id := od_id b; od_name := od_name b; od_fields := od_fields b;
     od_indexes := od_indexes b; od_merge_policy := Some p |}.

Definition stream_key_field (f : FieldBuilder) (b : StreamDef) : StreamDef :=
  {| sd_id := sd_id b; sd_name := sd_name b; sd_key_fields := sd_key_fields b ++ [f];
     sd_events := sd_events b |}.
Definition stream_event (name : string) (b : StreamDef) : StreamDef :=
  {| sd_id := sd_id b; sd_name := sd_name b; sd_key_fields := sd_key_fields b;
     sd_events := sd_events b ++ [name] |}.
Definition stream_events (names : list string) (b : StreamDef) : StreamDef :=
  {| sd_id := sd_id b; sd_name := sd_name b; sd_key_fields := sd_key_fields b;
     sd_events := sd_events b ++ names |}.

Definition event_field (f : FieldBuilder) (b : EventDef) : EventDef :=
  {| ed_id := ed_id b; ed_name := ed_name b; ed_fields := ed_fields b ++ [f] |}.

Definition presence_key_field (f : FieldBuilder) (b : PresenceDef) : PresenceDef :=
  {| pd_id := pd_id b; pd_name := pd_name b; pd_key_fields := pd_key_fields b ++ [f];
     pd_fields := pd_fields b; pd_ttl_ms := pd_ttl_ms b |}.
Definition presence_field (f : FieldBuilder) (b : PresenceDef) : PresenceDef :=
  {| pd_id := pd_id b; pd_name := pd_name b; pd_key_fields := pd_key_fields b;
     pd_fields := pd_fields b ++ [f]; pd_ttl_ms := pd_ttl_ms b |}.

Definition signal_key_field (f : FieldBuilder) (b : SignalDef) : SignalDef :=
  {| sg_id := sg_id b; sg_name := sg_name b; sg_key_fields := sg_key_fields b ++ [f];
     sg_fields := sg_fields b; sg_ttl_ms := sg_ttl_ms b |}.
Definition signal_field (f : FieldBuilder) (b : SignalDef) : SignalDef :=
  {| sg_id := sg_id b; sg_name := sg_name b; sg_key_fields := sg_key_fields b;
     sg_fields := sg_fields b ++ [f]; sg_ttl_ms := sg_ttl_ms b |}.

Definition blob_metadata_field (f : FieldBuilder) (b : BlobDef) : BlobDef :=
  {| bd_id := bd_id b; bd_name := bd_name b; bd_metadata_fields := bd_metadata_fields b ++ [f] |}.

Definition job_field (f : FieldBuilder) (b : JobDef) : JobDef :=
  {| jd_id := jd_id b; jd_name := jd_name b; jd_fields := jd_fields b ++ [f] |}.

Definition projection_field (f : FieldBuilder) (b : ProjectionDef) : ProjectionDef :=
  {| pj_id := pj_id b; pj_name := pj_name b; pj_source := pj_source b;
     pj_fields := pj_fields b ++ [f]; pj_indexes := pj_indexes b |}.
Definition projection_index (name : string) (id : Z) (fields : list string)
    (b : ProjectionDef) : ProjectionDef :=
  {| pj_id := pj_id b; pj_name := pj_name b; pj_source := pj_source b;
     pj_fields := pj_fields b;
     pj_indexes := pj_indexes b ++ [{| ix_id := id; ix_name := name; ix_fields := fields |}] |}.
End Builder.

(** ** The schema builder *)

Definition SchemaBuilder : Type := FrickSchema.

Definition SchemaBuilder_new (name sid : string) : SchemaBuilder :=
  {| s_name := name; schema_id := sid; schema_version := "0.1.0"; schema_revision := 1;
     minimum_client_revision := 1; minimum_server_revision := 1; protocol := "frick.realtime";
     protocol_version := 1; compatibility := "greenfield-cutover"; hash := EmptyString;
     objects := []; streams := []; events := []; presences := []; signals := []; blobs := [];
     jobs := []; projections := [] |}.

Module SB.

Definition version (v : string) (b : SchemaBuilder) : SchemaBuilder :=
  {| s_name := s_name b; schema_id := schema_id b; schema_version := v;
     schema_revision := schema_revision b; minimum_client_revision := minimum_client_revision b;
     minimum_server_revision := minimum_server_revision b; protocol := protocol b;
     protocol_version := protocol_version b; compatibility := compatibility b; hash := hash b;
     objects := objects b; streams := streams b; events := events b; presences := presences b;
     signals := signals b; blobs := blobs b; jobs := jobs b; projections := projections b |}.

Definition revision (v : Z) (b : SchemaBuilder) : SchemaBuilder :=
  {| s_name := s_name b; schema_id := schema_id b; schema_version := schema_version b;
     schema_revision := v; minimum_client_revision := minimum_client_revision b;
     minimum_server_revision := minimum_server_revision b; protocol := protocol b;
     protocol_version := protocol_version b; compatibility := compatibility b; hash := hash b;
     objects := objects b; streams := streams b; events := events b; presences := presences b;
     signals := signals b; blobs := blobs b; jobs := jobs b; projections := projections b |}.

Definition min_client (v : Z) (b : SchemaBuilder) : SchemaBuilder :=
  {| s_name := s_name b; schema_id := schema_id b; schema_version := schema_version b;
     schema_revision := schema_revision b; minimum_client_revision := v;
     minimum_server_revision := minimum_server_revision b; protocol := protocol b;
     protocol_version := protocol_version b; compatibility := compatibility b; hash := hash b;
     objects := objects b; streams := streams b; events := events b; presences := presences b;
     signals := signals b; blobs := blobs b; jobs := jobs b; projections := projections b |}.

Definition min_server (v : Z) (b : SchemaBuilder) : SchemaBuilder :=
  {| s_name := s_name b; schema_id := schema_id b; schema_version := schema_version b;
     schema_revision := schema_revision b; minimum_client_revision := minimum_client_revision b;
     minimum_server_revision := v; protocol := protocol b;
     protocol_version := protocol_version b; compatibility := compatibility b; hash := hash b;
     objects := objects b; streams := streams b; events := events b; presences := presences b;
     signals := signals b; blobs := blobs b; jobs := jobs b; projections := projections b |}.

Definition set_protocol (v : string) (b : SchemaBuilder) : SchemaBuilder :=
  {| s_name := s_name b; schema_id := schema_id b; schema_version := schema_version b;
     schema_revision := schema_revision b; minimum_client_revision := minimum_client_revision b;
     minimum_server_revision := minimum_server_revision b; protocol := v;
     protocol_version := protocol_version b; compatibility := compatibility b; hash := hash b;
     objects := objects b; streams := streams b; events := events b; presences := presences b;
     signals := signals b; blobs := blobs b; jobs := jobs b; projections := projections b |}.

Definition set_protocol_version (v : Z) (b : SchemaBuilder) : SchemaBuilder :=
  {| s_name := s_name b; schema_id := schema_id b; schema_version := schema_version b;
     schema_revision := schema_revision b; minimum_client_revision := minimum_client_revision b;
     minimum_server_revision := minimum_server_revision b; protocol := protocol b;
     protocol_version := v; compatibility := compatibility b; hash := hash b;
     objects := objects b; streams := streams b; events := events b; presences := presences b;
     signals := signals b; blobs := blobs b; jobs := jobs b; projections := projections b |}.

Definition set_compatibility (v : string) (b : SchemaBuilder) : SchemaBuilder :=
  {| s_name := s_name b; schema_id := schema_id b; schema_version := schema_version b;
     schema_revision := schema_revision b; minimum_client_revision := minimum_client_revision b;
     minimum_server_revision := minimum_server_revision b; protocol := protocol b;
     protocol_version := protocol_version b; compatibility := v; hash := hash b;
     objects := objects b; streams := streams b; events := events b; presences := presences b;
     signals := signals b; blobs := blobs b; jobs := jobs b; projections := projections b |}.

Definition set_hash (v : string) (b : SchemaBuilder) : SchemaBuilder :=
  {| s_name := s_name b; schema_id := schema_id b; schema_version := schema_version b;
     schema_revision := schema_revision b; minimum_client_revision := minimum_client_revision b;
     minimum_server_revision := minimum_server_revision b; protocol := protocol b;
     protocol_version := protocol_version b; compatibility := compatibility b; hash := v;
     objects := objects b; streams := streams b; events := events b; presences := presences b;
     signals := signals b; blobs := blobs b; jobs := jobs b; projections := projections b |}.

Definition object (name : string) (id : Z) (build : ObjectDef → ObjectDef)
    (b : SchemaBuilder) : SchemaBuilder :=
  let builder := {| od_id := id; od_name := name; od_fields := []; od_indexes := [];
     od_merge_policy := None |} in
  {| s_name := s_name b; schema_id := schema_id b; schema_version := schema_version b;
     schema_revision := schema_revision b; minimum_client_revision := minimum_client_revision b;
     minimum_server_revision := minimum_server_revision b; protocol := protocol b;
     protocol_version := protocol_version b; compatibility := compatibility b; hash := hash b;
     objects := objects b ++ [build builder]; streams := streams b; events := events b;
     presences := presences b; signals := signals b; blobs := blobs b; jobs := jobs b;
     projections := projections b |}.

Definition stream (name : string) (id : Z) (build : StreamDef → StreamDef)
    (b : SchemaBuilder) : SchemaBuilder :=
  let builder := {| sd_id := id; sd_name := name; sd_key_fields := []; sd_events := [] |} in
  {| s_name := s_name b; schema_id := schema_id b; schema_version := schema_version b;
     schema_revision := schema_revision b; minimum_client_revision := minimum_client_revision b;
     minimum_server_revision := minimum_server_revision b; protocol := protocol b;
     protocol_version := protocol_version b; compatibility := compatibility b; hash := hash b;
     objects := objects b; streams := streams b ++ [build builder]; events := events b;
     presences := presences b; signals := signals b; blobs := blobs b; jobs := jobs b;
     projections := projections b |}.

Definition event (name : string) (id : Z) (build : EventDef → EventDef)
    (b : SchemaBuilder) : SchemaBuilder :=
  let builder := {| ed_id := id; ed_name := name; ed_fields := [] |} in
  {| s_name := s_name b; schema_id := schema_id b; schema_version := schema_version b;
     schema_revision := schema_revision b; minimum_client_revision := minimum_client_revision b;
     minimum_server_revision := minimum_server_revision b; protocol := protocol b;
     protocol_version := protocol_version b; compatibility := compatibility b; hash := hash b;
     objects := objects b; streams := streams b; events := events b ++ [build builder];
     presences := presences b; signals := signals b; blobs := blobs b; jobs := jobs b;
     projections := projections b |}.

Definition presence (name : string) (id : Z) (ttl_ms : Z) (build : PresenceDef → PresenceDef)
    (b : SchemaBuilder) : SchemaBuilder :=
  let builder := {| pd_id := id; pd_name := name; pd_key_fields := []; pd_fields := [];
     pd_ttl_ms := ttl_ms |} in
  {| s_name := s_name b; schema_id := schema_id b; schema_version := schema_version b;
     schema_revision := schema_revision b; minimum_client_revision := minimum_client_revision b;
     minimum_server_revision := minimum_server_revision b; protocol := protocol b;
     protocol_version := protocol_version b; compatibility := compatibility b; hash := hash b;
     objects := objects b; streams := streams b; events := events b;
     presences := presences b ++ [build builder]; signals := signals b; blobs := blobs b;
     jobs := jobs b; projections := projections b |}.

Definition signal (name : string) (id : Z) (ttl_ms : Z) (build : SignalDef → SignalDef)
    (b : SchemaBuilder) : SchemaBuilder :=
  let builder := {| sg_id := id; sg_name := name; sg_key_fields := []; sg_fields := [];
     sg_ttl_ms := ttl_ms |} in
  {| s_name := s_name b; schema_id := schema_id b; schema_version := schema_version b;
     schema_revision := schema_revision b; minimum_client_revision := minimum_client_revision b;
     minimum_server_revision := minimum_server_revision b; protocol := protocol b;
     protocol_version := protocol_version b; compatibility := compatibility b; hash := hash b;
     objects := objects b; streams := streams b; events := events b; presences := presences b;
     signals := signals b ++ [build builder]; blobs := blobs b; jobs := jobs b;
     projections := projections b |}.

Definition blob (name : string) (id : Z) (build : BlobDef → BlobDef)
    (b : SchemaBuilder) : SchemaBuilder :=
  let builder := {| bd_id := id; bd_name := name; bd_metadata_fields := [] |} in
  {| s_name := s_name b; schema_id := schema_id b; schema_version := schema_version b;
     schema_revision := schema_revision b; minimum_client_revision := minimum_client_revision b;
     minimum_server_revision := minimum_server_revision b; protocol := protocol b;
     protocol_version := protocol_version b; compatibility := compatibility b; hash := hash b;
     objects := objects b; streams := streams b; events := events b; presences := presences b;
     signals := signals b; blobs := blobs b ++ [build builder]; jobs := jobs b;
     projections := projections b |}.

Definition job (name : string) (id : Z) (build : JobDef → JobDef)
    (b : SchemaBuilder) : SchemaBuilder :=
  let builder := {| jd_id := id; jd_name := name; jd_fields := [] |} in
  {| s_name := s_name b; schema_id := schema_id b; schema_version := schema_version b;
     schema_revision := schema_revision b; minimum_client_revision := minimum_client_revision b;
     minimum_server_revision := minimum_server_revision b; protocol := protocol b;
     protocol_version := protocol_version b; compatibility := compatibility b; hash := hash b;
     objects := objects b; streams := streams b; events := events b; presences := presences b;
     signals := signals b; blobs := blobs b; jobs := jobs b ++ [build builder];
     projections := projections b |}.

Definition projection (name : string) (id : Z) (source : string) (build : ProjectionDef → ProjectionDef)
    (b : SchemaBuilder) : SchemaBuilder :=
  let builder := {| pj_id := id; pj_name := name; pj_source := source; pj_fields := [];
     pj_indexes := [] |} in
  {| s_name := s_name b; schema_id := schema_id b; schema_version := schema_version b;
     schema_revision := schema_revision b; minimum_client_revision := minimum_client_revision b;
     minimum_server_revision := minimum_server_revision b; protocol := protocol b;
     protocol_version := protocol_version b; compatibility := compatibility b; hash := hash b;
     objects := objects b; streams := streams b; events := events b; presences := presences b;
     signals := signals b; blobs := blobs b; jobs := jobs b;
     projections := projections b ++ [build builder] |}.

End SB.

Definition build (b : SchemaBuilder) : result ProtocolError FrickSchema :=
  validate_schema b;; Ok b.
Definition build_unchecked (b : SchemaBuilder) : FrickSchema := b.

(** [build] is [build_unchecked] behind the validator. *)
Lemma build_spec (b : SchemaBuilder) s : build b = Ok s ↔ s = build_unchecked b ∧ schema_valid s.
Proof.
  unfold build, build_unchecked. rewrite bind_unit_Ok, <- validate_schema_Ok. naive_solver.
Qed.

(** ** Authoring a schema by builder calls *)

Definition author_field (f : FieldDef) : FieldBuilder :=
  let b := FieldBuilder_new (fd_name f) (fd_id f) (fd_kind f) in
  let b := if fd_required f then Field.required b else b in
  let b := match fd_ref f with Some t => Field.set_ref t b | None => b end in
  let b := match fd_enum_values f with Some l => Field.set_enum_values l b | None => b end in
  match fd_sensitivity f with
  | Some text => match enum_from_str (A := FieldSensitivity) text with
                 | Ok v => Field.sensitivity v b | Err _ => b end
  | None => b
  end.

Definition calls {A B} (step : A → B → B) (l : list A) (b : B) : B :=
  foldl (λ b a, step a b) b l.

Definition author_object (o : ObjectDef) (b : ObjectDef) : ObjectDef :=
  let b := calls (λ f, Builder.object_field (author_field f)) (od_fields o) b in
  let b := calls (λ ix, Builder.object_index (ix_name ix) (ix_id ix) (ix_fields ix))
                 (od_indexes o) b in
  match od_merge_policy o with Some p => Builder.object_merge_policy p b | None => b end.
Definition author_stream (o : StreamDef) (b : StreamDef) : StreamDef :=
  calls Builder.stream_event (sd_events o)
    (calls (λ f, Builder.stream_key_field (author_field f)) (sd_key_fields o) b).
Definition author_presence (o : PresenceDef) (b : PresenceDef) : PresenceDef :=
  calls (λ f, Builder.presence_field (author_field f)) (pd_fields o)
    (calls (λ f, Builder.presence_key_field (author_field f)) (pd_key_fields o) b).
Definition author_signal (o : SignalDef) (b : SignalDef) : SignalDef :=
  calls (λ f, Builder.signal_field (author_field f)) (sg_fields o)
    (calls (λ f, Builder.signal_key_field (author_field f)) (sg_key_fields o) b).
Definition author_projection (o : ProjectionDef) (b : ProjectionDef) : ProjectionDef :=
  calls (λ ix, Builder.projection_index (ix_name ix) (ix_id ix) (ix_fields ix)) (pj_indexes o)
    (calls (λ f, Builder.projection_field (author_field f)) (pj_fields o) b).

Definition author_schema (s : FrickSchema) : SchemaBuilder :=
  let b := SchemaBuilder_new (s_name s) (schema_id s) in
  let b := SB.version (schema_version s) b in
  let b := SB.revision (schema_revision s) b in
  let b := SB.min_client (minimum_client_revision s) b in
  let b := SB.min_server (minimum_server_revision s) b in
  let b := SB.set_protocol_version (protocol_version s) b in
  let b := SB.set_hash (hash s) b in
  let b := calls (λ o, SB.object (od_name o) (od_id o) (author_object o)) (objects s) b in
  let b := calls (λ o, SB.stream (sd_name o) (sd_id o) (author_stream o)) (streams s) b in
  let b := calls (λ o, SB.event (ed_name o) (ed_id o)
             (calls (λ f, Builder.event_field (author_field f)) (ed_fields o))) (events s) b in
  let b := calls (λ o, SB.presence (pd_name o) (pd_id o) (pd_ttl_ms o) (author_presence o))
             (presences s) b in
  let b := calls (λ o, SB.signal (sg_name o) (sg_id o) (sg_ttl_ms o) (author_signal o))
             (signals s) b in
  let b := calls (λ o, SB.blob (bd_name o) (bd_id o)
             (calls (λ f, Builder.blob_metadata_field (author_field f)) (bd_metadata_fields o)))
             (blobs s) b in
  let b := calls (λ o, SB.job (jd_name o) (jd_id o)
             (calls (λ f, Builder.job_field (author_field f)) (jd_fields o))) (jobs s) b in
  calls (λ o, SB.projection (pj_name o) (pj_id o) (pj_source o) (author_projection o))
    (projections s) b.

Lemma author_field_id refs f : field_ok refs f → author_field f = f.
Proof.
  intros (_ & _ & Hs). unfold author_field. destruct f as [i n k [] [r|] [e|] [t|]]; simpl in *;
    try done; destruct (Hs t eq_refl) as [x <-]; by rewrite enum_from_as_str.
Qed.

(** A sequence of pushing calls appends the list to the field it pushes to. *)
Lemma calls_push {A B C} (step : A → B → B) (g : B → list C) (mk : B → list C → B)
    (h : A → C) l b :
  (∀ a b, step a b = mk b (g b ++ [h a])) → (∀ b x, g (mk b x) = x) →
  (∀ b x y, mk (mk b x) y = mk b y) → (∀ b, mk b (g b) = b) →
  calls step l b = mk b (g b ++ (h <$> l)).
Proof.
  intros H1 H2 H3 H4. unfold calls. revert b. induction l as [|a l IH]; intros b; simpl.
  - by rewrite app_nil_r, H4.
  - by rewrite IH, H1, H2, H3, <- app_assoc.
Qed.

Ltac push_calls g mk h := 
  rewrite (calls_push _ g mk h);
  [| intros; reflexivity | intros; reflexivity | intros; reflexivity | intros []; reflexivity].

Lemma author_fields_id refs fs : fields_ok refs fs → author_field <$> fs = fs.
Proof.
  intros [_ Hf]. induction Hf as [|f fs Hf' _ IH]; [done|].
  by rewrite fmap_cons, IH, (author_field_id refs).
Qed.

(** The index-pushing calls of objects and projections restore the list. *)
Lemma index_id (l : list IndexDef) :
  (λ ix, {| ix_id := ix_id ix; ix_name := ix_name ix; ix_fields := ix_fields ix |}) <$> l = l.
Proof. induction l as [|[] l IH]; [done|]. by rewrite fmap_cons, IH. Qed.

Lemma author_object_id refs o :
  fields_ok refs (od_fields o) →
  author_object o {| od_id := od_id o; od_name := od_name o; od_fields := [];
                     od_indexes := []; od_merge_policy := None |} = o.
Proof.
  intros Hf. unfold author_object.
  push_calls od_fields (λ b x, {| od_id := od_id b; od_name := od_name b; od_fields := x;
    od_indexes := od_indexes b; od_merge_policy := od_merge_policy b |}) author_field.
  push_calls od_indexes (λ b x, {| od_id := od_id b; od_name := od_name b;
    od_fields := od_fields b; od_indexes := x; od_merge_policy := od_merge_policy b |})
    (λ ix, {| ix_id := ix_id ix; ix_name := ix_name ix; ix_fields := ix_fields ix |}).
  simpl. rewrite (author_fields_id refs) by done. rewrite index_id. by destruct o as [???? []].
Qed.

Lemma author_stream_id refs o :
  fields_ok refs (sd_key_fields o) →
  author_stream o {| sd_id := sd_id o; sd_name := sd_name o; sd_key_fields := [];
                     sd_events := [] |} = o.
Proof.
  intros Hf. unfold author_stream.
  push_calls sd_key_fields (λ b x, {| sd_id := sd_id b; sd_name := sd_name b;
    sd_key_fields := x; sd_events := sd_events b |}) author_field.
  push_calls sd_events (λ b x, {| sd_id := sd_id b; sd_name := sd_name b;
    sd_key_fields := sd_key_fields b; sd_events := x |}) (@id string).
  simpl. rewrite (author_fields_id refs), list_fmap_id by done. by destruct o.
Qed.

Lemma author_presence_id refs o :
  fields_ok refs (pd_key_fields o) → fields_ok refs (pd_fields o) →
  author_presence o {| pd_id := pd_id o; pd_name := pd_name o; pd_key_fields := [];
                       pd_fields := []; pd_ttl_ms := pd_ttl_ms o |} = o.
Proof.
  intros Hk Hf. unfold author_presence.
  push_calls pd_fields (λ b x, {| pd_id := pd_id b; pd_name := pd_name b;
    pd_key_fields := pd_key_fields b; pd_fields := x; pd_ttl_ms := pd_ttl_ms b |}) author_field.
  push_calls pd_key_fields (λ b x, {| pd_id := pd_id b; pd_name := pd_name b;
    pd_key_fields := x; pd_fields := pd_fields b; pd_ttl_ms := pd_ttl_ms b |}) author_field.
  simpl. rewrite !(author_fields_id refs) by done. by destruct o.
Qed.

Lemma author_signal_id refs o :
  fields_ok refs (sg_key_fields o) → fields_ok refs (sg_fields o) →
  author_signal o {| sg_id := sg_id o; sg_name := sg_name o; sg_key_fields := [];
                     sg_fields := []; sg_ttl_ms := sg_ttl_ms o |} = o.
Proof.
  intros Hk Hf. unfold author_signal.
  push_calls sg_fields (λ b x, {| sg_id := sg_id b; sg_name := sg_name b;
    sg_key_fields := sg_key_fields b; sg_fields := x; sg_ttl_ms := sg_ttl_ms b |}) author_field.
  push_calls sg_key_fields (λ b x, {| sg_id := sg_id b; sg_name := sg_name b;
    sg_key_fields := x; sg_fields := sg_fields b; sg_ttl_ms := sg_ttl_ms b |}) author_field.
  simpl. rewrite !(author_fields_id refs) by done. by destruct o.
Qed.

Lemma author_event_id refs o :
  fields_ok refs (ed_fields o) →
  calls (λ f, Builder.event_field (author_field f)) (ed_fields o)
    {| ed_id := ed_id o; ed_name := ed_name o; ed_fields := [] |} = o.
Proof.
  intros Hf. push_calls ed_fields (λ b x, {| ed_id := ed_id b; ed_name := ed_name b;
    ed_fields := x |}) author_field.
  simpl. rewrite (author_fields_id refs) by done. by destruct o.
Qed.

Lemma author_blob_id refs o :
  fields_ok refs (bd_metadata_fields o) →
  calls (λ f, Builder.blob_metadata_field (author_field f)) (bd_metadata_fields o)
    {| bd_id := bd_id o; bd_name := bd_name o; bd_metadata_fields := [] |} = o.
Proof.
  intros Hf. push_calls bd_metadata_fields (λ b x, {| bd_id := bd_id b; bd_name := bd_name b;
    bd_metadata_fields := x |}) author_field.
  simpl. rewrite (author_fields_id refs) by done. by destruct o.
Qed.

Lemma author_job_id refs o :
  fields_ok refs (jd_fields o) →
  calls (λ f, Builder.job_field (author_field f)) (jd_fields o)
    {| jd_id := jd_id o; jd_name := jd_name o; jd_fields := [] |} = o.
Proof.
  intros Hf. push_calls jd_fields (λ b x, {| jd_id := jd_id b; jd_name := jd_name b;
    jd_fields := x |}) author_field.
  simpl. rewrite (author_fields_id refs) by done. by destruct o.
Qed.

Lemma author_projection_id refs o :
  fields_ok refs (pj_fields o) →
  author_projection o {| pj_id := pj_id o; pj_name := pj_name o; pj_source := pj_source o;
                         pj_fields := []; pj_indexes := [] |} = o.
Proof.
  intros Hf. unfold author_projection.
  push_calls pj_fields (λ b x, {| pj_id := pj_id b; pj_name := pj_name b;
    pj_source := pj_source b; pj_fields := x; pj_indexes := pj_indexes b |}) author_field.
  push_calls pj_indexes (λ b x, {| pj_id := pj_id b; pj_name := pj_name b;
    pj_source := pj_source b; pj_fields := pj_fields b; pj_indexes := x |})
    (λ ix, {| ix_id := ix_id ix; ix_name := ix_name ix; ix_fields := ix_fields ix |}).
  simpl. rewrite (author_fields_id refs) by done. rewrite index_id. by destruct o.
Qed.

(** A sequence of declarations appends to the collection, each declared type
    being the one it was authored from. *)
Lemma calls_declare {A} (step : A → FrickSchema → FrickSchema) (g : FrickSchema → list A)
    (mk : FrickSchema → list A → FrickSchema) (l : list A) b :
  (∀ a b, a ∈ l → step a b = mk b (g b ++ [a])) → (∀ b x, g (mk b x) = x) →
  (∀ b x y, mk (mk b x) y = mk b y) → (∀ b, mk b (g b) = b) →
  calls step l b = mk b (g b ++ l).
Proof.
  intros H1 H2 H3 H4. unfold calls. revert b H1. induction l as [|a l IH]; intros b H1; simpl.
  - by rewrite app_nil_r, H4.
  - rewrite IH by (intros; apply H1; set_solver).
    by rewrite H1, H2, H3, <- app_assoc by set_solver.
Qed.

(** The schema with one collection replaced. *)
Definition with_objects (b : FrickSchema) (x : list ObjectDef) : FrickSchema :=
  {| s_name := s_name b; schema_id := schema_id b; schema_version := schema_version b;
  schema_revision := schema_revision b; minimum_client_revision := minimum_client_revision b;
  minimum_server_revision := minimum_server_revision b; protocol := protocol b;
  protocol_version := protocol_version b; compatibility := compatibility b; hash := hash b;
  objects := x; streams := streams b; events := events b; presences := presences b; signals :=
  signals b; blobs := blobs b; jobs := jobs b; projections := projections b |}.
Definition with_streams (b : FrickSchema) (x : list StreamDef) : FrickSchema :=
  {| s_name := s_name b; schema_id := schema_id b; schema_version := schema_version b;
  schema_revision := schema_revision b; minimum_client_revision := minimum_client_revision b;
  minimum_server_revision := minimum_server_revision b; protocol := protocol b;
  protocol_version := protocol_version b; compatibility := compatibility b; hash := hash b;
  objects := objects b; streams := x; events := events b; presences := presences b; signals :=
  signals b; blobs := blobs b; jobs := jobs b; projections := projections b |}.
Definition with_events (b : FrickSchema) (x : list EventDef) : FrickSchema :=
  {| s_name := s_name b; schema_id := schema_id b; schema_version := schema_version b;
  schema_revision := schema_revision b; minimum_client_revision := minimum_client_revision b;
  minimum_server_revision := minimum_server_revision b; protocol := protocol b;
  protocol_version := protocol_version b; compatibility := compatibility b; hash := hash b;
  objects := objects b; streams := streams b; events := x; presences := presences b; signals :=
  signals b; blobs := blobs b; jobs := jobs b; projections := projections b |}.
Definition with_presences (b : FrickSchema) (x : list PresenceDef) : FrickSchema :=
  {| s_name := s_name b; schema_id := schema_id b; schema_version := schema_version b;
  schema_revision := schema_revision b; minimum_client_revision := minimum_client_revision b;
  minimum_server_revision := minimum_server_revision b; protocol := protocol b;
  protocol_version := protocol_version b; compatibility := compatibility b; hash := hash b;
  objects := objects b; streams := streams b; events := events b; presences := x; signals :=
  signals b; blobs := blobs b; jobs := jobs b; projections := projections b |}.
Definition with_signals (b : FrickSchema) (x : list SignalDef) : FrickSchema :=
  {| s_name := s_name b; schema_id := schema_id b; schema_version := schema_version b;
  schema_revision := schema_revision b; minimum_client_revision := minimum_client_revision b;
  minimum_server_revision := minimum_server_revision b; protocol := protocol b;
  protocol_version := protocol_version b; compatibility := compatibility b; hash := hash b;
  objects := objects b; streams := streams b; events := events b; presences := presences b;
  signals := x; blobs := blobs b; jobs := jobs b; projections := projections b |}.
Definition with_blobs (b : FrickSchema) (x : list BlobDef) : FrickSchema :=
  {| s_name := s_name b; schema_id := schema_id b; schema_version := schema_version b;
  schema_revision := schema_revision b; minimum_client_revision := minimum_client_revision b;
  minimum_server_revision := minimum_server_revision b; protocol := protocol b;
  protocol_version := protocol_version b; compatibility := compatibility b; hash := hash b;
  objects := objects b; streams := streams b; events := events b; presences := presences b;
  signals := signals b; blobs := x; jobs := jobs b; projections := projections b |}.
Definition with_jobs (b : FrickSchema) (x : list JobDef) : FrickSchema :=
  {| s_name := s_name b; schema_id := schema_id b; schema_version := schema_version b;
  schema_revision := schema_revision b; minimum_client_revision := minimum_client_revision b;
  minimum_server_revision := minimum_server_revision b; protocol := protocol b;
  protocol_version := protocol_version b; compatibility := compatibility b; hash := hash b;
  objects := objects b; streams := streams b; events := events b; presences := presences b;
  signals := signals b; blobs := blobs b; jobs := x; projections := projections b |}.
Definition with_projections (b : FrickSchema) (x : list ProjectionDef) : FrickSchema :=
  {| s_name := s_name b; schema_id := schema_id b; schema_version := schema_version b;
  schema_revision := schema_revision b; minimum_client_revision := minimum_client_revision b;
  minimum_server_revision := minimum_server_revision b; protocol := protocol b;
  protocol_version := protocol_version b; compatibility := compatibility b; hash := hash b;
  objects := objects b; streams := streams b; events := events b; presences := presences b;
  signals := signals b; blobs := blobs b; jobs := jobs b; projections := x |}.

Ltac declare_calls g mk :=
  rewrite (calls_declare _ g mk);
  [| | intros; reflexivity | intros; reflexivity | intros []; reflexivity].

(** the DSL is complete and exact: for every schema the validator accepts,
    authoring it by builder calls (a constructor per field, a push per field,
    index and event name, a declaration per type) and building yields that very
    schema, in the same order and with nothing defaulted differently; and
    [build] returns precisely the accumulated schema, precisely when it is
    valid. *)
Theorem builder_complete s :
  schema_valid s →
  build (author_schema s) = Ok s
  ∧ (∀ b s', build b = Ok s' ↔ s' = build_unchecked b ∧ schema_valid s').
Proof.
  intros Hv. split; [|intros; apply build_spec].
  apply build_spec. split; [|done].
  destruct Hv as [[Hp Hc _ _ _ _ _] [_ Ho] [_ Hs] [_ He] [_ Hpr] [_ Hg] [_ Hb] [_ Hj] [_ Hpj]].
  rewrite Forall_forall in Ho. rewrite Forall_forall in Hs. rewrite Forall_forall in He.
  rewrite Forall_forall in Hpr. rewrite Forall_forall in Hg. rewrite Forall_forall in Hb.
  rewrite Forall_forall in Hj. rewrite Forall_forall in Hpj.
  unfold build_unchecked, author_schema.
  declare_calls projections with_projections.
  2: { intros o b [_ [Hf _]]%Hpj. unfold SB.projection. by rewrite (author_projection_id _ o Hf). }
  declare_calls jobs with_jobs.
  2: { intros o b Hf%Hj. unfold SB.job. by rewrite (author_job_id _ o Hf). }
  declare_calls blobs with_blobs.
  2: { intros o b Hf%Hb. unfold SB.blob. by rewrite (author_blob_id _ o Hf). }
  declare_calls signals with_signals.
  2: { intros o b [Hk Hf]%Hg. unfold SB.signal. by rewrite (author_signal_id _ o Hk Hf). }
  declare_calls presences with_presences.
  2: { intros o b [Hk Hf]%Hpr. unfold SB.presence. by rewrite (author_presence_id _ o Hk Hf). }
  declare_calls events with_events.
  2: { intros o b Hf%He. unfold SB.event. by rewrite (author_event_id _ o Hf). }
  declare_calls streams with_streams.
  2: { intros o b [Hf _]%Hs. unfold SB.stream. by rewrite (author_stream_id _ o Hf). }
  declare_calls objects with_objects.
  2: { intros o b [Hf _]%Ho. unfold SB.object. by rewrite (author_object_id _ o Hf). }
  destruct s; simpl in *. by subst.
Qed.

Lemma builder_complete_witness :
  build (author_schema SampleSchema.schema) = Ok SampleSchema.schema.
Proof.
  exact (proj1 (builder_complete SampleSchema.schema
                 (proj1 (validate_schema_Ok _) SampleSchema.schema_validates))).
Defined.
