(* ===== verification/Lint.v ===== *)
(** * The breaking-change linter ([crates/frick-schema/src/lint.rs])

    [lint_schema] (one snapshot) and [lint_schema_change] (current against
    previous). The [findings] vector is only ever pushed to, so each helper
    returns the findings it pushes and its caller concatenates them in call
    order. *)

From Stdlib Require Import ZArith Lia Ascii String.
From stdpp Require Import base gmap strings list.
From S2P Require Import Prelude Value Schema Codec.

Inductive FrickLintSeverity : Type := Info | Warn | Breaking.
#[export] Instance FrickLintSeverity_eq_dec : EqDecision FrickLintSeverity.
Proof. solve_decision. Defined.
#[export, refine] Instance FrickLintSeverity_enum : StringEnum FrickLintSeverity := {|
  enum_name := "FrickLintSeverity";
  enum_ALL := [Info; Warn; Breaking];
  enum_as_str k := match k with Info => "info" | Warn => "warn" | Breaking => "breaking" end;
|}.
Proof. all: solve_enum. Defined.

Record FrickLintFinding : Type := finding {
  severity : FrickLintSeverity; path : string; fmessage : string; rule_id : string;
}.

Record FrickLintResult : Type := { findings : list FrickLintFinding; breaking_count : nat }.

(** Anything with a numeric id and a name. *)
Class TypeCarrier (T : Type) := { tc_id : T → Z; tc_name : T → string }.
#[export] Instance ObjectDef_carrier : TypeCarrier ObjectDef := {| tc_id := od_id; tc_name := od_name |}.
#[export] Instance StreamDef_carrier : TypeCarrier StreamDef := {| tc_id := sd_id; tc_name := sd_name |}.
#[export] Instance EventDef_carrier : TypeCarrier EventDef := {| tc_id := ed_id; tc_name := ed_name |}.
#[export] Instance PresenceDef_carrier : TypeCarrier PresenceDef := {| tc_id := pd_id; tc_name := pd_name |}.
#[export] Instance SignalDef_carrier : TypeCarrier SignalDef := {| tc_id := sg_id; tc_name := sg_name |}.
#[export] Instance BlobDef_carrier : TypeCarrier BlobDef := {| tc_id := bd_id; tc_name := bd_name |}.
#[export] Instance JobDef_carrier : TypeCarrier JobDef := {| tc_id := jd_id; tc_name := jd_name |}.
#[export] Instance ProjectionDef_carrier : TypeCarrier ProjectionDef := {| tc_id := pj_id; tc_name := pj_name |}.

Definition is_breaking (f : FrickLintFinding) : bool := bool_decide (severity f = Breaking).

Definition make_result (fs : list FrickLintFinding) : FrickLintResult :=
  {| findings := fs; breaking_count := length (List.filter is_breaking fs) |}.

(** [format!("{base}[{name}]")]. *)
Definition bracket (base name : string) : string := base +:+ "[" +:+ name +:+ "]".

(** ** One snapshot *)

(** Lower-cased occurrence counts in first-insertion order. *)
Fixpoint count_key (key : string) (counts : list (string * Z)) : list (string * Z) :=
  match counts with
  | [] => [(key, 1)]
  | (k, n) :: counts' =>
      if String.eqb k key then (k, n + 1) :: counts' else (k, n) :: count_key key counts'
  end.
Definition lowercase_counts (names : list string) : list (string * Z) :=
  foldl (λ counts name, count_key (Str.to_lowercase name) counts) [] names.

Definition check_duplicates {T} `{TypeCarrier T} (types : list T) (collection label : string) :
    list FrickLintFinding :=
  flat_map (λ '(key, count),
    if 1 <? count
    then [finding Breaking (bracket collection key)
            ("duplicate " +:+ label +:+ " name " +:+ key +:+ " (" +:+ fmt count
             +:+ " occurrences)") (label +:+ ".duplicate.name")]
    else []) (lowercase_counts (tc_name <$> types)).

Definition check_field_duplicates (owner_path : string) (fields : list FieldDef) :
    list FrickLintFinding :=
  flat_map (λ '(key, count),
    if 1 <? count
    then [finding Breaking (bracket (owner_path +:+ ".fields") key)
            ("duplicate field name " +:+ key +:+ " (" +:+ fmt count +:+ " occurrences)")
            "field.duplicate.name"]
    else []) (lowercase_counts (fd_name <$> fields)).

Definition is_non_empty_string (value : string) : bool := negb (Str.is_empty (Str.trim value)).
Definition is_positive_integer (value : Z) : bool := 0 <? value.

Definition lint_schema (s : FrickSchema) : FrickLintResult :=
  make_result (
    (if is_non_empty_string (schema_id s) then []
     else [finding Breaking "schemaId" "schemaId must be a non-empty string"
             "schema.identity.missing"])
    ++ (if is_positive_integer (schema_revision s) then []
        else [finding Breaking "schemaRevision" "schemaRevision must be a positive integer"
                "schema.revision.invalid"])
    ++ check_duplicates (objects s) "objects" "object"
    ++ check_duplicates (streams s) "streams" "stream"
    ++ check_duplicates (events s) "events" "event"
    ++ check_duplicates (presences s) "presences" "presence"
    ++ check_duplicates (signals s) "signals" "signal"
    ++ check_duplicates (blobs s) "blobs" "blob"
    ++ check_duplicates (jobs s) "jobs" "job"
    ++ check_duplicates (projections s) "projections" "projection"
    ++ flat_map (λ obj, check_field_duplicates (bracket "objects" (od_name obj)) (od_fields obj))
         (objects s)
    ++ flat_map (λ ev, check_field_duplicates (bracket "events" (ed_name ev)) (ed_fields ev))
         (events s)).

(** ** Two snapshots *)

(** [iter.map(|t| (id(t), t)).collect::<HashMap<_, _>>()]: the last entry of an
    id wins. *)
Definition last_by_id {T} (get_id : T → Z) (l : list T) : gmap Z T :=
  list_to_map (reverse ((λ t, (get_id t, t)) <$> l)).
Definition contains_key {T} (m : gmap Z T) (k : Z) : bool := bool_decide (is_Some (m !! k)).

Definition diff_type_set {T} `{TypeCarrier T} (prev curr : list T) (collection label : string) :
    list FrickLintFinding :=
  let curr_ids := last_by_id tc_id curr in
  let prev_ids := last_by_id tc_id prev in
  flat_map (λ p,
    if contains_key curr_ids (tc_id p) then []
    else [finding Breaking (bracket collection (tc_name p))
            (label +:+ " " +:+ tc_name p +:+ " (id=" +:+ fmt (tc_id p) +:+ ") was removed")
            (label +:+ ".removed")]) prev
  ++ flat_map (λ c,
    if contains_key prev_ids (tc_id c) then []
    else [finding Info (bracket collection (tc_name c))
            (label +:+ " " +:+ tc_name c +:+ " (id=" +:+ fmt (tc_id c) +:+ ") was added")
            (label +:+ ".added")]) curr
  ++ flat_map (λ c,
    match prev_ids !! tc_id c with
    | Some p =>
        if String.eqb (tc_name p) (tc_name c) then []
        else [finding Breaking (bracket collection (tc_name c))
                (label +:+ " id " +:+ fmt (tc_id c) +:+ " renamed from " +:+ tc_name p
                 +:+ " to " +:+ tc_name c) (label +:+ ".renamed")]
    | None => []
    end) curr.

Definition pair_by_id {T} `{TypeCarrier T} (prev : list T) (c : T) : option T :=
  snd <$> list_find (λ x, tc_id x = tc_id c) prev.

Definition opt_values (f : FieldDef) : list string := default [] (fd_enum_values f).

(** The loop over [curr_values] from index [i] with cursor [prev_tail]. *)
Fixpoint diff_added_values (path : string) (prev_set : gset string) (prev_tail i : Z)
    (values : list string) : list FrickLintFinding :=
  match values with
  | [] => []
  | v :: values' =>
      if bool_decide (v ∈ prev_set) then diff_added_values path prev_set prev_tail (i + 1) values'
      else
        (if prev_tail <=? i
         then finding Warn path ("enum value " +:+ v +:+ " added at the end")
                "enum.value.added.trailing"
         else finding Breaking path ("enum value " +:+ v +:+ " inserted before existing values")
                "enum.value.inserted")
        :: diff_added_values path prev_set (Z.max prev_tail (i + 1)) (i + 1) values'
  end.

Definition diff_enum_values (path : string) (prev curr : FieldDef) : list FrickLintFinding :=
  if negb (bool_decide (fd_kind prev = FK_Enum)) || negb (bool_decide (fd_kind curr = FK_Enum))
  then []
  else
    let curr_set := list_to_set (C := gset string) (opt_values curr) in
    let prev_set := list_to_set (C := gset string) (opt_values prev) in
    flat_map (λ v,
      if bool_decide (v ∈ curr_set) then []
      else [finding Breaking path ("enum value " +:+ v +:+ " removed") "enum.value.removed"])
      (opt_values prev)
    ++ diff_added_values path prev_set (Z.of_nat (length (opt_values prev))) 0 (opt_values curr).

Definition fmt_bool (b : bool) : string := if b then "true" else "false".

(** The body of the per-id loop of [diff_fields]. *)
Definition diff_field (owner_path : string) (p c : FieldDef) : list FrickLintFinding :=
  let path := bracket (owner_path +:+ ".fields") (fd_name c) in
  (if String.eqb (fd_name p) (fd_name c) then []
   else [finding Breaking path ("field id " +:+ fmt (fd_id c) +:+ " renamed from " +:+ fd_name p
           +:+ " to " +:+ fd_name c) "field.renamed"])
  ++ (if bool_decide (fd_kind p = fd_kind c) then []
      else [finding Breaking path ("field " +:+ fd_name c +:+ " kind changed from "
              +:+ enum_as_str (fd_kind p) +:+ " to " +:+ enum_as_str (fd_kind c))
              "field.kind.changed"])
  ++ (if Bool.eqb (fd_required p) (fd_required c) then []
      else [finding Breaking path ("field " +:+ fd_name c +:+ " required flag changed from "
              +:+ fmt_bool (fd_required p) +:+ " to " +:+ fmt_bool (fd_required c))
              (if fd_required c then "field.required.toggled" else "field.optional.toggled")])
  ++ (if String.eqb (default "" (fd_ref p)) (default "" (fd_ref c)) then []
      else [finding Breaking path ("field " +:+ fd_name c +:+ " ref target changed from "
              +:+ default "<none>" (fd_ref p) +:+ " to " +:+ default "<none>" (fd_ref c))
              "field.ref.changed"])
  ++ diff_enum_values path p c.

Definition diff_fields (owner_path : string) (prev curr : list FieldDef) : list FrickLintFinding :=
  let prev_by_id := last_by_id fd_id prev in
  let curr_by_id := last_by_id fd_id curr in
  flat_map (λ p,
    if contains_key curr_by_id (fd_id p) then []
    else [finding Breaking (bracket (owner_path +:+ ".fields") (fd_name p))
            ("field " +:+ fd_name p +:+ " (id=" +:+ fmt (fd_id p) +:+ ") was removed")
            "field.removed"]) prev
  ++ flat_map (λ c,
    if contains_key prev_by_id (fd_id c) then []
    else if fd_required c
    then [finding Breaking (bracket (owner_path +:+ ".fields") (fd_name c))
            ("required field " +:+ fd_name c +:+ " was added") "field.required.added"]
    else [finding Info (bracket (owner_path +:+ ".fields") (fd_name c))
            ("optional field " +:+ fd_name c +:+ " was added") "field.optional.added"]) curr
  ++ flat_map (λ c,
    match prev_by_id !! fd_id c with
    | Some p => diff_field owner_path p c
    | None => []
    end) curr.

Definition diff_indexes (owner_path : string) (prev curr : list IndexDef) : list FrickLintFinding :=
  let curr_ids := list_to_set (C := gset Z) (ix_id <$> curr) in
  flat_map (λ p,
    if bool_decide (ix_id p ∈ curr_ids) then []
    else [finding Breaking (bracket (owner_path +:+ ".indexes") (ix_name p))
            ("index " +:+ ix_name p +:+ " (id=" +:+ fmt (ix_id p) +:+ ") was removed")
            "index.removed"]) prev.

(** [for c in curr { let Some(p) = pair_by_id(prev, c) else { continue }; .. }]. *)
Definition for_pairs {T} `{TypeCarrier T} (body : T → T → list FrickLintFinding)
    (prev curr : list T) : list FrickLintFinding :=
  flat_map (λ c, match pair_by_id prev c with Some p => body p c | None => [] end) curr.

Definition diff_objects := for_pairs (λ p c : ObjectDef,
  diff_fields (bracket "objects" (od_name c)) (od_fields p) (od_fields c)
  ++ diff_indexes (bracket "objects" (od_name c)) (od_indexes p) (od_indexes c)).

Definition diff_events := for_pairs (λ p c : EventDef,
  diff_fields (bracket "events" (ed_name c)) (ed_fields p) (ed_fields c)).

(** [new Set(..)] order: the first occurrence is kept. *)
Definition dedup_preserving_order (values : list string) : list string :=
  foldl (λ out v, if contains out v then out else out ++ [v]) [] values.

Definition diff_streams := for_pairs (λ p c : StreamDef,
  diff_fields (bracket "streams" (sd_name c) +:+ ".key") (sd_key_fields p) (sd_key_fields c)
  ++ (let prev_events := dedup_preserving_order (sd_events p) in
      let curr_events := dedup_preserving_order (sd_events c) in
      flat_map (λ e,
        if contains curr_events e then []
        else [finding Breaking (bracket (bracket "streams" (sd_name c) +:+ ".events") e)
                ("stream " +:+ sd_name c +:+ " no longer emits event " +:+ e)
                "stream.event.removed"]) prev_events
      ++ flat_map (λ e,
        if contains prev_events e then []
        else [finding Info (bracket (bracket "streams" (sd_name c) +:+ ".events") e)
                ("stream " +:+ sd_name c +:+ " added event " +:+ e)
                "stream.event.added"]) curr_events)).

Definition diff_presences := for_pairs (λ p c : PresenceDef,
  diff_fields (bracket "presences" (pd_name c) +:+ ".key") (pd_key_fields p) (pd_key_fields c)
  ++ diff_fields (bracket "presences" (pd_name c)) (pd_fields p) (pd_fields c)).

Definition diff_signals := for_pairs (λ p c : SignalDef,
  diff_fields (bracket "signals" (sg_name c) +:+ ".key") (sg_key_fields p) (sg_key_fields c)
  ++ diff_fields (bracket "signals" (sg_name c)) (sg_fields p) (sg_fields c)).

Definition diff_blobs := for_pairs (λ p c : BlobDef,
  diff_fields (bracket "blobs" (bd_name c) +:+ ".metadata") (bd_metadata_fields p)
    (bd_metadata_fields c)).

Definition diff_jobs := for_pairs (λ p c : JobDef,
  diff_fields (bracket "jobs" (jd_name c)) (jd_fields p) (jd_fields c)).

Definition diff_projections := for_pairs (λ p c : ProjectionDef,
  (if String.eqb (pj_source p) (pj_source c) then []
   else [finding Breaking (bracket "projections" (pj_name c) +:+ ".source")
           ("projection source changed from " +:+ pj_source p +:+ " to " +:+ pj_source c)
           "projection.source.changed"])
  ++ diff_fields (bracket "projections" (pj_name c)) (pj_fields p) (pj_fields c)
  ++ diff_indexes (bracket "projections" (pj_name c)) (pj_indexes p) (pj_indexes c)).

Definition lint_identity (current previous : FrickSchema) : list FrickLintFinding :=
  (if String.eqb (schema_id previous) (schema_id current) then []
   else [finding Breaking "schemaId" ("schemaId changed from " +:+ schema_id previous +:+ " to "
           +:+ schema_id current) "schema.id.changed"])
  ++ (if schema_revision current <? schema_revision previous
      then [finding Breaking "schemaRevision" ("schemaRevision decreased from "
              +:+ fmt (schema_revision previous) +:+ " to " +:+ fmt (schema_revision current))
              "schema.revision.decreased"]
      else [])
  ++ (if minimum_client_revision previous <? minimum_client_revision current
      then [finding Warn "minimumClientRevision" ("minimumClientRevision raised from "
              +:+ fmt (minimum_client_revision previous) +:+ " to "
              +:+ fmt (minimum_client_revision current))
              "schema.minimumClientRevision.raised"]
      else []).

(** Argument order as in the source: current first, previous second. *)
Definition lint_schema_change (current previous : FrickSchema) : FrickLintResult :=
  make_result (
    lint_identity current previous
    ++ diff_type_set (objects previous) (objects current) "objects" "object"
    ++ diff_type_set (streams previous) (streams current) "streams" "stream"
    ++ diff_type_set (events previous) (events current) "events" "event"
    ++ diff_type_set (presences previous) (presences current) "presences" "presence"
    ++ diff_type_set (signals previous) (signals current) "signals" "signal"
    ++ diff_type_set (blobs previous) (blobs current) "blobs" "blob"
    ++ diff_type_set (jobs previous) (jobs current) "jobs" "job"
    ++ diff_type_set (projections previous) (projections current) "projections" "projection"
    ++ diff_objects (objects previous) (objects current)
    ++ diff_events (events previous) (events current)
    ++ diff_streams (streams previous) (streams current)
    ++ diff_presences (presences previous) (presences current)
    ++ diff_signals (signals previous) (signals current)
    ++ diff_blobs (blobs previous) (blobs current)
    ++ diff_jobs (jobs previous) (jobs current)
    ++ diff_projections (projections previous) (projections current)).

(** ** What a compatible change is *)

Definition enum_compatible (pv cv : list string) : Prop :=
  (∀ v, v ∈ pv → v ∈ cv)
  ∧ (∀ i v, cv !! i = Some v → v ∉ pv → (length pv ≤ i)%nat).

Record field_compatible (p c : FieldDef) : Prop := {
  fc_name : fd_name p = fd_name c;
  fc_kind : fd_kind p = fd_kind c;
  fc_required : fd_required p = fd_required c;
  fc_ref : default "" (fd_ref p) = default "" (fd_ref c);
  fc_enum : fd_kind p = FK_Enum → fd_kind c = FK_Enum →
            enum_compatible (opt_values p) (opt_values c);
}.

Record fields_compatible (prev curr : list FieldDef) : Prop := {
  fsc_kept : ∀ p, p ∈ prev → ∃ c, c ∈ curr ∧ fd_id c = fd_id p;
  fsc_added : ∀ c, c ∈ curr → (∀ p, p ∈ prev → fd_id p ≠ fd_id c) → fd_required c = false;
  fsc_same : ∀ p c, p ∈ prev → c ∈ curr → fd_id p = fd_id c → field_compatible p c;
}.

Definition indexes_compatible (prev curr : list IndexDef) : Prop :=
  ∀ p, p ∈ prev → ∃ c, c ∈ curr ∧ ix_id c = ix_id p.

Record types_compatible {T} `{TypeCarrier T} (body : T → T → Prop) (prev curr : list T) : Prop := {
  tsc_kept : ∀ p, p ∈ prev → ∃ c, c ∈ curr ∧ tc_id c = tc_id p;
  tsc_same : ∀ p c, p ∈ prev → c ∈ curr → tc_id p = tc_id c →
             tc_name p = tc_name c ∧ body p c;
}.

Definition object_compatible (p c : ObjectDef) : Prop :=
  fields_compatible (od_fields p) (od_fields c) ∧ indexes_compatible (od_indexes p) (od_indexes c).
Definition event_compatible (p c : EventDef) : Prop :=
  fields_compatible (ed_fields p) (ed_fields c).
Definition stream_compatible (p c : StreamDef) : Prop :=
  fields_compatible (sd_key_fields p) (sd_key_fields c)
  ∧ (∀ e, e ∈ sd_events p → e ∈ sd_events c).
Definition presence_compatible (p c : PresenceDef) : Prop :=
  fields_compatible (pd_key_fields p) (pd_key_fields c)
  ∧ fields_compatible (pd_fields p) (pd_fields c).
Definition signal_compatible (p c : SignalDef) : Prop :=
  fields_compatible (sg_key_fields p) (sg_key_fields c)
  ∧ fields_compatible (sg_fields p) (sg_fields c).
Definition blob_compatible (p c : BlobDef) : Prop :=
  fields_compatible (bd_metadata_fields p) (bd_metadata_fields c).
Definition job_compatible (p c : JobDef) : Prop :=
  fields_compatible (jd_fields p) (jd_fields c).
Definition projection_compatible (p c : ProjectionDef) : Prop :=
  pj_source p = pj_source c ∧ fields_compatible (pj_fields p) (pj_fields c)
  ∧ indexes_compatible (pj_indexes p) (pj_indexes c).

Record schema_compatible (previous current : FrickSchema) : Prop := {
  scp_id : schema_id previous = schema_id current;
  scp_revision : schema_revision previous ≤ schema_revision current;
  scp_objects : types_compatible object_compatible (objects previous) (objects current);
  scp_streams : types_compatible stream_compatible (streams previous) (streams current);
  scp_events : types_compatible event_compatible (events previous) (events current);
  scp_presences : types_compatible presence_compatible (presences previous) (presences current);
  scp_signals : types_compatible signal_compatible (signals previous) (signals current);
  scp_blobs : types_compatible blob_compatible (blobs previous) (blobs current);
  scp_jobs : types_compatible job_compatible (jobs previous) (jobs current);
  scp_projections :
    types_compatible projection_compatible (projections previous) (projections current);
}.

(** ** Lemmas *)

(** No finding of the list is breaking. *)
Definition quiet (fs : list FrickLintFinding) : Prop := Forall (λ f, severity f ≠ Breaking) fs.

Lemma breaking_count_zero fs : breaking_count (make_result fs) = 0%nat ↔ quiet fs.
Proof.
  unfold quiet. simpl. rewrite length_zero_iff_nil. unfold is_breaking.
  induction fs as [|f fs IH]; simpl; [by split|].
  rewrite Forall_cons, <- IH. case_bool_decide; naive_solver.
Qed.

Lemma quiet_app fs gs : quiet (fs ++ gs) ↔ quiet fs ∧ quiet gs.
Proof. apply Forall_app. Qed.

Lemma quiet_flat_map {A} (f : A → list FrickLintFinding) l :
  quiet (flat_map f l) ↔ ∀ x, x ∈ l → quiet (f x).
Proof.
  induction l as [|x l IH]; simpl; [split; [intros _ x Hx; by inversion Hx|by constructor]|].
  rewrite quiet_app, IH. setoid_rewrite elem_of_cons. naive_solver.
Qed.

Lemma quiet_if (b : bool) f : quiet (if b then [] else [f]) ↔ b = true ∨ severity f ≠ Breaking.
Proof.
  unfold quiet. destruct b; [split; [by left|by constructor]|].
  rewrite Forall_singleton. naive_solver.
Qed.

Lemma quiet_if_breaking (b : bool) p m r :
  quiet (if b then [] else [finding Breaking p m r]) ↔ b = true.
Proof. rewrite quiet_if. naive_solver. Qed.

Lemma quiet_one f : quiet [f] ↔ severity f ≠ Breaking.
Proof. unfold quiet. by rewrite Forall_singleton. Qed.

Lemma quiet_nil : quiet [].
Proof. constructor. Qed.

Lemma last_by_id_Some {T} (get_id : T → Z) l k t :
  NoDup (get_id <$> l) → last_by_id get_id l !! k = Some t ↔ t ∈ l ∧ get_id t = k.
Proof.
  intros Hnd. unfold last_by_id.
  rewrite <- elem_of_list_to_map.
  - rewrite elem_of_reverse, list_elem_of_fmap. naive_solver.
  - rewrite fmap_reverse, <- list_fmap_compose. by rewrite reverse_Permutation.
Qed.

Lemma contains_key_true {T} (get_id : T → Z) l k :
  contains_key (last_by_id get_id l) k = true ↔ ∃ t, t ∈ l ∧ get_id t = k.
Proof.
  unfold contains_key, last_by_id. rewrite bool_decide_eq_true.
  rewrite <- not_eq_None_Some, <- not_elem_of_list_to_map.
  rewrite fmap_reverse, elem_of_reverse, <- list_fmap_compose.
  destruct (decide (k ∈ get_id <$> l)) as [Hin|Hin].
  - apply list_elem_of_fmap in Hin. split; [naive_solver|]. intros _ H. apply H.
    apply list_elem_of_fmap. naive_solver.
  - split; [naive_solver|]. intros (t & Ht & <-). destruct Hin. by apply list_elem_of_fmap_2.
Qed.

Lemma contains_key_false {T} (get_id : T → Z) l k :
  contains_key (last_by_id get_id l) k = false ↔ ∀ t, t ∈ l → get_id t ≠ k.
Proof.
  rewrite <- not_true_iff_false, contains_key_true. naive_solver.
Qed.

Lemma pair_by_id_Some {T} `{TypeCarrier T} (prev : list T) c p :
  NoDup (tc_id <$> prev) → pair_by_id prev c = Some p ↔ p ∈ prev ∧ tc_id p = tc_id c.
Proof.
  intros Hnd. unfold pair_by_id. rewrite fmap_Some. split.
  - intros ([i x] & Hf & ->). apply list_find_Some in Hf as (Hl & Hk & _).
    split; [by eapply list_elem_of_lookup_2|done].
  - intros [Hin Hk]. destruct (NoDup_list_find tc_id prev p Hnd Hin) as [i Hi].
    exists (i, p). rewrite Hk in Hi. done.
Qed.

(** The cursor never matters: an addition is trailing exactly when its index
    is past the previous list. *)
Lemma diff_added_values_quiet path ps tail n i vs :
  n ≤ tail → tail ≤ Z.max n i → 0 ≤ i →
  quiet (diff_added_values path ps tail i vs)
  ↔ ∀ j v, vs !! j = Some v → v ∉ ps → n ≤ i + Z.of_nat j.
Proof.
  revert tail i. induction vs as [|v vs IH]; intros tail i H1 H2 H3; simpl.
  - split; [intros _ j v Hj; by destruct j|intros _; apply quiet_nil].
  - case_bool_decide as Hv.
    + rewrite IH by lia. split; intros H j w Hj Hw.
      * destruct j as [|j]; [naive_solver|]. specialize (H j w Hj Hw). lia.
      * specialize (H (S j) w Hj Hw). lia.
    + unfold quiet. rewrite Forall_cons. fold (quiet (diff_added_values path ps
        (tail `max` (i + 1)) (i + 1) vs)). rewrite IH by lia.
      split.
      * intros [Hh H] j w Hj Hw. destruct j as [|j].
        -- destruct (Z.leb_spec tail i); [lia|]. done.
        -- specialize (H j w Hj Hw). lia.
      * intros H. split.
        -- specialize (H O v eq_refl Hv). destruct (Z.leb_spec tail i); [done|lia].
        -- intros j w Hj Hw. specialize (H (S j) w Hj Hw). lia.
Qed.

Lemma diff_enum_values_quiet path p c :
  quiet (diff_enum_values path p c)
  ↔ (fd_kind p = FK_Enum → fd_kind c = FK_Enum → enum_compatible (opt_values p) (opt_values c)).
Proof.
  unfold diff_enum_values.
  destruct (bool_decide (fd_kind p = FK_Enum)) eqn:Ep; simpl.
  2: { apply bool_decide_eq_false in Ep. split; [done|]. intros _. apply quiet_nil. }
  destruct (bool_decide (fd_kind c = FK_Enum)) eqn:Ec; simpl.
  2: { apply bool_decide_eq_false in Ec. split; [done|]. intros _. apply quiet_nil. }
  apply bool_decide_eq_true in Ep, Ec.
  rewrite quiet_app, quiet_flat_map.
  rewrite (diff_added_values_quiet _ _ _ (Z.of_nat (length (opt_values p)))) by lia.
  setoid_rewrite quiet_if_breaking. setoid_rewrite bool_decide_eq_true.
  setoid_rewrite elem_of_list_to_set. unfold enum_compatible.
  split; [intros [H1 H2] _ _; split; [done|]; intros i v Hi Hv; specialize (H2 i v Hi Hv); lia|].
  intros H. destruct (H Ep Ec) as [H1 H2]. split; [done|].
  intros i v Hi Hv. specialize (H2 i v Hi Hv). lia.
Qed.

Lemma diff_field_quiet owner p c : quiet (diff_field owner p c) ↔ field_compatible p c.
Proof.
  unfold diff_field. rewrite !quiet_app, !quiet_if_breaking, diff_enum_values_quiet.
  rewrite !String.eqb_eq, bool_decide_eq_true, Bool.eqb_true_iff.
  split; [intros (?&?&?&?&?); by constructor|by intros []].
Qed.

Lemma diff_fields_quiet owner prev curr :
  NoDup (fd_id <$> prev) →
  quiet (diff_fields owner prev curr) ↔ fields_compatible prev curr.
Proof.
  intros Hnd. unfold diff_fields. rewrite !quiet_app, !quiet_flat_map.
  setoid_rewrite quiet_if_breaking. setoid_rewrite contains_key_true.
  split.
  - intros (H1 & H2 & H3). split; [done| |].
    + intros c Hc Hno. specialize (H2 c Hc). rewrite (proj2 (contains_key_false _ _ _) Hno) in H2.
      destruct (fd_required c); [|done]. by apply quiet_one in H2.
    + intros p c Hp Hc Hid. specialize (H3 c Hc).
      rewrite (proj2 (last_by_id_Some fd_id prev (fd_id c) p Hnd)) in H3 by done.
      by apply diff_field_quiet in H3.
  - intros [H1 H2 H3]. split_and!; [done| |].
    + intros c Hc. destruct (contains_key _ _) eqn:E; [apply quiet_nil|].
      rewrite contains_key_false in E. rewrite (H2 c Hc E). by apply quiet_one.
    + intros c Hc. destruct (_ !! _) as [p|] eqn:E; [|apply quiet_nil].
      apply last_by_id_Some in E as [Hp Hid]; [|done]. apply diff_field_quiet. by apply H3.
Qed.

Lemma diff_indexes_quiet owner prev curr :
  quiet (diff_indexes owner prev curr) ↔ indexes_compatible prev curr.
Proof.
  unfold diff_indexes, indexes_compatible. rewrite quiet_flat_map.
  setoid_rewrite quiet_if_breaking. setoid_rewrite bool_decide_eq_true.
  setoid_rewrite elem_of_list_to_set. setoid_rewrite list_elem_of_fmap. naive_solver.
Qed.

(** A type-set diff together with the per-pair diff of the same collection. *)
Lemma types_quiet {T} `{TypeCarrier T} (body : T → T → list FrickLintFinding)
    (ok : T → T → Prop) prev curr collection label :
  NoDup (tc_id <$> prev) →
  (∀ p c, p ∈ prev → c ∈ curr → quiet (body p c) ↔ ok p c) →
  quiet (diff_type_set prev curr collection label) ∧ quiet (for_pairs body prev curr)
  ↔ types_compatible ok prev curr.
Proof.
  intros Hnd Hbody. unfold diff_type_set, for_pairs. rewrite !quiet_app, !quiet_flat_map.
  setoid_rewrite quiet_if_breaking. setoid_rewrite contains_key_true.
  split.
  - intros ((H1 & _ & H3) & H4). split; [done|]. intros p c Hp Hc Hid.
    specialize (H3 c Hc). specialize (H4 c Hc).
    rewrite (proj2 (last_by_id_Some tc_id prev (tc_id c) p Hnd)) in H3 by done.
    rewrite (proj2 (pair_by_id_Some prev c p Hnd)) in H4 by done.
    rewrite quiet_if_breaking, String.eqb_eq in H3. split; [done|]. by apply Hbody.
  - intros [H1 H2]. split_and!; [done| | |].
    + intros c Hc. apply quiet_if. by right.
    + intros c Hc. destruct (_ !! _) as [p|] eqn:E; [|apply quiet_nil].
      apply last_by_id_Some in E as [Hp Hid]; [|done].
      rewrite quiet_if_breaking, String.eqb_eq. by apply H2.
    + intros c Hc. destruct (pair_by_id prev c) as [p|] eqn:E; [|apply quiet_nil].
      apply pair_by_id_Some in E as [Hp Hid]; [|done]. apply Hbody; [done..|]. by apply H2.
Qed.

Lemma elem_of_dedup_preserving_order l v : v ∈ dedup_preserving_order l ↔ v ∈ l.
Proof.
  unfold dedup_preserving_order.
  assert (∀ acc, v ∈ foldl (λ out v, if contains out v then out else out ++ [v]) acc l
    ↔ v ∈ acc ∨ v ∈ l) as ->; [|set_solver].
  induction l as [|x l IH]; intros acc; simpl; [set_solver|].
  rewrite IH. unfold contains. case_bool_decide; set_solver.
Qed.


Lemma objects_quiet refs prev curr :
  types_ok od_id od_name prev → Forall (λ t, fields_ok refs (od_fields t) ∧ indexes_ok (od_fields t) (od_indexes t)) prev →
  quiet (diff_type_set prev curr "objects" "object") ∧ quiet (diff_objects prev curr)
  ↔ types_compatible object_compatible prev curr.
Proof.
  intros [Hid _] Hf. rewrite Forall_forall in Hf. apply types_quiet; [done|].
  intros p c Hp _. specialize (Hf p Hp). rewrite quiet_app, diff_indexes_quiet, diff_fields_quiet;
    [done|apply Hf].
Qed.

Lemma streams_quiet refs prev curr :
  types_ok sd_id sd_name prev → Forall (λ t, fields_ok refs (sd_key_fields t)) prev →
  quiet (diff_type_set prev curr "streams" "stream") ∧ quiet (diff_streams prev curr)
  ↔ types_compatible stream_compatible prev curr.
Proof.
  intros [Hid _] Hf. rewrite Forall_forall in Hf. apply types_quiet; [done|].
  intros p c Hp _. specialize (Hf p Hp). rewrite !quiet_app, diff_fields_quiet by apply Hf.
  rewrite !quiet_flat_map. setoid_rewrite quiet_if_breaking. setoid_rewrite quiet_if.
  unfold contains. setoid_rewrite bool_decide_eq_true.
  setoid_rewrite elem_of_dedup_preserving_order. unfold stream_compatible. naive_solver.
Qed.

Lemma events_quiet refs prev curr :
  types_ok ed_id ed_name prev → Forall (λ t, fields_ok refs (ed_fields t)) prev →
  quiet (diff_type_set prev curr "events" "event") ∧ quiet (diff_events prev curr)
  ↔ types_compatible event_compatible prev curr.
Proof.
  intros [Hid _] Hf. rewrite Forall_forall in Hf. apply types_quiet; [done|].
  intros p c Hp _. specialize (Hf p Hp). apply diff_fields_quiet, Hf.
Qed.

Lemma blobs_quiet refs prev curr :
  types_ok bd_id bd_name prev → Forall (λ t, fields_ok refs (bd_metadata_fields t)) prev →
  quiet (diff_type_set prev curr "blobs" "blob") ∧ quiet (diff_blobs prev curr)
  ↔ types_compatible blob_compatible prev curr.
Proof.
  intros [Hid _] Hf. rewrite Forall_forall in Hf. apply types_quiet; [done|].
  intros p c Hp _. specialize (Hf p Hp). apply diff_fields_quiet, Hf.
Qed.

Lemma jobs_quiet refs prev curr :
  types_ok jd_id jd_name prev → Forall (λ t, fields_ok refs (jd_fields t)) prev →
  quiet (diff_type_set prev curr "jobs" "job") ∧ quiet (diff_jobs prev curr)
  ↔ types_compatible job_compatible prev curr.
Proof.
  intros [Hid _] Hf. rewrite Forall_forall in Hf. apply types_quiet; [done|].
  intros p c Hp _. specialize (Hf p Hp). apply diff_fields_quiet, Hf.
Qed.

Lemma presences_quiet refs prev curr :
  types_ok pd_id pd_name prev → Forall (λ t, fields_ok refs (pd_key_fields t) ∧ fields_ok refs (pd_fields t)) prev →
  quiet (diff_type_set prev curr "presences" "presence") ∧ quiet (diff_presences prev curr)
  ↔ types_compatible presence_compatible prev curr.
Proof.
  intros [Hid _] Hf. rewrite Forall_forall in Hf. apply types_quiet; [done|].
  intros p c Hp _. specialize (Hf p Hp). by rewrite quiet_app, !diff_fields_quiet by apply Hf.
Qed.

Lemma signals_quiet refs prev curr :
  types_ok sg_id sg_name prev → Forall (λ t, fields_ok refs (sg_key_fields t) ∧ fields_ok refs (sg_fields t)) prev →
  quiet (diff_type_set prev curr "signals" "signal") ∧ quiet (diff_signals prev curr)
  ↔ types_compatible signal_compatible prev curr.
Proof.
  intros [Hid _] Hf. rewrite Forall_forall in Hf. apply types_quiet; [done|].
  intros p c Hp _. specialize (Hf p Hp). by rewrite quiet_app, !diff_fields_quiet by apply Hf.
Qed.

Lemma projections_quiet refs prev curr :
  types_ok pj_id pj_name prev → Forall (λ t, fields_ok refs (pj_fields t)) prev →
  quiet (diff_type_set prev curr "projections" "projection") ∧ quiet (diff_projections prev curr)
  ↔ types_compatible projection_compatible prev curr.
Proof.
  intros [Hid _] Hf. rewrite Forall_forall in Hf. apply types_quiet; [done|].
  intros p c Hp _. specialize (Hf p Hp). rewrite !quiet_app, quiet_if_breaking, String.eqb_eq.
  by rewrite diff_indexes_quiet, diff_fields_quiet by apply Hf.
Qed.

Lemma schema_change_quiet current previous :
  schema_valid previous →
  breaking_count (lint_schema_change current previous) = 0%nat
  ↔ schema_compatible previous current.
Proof.
  intros [_ [Ho Hof] [Hs Hsf] [He Hef] [Hp Hpf] [Hg Hgf] [Hb Hbf] [Hj Hjf] [Hpj Hpjf]].
  unfold lint_schema_change, lint_identity. rewrite breaking_count_zero, !quiet_app.
  rewrite quiet_if_breaking, String.eqb_eq.
  pose proof (objects_quiet _ _ (objects current) Ho Hof) as Qo.
  pose proof (streams_quiet (schema_refs previous) _ (streams current) Hs) as Qs.
  pose proof (events_quiet _ _ (events current) He Hef) as Qe.
  pose proof (presences_quiet _ _ (presences current) Hp Hpf) as Qp.
  pose proof (signals_quiet _ _ (signals current) Hg Hgf) as Qg.
  pose proof (blobs_quiet _ _ (blobs current) Hb Hbf) as Qb.
  pose proof (jobs_quiet _ _ (jobs current) Hj Hjf) as Qj.
  pose proof (projections_quiet (schema_refs previous) _ (projections current) Hpj) as Qpj.
  specialize (Qs ltac:(eapply Forall_impl; [exact Hsf|naive_solver])).
  specialize (Qpj ltac:(eapply Forall_impl; [exact Hpjf|naive_solver])).
  split.
  - intros ((? & Hr & _) & ? & ? & ? & ? & ? & ? & ? & ? & ? & ? & ? & ? & ? & ? & ? & ?).
    destruct (Z.ltb_spec (schema_revision current) (schema_revision previous)).
    { by apply quiet_one in Hr. }
    constructor; [done|lia|apply Qo|apply Qs|apply Qe|apply Qp|apply Qg|apply Qb|apply Qj|apply Qpj];
      done.
  - intros [? Hr ?%Qo ?%Qs ?%Qe ?%Qp ?%Qg ?%Qb ?%Qj ?%Qpj]. destruct_and!.
    split_and!; try done.
    + destruct (Z.ltb_spec (schema_revision current) (schema_revision previous)); [lia|].
      apply quiet_nil.
    + destruct (_ <? _); [by apply quiet_one|apply quiet_nil].
Qed.

(** ** A quiet change keeps the wire: old packed data reads the same *)

Section FieldEvolution.
Context (prev curr : list FieldDef).
Context (Hcurr : types_ok fd_id fd_name curr) (Hcompat : fields_compatible prev curr).

Lemma field_kept p : p ∈ prev → ∃ c, c ∈ curr ∧ fd_id c = fd_id p ∧ fd_name c = fd_name p.
Proof using Hcompat.
  intros Hp. destruct (fsc_kept _ _ Hcompat p Hp) as (c & Hc & Hid).
  destruct (fsc_same _ _ Hcompat p c Hp Hc (eq_sym Hid)). eauto.
Qed.

Lemma unpack_fields_into_kept packed entries out :
  unpack_fields_into prev packed entries = Ok out →
  unpack_fields_into curr packed entries = Ok out.
Proof using Hcurr Hcompat.
  unfold unpack_fields_into. revert entries.
  induction packed as [|[id v] packed IH]; intros entries; simpl; [done|].
  unfold unpack_step. simpl. destruct (field_by_id prev id) as [p|] eqn:Ep; simpl; [|done].
  apply field_by_id_Ok in Ep as [Hp <-]. destruct (field_kept p Hp) as (c & Hc & Hid & Hn).
  rewrite <- Hid, field_by_id_in by done. simpl. rewrite Hn. apply IH.
Qed.

Lemma unpack_fields_kept packed out :
  unpack_fields prev packed = Ok out → unpack_fields curr packed = Ok out.
Proof using Hcurr Hcompat.
  unfold unpack_fields. rewrite !bind_Ok.
  intros (es & Hes%unpack_fields_into_kept & Hout). eauto.
Qed.

Lemma pack_fields_kept value packed :
  pack_fields prev value = Ok packed → pack_fields curr value = Ok packed.
Proof using Hcurr Hcompat.
  destruct value; simpl; try done. rewrite !map_res_Ok. intros Hall.
  eapply Forall2_impl; [exact Hall|]. intros [k v] pf. unfold pack_entry. rewrite !bind_Ok. intros (name & Hk & Hr).
  exists name. split; [done|]. rewrite bind_Ok in Hr |- *. destruct Hr as (p & Hp & [= <-]).
  apply field_by_name_Ok in Hp as [Hin <-]. destruct (field_kept p Hin) as (c & Hc & Hid & Hn).
  exists c. simpl. rewrite Hid. split; [|done]. rewrite <- Hn. by apply field_by_name_in.
Qed.
End FieldEvolution.

(** A type found by id or name before is found after, under the same id and
    name and with a compatible body. *)
Lemma find_by_id_kept {T} `{TypeCarrier T} body (prev curr : list T) label id p :
  types_ok tc_id tc_name curr → types_compatible body prev curr →
  find_by_id prev label id tc_id = Ok p →
  ∃ c, find_by_id curr label id tc_id = Ok c ∧ c ∈ curr ∧ tc_name c = tc_name p
       ∧ tc_id c = tc_id p ∧ body p c.
Proof.
  intros Hok [Hk Hs] [Hp <-]%find_by_id_Ok. destruct (Hk p Hp) as (c & Hc & Hid).
  destruct (Hs p c Hp Hc (eq_sym Hid)). exists c. split_and!; try done.
  rewrite <- Hid. by eapply find_by_id_in.
Qed.

Lemma find_by_name_kept {T} `{TypeCarrier T} body (prev curr : list T) label name p :
  types_ok tc_id tc_name curr → types_compatible body prev curr →
  find_by_name prev label name tc_name = Ok p →
  ∃ c, find_by_name curr label name tc_name = Ok c ∧ c ∈ curr ∧ tc_name c = tc_name p
       ∧ tc_id c = tc_id p ∧ body p c.
Proof.
  intros Hok [Hk Hs] [Hp <-]%find_by_name_Ok. destruct (Hk p Hp) as (c & Hc & Hid).
  destruct (Hs p c Hp Hc (eq_sym Hid)) as [Hn ?]. exists c. split_and!; try done.
  rewrite Hn. by eapply find_by_name_in.
Qed.

Section Evolution.
Context (previous current : FrickSchema).
Context (Hcv : schema_valid current) (Hcompat : schema_compatible previous current).

Lemma object_record_kept :
  (∀ n i v p, pack_object_record previous n i v = Ok p → pack_object_record current n i v = Ok p)
  ∧ (∀ p r, unpack_object_record previous p = Ok r → unpack_object_record current p = Ok r).
Proof using Hcv Hcompat.
  destruct (sv_objects _ Hcv) as [Hok Hf]. rewrite Forall_forall in Hf. split.
  - intros n i v p. unfold pack_object_record. rewrite !bind_Ok. intros (o & Ho & Hr).
    destruct (@find_by_name_kept _ ObjectDef_carrier object_compatible _ _ _ _ _ Hok (scp_objects _ _ Hcompat) Ho)
      as (c & Hc & Hin & Hn & Hid & [Hb _]). exists c. split; [done|].
    rewrite bind_Ok in Hr |- *. destruct Hr as (fs & Hfs & <-). exists fs.
    simpl in Hid. rewrite Hid. split; [|done].
    eapply pack_fields_kept; [apply (Hf c Hin)|done|done].
  - intros [[tid rid] fs] r. unfold unpack_object_record. rewrite !bind_Ok.
    intros (o & Ho & Hr).
    destruct (@find_by_id_kept _ ObjectDef_carrier object_compatible _ _ _ _ _ Hok (scp_objects _ _ Hcompat) Ho)
      as (c & Hc & Hin & Hn & Hid & [Hb _]). exists c. split; [done|].
    rewrite bind_Ok in Hr |- *. destruct Hr as (es & Hes & <-). exists es.
    simpl in Hn. rewrite Hn. split; [|done].
    eapply unpack_fields_into_kept; [apply (Hf c Hin)|done|done].
Qed.

Lemma stream_event_kept :
  (∀ i p, pack_stream_event previous i = Ok p → pack_stream_event current i = Ok p)
  ∧ (∀ p i, unpack_stream_event previous p = Ok i → unpack_stream_event current p = Ok i).
Proof using Hcv Hcompat.
  destruct (sv_events _ Hcv) as [Hok Hf]. rewrite Forall_forall in Hf.
  destruct (sv_streams _ Hcv) as [Hsok _]. split.
  - intros i p. unfold pack_stream_event. rewrite !bind_Ok. intros (st & Hs & Hr).
    destruct (@find_by_name_kept _ StreamDef_carrier stream_compatible _ _ _ _ _ Hsok (scp_streams _ _ Hcompat) Hs)
      as (sc & Hsc & _ & _ & Hsid & _). exists sc. split; [done|].
    rewrite !bind_Ok in Hr |- *. destruct Hr as (e & He & Hr).
    destruct (@find_by_name_kept _ EventDef_carrier event_compatible _ _ _ _ _ Hok (scp_events _ _ Hcompat) He)
      as (c & Hc & Hin & Hn & Hid & Hb). exists c. split; [done|].
    rewrite !bind_Ok in Hr |- *. destruct Hr as (fs & Hfs & <-). exists fs.
    simpl in Hid, Hsid. rewrite Hid, Hsid. split; [|done].
    eapply pack_fields_kept; [apply (Hf c Hin)|done|done].
  - intros p i. unfold unpack_stream_event. rewrite !bind_Ok. intros (st & Hs & Hr).
    destruct (@find_by_id_kept _ StreamDef_carrier stream_compatible _ _ _ _ _ Hsok (scp_streams _ _ Hcompat) Hs)
      as (sc & Hsc & _ & Hsn & _ & _). exists sc. split; [done|].
    rewrite !bind_Ok in Hr |- *. destruct Hr as (e & He & Hr).
    destruct (@find_by_id_kept _ EventDef_carrier event_compatible _ _ _ _ _ Hok (scp_events _ _ Hcompat) He)
      as (c & Hc & Hin & Hn & Hid & Hb). exists c. split; [done|].
    rewrite !bind_Ok in Hr |- *. destruct Hr as (v & Hv & <-). exists v.
    simpl in Hn, Hsn. rewrite Hn, Hsn. split; [|done].
    eapply unpack_fields_kept; [apply (Hf c Hin)|done|done].
Qed.

Lemma presence_record_kept :
  (∀ n k v p, pack_presence_record previous n k v = Ok p →
              pack_presence_record current n k v = Ok p)
  ∧ (∀ p r, unpack_presence_record previous p = Ok r → unpack_presence_record current p = Ok r).
Proof using Hcv Hcompat.
  destruct (sv_presences _ Hcv) as [Hok Hf]. rewrite Forall_forall in Hf. split.
  - intros n i v p. unfold pack_presence_record. rewrite !bind_Ok. intros (o & Ho & Hr).
    destruct (@find_by_name_kept _ PresenceDef_carrier presence_compatible _ _ _ _ _ Hok (scp_presences _ _ Hcompat) Ho)
      as (c & Hc & Hin & Hn & Hid & [_ Hb]). exists c. split; [done|].
    rewrite bind_Ok in Hr |- *. destruct Hr as (fs & Hfs & <-). exists fs.
    simpl in Hid. rewrite Hid. split; [|done].
    eapply pack_fields_kept; [apply (Hf c Hin)|done|done].
  - intros [[tid rid] fs] r. unfold unpack_presence_record. rewrite !bind_Ok.
    intros (o & Ho & Hr).
    destruct (@find_by_id_kept _ PresenceDef_carrier presence_compatible _ _ _ _ _ Hok (scp_presences _ _ Hcompat) Ho)
      as (c & Hc & Hin & Hn & Hid & [_ Hb]). exists c. split; [done|].
    rewrite bind_Ok in Hr |- *. destruct Hr as (es & Hes & <-). exists es.
    simpl in Hn. rewrite Hn. split; [|done].
    eapply unpack_fields_kept; [apply (Hf c Hin)|done|done].
Qed.

Lemma signal_envelope_kept :
  (∀ n k v p, pack_signal_envelope previous n k v = Ok p →
              pack_signal_envelope current n k v = Ok p)
  ∧ (∀ p r, unpack_signal_envelope previous p = Ok r → unpack_signal_envelope current p = Ok r).
Proof using Hcv Hcompat.
  destruct (sv_signals _ Hcv) as [Hok Hf]. rewrite Forall_forall in Hf. split.
  - intros n i v p. unfold pack_signal_envelope. rewrite !bind_Ok. intros (o & Ho & Hr).
    destruct (@find_by_name_kept _ SignalDef_carrier signal_compatible _ _ _ _ _ Hok (scp_signals _ _ Hcompat) Ho)
      as (c & Hc & Hin & Hn & Hid & [_ Hb]). exists c. split; [done|].
    rewrite bind_Ok in Hr |- *. destruct Hr as (fs & Hfs & <-). exists fs.
    simpl in Hid. rewrite Hid. split; [|done].
    eapply pack_fields_kept; [apply (Hf c Hin)|done|done].
  - intros [[tid rid] fs] r. unfold unpack_signal_envelope. rewrite !bind_Ok.
    intros (o & Ho & Hr).
    destruct (@find_by_id_kept _ SignalDef_carrier signal_compatible _ _ _ _ _ Hok (scp_signals _ _ Hcompat) Ho)
      as (c & Hc & Hin & Hn & Hid & [_ Hb]). exists c. split; [done|].
    rewrite bind_Ok in Hr |- *. destruct Hr as (es & Hes & <-). exists es.
    simpl in Hn. rewrite Hn. split; [|done].
    eapply unpack_fields_kept; [apply (Hf c Hin)|done|done].
Qed.
End Evolution.

(** ** Duplicate counting *)

Definition all_pos (counts : list (string * Z)) : Prop := Forall (λ c, 1 ≤ c.2) counts.
Definition all_one (counts : list (string * Z)) : Prop := Forall (λ c, c.2 ≤ 1) counts.

Lemma count_key_spec k counts :
  all_pos counts →
  all_pos (count_key k counts)
  ∧ (all_one (count_key k counts) ↔ all_one counts ∧ k ∉ counts.*1)
  ∧ (∀ j, j ∈ (count_key k counts).*1 ↔ j = k ∨ j ∈ counts.*1).
Proof.
  unfold all_pos, all_one. induction counts as [|[k' n] counts IH]; simpl.
  - intros _. split_and!; [repeat constructor; simpl; lia| |set_solver].
    split; [intros _; split; [constructor|set_solver]|]. intros _. repeat constructor; simpl; lia.
  - rewrite Forall_cons. intros [Hn Hp]. destruct (IH Hp) as (I1 & I2 & I3).
    destruct (String.eqb_spec k' k) as [->|Hk]; csimpl; rewrite !Forall_cons; simpl in *.
    + split_and!; [lia|done| |].
      * split; [lia|]. intros [_ Hk]. rewrite not_elem_of_cons in Hk. by destruct Hk.
      * intros j. rewrite elem_of_cons. tauto.
    + split_and!; [done|done| |].
      * rewrite I2, not_elem_of_cons. naive_solver.
      * intros j. rewrite !elem_of_cons, I3. tauto.
Qed.

Lemma lowercase_counts_one names :
  all_one (lowercase_counts names) ↔ NoDup (Str.to_lowercase <$> names).
Proof.
  unfold lowercase_counts.
  assert (Hgen : ∀ acc, all_pos acc →
    all_one (foldl (λ counts name, count_key (Str.to_lowercase name) counts) acc names)
    ↔ all_one acc ∧ NoDup (Str.to_lowercase <$> names)
      ∧ ∀ n, n ∈ names → Str.to_lowercase n ∉ acc.*1).
  { induction names as [|n names IH]; intros acc Hp; simpl.
    - split; [intros ?; split_and!; [done|constructor|set_solver]|tauto].
    - destruct (count_key_spec (Str.to_lowercase n) acc Hp) as (I1 & I2 & I3).
      change (list_fmap string string Str.to_lowercase names) with (Str.to_lowercase <$> names).
      rewrite IH, I2, NoDup_cons by done.
      setoid_rewrite (list_elem_of_fmap Str.to_lowercase names).
      setoid_rewrite I3. split.
      + intros ([? ?] & ? & Hd). split_and!; [done| |done|].
        * intros (y & Hy & Hin). apply (Hd y Hin). by left.
        * intros m [->|Hm]%elem_of_cons; [done|]. intros Hin. apply (Hd m Hm). by right.
      + intros (? & [Hx ?] & Hd). split_and!; [done|apply Hd, elem_of_cons; by left|done|].
        intros m Hm [Heq|Hin]; [apply Hx; eauto|]. by apply (Hd m); [apply elem_of_cons; right|]. }
  rewrite Hgen by constructor. unfold all_one. split; [tauto|]. intros ?.
  split_and!; [constructor|done|set_solver].
Qed.

Lemma dup_findings_nil (mk : string → Z → FrickLintFinding) counts :
  flat_map (λ '(key, count), if 1 <? count then [mk key count] else []) counts = []
  ↔ all_one counts.
Proof.
  unfold all_one. induction counts as [|[k n] counts IH]; simpl; [by split|].
  rewrite Forall_cons, app_nil, IH. simpl. destruct (Z.ltb_spec 1 n); [|naive_solver lia].
  split; [by intros [? _]|lia].
Qed.

Lemma check_duplicates_nil {T} `{TypeCarrier T} (types : list T) collection label :
  check_duplicates types collection label = []
  ↔ NoDup ((λ t, Str.to_lowercase (tc_name t)) <$> types).
Proof.
  unfold check_duplicates. rewrite dup_findings_nil, lowercase_counts_one.
  by rewrite <- list_fmap_compose.
Qed.

Lemma check_field_duplicates_nil owner fields :
  check_field_duplicates owner fields = []
  ↔ NoDup ((λ f, Str.to_lowercase (fd_name f)) <$> fields).
Proof.
  unfold check_field_duplicates. rewrite dup_findings_nil, lowercase_counts_one.
  by rewrite <- list_fmap_compose.
Qed.

Lemma flat_map_nil {A B} (f : A → list B) l : flat_map f l = [] ↔ Forall (λ x, f x = []) l.
Proof. induction l as [|x l IH]; simpl; [by split|]. by rewrite app_nil, Forall_cons, IH. Qed.

(** Names are unique up to letter case. *)
Definition names_unique {T} (get_name : T → string) (types : list T) : Prop :=
  NoDup ((λ t, Str.to_lowercase (get_name t)) <$> types).

(** What [lint_schema] checks of one snapshot. *)
Record snapshot_clean (s : FrickSchema) : Prop := {
  sc_id : Str.trim (schema_id s) ≠ "";
  sc_revision : 0 < schema_revision s;
  sc_objects : names_unique od_name (objects s);
  sc_streams : names_unique sd_name (streams s);
  sc_events : names_unique ed_name (events s);
  sc_presences : names_unique pd_name (presences s);
  sc_signals : names_unique sg_name (signals s);
  sc_blobs : names_unique bd_name (blobs s);
  sc_jobs : names_unique jd_name (jobs s);
  sc_projections : names_unique pj_name (projections s);
  sc_object_fields : Forall (λ o, names_unique fd_name (od_fields o)) (objects s);
  sc_event_fields : Forall (λ e, names_unique fd_name (ed_fields e)) (events s);
}.

Lemma if_nil {A} (b : bool) (x : A) : (if b then [] else [x]) = [] ↔ b = true.
Proof. by destruct b. Qed.

Lemma lint_schema_clean s : findings (lint_schema s) = [] ↔ snapshot_clean s.
Proof.
  unfold lint_schema. simpl. rewrite !app_nil, !if_nil, !check_duplicates_nil, !flat_map_nil.
  setoid_rewrite check_field_duplicates_nil. unfold is_non_empty_string, is_positive_integer.
  rewrite negb_true_iff, is_empty_false, Z.ltb_lt.
  split; [intros (?&?&?&?&?&?&?&?&?&?&?&?); by constructor|by intros []].
Qed.

Lemma quiet_self {A} (f : A → list FrickLintFinding) l :
  (∀ x, x ∈ l → f x = []) → flat_map f l = [].
Proof. intros H. apply flat_map_nil. by apply Forall_forall. Qed.

Lemma diff_added_values_self path ps tail i vs :
  (∀ v, v ∈ vs → v ∈ ps) → diff_added_values path ps tail i vs = [].
Proof.
  revert tail i. induction vs as [|v vs IH]; intros tail i H; simpl; [done|].
  rewrite bool_decide_true by set_solver. apply IH. set_solver.
Qed.

(** Only the set of values matters to the absence of findings. *)
Lemma diff_enum_values_perm path p c :
  opt_values p ≡ₚ opt_values c → diff_enum_values path p c = [].
Proof.
  intros Hp. unfold diff_enum_values. case_match; [done|].
  rewrite quiet_self, diff_added_values_self; [done| |].
  - intros v. by rewrite elem_of_list_to_set, Hp.
  - intros v Hv. rewrite bool_decide_true; [done|]. by rewrite elem_of_list_to_set, <- Hp.
Qed.

Lemma diff_field_self owner f : diff_field owner f f = [].
Proof.
  unfold diff_field. rewrite !String.eqb_refl, bool_decide_true, Bool.eqb_reflx by done.
  simpl. by apply diff_enum_values_perm.
Qed.

Lemma diff_fields_self owner fields : NoDup (fd_id <$> fields) → diff_fields owner fields fields = [].
Proof.
  intros Hnd. unfold diff_fields.
  assert (Hk : ∀ f, f ∈ fields → contains_key (last_by_id fd_id fields) (fd_id f) = true)
    by (intros; apply contains_key_true; eauto).
  rewrite !quiet_self; [done| | |].
  - intros f Hf. rewrite (proj2 (last_by_id_Some fd_id fields (fd_id f) f Hnd)) by done.
    apply diff_field_self.
  - intros f Hf. by rewrite Hk.
  - intros f Hf. by rewrite Hk.
Qed.

Lemma diff_indexes_self owner l : diff_indexes owner l l = [].
Proof.
  apply quiet_self. intros ix Hix. rewrite bool_decide_true; [done|].
  apply elem_of_list_to_set. by apply list_elem_of_fmap_2.
Qed.

Lemma diff_types_self {T} `{TypeCarrier T} body (l : list T) collection label :
  NoDup (tc_id <$> l) → (∀ t, t ∈ l → body t t = []) →
  diff_type_set l l collection label = [] ∧ for_pairs body l l = [].
Proof.
  intros Hnd Hb. unfold diff_type_set, for_pairs.
  assert (Hk : ∀ t, t ∈ l → contains_key (last_by_id tc_id l) (tc_id t) = true)
    by (intros; apply contains_key_true; eauto).
  split; [rewrite !quiet_self; [done| | |]|apply quiet_self].
  - intros t Ht. rewrite (proj2 (last_by_id_Some tc_id l (tc_id t) t Hnd)) by done.
    by rewrite String.eqb_refl.
  - intros t Ht. by rewrite Hk.
  - intros t Ht. by rewrite Hk.
  - intros t Ht. rewrite (proj2 (pair_by_id_Some l t t Hnd)) by done. by apply Hb.
Qed.

Lemma lint_unchanged_nil s : schema_valid s → findings (lint_schema_change s s) = [].
Proof.
  intros [_ [Ho Hof] [Hs Hsf] [He Hef] [Hp Hpf] [Hg Hgf] [Hb Hbf] [Hj Hjf] [Hpj Hpjf]].
  rewrite Forall_forall in Hof. rewrite Forall_forall in Hsf. rewrite Forall_forall in Hef.
  rewrite Forall_forall in Hpf. rewrite Forall_forall in Hgf. rewrite Forall_forall in Hbf.
  rewrite Forall_forall in Hjf. rewrite Forall_forall in Hpjf.
  unfold lint_schema_change, lint_identity. simpl. rewrite String.eqb_refl, !Z.ltb_irrefl.
  unfold diff_objects, diff_streams, diff_events, diff_presences, diff_signals, diff_blobs,
    diff_jobs, diff_projections.
  repeat match goal with
  | |- context [diff_type_set ?l ?l ?c ?n] =>
      let H1 := fresh in let H2 := fresh in
      match goal with |- context [for_pairs ?body l l] =>
        destruct (diff_types_self body l c n) as [H1 H2]
      end; [| |rewrite H1, H2; clear H1 H2]
  end; try done; try (by apply Ho || by apply Hs || by apply He || by apply Hp || by apply Hg
    || by apply Hb || by apply Hj || by apply Hpj).
  all: intros t Ht; rewrite ?String.eqb_refl, ?diff_fields_self, ?diff_indexes_self; try done.
  all: try solve [apply (Hof t Ht)|apply (Hsf t Ht)|apply (Hef t Ht)|apply (Hpf t Ht)
                 |apply (Hgf t Ht)|apply (Hbf t Ht)|apply (Hjf t Ht)|apply (Hpjf t Ht)].
  unfold contains. rewrite !quiet_self; [done| |]; intros e Hev; by rewrite bool_decide_true.
Qed.

Lemma names_of_types {T} (get_id : T → Z) (get_name : T → string) l :
  types_ok get_id get_name l → names_unique get_name l.
Proof. by intros [_ ?]. Qed.

(** [lint_schema] reports nothing exactly on clean snapshots: a non-blank
    id, a positive revision, and names unique up to letter case in the eight
    type collections and in the field lists of objects and events. So a schema
    the validator accepts never lints, and the linter's own checks are all
    implied by validation. *)
Theorem lint_schema_exact s :
  (findings (lint_schema s) = [] ↔ snapshot_clean s)
  ∧ (validate_schema s = Ok tt → findings (lint_schema s) = []).
Proof.
  split; [apply lint_schema_clean|]. rewrite lint_schema_clean, validate_schema_Ok.
  intros [[] [] [] [] [] [] [] [] []]. constructor; try done; try by eapply names_of_types.
  - eapply Forall_impl; [eassumption|]. intros o [[[_ ?] _] _]. done.
  - eapply Forall_impl; [eassumption|]. intros o [[_ ?] _]. done.
Qed.


(** linting a valid schema against itself reports nothing at all, not even
    an info or a warning. *)
Theorem lint_unchanged s : schema_valid s → findings (lint_schema_change s s) = [].
Proof. apply lint_unchanged_nil. Qed.

(** a change with no breaking finding keeps the wire contract: between
    valid snapshots, every object record, stream event, presence record and
    signal envelope that packs under the previous schema packs to the same
    packed tuple under the current one, and every one that unpacks under
    the previous schema unpacks to the same value under the current one. *)
Theorem lint_quiet_keeps_wire current previous :
  schema_valid current → schema_valid previous →
  breaking_count (lint_schema_change current previous) = 0%nat →
  (∀ n i v p, pack_object_record previous n i v = Ok p → pack_object_record current n i v = Ok p)
  ∧ (∀ p r, unpack_object_record previous p = Ok r → unpack_object_record current p = Ok r)
  ∧ (∀ i p, pack_stream_event previous i = Ok p → pack_stream_event current i = Ok p)
  ∧ (∀ p i, unpack_stream_event previous p = Ok i → unpack_stream_event current p = Ok i)
  ∧ (∀ p r, unpack_presence_record previous p = Ok r → unpack_presence_record current p = Ok r)
  ∧ (∀ p r, unpack_signal_envelope previous p = Ok r → unpack_signal_envelope current p = Ok r).
Proof.
  intros Hc Hp Hq. apply (schema_change_quiet _ _ Hp) in Hq.
  destruct (object_record_kept _ _ Hc Hq), (stream_event_kept _ _ Hc Hq),
    (presence_record_kept _ _ Hc Hq), (signal_envelope_kept _ _ Hc Hq). done.
Qed.

(** reordering the values of an enum field is never reported: whenever the
    current values are a permutation of the previous ones, [diff_enum_values]
    returns no finding, although the DSL's documentation calls the order of
    the values wire-significant. *)
Theorem enum_reorder_unreported path p c :
  opt_values p ≡ₚ opt_values c → diff_enum_values path p c = [].
Proof. apply diff_enum_values_perm. Qed.

(** ** Concrete changes *)

Module SampleChange.
Import SampleSchema.

(** An optional field and a trailing enum value more, one revision up. *)
Definition priority2 : FieldDef :=
  {| fd_id := 3; fd_name := "priority"; fd_kind := FK_Enum; fd_required := false;
     fd_ref := None; fd_enum_values := Some ["low"; "high"; "urgent"];
     fd_sensitivity := None |}.
Definition notes : FieldDef :=
  {| fd_id := 5; fd_name := "notes"; fd_kind := FK_String; fd_required := false;
     fd_ref := None; fd_enum_values := None; fd_sensitivity := None |}.
Definition task2 : ObjectDef :=
  {| od_id := 1; od_name := "Task";
     od_fields := [title; cover; priority2; ownerUserId; notes];
     od_indexes := od_indexes task; od_merge_policy := od_merge_policy task |}.
Definition schema2 : FrickSchema :=
  {| s_name := s_name schema; schema_id := schema_id schema; schema_version := "0.2.0";
     schema_revision := 4; minimum_client_revision := 2; minimum_server_revision := 1;
     protocol := protocol schema; protocol_version := 1;
     compatibility := compatibility schema; hash := "sample-4"; objects := [task2];
     streams := streams schema; events := events schema; presences := presences schema;
     signals := signals schema; blobs := blobs schema; jobs := []; projections := [] |}.

Definition reordered : FieldDef :=
  {| fd_id := 3; fd_name := "priority"; fd_kind := FK_Enum; fd_required := false;
     fd_ref := None; fd_enum_values := Some ["high"; "low"]; fd_sensitivity := None |}.

Lemma schema_ok : schema_valid schema.
Proof. apply validate_schema_Ok. vm_compute. reflexivity. Qed.
Lemma schema2_ok : schema_valid schema2.
Proof. apply validate_schema_Ok. vm_compute. reflexivity. Qed.
End SampleChange.

Lemma lint_schema_exact_witness : findings (lint_schema SampleSchema.schema) = [].
Proof. exact (proj2 (lint_schema_exact _) SampleSchema.schema_validates). Defined.


Lemma lint_unchanged_witness :
  findings (lint_schema_change SampleSchema.schema SampleSchema.schema) = [].
Proof. exact (lint_unchanged _ SampleChange.schema_ok). Defined.

Lemma lint_quiet_keeps_wire_witness :
  unpack_object_record SampleChange.schema2 (1, "t1", [(1, VStr "buy milk")])
  = Ok {| ur_type := "Task"; ur_id := "t1";
          ur_value := VMap [(VStr "id", VStr "t1"); (VStr "title", VStr "buy milk")] |}.
Proof.
  apply (lint_quiet_keeps_wire SampleChange.schema2 SampleSchema.schema
    SampleChange.schema2_ok SampleChange.schema_ok ltac:(vm_compute; reflexivity)).
  vm_compute. reflexivity.
Defined.

Lemma enum_reorder_unreported_witness :
  diff_enum_values "objects[Task].fields[priority]" SampleSchema.priority SampleChange.reordered
  = [].
Proof. apply enum_reorder_unreported. apply perm_swap. Defined.
