(* ===== verification/Timestamp.v ===== *)
(** * Timestamps ([frick-store/src/stores/{blob_bytes,account,job,stream,refresh_token,session}.rs],
      [frick-store/src/migrations.rs])

    Stores keep instants as [YYYY-MM-DDTHH:mm:ss.sssZ] text and compare them as
    text. The crate has four copies of the formatter and three of the parser;
    the four formatters are proved equal, the parser is proved to invert them,
    and text order is proved to be time order over the years 0000 to 9999. All
    intermediate values stay far inside [i64] for every [i64] input, so the
    arithmetic is on [Z]; Rust's [/] and [%] are used on non-negative operands
    only, where they are [Z.div] and [Z.modulo]. *)

From Stdlib Require Import ZArith Lia Ascii String.
From stdpp Require Import base strings list pretty.
From S2P Require Import Prelude.

(** ** Formatting *)

(** Days since the epoch to (year, month, day). *)
Definition civil_from_days (days : Z) : Z * Z * Z :=
  let z := days + 719468 in
  let era := z / 146097 in
  let doe := z mod 146097 in
  let yoe := (doe - doe / 1460 + doe / 36524 - doe / 146096) / 365 in
  let doy := doe - (365 * yoe + yoe / 4 - yoe / 100) in
  let mp := (5 * doy + 2) / 153 in
  let day := doy - (153 * mp + 2) / 5 + 1 in
  let month := if mp <? 10 then mp + 3 else mp - 9 in
  let year := yoe + era * 400 + (if month <=? 2 then 1 else 0) in
  (year, month, day).

Definition iso_text (year month day hour minute second millis : Z) : string :=
  pad0 4 year +:+ "-" +:+ pad0 2 month +:+ "-" +:+ pad0 2 day +:+ "T" +:+ pad0 2 hour +:+ ":"
  +:+ pad0 2 minute +:+ ":" +:+ pad0 2 second +:+ "." +:+ pad0 3 millis +:+ "Z".

(** [blob_bytes.rs]; [job.rs]'s [epoch_ms_to_iso] is the same text. *)
Definition iso_from_epoch_ms (epoch_ms : Z) : string :=
  let days := epoch_ms / 86400000 in
  let ms_of_day := epoch_ms mod 86400000 in
  let '(year, month, day) := civil_from_days days in
  iso_text year month day (ms_of_day / 3600000) (ms_of_day mod 3600000 / 60000)
    (ms_of_day mod 60000 / 1000) (ms_of_day mod 1000).

Module Account.
(** [u32::try_from(z).unwrap_or(1)]. *)
Definition u32_or_1 (z : Z) : Z := if (0 <=? z) && (z <? 2 ^ 32) then z else 1.

Definition civil_from_days (days : Z) : Z * Z * Z :=
  let z := days + 719468 in
  let era := z / 146097 in
  let doe := z mod 146097 in
  let yoe := (doe - doe / 1460 + doe / 36524 - doe / 146096) / 365 in
  let year := yoe + era * 400 in
  let doy := doe - (365 * yoe + yoe / 4 - yoe / 100) in
  let mp := (5 * doy + 2) / 153 in
  let day_i64 := doy - (153 * mp + 2) / 5 + 1 in
  let month_i64 := if mp <? 10 then mp + 3 else mp - 9 in
  let day := u32_or_1 day_i64 in
  let month := u32_or_1 month_i64 in
  let year := if month <=? 2 then year + 1 else year in
  (year, month, day).

Definition iso_from_epoch_ms (total_ms : Z) : string :=
  let ms := total_ms mod 1000 in
  let total_secs := total_ms / 1000 in
  let secs_of_day := total_secs mod 86400 in
  let days := total_secs / 86400 in
  let '(year, month, day) := civil_from_days days in
  iso_text year month day (secs_of_day / 3600) (secs_of_day mod 3600 / 60)
    (secs_of_day mod 60) ms.
End Account.

Module Migrations.
Definition civil_from_days (days : Z) : Z * Z * Z :=
  let z := days + 719468 in
  let era := z / 146097 in
  let doe := z mod 146097 in
  let yoe := (doe - doe / 1460 + doe / 36524 - doe / 146096) / 365 in
  let year_of_era := yoe + era * 400 in
  let doy := doe - (365 * yoe + yoe / 4 - yoe / 100) in
  let mp := (5 * doy + 2) / 153 in
  let day := doy - (153 * mp + 2) / 5 + 1 in
  let month := if mp <? 10 then mp + 3 else mp - 9 in
  (if month <=? 2 then year_of_era + 1 else year_of_era, month, day).

Definition epoch_ms_to_iso8601 (epoch_ms : Z) : string :=
  let millis := epoch_ms mod 1000 in
  let total_seconds := epoch_ms / 1000 in
  let days := total_seconds / 86400 in
  let seconds_of_day := total_seconds mod 86400 in
  let '(year, month, day) := civil_from_days days in
  iso_text year month day (seconds_of_day / 3600) ((seconds_of_day / 60) mod 60)
    (seconds_of_day mod 60) millis.
End Migrations.

Definition epoch_ms_to_iso (epoch_ms : Z) : string :=
  let days := epoch_ms / 86400000 in
  let ms_of_day := epoch_ms mod 86400000 in
  let '(year, month, day) := civil_from_days days in
  let hour := ms_of_day / 3600000 in
  let minute := (ms_of_day mod 3600000) / 60000 in
  let second := (ms_of_day mod 60000) / 1000 in
  let milli := ms_of_day mod 1000 in
  iso_text year month day hour minute second milli.

(** ** Parsing *)

Definition days_from_civil (year month day : Z) : Z :=
  let y := if month <=? 2 then year - 1 else year in
  let era := y / 400 in
  let yoe := y - era * 400 in
  let doy := (153 * (if 2 <? month then month - 3 else month + 9) + 2) / 5 + day - 1 in
  let doe := yoe * 365 + yoe / 4 - yoe / 100 + doy in
  era * 146097 + doe - 719468.

Definition is_digit (b : Z) : bool := (48 <=? b) && (b <=? 57).

Fixpoint parse_digits_from (value : Z) (bs : list Z) : option Z :=
  match bs with
  | [] => Some value
  | b :: bs' => if is_digit b then parse_digits_from (value * 10 + (b - 48)) bs' else None
  end.
Definition parse_digits (bs : list Z) : option Z := parse_digits_from 0 bs.

(** [&bytes[i..j]] and [bytes[i] != c] of the source, on a 24-byte slice. *)
Definition slice (i j : nat) (bs : list Z) : list Z := take (j - i) (drop i bs).
Definition byte_at (bs : list Z) (i : nat) (c : Z) : bool := bool_decide (bs !! i = Some c).

Definition parse_iso_ms_opt (text : string) : option Z :=
  let bs := Str.bytes text in
  if negb (Nat.eqb (length bs) 24) then None
  else if negb (byte_at bs 4 45 && byte_at bs 7 45 && byte_at bs 10 84 && byte_at bs 13 58
                && byte_at bs 16 58 && byte_at bs 19 46 && byte_at bs 23 90) then None
  else
    year ← parse_digits (slice 0 4 bs);
    month ← parse_digits (slice 5 7 bs);
    day ← parse_digits (slice 8 10 bs);
    hour ← parse_digits (slice 11 13 bs);
    minute ← parse_digits (slice 14 16 bs);
    second ← parse_digits (slice 17 19 bs);
    millis ← parse_digits (slice 20 23 bs);
    if negb ((1 <=? month) && (month <=? 12)) || negb ((1 <=? day) && (day <=? 31)) then None
    else Some (days_from_civil year month day * 86400000 + hour * 3600000 + minute * 60000
               + second * 1000 + millis).

(** ** The calendar *)

(** The day number (from 0000-03-01) on which the March-based year [y] starts. *)
Definition year_start (y : Z) : Z := 365 * y + y / 4 - y / 100 + y / 400.

Lemma year_start_mono a b : a ≤ b → year_start a ≤ year_start b.
Proof. unfold year_start. intros. Z.to_euclidean_division_equations. lia. Qed.

(** The decomposition of the day within its era. *)
Lemma yoe_doy doe yoe doy :
  0 ≤ doe < 146097 → yoe = (doe - doe / 1460 + doe / 36524 - doe / 146096) / 365 →
  doy = doe - (365 * yoe + yoe / 4 - yoe / 100) →
  0 ≤ yoe < 400 ∧ 0 ≤ doy ∧ doe < 365 * (yoe + 1) + (yoe + 1) / 4 - (yoe + 1) / 100 + (yoe + 1) / 400.
Proof.
  intros H -> ->. Z.to_euclidean_division_equations. lia.
Qed.

(** [civil_from_days] in terms of the March-based year [Y] and day of year. *)
Lemma civil_spec days y m d :
  civil_from_days days = (y, m, d) →
  ∃ Y doy mp, days + 719468 = year_start Y + doy ∧ 0 ≤ doy ≤ 365
    ∧ days + 719468 < year_start (Y + 1)
    ∧ mp = (5 * doy + 2) / 153 ∧ d = doy - (153 * mp + 2) / 5 + 1
    ∧ m = (if mp <? 10 then mp + 3 else mp - 9) ∧ y = Y + (if mp <? 10 then 0 else 1).
Proof.
  unfold civil_from_days. set (z := days + 719468). set (doe := z mod 146097).
  set (yoe := (doe - doe / 1460 + doe / 36524 - doe / 146096) / 365).
  set (doy := doe - (365 * yoe + yoe / 4 - yoe / 100)).
  assert (Hdoe : 0 ≤ doe < 146097) by (apply Z.mod_pos_bound; lia).
  destruct (yoe_doy doe yoe doy Hdoe eq_refl eq_refl) as (H1 & H2 & H3).
  assert (Hz : z = 146097 * (z / 146097) + doe) by (apply Z.div_mod; lia).
  intros [= <- <- <-]. exists (yoe + z / 146097 * 400), doy, ((5 * doy + 2) / 153).
  assert (Hys : ∀ a e, year_start (a + e * 400) = year_start a + e * 146097).
  { intros a e. unfold year_start. Z.to_euclidean_division_equations. lia. }
  assert (Hd : doy ≤ 365).
  { unfold doy. clearbody yoe doe. Z.to_euclidean_division_equations. lia. }
  assert (Hr : 0 ≤ (5 * doy + 2) / 153 ≤ 11) by (Z.to_euclidean_division_equations; lia).
  split_and!; try done.
  - rewrite Hys. unfold year_start, doy. rewrite (Z.div_small yoe 400) by lia. lia.
  - replace (yoe + z / 146097 * 400 + 1) with (yoe + 1 + z / 146097 * 400) by lia.
    rewrite Hys. unfold year_start. lia.
  - destruct (Z.ltb_spec ((5 * doy + 2) / 153) 10).
    + destruct (Z.leb_spec ((5 * doy + 2) / 153 + 3) 2); lia.
    + destruct (Z.leb_spec ((5 * doy + 2) / 153 - 9) 2); lia.
Qed.

Lemma civil_range days y m d :
  civil_from_days days = (y, m, d) → 1 ≤ m ≤ 12 ∧ 1 ≤ d ≤ 31.
Proof.
  intros (Y & doy & mp & _ & Hd & _ & -> & -> & -> & _)%civil_spec.
  destruct (Z.ltb_spec ((5 * doy + 2) / 153) 10); Z.to_euclidean_division_equations; lia.
Qed.

Lemma days_from_civil_from_days days y m d :
  civil_from_days days = (y, m, d) → days_from_civil y m d = days.
Proof.
  intros (Y & doy & mp & Hz & Hd & _ & Hmp & -> & -> & ->)%civil_spec.
  assert (0 ≤ mp ≤ 11) by (Z.to_euclidean_division_equations; lia).
  unfold days_from_civil. unfold year_start in Hz.
  replace (if (if mp <? 10 then mp + 3 else mp - 9) <=? 2
           then Y + (if mp <? 10 then 0 else 1) - 1
           else Y + (if mp <? 10 then 0 else 1)) with Y.
  2: { destruct (Z.ltb_spec mp 10).
       - destruct (Z.leb_spec (mp + 3) 2); lia.
       - destruct (Z.leb_spec (mp - 9) 2); lia. }
  replace (if 2 <? (if mp <? 10 then mp + 3 else mp - 9)
           then (if mp <? 10 then mp + 3 else mp - 9) - 3
           else (if mp <? 10 then mp + 3 else mp - 9) + 9) with mp.
  2: { destruct (Z.ltb_spec mp 10).
       - destruct (Z.ltb_spec 2 (mp + 3)); lia.
       - destruct (Z.ltb_spec 2 (mp - 9)); lia. }
  clear Hmp. Z.to_euclidean_division_equations. lia.
Qed.

(** A date as a number that orders dates: months count 32 days. *)
Definition date_key (y m d : Z) : Z := 32 * (12 * y + m) + d.

Lemma civil_mono a b ya ma da yb mb db :
  civil_from_days a = (ya, ma, da) → civil_from_days b = (yb, mb, db) → a < b →
  date_key ya ma da < date_key yb mb db.
Proof.
  intros Ha Hb Hlt. pose proof (civil_range _ _ _ _ Ha). pose proof (civil_range _ _ _ _ Hb).
  apply civil_spec in Ha as (Ya & doya & mpa & Hza & Hda & Hna & Hmpa & -> & -> & ->).
  apply civil_spec in Hb as (Yb & doyb & mpb & Hzb & Hdb & Hnb & Hmpb & -> & -> & ->).
  assert (HY : Ya ≤ Yb).
  { destruct (Z.le_gt_cases Ya Yb) as [|Hgt]; [done|].
    pose proof (year_start_mono (Yb + 1) Ya). lia. }
  assert (Hk : Ya < Yb ∨ Ya = Yb ∧ doya < doyb).
  { destruct (decide (Ya = Yb)) as [->|]; lia. }
  unfold date_key. clear Hza Hzb Hna Hnb Hlt.
  assert (0 ≤ mpa ≤ 11 ∧ 0 ≤ mpb ≤ 11) by (Z.to_euclidean_division_equations; lia).
  assert (Hm : Ya < Yb ∨ Ya = Yb ∧ (mpa < mpb ∨ mpa = mpb ∧ doya < doyb)).
  { destruct Hk as [|[-> ?]]; [by left|]. right. split; [done|].
    Z.to_euclidean_division_equations. lia. }
  destruct (Z.ltb_spec mpa 10), (Z.ltb_spec mpb 10); destruct Hm as [|[-> [|[-> ?]]]]; lia.
Qed.

(** ** Fixed-width decimals *)

(** The [w] low decimal digits of [x], as bytes. *)
Fixpoint digs (w : nat) (x : Z) : list Z :=
  match w with O => [] | S w' => digs w' (x / 10) ++ [48 + x mod 10] end.

Lemma bytes_app a b : Str.bytes (a +:+ b) = Str.bytes a ++ Str.bytes b.
Proof. induction a as [|c a IH]; [done|]. simpl. by rewrite <- IH. Qed.

Lemma length_bytes s : length (Str.bytes s) = String.length s.
Proof. induction s as [|c s IH]; [done|]. simpl. by rewrite IH. Qed.

Lemma bytes_zeros n : Str.bytes (zeros n) = replicate n 48.
Proof. induction n as [|n IH]; [done|]. simpl. by rewrite IH. Qed.

Lemma digs_0 w : digs w 0 = replicate w 48.
Proof.
  induction w as [|w IH]; [done|]. simpl. change (0 / 10) with 0. rewrite IH.
  by rewrite <- replicate_cons_app.
Qed.

Lemma byte_digit x : (x < 10)%N → Str.byte (pretty_N_char x) = 48 + Z.of_N x.
Proof.
  intros H. destruct x as [|p]; [done|].
  do 10 (destruct p as [p|p|]; try done); lia.
Qed.

Lemma pretty_N_go_digs w x s :
  Z.of_N x < 10 ^ Z.of_nat w →
  (String.length s ≤ String.length (pretty_N_go x s) ≤ w + String.length s)%nat
  ∧ replicate (w + String.length s - String.length (pretty_N_go x s)) 48
      ++ Str.bytes (pretty_N_go x s) = digs w (Z.of_N x) ++ Str.bytes s.
Proof.
  revert x s. induction w as [|w IH]; intros x s Hx.
  - assert (x = 0%N) as -> by (simpl in Hx; lia). rewrite pretty_N_go_0. simpl.
    split; [lia|]. by rewrite Nat.sub_diag.
  - destruct (decide (x = 0%N)) as [->|Hnz].
    + rewrite pretty_N_go_0, digs_0. split; [lia|].
      by replace (S w + String.length s - String.length s)%nat with (S w) by lia.
    + rewrite pretty_N_go_step by lia.
      assert (Hd : Z.of_N (x `div` 10) = Z.of_N x / 10) by (rewrite N2Z.inj_div; lia).
      assert (Hm : Z.of_N (x `mod` 10) = Z.of_N x mod 10) by (rewrite N2Z.inj_mod; lia).
      destruct (IH (x `div` 10)%N (String (pretty_N_char (x `mod` 10)) s)) as [Hl He].
      { rewrite Hd. apply Z.div_lt_upper_bound; [lia|].
        rewrite Nat2Z.inj_succ, Z.pow_succ_r in Hx by lia. lia. }
      simpl in Hl, He. split; [lia|].
      replace (S w + String.length s)%nat with (w + S (String.length s))%nat by lia.
      rewrite He, byte_digit, Hd, Hm by (apply N.mod_lt; lia). simpl.
      by rewrite <- app_assoc.
Qed.

Lemma pretty_N_as_go x : x ≠ 0%N → pretty x = pretty_N_go x "".
Proof. intros H. unfold pretty, pretty_N. by destruct (decide _). Qed.

(** [{x:0w}] of a number that fits [w] digits is exactly those digits. *)
Lemma bytes_pad0 w x :
  (0 < w)%nat → 0 ≤ x < 10 ^ Z.of_nat w → Str.bytes (pad0 w x) = digs w x.
Proof.
  intros Hw [H0 Hx]. unfold pad0. destruct (Z.ltb_spec x 0); [lia|].
  rewrite bytes_app, bytes_zeros. destruct x as [|p|p]; [| |lia].
  - rewrite digs_0. simpl. destruct w as [|w]; [lia|]. simpl. rewrite Nat.sub_0_r.
    by rewrite <- replicate_cons_app.
  - change (pretty (Z.pos p)) with (pretty (N.pos p)). rewrite pretty_N_as_go by done.
    destruct (pretty_N_go_digs w (N.pos p) "") as [Hl He]; [done|].
    simpl in He. rewrite Nat.add_0_r, app_nil_r in He. exact He.
Qed.

Lemma length_digs w x : length (digs w x) = w.
Proof. revert x. induction w as [|w IH]; intros x; simpl; [done|]. rewrite length_app, IH. simpl. lia. Qed.

Lemma digs_is_digit w x b : b ∈ digs w x → is_digit b = true.
Proof.
  revert x. induction w as [|w IH]; intros x; simpl; [by inversion 1|].
  rewrite elem_of_app, list_elem_of_singleton. intros [Hb| ->]; [by eapply IH|].
  unfold is_digit. pose proof (Z.mod_pos_bound x 10). lia.
Qed.

Lemma parse_digits_digs w x v :
  0 ≤ x < 10 ^ Z.of_nat w → parse_digits_from v (digs w x) = Some (v * 10 ^ Z.of_nat w + x).
Proof.
  revert x. assert (Happ : ∀ l b v, is_digit b = true →
    parse_digits_from v (l ++ [b]) = (λ n, n * 10 + (b - 48)) <$> parse_digits_from v l).
  { clear. intros l b. induction l as [|a l IH]; intros v Hb; simpl; [by rewrite Hb|].
    destruct (is_digit a); [by apply IH|done]. }
  induction w as [|w IH]; intros x Hx; simpl.
  - f_equal. simpl in Hx. lia.
  - rewrite Happ by (unfold is_digit; pose proof (Z.mod_pos_bound x 10); lia).
    rewrite Nat2Z.inj_succ, Z.pow_succ_r in * by lia.
    rewrite IH. 2: { split; [apply Z.div_pos; lia|]. apply Z.div_lt_upper_bound; lia. }
    simpl. f_equal. pose proof (Z.div_mod x 10). lia.
Qed.

(** ** Text order on equal widths *)

Lemma lex_le_app a b x y :
  length a = length b →
  Str.lex_le (a ++ x) (b ++ y)
  = if decide (a = b) then Str.lex_le x y else Str.lex_le a b.
Proof.
  revert b. induction a as [|u a IH]; intros [|v b] Hl; [done..|].
  - injection Hl as Hl. rewrite <- !app_comm_cons.
    cbn [Str.lex_le]. destruct (Z.eqb_spec u v) as [->|Hne].
    + rewrite IH by lia. destruct (decide (a = b)) as [->|Hab].
      * by destruct (decide (v :: b = _)).
      * destruct (decide (_ = _)); [congruence|done].
    + destruct (decide (_ = _)); [congruence|done].
Qed.

Lemma digs_inj w x y :
  0 ≤ x < 10 ^ Z.of_nat w → 0 ≤ y < 10 ^ Z.of_nat w → digs w x = digs w y → x = y.
Proof.
  intros Hx Hy He. pose proof (parse_digits_digs w x 0 Hx) as P.
  rewrite He, parse_digits_digs in P by done. injection P. lia.
Qed.

Lemma lex_digs w x y :
  0 ≤ x < 10 ^ Z.of_nat w → 0 ≤ y < 10 ^ Z.of_nat w →
  Str.lex_le (digs w x) (digs w y) = (x <=? y).
Proof.
  revert x y. induction w as [|w IH]; intros x y Hx Hy.
  - simpl in *. destruct (Z.leb_spec x y); [done|lia].
  - simpl. rewrite lex_le_app by by rewrite !length_digs.
    rewrite Nat2Z.inj_succ, Z.pow_succ_r in Hx, Hy by lia.
    assert (Hdx : 0 ≤ x / 10 < 10 ^ Z.of_nat w)
      by (split; [apply Z.div_pos; lia|apply Z.div_lt_upper_bound; lia]).
    assert (Hdy : 0 ≤ y / 10 < 10 ^ Z.of_nat w)
      by (split; [apply Z.div_pos; lia|apply Z.div_lt_upper_bound; lia]).
    pose proof (Z.div_mod x 10). pose proof (Z.div_mod y 10).
    pose proof (Z.mod_pos_bound x 10). pose proof (Z.mod_pos_bound y 10).
    case_decide as Hd.
    + apply digs_inj in Hd; [|done..]. simpl.
      destruct (Z.eqb_spec (48 + x mod 10) (48 + y mod 10)), (Z.leb_spec x y),
        (Z.ltb_spec (48 + x mod 10) (48 + y mod 10)); try done; lia.
    + rewrite IH by done. assert (x / 10 ≠ y / 10) by congruence.
      destruct (Z.leb_spec (x / 10) (y / 10)), (Z.leb_spec x y); try done; lia.
Qed.

(** ** The theorems on instants *)

(** 0000-01-01T00:00:00.000Z to 9999-12-31T23:59:59.999Z. *)
Definition in_four_digit_years (ms : Z) : Prop := -62167219200000 ≤ ms ≤ 253402300799999.

Lemma civil_year_range days y m d :
  -719528 ≤ days ≤ 2932896 → civil_from_days days = (y, m, d) → 0 ≤ y ≤ 9999.
Proof.
  intros Hd Hc. pose proof (civil_range _ _ _ _ Hc).
  assert (H1 : date_key 0 1 1 ≤ date_key y m d).
  { destruct (decide (days = -719528)) as [->|].
    - vm_compute in Hc. by injection Hc as <- <- <-.
    - apply Z.lt_le_incl. eapply (civil_mono (-719528) days); [done|done|lia]. }
  assert (H2 : date_key y m d ≤ date_key 9999 12 31).
  { destruct (decide (days = 2932896)) as [->|].
    - vm_compute in Hc. by injection Hc as <- <- <-.
    - apply Z.lt_le_incl. eapply (civil_mono days 2932896); [done|done|lia]. }
  unfold date_key in *. lia.
Qed.

(** The calendar fields of an instant, with their ranges. *)
Lemma iso_fields ms :
  in_four_digit_years ms →
  ∃ y m d h mi s l, iso_from_epoch_ms ms = iso_text y m d h mi s l
    ∧ civil_from_days (ms / 86400000) = (y, m, d)
    ∧ 0 ≤ y < 10000 ∧ 1 ≤ m ≤ 12 ∧ 1 ≤ d ≤ 31 ∧ 0 ≤ h < 24 ∧ 0 ≤ mi < 60 ∧ 0 ≤ s < 60
    ∧ 0 ≤ l < 1000 ∧ ms = ms / 86400000 * 86400000 + h * 3600000 + mi * 60000 + s * 1000 + l.
Proof.
  intros Hms. unfold iso_from_epoch_ms.
  destruct (civil_from_days (ms / 86400000)) as [[y m] d] eqn:Ec.
  eexists y, m, d, _, _, _, _. split; [reflexivity|]. split; [done|].
  pose proof (civil_range _ _ _ _ Ec).
  pose proof (civil_year_range (ms / 86400000) y m d).
  unfold in_four_digit_years in *. Z.to_euclidean_division_equations. lia.
Qed.

Lemma bytes_iso_text y m d h mi s l :
  0 ≤ y < 10000 → 0 ≤ m < 100 → 0 ≤ d < 100 → 0 ≤ h < 100 → 0 ≤ mi < 100 → 0 ≤ s < 100 →
  0 ≤ l < 1000 →
  Str.bytes (iso_text y m d h mi s l)
  = digs 4 y ++ [45] ++ digs 2 m ++ [45] ++ digs 2 d ++ [84] ++ digs 2 h ++ [58] ++ digs 2 mi
    ++ [58] ++ digs 2 s ++ [46] ++ digs 3 l ++ [90].
Proof.
  intros. unfold iso_text. rewrite !bytes_app, !bytes_pad0 by (simpl; lia). done.
Qed.

Lemma slice_app (i j : nat) (a b c : list Z) :
  length a = i → length b = (j - i)%nat → slice i j (a ++ b ++ c) = b.
Proof. intros <- Hb. unfold slice. rewrite drop_app_length, <- Hb. apply take_app_length. Qed.

Lemma parse_iso_fields y m d h mi s l text :
  0 ≤ y < 10000 → 1 ≤ m ≤ 12 → 1 ≤ d ≤ 31 → 0 ≤ h < 24 → 0 ≤ mi < 60 → 0 ≤ s < 60 →
  0 ≤ l < 1000 → text = iso_text y m d h mi s l →
  parse_iso_ms_opt text
  = Some (days_from_civil y m d * 86400000 + h * 3600000 + mi * 60000 + s * 1000 + l).
Proof.
  intros Hy Hm Hd Hh Hmi Hs Hl ->. unfold parse_iso_ms_opt.
  rewrite bytes_iso_text by lia.
  pose proof (parse_digits_digs 4 y 0 ltac:(simpl; lia)) as Py.
  pose proof (parse_digits_digs 2 m 0 ltac:(simpl; lia)) as Pm.
  pose proof (parse_digits_digs 2 d 0 ltac:(simpl; lia)) as Pd.
  pose proof (parse_digits_digs 2 h 0 ltac:(simpl; lia)) as Ph.
  pose proof (parse_digits_digs 2 mi 0 ltac:(simpl; lia)) as Pmi.
  pose proof (parse_digits_digs 2 s 0 ltac:(simpl; lia)) as Ps.
  pose proof (parse_digits_digs 3 l 0 ltac:(simpl; lia)) as Pl.
  cbn [digs app] in *. unfold parse_digits, slice, byte_at.
  cbn [length take drop lookup list_lookup Nat.sub Nat.eqb negb].
  rewrite !bool_decide_true by done. cbn [negb andb].
  rewrite Py. cbn [mbind option_bind]. rewrite Pm. cbn [mbind option_bind].
  rewrite Pd. cbn [mbind option_bind]. rewrite Ph. cbn [mbind option_bind].
  rewrite Pmi. cbn [mbind option_bind]. rewrite Ps. cbn [mbind option_bind].
  rewrite Pl. cbn [mbind option_bind]. rewrite !Z.mul_0_l, !Z.add_0_l.
  rewrite !(proj2 (Z.leb_le _ _)) by lia. done.
Qed.

Lemma iso_roundtrip_eq ms :
  in_four_digit_years ms → parse_iso_ms_opt (iso_from_epoch_ms ms) = Some ms.
Proof.
  intros Hms. destruct (iso_fields ms Hms)
    as (y & m & d & h & mi & s & l & Hi & Hc & Hy & Hm & Hd & Hh & Hmi & Hs & Hl & Hsum).
  rewrite (parse_iso_fields y m d h mi s l) by (done || lia).
  rewrite (days_from_civil_from_days (ms / 86400000)) by done. f_equal. lia.
Qed.

Lemma lex_field w x y r1 r2 :
  0 ≤ x < 10 ^ Z.of_nat w → 0 ≤ y < 10 ^ Z.of_nat w →
  Str.lex_le (digs w x ++ r1) (digs w y ++ r2)
  = if x =? y then Str.lex_le r1 r2 else (x <=? y).
Proof.
  intros Hx Hy. rewrite lex_le_app by by rewrite !length_digs.
  rewrite lex_digs by done. destruct (Z.eqb_spec x y) as [->|Hne]; case_decide as Hd; try done.
  apply digs_inj in Hd; [|done..]. done.
Qed.

Lemma lex_sep c r1 r2 : Str.lex_le ([c] ++ r1) ([c] ++ r2) = Str.lex_le r1 r2.
Proof. simpl. by rewrite Z.eqb_refl. Qed.

Lemma iso_order_eq a b :
  in_four_digit_years a → in_four_digit_years b →
  Str.leb (iso_from_epoch_ms a) (iso_from_epoch_ms b) = (a <=? b).
Proof.
  intros Ha Hb. destruct (iso_fields a Ha)
    as (y & m & d & h & mi & s & l & -> & Hc & Hy & Hm & Hd & Hh & Hmi & Hs & Hl & Hsum).
  destruct (iso_fields b Hb)
    as (y' & m' & d' & h' & mi' & s' & l' & -> & Hc' & Hy' & Hm' & Hd' & Hh' & Hmi' & Hs' & Hl' & Hsum').
  unfold Str.leb. rewrite !bytes_iso_text by lia.
  repeat (rewrite lex_field by (simpl; lia); rewrite lex_sep).
  assert (Hday : a / 86400000 < b / 86400000 ∧ date_key y m d < date_key y' m' d'
    ∨ b / 86400000 < a / 86400000 ∧ date_key y' m' d' < date_key y m d
    ∨ a / 86400000 = b / 86400000 ∧ y = y' ∧ m = m' ∧ d = d').
  { destruct (Z.lt_trichotomy (a / 86400000) (b / 86400000)) as [Hlt|[He|Hlt]].
    - left. split; [done|]. by eapply civil_mono.
    - right; right. rewrite He in Hc. split; [done|]. rewrite Hc' in Hc. by injection Hc as -> -> ->.
    - right; left. split; [done|]. by eapply civil_mono. }
  unfold date_key in Hday.
  revert Hsum Hsum' Hday. generalize (a / 86400000) (b / 86400000). intros u v Hsum Hsum' Hday.
  apply eq_true_iff_eq. rewrite Z.leb_le.
  destruct (Z.eqb_spec y y'); [|rewrite Z.leb_le; lia].
  destruct (Z.eqb_spec m m'); [|rewrite Z.leb_le; lia].
  destruct (Z.eqb_spec d d'); [|rewrite Z.leb_le; lia].
  destruct (Z.eqb_spec h h'); [|rewrite Z.leb_le; lia].
  destruct (Z.eqb_spec mi mi'); [|rewrite Z.leb_le; lia].
  destruct (Z.eqb_spec s s'); [|rewrite Z.leb_le; lia].
  rewrite lex_field by (simpl; lia).
  destruct (Z.eqb_spec l l'); [|rewrite Z.leb_le; lia].
  split; [lia|done].
Qed.

(** The four formatters of the crate are one function. *)
Lemma day_parts ms :
  ms / 86400000 = ms / 1000 / 86400
  ∧ ms mod 86400000 / 3600000 = (ms / 1000) mod 86400 / 3600
  ∧ ms mod 86400000 mod 3600000 / 60000 = (ms / 1000) mod 86400 mod 3600 / 60
  ∧ ms mod 86400000 mod 60000 / 1000 = (ms / 1000) mod 86400 mod 60
  ∧ ms mod 86400000 mod 1000 = ms mod 1000
  ∧ (ms / 1000) mod 86400 mod 3600 / 60 = ((ms / 1000) mod 86400 / 60) mod 60.
Proof. split_and!; Z.to_euclidean_division_equations; lia. Qed.

Lemma civil_copies days :
  Account.civil_from_days days = civil_from_days days
  ∧ Migrations.civil_from_days days = civil_from_days days.
Proof.
  destruct (civil_from_days days) as [[y m] d] eqn:Ec.
  pose proof (civil_range _ _ _ _ Ec) as [Hm Hd].
  unfold civil_from_days in Ec. injection Ec as <- <- <-.
  unfold Account.civil_from_days, Migrations.civil_from_days, Account.u32_or_1.
  rewrite !(proj2 (Z.leb_le 0 _)), !(proj2 (Z.ltb_lt _ (2 ^ 32))) by lia. cbn [andb].
  split; f_equal; f_equal; destruct (_ <=? 2); lia.
Qed.

(** the four copies of the timestamp formatter (blob bytes and streams,
    accounts, jobs, migrations) produce the same text for every instant. *)
Theorem iso_formatters_agree ms :
  epoch_ms_to_iso ms = iso_from_epoch_ms ms
  ∧ Account.iso_from_epoch_ms ms = iso_from_epoch_ms ms
  ∧ Migrations.epoch_ms_to_iso8601 ms = iso_from_epoch_ms ms.
Proof.
  destruct (civil_copies (ms / 86400000)) as [Ha Hm].
  destruct (day_parts ms) as (H1 & H2 & H3 & H4 & H5 & H6).
  split; [done|]. unfold iso_from_epoch_ms, Account.iso_from_epoch_ms,
    Migrations.epoch_ms_to_iso8601.
  rewrite <- H1, Ha, Hm, H2, H3, H4, H5, <- H6. done.
Qed.

(** timestamps round trip: over the years 0000 to 9999 the parser of the
    stores reads back exactly the instant the formatter wrote. *)
Theorem iso_roundtrip ms :
  in_four_digit_years ms → parse_iso_ms_opt (iso_from_epoch_ms ms) = Some ms.
Proof. apply iso_roundtrip_eq. Qed.

(** text order is time order: over the years 0000 to 9999 comparing two
    stored timestamps as text (what the SQL gates [available_at <= ?] and
    [created_at < ?] do) is comparing the instants. *)
Theorem iso_text_order a b :
  in_four_digit_years a → in_four_digit_years b →
  Str.leb (iso_from_epoch_ms a) (iso_from_epoch_ms b) = (a <=? b).
Proof. apply iso_order_eq. Qed.

Lemma iso_roundtrip_witness :
  parse_iso_ms_opt "2024-02-29T12:34:56.789Z" = Some 1709210096789.
Proof.
  change "2024-02-29T12:34:56.789Z" with (iso_from_epoch_ms 1709210096789).
  apply (iso_roundtrip 1709210096789). unfold in_four_digit_years. lia.
Defined.

Lemma iso_text_order_witness :
  Str.leb (iso_from_epoch_ms 1709251199999) (iso_from_epoch_ms 1709251200000) = true.
Proof.
  apply (iso_text_order 1709251199999 1709251200000); unfold in_four_digit_years; lia.
Defined.
