(* ===== verification/Text.v ===== *)
(** * Text: the string functions of the authentication code

    [str::split], [split_once], [rsplit_once], [split_whitespace], [contains],
    [parse] and their laws, on the UTF-8 bytes a [string] holds. Separators are
    ASCII, so cutting at a byte cuts at a character. *)

From Stdlib Require Import ZArith Lia Ascii String.
From stdpp Require Import base strings list pretty.
From S2P Require Import Prelude Timestamp.

(** [s.split(c)]: always at least one piece. *)
Fixpoint split (c : ascii) (s : string) : list string :=
  match s with
  | EmptyString => [EmptyString]
  | String a s' =>
      if Ascii.eqb a c then EmptyString :: split c s'
      else match split c s' with
           | piece :: pieces => String a piece :: pieces
           | [] => [String a EmptyString]
           end
  end.
(** [pieces.join(c)]. *)
Fixpoint join (c : string) (pieces : list string) : string :=
  match pieces with
  | [] => EmptyString
  | [p] => p
  | p :: ps => p +:+ c +:+ join c ps
  end.

(** [s.split_once(c)] and [s.rsplit_once(c)]. *)
Fixpoint split_once (c : ascii) (s : string) : option (string * string) :=
  match s with
  | EmptyString => None
  | String a s' =>
      if Ascii.eqb a c then Some (EmptyString, s')
      else match split_once c s' with Some (x, y) => Some (String a x, y) | None => None end
  end.
Fixpoint rsplit_once (c : ascii) (s : string) : option (string * string) :=
  match s with
  | EmptyString => None
  | String a s' =>
      match rsplit_once c s' with
      | Some (x, y) => Some (String a x, y)
      | None => if Ascii.eqb a c then Some (EmptyString, s') else None
      end
  end.

(** [s.contains(c)] for a character and for a text. *)
Fixpoint has_char (c : ascii) (s : string) : bool :=
  match s with EmptyString => false | String a s' => Ascii.eqb a c || has_char c s' end.
Definition contains_str (needle s : string) : bool :=
  bool_decide (is_Some (String.index 0 needle s)).

(** [s.replace(c, d)] for single characters. *)
Fixpoint replace_char (c d : ascii) (s : string) : string :=
  match s with
  | EmptyString => EmptyString
  | String a s' => String (if Ascii.eqb a c then d else a) (replace_char c d s')
  end.

(** [s.chars().any(char::is_whitespace)]. *)
Fixpoint has_ws (s : string) : bool :=
  match s with
  | EmptyString => false
  | String a s' => bool_decide (is_Some (Str.strip_ws s)) || has_ws s'
  end.

(** [s.split_whitespace()]; [skip] counts the bytes left of a white-space
    character that has been seen, [word] is the word read so far. *)
Fixpoint split_whitespace_from (skip : nat) (word : string) (s : string) : list string :=
  let flush rest := if Str.is_empty word then rest else word :: rest in
  match s with
  | EmptyString => flush []
  | String a s' =>
      match skip with
      | S k => split_whitespace_from k word s'
      | O =>
          match Str.strip_ws s with
          | Some rest =>
              flush (split_whitespace_from (String.length s - String.length rest - 1) EmptyString s')
          | None => split_whitespace_from 0 (word +:+ String a EmptyString) s'
          end
      end
  end.
Definition split_whitespace (s : string) : list string := split_whitespace_from 0 EmptyString s.

(** [s.parse::<u32>()] and [s.parse::<usize>()]: an optional plus sign, then
    digits, within the type. *)
Definition u32_max : Z := 2 ^ 32 - 1.
Definition usize_max : Z := 2 ^ 64 - 1.
Definition parse_uint (max : Z) (s : string) : option Z :=
  let digits := match s with String a s' => if Ascii.eqb a "+" then s' else s | EmptyString => s end in
  if Str.is_empty digits then None
  else match parse_digits (Str.bytes digits) with
       | Some n => if n <=? max then Some n else None
       | None => None
       end.

(** ** Laws *)

Lemma string_app_assoc a b c : (a +:+ b) +:+ c = a +:+ (b +:+ c).
Proof. induction a as [|x a IH]; [done|]. exact (f_equal (String x) IH). Qed.

Lemma has_char_app c a b : has_char c (a +:+ b) = has_char c a || has_char c b.
Proof. induction a as [|x a IH]; [done|]. simpl. rewrite IH. by rewrite orb_assoc. Qed.

Lemma split_one c s : has_char c s = false → split c s = [s].
Proof.
  induction s as [|a s IH]; [done|]. simpl. intros [-> H]%orb_false_iff. by rewrite IH.
Qed.
Lemma split_app c p s : has_char c p = false → split c (p +:+ String c s) = p :: split c s.
Proof.
  induction p as [|a p IH]; simpl; [by rewrite Ascii.eqb_refl|].
  intros [-> H]%orb_false_iff. by rewrite IH.
Qed.
(** Joined pieces without the separator split again into the pieces. *)
Lemma split_join c pieces :
  pieces ≠ [] → Forall (λ p, has_char c p = false) pieces →
  split c (join (String c EmptyString) pieces) = pieces.
Proof.
  intros Hne H. induction H as [|p ps Hp Hps IH]; [done|].
  destruct ps as [|q ps]; [by apply split_one|].
  change (join _ (p :: q :: ps)) with (p +:+ String c (join (String c "") (q :: ps))).
  rewrite split_app by done. f_equal. by apply IH.
Qed.

Lemma split_once_app c a b : has_char c a = false → split_once c (a +:+ String c b) = Some (a, b).
Proof.
  induction a as [|x a IH]; simpl; [by rewrite Ascii.eqb_refl|].
  intros [-> H]%orb_false_iff. by rewrite IH.
Qed.
Lemma split_once_spec c s :
  match split_once c s with
  | Some (a, b) => s = a +:+ String c b ∧ has_char c a = false
  | None => has_char c s = false
  end.
Proof.
  induction s as [|x s IH]; [done|]. simpl. destruct (Ascii.eqb_spec x c) as [->|Hx]; [done|].
  destruct (split_once c s) as [[a b]|]; [|done]. destruct IH as [-> Ha]. split; [done|].
  simpl. rewrite Ha. by destruct (Ascii.eqb_spec x c).
Qed.
Lemma rsplit_once_spec c s :
  match rsplit_once c s with
  | Some (a, b) => s = a +:+ String c b ∧ has_char c b = false
  | None => has_char c s = false
  end.
Proof.
  induction s as [|x s IH]; [done|]. simpl. destruct (rsplit_once c s) as [[a b]|].
  - destruct IH as [-> Hb]. done.
  - destruct (Ascii.eqb_spec x c) as [->|Hx]; done.
Qed.

Lemma to_lowercase_app a b : Str.to_lowercase (a +:+ b) = Str.to_lowercase a +:+ Str.to_lowercase b.
Proof. induction a as [|x a IH]; [done|]. exact (f_equal (String (Str.lower_ascii x)) IH). Qed.

(** ** Printed numbers *)

Lemma parse_zeros n l : parse_digits_from 0 (replicate n 48 ++ l) = parse_digits_from 0 l.
Proof. by induction n. Qed.

Lemma pretty_pos_digits p :
  Str.is_empty (pretty (N.pos p)) = false
  ∧ ∃ w n, 0 ≤ Z.pos p < 10 ^ Z.of_nat w
    ∧ replicate n 48 ++ Str.bytes (pretty (N.pos p)) = digs w (Z.pos p).
Proof.
  rewrite pretty_N_as_go by done.
  assert (Hw : Z.of_N (N.pos p) < 10 ^ Z.of_nat (Z.to_nat (Z.pos p))).
  { simpl. rewrite Z2Nat.id by lia. apply Z.pow_gt_lin_r; lia. }
  destruct (pretty_N_go_digs _ _ "" Hw) as [Hl He].
  simpl in He. rewrite Nat.add_0_r, app_nil_r in He. split; [|do 2 eexists; by split].
  destruct (pretty_N_go (N.pos p) "") eqn:E; [|done]. exfalso. simpl in He. rewrite app_nil_r in He.
  pose proof (parse_digits_digs _ (Z.pos p) 0 (conj (Pos2Z.is_nonneg p) Hw)) as Hp.
  rewrite <- He, <- (app_nil_r (replicate _ _)), parse_zeros in Hp. simpl in Hp. by simplify_eq.
Qed.

Lemma fmt_digits z b : 0 ≤ z → b ∈ Str.bytes (fmt z) → is_digit b = true.
Proof.
  intros Hz. destruct z as [|p|p]; [|change (fmt (Z.pos p)) with (pretty (N.pos p))|lia].
  - cbn. rewrite list_elem_of_singleton. by intros ->.
  - destruct (pretty_pos_digits p) as (_ & w & n & _ & He). intros Hb.
    apply (digs_is_digit w (Z.pos p)). rewrite <- He. apply elem_of_app. by right.
Qed.
Lemma has_char_bytes c s : has_char c s = true ↔ Str.byte c ∈ Str.bytes s.
Proof.
  induction s as [|a s IH]; simpl; [split; [done|by inversion 1]|].
  rewrite orb_true_iff, IH, elem_of_cons, Ascii.eqb_eq. unfold Str.byte. split; intros [H|H]; auto.
  - left. by rewrite H.
  - left. apply Nat2Z.inj in H. by rewrite <- (ascii_nat_embedding a), <- H, ascii_nat_embedding.
Qed.
(** A printed number has no separator in it. *)
Lemma fmt_no_char c z : 0 ≤ z → is_digit (Str.byte c) = false → has_char c (fmt z) = false.
Proof.
  intros Hz Hc. destruct (has_char c (fmt z)) eqn:E; [|done].
  apply has_char_bytes, fmt_digits in E; [congruence|done].
Qed.
(** [format!("{n}").parse() == Ok(n)]. *)
Lemma parse_fmt max z : 0 ≤ z ≤ max → parse_uint max (fmt z) = Some z.
Proof.
  intros [Hz Hm]. unfold parse_uint.
  assert (Str.is_empty (fmt z) = false ∧ parse_digits (Str.bytes (fmt z)) = Some z) as [Hn Hp].
  { destruct z as [|p|p]; [done| |lia]. change (fmt (Z.pos p)) with (pretty (N.pos p)).
    destruct (pretty_pos_digits p) as (Hn & w & n & Hw & He). split; [done|].
    unfold parse_digits. rewrite <- (parse_zeros n), He, (parse_digits_digs w) by done. done. }
  destruct (fmt z) as [|a s] eqn:E; [done|].
  destruct (Ascii.eqb_spec a "+") as [->|Ha].
  - assert (Hd : is_digit 43 = true); [|done]. apply (fmt_digits z); [done|]. rewrite E. by left.
  - rewrite Hn, Hp. by destruct (Z.leb_spec z max); [|lia].
Qed.
