(* ===== verification/StoreBase.v ===== *)
(** * Store errors and packed columns
      ([frick-store/src/error.rs], [frick-store/src/packed.rs])

    The error type every store returns with its [Display] text, the packed BLOB
    interface and the helpers of SQL tables the stores share. [rmp_serde] is
    outside the repository: a packed type is an instance of [PackedColumn],
    whose law is the only thing the stores rely on. *)

From Stdlib Require Import ZArith Lia Ascii String.
From stdpp Require Import base gmap strings list sorting pretty.
From S2P Require Import Prelude Value.

Inductive StoreError : Type :=
| Driver (msg : string)
| Migration (msg : string)
| MigrationChecksum (msg : string)
| MigrationRevision (msg : string)
| Store (msg : string)
| BlobStorage (msg : string)
| ObjectVersionConflict (tenant_id object_type object_id : string)
    (expected_version : option Z) (actual_version : Z)
| CrossAppAccess (requested_app_id owner_app_id tenant_id object_type object_id : string).
#[export] Instance StoreError_eq_dec : EqDecision StoreError.
Proof. solve_decision. Defined.

(** The [#[error(..)]] texts. *)
Definition StoreError_display (e : StoreError) : string :=
  match e with
  | Driver m | Migration m | MigrationChecksum m | MigrationRevision m | Store m
  | BlobStorage m => m
  | ObjectVersionConflict _ ty id expected actual =>
      "Version conflict on " +:+ ty +:+ "/" +:+ id +:+ ": expected "
      +:+ match expected with None => "create" | Some v => fmt v end
      +:+ ", actual " +:+ fmt actual
  | CrossAppAccess req own _ ty id =>
      "Cross-app access denied on " +:+ ty +:+ "/" +:+ id +:+ ": app '" +:+ req
      +:+ "' may not write a row owned by app '" +:+ own +:+ "'"
  end.

(** Byte strings: BLOB columns. *)
Definition blob : Type := list Z.

(** [encode_packed]/[decode_packed] at one type: [rmp_serde] with its law that
    decoding an encoding gives the value back. *)
Class PackedColumn (T : Type) := {
  encode_packed : T → result StoreError blob;
  decode_packed : blob → result StoreError T;
  decode_encode_packed : ∀ v b, encode_packed v = Ok b → decode_packed b = Ok v;
}.

(** [protocol_error]: the codec's message, verbatim. *)
Definition protocol_error (e : ProtocolError) : StoreError := Store (message e).

Definition without_record_id (value : Value) : Value :=
  match value with
  | VMap entries => VMap (List.filter (λ e, negb (key_is "id" e.1)) entries)
  | other => other
  end.

(** [SqlDriver::transaction]: the state is restored on error. *)
Definition transaction {S A} (body : M S StoreError A) : M S StoreError A := λ s,
  match body s with
  | (Ok a, s') => (Ok a, s')
  | (Err e, _) => (Err e, s)
  end.

(** ** Tables

    A table is its rows; a statement selects by a boolean [WHERE]. [ORDER BY] is
    an insertion sort on the ordering the clause names. *)

Definition select {R} (where_ : R → bool) (t : list R) : list R := List.filter where_ t.
Definition delete_where {R} (where_ : R → bool) (t : list R) : list R :=
  List.filter (λ r, negb (where_ r)) t.
Definition update_where {R} (where_ : R → bool) (f : R → R) (t : list R) : list R :=
  (λ r, if where_ r then f r else r) <$> t.
(** [result.changes]. *)
Definition changes {R} (where_ : R → bool) (t : list R) : Z :=
  Z.of_nat (length (select where_ t)).

Fixpoint insert_ordered {R} (le : R → R → bool) (r : R) (l : list R) : list R :=
  match l with
  | [] => [r]
  | x :: l' => if le x r then x :: insert_ordered le r l' else r :: l
  end.
Definition order_by {R} (le : R → R → bool) (l : list R) : list R :=
  foldl (λ acc r, insert_ordered le r acc) [] l.

Lemma elem_of_select {R} (w : R → bool) t r : r ∈ select w t ↔ r ∈ t ∧ w r = true.
Proof. unfold select. by rewrite !list_elem_of_In, filter_In. Qed.

Lemma select_sublist {R} (w : R → bool) t : sublist (select w t) t.
Proof.
  unfold select. induction t as [|x t IH]; simpl; [done|]. by destruct (w x); constructor.
Qed.

Lemma elem_of_delete_where {R} (w : R → bool) t r : r ∈ delete_where w t ↔ r ∈ t ∧ w r = false.
Proof. unfold delete_where. by rewrite !list_elem_of_In, filter_In, negb_true_iff. Qed.

Lemma changes_pos {R} (w : R → bool) t : 0 < changes w t ↔ ∃ r, r ∈ t ∧ w r = true.
Proof.
  unfold changes. setoid_rewrite <- elem_of_select. destruct (select w t) as [|x l]; simpl.
  - split; [lia|]. intros (r & Hr). by inversion Hr.
  - split; [intros _; exists x; set_solver|lia].
Qed.

Lemma insert_ordered_perm {R} (le : R → R → bool) r l : insert_ordered le r l ≡ₚ r :: l.
Proof.
  induction l as [|x l IH]; simpl; [done|]. destruct (le x r); [|done].
  rewrite IH. apply perm_swap.
Qed.

Lemma order_by_perm {R} (le : R → R → bool) l : order_by le l ≡ₚ l.
Proof.
  unfold order_by. assert (∀ acc, foldl (λ acc r, insert_ordered le r acc) acc l ≡ₚ l ++ acc) as H.
  { induction l as [|x l IH]; intros acc; simpl; [done|]. rewrite IH, insert_ordered_perm.
    by rewrite Permutation_middle. }
  rewrite H. by rewrite app_nil_r.
Qed.

Lemma elem_of_order_by {R} (le : R → R → bool) l r : r ∈ order_by le l ↔ r ∈ l.
Proof. by rewrite order_by_perm. Qed.

(** The result of [ORDER BY] is sorted when the ordering is total and
    transitive. *)
Lemma order_by_sorted {R} (le : R → R → bool) l :
  (∀ x y, le x y = true ∨ le y x = true) →
  (∀ x y z, le x y = true → le y z = true → le x z = true) →
  StronglySorted (λ x y, le x y = true) (order_by le l).
Proof.
  intros Htot Htr. unfold order_by.
  assert (∀ acc, StronglySorted (λ x y, le x y = true) acc →
    StronglySorted (λ x y, le x y = true) (foldl (λ acc r, insert_ordered le r acc) acc l)) as H.
  { induction l as [|x l IH]; intros acc Hacc; simpl; [done|]. apply IH. clear IH.
    induction acc as [|y acc IHa]; simpl; [repeat constructor|].
    apply StronglySorted_inv in Hacc as [Hs Hf]. destruct (le y x) eqn:E.
    - constructor; [by apply IHa|]. rewrite insert_ordered_perm. by constructor.
    - constructor; [by constructor|].
      assert (le x y = true) by (destruct (Htot x y); congruence).
      constructor; [done|]. eapply Forall_impl; [exact Hf|]. simpl. eauto. }
  apply H. constructor.
Qed.

(** Filtering an ordered result is ordering the filtered rows. *)
Lemma insert_ordered_select {R} (le : R → R → bool) (w : R → bool) r l :
  (∀ x y z, le x y = true → le y z = true → le x z = true) →
  StronglySorted (λ x y, le x y = true) l →
  select w (insert_ordered le r l)
  = if w r then insert_ordered le r (select w l) else select w l.
Proof.
  intros Htr. induction l as [|x l IH]; intros Hs; simpl; [by destruct (w r)|].
  apply StronglySorted_inv in Hs as [Hs Hf]. specialize (IH Hs).
  destruct (le x r) eqn:E; simpl.
  - rewrite IH. destruct (w x), (w r); simpl; by rewrite ?E.
  - destruct (w r) eqn:Ewr; [|done]. destruct (w x) eqn:Ewx; simpl; [by rewrite E|].
    enough (Forall (λ y, le y r = false) (select w l)) as Hall.
    { destruct (select w l) as [|y l']; simpl; [done|]. apply Forall_cons in Hall as [Hy _].
      by rewrite Hy. }
    apply Forall_forall. intros y [Hy _]%elem_of_select.
    rewrite Forall_forall in Hf. specialize (Hf y Hy).
    destruct (le y r) eqn:Ey; [|done]. by rewrite (Htr _ _ _ Hf Ey) in E.
Qed.

Lemma order_by_select {R} (le : R → R → bool) (w : R → bool) l :
  (∀ x y, le x y = true ∨ le y x = true) →
  (∀ x y z, le x y = true → le y z = true → le x z = true) →
  order_by le (select w l) = select w (order_by le l).
Proof.
  intros Htot Htr. induction l as [|x l IH] using rev_ind; [done|].
  unfold order_by, select in *. rewrite List.filter_app, foldl_snoc, foldl_app. simpl.
  fold (@select R w). pose proof (order_by_sorted le l Htot Htr) as Hs.
  fold (order_by le l). unfold select in IH. rewrite IH.
  pose proof (insert_ordered_select le w x (order_by le l) Htr Hs) as Hi. unfold select in Hi.
  change (@select R w) with (List.filter w). rewrite Hi. by destruct (w x).
Qed.
