(* ===== verification/Encryption.v ===== *)
(** * At-rest encryption ([frick-store/src/encryption.rs])

    The key providers and the envelope engine. HKDF, ChaCha20-Poly1305, base64
    and hex are crates outside the repository: they are the class [Crypto] with
    the laws of [CryptoLaws]; the random nonce and the environment are
    arguments. Sealed values are proved to open again (also after a key
    rotation, and only for their own tenant), and legacy plaintext to pass
    through. *)

From Stdlib Require Import ZArith Lia Ascii String.
From stdpp Require Import base gmap strings list pretty.
From S2P Require Import Prelude Value StoreBase.

(** ** Bytes and UTF-8 *)

Fixpoint of_bytes (bs : list Z) : string :=
  match bs with [] => EmptyString | b :: bs' => String (ascii_of_nat (Z.to_nat b)) (of_bytes bs') end.

Lemma of_bytes_bytes s : of_bytes (Str.bytes s) = s.
Proof.
  induction s as [|c s IH]; simpl; [done|]. unfold Str.byte.
  by rewrite Nat2Z.id, ascii_nat_embedding, IH.
Qed.

Definition cont (b : Z) : bool := (128 <=? b) && (b <=? 191).

(** [std::str::from_utf8(..).is_ok()]. *)
Fixpoint utf8_valid (bs : list Z) : bool :=
  match bs with
  | [] => true
  | a :: r1 =>
      if a <? 128 then utf8_valid r1
      else match r1 with
      | [] => false
      | b :: r2 =>
          if (194 <=? a) && (a <=? 223) then cont b && utf8_valid r2
          else match r2 with
          | [] => false
          | c :: r3 =>
              if (a =? 224) then (160 <=? b) && (b <=? 191) && cont c && utf8_valid r3
              else if (a =? 237) then (128 <=? b) && (b <=? 159) && cont c && utf8_valid r3
              else if (225 <=? a) && (a <=? 239) then cont b && cont c && utf8_valid r3
              else match r3 with
              | [] => false
              | d :: r4 =>
                  if (a =? 240) then (144 <=? b) && (b <=? 191) && cont c && cont d && utf8_valid r4
                  else if (241 <=? a) && (a <=? 243)
                  then cont b && cont c && cont d && utf8_valid r4
                  else if (a =? 244)
                  then (128 <=? b) && (b <=? 143) && cont c && cont d && utf8_valid r4
                  else false
              end
          end
      end
  end.

Fixpoint starts_with_bytes (p bs : list Z) : bool :=
  match p, bs with
  | [], _ => true
  | _ :: _, [] => false
  | x :: p', y :: bs' => (x =? y) && starts_with_bytes p' bs'
  end.

Lemma starts_with_bytes_app p bs : starts_with_bytes p (p ++ bs) = true.
Proof. induction p as [|x p IH]; simpl; [done|]. by rewrite Z.eqb_refl, IH. Qed.

(** ** The primitives *)

Class Crypto := {
  hkdf_sha256 : blob → blob → blob → option blob;              (* salt, key material, info *)
  aead_encrypt : blob → blob → blob → blob → option blob;      (* key, nonce, message, aad *)
  aead_decrypt : blob → blob → blob → blob → option blob;      (* key, nonce, ciphertext, aad *)
  base64_encode : blob → string;                               (* STANDARD_NO_PAD *)
  base64_decode : string → option blob;                        (* STANDARD_NO_PAD *)
  base64_decode_padded : string → option blob;                 (* STANDARD *)
  hex_decode : string → result string blob;
}.

(** What the crates document: decryption inverts encryption under the same key,
    nonce and associated data, a ciphertext carries a 16-byte tag, and different
    associated data fails authentication. *)
Class CryptoLaws `{Crypto} := {
  aead_correct : ∀ k n m a c, aead_encrypt k n m a = Some c → aead_decrypt k n c a = Some m;
  aead_tag : ∀ k n m a c, aead_encrypt k n m a = Some c → (16 ≤ length c)%nat;
  aead_auth : ∀ k n m a c k' a', aead_encrypt k n m a = Some c → a' ≠ a →
    aead_decrypt k' n c a' = None;
}.

(** ** Constants *)

Definition STORE_KEY_ENV : string := "FRICK_STORE_KEY".
Definition STORE_KEY_FALLBACK_ENV : string := "FRICK_AT_REST_KEY".
Definition STORE_KEY_ID_ENV : string := "FRICK_STORE_KEY_ID".
Definition STORE_KMS_COMMAND_ENV : string := "FRICK_STORE_KMS_COMMAND".
Definition DEFAULT_ENV_KEY_ID : string := "env-1".
Definition ENVELOPE_MAGIC : blob := Str.bytes "FRICKAE1".
Definition TEXT_ENVELOPE_PREFIX : string := "frickenc:v1:".
Definition NONCE_LEN : nat := 12.
Definition HKDF_SALT : blob := Str.bytes "frick-store-at-rest:v1".

Definition malformed (detail : string) : StoreError :=
  Store ("at-rest envelope malformed: " +:+ detail).

Definition validate_key_id (key_id : string) : result StoreError unit :=
  let n := Z.of_nat (String.length key_id) in
  if (n =? 0) || (255 <? n)
  then Err (Store ("at-rest key id must be 1..=255 bytes, got " +:+ fmt n))
  else Ok tt.

(** ** Key providers *)

(** The [KeyProvider] trait: the key id of new writes, and the lookup of a
    master key by id. *)
Record KeyProvider : Type := {
  active_key_id : option string;
  master_key : string → result StoreError (option blob);
}.

Section Providers.
Context `{Crypto}.

(** [std::env::var(name).ok().filter(|v| !v.trim().is_empty())]. *)
Definition env_var (env : string → option string) (name : string) : option string :=
  match env name with
  | Some v => if Str.is_empty (Str.trim v) then None else Some v
  | None => None
  end.

Record EnvKeyProvider : Type := { env_key_id : string; env_key : blob }.

Definition EnvKeyProvider_new (key_id : string) (key : blob) :
    result StoreError EnvKeyProvider :=
  validate_key_id key_id;;
  Ok {| env_key_id := key_id; env_key := key |}.

Definition is_ascii_hexdigit (c : Z) : bool :=
  ((48 <=? c) && (c <=? 57)) || ((65 <=? c) && (c <=? 70)) || ((97 <=? c) && (c <=? 102)).

Definition parse_key (value : string) : result StoreError blob :=
  let trimmed := Str.trim value in
  bytes ← (if Nat.eqb (String.length trimmed) 64 && forallb is_ascii_hexdigit (Str.bytes trimmed)
           then map_err (λ err, Store ("invalid hex at-rest key: " +:+ err)) (hex_decode trimmed)
           else ok_or (match base64_decode_padded trimmed with
                       | Some b => Some b | None => base64_decode trimmed end)
                  (Store "at-rest key must be 64 hex chars or base64 for 32 bytes"));
  if Nat.eqb (length bytes) 32 then Ok bytes
  else Err (Store ("at-rest key must decode to exactly 32 bytes, got "
                   +:+ fmt (Z.of_nat (length bytes)))).

Definition EnvKeyProvider_from_env (env : string → option string) :
    result StoreError (option EnvKeyProvider) :=
  match (match env_var env STORE_KEY_ENV with
         | Some v => Some v | None => env_var env STORE_KEY_FALLBACK_ENV end) with
  | None => Ok None
  | Some raw =>
      key ← parse_key raw;
      p ← EnvKeyProvider_new (default DEFAULT_ENV_KEY_ID (env_var env STORE_KEY_ID_ENV)) key;
      Ok (Some p)
  end.

(** [impl KeyProvider for EnvKeyProvider]. *)
Definition env_provider (p : EnvKeyProvider) : KeyProvider :=
  {| active_key_id := Some (env_key_id p);
     master_key key_id :=
       if String.eqb key_id (env_key_id p) then Ok (Some (env_key p)) else Ok None |}.

Definition env_key_is_present (env : string → option string) : bool :=
  bool_decide (is_Some (env_var env STORE_KEY_ENV))
  || bool_decide (is_Some (env_var env STORE_KEY_FALLBACK_ENV)).

(** ** The KMS helper provider: a cache over a command *)

Record CommandKeyProvider : Type := {
  ckp_active_key_id : string;
  ckp_executable : string;
  ckp_args : list string;
  ckp_cache : gmap string blob;
}.

Definition CommandKeyProvider_new (active executable : string) (is_absolute : bool)
    (args : list string) : result StoreError CommandKeyProvider :=
  validate_key_id active;;
  if negb is_absolute
  then Err (Store (STORE_KMS_COMMAND_ENV +:+ " must be an absolute executable path"))
  else Ok {| ckp_active_key_id := active; ckp_executable := executable; ckp_args := args;
             ckp_cache := ∅ |}.

(** The outcome of running the helper on a key id: it could not start, it
    exited with a failure status, or it printed bytes. *)
Inductive HelperOutput : Type :=
| HelperSpawnError (error : string)
| HelperFailed (status : string)
| HelperStdout (stdout : blob).

Definition resolve_key (helper : string → HelperOutput) (key_id : string) :
    M CommandKeyProvider StoreError blob := λ p,
  match validate_key_id key_id with
  | Err e => (Err e, p)
  | Ok _ =>
      match ckp_cache p !! key_id with
      | Some key => (Ok key, p)
      | None =>
          match helper key_id with
          | HelperSpawnError error =>
              (Err (Store ("KMS key helper could not execute for key id '" +:+ key_id +:+ "': "
                           +:+ error)), p)
          | HelperFailed status =>
              (Err (Store ("KMS key helper failed for key id '" +:+ key_id +:+ "' with status "
                           +:+ status +:+ " (stderr redacted)")), p)
          | HelperStdout out =>
              if 256 <? Z.of_nat (length out)
              then (Err (Store ("KMS key helper returned oversized output for key id '"
                                +:+ key_id +:+ "'")), p)
              else if negb (utf8_valid out)
              then (Err (Store ("KMS key helper output for key id '" +:+ key_id
                                +:+ "' was not UTF-8")), p)
              else match parse_key (of_bytes out) with
              | Err _ =>
                  (Err (Store ("KMS key helper output for key id '" +:+ key_id
                               +:+ "' was not a 32-byte hex/base64 key")), p)
              | Ok key =>
                  (Ok key, {| ckp_active_key_id := ckp_active_key_id p;
                              ckp_executable := ckp_executable p; ckp_args := ckp_args p;
                              ckp_cache := <[key_id := key]> (ckp_cache p) |})
              end
          end
      end
  end.

(** ** The engine *)

Definition envelope_aad (tenant_id key_id : string) : string :=
  "frick-store-at-rest:v1:" +:+ tenant_id +:+ ":" +:+ key_id.

Definition tenant_cipher (e : KeyProvider) (key_id tenant_id : string) : result StoreError blob :=
  found ← master_key e key_id;
  master ← ok_or found (Store ("at-rest key id '" +:+ key_id
                               +:+ "' is unknown to the configured key provider"));
  ok_or (hkdf_sha256 HKDF_SALT master (Str.bytes tenant_id))
    (Store "at-rest tenant key derivation failed").

Definition encrypt (e : KeyProvider) (nonce : blob) (tenant_id : string) (plaintext : blob) :
    result StoreError blob :=
  match active_key_id e with
  | None => Ok plaintext
  | Some key_id =>
      validate_key_id key_id;;
      cipher ← tenant_cipher e key_id tenant_id;
      ciphertext ← ok_or (aead_encrypt cipher nonce plaintext
                            (Str.bytes (envelope_aad tenant_id key_id)))
                     (Store "at-rest encryption failed");
      if 255 <? Z.of_nat (String.length key_id) then Err (Store "at-rest key id too long")
      else Ok (ENVELOPE_MAGIC ++ [Z.of_nat (String.length key_id)] ++ Str.bytes key_id ++ nonce
               ++ ciphertext)
  end.

Definition decrypt (e : KeyProvider) (tenant_id : string) (stored : blob) :
    result StoreError blob :=
  if negb (starts_with_bytes ENVELOPE_MAGIC stored) then Ok stored
  else match drop (length ENVELOPE_MAGIC) stored with
  | [] => Err (malformed "missing key id length")
  | len :: body =>
      let key_id_len := Z.to_nat len in
      if Nat.eqb key_id_len 0 || Nat.ltb (length body) (key_id_len + NONCE_LEN + 1)
      then Err (malformed "truncated envelope")
      else
        let key_id_bytes := take key_id_len body in
        let rest := drop key_id_len body in
        if negb (utf8_valid key_id_bytes) then Err (malformed "key id is not UTF-8")
        else
          let key_id := of_bytes key_id_bytes in
          let nonce := take NONCE_LEN rest in
          let ciphertext := drop NONCE_LEN rest in
          cipher ← tenant_cipher e key_id tenant_id;
          ok_or (aead_decrypt cipher nonce ciphertext (Str.bytes (envelope_aad tenant_id key_id)))
            (Store ("at-rest decryption failed for key '" +:+ key_id
                    +:+ "': wrong key, wrong tenant, or corrupted value"))
  end.

Definition is_active (e : KeyProvider) : bool := bool_decide (is_Some (active_key_id e)).

Definition encrypt_text (e : KeyProvider) (nonce : blob) (tenant_id plaintext : string) :
    result StoreError string :=
  if negb (is_active e) then Ok plaintext
  else envelope ← encrypt e nonce tenant_id (Str.bytes plaintext);
       Ok (TEXT_ENVELOPE_PREFIX +:+ base64_encode envelope).

(** [str::strip_prefix]. *)
Fixpoint strip_prefix (p s : string) : option string :=
  match p, s with
  | EmptyString, _ => Some s
  | String _ _, EmptyString => None
  | String a p', String b s' => if Ascii.eqb a b then strip_prefix p' s' else None
  end.

Definition decrypt_text (e : KeyProvider) (tenant_id stored : string) :
    result StoreError string :=
  match strip_prefix TEXT_ENVELOPE_PREFIX stored with
  | None => Ok stored
  | Some encoded =>
      envelope ← ok_or (match base64_decode encoded with
                        | Some b => Some b | None => base64_decode_padded encoded end)
                   (malformed "text envelope is not base64");
      plaintext ← decrypt e tenant_id envelope;
      if utf8_valid plaintext then Ok (of_bytes plaintext)
      else Err (malformed "decrypted text is not UTF-8")
  end.
End Providers.

(** ** Theorems *)

Lemma validate_key_id_Ok k :
  validate_key_id k = Ok tt ↔ 1 ≤ Z.of_nat (String.length k) ≤ 255.
Proof. unfold validate_key_id. rewrite if_Ok, orb_false_iff, Z.eqb_neq, Z.ltb_ge. naive_solver lia. Qed.

Lemma length_bytes_nat s : length (Str.bytes s) = String.length s.
Proof. induction s as [|c s IH]; [done|]. simpl. by rewrite IH. Qed.

Lemma bytes_inj a b : Str.bytes a = Str.bytes b → a = b.
Proof. intros H. by rewrite <- (of_bytes_bytes a), H, of_bytes_bytes. Qed.

Lemma bytes_string_app a b : Str.bytes (a +:+ b) = Str.bytes a ++ Str.bytes b.
Proof. induction a as [|c a IH]; [done|]. simpl. by rewrite <- IH. Qed.

Lemma envelope_aad_inj t t' k :
  Str.bytes (envelope_aad t k) = Str.bytes (envelope_aad t' k) → t = t'.
Proof.
  unfold envelope_aad. rewrite !bytes_string_app. intros H.
  apply app_inv_head in H. rewrite !app_assoc in H.
  apply app_inv_tail in H. apply app_inv_tail in H. by apply bytes_inj.
Qed.

Section EngineSpec.
Context `{CryptoLaws}.

(** Opening an envelope reads back the key id, nonce and ciphertext that were
    written. *)
Lemma decrypt_envelope e tenant k nonce c :
  1 ≤ Z.of_nat (String.length k) ≤ 255 → utf8_valid (Str.bytes k) = true →
  length nonce = NONCE_LEN → (16 ≤ length c)%nat →
  decrypt e tenant (ENVELOPE_MAGIC ++ [Z.of_nat (String.length k)] ++ Str.bytes k ++ nonce ++ c)
  = (cipher ← tenant_cipher e k tenant;
     ok_or (aead_decrypt cipher nonce c (Str.bytes (envelope_aad tenant k)))
       (Store ("at-rest decryption failed for key '" +:+ k
               +:+ "': wrong key, wrong tenant, or corrupted value"))).
Proof using Type.
  intros Hk Hu Hn Hc. unfold decrypt. rewrite starts_with_bytes_app. cbn [negb].
  rewrite drop_app_length. cbn [app]. rewrite Nat2Z.id.
  rewrite (proj2 (Nat.eqb_neq _ _)) by lia. cbn [orb].
  rewrite (proj2 (Nat.ltb_ge _ _)) by (rewrite !length_app, length_bytes_nat, Hn; lia).
  rewrite <- (length_bytes_nat k), take_app_length, drop_app_length, Hu, of_bytes_bytes.
  cbn [negb]. rewrite <- Hn, take_app_length, drop_app_length. done.
Qed.

Lemma encrypt_envelope e nonce tenant p s k :
  active_key_id e = Some k → encrypt e nonce tenant p = Ok s →
  1 ≤ Z.of_nat (String.length k) ≤ 255
  ∧ ∃ cipher c, tenant_cipher e k tenant = Ok cipher
    ∧ aead_encrypt cipher nonce p (Str.bytes (envelope_aad tenant k)) = Some c
    ∧ s = ENVELOPE_MAGIC ++ [Z.of_nat (String.length k)] ++ Str.bytes k ++ nonce ++ c.
Proof using Type.
  unfold encrypt. intros ->. rewrite bind_unit_Ok, validate_key_id_Ok, bind_Ok.
  intros (Hk & cipher & Hc & Hr). rewrite bind_Ok in Hr. destruct Hr as (c & Ha & Hr).
  rewrite if_Ok in Hr. destruct Hr as [_ [= <-]]. split; [done|].
  exists cipher, c. split_and!; try done. by destruct (aead_encrypt _ _ _ _); simplify_eq/=.
Qed.

Lemma decrypt_sealed e e' nonce tenant p s k :
  active_key_id e = Some k → utf8_valid (Str.bytes k) = true → length nonce = NONCE_LEN →
  master_key e' k = master_key e k → encrypt e nonce tenant p = Ok s → decrypt e' tenant s = Ok p.
Proof using Type*.
  intros Ha Hu Hn Hm Hs. destruct (encrypt_envelope _ _ _ _ _ _ Ha Hs) as (Hk & cipher & c & Hc & Hae & ->).
  rewrite decrypt_envelope by (done || by eapply aead_tag).
  assert (tenant_cipher e' k tenant = Ok cipher) as ->
    by (unfold tenant_cipher in *; by rewrite Hm).
  cbn [mbind result_bind]. by rewrite (aead_correct _ _ _ _ _ Hae).
Qed.

(** C34: a sealed value opens: whatever [encrypt] stores for a tenant under
    the active key, [decrypt] returns the plaintext, also through another
    provider (after a rotation) as long as it still resolves the sealing key
    id to the same master key; and a value without the envelope magic is
    returned verbatim (legacy plaintext). *)
Theorem decrypt_encrypt e e' nonce tenant p s k :
  active_key_id e = Some k → utf8_valid (Str.bytes k) = true → length nonce = NONCE_LEN →
  master_key e' k = master_key e k →
  encrypt e nonce tenant p = Ok s →
  decrypt e' tenant s = Ok p
  ∧ (∀ t legacy, starts_with_bytes ENVELOPE_MAGIC legacy = false → decrypt e' t legacy = Ok legacy).
Proof using Type*.
  intros Ha Hu Hn Hm Hs. split; [by eapply decrypt_sealed|].
  intros t legacy Hl. unfold decrypt. by rewrite Hl.
Qed.

(** a sealed value never opens for another tenant: moving an envelope to
    a different tenant makes [decrypt] fail, whatever the provider. *)
Theorem decrypt_other_tenant e e' nonce tenant tenant' p s k :
  active_key_id e = Some k → utf8_valid (Str.bytes k) = true → length nonce = NONCE_LEN →
  tenant' ≠ tenant → encrypt e nonce tenant p = Ok s →
  ∃ err, decrypt e' tenant' s = Err err.
Proof using Type*.
  intros Ha Hu Hn Ht Hs.
  destruct (encrypt_envelope _ _ _ _ _ _ Ha Hs) as (Hk & cipher & c & Hc & Hae & ->).
  rewrite decrypt_envelope by (done || by eapply aead_tag).
  destruct (tenant_cipher e' k tenant') as [cipher'|err];
    cbn [mbind result_bind]; [|by eauto].
  rewrite (aead_auth _ _ _ _ _ cipher' (Str.bytes (envelope_aad tenant' k)) Hae).
  - simpl. eauto.
  - intros Heq%envelope_aad_inj. done.
Qed.

Lemma strip_prefix_app p s : strip_prefix p (p +:+ s) = Some s.
Proof using Type. induction p as [|a p IH]; [done|]. simpl. by rewrite Ascii.eqb_refl. Qed.

(** A TEXT column round trips the same way. *)
Lemma decrypt_encrypt_text e nonce tenant p s k :
  active_key_id e = Some k → utf8_valid (Str.bytes k) = true → length nonce = NONCE_LEN →
  utf8_valid (Str.bytes p) = true →
  (∀ b, encrypt e nonce tenant (Str.bytes p) = Ok b →
        base64_decode (base64_encode b) = Some b) →
  encrypt_text e nonce tenant p = Ok s → decrypt_text e tenant s = Ok p.
Proof using Type*.
  intros Ha Hu Hn Hp Hb64. unfold encrypt_text, is_active.
  rewrite bool_decide_true by (rewrite Ha; eauto). cbn [negb]. rewrite bind_Ok.
  intros (env & He & [= <-]). unfold decrypt_text. rewrite strip_prefix_app, (Hb64 _ He).
  cbn [ok_or mbind result_bind]. destruct (encrypt_envelope _ _ _ _ _ _ Ha He) as (Hk & cipher & c & Hc & Hae & ->).
  rewrite decrypt_envelope by (done || by eapply aead_tag). rewrite Hc.
  cbn [mbind result_bind]. rewrite (aead_correct _ _ _ _ _ Hae). simpl. by rewrite Hp, of_bytes_bytes.
Qed.
End EngineSpec.

(** ** Packed columns under the engine *)

(** What the engine needs of a packed type: a textual key id, and encodings that
    cannot be mistaken for an envelope (they start with a msgpack header). *)
Definition engine_ok {T} `{PackedColumn T} (encryption : option KeyProvider) : Prop :=
  (∀ e k, encryption = Some e → active_key_id e = Some k → utf8_valid (Str.bytes k) = true)
  ∧ (∀ (r : T) b, encode_packed r = Ok b → starts_with_bytes ENVELOPE_MAGIC b = false).

Lemma open_sealed {T} `{PackedColumn T, CryptoLaws} encryption
    (Hengine : engine_ok (T := T) encryption) nonce tenant (r : T) encoded b :
  length nonce = NONCE_LEN → encode_packed r = Ok encoded →
  match encryption with Some e => encrypt e nonce tenant encoded | None => Ok encoded end = Ok b →
  match encryption with Some e => decrypt e tenant b | None => Ok b end = Ok encoded.
Proof.
  destruct Hengine as [Hk Hplain]. intros Hn He Hs.
  destruct encryption as [e|]; [|by simplify_eq].
  destruct (active_key_id e) as [k|] eqn:Ea.
  - eapply decrypt_sealed; eauto.
  - unfold encrypt in Hs. rewrite Ea in Hs. injection Hs as <-.
    unfold decrypt. by rewrite (Hplain _ _ He).
Qed.

(** The helper runs at most once per key id: a resolved key is served from the
    cache whatever the helper would answer later. *)
Lemma resolve_key_cached `{Crypto} helper helper' key_id p key p' :
  resolve_key helper key_id p = (Ok key, p') →
  resolve_key helper' key_id p' = (Ok key, p').
Proof.
  unfold resolve_key. destruct (validate_key_id key_id); [|done].
  destruct (ckp_cache p !! key_id) as [k|] eqn:E.
  - intros [= -> <-]. by rewrite E.
  - destruct (helper key_id) as [| |out]; [done..|].
    destruct (256 <? _); [done|]. destruct (negb _); [done|].
    destruct (parse_key _) as [k|]; [|done]. intros [= -> <-]. cbn [ckp_cache].
    by rewrite lookup_insert_eq.
Qed.

(** ** An instance of the primitives, for concrete evaluation *)

Module ToyCrypto.
(** The length-prefixed associated data, the message and a 16-byte tail. *)
Definition seal (k n m a : blob) : option blob :=
  Some (Z.of_nat (length a) :: a ++ m ++ replicate 16 0).
Definition open (k n c a : blob) : option blob :=
  match c with
  | l :: r =>
      if bool_decide (l = Z.of_nat (length a)) && bool_decide (take (length a) r = a)
      then Some (take (length r - length a - 16) (drop (length a) r)) else None
  | [] => None
  end.
#[export] Instance crypto : Crypto := {|
  hkdf_sha256 salt ikm info := Some ikm;
  aead_encrypt := seal; aead_decrypt := open;
  base64_encode := of_bytes; base64_decode s := Some (Str.bytes s);
  base64_decode_padded s := Some (Str.bytes s);
  hex_decode s := Ok (Str.bytes s) |}.

#[export] Instance laws : CryptoLaws.
Proof.
  split.
  - intros k n m a c [= <-]. unfold aead_decrypt, crypto, open.
    rewrite !bool_decide_true; [|by rewrite take_app_length|done]. cbn [andb].
    rewrite drop_app_length.
    match goal with |- context [take ?n _] =>
      replace n with (length m) by (rewrite !length_app; simpl; lia) end.
    by rewrite take_app_length.
  - intros k n m a c [= <-]. simpl. rewrite !length_app. simpl. lia.
  - intros k n m a c k' a' [= <-] Ha. unfold aead_decrypt, crypto, open.
    case_bool_decide as Hl; [|done]. cbn [andb]. rewrite bool_decide_false; [done|].
    assert (length a' = length a) as Hl' by lia. rewrite Hl', take_app_length. congruence.
Qed.

Definition provider : KeyProvider :=
  env_provider {| env_key_id := "k1"; env_key := replicate 32 7 |}.
End ToyCrypto.
Import ToyCrypto.

Lemma decrypt_encrypt_witness :
  decrypt provider "t1"
    (ENVELOPE_MAGIC ++ [2] ++ [107; 49] ++ replicate 12 0
     ++ default [] (seal [] [] [1; 2; 3] (Str.bytes (envelope_aad "t1" "k1"))))
  = Ok [1; 2; 3].
Proof.
  refine (proj1 (decrypt_encrypt provider provider (replicate 12 0) "t1"
    [1; 2; 3] _ "k1" _ _ _ _ _)); reflexivity.
Defined.

Lemma decrypt_other_tenant_witness :
  ∃ err, decrypt provider "t2"
    (ENVELOPE_MAGIC ++ [2] ++ [107; 49] ++ replicate 12 0
     ++ default [] (seal [] [] [1; 2; 3] (Str.bytes (envelope_aad "t1" "k1")))) = Err err.
Proof.
  refine (decrypt_other_tenant provider provider (replicate 12 0) "t1" "t2"
    [1; 2; 3] _ "k1" _ _ _ _ _); [reflexivity..|discriminate|reflexivity].
Defined.
