(* ===== verification/Samples.v ===== *)
(** * Concrete instances

    Packed-column encodings and an engine on which the stores are evaluated. They
    show that the interfaces [PackedColumn], [CryptoLaws] and [engine_ok] can be
    met; no theorem depends on them. *)

From Stdlib Require Import ZArith Lia Ascii String.
From stdpp Require Import base gmap strings list pretty.
From S2P Require Import Prelude Value Schema Codec StoreBase Encryption.

(** A packed-record encoding for evaluation: the type id, the record id and the
    fields that hold text, length-prefixed. *)
Module ToyPacked.
Definition enc_str (s : string) : blob := Z.of_nat (String.length s) :: Str.bytes s.
Definition enc_field (f : PackedField) : option blob :=
  match f.2 with VStr s => Some (f.1 :: enc_str s) | _ => None end.
Fixpoint enc_fields (fs : list PackedField) : option blob :=
  match fs with
  | [] => Some []
  | f :: fs' => b ← enc_field f; r ← enc_fields fs'; Some (b ++ r)
  end.
Definition encode (r : PackedRecord) : result StoreError blob :=
  match enc_fields r.2 with
  | Some b => Ok (147 :: r.1.1 :: enc_str r.1.2 ++ b)
  | None => Err (Driver "packed encode: unsupported")
  end.
Definition dec_str (b : blob) : option (string * blob) :=
  match b with
  | n :: b' => let k := Z.to_nat n in Some (of_bytes (take k b'), drop k b')
  | [] => None
  end.
Fixpoint dec_fields (fuel : nat) (b : blob) : option (list PackedField) :=
  match fuel, b with
  | _, [] => Some []
  | S fuel', i :: b' =>
      '(s, rest) ← dec_str b'; fs ← dec_fields fuel' rest; Some ((i, VStr s) :: fs)
  | O, _ => None
  end.
Definition decode (b : blob) : result StoreError PackedRecord :=
  match b with
  | _ :: ty :: b' =>
      match dec_str b' with
      | Some (rid, rest) =>
          match dec_fields (length rest) rest with
          | Some fs => Ok (ty, rid, fs)
          | None => Err (Driver "packed decode")
          end
      | None => Err (Driver "packed decode")
      end
  | _ => Err (Driver "packed decode")
  end.

Lemma dec_enc_str s r : dec_str (enc_str s ++ r) = Some (s, r).
Proof.
  unfold dec_str, enc_str. cbn [app]. rewrite Nat2Z.id, <- length_bytes_nat.
  by rewrite take_app_length, drop_app_length, of_bytes_bytes.
Qed.

Lemma dec_enc_fields fs b fuel :
  enc_fields fs = Some b → (length b ≤ fuel)%nat → dec_fields fuel b = Some fs.
Proof.
  revert b fuel. induction fs as [|[i v] fs IH]; intros b fuel; simpl.
  - intros [= <-] _. by destruct fuel.
  - unfold enc_field. simpl. destruct v as [| | | | |s| | | | |]; try done. simpl.
    destruct (enc_fields fs) as [r|] eqn:Er; [|done]. intros [= <-] Hf.
    destruct fuel as [|fuel]; [simpl in Hf; lia|].
    change (dec_fields (S fuel) (i :: (enc_str s ++ r)) = Some ((i, VStr s) :: fs)).
    cbn [dec_fields]. rewrite dec_enc_str. cbn [mbind option_bind].
    rewrite (IH r fuel eq_refl); [done|].
    simpl in Hf. rewrite length_app in Hf. lia.
Qed.

#[export, refine] Instance packed : PackedColumn PackedRecord :=
  {| encode_packed := encode; decode_packed := decode |}.
Proof.
  intros [[ty rid] fs] b. unfold encode. simpl. destruct (enc_fields fs) as [r|] eqn:E; [|done].
  intros [= <-].
  change (decode (147 :: ty :: (enc_str rid ++ r)) = Ok (ty, rid, fs)). unfold decode.
  rewrite dec_enc_str. by rewrite (dec_enc_fields fs r _ E).
Defined.
(** The same for stream events. *)
Definition encode_event (e : PackedStreamEvent) : result StoreError blob :=
  match enc_fields (pse_fields e) with
  | Some b => Ok (150 :: pse_stream_type e :: pse_sequence e :: pse_event_type e
                  :: enc_str (pse_stream_key e) ++ (enc_str (pse_event_id e) ++ b))
  | None => Err (Driver "packed encode: unsupported")
  end.
Definition decode_event (b : blob) : result StoreError PackedStreamEvent :=
  match b with
  | _ :: ty :: seq :: et :: b' =>
      match ('(k, r1) ← dec_str b'; '(i, r2) ← dec_str r1; fs ← dec_fields (length r2) r2;
             Some (k, i, fs)) with
      | Some (k, i, fs) =>
          Ok {| pse_stream_type := ty; pse_stream_key := k; pse_sequence := seq;
                pse_event_id := i; pse_event_type := et; pse_fields := fs |}
      | None => Err (Driver "packed decode")
      end
  | _ => Err (Driver "packed decode")
  end.

#[export, refine] Instance packed_event : PackedColumn PackedStreamEvent :=
  {| encode_packed := encode_event; decode_packed := decode_event |}.
Proof.
  intros [ty k seq i et fs] b. unfold encode_event. simpl.
  destruct (enc_fields fs) as [r|] eqn:E; [|done]. intros [= <-].
  change (decode_event (150 :: ty :: seq :: et :: (enc_str k ++ (enc_str i ++ r)))
          = Ok {| pse_stream_type := ty; pse_stream_key := k; pse_sequence := seq;
                  pse_event_id := i; pse_event_type := et; pse_fields := fs |}).
  unfold decode_event. rewrite dec_enc_str. cbn [mbind option_bind]. rewrite dec_enc_str.
  cbn [mbind option_bind]. by rewrite (dec_enc_fields fs r _ E).
Defined.

(** Values: texts and the empty map. *)
Definition encode_value (v : Value) : result StoreError blob :=
  match v with
  | VStr s => Ok (217 :: Str.bytes s)
  | VMap [] => Ok [128]
  | _ => Err (Driver "packed encode: unsupported")
  end.
Definition decode_value (b : blob) : result StoreError Value :=
  match b with
  | 217 :: s => Ok (VStr (of_bytes s))
  | [128] => Ok (VMap [])
  | _ => Err (Driver "packed decode")
  end.
#[export, refine] Instance packed_value : PackedColumn Value :=
  {| encode_packed := encode_value; decode_packed := decode_value |}.
Proof.
  intros v b. destruct v as [| | | | |s| | | |[|]|]; try done; intros [= <-]; [|done].
  simpl. by rewrite of_bytes_bytes.
Defined.

Definition enc : option KeyProvider := Some ToyCrypto.provider.
Definition nonce : blob := replicate 12 0.

Lemma enc_ok : engine_ok (T := PackedRecord) enc.
Proof.
  split.
  - intros e k [= <-] [= <-]. reflexivity.
  - intros [[ty rid] fs] b. simpl. unfold encode. destruct (enc_fields _); [|done].
    by intros [= <-].
Qed.
Lemma enc_event_ok : engine_ok (T := PackedStreamEvent) enc.
Proof.
  split.
  - intros e k [= <-] [= <-]. reflexivity.
  - intros p b. simpl. unfold encode_event. destruct (enc_fields _); [|done]. by intros [= <-].
Qed.
End ToyPacked.
