(* ===== verification/ObjectStore.v ===== *)
(** * The object store ([frick-store/src/stores/object.rs])

    The [objects] table has primary key [(tenant_id, object_type, object_id)];
    [app_id] is a column. The table is a finite map from that key to its row, so
    the primary key is built in; a read filters on [app_id] as the SQL does, and
    [write_row_packed] carries the cross-app guard. [upsert_with_policy] runs in
    one [BEGIN IMMEDIATE] transaction, which rolls back on error. *)

From Stdlib Require Import ZArith Lia Ascii String.
From stdpp Require Import base gmap strings list sorting pretty.
From S2P Require Import Prelude Value Schema Codec Timestamp StoreBase Encryption Samples.

Abbreviation object_key := (string * string * string)%type.

Record ObjectRow : Type := {
  or_app_id : string; or_version : Z; or_packed : blob; or_updated_at : string;
}.

Abbreviation ObjectTable := (gmap object_key ObjectRow).

Record ObjectUpsertResult : Type := {
  previous_version : Z; next_version : Z; created : bool;
}.
#[export] Instance ObjectUpsertResult_eq_dec : EqDecision ObjectUpsertResult.
Proof. solve_decision. Defined.

Definition object_field_eq (object : Value) (field expected : string) : bool :=
  match as_map object with
  | Some entries =>
      existsb (λ e, key_is field e.1
                    && match as_str e.2 with Some s => String.eqb s expected | None => false end)
        entries
  | None => false
  end.

Definition id_of_value (object : Value) : option string :=
  entries ← as_map object;
  v ← map_get "id" entries;
  as_str v.

Section ObjectStore.
Context `{PackedColumn PackedRecord, Crypto}.
(** The fields of [ObjectStore]: the schema and the optional engine. *)
Context (schema : FrickSchema) (encryption : option KeyProvider).

Definition pack (nonce : blob) (tenant_id object_type object_id : string) (value : Value) :
    result StoreError blob :=
  record ← map_err protocol_error
             (pack_object_record schema object_type object_id (without_record_id value));
  encoded ← encode_packed record;
  match encryption with
  | Some e => encrypt e nonce tenant_id encoded
  | None => Ok encoded
  end.

Definition unpack (tenant_id : string) (stored : blob) : result StoreError Value :=
  bytes ← match encryption with
          | Some e => decrypt e tenant_id stored
          | None => Ok stored
          end;
  packed ← decode_packed bytes;
  record ← map_err protocol_error (unpack_object_record schema packed);
  Ok (ur_value record).

(** [SELECT .. WHERE app_id = ? AND tenant_id = ? AND object_type = ? AND
    object_id = ?]. *)
Definition select_row (t : ObjectTable) (app_id tenant_id object_type object_id : string) :
    option ObjectRow :=
  match t !! (tenant_id, object_type, object_id) with
  | Some r => if String.eqb (or_app_id r) app_id then Some r else None
  | None => None
  end.

Definition write_row_packed (app_id tenant_id object_type object_id : string) (packed : blob)
    (version now_ms : Z) : M ObjectTable StoreError unit := λ t,
  let write := (Ok tt, <[(tenant_id, object_type, object_id) :=
    {| or_app_id := app_id; or_version := version; or_packed := packed;
       or_updated_at := iso_from_epoch_ms now_ms |}]> t) in
  match t !! (tenant_id, object_type, object_id) with
  | Some owner =>
      if negb (String.eqb (or_app_id owner) app_id)
      then (Err (CrossAppAccess app_id (or_app_id owner) tenant_id object_type object_id), t)
      else write
  | None => write
  end.

Definition write_row_tx (nonce : blob) (app_id tenant_id object_type object_id : string)
    (value : Value) (version now_ms : Z) : M ObjectTable StoreError unit :=
  packed ← lift_res (pack nonce tenant_id object_type object_id value);
  write_row_packed app_id tenant_id object_type object_id packed version now_ms.

Definition upsert (nonce : blob) (tenant_id object_type object_id : string) (value : Value)
    (version : Z) (app_id : string) (now_ms : Z) : M ObjectTable StoreError unit :=
  write_row_tx nonce app_id tenant_id object_type object_id value version now_ms.

(** The precondition check of the transaction body. *)
Definition check_precondition (tenant_id object_type object_id : string)
    (expected_version : option Z) (merge_policy : FrickObjectMergePolicy)
    (exists_ : bool) (previous : Z) : result StoreError unit :=
  match merge_policy, expected_version with
  | VersionPrecondition, None =>
      if exists_ then Err (ObjectVersionConflict tenant_id object_type object_id None previous)
      else Ok tt
  | VersionPrecondition, Some expected =>
      if negb (previous =? expected)
      then Err (ObjectVersionConflict tenant_id object_type object_id (Some expected) previous)
      else Ok tt
  | LastWriteWins, _ => Ok tt
  end.

Definition compute_next_version (expected_version : option Z)
    (merge_policy : FrickObjectMergePolicy) (previous : Z) : Z :=
  match merge_policy, expected_version with
  | VersionPrecondition, None => 1
  | VersionPrecondition, Some expected => i64_add expected 1
  | LastWriteWins, _ => i64_add previous 1
  end.

Definition upsert_with_policy (nonce : blob)
    (app_id tenant_id object_type object_id : string) (value : Value)
    (expected_version : option Z) (merge_policy : FrickObjectMergePolicy) (now_ms : Z) :
    M ObjectTable StoreError ObjectUpsertResult :=
  packed ← lift_res (pack nonce tenant_id object_type object_id value);
  transaction (
    t ← get_state;
    let current := select_row t app_id tenant_id object_type object_id in
    let previous := default 0 (or_version <$> current) in
    let exists_ := bool_decide (is_Some current) in
    lift_res (check_precondition tenant_id object_type object_id expected_version merge_policy
                exists_ previous);;
    let next := compute_next_version expected_version merge_policy previous in
    write_row_packed app_id tenant_id object_type object_id packed next now_ms;;
    mret {| previous_version := previous; next_version := next; created := negb exists_ |}).

Definition read (t : ObjectTable) (tenant_id object_type object_id app_id : string) :
    result StoreError (option Value) :=
  match select_row t app_id tenant_id object_type object_id with
  | None => Ok None
  | Some row => v ← unpack tenant_id (or_packed row); Ok (Some v)
  end.

Definition read_version (t : ObjectTable) (tenant_id object_type object_id app_id : string) : Z :=
  default 0 (or_version <$> select_row t app_id tenant_id object_type object_id).

Definition delete (tenant_id object_type object_id app_id : string) :
    M ObjectTable StoreError bool := λ t,
  match select_row t app_id tenant_id object_type object_id with
  | Some _ => (Ok true, base.delete (tenant_id, object_type, object_id) t)
  | None => (Ok false, t)
  end.

(** [WHERE app_id = ? AND tenant_id = ? AND object_type = ? ORDER BY
    object_id ASC], with the object ids. *)
Definition in_scope (tenant_id object_type app_id : string) (kr : object_key * ObjectRow) : bool :=
  String.eqb (or_app_id kr.2) app_id && String.eqb kr.1.1.1 tenant_id
  && String.eqb kr.1.1.2 object_type.
Definition id_le (a b : object_key * ObjectRow) : bool := Str.leb a.1.2 b.1.2.
Definition scoped_rows (t : ObjectTable) (tenant_id object_type app_id : string) :
    list (object_key * ObjectRow) :=
  order_by id_le (select (in_scope tenant_id object_type app_id) (map_to_list t)).

Definition list_values (t : ObjectTable) (tenant_id object_type app_id : string) :
    result StoreError (list Value) :=
  map_res (λ kr, unpack tenant_id (or_packed kr.2)) (scoped_rows t tenant_id object_type app_id).

Definition list_ids (t : ObjectTable) (tenant_id object_type app_id : string) : list string :=
  (λ kr, kr.1.2) <$> scoped_rows t tenant_id object_type app_id.

(** The deletion loop over the listed values. *)
Fixpoint delete_matching (tenant_id object_type app_id field value : string) (rows : list Value)
    (deleted : Z) : M ObjectTable StoreError Z :=
  match rows with
  | [] => mret deleted
  | row :: rows' =>
      if negb (object_field_eq row field value)
      then delete_matching tenant_id object_type app_id field value rows' deleted
      else match id_of_value row with
      | None => delete_matching tenant_id object_type app_id field value rows' deleted
      | Some object_id =>
          removed ← delete tenant_id object_type object_id app_id;
          delete_matching tenant_id object_type app_id field value rows'
            (if removed : bool then deleted + 1 else deleted)
      end
  end.

Definition delete_by_field (tenant_id object_type app_id field value : string) :
    M ObjectTable StoreError Z :=
  t ← get_state;
  rows ← lift_res (list_values t tenant_id object_type app_id);
  delete_matching tenant_id object_type app_id field value rows 0.

Definition query_by_field (t : ObjectTable) (tenant_id object_type app_id field value : string) :
    result StoreError (list Value) :=
  rows ← list_values t tenant_id object_type app_id;
  Ok (List.filter (λ row, object_field_eq row field value) rows).
End ObjectStore.

(** ** Reading back what was written *)

Definition drop_id (es : list (string * Value)) : list (string * Value) :=
  List.filter (λ e, negb (String.eqb e.1 "id")) es.

(** The value a read returns for an object written with entries [es]. *)
Definition stored_value (object_id : string) (es : list (string * Value)) : Value :=
  VMap (str_entries (("id", VStr object_id) :: drop_id es)).

Lemma without_record_id_entries es :
  without_record_id (VMap (str_entries es)) = VMap (str_entries (drop_id es)).
Proof.
  simpl. f_equal. unfold str_entries, drop_id.
  induction es as [|[k v] es IH]; [done|]. csimpl. unfold key_is. simpl.
  destruct (String.eqb k "id"); simpl; [apply IH|]. f_equal. apply IH.
Qed.

Lemma drop_id_spec es : NoDup es.*1 → NoDup (drop_id es).*1 ∧ "id" ∉ (drop_id es).*1.
Proof.
  unfold drop_id. induction es as [|[k v] es IH]; csimpl.
  - split; [constructor|set_solver].
  - intros [Hk Hnd]%NoDup_cons. destruct (IH Hnd) as [H1 H2].
    destruct (String.eqb_spec k "id") as [->|Hne]; csimpl; [done|].
    split; [apply NoDup_cons; split; [|done]|set_solver].
    intros Hin. apply Hk. apply list_elem_of_fmap in Hin as ([k' v'] & -> & Hin).
    apply list_elem_of_In, filter_In in Hin as [Hin _].
    apply list_elem_of_fmap. exists (k', v'). split; [done|]. by apply list_elem_of_In.
Qed.

Lemma id_of_stored_value oid es : id_of_value (stored_value oid es) = Some oid.
Proof. done. Qed.

Section ReadBack.
Context `{PackedColumn PackedRecord, CryptoLaws}.
Context (schema : FrickSchema) (encryption : option KeyProvider).
Hypothesis schema_ok : validate_schema schema = Ok tt.

Hypothesis Hengine : engine_ok (T := PackedRecord) encryption.

Lemma unpack_pack nonce tenant ty oid es b :
  length nonce = NONCE_LEN → NoDup es.*1 →
  pack schema encryption nonce tenant ty oid (VMap (str_entries es)) = Ok b →
  unpack schema encryption tenant b = Ok (stored_value oid es).
Proof using Hengine H1 schema_ok.
  intros Hn Hnd Hp. unfold pack in Hp. rewrite without_record_id_entries in Hp.
  apply bind_Ok in Hp as (r & Hr & Hp). apply bind_Ok in Hp as (enc & Henc & Hp).
  destruct (pack_object_record _ _ _ _) as [r'|] eqn:Er; simplify_eq/=.
  destruct (drop_id_spec es Hnd) as [Hd1 Hd2].
  pose proof (unpack_pack_object_record _ _ _ _ _ schema_ok Hd1 Hd2 Er) as Hu.
  unfold unpack. rewrite (open_sealed encryption Hengine nonce tenant r enc b Hn Henc Hp).
  cbn [mbind result_bind]. rewrite (decode_encode_packed _ _ Henc).
  cbn [mbind result_bind]. rewrite Hu. done.
Qed.
End ReadBack.

(** ** Transactions and outcomes *)

Lemma write_row_packed_Ok (app ty tid oid : string) (b : blob) (v now : Z) (t t' : ObjectTable) :
  write_row_packed app tid ty oid b v now t = (Ok tt, t') →
  t' = <[(tid, ty, oid) := {| or_app_id := app; or_version := v; or_packed := b;
                              or_updated_at := iso_from_epoch_ms now |}]> t
  ∧ ∀ r, t !! (tid, ty, oid) = Some r → or_app_id r = app.
Proof.
  unfold write_row_packed. destruct (t !! _) as [owner|] eqn:E.
  - destruct (String.eqb_spec (or_app_id owner) app); [|done]. intros [= <-]. naive_solver.
  - intros [= <-]. naive_solver.
Qed.

Lemma write_row_packed_Err (app ty tid oid : string) (b : blob) (v now : Z) (t t' : ObjectTable) (e : StoreError) :
  write_row_packed app tid ty oid b v now t = (Err e, t') →
  t' = t ∧ ∃ r, t !! (tid, ty, oid) = Some r ∧ or_app_id r ≠ app
    ∧ e = CrossAppAccess app (or_app_id r) tid ty oid.
Proof.
  unfold write_row_packed. destruct (t !! _) as [owner|] eqn:E; [|done].
  destruct (String.eqb_spec (or_app_id owner) app); [done|]. intros [= <- <-]. eauto.
Qed.

Lemma select_row_Some (t : ObjectTable) (app tid ty oid : string) (r : ObjectRow) :
  select_row t app tid ty oid = Some r ↔ t !! (tid, ty, oid) = Some r ∧ or_app_id r = app.
Proof.
  unfold select_row. destruct (t !! _) as [r'|]; [|naive_solver].
  destruct (String.eqb_spec (or_app_id r') app); naive_solver.
Qed.

Section Outcomes.
Context `{PackedColumn PackedRecord, Crypto}.
Context (schema : FrickSchema) (encryption : option KeyProvider).

(** What a successful policy write did. *)
Lemma upsert_with_policy_Ok nonce app tid ty oid value expected policy now t t' r :
  upsert_with_policy schema encryption nonce app tid ty oid value expected policy now t
    = (Ok r, t') →
  ∃ packed, pack schema encryption nonce tid ty oid value = Ok packed
  ∧ t' = <[(tid, ty, oid) := {| or_app_id := app; or_version := next_version r;
             or_packed := packed; or_updated_at := iso_from_epoch_ms now |}]> t
  ∧ previous_version r = read_version t tid ty oid app
  ∧ next_version r = i64_add (previous_version r) 1
  ∧ (∀ row, t !! (tid, ty, oid) = Some row → or_app_id row = app)
  ∧ (created r = true ↔ t !! (tid, ty, oid) = None)
  ∧ (policy = VersionPrecondition →
       match expected with
       | Some e => previous_version r = e
       | None => created r = true
       end).
Proof.
  unfold upsert_with_policy, transaction, read_version. run_M.
  destruct (pack schema encryption nonce tid ty oid value) as [packed|] eqn:Ep; [|done].
  set (cur := select_row t app tid ty oid). set (prev := default 0 (or_version <$> cur)).
  destruct (check_precondition _ _ _ _ _ _ _) as [[]|] eqn:Ec; [|done].
  destruct (write_row_packed _ _ _ _ _ _ _ _) as [[[]|] t1] eqn:Ew; [|done].
  intros [= <- <-]. apply write_row_packed_Ok in Ew as [-> Hown].
  exists packed. cbn [next_version previous_version created].
  assert (Hnone : bool_decide (is_Some cur) = false ↔ t !! (tid, ty, oid) = None).
  { rewrite bool_decide_eq_false. unfold cur. split.
    - intros Hn. destruct (t !! (tid, ty, oid)) as [row|] eqn:El; [|done].
      destruct Hn. exists row. apply select_row_Some. eauto.
    - intros Hl [row [Hr _]%select_row_Some]. congruence. }
  assert (Hprev : bool_decide (is_Some cur) = false → prev = 0).
  { intros Hb%bool_decide_eq_false. unfold prev. destruct cur; [by destruct Hb|done]. }
  split_and!; try done.
  - destruct policy, expected as [e|]; simpl in *; try done.
    + destruct (Z.eqb_spec prev e); simpl in Ec; [by subst|done].
    + destruct (bool_decide (is_Some cur)); [done|]. by rewrite Hprev.
  - by rewrite negb_true_iff.
  - intros ->. simpl in Ec. destruct expected as [e|].
    + destruct (Z.eqb_spec prev e); simpl in Ec; [by subst|done].
    + destruct (bool_decide (is_Some cur)); done.
Qed.

(** A failed policy write leaves the table as it was. *)
Lemma upsert_with_policy_Err nonce app tid ty oid value expected policy now t t' e :
  upsert_with_policy schema encryption nonce app tid ty oid value expected policy now t
    = (Err e, t') → t' = t.
Proof.
  unfold upsert_with_policy, transaction. run_M.
  destruct (pack schema encryption nonce tid ty oid value); [|by intros [= _ <-]].
  match goal with |- context [match ?x with _ => _ end] => destruct x as [[?|?] ?] end;
    [done|by intros [= _ <-]].
Qed.
End Outcomes.

(** an object written under its merge policy reads back: after a
    successful [upsert_with_policy] the owning app reads the very entries it
    wrote, with [id] injected first, at the version the call returned, which is
    one more than before; every other row of the table is untouched. *)
Theorem upsert_read_back `{PackedColumn PackedRecord, CryptoLaws} schema encryption nonce
    app tid ty oid es expected policy now t t' r :
  validate_schema schema = Ok tt → engine_ok (T := PackedRecord) encryption → length nonce = NONCE_LEN →
  NoDup es.*1 →
  upsert_with_policy schema encryption nonce app tid ty oid (VMap (str_entries es)) expected
    policy now t = (Ok r, t') →
  read schema encryption t' tid ty oid app = Ok (Some (stored_value oid es))
  ∧ read_version t' tid ty oid app = next_version r
  ∧ next_version r = i64_add (read_version t tid ty oid app) 1
  ∧ ∀ k, k ≠ (tid, ty, oid) → t' !! k = t !! k.
Proof.
  intros Hs He Hn Hnd Hu.
  apply upsert_with_policy_Ok in Hu as (packed & Hp & -> & Hprev & Hnext & _).
  pose proof (unpack_pack schema encryption Hs He nonce tid ty oid es packed Hn Hnd Hp) as Hun.
  unfold read, read_version, select_row. rewrite lookup_insert_eq. simpl.
  rewrite String.eqb_refl. cbn [or_packed or_version]. rewrite Hun. simpl.
  rewrite Hnext, Hprev. split_and!; [done|done|done|].
  intros k Hk. by rewrite lookup_insert_ne.
Qed.

Lemma i64_succ_ne v : i64_add v 1 ≠ v.
Proof.
  unfold i64_add, wrap64. intros Heq.
  pose proof (Z.mod_pos_bound (v + 1 + 2 ^ 63) (2 ^ 64) ltac:(lia)) as Hb.
  pose proof (Z.div_mod (v + 1 + 2 ^ 63) (2 ^ 64) ltac:(lia)) as Hd. lia.
Qed.

(** C3: a versioned write is a compare-and-swap: under [versionPrecondition]
    it succeeds only from the expected version (or, with no expected version,
    only when the row does not exist), a failure leaves the table unchanged, and
    once one writer has succeeded with an expected version, a second write by
    that app with the same expected version fails with a version conflict that
    reports the new version. *)
Theorem version_precondition_cas `{PackedColumn PackedRecord, Crypto} schema encryption
    nonce nonce' app tid ty oid value value' expected now now' t t' r packed' :
  upsert_with_policy schema encryption nonce app tid ty oid value expected VersionPrecondition
    now t = (Ok r, t') →
  pack schema encryption nonce' tid ty oid value' = Ok packed' →
  (match expected with
   | Some e => read_version t tid ty oid app = e
   | None => t !! (tid, ty, oid) = None
   end)
  ∧ upsert_with_policy schema encryption nonce' app tid ty oid value' expected VersionPrecondition
      now' t'
    = (Err (ObjectVersionConflict tid ty oid expected (next_version r)), t')
  ∧ (∀ app2 v2 e2 p2 n2 t2 t2' err,
       upsert_with_policy schema encryption nonce' app2 tid ty oid v2 e2 p2 n2 t2 = (Err err, t2')
       → t2' = t2).
Proof.
  intros Hu Hp'. apply upsert_with_policy_Ok in Hu
    as (packed & Hp & -> & Hprev & Hnext & Hown & Hcr & Hpol).
  specialize (Hpol eq_refl). split_and!.
  - destruct expected; [by rewrite <- Hprev|by apply Hcr].
  - unfold upsert_with_policy, transaction. run_M. rewrite Hp'.
    unfold select_row. rewrite lookup_insert_eq. simpl. rewrite String.eqb_refl. simpl.
    destruct expected as [e|]; simpl.
    + destruct (Z.eqb_spec (next_version r) e) as [He|]; [|done].
      destruct (i64_succ_ne e). by rewrite <- He at 2; rewrite Hnext, Hpol.
    + done.
  - intros. by eapply upsert_with_policy_Err.
Qed.

(** ** Isolation of apps *)

(** The mutating operations of the store, as an app issues them. *)
Inductive object_op : Type :=
| OpUpsert (nonce : blob) (tid ty oid : string) (value : Value) (version now : Z)
| OpUpsertPolicy (nonce : blob) (tid ty oid : string) (value : Value) (expected : option Z)
    (policy : FrickObjectMergePolicy) (now : Z)
| OpDelete (tid ty oid : string)
| OpDeleteByField (tid ty field value : string).

Section Isolation.
Context `{PackedColumn PackedRecord, Crypto}.
Context (schema : FrickSchema) (encryption : option KeyProvider).

Definition run_op (app : string) (op : object_op) (t : ObjectTable) : ObjectTable :=
  match op with
  | OpUpsert nonce tid ty oid v ver now =>
      (upsert schema encryption nonce tid ty oid v ver app now t).2
  | OpUpsertPolicy nonce tid ty oid v e p now =>
      (upsert_with_policy schema encryption nonce app tid ty oid v e p now t).2
  | OpDelete tid ty oid => (delete tid ty oid app t).2
  | OpDeleteByField tid ty f v => (delete_by_field schema encryption tid ty app f v t).2
  end.

Definition run_ops (ops : list (string * object_op)) (t : ObjectTable) : ObjectTable :=
  foldl (λ t o, run_op o.1 o.2 t) t ops.

(** The part of the table an app owns. *)
Definition owned (app : string) (t : ObjectTable) : ObjectTable :=
  filter (λ kr, or_app_id kr.2 = app) t.

Lemma owned_insert_other (app app' : string) (k : object_key) (r : ObjectRow) (t : ObjectTable) :
  app' ≠ app → or_app_id r = app' → (∀ r', t !! k = Some r' → or_app_id r' = app') →
  owned app (<[k := r]> t) = owned app t.
Proof.
  intros Hne Hr Hk. unfold owned. rewrite map_filter_insert_False by (simpl; congruence).
  apply map_filter_delete_not. intros r' Hr' Ha. simpl in Ha. specialize (Hk r' Hr'). congruence.
Qed.

Lemma owned_delete_other (app app' : string) (k : object_key) (t : ObjectTable) :
  app' ≠ app → (∀ r', t !! k = Some r' → or_app_id r' = app') →
  owned app (base.delete k t) = owned app t.
Proof.
  intros Hne Hk. unfold owned. rewrite map_filter_delete.
  apply delete_id. apply map_lookup_filter_None. right. intros r' Hr' Ha.
  simpl in Ha. specialize (Hk r' Hr'). congruence.
Qed.

Lemma delete_owned app app' tid ty oid t :
  app' ≠ app → owned app (delete tid ty oid app' t).2 = owned app t.
Proof.
  intros Hne. unfold delete. destruct (select_row t app' tid ty oid) as [r|] eqn:E; [|done].
  apply select_row_Some in E as [Hl Ha]. simpl. apply (owned_delete_other app app'); [done|].
  intros r' Hr'. congruence.
Qed.

Lemma delete_matching_owned app app' tid ty f v rows n t :
  app' ≠ app → owned app (delete_matching tid ty app' f v rows n t).2 = owned app t.
Proof.
  intros Hne. revert n t. induction rows as [|row rows IH]; intros n t; simpl; [done|].
  destruct (negb _); [apply IH|]. destruct (id_of_value row) as [oid|]; [|apply IH].
  run_M. pose proof (delete_owned app app' tid ty oid t Hne) as Hd.
  destruct (delete tid ty oid app' t) as [[b|e] t1]; simpl in *; [|done].
  by rewrite IH.
Qed.

Lemma run_op_owned app app' op t : app' ≠ app → owned app (run_op app' op t) = owned app t.
Proof.
  intros Hne. destruct op as [nonce tid ty oid v ver now|nonce tid ty oid v e p now|tid ty oid
    |tid ty f v]; simpl.
  - unfold upsert, write_row_tx. run_M. destruct (pack _ _ _ _ _ _ _) as [b|]; [|done].
    destruct (write_row_packed _ _ _ _ _ _ _ _) as [[[]|e] t1] eqn:Ew; simpl.
    + apply write_row_packed_Ok in Ew as [-> Hown]. by apply (owned_insert_other app app').
    + by apply write_row_packed_Err in Ew as [-> _].
  - destruct (upsert_with_policy _ _ _ _ _ _ _ _ _ _ _ _) as [[r|err] t1] eqn:Eu; simpl.
    + apply upsert_with_policy_Ok in Eu as (packed & _ & -> & _ & _ & Hown & _).
      by apply (owned_insert_other app app').
    + by apply upsert_with_policy_Err in Eu as ->.
  - by apply delete_owned.
  - unfold delete_by_field. run_M. destruct (list_values _ _ _ _ _ _); [|done].
    by apply delete_matching_owned.
Qed.

Lemma run_ops_owned app ops t :
  Forall (λ o, o.1 ≠ app) ops → owned app (run_ops ops t) = owned app t.
Proof.
  intros Hf. unfold run_ops. revert t. induction Hf as [|o ops Ho _ IH]; intros t; simpl; [done|].
  by rewrite IH, run_op_owned.
Qed.

(** A read sees only what the app owns. *)
Lemma select_row_owned app tid ty oid t :
  select_row t app tid ty oid = owned app t !! (tid, ty, oid).
Proof.
  unfold owned. destruct (select_row t app tid ty oid) as [r|] eqn:E.
  - symmetry. apply map_lookup_filter_Some. by apply select_row_Some in E.
  - symmetry. apply map_lookup_filter_None. right. intros r Hr Ha.
    assert (select_row t app tid ty oid = Some r) by by apply select_row_Some. congruence.
Qed.
End Isolation.

(** C15: apps are isolated although the primary key does not contain the app:
    no sequence of writes, versioned writes, deletes and deletes-by-field issued
    by other apps, on any keys, changes a row an app owns, so each of its reads
    and version checks returns what it did before. *)
Theorem apps_isolated `{PackedColumn PackedRecord, Crypto} schema encryption app ops t :
  Forall (λ o, o.1 ≠ app) ops →
  owned app (run_ops schema encryption ops t) = owned app t
  ∧ (∀ tid ty oid,
       read schema encryption (run_ops schema encryption ops t) tid ty oid app
       = read schema encryption t tid ty oid app
       ∧ read_version (run_ops schema encryption ops t) tid ty oid app
         = read_version t tid ty oid app).
Proof.
  intros Hf. pose proof (run_ops_owned schema encryption app ops t Hf) as Ho.
  split; [done|]. intros tid ty oid. unfold read, read_version.
  by rewrite !select_row_owned, Ho.
Qed.

(** ** Deletion by field *)

Section DeleteByField.
Context `{PackedColumn PackedRecord, Crypto}.
Context (schema : FrickSchema) (encryption : option KeyProvider).
Context (tid ty app f v : string).

(** Every row in scope unpacks to a value that carries its own id, as rows
    written by the store do ([unpack_pack]). *)
Definition scope_readable (t : ObjectTable) : Prop :=
  ∀ k r, t !! k = Some r → in_scope tid ty app (k, r) = true →
    ∃ value, unpack schema encryption tid (or_packed r) = Ok value
             ∧ id_of_value value = Some k.2.

Definition row_matches (kr : object_key * ObjectRow) : bool :=
  in_scope tid ty app kr
  && match unpack schema encryption tid (or_packed kr.2) with
     | Ok value => object_field_eq value f v
     | Err _ => false
     end.

Lemma elem_of_scoped_rows (t : ObjectTable) (kr : object_key * ObjectRow) :
  kr ∈ scoped_rows t tid ty app ↔ t !! kr.1 = Some kr.2 ∧ in_scope tid ty app kr = true.
Proof.
  unfold scoped_rows. rewrite elem_of_order_by, elem_of_select.
  destruct kr as [k r]. by rewrite elem_of_map_to_list.
Qed.

Lemma scoped_rows_NoDup t : NoDup (scoped_rows t tid ty app).*1.
Proof.
  unfold scoped_rows. rewrite order_by_perm. unfold select.
  assert (∀ (l : list (object_key * ObjectRow)), NoDup l.*1 →
    NoDup (List.filter (in_scope tid ty app) l).*1) as Hf.
  { induction l as [|x l IH]; csimpl; [done|]. intros [Hx Hl]%NoDup_cons.
    destruct (in_scope tid ty app x); csimpl; [|by apply IH]. apply NoDup_cons. split; [|by apply IH].
    intros Hin. apply Hx. apply list_elem_of_fmap in Hin as (y & Hy & Hin).
    apply list_elem_of_In, filter_In in Hin as [Hin _].
    apply list_elem_of_fmap. exists y. split; [done|]. by apply list_elem_of_In. }
  apply Hf, NoDup_fst_map_to_list.
Qed.

Lemma in_scope_key (kr : object_key * ObjectRow) : in_scope tid ty app kr = true →
  kr.1 = (tid, ty, kr.1.2) ∧ or_app_id kr.2 = app.
Proof.
  unfold in_scope. rewrite !andb_true_iff, !String.eqb_eq. destruct kr as [[[a b] c] r]. simpl.
  naive_solver.
Qed.

(** The loop removes the keys of the matching rows, one each. *)
Lemma delete_matching_spec (rows : list (object_key * ObjectRow)) (values : list Value) (n : Z)
    (t : ObjectTable) :
  NoDup rows.*1 →
  (∀ kr, kr ∈ rows → t !! kr.1 = Some kr.2 ∧ in_scope tid ty app kr = true) →
  Forall2 (λ kr value, unpack schema encryption tid (or_packed kr.2) = Ok value
                       ∧ id_of_value value = Some kr.1.2) rows values →
  ∃ t', delete_matching tid ty app f v values n t
    = (Ok (n + Z.of_nat (length (List.filter (λ x, object_field_eq x f v) values))), t')
    ∧ ∀ k, t' !! k = if existsb (λ kr, bool_decide (kr.1 = k) && row_matches kr) rows
                     then None else t !! k.
Proof.
  intros Hnd Hin Hvs. revert n t Hnd Hin.
  induction Hvs as [|kr value rows values [Hu Hid] Hvs IH]; intros n t Hnd Hin; simpl.
  { exists t. split; [|done]. run_M. by rewrite Z.add_0_r. }
  apply NoDup_cons in Hnd as [Hk Hnd].
  destruct (Hin kr) as [Hl Hsc]; [set_solver|].
  assert (Hm : row_matches kr = object_field_eq value f v)
    by (unfold row_matches; by rewrite Hsc, Hu).
  destruct (object_field_eq value f v) eqn:Ef; simpl; rewrite Hm.
  - rewrite Hid. destruct (in_scope_key kr Hsc) as [Hkey Ha]. run_M.
    unfold delete at 1, select_row. rewrite <- Hkey, Hl, Ha, String.eqb_refl.
    destruct (IH (n + 1) (base.delete kr.1 t)) as (t' & Hd & Ht'); [done| |].
    + intros kr' Hkr'. destruct (Hin kr') as [Hl' ?]; [set_solver|]. split; [|done].
      rewrite lookup_delete_ne; [done|]. intros Heq. apply Hk. rewrite Heq.
      by apply list_elem_of_fmap_2.
    + exists t'. rewrite Hd. split; [f_equal; f_equal; lia|]. intros k. rewrite Ht'.
      case_bool_decide as Hbd; simpl.
      * subst k. rewrite lookup_delete_eq. by destruct (existsb _ _).
      * by rewrite lookup_delete_ne.
  - destruct (IH n t) as (t' & Hd & Ht'); [done|set_solver|].
    exists t'. split; [done|]. intros k. rewrite Ht', andb_false_r. done.
Qed.

Lemma scope_values t :
  scope_readable t →
  ∃ values, list_values schema encryption t tid ty app = Ok values
    ∧ Forall2 (λ kr value, unpack schema encryption tid (or_packed kr.2) = Ok value
                           ∧ id_of_value value = Some kr.1.2) (scoped_rows t tid ty app) values.
Proof.
  intros Hr. unfold list_values.
  assert (Hall : ∀ kr, kr ∈ scoped_rows t tid ty app → ∃ value,
    unpack schema encryption tid (or_packed kr.2) = Ok value ∧ id_of_value value = Some kr.1.2).
  { intros [k r] [Hl Hsc]%elem_of_scoped_rows. by apply (Hr k r). }
  induction (scoped_rows t tid ty app) as [|kr rows IH]; simpl; [by eauto|].
  destruct (Hall kr) as (value & Hu & Hid); [set_solver|].
  destruct IH as (values & Hm & Hf); [set_solver|]. rewrite Hu, Hm. eauto.
Qed.
End DeleteByField.

(** [delete_by_field] removes exactly what [query_by_field] finds: on a
    table whose scoped rows are readable, it deletes the rows of that tenant,
    type and app whose field equals the value, leaves every other row (of any
    scope) alone, and returns the number of rows the query returned. *)
Theorem delete_by_field_exact `{PackedColumn PackedRecord, Crypto} (schema : FrickSchema)
    (encryption : option KeyProvider) (tid ty app f v : string) (t : ObjectTable) :
  scope_readable schema encryption tid ty app t →
  ∃ found t', query_by_field schema encryption t tid ty app f v = Ok found
    ∧ delete_by_field schema encryption tid ty app f v t = (Ok (Z.of_nat (length found)), t')
    ∧ (∀ k, t' !! k = match t !! k with
                      | Some r => if row_matches schema encryption tid ty app f v (k, r)
                                  then None else Some r
                      | None => None
                      end).
Proof.
  intros Hr. destruct (scope_values schema encryption tid ty app t Hr) as (values & Hv & Hf).
  destruct (delete_matching_spec schema encryption tid ty app f v (scoped_rows t tid ty app) values 0 t)
    as (t' & Hd & Ht').
  { apply scoped_rows_NoDup. }
  { intros kr Hkr. by apply elem_of_scoped_rows. }
  { done. }
  exists (List.filter (λ x, object_field_eq x f v) values), t'. split_and!.
  - unfold query_by_field. by rewrite Hv.
  - unfold delete_by_field. run_M. by rewrite Hv, Hd.
  - intros k. rewrite Ht'. destruct (existsb _ _) eqn:Ee.
    + apply existsb_exists in Ee as (kr & Hin & [Hk Hm]%andb_prop).
      apply bool_decide_eq_true in Hk. subst k. apply list_elem_of_In, elem_of_scoped_rows in Hin as [-> _].
      destruct kr as [k r]. simpl in *. by rewrite Hm.
    + destruct (t !! k) as [r|] eqn:El; [|done].
      destruct (row_matches schema encryption tid ty app f v (k, r)) eqn:Em; [|done].
      exfalso. assert (existsb (λ kr, bool_decide (kr.1 = k)
        && row_matches schema encryption tid ty app f v kr) (scoped_rows t tid ty app) = true) as Hx;
        [|congruence].
      apply existsb_exists. exists (k, r). split.
      * apply list_elem_of_In, elem_of_scoped_rows. split; [done|].
        unfold row_matches in Em. by apply andb_prop in Em as [? _].
      * by rewrite bool_decide_true, Em.
Qed.

(** ** A concrete store *)

Module SampleStore.
Export ToyPacked ToyCrypto.

Definition put (app oid title : string) (expected : option Z) :=
  upsert_with_policy SampleSchema.schema enc nonce app "t1" "Task" oid
    (VMap (str_entries [("id", VStr "x"); ("title", VStr title)])) expected VersionPrecondition
    1700000000123.
Definition table1 : ObjectTable := (put "app1" "a" "one" None ∅).2.
Definition table2 : ObjectTable := (put "app1" "b" "two" None table1).2.

End SampleStore.
Import SampleStore.

Lemma upsert_read_back_witness :
  read SampleSchema.schema enc table1 "t1" "Task" "a" "app1"
  = Ok (Some (VMap [(VStr "id", VStr "a"); (VStr "title", VStr "one")])).
Proof.
  refine (proj1 (upsert_read_back SampleSchema.schema enc nonce "app1" "t1" "Task" "a"
    [("id", VStr "x"); ("title", VStr "one")] None VersionPrecondition 1700000000123 ∅ table1
    {| previous_version := 0; next_version := 1; created := true |} _ enc_ok eq_refl _ _)).
  - vm_compute. reflexivity.
  - apply (bool_decide_unpack _). vm_compute. exact I.
  - vm_compute. reflexivity.
Defined.

Lemma version_precondition_cas_witness :
  (put "app1" "a" "again" None table1).1
  = Err (ObjectVersionConflict "t1" "Task" "a" None 1).
Proof.
  destruct (version_precondition_cas SampleSchema.schema enc nonce nonce "app1" "t1" "Task" "a"
    (VMap (str_entries [("id", VStr "x"); ("title", VStr "one")]))
    (VMap (str_entries [("id", VStr "x"); ("title", VStr "again")])) None
    1700000000123 1700000000123 ∅ table1
    {| previous_version := 0; next_version := 1; created := true |}
    (default [] (ok (pack SampleSchema.schema enc nonce "t1" "Task" "a"
       (VMap (str_entries [("id", VStr "x"); ("title", VStr "again")])))))) as (_ & H & _).
  - vm_compute. reflexivity.
  - vm_compute. reflexivity.
  - unfold put. rewrite H. reflexivity.
Defined.

Lemma apps_isolated_witness :
  read_version (run_ops SampleSchema.schema enc
    [("app2", OpDelete "t1" "Task" "a");
     ("app2", OpUpsert nonce "t1" "Task" "a" (VMap []) 9 0)] table1) "t1" "Task" "a" "app1" = 1.
Proof.
  rewrite (proj2 (proj2 (apps_isolated SampleSchema.schema enc "app1"
    [("app2", OpDelete "t1" "Task" "a");
     ("app2", OpUpsert nonce "t1" "Task" "a" (VMap []) 9 0)] table1
    ltac:(repeat constructor; discriminate)) "t1" "Task" "a")).
  vm_compute. reflexivity.
Defined.

Lemma table2_readable : scope_readable SampleSchema.schema enc "t1" "Task" "app1" table2.
Proof.
  assert (Hall : Forall (λ kr, ∃ value,
    unpack SampleSchema.schema enc "t1" (or_packed kr.2) = Ok value
    ∧ id_of_value value = Some kr.1.2) (map_to_list table2)).
  { vm_compute (map_to_list table2). repeat constructor; eexists; split; reflexivity. }
  rewrite Forall_forall in Hall. intros k r Hk _. apply (Hall (k, r)).
  by apply elem_of_map_to_list.
Qed.

Lemma delete_by_field_exact_witness :
  (delete_by_field SampleSchema.schema enc "t1" "Task" "app1" "title" "one" table2).1 = Ok 1
  ∧ read_version (delete_by_field SampleSchema.schema enc "t1" "Task" "app1" "title" "one"
                    table2).2 "t1" "Task" "b" "app1" = 1.
Proof.
  destruct (delete_by_field_exact SampleSchema.schema enc "t1" "Task" "app1" "title" "one" table2
    table2_readable) as (found & t' & Hq & Hd & Ht).
  rewrite Hd. vm_compute in Hq. injection Hq as <-. split; [reflexivity|].
  unfold read_version, select_row. cbn [snd]. rewrite Ht. vm_compute. reflexivity.
Defined.
