(* ===== verification/IdempotencyCache.v ===== *)
(** * The bounded idempotency cache ([frick-store/src/stores/idempotency.rs])

    An LRU map kept as a hash map from keys to (stamp, value) and an ordered map
    from stamps to keys. It is proved to implement the recency list it stands
    for: a list of bindings from least to most recently used, where [get] moves
    a hit to the end and [set] re-inserts at the end and drops from the front
    while over capacity. *)

From Stdlib Require Import ZArith Lia Ascii String.
From stdpp Require Import base gmap strings list sorting.
From S2P Require Import Prelude Value StoreBase.

Definition DEFAULT_IDEMPOTENCY_CACHE_CAPACITY : nat := N.to_nat 10000.

Definition u64_add (a b : Z) : Z := (a + b) mod 2 ^ 64.

(** A finite [f64] is [mant * 2 ^ exp]. *)
Inductive f64 : Type :=
| F64_nan
| F64_inf (negative : bool)
| F64_fin (mant exp : Z).

Definition f64_is_finite (x : f64) : bool := match x with F64_fin _ _ => true | _ => false end.
(** [x <= 0.0]. *)
Definition f64_le_zero (x : f64) : bool :=
  match x with F64_nan => false | F64_inf n => n | F64_fin m _ => m <=? 0 end.
(** [x.floor() as usize] of a finite positive number (saturating). *)
Definition f64_floor_usize (x : f64) : nat :=
  match x with
  | F64_fin m e => Z.to_nat (Z.min (2 ^ 64 - 1) (if 0 <=? e then m * 2 ^ e else m / 2 ^ (- e)))
  | _ => O
  end.

Section Cache.
Context {V : Type}.

Record BoundedIdempotencyCache : Type := {
  capacity : nat;
  entries : gmap string (Z * V);
  order : gmap Z string;
  next_stamp : Z;
  evictions : Z;
}.

Definition new (fmt_f64 : f64 → string) (cap : f64) : result StoreError BoundedIdempotencyCache :=
  if negb (f64_is_finite cap) || f64_le_zero cap
  then Err (Store ("BoundedIdempotencyCache capacity must be > 0, got " +:+ fmt_f64 cap))
  else Ok {| capacity := f64_floor_usize cap; entries := ∅; order := ∅; next_stamp := 0;
             evictions := 0 |}.

Definition cache_size (c : BoundedIdempotencyCache) : nat := map_size (entries c).

(** [get]: the value, and the cache with the key's recency refreshed. *)
Definition get (key : string) (c : BoundedIdempotencyCache) :
    option V * BoundedIdempotencyCache :=
  match entries c !! key with
  | None => (None, c)
  | Some (stale, v) =>
      let fresh := next_stamp c in
      (Some v,
       {| capacity := capacity c; entries := <[key := (fresh, v)]> (entries c);
          order := <[fresh := key]> (delete stale (order c));
          next_stamp := u64_add (next_stamp c) 1; evictions := evictions c |})
  end.

(** [BTreeMap::pop_first]: the binding of the least key. *)
Definition first_stamp (o : gmap Z string) : option Z :=
  match (map_to_list o).*1 with
  | [] => None
  | s :: ss => Some (foldl Z.min s ss)
  end.
Definition pop_first (o : gmap Z string) : option (string * gmap Z string) :=
  s ← first_stamp o; k ← o !! s; Some (k, delete s o).

(** The [while] loop of [set]; each round removes an entry, so the number of
    entries is enough fuel. *)
Fixpoint evict (fuel : nat) (c : BoundedIdempotencyCache) : BoundedIdempotencyCache :=
  match fuel with
  | O => c
  | S fuel' =>
      if Nat.leb (map_size (entries c)) (capacity c) then c
      else match pop_first (order c) with
      | None => c
      | Some (oldest, o) =>
          evict fuel' {| capacity := capacity c; entries := delete oldest (entries c);
                         order := o; next_stamp := next_stamp c;
                         evictions := u64_add (evictions c) 1 |}
      end
  end.

Definition set (key : string) (value : V) (c : BoundedIdempotencyCache) :
    BoundedIdempotencyCache :=
  let order1 := match entries c !! key with
                | Some (stale, _) => delete stale (order c)
                | None => order c
                end in
  let fresh := next_stamp c in
  let c1 := {| capacity := capacity c; entries := <[key := (fresh, value)]> (delete key (entries c));
               order := <[fresh := key]> order1;
               next_stamp := u64_add (next_stamp c) 1; evictions := evictions c |} in
  evict (map_size (entries c1)) c1.

(** ** The recency list it stands for *)

Definition recency : Type := list (string * V).

Definition without (key : string) (l : recency) : recency :=
  List.filter (λ kv, negb (String.eqb kv.1 key)) l.
Definition lookup_key (key : string) (l : recency) : option V :=
  snd <$> (snd <$> list_find (λ kv : string * V, kv.1 = key) l).

Definition spec_get (key : string) (l : recency) : option V * recency :=
  match lookup_key key l with
  | Some v => (Some v, without key l ++ [(key, v)])
  | None => (None, l)
  end.
Definition spec_set (cap : nat) (key : string) (value : V) (l : recency) : recency :=
  let l' := without key l ++ [(key, value)] in drop (length l' - cap) l'.
End Cache.
Arguments BoundedIdempotencyCache : clear implicits.
Arguments recency : clear implicits.

(** ** The simulation relation *)

Section Simulation.
Context {V : Type}.
Implicit Types (c : BoundedIdempotencyCache V) (l : list (Z * (string * V))).

Record rep c l : Prop := {
  rep_sorted : StronglySorted Z.lt l.*1;
  rep_fresh : Forall (λ x, x.1 < next_stamp c) l;
  rep_keys : NoDup l.*2.*1;
  rep_entries : ∀ k s v, entries c !! k = Some (s, v) ↔ (s, (k, v)) ∈ l;
  rep_order : ∀ s k, order c !! s = Some k ↔ ∃ v, (s, (k, v)) ∈ l;
}.

Lemma rep_size c l : rep c l → map_size (entries c) = length l.
Proof.
  intros R.
  assert (He : entries c = list_to_map ((λ x, (x.2.1, (x.1, x.2.2))) <$> l)).
  { apply map_eq. intros k. apply option_eq. intros [s v].
    rewrite (rep_entries _ _ R), <- elem_of_list_to_map.
    - rewrite list_elem_of_fmap. split.
      + intros Hin. by exists (s, (k, v)).
      + intros ([s' [k' v']] & [= -> -> ->] & Hin). done.
    - rewrite <- list_fmap_compose. pose proof (rep_keys _ _ R) as Hk.
      rewrite <- list_fmap_compose in Hk. exact Hk. }
  rewrite He. fold (size (list_to_map ((λ x, (x.2.1, (x.1, x.2.2))) <$> l) : gmap string (Z * V))).
  rewrite map_size_list_to_map; [by rewrite length_fmap|].
  rewrite <- list_fmap_compose. pose proof (rep_keys _ _ R) as Hk.
  rewrite <- list_fmap_compose in Hk. exact Hk.
Qed.

Lemma foldl_min_spec s ss :
  foldl Z.min s ss ∈ s :: ss ∧ ∀ x, x ∈ s :: ss → foldl Z.min s ss ≤ x.
Proof.
  revert s. induction ss as [|y ss IH]; intros s; simpl; [set_solver by lia|].
  destruct (IH (Z.min s y)) as [H1 H2]. split.
  - apply elem_of_cons in H1 as [->|H1]; [|set_solver].
    destruct (Z.min_spec s y) as [[_ ->]|[_ ->]]; set_solver.
  - intros x Hx. pose proof (H2 (Z.min s y) ltac:(set_solver)).
    rewrite !elem_of_cons in Hx. destruct Hx as [->|[->|Hx]]; [lia|lia|].
    apply H2. set_solver.
Qed.

Lemma first_stamp_Some o s :
  first_stamp o = Some s ↔ is_Some (o !! s) ∧ ∀ s', is_Some (o !! s') → s ≤ s'.
Proof.
  assert (Hdom : ∀ x, x ∈ (map_to_list o).*1 ↔ is_Some (o !! x)).
  { intros x. rewrite list_elem_of_fmap. split.
    - intros ([x' k] & -> & Hin%elem_of_map_to_list). eauto.
    - intros [k Hk]. exists (x, k). split; [done|]. by apply elem_of_map_to_list. }
  unfold first_stamp. destruct ((map_to_list o).*1) as [|y ys].
  - split; [done|]. intros [Hs _]. apply Hdom in Hs. by inversion Hs.
  - destruct (foldl_min_spec y ys) as [H1 H2]. split.
    + intros [= <-]. split; [by apply Hdom|]. intros s' Hs'. apply H2. by apply Hdom.
    + intros [Hs Hmin]. f_equal. apply Z.le_antisymm.
      * apply H2. by apply Hdom.
      * apply Hmin. by apply Hdom.
Qed.

Lemma pop_first_rep c s k v l :
  rep c ((s, (k, v)) :: l) → pop_first (order c) = Some (k, delete s (order c)).
Proof.
  intros R. assert (Ho : order c !! s = Some k) by (apply (rep_order _ _ R); set_solver).
  assert (Hf : first_stamp (order c) = Some s).
  { apply first_stamp_Some. split; [by eauto|]. intros s' [k' [v' Hin]%(rep_order _ _ R)].
    apply elem_of_cons in Hin as [[= -> _ _]|Hin]; [lia|].
    pose proof (rep_sorted _ _ R) as Hs. csimpl in Hs. apply StronglySorted_inv in Hs as [_ Hs].
    rewrite Forall_forall in Hs. apply Z.lt_le_incl, Hs. by apply (list_elem_of_fmap_2 fst _ (s', (k', v'))). }
  unfold pop_first. rewrite Hf. simpl. rewrite Ho. done.
Qed.

(** Dropping the oldest binding. *)
Lemma rep_tail c s k v l :
  rep c ((s, (k, v)) :: l) →
  rep {| capacity := capacity c; entries := delete k (entries c); order := delete s (order c);
         next_stamp := next_stamp c; evictions := u64_add (evictions c) 1 |} l.
Proof.
  intros [Hs Hf Hk He Ho]. csimpl in *.
  apply StronglySorted_inv in Hs as [Hs Hs1]. apply Forall_cons in Hf as [_ Hf].
  apply NoDup_cons in Hk as [Hk1 Hk]. rewrite Forall_forall in Hs1.
  split; simpl; try done.
  - intros k' s' v'. rewrite lookup_delete_Some, He, elem_of_cons. split.
    + intros [Hne [[=]|Hin]]; [congruence|done].
    + intros Hin. split; [|by right]. intros <-. apply Hk1.
      rewrite <- list_fmap_compose. by apply (list_elem_of_fmap_2 (fst ∘ snd) _ (s', (k, v'))).
  - intros s' k'. rewrite lookup_delete_Some, Ho. setoid_rewrite elem_of_cons. split.
    + intros (Hne & v' & [[=]|Hin]); [congruence|eauto].
    + intros [v' Hin]. split; [|eauto]. intros <-.
      pose proof (Hs1 s ltac:(by apply (list_elem_of_fmap_2 fst _ (s, (k', v'))))). lia.
Qed.

Lemma evict_rep fuel c l :
  rep c l → (length l ≤ fuel)%nat →
  rep (evict fuel c) (drop (length l - capacity c) l) ∧ capacity (evict fuel c) = capacity c
  ∧ next_stamp (evict fuel c) = next_stamp c.
Proof.
  revert c l. induction fuel as [|fuel IH]; intros c l R Hl; simpl.
  - destruct l; [|simpl in Hl; lia]. done.
  - rewrite (rep_size _ _ R). destruct (Nat.leb_spec (length l) (capacity c)) as [Hle|Hgt].
    + replace (length l - capacity c)%nat with O by lia. done.
    + destruct l as [|[s [k v]] l]; [simpl in Hgt; lia|].
      rewrite (pop_first_rep _ _ _ _ _ R). simpl in Hl, Hgt.
      destruct (IH _ _ (rep_tail _ _ _ _ _ R)) as (R' & Hc & Hn); [lia|].
      simpl in R', Hc, Hn. split_and!; [|done|done].
      cbn [length]. replace (S (length l) - capacity c)%nat with (S (length l - capacity c))
        by lia. exact R'.
Qed.

(** Moving a key to the end under a fresh stamp. *)
Definition strip (key : string) l : list (Z * (string * V)) :=
  List.filter (λ x, negb (String.eqb x.2.1 key)) l.

Lemma elem_of_strip key l x : x ∈ strip key l ↔ x ∈ l ∧ x.2.1 ≠ key.
Proof. unfold strip. by rewrite !list_elem_of_In, filter_In, negb_true_iff, String.eqb_neq. Qed.

Lemma strip_sorted key l : StronglySorted Z.lt l.*1 → StronglySorted Z.lt (strip key l).*1.
Proof.
  unfold strip. induction l as [|x l IH]; csimpl; [done|]. intros [Hs Hf]%StronglySorted_inv.
  destruct (negb _); csimpl; [|by apply IH]. constructor; [by apply IH|].
  rewrite Forall_forall in Hf |- *. intros y Hy. apply Hf.
  apply list_elem_of_fmap in Hy as (z & -> & Hz). apply list_elem_of_In, filter_In in Hz as [Hz _].
  apply list_elem_of_fmap_2. by apply list_elem_of_In.
Qed.

Lemma strip_keys key l : NoDup l.*2.*1 → NoDup (strip key l).*2.*1 ∧ key ∉ (strip key l).*2.*1.
Proof.
  intros Hnd. rewrite <- list_fmap_compose in Hnd |- *. split.
  - unfold strip. induction l as [|x l IH]; csimpl; [done|].
    apply NoDup_cons in Hnd as [Hx Hnd]. destruct (negb _); csimpl; [|by apply IH].
    apply NoDup_cons. split; [|by apply IH]. intros Hy. apply Hx.
    apply list_elem_of_fmap in Hy as (z & Hz1 & Hz). apply list_elem_of_In, filter_In in Hz as [Hz _].
    apply list_elem_of_fmap. exists z. split; [exact Hz1|by apply list_elem_of_In].
  - intros Hy. apply list_elem_of_fmap in Hy as (z & Hz1 & [_ Hne]%elem_of_strip). by apply Hne.
Qed.

Lemma rep_push c l key v entries' order' :
  rep c l → 0 ≤ next_stamp c < 2 ^ 64 - 1 →
  (∀ k s w, entries' !! k = Some (s, w) ↔
     (k = key ∧ s = next_stamp c ∧ w = v) ∨ (k ≠ key ∧ entries c !! k = Some (s, w))) →
  (∀ s k, order' !! s = Some k ↔
     (s = next_stamp c ∧ k = key) ∨ (order c !! s = Some k ∧ k ≠ key)) →
  rep {| capacity := capacity c; entries := entries'; order := order';
         next_stamp := u64_add (next_stamp c) 1; evictions := evictions c |}
      (strip key l ++ [(next_stamp c, (key, v))]).
Proof.
  intros [Hs Hf Hk He Ho] Hn He' Ho'. rewrite Forall_forall in Hf.
  assert (Hnext : u64_add (next_stamp c) 1 = next_stamp c + 1)
    by (unfold u64_add; apply Z.mod_small; lia).
  split; simpl.
  - rewrite fmap_app. csimpl. apply strip_sorted with (key := key) in Hs.
    assert (Hlt : Forall (λ x, x < next_stamp c) (strip key l).*1).
    { apply Forall_forall. intros y (z & -> & [Hz _]%elem_of_strip)%list_elem_of_fmap. by apply Hf. }
    clear -Hs Hlt. induction (strip key l).*1 as [|y ys IH]; simpl; [repeat constructor|].
    apply StronglySorted_inv in Hs as [Hs Hy]. apply Forall_cons in Hlt as [Hy' Hlt].
    constructor; [by apply IH|]. apply Forall_app. split; [done|]. by constructor.
  - rewrite Hnext. apply Forall_forall. intros x [[Hx _]%elem_of_strip| ->%list_elem_of_singleton]%elem_of_app.
    + specialize (Hf x Hx). lia.
    + simpl. lia.
  - rewrite !fmap_app. csimpl. destruct (strip_keys key l Hk) as [H1 H2].
    apply NoDup_app. split_and!; [done|set_solver|apply NoDup_singleton].
  - intros k s w. rewrite He', elem_of_app, elem_of_strip, list_elem_of_singleton, <- He. simpl.
    naive_solver.
  - intros s k. rewrite Ho', Ho. setoid_rewrite elem_of_app. setoid_rewrite elem_of_strip.
    setoid_rewrite list_elem_of_singleton. simpl. naive_solver.
Qed.

Lemma rep_stamp_unique c l s x y : rep c l → (s, x) ∈ l → (s, y) ∈ l → x = y.
Proof.
  intros R. pose proof (rep_sorted _ _ R) as Hs. clear R.
  induction l as [|[s' z] l IH]; csimpl in *; [by inversion 1|].
  apply StronglySorted_inv in Hs as [Hs Hf]. rewrite Forall_forall in Hf.
  intros Hx Hy. apply elem_of_cons in Hx, Hy.
  destruct Hx as [[= -> ->]|Hx], Hy as [Hy|Hy]; simplify_eq; [done| | |by apply IH].
  - pose proof (Hf s' (list_elem_of_fmap_2 fst _ (s', y) Hy)). lia.
  - pose proof (Hf s' (list_elem_of_fmap_2 fst _ (s', x) Hx)). lia.
Qed.

Lemma order_after_delete c l key stale v :
  rep c l → entries c !! key = Some (stale, v) →
  ∀ s k, <[next_stamp c := key]> (delete stale (order c)) !! s = Some k ↔
    (s = next_stamp c ∧ k = key) ∨ (order c !! s = Some k ∧ k ≠ key).
Proof.
  intros R He s k. pose proof (rep_fresh _ _ R) as Hf. rewrite Forall_forall in Hf.
  pose proof (proj1 (rep_entries _ _ R key stale v) He) as Hin.
  rewrite lookup_insert_Some, lookup_delete_Some.
  assert (Hlt : ∀ k', order c !! s = Some k' → s < next_stamp c).
  { intros k' [v' Hin']%(rep_order _ _ R). apply (Hf _ Hin'). }
  assert (Hk : order c !! s = Some k → stale ≠ s ↔ k ≠ key).
  { intros [v' Hin']%(rep_order _ _ R). split.
    - intros Hne ->. apply (rep_entries _ _ R) in Hin'. congruence.
    - intros Hne ->. pose proof (rep_stamp_unique _ _ _ _ _ R Hin Hin'). congruence. }
  split.
  - intros [[<- <-]|(Hne & Hs & Ho)]; [by left|]. right. split; [done|]. by apply Hk.
  - intros [[-> ->]|[Ho Hne]]; [by left|]. right. specialize (Hlt _ Ho).
    split_and!; [lia|by apply Hk|done].
Qed.

Lemma strip_recency key l : (strip key l).*2 = without key l.*2.
Proof.
  unfold strip, without. induction l as [|[s [k v]] l IH]; csimpl; [done|].
  destruct (negb _); csimpl; by rewrite IH.
Qed.

Lemma lookup_key_rep c l key : rep c l → lookup_key key l.*2 = snd <$> (entries c !! key).
Proof.
  intros R. unfold lookup_key. destruct (list_find _ l.*2) as [[i [k v]]|] eqn:E; simpl.
  - apply list_find_Some in E as (Hi & Hk & _). simpl in Hk. subst k.
    apply list_elem_of_lookup_2, list_elem_of_fmap in Hi as ([s [k' v']] & [= -> ->] & Hin).
    by rewrite (proj2 (rep_entries _ _ R k' s v') Hin).
  - destruct (entries c !! key) as [[s v]|] eqn:Ee; [|done]. exfalso.
    apply (rep_entries _ _ R) in Ee. apply list_find_None in E. rewrite Forall_forall in E.
    apply (E (key, v)); [|done]. by apply (list_elem_of_fmap_2 snd _ (s, (key, v))).
Qed.

Lemma get_rep c l key :
  rep c l → 0 ≤ next_stamp c < 2 ^ 64 - 1 →
  ∃ l', rep (get key c).2 l' ∧ spec_get key l.*2 = ((get key c).1, l'.*2)
    ∧ capacity (get key c).2 = capacity c
    ∧ next_stamp c ≤ next_stamp (get key c).2 ≤ next_stamp c + 1.
Proof.
  intros R Hn. unfold get, spec_get. rewrite (lookup_key_rep _ _ key R).
  destruct (entries c !! key) as [[stale v]|] eqn:E; simpl.
  - exists (strip key l ++ [(next_stamp c, (key, v))]). split_and!.
    + apply (rep_push c l key v); [done|done| |by eapply order_after_delete].
      intros k s w. rewrite lookup_insert_Some. naive_solver.
    + by rewrite fmap_app, strip_recency.
    + done.
    + unfold u64_add. rewrite Z.mod_small; lia.
    + unfold u64_add. rewrite Z.mod_small; lia.
  - exists l. split_and!; try done; lia.
Qed.

Lemma set_rep c l key v :
  rep c l → 0 ≤ next_stamp c < 2 ^ 64 - 1 →
  ∃ l', rep (set key v c) l' ∧ spec_set (capacity c) key v l.*2 = l'.*2
    ∧ capacity (set key v c) = capacity c ∧ next_stamp (set key v c) = next_stamp c + 1
    ∧ (length l' ≤ capacity c)%nat.
Proof.
  intros R Hn. unfold set, spec_set.
  set (c1 := {| capacity := capacity c; entries := <[key:=(next_stamp c, v)]> (delete key (entries c));
    order := <[next_stamp c:=key]> match entries c !! key with
      | Some (stale, _) => delete stale (order c) | None => order c end;
    next_stamp := u64_add (next_stamp c) 1; evictions := evictions c |}).
  assert (R1 : rep c1 (strip key l ++ [(next_stamp c, (key, v))])).
  { apply (rep_push c l key v); [done|done| |].
    - intros k s w. rewrite lookup_insert_Some, lookup_delete_Some. naive_solver.
    - destruct (entries c !! key) as [[stale v']|] eqn:E; [by eapply order_after_delete|].
      intros s k. rewrite lookup_insert_Some. pose proof (rep_fresh _ _ R) as Hf.
      rewrite Forall_forall in Hf. split.
      + intros [[<- <-]|[Hs Ho]]; [by left|]. right. split; [done|]. intros ->.
        apply (rep_order _ _ R) in Ho as [v' Hin]. apply (rep_entries _ _ R) in Hin. congruence.
      + intros [[-> ->]|[Ho Hne]]; [by left|]. right. split; [|done]. intros <-.
        apply (rep_order _ _ R) in Ho as [v' Hin]. specialize (Hf _ Hin). simpl in Hf. lia. }
  destruct (evict_rep (map_size (entries c1)) c1 _ R1) as (R2 & Hc & Hnx);
    [by rewrite (rep_size _ _ R1)|].
  eexists. split_and!; [exact R2| |exact Hc| |].
  - rewrite fmap_drop, fmap_app, strip_recency. rewrite !length_app.
    rewrite <- strip_recency, length_fmap. done.
  - rewrite Hnx. simpl. unfold u64_add. rewrite Z.mod_small; lia.
  - rewrite length_drop. simpl. lia.
Qed.

Lemma rep_new cap : rep {| capacity := cap; entries := ∅; order := ∅; next_stamp := 0;
  evictions := 0 |} [].
Proof. split; simpl; try (constructor); try set_solver. Qed.
End Simulation.

(** ** A lookup right after an insertion *)

Lemma lookup_key_last {V} key (v : V) l :
  key ∉ l.*1 → lookup_key key (l ++ [(key, v)]) = Some v.
Proof.
  unfold lookup_key. induction l as [|[k w] l IH]; intros Hk; csimpl in *.
  - by destruct (decide (key = key)).
  - apply not_elem_of_cons in Hk as [Hne Hk]. destruct (decide (k = key)) as [->|]; [done|].
    rewrite <- (IH Hk). by destruct (list_find _ _).
Qed.

Lemma without_keys {V} key (l : recency V) : key ∉ (without key l).*1.
Proof.
  intros ([k v] & Hk & Hin)%list_elem_of_fmap. unfold without in Hin.
  apply list_elem_of_In, filter_In in Hin as [_ Hin]. simpl in *. subst.
  by rewrite String.eqb_refl in Hin.
Qed.

(** A cache in a reachable state that still has stamps left. *)
Definition cache_wf {V} (c : BoundedIdempotencyCache V) : Prop :=
  (∃ l, rep c l) ∧ 0 ≤ next_stamp c < 2 ^ 64 - 3.

Lemma get_after_set {V} key v (c : BoundedIdempotencyCache V) :
  (∃ l, rep c l) → 0 ≤ next_stamp c < 2 ^ 64 - 2 →
  (get key (set key v c)).1 = if Nat.eqb (capacity c) 0 then None else Some v.
Proof.
  intros [l R] Hn. destruct (set_rep c l key v R) as (l' & R' & Hs & Hc & Hnx & _); [lia|].
  destruct (get_rep _ l' key R') as (l'' & _ & Hg & _); [lia|].
  assert (Hfst : (get key (set key v c)).1 = lookup_key key l'.*2).
  { apply (f_equal fst) in Hg. simpl in Hg. rewrite <- Hg. unfold spec_get.
    by destruct (lookup_key key l'.*2). }
  rewrite Hfst, <- Hs. unfold spec_set. rewrite length_app. simpl.
  destruct (Nat.eqb_spec (capacity c) 0) as [->|Hne].
  - rewrite drop_ge; [done|]. rewrite length_app. simpl. lia.
  - rewrite drop_app_le by lia. apply lookup_key_last.
    intros Hin. apply (without_keys key l.*2). rewrite fmap_drop in Hin.
    eapply subseteq_drop; exact Hin.
Qed.

(** ** Sequences of operations *)

Inductive cache_op (V : Type) : Type := OpGet (key : string) | OpSet (key : string) (value : V).
Arguments OpGet {V} key.
Arguments OpSet {V} key value.

Definition run_op {V} (c : BoundedIdempotencyCache V) (op : cache_op V) :
    option V * BoundedIdempotencyCache V :=
  match op with OpGet k => get k c | OpSet k v => (None, set k v c) end.
Definition spec_op {V} (cap : nat) (l : recency V) (op : cache_op V) : option V * recency V :=
  match op with OpGet k => spec_get k l | OpSet k v => (None, spec_set cap k v l) end.

Fixpoint run_all {V} (c : BoundedIdempotencyCache V) (ops : list (cache_op V)) :
    list (option V) * BoundedIdempotencyCache V :=
  match ops with
  | [] => ([], c)
  | op :: ops' => let '(r, c') := run_op c op in
                  let '(rs, c'') := run_all c' ops' in (r :: rs, c'')
  end.
Fixpoint spec_all {V} (cap : nat) (l : recency V) (ops : list (cache_op V)) :
    list (option V) * recency V :=
  match ops with
  | [] => ([], l)
  | op :: ops' => let '(r, l') := spec_op cap l op in
                  let '(rs, l'') := spec_all cap l' ops' in (r :: rs, l'')
  end.

Lemma run_all_rep {V} (ops : list (cache_op V)) c l :
  rep c l → 0 ≤ next_stamp c → next_stamp c + Z.of_nat (length ops) < 2 ^ 64 →
  (length l ≤ capacity c)%nat →
  (run_all c ops).1 = (spec_all (capacity c) l.*2 ops).1
  ∧ cache_size (run_all c ops).2 = length (spec_all (capacity c) l.*2 ops).2
  ∧ (cache_size (run_all c ops).2 ≤ capacity c)%nat.
Proof.
  revert c l. induction ops as [|op ops IH]; intros c l R H0 Hn Hl.
  - simpl. unfold cache_size. rewrite (rep_size _ _ R), length_fmap. done.
  - cbn [length] in Hn. destruct op as [k|k v]; simpl.
    + destruct (get_rep c l k R) as (l' & R' & Hs & Hc & Hnx); [lia|].
      destruct (get k c) as [r c'] eqn:Eg. simpl in *. rewrite Hs.
      assert (Hlen : length l' = length l).
      { rewrite <- (rep_size _ _ R), <- (rep_size _ _ R').
        unfold get in Eg. destruct (entries c !! k) as [[s w]|] eqn:Ee; simplify_eq/=; [|done].
        apply map_size_insert_Some. eauto. }
      destruct (IH c' l' R') as (I1 & I2 & I3); [lia|lia|lia|]. rewrite Hc in *.
      destruct (run_all c' ops), (spec_all (capacity c) l'.*2 ops). simpl in *. by subst.
    + destruct (set_rep c l k v R) as (l' & R' & Hs & Hc & Hnx & Hlen); [lia|].
      rewrite Hs. destruct (IH (set k v c) l' R') as (I1 & I2 & I3); [lia|lia|lia|].
      rewrite Hc in *.
      destruct (run_all (set k v c) ops), (spec_all (capacity c) l'.*2 ops). simpl in *. by subst.
Qed.

(** C10: the cache implements its recency list: from a new cache, any sequence
    of up to [2^64 - 1] lookups and insertions returns exactly what the list of
    bindings in recency order returns (a hit moves to the end, an insertion goes
    to the end and the least recently used bindings are dropped from the front),
    and the cache never holds more entries than its capacity. *)
Theorem lru_refines_recency {V} fmt_f64 cap (c : BoundedIdempotencyCache V)
    (ops : list (cache_op V)) :
  new fmt_f64 cap = Ok c → Z.of_nat (length ops) < 2 ^ 64 →
  (run_all c ops).1 = (spec_all (capacity c) [] ops).1
  ∧ cache_size (run_all c ops).2 = length (spec_all (capacity c) [] ops).2
  ∧ (cache_size (run_all c ops).2 ≤ capacity c)%nat.
Proof.
  unfold new. destruct (negb _ || _); [done|]. intros [= <-] Hn.
  apply (run_all_rep ops _ [] (rep_new _)); simpl; lia.
Qed.

Definition sample_cache : BoundedIdempotencyCache Z :=
  {| capacity := 2; entries := ∅; order := ∅; next_stamp := 0; evictions := 0 |}.

Lemma lru_refines_recency_witness :
  (run_all sample_cache
    [OpSet "a" 1; OpSet "b" 2; OpGet "a"; OpSet "c" 3; OpGet "b"; OpGet "a"]).1
  = [None; None; Some 1; None; None; Some 1].
Proof.
  rewrite (proj1 (lru_refines_recency (λ _, "") (F64_fin 5 (-1)) sample_cache
    [OpSet "a" 1; OpSet "b" 2; OpGet "a"; OpSet "c" 3; OpGet "b"; OpGet "a"] eq_refl eq_refl)).
  vm_compute. reflexivity.
Defined.
