(* ===== verification/StreamStore.v ===== *)
(** * The stream store ([frick-store/src/stores/stream.rs])

    The append-only event log with its durable idempotency table and the
    optional in-process front cache. [append] is deliberately not a
    transaction: a statement that ran keeps its effect when a later one fails,
    which is what the state-and-error monad does. The [stream_events] table is
    its list of rows with the primary key [(tenant, stream_type, stream_id,
    sequence)] and the unique index [(tenant, event_id)] checked on insertion.
    Epoch milliseconds in [f64] are exact below [2^53]; they are integers here,
    with [None] for NaN. *)

From Stdlib Require Import ZArith Lia Ascii String.
From stdpp Require Import base gmap strings list sorting pretty.
From S2P Require Import Prelude Value Schema Codec Timestamp StoreBase Encryption Samples IdempotencyCache.

Record StoredEvent : Type := {
  st_event : StreamEventInput; st_tenant_id : string; st_app_id : string;
}.
Record AppendResult : Type := { ar_event : StoredEvent; ar_created : bool }.
Record CachedIdempotentEvent : Type := { ci_event : StoredEvent; ci_created_at_ms : option Z }.
Record StreamRetentionPolicy : Type := {
  rp_max_age_ms : option Z; rp_max_events : option Z;
  rp_tenant_id : option string; rp_app_id : option string;
}.
Record StreamRetentionPruneResult : Type := { pruned_by_age : Z; pruned_by_count : Z }.
Record StreamHead : Type := { head_sequence : Z; head_count : Z }.

Definition REDACTED_EVENT_TYPE_MARKER : string := "__redacted__".

(** The columns of [stream_events]. *)
Record EventRow : Type := {
  ev_app_id : string; ev_tenant_id : string; ev_stream_type : string; ev_stream_id : string;
  ev_sequence : Z; ev_event_id : string; ev_event_type : string; ev_packed : blob;
  ev_replica_id : string; ev_request_id : string; ev_created_at : string;
}.

Record StreamDb : Type := {
  stream_events : list EventRow;
  (** key [(app, tenant, replica, request)], value [(result_event_id, created_at)] *)
  idempotency_keys : gmap (string * string * string * string) (string * string);
}.

Abbreviation EventCache := (BoundedIdempotencyCache CachedIdempotentEvent).

(** The database and the cache handed to [append]. *)
Definition StreamState : Type := (StreamDb * option EventCache)%type.

Definition event_field_eq (payload : Value) (field expected : string) : bool :=
  match as_map payload with
  | Some entries =>
      existsb (λ e, key_is field e.1
                    && match as_str e.2 with Some s => String.eqb s expected | None => false end)
        entries
  | None => false
  end.

(** ** The SQL of the store *)

(** [WHERE tenant_id = ? AND stream_type = ? AND stream_id = ?]. *)
Definition in_stream (tenant_id stream stream_id : string) (r : EventRow) : bool :=
  String.eqb (ev_tenant_id r) tenant_id && String.eqb (ev_stream_type r) stream
  && String.eqb (ev_stream_id r) stream_id.
Definition in_app_stream (app_id tenant_id stream stream_id : string) (r : EventRow) : bool :=
  String.eqb (ev_app_id r) app_id && in_stream tenant_id stream stream_id r.

Definition max_sequence (rows : list EventRow) : option Z :=
  match rows with
  | [] => None
  | r :: rs => Some (foldl (λ m x, Z.max m (ev_sequence x)) (ev_sequence r) rs)
  end.

(** [INSERT INTO stream_events]: fails when the primary key or the unique index
    is violated. *)
Definition same_pk (a b : EventRow) : bool :=
  in_stream (ev_tenant_id a) (ev_stream_type a) (ev_stream_id a) b
  && (ev_sequence a =? ev_sequence b).
Definition same_event_id (a b : EventRow) : bool :=
  String.eqb (ev_tenant_id a) (ev_tenant_id b) && String.eqb (ev_event_id a) (ev_event_id b).

Definition sequence_le (a b : EventRow) : bool := ev_sequence a <=? ev_sequence b.
Definition sequence_ge (a b : EventRow) : bool := ev_sequence b <=? ev_sequence a.

(** [ORDER BY stream_id ASC, sequence ASC] and with [stream_type] first. *)
Definition id_sequence_le (a b : EventRow) : bool :=
  if String.eqb (ev_stream_id a) (ev_stream_id b) then sequence_le a b
  else Str.leb (ev_stream_id a) (ev_stream_id b).
Definition type_id_sequence_le (a b : EventRow) : bool :=
  if String.eqb (ev_stream_type a) (ev_stream_type b) then id_sequence_le a b
  else Str.leb (ev_stream_type a) (ev_stream_type b).

Section StreamStore.
Context `{PackedColumn PackedStreamEvent, Crypto}.
(** The fields of [StreamStore], and the driver's text for a violated
    constraint. *)
Context (schema : FrickSchema) (replay_window_ms : option Z) (encryption : option KeyProvider).
Context (constraint_failed : string).

(** [StreamStore::new]: only a positive window is kept. *)
Definition new_window (w : option Z) : option Z :=
  match w with Some x => if 0 <? x then Some x else None | None => None end.

Definition seal_packed (nonce : blob) (tenant_id : string) (encoded : blob) :
    result StoreError blob :=
  match encryption with Some e => encrypt e nonce tenant_id encoded | None => Ok encoded end.
Definition open_packed (tenant_id : string) (stored : blob) : result StoreError blob :=
  match encryption with Some e => decrypt e tenant_id stored | None => Ok stored end.

Definition within_replay_window (created_at_ms : option Z) (now_ms : Z) : bool :=
  match replay_window_ms with
  | None => true
  | Some window =>
      match created_at_ms with
      | None => false
      | Some c => now_ms - c <=? window
      end
  end.

(** [parse_iso_ms]: NaN for text that does not parse. *)
Definition parse_iso_ms (text : string) : option Z := parse_iso_ms_opt text.

Definition unpack_row (row : EventRow) (tenant_id app_id : string) : result StoreError StoredEvent :=
  opened ← open_packed tenant_id (ev_packed row);
  packed ← decode_packed (T := PackedStreamEvent) opened;
  event ← map_err protocol_error (unpack_stream_event schema packed);
  Ok {| st_event := event; st_tenant_id := tenant_id; st_app_id := app_id |}.

Definition map_events (rows : list EventRow) (tenant_id app_id : string) :
    result StoreError (list StoredEvent) :=
  map_res (λ r, unpack_row r tenant_id app_id) rows.

Definition read_by_event_id (db : StreamDb) (app_id tenant_id event_id : string) :
    result StoreError (option StoredEvent) :=
  match list_find (λ r, String.eqb (ev_app_id r) app_id && String.eqb (ev_tenant_id r) tenant_id
                        && String.eqb (ev_event_id r) event_id = true) (stream_events db) with
  | None => Ok None
  | Some (_, row) => e ← unpack_row row tenant_id app_id; Ok (Some e)
  end.

Definition read_idempotent_event (db : StreamDb) (app_id tenant_id replica_id request_id : string)
    (now_ms : Z) : result StoreError (option CachedIdempotentEvent) :=
  match idempotency_keys db !! (app_id, tenant_id, replica_id, request_id) with
  | None => Ok None
  | Some (result_event_id, created_at) =>
      let created_at_ms := parse_iso_ms created_at in
      if negb (within_replay_window created_at_ms now_ms) then Ok None
      else match read_by_event_id db app_id tenant_id result_event_id with
           | Ok (Some e) => Ok (Some {| ci_event := e; ci_created_at_ms := created_at_ms |})
           | Ok None => Ok None
           | Err e => Err e
           end
  end.

(** [SELECT COALESCE(MAX(sequence), 0) + 1]; past [i64::MAX] SQLite promotes to
    REAL, which is not an integer column value, so the code falls back to 1. *)
Definition next_sequence (db : StreamDb) (tenant_id stream stream_id : string) : Z :=
  let m := default 0 (max_sequence (select (in_stream tenant_id stream stream_id)
                                      (stream_events db))) in
  if m =? i64_max then 1 else m + 1.

Definition cache_key (app_id tenant_id replica_id request_id : string) : string :=
  app_id +:+ "|" +:+ tenant_id +:+ "|" +:+ replica_id +:+ "|" +:+ request_id.

Definition insert_event (row : EventRow) : M StreamDb StoreError unit := λ db,
  if existsb (same_pk row) (stream_events db) || existsb (same_event_id row) (stream_events db)
  then (Err (Driver constraint_failed), db)
  else (Ok tt, {| stream_events := stream_events db ++ [row];
                  idempotency_keys := idempotency_keys db |}).

Definition upsert_key (app_id tenant_id replica_id request_id event_id created_at : string)
    (db : StreamDb) : StreamDb :=
  {| stream_events := stream_events db;
     idempotency_keys := <[(app_id, tenant_id, replica_id, request_id) := (event_id, created_at)]>
                           (idempotency_keys db) |}.

(** Steps 3 to 5 of [append]. *)
Definition append_new (nonce : blob) (tenant_id stream stream_id replica_id request_id event : string)
    (payload : Value) (app_id event_id : string) (now_ms : Z) : M StreamDb StoreError StoredEvent :=
  λ db,
  let sequence := next_sequence db tenant_id stream stream_id in
  let wire_event := {| se_stream := stream; se_stream_id := stream_id; se_sequence := sequence;
                       se_event_id := event_id; se_event := event; se_payload := payload |} in
  match map_err protocol_error (pack_stream_event schema wire_event) with
  | Err e => (Err e, db)
  | Ok packed =>
      match (encoded ← encode_packed packed; seal_packed nonce tenant_id encoded) with
      | Err e => (Err e, db)
      | Ok stored_packed =>
          let created_at := iso_from_epoch_ms now_ms in
          match insert_event {| ev_app_id := app_id; ev_tenant_id := tenant_id;
                  ev_stream_type := stream; ev_stream_id := stream_id; ev_sequence := sequence;
                  ev_event_id := event_id; ev_event_type := event; ev_packed := stored_packed;
                  ev_replica_id := replica_id; ev_request_id := request_id;
                  ev_created_at := created_at |} db with
          | (Err e, db') => (Err e, db')
          | (Ok _, db') =>
              (Ok {| st_event := wire_event; st_tenant_id := tenant_id; st_app_id := app_id |},
               upsert_key app_id tenant_id replica_id request_id event_id created_at db')
          end
      end
  end.

Definition cache_set (key : string) (v : CachedIdempotentEvent) (c : option EventCache) :
    option EventCache := set key v <$> c.

Definition append (nonce : blob) (tenant_id stream stream_id replica_id request_id event : string)
    (payload : Value) (app_id event_id : string) (now_ms : Z) :
    M StreamState StoreError AppendResult := λ '(db, cache),
  let key := cache_key app_id tenant_id replica_id request_id in
  let hit := match cache with Some c => (get key c).1 | None => None end in
  let cache1 := (λ c, (get key c).2) <$> cache in
  let cached := match hit with
                | Some v => if within_replay_window (ci_created_at_ms v) now_ms then Some v else None
                | None => None
                end in
  match cached with
  | Some v => (Ok {| ar_event := ci_event v; ar_created := false |}, (db, cache1))
  | None =>
      match read_idempotent_event db app_id tenant_id replica_id request_id now_ms with
      | Err e => (Err e, (db, cache1))
      | Ok (Some existing) =>
          (Ok {| ar_event := ci_event existing; ar_created := false |},
           (db, cache_set key existing cache1))
      | Ok None =>
          match append_new nonce tenant_id stream stream_id replica_id request_id event payload
                  app_id event_id now_ms db with
          | (Err e, db') => (Err e, (db', cache1))
          | (Ok stored, db') =>
              (Ok {| ar_event := stored; ar_created := true |},
               (db', cache_set key {| ci_event := stored;
                       ci_created_at_ms := parse_iso_ms (iso_from_epoch_ms now_ms) |} cache1))
          end
      end
  end.

(** ** Reads *)

Definition list_all_by_stream_type (db : StreamDb) (tenant_id stream app_id : string) :
    result StoreError (list StoredEvent) :=
  map_events (order_by id_sequence_le
    (select (λ r, String.eqb (ev_app_id r) app_id && String.eqb (ev_tenant_id r) tenant_id
                  && String.eqb (ev_stream_type r) stream) (stream_events db))) tenant_id app_id.

Definition list_all (db : StreamDb) (tenant_id app_id : string) :
    result StoreError (list StoredEvent) :=
  map_events (order_by type_id_sequence_le
    (select (λ r, String.eqb (ev_app_id r) app_id && String.eqb (ev_tenant_id r) tenant_id)
       (stream_events db))) tenant_id app_id.

(** [.. AND sequence > ? ORDER BY sequence ASC], the rows of a cursor read. *)
Definition rows_after (db : StreamDb) (tenant_id stream stream_id : string) (after : Z)
    (app_id : string) : list EventRow :=
  order_by sequence_le
    (select (λ r, in_app_stream app_id tenant_id stream stream_id r && (after <? ev_sequence r))
       (stream_events db)).

Definition read (db : StreamDb) (tenant_id stream stream_id : string) (after : Z)
    (limit : option Z) (app_id : string) : result StoreError (list StoredEvent) :=
  let rows := rows_after db tenant_id stream stream_id after app_id in
  match limit with
  | None => map_events rows tenant_id app_id
  | Some l => map_events (take (Z.to_nat (Z.max l 1)) rows) tenant_id app_id
  end.

Definition head (db : StreamDb) (tenant_id stream stream_id app_id : string) : StreamHead :=
  let rows := select (in_app_stream app_id tenant_id stream stream_id) (stream_events db) in
  {| head_sequence := default 0 (max_sequence rows); head_count := Z.of_nat (length rows) |}.

Definition read_before (db : StreamDb) (tenant_id stream stream_id : string) (before limit : Z)
    (app_id : string) : result StoreError (list StoredEvent) :=
  let clamped := Z.max 1 (Z.min limit 500) in
  let cutoff := if 0 <? before then before else 9007199254740991 in
  let rows := take (Z.to_nat clamped) (order_by sequence_ge
    (select (λ r, in_app_stream app_id tenant_id stream stream_id r && (ev_sequence r <? cutoff))
       (stream_events db))) in
  events ← map_events rows tenant_id app_id;
  Ok (reverse events).

(** ** Retention *)

Definition scope_matches (p : StreamRetentionPolicy) (r : EventRow) : bool :=
  match rp_tenant_id p with Some t => String.eqb (ev_tenant_id r) t | None => true end
  && match rp_app_id p with Some a => String.eqb (ev_app_id r) a | None => true end.

Definition delete_events (where_ : EventRow → bool) (db : StreamDb) : Z * StreamDb :=
  (changes where_ (stream_events db),
   {| stream_events := delete_where where_ (stream_events db);
      idempotency_keys := idempotency_keys db |}).

Definition prune_by_age (stream_type : string) (p : StreamRetentionPolicy) (now_ms : Z)
    (db : StreamDb) : Z * StreamDb :=
  match rp_max_age_ms p with
  | Some max_age_ms =>
      if 0 <? max_age_ms then
        let cutoff := iso_from_epoch_ms (i64_sub now_ms max_age_ms) in
        delete_events (λ r, String.eqb (ev_stream_type r) stream_type
                            && Str.ltb (ev_created_at r) cutoff && scope_matches p r) db
      else (0, db)
  | None => (0, db)
  end.

(** The correlated subquery ranges over all rows of the stream, whatever their
    app, and sees the table before the deletion. *)
Definition prune_by_count (stream_type : string) (p : StreamRetentionPolicy)
    (db : StreamDb) : Z * StreamDb :=
  match rp_max_events p with
  | Some max_events =>
      if 0 <=? max_events then
        delete_events (λ r, String.eqb (ev_stream_type r) stream_type
          && match max_sequence (select (in_stream (ev_tenant_id r) (ev_stream_type r)
                                           (ev_stream_id r)) (stream_events db)) with
             | Some m => ev_sequence r <=? m - max_events
             | None => false
             end
          && scope_matches p r) db
      else (0, db)
  | None => (0, db)
  end.

Definition prune_step (now_ms : Z) (acc : StreamRetentionPruneResult * StreamDb)
    (policy : string * StreamRetentionPolicy) : StreamRetentionPruneResult * StreamDb :=
  let '(res, db) := acc in
  let '(stream_type, p) := policy in
  let '(n1, db1) := prune_by_age stream_type p now_ms db in
  let '(n2, db2) := prune_by_count stream_type p db1 in
  ({| pruned_by_age := pruned_by_age res + n1; pruned_by_count := pruned_by_count res + n2 |}, db2).

Definition prune_retention (policies : list (string * StreamRetentionPolicy)) (now_ms : Z)
    (db : StreamDb) : StreamRetentionPruneResult * StreamDb :=
  foldl (prune_step now_ms) ({| pruned_by_age := 0; pruned_by_count := 0 |}, db) policies.

(** ** Redaction *)

Definition set_packed (packed : blob) (event_type : string) (r : EventRow) : EventRow :=
  {| ev_app_id := ev_app_id r; ev_tenant_id := ev_tenant_id r; ev_stream_type := ev_stream_type r;
     ev_stream_id := ev_stream_id r; ev_sequence := ev_sequence r; ev_event_id := ev_event_id r;
     ev_event_type := event_type; ev_packed := packed; ev_replica_id := ev_replica_id r;
     ev_request_id := ev_request_id r; ev_created_at := ev_created_at r |}.

Definition at_address (app_id tenant_id stream stream_id : string) (sequence : Z) (r : EventRow) :
    bool :=
  in_app_stream app_id tenant_id stream stream_id r && (ev_sequence r =? sequence).

Definition tombstone (p : PackedStreamEvent) : PackedStreamEvent :=
  {| pse_stream_type := pse_stream_type p; pse_stream_key := pse_stream_key p;
     pse_sequence := pse_sequence p; pse_event_id := pse_event_id p;
     pse_event_type := pse_event_type p; pse_fields := [] |}.

Definition redact_event (nonce : blob) (tenant_id stream stream_id : string) (sequence : Z)
    (app_id : string) : M StreamDb StoreError bool := λ db,
  let where_ := at_address app_id tenant_id stream stream_id sequence in
  match select where_ (stream_events db) with
  | [] => (Ok false, db)
  | row :: _ =>
      match (opened ← open_packed tenant_id (ev_packed row);
             packed ← decode_packed (T := PackedStreamEvent) opened;
             encoded ← encode_packed (tombstone packed);
             seal_packed nonce tenant_id encoded) with
      | Err e => (Err e, db)
      | Ok encoded =>
          (Ok (0 <? changes where_ (stream_events db)),
           {| stream_events := update_where where_ (set_packed encoded REDACTED_EVENT_TYPE_MARKER)
                                 (stream_events db);
              idempotency_keys := idempotency_keys db |})
      end
  end.

(** The loop over the listed events; [nonces] supplies one nonce per write. *)
Fixpoint redact_matching (nonce : nat → blob) (tenant_id stream app_id field value : string)
    (events : list StoredEvent) (redacted : Z) : M StreamDb StoreError Z :=
  match events with
  | [] => mret redacted
  | stored :: events' =>
      if negb (event_field_eq (se_payload (st_event stored)) field value)
      then redact_matching nonce tenant_id stream app_id field value events' redacted
      else
        done ← redact_event (nonce (length events')) tenant_id stream
                 (se_stream_id (st_event stored)) (se_sequence (st_event stored)) app_id;
        redact_matching nonce tenant_id stream app_id field value events'
          (if done : bool then redacted + 1 else redacted)
  end.

Definition redact_by_field (nonce : nat → blob) (tenant_id stream app_id field value : string) :
    M StreamDb StoreError Z :=
  db ← get_state;
  events ← lift_res (list_all_by_stream_type db tenant_id stream app_id);
  redact_matching nonce tenant_id stream app_id field value events 0.
End StreamStore.

(** ** Sequences *)

Lemma max_sequence_spec rows :
  match max_sequence rows with
  | Some m => (∃ r, r ∈ rows ∧ ev_sequence r = m) ∧ ∀ r, r ∈ rows → ev_sequence r ≤ m
  | None => rows = []
  end.
Proof.
  destruct rows as [|r rows]; simpl; [done|]. revert r.
  induction rows as [|x rows IH]; intros r; simpl.
  - split; [exists r; set_solver|]. intros r' Hr'. apply list_elem_of_singleton in Hr' as ->. lia.
  - destruct (decide (ev_sequence r ≤ ev_sequence x)).
    + destruct (IH x) as [(y & Hy & Hm) Hle]. rewrite Z.max_r by lia. split.
      * exists y. split; [set_solver|done].
      * intros r' Hr'. apply elem_of_cons in Hr' as [->|Hr']; [|by apply Hle].
        specialize (Hle x ltac:(set_solver)). lia.
    + destruct (IH r) as [(y & Hy & Hm) Hle]. rewrite Z.max_l by lia. split.
      * exists y. split; [set_solver|done].
      * intros r' Hr'. apply elem_of_cons in Hr' as [->|Hr']; [apply Hle; set_solver|].
        apply elem_of_cons in Hr' as [->|Hr']; [|apply Hle; set_solver].
        specialize (Hle r ltac:(set_solver)). lia.
Qed.

(** The rows of a stream carry positive sequences below the [i64] limit. *)
Definition sequences_ok (db : StreamDb) : Prop :=
  ∀ r, r ∈ stream_events db → 1 ≤ ev_sequence r < i64_max.

Lemma next_sequence_fresh db tenant stream sid :
  sequences_ok db →
  1 ≤ next_sequence db tenant stream sid
  ∧ (∀ r, r ∈ stream_events db → in_stream tenant stream sid r = true →
        ev_sequence r < next_sequence db tenant stream sid)
  ∧ (next_sequence db tenant stream sid = 1
     ∨ ∃ r, r ∈ stream_events db ∧ in_stream tenant stream sid r = true
            ∧ next_sequence db tenant stream sid = ev_sequence r + 1).
Proof.
  intros Hok. unfold next_sequence.
  pose proof (max_sequence_spec (select (in_stream tenant stream sid) (stream_events db))) as Hm.
  destruct (max_sequence _) as [m|]; simpl.
  - destruct Hm as [(x & [Hx Hin]%elem_of_select & Hxm) Hle]. pose proof (Hok x Hx).
    destruct (Z.eqb_spec m i64_max); [lia|]. split_and!; [lia| |].
    + intros r Hr Hs. specialize (Hle r ltac:(apply elem_of_select; done)). lia.
    + right. exists x. split_and!; [done|done|lia].
  - split_and!; [lia| |by left]. intros r Hr Hs.
    assert (Hrin : r ∈ select (in_stream tenant stream sid) (stream_events db))
      by by apply elem_of_select.
    rewrite Hm in Hrin. by inversion Hrin.
Qed.

(** The packed event a row holds. *)
Definition row_packed `{PackedColumn PackedStreamEvent, Crypto} (encryption : option KeyProvider)
    (row : EventRow) : result StoreError PackedStreamEvent :=
  opened ← open_packed encryption (ev_tenant_id row) (ev_packed row); decode_packed opened.

Section Append.
Context `{PackedColumn PackedStreamEvent, CryptoLaws}.
Context (schema : FrickSchema) (window : option Z) (encryption : option KeyProvider).
Context (constraint_failed : string).
Hypothesis schema_ok : validate_schema schema = Ok tt.
Hypothesis Hengine : engine_ok (T := PackedStreamEvent) encryption.

(** What a successful insertion of a new event does. *)
Lemma append_new_Ok nonce tenant stream sid replica request event payload app eid now db db' stored :
  append_new schema encryption constraint_failed nonce tenant stream sid replica request event
    payload app eid now db = (Ok stored, db') →
  stored = {| st_event := {| se_stream := stream; se_stream_id := sid;
                se_sequence := next_sequence db tenant stream sid; se_event_id := eid;
                se_event := event; se_payload := payload |};
              st_tenant_id := tenant; st_app_id := app |}
  ∧ ∃ row, stream_events db' = stream_events db ++ [row]
    ∧ idempotency_keys db' = <[(app, tenant, replica, request) := (eid, iso_from_epoch_ms now)]>
                               (idempotency_keys db)
    ∧ ev_app_id row = app ∧ ev_tenant_id row = tenant ∧ ev_stream_type row = stream
    ∧ ev_stream_id row = sid ∧ ev_sequence row = next_sequence db tenant stream sid
    ∧ ev_event_id row = eid ∧ ev_created_at row = iso_from_epoch_ms now
    ∧ existsb (same_event_id row) (stream_events db) = false
    ∧ (length nonce = NONCE_LEN →
       ∃ packed, row_packed encryption row = Ok packed ∧ pse_sequence packed = ev_sequence row)
    ∧ (length nonce = NONCE_LEN → record_value payload →
       unpack_row schema encryption row tenant app = Ok stored).
Proof using Hengine H1 schema_ok.
  unfold append_new. set (wire := {| se_stream := stream |}).
  destruct (pack_stream_event schema wire) as [packed|] eqn:Ep; simpl; [|done].
  destruct (encode_packed packed) as [enc|] eqn:Ee; simpl; [|done].
  destruct (seal_packed encryption nonce tenant enc) as [b|] eqn:Es; [|done].
  unfold insert_event. set (row := {| ev_app_id := app; ev_packed := b |}).
  destruct (existsb (same_pk row) (stream_events db)) eqn:Epk; [done|].
  destruct (existsb (same_event_id row) (stream_events db)) eqn:Eid; [done|]. simpl.
  intros [= <- <-]. split; [done|]. exists row. split_and!; try done.
  - intros Hn. exists packed. unfold row_packed, open_packed. cbn [ev_packed ev_tenant_id row].
    rewrite (open_sealed encryption Hengine nonce tenant packed enc b Hn Ee Es).
    cbn [mbind result_bind]. rewrite (decode_encode_packed _ _ Ee). split; [done|].
    unfold pack_stream_event in Ep. destruct (stream_by_name schema _), (event_by_name schema _);
      try done; cbn [mbind result_bind] in Ep.
    destruct (pack_fields _ _); simpl in Ep; by simplify_eq.
  - intros Hn Hp. unfold unpack_row. cbn [ev_packed row].
    unfold open_packed. rewrite (open_sealed encryption Hengine nonce tenant packed enc b Hn Ee Es).
    cbn [mbind result_bind]. rewrite (decode_encode_packed _ _ Ee). cbn [mbind result_bind].
    rewrite (unpack_pack_stream_event schema wire packed schema_ok Hp Ep). done.
Qed.

(** The only constraint a new event can violate is the uniqueness of its id. *)
Lemma insert_never_pk row db :
  sequences_ok db →
  ev_sequence row = next_sequence db (ev_tenant_id row) (ev_stream_type row) (ev_stream_id row) →
  existsb (same_pk row) (stream_events db) = false.
Proof using Type.
  intros Hok Hseq. apply not_true_iff_false. intros (r & Hin & Hpk)%existsb_exists.
  unfold same_pk in Hpk. apply andb_prop in Hpk as [Hs Heq%Z.eqb_eq].
  apply list_elem_of_In in Hin.
  destruct (next_sequence_fresh db (ev_tenant_id row) (ev_stream_type row) (ev_stream_id row) Hok)
    as (_ & Hlt & _). specialize (Hlt r Hin Hs). lia.
Qed.
End Append.

Section Replay.
Context `{PackedColumn PackedStreamEvent, CryptoLaws}.
Context (schema : FrickSchema) (window : option Z) (encryption : option KeyProvider).
Context (constraint_failed : string).
Hypothesis schema_ok : validate_schema schema = Ok tt.
Hypothesis Hengine : engine_ok (T := PackedStreamEvent) encryption.

(** A created result comes from [append_new] on the database as it was. *)
Lemma append_created nonce tenant stream sid replica request event payload app eid now db cache r
    db' cache' :
  append schema window encryption constraint_failed nonce tenant stream sid replica request event
    payload app eid now (db, cache) = (Ok r, (db', cache')) →
  ar_created r = true →
  append_new schema encryption constraint_failed nonce tenant stream sid replica request event
    payload app eid now db = (Ok (ar_event r), db')
  ∧ cache' = cache_set (cache_key app tenant replica request)
      {| ci_event := ar_event r; ci_created_at_ms := parse_iso_ms (iso_from_epoch_ms now) |}
      ((λ c, (get (cache_key app tenant replica request) c).2) <$> cache).
Proof using Type.
  unfold append. set (key := cache_key app tenant replica request).
  set (cached := match match cache with Some c => (get key c).1 | None => None end with
    | Some v => if within_replay_window window (ci_created_at_ms v) now then Some v else None
    | None => None end).
  destruct cached as [v|]; [by intros [= <- _ _]|].
  destruct (read_idempotent_event _ _ _ _ _ _ _ _ _) as [[ex|]|]; [by intros [= <- _ _]| |done].
  destruct (append_new _ _ _ _ _ _ _ _ _ _ _ _ _ _ _) as [[stored|] db1]; [|done].
  by intros [= <- <- <-].
Qed.

Lemma find_new_row db row app tenant eid :
  ev_app_id row = app → ev_tenant_id row = tenant → ev_event_id row = eid →
  existsb (same_event_id row) (stream_events db) = false →
  list_find (λ r, String.eqb (ev_app_id r) app && String.eqb (ev_tenant_id r) tenant
                  && String.eqb (ev_event_id r) eid = true) (stream_events db ++ [row])
  = Some (length (stream_events db), row).
Proof using Type.
  intros <- <- <- Hno. apply list_find_Some. split_and!.
  - by rewrite lookup_app_r, Nat.sub_diag by lia.
  - by rewrite !String.eqb_refl.
  - intros i r Hi Hlt Hm. rewrite lookup_app_l in Hi by done.
    assert (existsb (same_event_id row) (stream_events db) = true); [|congruence].
    apply existsb_exists. exists r. split; [apply list_elem_of_In; by eapply list_elem_of_lookup_2|].
    rewrite !andb_true_iff in Hm. destruct Hm as [[_ Ht] He].
    unfold same_event_id. apply String.eqb_eq in Ht, He. by rewrite Ht, He, !String.eqb_refl.
Qed.

(** The durable lookup finds the event just created. *)
Lemma durable_replay nonce tenant stream sid replica request event payload app eid now db db' stored
    now2 :
  length nonce = NONCE_LEN → record_value payload → in_four_digit_years now →
  append_new schema encryption constraint_failed nonce tenant stream sid replica request event
    payload app eid now db = (Ok stored, db') →
  within_replay_window window (Some now) now2 = true →
  read_idempotent_event schema window encryption db' app tenant replica request now2
  = Ok (Some {| ci_event := stored; ci_created_at_ms := Some now |}).
Proof using Hengine H1 schema_ok.
  intros Hn Hp Hy Ha Hw.
  apply (append_new_Ok schema encryption constraint_failed schema_ok Hengine) in Ha
    as (_ & row & He & Hk & Happ & Hten & _ & _ & _ & Heid & _ & Hno & _ & Hu).
  unfold read_idempotent_event. rewrite Hk, lookup_insert_eq. unfold parse_iso_ms.
  rewrite iso_roundtrip_eq by done. cbv zeta. rewrite Hw. cbn [negb].
  unfold read_by_event_id. rewrite He, (find_new_row db row app tenant eid) by done.
  by rewrite (Hu Hn Hp).
Qed.

Lemma append_replay_eq nonce tenant stream sid replica request event payload app eid now db cache r
    db' cache' now2 :
  length nonce = NONCE_LEN → record_value payload → in_four_digit_years now →
  (∀ c, cache = Some c → cache_wf c) →
  append schema window encryption constraint_failed nonce tenant stream sid replica request event
    payload app eid now (db, cache) = (Ok r, (db', cache')) →
  ar_created r = true → within_replay_window window (Some now) now2 = true →
  ∀ nonce2 stream2 sid2 event2 payload2 eid2, ∃ cache'',
    append schema window encryption constraint_failed nonce2 tenant stream2 sid2 replica request
      event2 payload2 app eid2 now2 (db', cache')
    = (Ok {| ar_event := ar_event r; ar_created := false |}, (db', cache'')).
Proof using Hengine H1 schema_ok.
  intros Hn Hp Hy Hc Ha Hcr Hw nonce2 stream2 sid2 event2 payload2 eid2.
  destruct (append_created _ _ _ _ _ _ _ _ _ _ _ _ _ _ _ _ Ha Hcr) as [Hnew ->].
  pose proof (durable_replay _ _ _ _ _ _ _ _ _ _ _ _ _ _ now2 Hn Hp Hy Hnew Hw) as Hd.
  unfold append. set (key := cache_key app tenant replica request).
  destruct cache as [c|]; cbn [fmap option_fmap option_map cache_set].
  - destruct (Hc c eq_refl) as [[l R] Hst].
    destruct (get_rep c l key R) as (l' & R' & _ & Hcap & Hnx); [lia|].
    unfold cache_set, fmap, option_fmap, option_map.
    rewrite get_after_set; [|by eauto|lia].
    unfold parse_iso_ms at 1. rewrite iso_roundtrip_eq by done.
    destruct (Nat.eqb (capacity (get key c).2) 0); cbn [ci_created_at_ms].
    + rewrite Hd. by eexists.
    + rewrite Hw. cbn [ci_event]. by eexists.
  - rewrite Hd. by eexists.
Qed.
End Replay.

(** a new event takes the next sequence of its stream: when [append]
    creates an event, its sequence is larger than every sequence of that tenant,
    stream and stream id (whatever the app), one above an existing one or 1, the
    row goes to the end of the table and every existing row is kept; the primary
    key can never be the constraint that fails. *)
Theorem append_next_sequence `{PackedColumn PackedStreamEvent, CryptoLaws} schema window
    encryption msg nonce tenant stream sid replica request event payload app eid now db cache r
    db' cache' :
  validate_schema schema = Ok tt → engine_ok (T := PackedStreamEvent) encryption →
  length nonce = NONCE_LEN → record_value payload → sequences_ok db →
  append schema window encryption msg nonce tenant stream sid replica request event payload app
    eid now (db, cache) = (Ok r, (db', cache')) →
  ar_created r = true →
  se_sequence (st_event (ar_event r)) = next_sequence db tenant stream sid
  ∧ (∀ x, x ∈ stream_events db → in_stream tenant stream sid x = true →
        ev_sequence x < se_sequence (st_event (ar_event r)))
  ∧ (∃ row, stream_events db' = stream_events db ++ [row]
        ∧ existsb (same_pk row) (stream_events db) = false
        ∧ unpack_row schema encryption row tenant app = Ok (ar_event r)).
Proof.
  intros Hs He Hn Hp Hok Ha Hcr.
  destruct (append_created _ _ _ _ _ _ _ _ _ _ _ _ _ _ _ _ _ _ _ _ Ha Hcr) as [Hnew _].
  apply (append_new_Ok schema encryption msg Hs He) in Hnew
    as (Hst & row & Hev & _ & _ & Ht & Hty & Hsid & Hseq & _ & _ & _ & _ & Hu).
  destruct (next_sequence_fresh db tenant stream sid Hok) as (_ & Hlt & _).
  rewrite Hst. cbn [st_event se_sequence]. rewrite <- Hst. split_and!; [done|done|].
  exists row. split_and!; [done| |by apply Hu].
  apply insert_never_pk; [done|]. by rewrite Ht, Hty, Hsid.
Qed.

(** C4: appends are idempotent: once [append] has created an event for a
    request, every later append of the same app, tenant, replica and request
    within the replay window, with whatever stream, payload and event id, returns
    that very event with [created = false] and changes no row, with or without
    the front cache and whatever the cache's capacity. *)
Theorem append_idempotent `{PackedColumn PackedStreamEvent, CryptoLaws} schema window encryption
    msg nonce tenant stream sid replica request event payload app eid now db cache r db' cache'
    now2 nonce2 stream2 sid2 event2 payload2 eid2 :
  validate_schema schema = Ok tt → engine_ok (T := PackedStreamEvent) encryption →
  length nonce = NONCE_LEN → record_value payload → in_four_digit_years now →
  (∀ c, cache = Some c → cache_wf c) →
  append schema window encryption msg nonce tenant stream sid replica request event payload app
    eid now (db, cache) = (Ok r, (db', cache')) →
  ar_created r = true → within_replay_window window (Some now) now2 = true →
  ∃ cache'', append schema window encryption msg nonce2 tenant stream2 sid2 replica request event2
      payload2 app eid2 now2 (db', cache')
    = (Ok {| ar_event := ar_event r; ar_created := false |}, (db', cache'')).
Proof. intros. by eapply append_replay_eq. Qed.

(** ** The invariant of the log *)

Definition pk_of (r : EventRow) : string * string * string * Z :=
  (ev_tenant_id r, ev_stream_type r, ev_stream_id r, ev_sequence r).

(** Sequences in range, distinct addresses, and rows whose packed event carries
    the row's own sequence. *)
Record log_wf `{PackedColumn PackedStreamEvent, Crypto} (encryption : option KeyProvider)
    (db : StreamDb) : Prop := {
  lw_seq : sequences_ok db;
  lw_pk : NoDup (pk_of <$> stream_events db);
  lw_packed : ∀ r packed, r ∈ stream_events db → row_packed encryption r = Ok packed →
                pse_sequence packed = ev_sequence r;
}.

Lemma same_pk_false r x : same_pk r x = false → pk_of x ≠ pk_of r.
Proof.
  unfold same_pk, in_stream, pk_of. intros Hf [= Ht Hty Hi Hs].
  by rewrite Ht, Hty, Hi, Hs, !String.eqb_refl, Z.eqb_refl in Hf.
Qed.

Lemma NoDup_pk_select (w : EventRow → bool) tenant stream sid rows :
  (∀ r, w r = true → in_stream tenant stream sid r = true) →
  NoDup (pk_of <$> rows) → NoDup (ev_sequence <$> select w rows).
Proof.
  intros Hw. induction rows as [|x rows IH]; simpl; [constructor|].
  intros [Hx Hnd]%NoDup_cons. destruct (w x) eqn:E; [|by apply IH]. simpl.
  apply NoDup_cons. split; [|by apply IH]. intros (y & Hseq & Hy)%list_elem_of_fmap.
  apply elem_of_select in Hy as [Hy Hwy]. apply Hx, list_elem_of_fmap.
  exists y. split; [|done]. apply Hw in E. apply Hw in Hwy. unfold in_stream in *.
  rewrite !andb_true_iff, !String.eqb_eq in *. unfold pk_of.
  destruct E as [[-> ->] ->], Hwy as [[-> ->] ->]. by rewrite Hseq.
Qed.

Lemma strictly_ascending rows :
  StronglySorted (λ x y, sequence_le x y = true) rows → NoDup (ev_sequence <$> rows) →
  StronglySorted (λ x y, ev_sequence x < ev_sequence y) rows.
Proof.
  induction rows as [|x rows IH]; intros Hs Hnd; [constructor|].
  apply StronglySorted_inv in Hs as [Hs Hf]. simpl in Hnd. apply NoDup_cons in Hnd as [Hx Hnd].
  constructor; [by apply IH|]. rewrite Forall_forall in *. intros y Hy.
  specialize (Hf y Hy). unfold sequence_le in Hf. apply Z.leb_le in Hf.
  assert (ev_sequence x ≠ ev_sequence y); [|lia].
  intros Heq. apply Hx. apply list_elem_of_fmap. eauto.
Qed.

Lemma select_after_split A x B :
  StronglySorted (λ x y, ev_sequence x < ev_sequence y) (A ++ x :: B) →
  select (λ r, ev_sequence x <? ev_sequence r) (A ++ x :: B) = B.
Proof.
  intros Hs. unfold select. induction A as [|a A IH]; simpl in *.
  - rewrite Z.ltb_irrefl. apply StronglySorted_inv in Hs as [_ Hf].
    induction B as [|y B IHB]; simpl; [done|]. apply Forall_cons in Hf as [Hy Hf].
    rewrite (proj2 (Z.ltb_lt _ _) Hy). by rewrite IHB.
  - apply StronglySorted_inv in Hs as [Hs Hf]. rewrite IH by done.
    rewrite Forall_forall in Hf. specialize (Hf x ltac:(set_solver)).
    by rewrite (proj2 (Z.ltb_ge _ _)) by lia.
Qed.

Lemma sequence_le_total x y : sequence_le x y = true ∨ sequence_le y x = true.
Proof. unfold sequence_le. rewrite !Z.leb_le. lia. Qed.
Lemma sequence_le_trans x y z :
  sequence_le x y = true → sequence_le y z = true → sequence_le x z = true.
Proof. unfold sequence_le. rewrite !Z.leb_le. lia. Qed.

Section Pages.
Context `{PackedColumn PackedStreamEvent, Crypto}.
Context (schema : FrickSchema) (encryption : option KeyProvider).

Lemma rows_after_ascending db tenant stream sid after app :
  NoDup (pk_of <$> stream_events db) →
  StronglySorted (λ x y, ev_sequence x < ev_sequence y)
    (rows_after db tenant stream sid after app).
Proof using Type.
  intros Hpk. apply strictly_ascending.
  - apply order_by_sorted; [apply sequence_le_total|apply sequence_le_trans].
  - unfold rows_after. rewrite order_by_perm. apply (NoDup_pk_select _ tenant stream sid); [|done].
    intros r. unfold in_app_stream. rewrite !andb_true_iff. tauto.
Qed.

(** A later cursor reads a suffix of the rows of an earlier one. *)
Lemma rows_after_later db tenant stream sid after after' app :
  after ≤ after' →
  rows_after db tenant stream sid after' app
  = select (λ r, after' <? ev_sequence r) (rows_after db tenant stream sid after app).
Proof using Type.
  intros Hle. unfold rows_after.
  rewrite <- order_by_select by (apply sequence_le_total || apply sequence_le_trans).
  f_equal. unfold select. induction (stream_events db) as [|r rows IH]; simpl; [done|].
  destruct (in_app_stream _ _ _ _ r); simpl; [|done].
  destruct (Z.ltb_spec after (ev_sequence r)); simpl; [by destruct (after' <? _); rewrite IH|].
  by rewrite (proj2 (Z.ltb_ge after' _)) by lia.
Qed.

Lemma unpack_row_sequence db r tenant app e :
  log_wf encryption db → r ∈ stream_events db → ev_tenant_id r = tenant →
  unpack_row schema encryption r tenant app = Ok e → se_sequence (st_event e) = ev_sequence r.
Proof using Type.
  intros Hwf Hr <- Hu. unfold unpack_row in Hu.
  destruct (open_packed encryption (ev_tenant_id r) (ev_packed r)) as [o|] eqn:Eo; [|done].
  cbn [mbind result_bind] in Hu. destruct (decode_packed o) as [packed|] eqn:Ed; [|done].
  cbn [mbind result_bind] in Hu.
  rewrite <- (lw_packed _ _ Hwf r packed Hr).
  - unfold unpack_stream_event in Hu.
    destruct (stream_by_id _ _), (event_by_id _ _); try done. cbn [mbind result_bind] in Hu.
    destruct (unpack_fields _ _); [|done]. simpl in Hu. by simplify_eq.
  - unfold row_packed. by rewrite Eo.
Qed.

Lemma elem_of_rows_after db tenant stream sid after app r :
  r ∈ rows_after db tenant stream sid after app ↔
  r ∈ stream_events db ∧ in_app_stream app tenant stream sid r = true ∧ after < ev_sequence r.
Proof using Type.
  unfold rows_after. rewrite elem_of_order_by, elem_of_select, andb_true_iff, Z.ltb_lt. tauto.
Qed.

Lemma read_pages_eq db tenant stream sid after l app page :
  log_wf encryption db →
  read schema encryption db tenant stream sid after (Some l) app = Ok page →
  read schema encryption db tenant stream sid after None app
  = match last page with
    | None => Ok []
    | Some e => rest ← read schema encryption db tenant stream sid (se_sequence (st_event e)) None
                         app;
                Ok (page ++ rest)
    end.
Proof using Type.
  intros Hwf. unfold read. set (n := Z.to_nat (Z.max l 1)). unfold map_events. intros Hp.
  pose proof (take_drop n (rows_after db tenant stream sid after app)) as Htd.
  pose proof (rows_after_ascending db tenant stream sid after app (lw_pk _ _ Hwf)) as Hs.
  pose proof Hp as HF. apply map_res_Ok in HF.
  destruct (last page) as [e|] eqn:El.
  - apply last_Some in El as [pg ->]. apply Forall2_app_inv_r in HF as (A & B' & HA & HB & Ht).
    inversion HB as [|x ? B'' ? Hx Hnil]; subst. inversion Hnil; subst.
    assert (Hxin : x ∈ rows_after db tenant stream sid after app).
    { rewrite <- Htd, Ht. set_solver. }
    apply elem_of_rows_after in Hxin as (Hx1 & Hx2 & Hx3).
    assert (Hseq : se_sequence (st_event e) = ev_sequence x).
    { apply (unpack_row_sequence db x tenant app); [done|done| |done].
      unfold in_app_stream, in_stream in Hx2. rewrite !andb_true_iff, !String.eqb_eq in Hx2.
      tauto. }
    rewrite Hseq, (rows_after_later db tenant stream sid after (ev_sequence x)) by lia.
    rewrite <- Htd in Hs |- *. rewrite Ht, <- (assoc_L (++)) in Hs |- *. simpl in Hs |- *.
    rewrite select_after_split by done. rewrite cons_middle, (assoc_L (++)), <- Ht.
    by apply map_res_app.
  - apply last_None in El. subst. inversion HF as [Ht|]. symmetry in Ht.
    destruct (rows_after db tenant stream sid after app) as [|r rs]; [done|].
    assert (∃ k, n = S k) as [k Hk] by (exists (pred n); lia). rewrite Hk in Ht. done.
Qed.
End Pages.

Section Invariant.
Context `{PackedColumn PackedStreamEvent, CryptoLaws}.
Context (schema : FrickSchema) (window : option Z) (encryption : option KeyProvider).
Context (constraint_failed : string).

(** The operations of the store that write, as steps on the database and the
    front cache. *)
Inductive stream_step : StreamState → StreamState → Prop :=
| step_append nonce tenant stream sid replica request event payload app eid now s res s' :
    length nonce = NONCE_LEN →
    next_sequence s.1 tenant stream sid < i64_max →
    append schema window encryption constraint_failed nonce tenant stream sid replica request event
      payload app eid now s = (res, s') →
    stream_step s s'
| step_redact nonce tenant stream sid seq app db cache res db' :
    length nonce = NONCE_LEN →
    redact_event encryption nonce tenant stream sid seq app db = (res, db') →
    stream_step (db, cache) (db', cache)
| step_redact_by_field nonce tenant stream app field value db cache res db' :
    (∀ n, length (nonce n) = NONCE_LEN) →
    redact_by_field schema encryption nonce tenant stream app field value db = (res, db') →
    stream_step (db, cache) (db', cache)
| step_prune policies now db cache res db' :
    prune_retention policies now db = (res, db') →
    stream_step (db, cache) (db', cache).

Definition empty_db : StreamDb := {| stream_events := []; idempotency_keys := ∅ |}.

Hypothesis schema_ok : validate_schema schema = Ok tt.
Hypothesis Hengine : engine_ok (T := PackedStreamEvent) encryption.

Lemma log_wf_empty : log_wf encryption empty_db.
Proof using Type. split; [by intros r Hr%elem_of_nil|constructor|by intros r p Hr%elem_of_nil]. Qed.

(** Fewer rows. *)
Lemma log_wf_sublist db db' :
  log_wf encryption db → sublist (stream_events db') (stream_events db) → log_wf encryption db'.
Proof using Type.
  intros [Hs Hp Hk] Hsub. split.
  - intros r Hr. eapply Hs, elem_of_sublist; eauto.
  - eapply sublist_NoDup; [done|]. by apply fmap_sublist.
  - intros r p Hr. eapply Hk, elem_of_sublist; eauto.
Qed.

Lemma delete_events_sublist w db :
  sublist (stream_events (delete_events w db).2) (stream_events db).
Proof using Type.
  simpl. unfold delete_where. induction (stream_events db) as [|x l IH]; simpl; [done|].
  by destruct (negb (w x)); constructor.
Qed.

Lemma delete_events_sublist_eq w db n db' :
  delete_events w db = (n, db') → sublist (stream_events db') (stream_events db).
Proof using Type. intros E. pose proof (delete_events_sublist w db) as Hs. by rewrite E in Hs. Qed.

Lemma prune_sublist policies now db :
  sublist (stream_events (prune_retention policies now db).2) (stream_events db).
Proof using Type.
  unfold prune_retention. generalize {| pruned_by_age := 0; pruned_by_count := 0 |}.
  revert db. induction policies as [|[st p] policies IH]; intros db res; simpl; [done|].
  destruct (prune_by_age st p now db) as [n1 db1] eqn:E1.
  destruct (prune_by_count st p db1) as [n2 db2] eqn:E2.
  etrans; [apply IH|].
  assert (sublist (stream_events db2) (stream_events db1)) as S2.
  { unfold prune_by_count in E2. case_matches; by eapply delete_events_sublist_eq. }
  assert (sublist (stream_events db1) (stream_events db)) as S1.
  { unfold prune_by_age in E1. case_matches; by eapply delete_events_sublist_eq. }
  by etrans.
Qed.

Lemma append_new_wf nonce tenant stream sid replica request event payload app eid now db res db' :
  length nonce = NONCE_LEN → next_sequence db tenant stream sid < i64_max →
  append_new schema encryption constraint_failed nonce tenant stream sid replica request event
    payload app eid now db = (res, db') →
  log_wf encryption db → log_wf encryption db'.
Proof using Hengine H1 schema_ok.
  intros Hn Hmax Ha Hwf. destruct res as [stored|e].
  - apply (append_new_Ok schema encryption constraint_failed schema_ok Hengine) in Ha
      as (_ & row & He & _ & Happ & Ht & Hty & Hsid & Hseq & _ & _ & _ & Hpk & _).
    destruct (next_sequence_fresh db tenant stream sid (lw_seq _ _ Hwf)) as (H1' & _).
    destruct (Hpk Hn) as (packed & Hrp & Hps).
    split.
    + intros r. rewrite He, elem_of_app, list_elem_of_singleton. intros [Hr| ->]; [by apply Hwf|lia].
    + rewrite He, fmap_app. apply NoDup_app. split_and!; [apply Hwf| |apply NoDup_singleton].
      intros k (x & -> & Hx)%list_elem_of_fmap Hk. apply list_elem_of_singleton in Hk.
      assert (Hno : existsb (same_pk row) (stream_events db) = false).
      { apply insert_never_pk; [apply Hwf|]. by rewrite Ht, Hty, Hsid. }
      eapply (same_pk_false row x); [|done]. apply not_true_iff_false. intros Hs.
      assert (existsb (same_pk row) (stream_events db) = true); [|congruence].
      apply existsb_exists. exists x. split; [by apply list_elem_of_In|done].
    + intros r p. rewrite He, elem_of_app, list_elem_of_singleton.
      intros [Hr| ->]; [by apply Hwf|]. congruence.
  - replace db' with db; [done|]. unfold append_new, insert_event in Ha. case_matches.
Qed.

Lemma append_wf nonce tenant stream sid replica request event payload app eid now db cache res s' :
  length nonce = NONCE_LEN → next_sequence db tenant stream sid < i64_max →
  append schema window encryption constraint_failed nonce tenant stream sid replica request event
      payload app eid now (db, cache) = (res, s') →
  log_wf encryption db → log_wf encryption s'.1.
Proof using Hengine H1 schema_ok.
  intros Hn Hm Ha Hwf. unfold append in Ha. cbv zeta in Ha.
  match type of Ha with match ?c with _ => _ end = _ => destruct c end; [by simplify_eq|].
  destruct (read_idempotent_event _ _ _ _ _ _ _ _ _) as [[ex|]|]; [by simplify_eq| |by simplify_eq].
  destruct (append_new _ _ _ _ _ _ _ _ _ _ _ _ _ _ _) as [r db1] eqn:E.
  apply append_new_wf in E; [|done..]. by destruct r; simplify_eq.
Qed.

Lemma redact_event_wf nonce tenant stream sid seq app db res db' :
  length nonce = NONCE_LEN →
  redact_event encryption nonce tenant stream sid seq app db = (res, db') →
  log_wf encryption db → log_wf encryption db'.
Proof using Hengine H1.
  clear schema_ok. intros Hn Hr Hwf. unfold redact_event in Hr. set (w := at_address app tenant stream sid seq) in *.
  destruct (select w (stream_events db)) as [|row rows] eqn:Es; [by simplify_eq|].
  assert (row ∈ stream_events db ∧ w row = true) as [Hrow Hw].
  { apply elem_of_select. rewrite Es. set_solver. }
  destruct (open_packed encryption tenant (ev_packed row)) as [o|] eqn:Eo; [|by simplify_eq/=].
  cbn [mbind result_bind] in Hr.
  destruct (decode_packed o) as [packed|] eqn:Ed; [|by simplify_eq/=].
  cbn [mbind result_bind] in Hr.
  destruct (encode_packed (tombstone packed)) as [en|] eqn:Ee; [|by simplify_eq/=].
  cbn [mbind result_bind] in Hr.
  destruct (seal_packed encryption nonce tenant en) as [b|] eqn:Ese; [|by simplify_eq/=].
  injection Hr as <- <-.
  assert (Haddr : ∀ r, w r = true → ev_tenant_id r = tenant ∧ ev_sequence r = seq).
  { intros r. unfold w, at_address, in_app_stream, in_stream.
    rewrite !andb_true_iff, !String.eqb_eq, Z.eqb_eq. tauto. }
  assert (Hps : pse_sequence packed = seq).
  { destruct (Haddr row Hw) as [Ht <-]. apply (lw_packed _ _ Hwf); [done|].
    unfold row_packed. by rewrite Ht, Eo. }
  split; simpl; unfold update_where.
  - intros r (x & -> & Hx)%list_elem_of_fmap. pose proof (lw_seq _ _ Hwf x Hx).
    by destruct (w x).
  - rewrite <- list_fmap_compose. erewrite list_fmap_ext; [apply Hwf|].
    intros i x _. simpl. by destruct (w x).
  - intros r p (x & -> & Hx)%list_elem_of_fmap. destruct (w x) eqn:Ew; [|by apply Hwf].
    destruct (Haddr x Ew) as [Ht Hq]. unfold row_packed, open_packed. simpl. rewrite Ht.
    rewrite (open_sealed encryption Hengine nonce tenant _ en b Hn Ee Ese).
    cbn [mbind result_bind]. rewrite (decode_encode_packed _ _ Ee). intros [= <-]. simpl. lia.
Qed.

Lemma redact_matching_wf nonce tenant stream app field value evs n db res db' :
  (∀ n, length (nonce n) = NONCE_LEN) →
  redact_matching encryption nonce tenant stream app field value evs n db = (res, db') →
  log_wf encryption db → log_wf encryption db'.
Proof using Hengine H1.
  clear schema_ok. intros Hn. revert n db. induction evs as [|e evs IH]; intros n db; simpl.
  - intros Hr Hwf. unfold mret in Hr. run_M in Hr. by simplify_eq.
  - destruct (negb _); [apply IH|]. intros Hr Hwf.
    unfold mbind in Hr. run_M in Hr.
    destruct (redact_event _ _ _ _ _ _ _ db) as [[d|] db1] eqn:E; simplify_eq/=.
    + eapply IH; [exact Hr|]. eapply redact_event_wf; eauto.
    + eapply redact_event_wf; eauto.
Qed.

Lemma stream_step_wf s s' : stream_step s s' → log_wf encryption s.1 → log_wf encryption s'.1.
Proof using Hengine H1 schema_ok.
  intros Hs. destruct Hs as [???????????[? ?] ?? Hn Hm Ha|?????????? Hn Hr|?????????? Hn Hr|?????? Hp];
    simpl.
  - eapply append_wf; eauto.
  - eapply redact_event_wf; eauto.
  - unfold redact_by_field in Hr. unfold mbind in Hr. run_M in Hr.
    destruct (list_all_by_stream_type _ _ _ _ _ _) as [evs|]; simplify_eq/=; [|done].
    eapply redact_matching_wf; eauto.
  - intros Hwf. eapply log_wf_sublist; [exact Hwf|].
    pose proof (prune_sublist policies now db) as Hsub. by rewrite Hp in Hsub.
Qed.

Lemma reachable_wf s s' :
  rtc stream_step s s' → log_wf encryption s.1 → log_wf encryption s'.1.
Proof using Hengine H1 schema_ok. induction 1; eauto using stream_step_wf. Qed.
End Invariant.

(** ** Redaction *)

Lemma max_sequence_fmap (f : EventRow → EventRow) rows :
  (∀ r, ev_sequence (f r) = ev_sequence r) → max_sequence (f <$> rows) = max_sequence rows.
Proof.
  intros Hf. destruct rows as [|r rows]; [done|]. simpl. rewrite Hf. f_equal.
  generalize (ev_sequence r). induction rows as [|x rows IH]; intros m; simpl; [done|].
  by rewrite Hf, IH.
Qed.

Lemma select_fmap (w : EventRow → bool) (f : EventRow → EventRow) rows :
  (∀ r, w (f r) = w r) → select w (f <$> rows) = f <$> select w rows.
Proof.
  intros Hf. unfold select. induction rows as [|x rows IH]; [done|].
  rewrite fmap_cons. simpl. rewrite Hf, IH. by destruct (w x).
Qed.

Definition erase_payload (e : StoredEvent) : StoredEvent :=
  {| st_event := {| se_stream := se_stream (st_event e); se_stream_id := se_stream_id (st_event e);
       se_sequence := se_sequence (st_event e); se_event_id := se_event_id (st_event e);
       se_event := se_event (st_event e); se_payload := VMap [] |};
     st_tenant_id := st_tenant_id e; st_app_id := st_app_id e |}.

Section Redact.
Context `{PackedColumn PackedStreamEvent, CryptoLaws}.
Context (schema : FrickSchema) (encryption : option KeyProvider).
Hypothesis Hengine : engine_ok (T := PackedStreamEvent) encryption.

Lemma unpack_tombstone p e :
  unpack_stream_event schema p = Ok e →
  unpack_stream_event schema (tombstone p)
  = Ok {| se_stream := se_stream e; se_stream_id := se_stream_id e; se_sequence := se_sequence e;
          se_event_id := se_event_id e; se_event := se_event e; se_payload := VMap [] |}.
Proof using Type.
  unfold unpack_stream_event. simpl. destruct (stream_by_id _ _), (event_by_id _ _); try done.
  cbn [mbind result_bind]. destruct (unpack_fields _ (pse_fields p)); [|done].
  by intros [= <-].
Qed.

(** What a redaction that returns writes. *)
Lemma redact_event_Ok nonce tenant stream sid seq app db b db' :
  length nonce = NONCE_LEN →
  redact_event encryption nonce tenant stream sid seq app db = (Ok b, db') →
  (b = false ∧ db' = db ∧ select (at_address app tenant stream sid seq) (stream_events db) = [])
  ∨ (b = true ∧ ∃ row packed,
      row ∈ stream_events db ∧ at_address app tenant stream sid seq row = true
      ∧ idempotency_keys db' = idempotency_keys db
      ∧ stream_events db' = update_where (at_address app tenant stream sid seq)
                              (set_packed packed REDACTED_EVENT_TYPE_MARKER) (stream_events db)
      ∧ ∀ e row', unpack_row schema encryption row tenant app = Ok e → ev_packed row' = packed →
          unpack_row schema encryption row' tenant app = Ok (erase_payload e)).
Proof using Hengine H1.
  intros Hn Hr. unfold redact_event in Hr. set (w := at_address app tenant stream sid seq) in *.
  destruct (select w (stream_events db)) as [|row rows] eqn:Es; [left; by simplify_eq|]. right.
  assert (row ∈ stream_events db ∧ w row = true) as [Hrow Hw].
  { apply elem_of_select. rewrite Es. set_solver. }
  destruct (open_packed encryption tenant (ev_packed row)) as [o|] eqn:Eo; [|done].
  cbn [mbind result_bind] in Hr. destruct (decode_packed o) as [packed|] eqn:Ed; [|done].
  cbn [mbind result_bind] in Hr.
  destruct (encode_packed (tombstone packed)) as [en|] eqn:Ee; [|done].
  cbn [mbind result_bind] in Hr.
  destruct (seal_packed encryption nonce tenant en) as [sealed|] eqn:Ese; [|done].
  injection Hr as <- <-. split; [apply Z.ltb_lt, changes_pos; eauto|].
  exists row, sealed. split_and!; [done..|]. intros e row' Hu Hrow'.
  unfold unpack_row in Hu |- *. rewrite Eo in Hu. cbn [mbind result_bind] in Hu.
  rewrite Ed in Hu. cbn [mbind result_bind] in Hu. rewrite Hrow'. unfold open_packed.
  rewrite (open_sealed encryption Hengine nonce tenant _ en sealed Hn Ee Ese).
  cbn [mbind result_bind]. rewrite (decode_encode_packed _ _ Ee). cbn [mbind result_bind].
  destruct (unpack_stream_event schema packed) as [ev|] eqn:Eu;
    cbn [map_err mbind result_bind] in Hu; [|discriminate Hu].
  injection Hu as <-. by rewrite (unpack_tombstone _ _ Eu).
Qed.

Lemma update_keeps_reads nonce_packed w db db' :
  stream_events db' = update_where w (set_packed nonce_packed REDACTED_EVENT_TYPE_MARKER)
                        (stream_events db) →
  (∀ t s i a, head db' t s i a = head db t s i a)
  ∧ (∀ t s i, next_sequence db' t s i = next_sequence db t s i).
Proof using Type.
  intros He. unfold head, next_sequence. rewrite He. unfold update_where.
  split; intros; (rewrite select_fmap; [|intros r; by destruct (w r)]);
    (rewrite max_sequence_fmap; [|intros r; by destruct (w r)]); by rewrite ?length_fmap.
Qed.

Lemma pk_unique db r r' :
  NoDup (pk_of <$> stream_events db) → r ∈ stream_events db → r' ∈ stream_events db →
  pk_of r = pk_of r' → r = r'.
Proof using Type.
  intros Hnd (i & Hi)%list_elem_of_lookup (j & Hj)%list_elem_of_lookup Heq.
  assert (i = j) as ->; [|congruence].
  eapply (NoDup_lookup (pk_of <$> stream_events db)); [done|by rewrite list_lookup_fmap, Hi|].
  by rewrite list_lookup_fmap, Hj, Heq.
Qed.

Lemma at_address_pk app tenant stream sid seq r :
  at_address app tenant stream sid seq r = true → pk_of r = (tenant, stream, sid, seq).
Proof using Type.
  unfold at_address, in_app_stream, in_stream, pk_of.
  rewrite !andb_true_iff, !String.eqb_eq, Z.eqb_eq. by intros [[_ [[-> ->] ->]] ->].
Qed.

Lemma redact_event_spec nonce tenant stream sid seq app db b db' :
  length nonce = NONCE_LEN → log_wf encryption db →
  redact_event encryption nonce tenant stream sid seq app db = (Ok b, db') →
  b = existsb (at_address app tenant stream sid seq) (stream_events db)
  ∧ idempotency_keys db' = idempotency_keys db
  ∧ (∀ t s i a, head db' t s i a = head db t s i a)
  ∧ (∀ t s i, next_sequence db' t s i = next_sequence db t s i)
  ∧ Forall2 (λ r r', if at_address app tenant stream sid seq r
               then pk_of r' = pk_of r ∧ ev_event_id r' = ev_event_id r
                    ∧ ∀ e, unpack_row schema encryption r tenant app = Ok e →
                           unpack_row schema encryption r' tenant app = Ok (erase_payload e)
               else r' = r) (stream_events db) (stream_events db').
Proof using Hengine H1.
  intros Hn Hwf Hr.
  apply redact_event_Ok in Hr as [(-> & -> & Hnil)|(-> & row & packed & Hrow & Hw & Hk & He & Hu)];
    [..|done].
  - assert (Hno : ∀ r, r ∈ stream_events db → at_address app tenant stream sid seq r = false).
    { intros r Hr. apply not_true_iff_false. intros Hw.
      assert (Hin : r ∈ select (at_address app tenant stream sid seq) (stream_events db))
        by by apply elem_of_select. rewrite Hnil in Hin. by apply elem_of_nil in Hin. }
    split_and!; try done.
    + symmetry. apply not_true_iff_false. intros (r & Hr & Hw)%existsb_exists.
      apply list_elem_of_In in Hr. by rewrite Hno in Hw.
    + apply Forall_Forall2_diag, Forall_forall. intros r Hr. by rewrite Hno.
  - destruct (update_keeps_reads _ _ _ _ He) as [Hh Hnx]. split_and!; try done.
    + symmetry. apply existsb_exists. exists row. split; [by apply list_elem_of_In|done].
    + rewrite He. unfold update_where. apply Forall2_fmap_r, Forall_Forall2_diag, Forall_forall.
      intros r Hr. cbv [compose]. destruct (at_address _ _ _ _ _ r) eqn:Ew; [|done].
      split_and!; [done|done|]. intros e Hu'. apply Hu; [|done].
      rewrite <- (pk_unique db r row (lw_pk _ _ Hwf) Hr Hrow); [done|].
      apply at_address_pk in Ew, Hw. congruence.
Qed.
End Redact.

(** ** Retention *)

Lemma max_sequence_is rows m :
  (∃ r, r ∈ rows ∧ ev_sequence r = m) → (∀ r, r ∈ rows → ev_sequence r ≤ m) →
  max_sequence rows = Some m.
Proof.
  intros (r & Hr & Hm) Hle. pose proof (max_sequence_spec rows) as Hs.
  destruct (max_sequence rows) as [k|]; [|by subst; apply elem_of_nil in Hr].
  destruct Hs as [(x & Hx & Hk) Hle']. specialize (Hle x Hx). specialize (Hle' r Hr).
  f_equal. lia.
Qed.

(** Deleting rows that are not the last of their stream keeps the sequences. *)
Lemma delete_keeps_next_sequence w db t s i :
  (∀ r m, r ∈ stream_events db → in_stream t s i r = true →
     max_sequence (select (in_stream t s i) (stream_events db)) = Some m →
     ev_sequence r = m → w r = false) →
  next_sequence (delete_events w db).2 t s i = next_sequence db t s i.
Proof.
  intros Hkeep. unfold next_sequence. simpl.
  pose proof (max_sequence_spec (select (in_stream t s i) (stream_events db))) as Hs.
  destruct (max_sequence (select (in_stream t s i) (stream_events db))) as [m|] eqn:Em.
  - destruct Hs as [(x & [Hx Hin]%elem_of_select & Hm) Hle].
    rewrite (max_sequence_is _ m); [done| |].
    + exists x. split; [|done]. apply elem_of_select. split; [|done].
      apply elem_of_delete_where. eauto.
    + intros r [Hr Hri]%elem_of_select. apply elem_of_delete_where in Hr as [Hr _].
      apply Hle, elem_of_select. done.
  - replace (select (in_stream t s i) (delete_where w (stream_events db))) with (@nil EventRow);
      [done|].
    symmetry. destruct (select _ (delete_where w _)) as [|r rs] eqn:E; [done|].
    assert (r ∈ select (in_stream t s i) (delete_where w (stream_events db))) as Hr
      by (rewrite E; set_solver).
    apply elem_of_select in Hr as [[Hr _]%elem_of_delete_where Hi].
    assert (r ∈ select (in_stream t s i) (stream_events db)) as Hr' by by apply elem_of_select.
    rewrite Hs in Hr'. by apply elem_of_nil in Hr'.
Qed.

Lemma in_stream_self r : in_stream (ev_tenant_id r) (ev_stream_type r) (ev_stream_id r) r = true.
Proof. unfold in_stream. by rewrite !String.eqb_refl. Qed.

Lemma in_stream_eq t s i r :
  in_stream t s i r = true → ev_tenant_id r = t ∧ ev_stream_type r = s ∧ ev_stream_id r = i.
Proof. unfold in_stream. rewrite !andb_true_iff, !String.eqb_eq. tauto. Qed.

Lemma prune_by_count_spec stream_type p n db :
  rp_max_events p = Some n → 0 ≤ n →
  (∀ r, r ∈ stream_events (prune_by_count stream_type p db).2 ↔
     r ∈ stream_events db
     ∧ (ev_stream_type r = stream_type → scope_matches p r = true →
        ∃ m, max_sequence (select (in_stream (ev_tenant_id r) (ev_stream_type r) (ev_stream_id r))
               (stream_events db)) = Some m ∧ m - n < ev_sequence r))
  ∧ (1 ≤ n → ∀ t s i, next_sequence (prune_by_count stream_type p db).2 t s i
                      = next_sequence db t s i).
Proof.
  intros Hp Hn. unfold prune_by_count. rewrite Hp, (proj2 (Z.leb_le 0 n) Hn). split.
  - intros r. cbn [delete_events snd stream_events].
    rewrite elem_of_delete_where, !andb_false_iff, String.eqb_neq.
    assert (r ∈ stream_events db → is_Some (max_sequence (select (in_stream (ev_tenant_id r)
      (ev_stream_type r) (ev_stream_id r)) (stream_events db)))) as Hsome.
    { intros Hr. pose proof (max_sequence_spec (select (in_stream (ev_tenant_id r)
        (ev_stream_type r) (ev_stream_id r)) (stream_events db))) as Hs.
      destruct (max_sequence _); [done|].
      assert (r ∈ @nil EventRow) as []%elem_of_nil.
      rewrite <- Hs. apply elem_of_select. split; [done|]. apply in_stream_self. }
    split.
    + intros [Hr Hcase]. split; [done|]. intros Hty Hsc. destruct (Hsome Hr) as [m Hm].
      rewrite Hm in Hcase |- *. rewrite Z.leb_gt in Hcase. exists m. split; [done|].
      destruct Hcase as [[?|?]|?]; [done|done|congruence].
    + intros [Hr Himp]. split; [done|]. destruct (Hsome Hr) as [m Hm]. rewrite Hm in Himp |- *.
      rewrite Z.leb_gt. destruct (decide (ev_stream_type r = stream_type)) as [Hty|]; [|tauto].
      destruct (scope_matches p r); [|tauto].
      destruct (Himp Hty eq_refl) as (m' & [= <-] & Hlt). tauto.
  - intros H1 t s i. apply delete_keeps_next_sequence. intros r m Hr Hin Hm Hseq.
    apply in_stream_eq in Hin as (Ht & Hs & Hi). rewrite Ht, Hs, Hi, Hm.
    rewrite (proj2 (Z.leb_gt _ _)) by lia. by rewrite andb_false_r.
Qed.

(** C17: the log is always well formed: after any interleaving of appends,
    redactions and retention runs from an empty store, every sequence is positive
    and below the [i64] limit, no two rows share a tenant, stream, stream id and
    sequence, and every row that opens holds an event with the row's sequence. *)
Theorem stream_reachable_wf `{PackedColumn PackedStreamEvent, CryptoLaws} schema window encryption
    msg cache db cache' :
  validate_schema schema = Ok tt → engine_ok (T := PackedStreamEvent) encryption →
  rtc (stream_step schema window encryption msg) (empty_db, cache) (db, cache') →
  log_wf encryption db.
Proof.
  intros Hs He Hr. change db with (db, cache').1.
  eapply reachable_wf; [exact Hs|exact He|exact Hr|apply log_wf_empty].
Qed.

(** cursor reads page without gaps or repeats: on a well-formed log, a page
    of any size read after a cursor, followed by the read that starts after the
    sequence of the page's last event, is the whole read after the cursor; a page
    is empty only when nothing is left. *)
Theorem read_pages `{PackedColumn PackedStreamEvent, Crypto} schema encryption db tenant stream sid
    after l app page :
  log_wf encryption db →
  read schema encryption db tenant stream sid after (Some l) app = Ok page →
  read schema encryption db tenant stream sid after None app
  = match last page with
    | None => Ok []
    | Some e => rest ← read schema encryption db tenant stream sid (se_sequence (st_event e)) None
                         app;
                Ok (page ++ rest)
    end.
Proof. apply read_pages_eq. Qed.

(** redaction erases exactly one payload: on a well-formed log,
    [redact_event] reports whether a row exists at the address; it leaves every
    other row, the heads, the next sequences and the idempotency keys as they
    were, and the row at the address keeps its address and event id and now
    unpacks to the same event with an empty payload. *)
Theorem redact_event_exact `{PackedColumn PackedStreamEvent, CryptoLaws} schema encryption nonce
    tenant stream sid seq app db b db' :
  engine_ok (T := PackedStreamEvent) encryption →
  length nonce = NONCE_LEN → log_wf encryption db →
  redact_event encryption nonce tenant stream sid seq app db = (Ok b, db') →
  b = existsb (at_address app tenant stream sid seq) (stream_events db)
  ∧ idempotency_keys db' = idempotency_keys db
  ∧ (∀ t s i a, head db' t s i a = head db t s i a)
  ∧ (∀ t s i, next_sequence db' t s i = next_sequence db t s i)
  ∧ Forall2 (λ r r', if at_address app tenant stream sid seq r
               then pk_of r' = pk_of r ∧ ev_event_id r' = ev_event_id r
                    ∧ ∀ e, unpack_row schema encryption r tenant app = Ok e →
                           unpack_row schema encryption r' tenant app = Ok (erase_payload e)
               else r' = r) (stream_events db) (stream_events db').
Proof. intros. by eapply redact_event_spec. Qed.

(** count retention keeps exactly the newest: a row survives
    [max_events = n] iff it is of another stream type, outside the policy's
    scope, or within [n] of the highest sequence of its stream; with [n >= 1] no
    stream's next sequence changes. *)
Theorem prune_keeps_newest stream_type p n db :
  rp_max_events p = Some n → 0 ≤ n →
  (∀ r, r ∈ stream_events (prune_by_count stream_type p db).2 ↔
     r ∈ stream_events db
     ∧ (ev_stream_type r = stream_type → scope_matches p r = true →
        ∃ m, max_sequence (select (in_stream (ev_tenant_id r) (ev_stream_type r) (ev_stream_id r))
               (stream_events db)) = Some m ∧ m - n < ev_sequence r))
  ∧ (1 ≤ n → ∀ t s i, next_sequence (prune_by_count stream_type p db).2 t s i
                      = next_sequence db t s i).
Proof. apply prune_by_count_spec. Qed.

(** ** A concrete log *)

Module SampleLog.
Export ToyCrypto ToyPacked.
Definition window : option Z := Some 60000.
Definition t0 : Z := 1700000000123.
Definition done_payload (title : string) : Value := VMap (str_entries [("title", VStr title)]).
Definition post (replica request eid title : string) (now : Z) :
    M StreamState StoreError AppendResult :=
  append SampleSchema.schema window enc "UNIQUE constraint failed" nonce "t1" "TaskStream" "s1"
    replica request "TaskDone" (done_payload title) "app1" eid now.
Definition cache0 : option EventCache :=
  Some {| capacity := 2; entries := ∅; order := ∅; next_stamp := 0; evictions := 0 |}.
Definition s0 : StreamState := (empty_db, cache0).
Definition s1 : StreamState := (post "r" "q1" "e1" "one" t0 s0).2.
Definition s2 : StreamState := (post "r" "q2" "e2" "two" t0 s1).2.
Definition s3 : StreamState := (post "r" "q3" "e3" "three" t0 s2).2.
Definition event (seq : Z) (eid title : string) : StoredEvent :=
  {| st_event := {| se_stream := "TaskStream"; se_stream_id := "s1"; se_sequence := seq;
       se_event_id := eid; se_event := "TaskDone"; se_payload := done_payload title |};
     st_tenant_id := "t1"; st_app_id := "app1" |}.

Lemma record_payload title : record_value (done_payload title).
Proof. exists [("title", VStr title)]. split; [done|]. simpl. apply NoDup_singleton. Qed.
Lemma cache0_wf c : cache0 = Some c → cache_wf c.
Proof. intros [= <-]. split; [exists []; apply rep_new|simpl; lia]. Qed.
Lemma post_step replica request eid title now s :
  next_sequence s.1 "t1" "TaskStream" "s1" < i64_max →
  stream_step SampleSchema.schema window enc "UNIQUE constraint failed" s
    (post replica request eid title now s).2.
Proof. intros Hm. eapply (step_append _ _ _ _ nonce); [reflexivity|exact Hm|].
  unfold post. apply surjective_pairing.
Qed.

Lemma s3_reached :
  rtc (stream_step SampleSchema.schema window enc "UNIQUE constraint failed") s0 s3.
Proof.
  apply (rtc_l _ _ s1); [|apply (rtc_l _ _ s2); [|apply rtc_once]]; apply post_step;
    vm_compute; reflexivity.
Qed.
Lemma s3_wf : log_wf enc s3.1.
Proof.
  eapply reachable_wf; [exact SampleSchema.schema_validates|exact enc_event_ok|exact s3_reached|].
  apply log_wf_empty.
Qed.
End SampleLog.
Import SampleLog.

Lemma append_next_sequence_witness :
  se_sequence (st_event (event 3 "e3" "three")) = next_sequence s2.1 "t1" "TaskStream" "s1".
Proof.
  refine (proj1 (append_next_sequence SampleSchema.schema window enc "UNIQUE constraint failed"
    nonce "t1" "TaskStream" "s1" "r" "q3" "TaskDone" (done_payload "three") "app1" "e3" t0
    s2.1 s2.2 {| ar_event := event 3 "e3" "three"; ar_created := true |} s3.1 s3.2
    SampleSchema.schema_validates enc_event_ok eq_refl (record_payload _) _ _ eq_refl)).
  - intros r Hr. unfold s2 in Hr. apply list_elem_of_In in Hr. vm_compute in Hr.
    destruct Hr as [<-|[<-|[]]]; split; reflexivity || discriminate.
  - vm_compute. reflexivity.
Defined.

Lemma append_idempotent_witness :
  ∃ cache, post "r" "q1" "e9" "again" (t0 + 1000) s1
  = (Ok {| ar_event := event 1 "e1" "one"; ar_created := false |}, (s1.1, cache)).
Proof.
  refine (append_idempotent SampleSchema.schema window enc "UNIQUE constraint failed"
    nonce "t1" "TaskStream" "s1" "r" "q1" "TaskDone" (done_payload "one") "app1" "e1" t0
    empty_db cache0 {| ar_event := event 1 "e1" "one"; ar_created := true |} s1.1 s1.2 (t0 + 1000)
    nonce "TaskStream" "s1" "TaskDone" (done_payload "again") "e9"
    SampleSchema.schema_validates enc_event_ok eq_refl (record_payload _) _ cache0_wf _ eq_refl _).
  - vm_compute. split; discriminate || reflexivity.
  - vm_compute. reflexivity.
  - reflexivity.
Defined.

Lemma stream_reachable_wf_witness : log_wf enc s3.1.
Proof.
  refine (stream_reachable_wf SampleSchema.schema window enc "UNIQUE constraint failed" cache0 s3.1
    s3.2 SampleSchema.schema_validates enc_event_ok _).
  rewrite <- surjective_pairing. exact s3_reached.
Defined.

Lemma read_pages_witness :
  read SampleSchema.schema enc s3.1 "t1" "TaskStream" "s1" 0 None "app1"
  = Ok [event 1 "e1" "one"; event 2 "e2" "two"; event 3 "e3" "three"].
Proof.
  rewrite (read_pages SampleSchema.schema enc s3.1 "t1" "TaskStream" "s1" 0 2 "app1"
    [event 1 "e1" "one"; event 2 "e2" "two"] s3_wf); vm_compute; reflexivity.
Defined.

Lemma redact_event_exact_witness :
  head (redact_event enc nonce "t1" "TaskStream" "s1" 2 "app1" s3.1).2 "t1" "TaskStream" "s1" "app1"
  = {| head_sequence := 3; head_count := 3 |}.
Proof.
  destruct (redact_event_exact SampleSchema.schema enc nonce "t1" "TaskStream" "s1" 2 "app1" s3.1
    true (redact_event enc nonce "t1" "TaskStream" "s1" 2 "app1" s3.1).2) as (_ & _ & Hh & _).
  - exact enc_event_ok.
  - reflexivity.
  - exact s3_wf.
  - vm_compute. reflexivity.
  - rewrite Hh. vm_compute. reflexivity.
Defined.

Definition keep_two : StreamRetentionPolicy :=
  {| rp_max_age_ms := None; rp_max_events := Some 2; rp_tenant_id := None; rp_app_id := None |}.

Lemma prune_keeps_newest_witness :
  next_sequence (prune_by_count "TaskStream" keep_two s3.1).2 "t1" "TaskStream" "s1" = 4.
Proof.
  rewrite (proj2 (prune_keeps_newest "TaskStream" keep_two 2 s3.1 eq_refl ltac:(lia)) ltac:(lia)).
  vm_compute. reflexivity.
Defined.

(** ** What the code does not keep *)

Definition keep_none : StreamRetentionPolicy :=
  {| rp_max_age_ms := None; rp_max_events := Some 0; rp_tenant_id := None; rp_app_id := None |}.
Definition emptied : StreamState :=
  ((prune_retention [("TaskStream", keep_none)] t0 s3.1).2, s3.2).

(** retention that empties a stream restarts its sequences: with
    [max_events = 0] the three events of the sample are pruned, the next append
    gets sequence 1, and a reader whose cursor is at 3 never sees it. *)
Theorem prune_restarts_sequences :
  stream_events emptied.1 = []
  ∧ (post "r" "q4" "e4" "four" t0 emptied).1
    = Ok {| ar_event := event 1 "e4" "four"; ar_created := true |}
  ∧ read SampleSchema.schema enc (post "r" "q4" "e4" "four" t0 emptied).2.1
      "t1" "TaskStream" "s1" 3 None "app1" = Ok [].
Proof. split_and!; vm_compute; reflexivity. Qed.

(** a redacted payload is still replayed from the front cache: after the
    event of request q3 is redacted, a retry of that request returns the event
    with its payload as long as the cache holds it, while the log reads it
    empty. *)
Theorem redacted_payload_replayed :
  let db := (redact_event enc nonce "t1" "TaskStream" "s1" 3 "app1" s3.1).2 in
  (post "r" "q3" "e3" "three" (t0 + 5) (db, s3.2)).1
    = Ok {| ar_event := event 3 "e3" "three"; ar_created := false |}
  ∧ read SampleSchema.schema enc db "t1" "TaskStream" "s1" 2 None "app1"
    = Ok [erase_payload (event 3 "e3" "three")].
Proof. split; vm_compute; reflexivity. Qed.

(** the front cache can answer for another tenant: its key joins the ids
    with a bar, so with a bar inside an id two different keys coincide; the
    request of app "a", tenant "b|c" is replayed to app "a|b", tenant "c", which
    has no such key in the durable table. *)
Theorem cache_key_collides :
  let write tenant app eid := append SampleSchema.schema window enc "UNIQUE constraint failed" nonce
    tenant "TaskStream" "s1" "r" "q1" "TaskDone" (done_payload eid) app eid t0 in
  let s := (write "b|c" "a" "e1" s0).2 in
  (∃ e, (write "c" "a|b" "e2" s).1 = Ok {| ar_event := e; ar_created := false |}
        ∧ st_tenant_id e = "b|c")
  ∧ read_idempotent_event SampleSchema.schema window enc s.1 "a|b" "c" "r" "q1" t0 = Ok None.
Proof. split; [eexists; split|]; vm_compute; reflexivity. Qed.
