(* ===== verification/RefreshTokens.v ===== *)
(** * The refresh-token store ([frick-store/src/stores/refresh_token.rs])

    Long-lived credentials with rotation and reuse detection. The table
    [auth_refresh_tokens] is a map from its primary key, the token hash. SHA-256
    in base64url is outside the repository: [hash_token] is a parameter, and no
    theorem needs more of it than that it is a function. *)

From Stdlib Require Import ZArith Lia Ascii String.
From stdpp Require Import base gmap strings list sorting pretty.
From S2P Require Import Prelude Timestamp StoreBase.

Definition DEFAULT_REFRESH_TTL_SECONDS : Z := 30 * 24 * 60 * 60.

Record IssuedRefreshToken : Type := {
  ir_token : string; ir_tenant_id : string; ir_user_id : string; ir_device_id : string;
  ir_replica_id : string; ir_expires_at : string;
}.
Record RefreshTokenRecord : Type := {
  rr_tenant_id : string; rr_user_id : string; rr_device_id : string; rr_replica_id : string;
  rr_expires_at : string;
}.

(** The columns besides [token_hash]. *)
Record RefreshRow : Type := {
  rt_tenant_id : string; rt_user_id : string; rt_device_id : string; rt_replica_id : string;
  rt_created_at : string; rt_expires_at : string; rt_revoked_at : option string;
  rt_family_id : option string;
}.

Abbreviation RefreshTable := (gmap string RefreshRow).

Definition record_from_row (r : RefreshRow) : RefreshTokenRecord :=
  {| rr_tenant_id := rt_tenant_id r; rr_user_id := rt_user_id r; rr_device_id := rt_device_id r;
     rr_replica_id := rt_replica_id r; rr_expires_at := rt_expires_at r |}.

(** The parser is the one of the stream store, line by line. *)
Definition parse_iso_to_epoch_ms (text : string) : option Z := parse_iso_ms_opt text.

(** An expiry that does not parse never expires. *)
Definition is_expired (expires_at : string) (now_ms : Z) : bool :=
  match parse_iso_to_epoch_ms expires_at with
  | Some expires_ms => expires_ms <=? now_ms
  | None => false
  end.

(** [SET revoked_at = ?]. *)
Definition set_revoked (now_iso : string) (r : RefreshRow) : RefreshRow :=
  {| rt_tenant_id := rt_tenant_id r; rt_user_id := rt_user_id r; rt_device_id := rt_device_id r;
     rt_replica_id := rt_replica_id r; rt_created_at := rt_created_at r;
     rt_expires_at := rt_expires_at r; rt_revoked_at := Some now_iso;
     rt_family_id := rt_family_id r |}.

(** [UPDATE .. SET revoked_at = ? WHERE .. AND revoked_at IS NULL]. *)
Definition revoke_where (where_ : RefreshRow → bool) (now_iso : string) (t : RefreshTable) :
    RefreshTable :=
  (λ r, if where_ r && bool_decide (rt_revoked_at r = None) then set_revoked now_iso r else r)
  <$> t.

(** The [changes] of that statement. *)
Definition active_count (where_ : RefreshRow → bool) (t : RefreshTable) : Z :=
  changes (λ kr : string * RefreshRow, where_ kr.2 && bool_decide (rt_revoked_at kr.2 = None))
    (map_to_list t).

Section RefreshTokenStore.
Context (hash_token : string → string) (constraint_failed : string).

Definition insert_token (hash : string) (row : RefreshRow) : M RefreshTable StoreError unit := λ t,
  match t !! hash with
  | Some _ => (Err (Driver constraint_failed), t)
  | None => (Ok tt, <[hash := row]> t)
  end.

Definition issue (token family_id tenant_id user_id device_id replica_id : string)
    (ttl_seconds now_ms : Z) : M RefreshTable StoreError IssuedRefreshToken :=
  let now_iso := iso_from_epoch_ms now_ms in
  let expires_at := iso_from_epoch_ms (i64_add now_ms (i64_mul ttl_seconds 1000)) in
  insert_token (hash_token token)
    {| rt_tenant_id := tenant_id; rt_user_id := user_id; rt_device_id := device_id;
       rt_replica_id := replica_id; rt_created_at := now_iso; rt_expires_at := expires_at;
       rt_revoked_at := None; rt_family_id := Some family_id |};;
  mret {| ir_token := token; ir_tenant_id := tenant_id; ir_user_id := user_id;
          ir_device_id := device_id; ir_replica_id := replica_id; ir_expires_at := expires_at |}.

Definition read_active (t : RefreshTable) (token : string) (now_ms : Z) :
    option RefreshTokenRecord :=
  match t !! hash_token token with
  | None => None
  | Some row =>
      if bool_decide (is_Some (rt_revoked_at row)) then None
      else if is_expired (rt_expires_at row) now_ms then None
      else Some (record_from_row row)
  end.

(** [UPDATE .. SET revoked_at = ? WHERE token_hash = ?]. *)
Definition revoke_hash (hash now_iso : string) : M RefreshTable StoreError unit := λ t,
  (Ok tt, alter (set_revoked now_iso) hash t).

Definition in_family (family_id : string) (r : RefreshRow) : bool :=
  bool_decide (rt_family_id r = Some family_id).

(** The body of [rotate]'s transaction. *)
Definition rotate_tx (token fresh_token : string) (ttl_seconds now_ms : Z) :
    M RefreshTable StoreError (option IssuedRefreshToken) :=
  let presented_hash := hash_token token in
  let fresh_hash := hash_token fresh_token in
  let now_iso := iso_from_epoch_ms now_ms in
  let expires_at := iso_from_epoch_ms (i64_add now_ms (i64_mul ttl_seconds 1000)) in
  t ← get_state;
  match t !! presented_hash with
  | None => mret None
  | Some row =>
      if bool_decide (is_Some (rt_revoked_at row)) then
        match rt_family_id row with
        | Some family_id => put_state (revoke_where (in_family family_id) now_iso t);; mret None
        | None => mret None
        end
      else if is_expired (rt_expires_at row) now_ms then mret None
      else
        revoke_hash presented_hash now_iso;;
        insert_token fresh_hash
          {| rt_tenant_id := rt_tenant_id row; rt_user_id := rt_user_id row;
             rt_device_id := rt_device_id row; rt_replica_id := rt_replica_id row;
             rt_created_at := now_iso; rt_expires_at := expires_at; rt_revoked_at := None;
             rt_family_id := rt_family_id row |};;
        mret (Some {| ir_token := fresh_token; ir_tenant_id := rt_tenant_id row;
                      ir_user_id := rt_user_id row; ir_device_id := rt_device_id row;
                      ir_replica_id := rt_replica_id row; ir_expires_at := expires_at |})
  end.

Definition rotate (token fresh_token : string) (ttl_seconds now_ms : Z) :
    M RefreshTable StoreError (option IssuedRefreshToken) :=
  transaction (rotate_tx token fresh_token ttl_seconds now_ms).

Definition revoke (token : string) (now_ms : Z) : M RefreshTable StoreError bool := λ t,
  match t !! hash_token token with
  | Some row =>
      if bool_decide (rt_revoked_at row = None)
      then (Ok true, <[hash_token token := set_revoked (iso_from_epoch_ms now_ms) row]> t)
      else (Ok false, t)
  | None => (Ok false, t)
  end.

Definition of_user (user_id : string) (tenant_id : option string) (r : RefreshRow) : bool :=
  String.eqb (rt_user_id r) user_id
  && match tenant_id with Some tenant => String.eqb (rt_tenant_id r) tenant | None => true end.

Definition revoke_for_user (user_id : string) (tenant_id : option string) (now_ms : Z) :
    M RefreshTable StoreError Z := λ t,
  (Ok (active_count (of_user user_id tenant_id) t),
   revoke_where (of_user user_id tenant_id) (iso_from_epoch_ms now_ms) t).

Definition purge_expired (now_ms : Z) : M RefreshTable StoreError Z := λ t,
  let cutoff := iso_from_epoch_ms now_ms in
  (Ok (changes (λ kr : string * RefreshRow, Str.ltb (rt_expires_at kr.2) cutoff) (map_to_list t)),
   filter (λ kr, Str.ltb (rt_expires_at kr.2) cutoff = false) t).

(** ** Steps

    Every operation of the store that writes. New families are fresh, which is
    what 16 random bytes give, and none of the [reserved] ones. *)
Inductive token_step (reserved : gset string) : RefreshTable → RefreshTable → Prop :=
| step_issue token family tenant user device replica ttl now (t t' : RefreshTable) res :
    family ∉ reserved →
    (∀ h r, t !! h = Some r → rt_family_id r ≠ Some family) →
    issue token family tenant user device replica ttl now t = (res, t') →
    token_step reserved t t'
| step_rotate token fresh ttl now (t t' : RefreshTable) res :
    rotate token fresh ttl now t = (res, t') → token_step reserved t t'
| step_revoke token now (t t' : RefreshTable) res :
    revoke token now t = (res, t') → token_step reserved t t'
| step_revoke_for_user user tenant now (t t' : RefreshTable) res :
    revoke_for_user user tenant now t = (res, t') → token_step reserved t t'
| step_purge now (t t' : RefreshTable) res :
    purge_expired now t = (res, t') → token_step reserved t t'.
End RefreshTokenStore.

(** ** Rows through a step *)

Definition active (r : RefreshRow) : Prop := rt_revoked_at r = None.

(** A row afterwards: unchanged, or revoked. *)
Definition derives (r r' : RefreshRow) : Prop := r' = r ∨ ∃ n, r' = set_revoked n r.

(** At most one active token per family. *)
Definition linear (t : RefreshTable) : Prop :=
  ∀ h1 h2 r1 r2 f, t !! h1 = Some r1 → t !! h2 = Some r2 →
    rt_family_id r1 = Some f → rt_family_id r2 = Some f → active r1 → active r2 → h1 = h2.

(** No active token in a family. *)
Definition burned (f : string) (t : RefreshTable) : Prop :=
  ∀ h r, t !! h = Some r → rt_family_id r = Some f → ¬ active r.

Lemma derives_refl r : derives r r.
Proof. by left. Qed.
Lemma derives_family r r' : derives r r' → rt_family_id r' = rt_family_id r.
Proof. by intros [->|[n ->]]. Qed.
Lemma derives_active r r' : derives r r' → active r' → r' = r.
Proof. intros [->|[n ->]]; [done|]. by unfold active. Qed.
#[local] Hint Resolve derives_refl : core.

(** What a step does to the rows: old rows are kept or revoked, and the only new
    row is that of a fresh family or the successor of an active token, which is
    revoked by the same step. *)
Record row_step (reserved : gset string) (t t' : RefreshTable) (new : option string) : Prop := {
  rs_old : ∀ h r', Some h ≠ new → t' !! h = Some r' → ∃ r, t !! h = Some r ∧ derives r r';
  rs_new : ∀ h row, new = Some h → t' !! h = Some row →
    (∃ f, rt_family_id row = Some f ∧ f ∉ reserved
          ∧ ∀ h r, t !! h = Some r → rt_family_id r ≠ Some f)
    ∨ (∃ hp rp n, hp ≠ h ∧ t !! hp = Some rp ∧ active rp ∧ rt_family_id rp = rt_family_id row
                  ∧ t' !! hp = Some (set_revoked n rp));
}.

Lemma revoke_where_derives w n (t : RefreshTable) h r' :
  revoke_where w n t !! h = Some r' → ∃ r, t !! h = Some r ∧ derives r r'.
Proof.
  unfold revoke_where. rewrite lookup_fmap. destruct (t !! h) as [r|]; [|done].
  intros [= <-]. exists r. split; [done|]. destruct (_ && _); [right; eauto|by left].
Qed.

Section Steps.
Context (hash_token : string → string) (constraint_failed : string).

Lemma rotate_Some token fresh ttl now (t t' : RefreshTable) issued :
  rotate hash_token constraint_failed token fresh ttl now t = (Ok (Some issued), t') →
  ∃ row, t !! hash_token token = Some row ∧ active row
    ∧ is_expired (rt_expires_at row) now = false
    ∧ t !! hash_token fresh = None
    ∧ issued = {| ir_token := fresh; ir_tenant_id := rt_tenant_id row; ir_user_id := rt_user_id row;
                  ir_device_id := rt_device_id row; ir_replica_id := rt_replica_id row;
                  ir_expires_at := iso_from_epoch_ms (i64_add now (i64_mul ttl 1000)) |}
    ∧ t' = <[hash_token fresh :=
              {| rt_tenant_id := rt_tenant_id row; rt_user_id := rt_user_id row;
                 rt_device_id := rt_device_id row; rt_replica_id := rt_replica_id row;
                 rt_created_at := iso_from_epoch_ms now; rt_expires_at := ir_expires_at issued;
                 rt_revoked_at := None; rt_family_id := rt_family_id row |}]>
           (<[hash_token token := set_revoked (iso_from_epoch_ms now) row]> t).
Proof using Type.
  unfold rotate, transaction, rotate_tx, revoke_hash, insert_token. run_M.
  destruct (t !! hash_token token) as [row|] eqn:Et; [|done].
  case_bool_decide as Hrev; [by destruct (rt_family_id row)|].
  destruct (is_expired _ _) eqn:Ee; [done|].
  destruct (alter _ _ _ !! hash_token fresh) eqn:Ef; [done|].
  intros [= <- <-]. exists row.
  assert (active row) by by apply eq_None_not_Some. split_and!; try done.
  - destruct (decide (hash_token token = hash_token fresh)) as [Heq|Hne].
    + rewrite Heq, lookup_alter_eq in Ef. rewrite <- Heq, Et in Ef. done.
    + by rewrite lookup_alter_ne in Ef.
  - f_equal. apply map_eq. intros h. destruct (decide (h = hash_token token)) as [->|Hne].
    + by rewrite lookup_alter_eq, lookup_insert_eq, Et.
    + by rewrite lookup_alter_ne, lookup_insert_ne.
Qed.

(** A rotation without a new token: only a replay changes anything. *)
Lemma rotate_other token fresh ttl now (t t' : RefreshTable) res :
  rotate hash_token constraint_failed token fresh ttl now t = (res, t') →
  (∀ issued, res ≠ Ok (Some issued)) →
  t' = t ∨ ∃ row f, t !! hash_token token = Some row ∧ ¬ active row ∧ rt_family_id row = Some f
                    ∧ res = Ok None ∧ t' = revoke_where (in_family f) (iso_from_epoch_ms now) t.
Proof using Type.
  unfold rotate, transaction, rotate_tx, revoke_hash, insert_token. run_M.
  destruct (t !! hash_token token) as [row|] eqn:Et; [|intros [= <- <-]; by left].
  case_bool_decide as Hrev.
  - destruct (rt_family_id row) as [f|] eqn:Ef; intros [= <- <-] _; [right|by left].
    exists row, f. split_and!; try done. unfold active. by destruct Hrev as [? ->].
  - destruct (is_expired _ _); [intros [= <- <-]; by left|].
    destruct (alter _ _ _ !! hash_token fresh); [intros [= <- <-]; by left|].
    intros [= <- <-] Hno. by destruct (Hno _ eq_refl).
Qed.

Lemma token_step_rows reserved (t t' : RefreshTable) :
  token_step hash_token constraint_failed reserved t t' → ∃ new, row_step reserved t t' new.
Proof using Type.
  assert (Hsame : ∀ t : RefreshTable, row_step reserved t t None) by (split; [eauto|done]).
  assert (Hrw : ∀ w n (t : RefreshTable), row_step reserved t (revoke_where w n t) None).
  { intros w n t0. split; [|done]. intros h r' _. apply revoke_where_derives. }
  intros Hs. destruct Hs as [token family tenant user device replica ttl now t t' res Hr Hf Hi
    |token fresh ttl now t t' res Hi|token now t t' res Hi|user tenant now t t' res Hi
    |now t t' res Hi].
  - unfold issue, insert_token in Hi. run_M in Hi.
    destruct (t !! hash_token token) eqn:Et; simplify_eq/=; [by exists None|].
    exists (Some (hash_token token)). split.
    + intros h r' Hne Hl. rewrite lookup_insert_ne in Hl by congruence. eauto.
    + intros h row [= <-] Hl. rewrite lookup_insert_eq in Hl. simplify_eq. left. eauto.
  - assert ((∃ issued, res = Ok (Some issued)) ∨ ∀ issued, res ≠ Ok (Some issued))
      as [[issued ->]|Hno] by (destruct res as [[|]|]; naive_solver).
    + apply rotate_Some in Hi as (row & Ht & Ha & _ & Hfr & -> & ->).
      assert (hash_token token ≠ hash_token fresh) by congruence.
      exists (Some (hash_token fresh)). split.
      * intros h r' Hne Hl. rewrite lookup_insert_ne in Hl by congruence.
        destruct (decide (h = hash_token token)) as [->|Hh].
        -- rewrite lookup_insert_eq in Hl. simplify_eq. exists row. split; [done|]. right. eauto.
        -- rewrite lookup_insert_ne in Hl by done. eauto.
      * intros h r [= <-] Hl. rewrite lookup_insert_eq in Hl. simplify_eq. right.
        exists (hash_token token), row, (iso_from_epoch_ms now). split_and!; try done.
        by rewrite lookup_insert_ne, lookup_insert_eq.
    + destruct (rotate_other _ _ _ _ _ _ _ Hi) as [->|(row & f & _ & _ & _ & _ & ->)];
        [done|by exists None|by exists None].
  - exists None. split; [|done]. intros h r' _ Hl. unfold revoke in Hi.
    destruct (t !! hash_token token) as [row|] eqn:Et; [|simplify_eq; eauto].
    case_bool_decide; simplify_eq; [|by eauto].
    destruct (decide (h = hash_token token)) as [->|].
    + rewrite lookup_insert_eq in Hl. simplify_eq. exists row. split; [done|]. right. eauto.
    + rewrite lookup_insert_ne in Hl by done. eauto.
  - exists None. unfold revoke_for_user in Hi. simplify_eq. apply Hrw.
  - exists None. split; [|done]. intros h r' _ Hl. unfold purge_expired in Hi. simplify_eq.
    apply map_lookup_filter_Some in Hl as [Hl _]. eauto.
Qed.

Lemma linear_step reserved (t t' : RefreshTable) :
  token_step hash_token constraint_failed reserved t t' → linear t → linear t'.
Proof using Type.
  intros [new [Hold Hnew]]%token_step_rows Hlin.
  assert (Hone : ∀ h1 h2 r1 r2 f, new = Some h1 → h2 ≠ h1 → t' !! h1 = Some r1 →
    t' !! h2 = Some r2 → rt_family_id r1 = Some f → rt_family_id r2 = Some f → active r2 → False).
  { intros h1 h2 r1 r2 f -> Hne H1 H2 Hf1 Hf2 Ha2.
    destruct (Hold h2 r2) as (r & Hr & Hd); [congruence|done|].
    apply derives_active in Hd as ->; [|done].
    destruct (Hnew h1 r1 eq_refl H1) as [(f' & Hf' & _ & Hno)|(hp & rp & n & Hhp & Hp & Hap & Hfp & Hp')].
    - apply (Hno h2 r Hr). congruence.
    - assert (h2 = hp) as -> by (apply (Hlin h2 hp r rp f); try done; congruence).
      rewrite Hp' in H2. injection H2 as <-. by unfold active in Ha2. }
  intros h1 h2 r1 r2 f H1 H2 Hf1 Hf2 Ha1 Ha2.
  destruct (decide (h1 = h2)) as [|Hne]; [done|].
  destruct (decide (new = Some h1)) as [->|Hn1].
  { destruct (Hone h1 h2 r1 r2 f); eauto. }
  destruct (decide (new = Some h2)) as [->|Hn2].
  { destruct (Hone h2 h1 r2 r1 f); eauto. }
  destruct (Hold h1 r1) as (x1 & Hx1 & D1); [congruence|done|].
  destruct (Hold h2 r2) as (x2 & Hx2 & D2); [congruence|done|].
  apply derives_active in D1 as ->; [|done]. apply derives_active in D2 as ->; [|done].
  by apply (Hlin h1 h2 x1 x2 f).
Qed.

Lemma burned_step f (t t' : RefreshTable) :
  token_step hash_token constraint_failed {[f]} t t' → burned f t → burned f t'.
Proof using Type.
  intros [new [Hold Hnew]]%token_step_rows Hb h r Hl Hf Ha.
  destruct (decide (new = Some h)) as [->|Hn].
  - destruct (Hnew h r eq_refl Hl) as [(f' & Hf' & Hres & _)|(hp & rp & n & _ & Hp & Hap & Hfp & _)].
    + set_solver.
    + eapply Hb; [exact Hp|congruence|done].
  - destruct (Hold h r) as (x & Hx & D); [congruence|done|].
    apply derives_active in D as ->; [|done]. by eapply Hb.
Qed.

Lemma burned_rtc f (t t' : RefreshTable) :
  rtc (token_step hash_token constraint_failed {[f]}) t t' → burned f t → burned f t'.
Proof using Type. induction 1; eauto using burned_step. Qed.

Lemma burned_read_active f (t : RefreshTable) token now row :
  burned f t → t !! hash_token token = Some row → rt_family_id row = Some f →
  read_active hash_token t token now = None.
Proof using Type.
  intros Hb Ht Hf. unfold read_active. rewrite Ht.
  rewrite bool_decide_true; [done|]. apply not_eq_None_Some. by eapply Hb.
Qed.

Lemma revoke_where_burns f n (t : RefreshTable) : burned f (revoke_where (in_family f) n t).
Proof using Type.
  intros h r. unfold revoke_where. rewrite lookup_fmap. destruct (t !! h) as [r0|]; [|done].
  intros [= <-]. unfold in_family, active.
  destruct (decide (rt_family_id r0 = Some f)) as [Hf|Hf].
  - rewrite (bool_decide_true _ Hf). simpl. case_bool_decide; simpl; intros _; [discriminate|done].
  - by rewrite (bool_decide_false _ Hf).
Qed.
End Steps.

(** one live token per family: from an empty table, after any sequence of
    issues (with fresh family ids), rotations, revocations and purges, no family
    has two tokens that are not revoked. *)
Theorem one_active_per_family hash_token msg (t : RefreshTable) :
  rtc (token_step hash_token msg ∅) ∅ t → linear t.
Proof.
  intros Hr. assert (linear ∅) as Hl by (intros ????? Hl; by rewrite lookup_empty in Hl).
  induction Hr; eauto using linear_step.
Qed.

(** a rotation hands over: when [rotate] returns a token, the presented one
    was active and unexpired; afterwards it never reads active again, the fresh
    one reads as the same tenant, user, device and replica until its own expiry,
    and every other row is untouched. *)
Theorem rotate_hands_over hash_token msg token fresh ttl now (t t' : RefreshTable) issued :
  rotate hash_token msg token fresh ttl now t = (Ok (Some issued), t') →
  ∃ rec, read_active hash_token t token now = Some rec
    ∧ (∀ now', read_active hash_token t' token now' = None)
    ∧ (∀ now', read_active hash_token t' fresh now'
         = if is_expired (ir_expires_at issued) now' then None
           else Some {| rr_tenant_id := rr_tenant_id rec; rr_user_id := rr_user_id rec;
                        rr_device_id := rr_device_id rec; rr_replica_id := rr_replica_id rec;
                        rr_expires_at := ir_expires_at issued |})
    ∧ ∀ h, h ≠ hash_token token → h ≠ hash_token fresh → t' !! h = t !! h.
Proof.
  intros (row & Ht & Ha & He & Hf & -> & ->)%rotate_Some.
  assert (hash_token token ≠ hash_token fresh) by congruence.
  exists (record_from_row row). unfold read_active, active in *. split_and!.
  - rewrite Ht, Ha, He. done.
  - intros now'. by rewrite lookup_insert_ne, lookup_insert_eq.
  - intros now'. rewrite lookup_insert_eq. done.
  - intros h H1 H2. by rewrite !lookup_insert_ne.
Qed.

(** C26: reuse burns the family: presenting an already revoked token of a family
    returns nothing, revokes every token of that family and no row of any other,
    and the family stays dead: whatever the store does afterwards (without a new
    family of the same id), no token of it reads active again. *)
Theorem reuse_burns_family hash_token msg token fresh ttl now (t t' t'' : RefreshTable) row f res :
  t !! hash_token token = Some row → is_Some (rt_revoked_at row) → rt_family_id row = Some f →
  rotate hash_token msg token fresh ttl now t = (res, t') →
  rtc (token_step hash_token msg {[f]}) t' t'' →
  res = Ok None
  ∧ (∀ h r, t !! h = Some r → rt_family_id r ≠ Some f → t' !! h = Some r)
  ∧ ∀ token' now' row', t'' !! hash_token token' = Some row' → rt_family_id row' = Some f →
      read_active hash_token t'' token' now' = None.
Proof.
  intros Ht Hrev Hf Hi Hr. unfold rotate, transaction, rotate_tx in Hi. run_M in Hi.
  rewrite Ht, bool_decide_true, Hf in Hi by done. injection Hi as <- <-. split_and!; [done| |].
  - intros h r Hl Hne. unfold revoke_where, in_family. rewrite lookup_fmap, Hl. simpl.
    by rewrite bool_decide_false.
  - intros token' now' row' Hl Hf'. eapply burned_read_active; [|done|done].
    eapply burned_rtc; [done|]. apply revoke_where_burns.
Qed.

(** ** A concrete family *)

Module SampleTokens.
Definition t0 : Z := 1700000000123.
Definition h (s : string) : string := "h" +:+ s.
Definition msg : string := "UNIQUE constraint failed".
Definition t1 : RefreshTable := (issue h msg "a" "fam" "t1" "u1" "d1" "r1" 3600 t0 ∅).2.
Definition t2 : RefreshTable := (rotate h msg "a" "b" 3600 (t0 + 1000) t1).2.
Definition t3 : RefreshTable := (rotate h msg "a" "c" 3600 (t0 + 2000) t2).2.
End SampleTokens.
Import SampleTokens.

Lemma one_active_per_family_witness : linear t3.
Proof.
  refine (one_active_per_family h msg t3 _).
  apply (rtc_l _ _ t1); [|apply (rtc_l _ _ t2); [|apply rtc_once]].
  - eapply (step_issue h msg ∅ "a" "fam" "t1" "u1" "d1" "r1" 3600 t0); [set_solver| |].
    + intros x r Hl. by rewrite lookup_empty in Hl.
    + apply surjective_pairing.
  - eapply (step_rotate h msg ∅ "a" "b" 3600 (t0 + 1000)). apply surjective_pairing.
  - eapply (step_rotate h msg ∅ "a" "c" 3600 (t0 + 2000)). apply surjective_pairing.
Defined.

Lemma rotate_hands_over_witness : read_active h t2 "a" (t0 + 1500) = None.
Proof.
  destruct (rotate_hands_over h msg "a" "b" 3600 (t0 + 1000) t1 t2
    {| ir_token := "b"; ir_tenant_id := "t1"; ir_user_id := "u1"; ir_device_id := "d1";
       ir_replica_id := "r1"; ir_expires_at := "2023-11-14T23:13:21.123Z" |}) as (rec & _ & Ho & _).
  - vm_compute. reflexivity.
  - apply Ho.
Defined.

Lemma reuse_burns_family_witness : read_active h t3 "b" (t0 + 2500) = None.
Proof.
  destruct (reuse_burns_family h msg "a" "c" 3600 (t0 + 2000) t2 t3 t3
    {| rt_tenant_id := "t1"; rt_user_id := "u1"; rt_device_id := "d1"; rt_replica_id := "r1";
       rt_created_at := "2023-11-14T22:13:20.123Z"; rt_expires_at := "2023-11-14T23:13:20.123Z";
       rt_revoked_at := Some "2023-11-14T22:13:21.123Z"; rt_family_id := Some "fam" |}
    "fam" (Ok None)) as (_ & _ & Hdead).
  - vm_compute. reflexivity.
  - eexists. reflexivity.
  - reflexivity.
  - vm_compute. reflexivity.
  - apply rtc_refl.
  - eapply Hdead; vm_compute; reflexivity.
Defined.
