(* ===== verification/JobStore.v ===== *)
(** * The job store, the worker and the recurring scheduler
      ([frick-store/src/stores/job.rs], [frick-server/src/jobs/worker.rs],
      [frick-server/src/jobs/recurring.rs])

    The [jobs] table is its list of rows in insertion order with the
    [AUTOINCREMENT] counter; the unique index on app, tenant, type and
    idempotency key is checked on insertion. The rows a [RETURNING *] gives come
    in table order, which SQL leaves open: theorems about [claim] speak of the
    set. Job handlers and the resolvers of recurring targets are code of the
    application and are parameters. *)

From Stdlib Require Import ZArith Lia Ascii String.
From stdpp Require Import base gmap strings list sorting pretty.
From S2P Require Import Prelude Value Schema Codec Timestamp StoreBase Encryption Samples.

Definition DEFAULT_APP_ID : string := "_default".
Definition BACKOFF_CAP_MS : Z := 5 * 60 * 1000.
Definition BACKOFF_BASE_MS : Z := 60 * 1000.
Definition DEFAULT_CLAIM_LIMIT : Z := 10.
Definition RECURRING_MIN_INTERVAL_MS : Z := 60000.

Inductive JobStatus : Type := Ready | Running | Completed | DeadLettered.
#[export] Instance JobStatus_eq_dec : EqDecision JobStatus.
Proof. solve_decision. Defined.

Definition JobStatus_as_str (s : JobStatus) : string :=
  match s with
  | Ready => "ready" | Running => "running" | Completed => "completed"
  | DeadLettered => "dead_lettered"
  end.
Definition JobStatus_parse (value : string) : option JobStatus :=
  if String.eqb value "ready" then Some Ready
  else if String.eqb value "running" then Some Running
  else if String.eqb value "completed" then Some Completed
  else if String.eqb value "dead_lettered" then Some DeadLettered
  else None.

Record JobRow : Type := {
  jr_id : Z; jr_tenant_id : string; jr_app_id : string; jr_job_type : string;
  jr_payload : Value; jr_status : JobStatus; jr_attempt_count : Z; jr_max_attempts : Z;
  jr_available_at : string; jr_created_at : string; jr_claimed_at : option string;
  jr_claimed_by : option string; jr_completed_at : option string; jr_failed_at : option string;
  jr_dead_lettered_at : option string; jr_idempotency_key : option string;
  jr_last_error_code : option string; jr_last_error_message : option string;
}.
Record StoredJob : Type := { sj_id : Z; sj_name : string; sj_value : Value }.
Record EnqueueInput : Type := {
  en_tenant_id : string; en_app_id : option string; en_job_type : string; en_payload : Value;
  en_idempotency_key : option string; en_available_at : option string; en_max_attempts : option Z;
}.
Record ListJobsFilter : Type := {
  lf_tenant_id : option string; lf_app_id : option string; lf_status : option JobStatus;
  lf_job_type : option string; lf_limit : option Z;
}.
Record JobCounts : Type := {
  jc_ready : Z; jc_running : Z; jc_completed : Z; jc_dead_lettered : Z; jc_failed : Z;
}.

Definition i64_saturating_mul (a b : Z) : Z := Z.max i64_min (Z.min i64_max (a * b)).

Definition job_backoff_ms (attempt_count : Z) : Z :=
  let safe := Z.max attempt_count 1 in
  let exponent := Z.min (safe - 1) 32 in
  let raw := i64_saturating_mul BACKOFF_BASE_MS (Z.shiftl 1 exponent) in
  Z.min raw BACKOFF_CAP_MS.

(** [div_euclid] by a positive interval is floor division. *)
Definition recurring_window_start (now_ms interval_ms : Z) : Z :=
  i64_mul (now_ms / interval_ms) interval_ms.

Definition recurring_idempotency_key (name : string) (app_id : option string) (tenant_id : string)
    (window_start_ms : Z) : string :=
  let app_segment := match app_id with Some a => a +:+ ":" | None => "" end in
  "recurring:" +:+ name +:+ ":" +:+ app_segment +:+ tenant_id +:+ ":" +:+ fmt window_start_ms.

(** The columns of [jobs]. *)
Record JobRec : Type := {
  j_id : Z; j_app_id : string; j_tenant_id : string; j_job_type : string; j_packed : blob;
  j_status : string; j_created_at : string; j_available_at : string; j_max_attempts : Z;
  j_attempt_count : Z; j_claimed_at : option string; j_claimed_by : option string;
  j_completed_at : option string; j_failed_at : option string; j_dead_lettered_at : option string;
  j_idempotency_key : option string; j_last_error_code : option string;
  j_last_error_message : option string;
}.

(** The rows and the highest id ever given. *)
Record JobTable : Type := { jobs : list JobRec; job_seq : Z }.

(** Empty texts read as absent. *)
Definition optional_text (c : option string) : option string :=
  match c with Some s => if Str.is_empty s then None else Some s | None => None end.

Definition opt_match (filter : option string) (c : string) : bool :=
  match filter with Some f => String.eqb c f | None => true end.

(** [LIMIT ?]: a negative limit is none in SQLite. *)
Definition limit_rows {A} (limit : Z) (l : list A) : list A :=
  if limit <? 0 then l else take (Z.to_nat limit) l.

Definition id_ge (a b : JobRec) : bool := j_id b <=? j_id a.
(** [ORDER BY available_at ASC, id ASC]. *)
Definition due_le (a b : JobRec) : bool :=
  if String.eqb (j_available_at a) (j_available_at b) then j_id a <=? j_id b
  else Str.leb (j_available_at a) (j_available_at b).

(** The updates of the statements. *)
Definition set_claimed (now worker_id : string) (r : JobRec) : JobRec :=
  {| j_id := j_id r; j_app_id := j_app_id r; j_tenant_id := j_tenant_id r;
     j_job_type := j_job_type r; j_packed := j_packed r; j_status := "running";
     j_created_at := j_created_at r; j_available_at := j_available_at r;
     j_max_attempts := j_max_attempts r; j_attempt_count := j_attempt_count r + 1;
     j_claimed_at := Some now; j_claimed_by := Some worker_id;
     j_completed_at := j_completed_at r; j_failed_at := j_failed_at r;
     j_dead_lettered_at := j_dead_lettered_at r; j_idempotency_key := j_idempotency_key r;
     j_last_error_code := j_last_error_code r; j_last_error_message := j_last_error_message r |}.
Definition set_completed (now : string) (packed : option blob) (r : JobRec) : JobRec :=
  {| j_id := j_id r; j_app_id := j_app_id r; j_tenant_id := j_tenant_id r;
     j_job_type := j_job_type r; j_packed := default (j_packed r) packed; j_status := "completed";
     j_created_at := j_created_at r; j_available_at := j_available_at r;
     j_max_attempts := j_max_attempts r; j_attempt_count := j_attempt_count r;
     j_claimed_at := j_claimed_at r; j_claimed_by := j_claimed_by r;
     j_completed_at := Some now; j_failed_at := j_failed_at r;
     j_dead_lettered_at := j_dead_lettered_at r; j_idempotency_key := j_idempotency_key r;
     j_last_error_code := j_last_error_code r; j_last_error_message := j_last_error_message r |}.
Definition set_rearmed (next_available now error_code error_message : string) (r : JobRec) : JobRec :=
  {| j_id := j_id r; j_app_id := j_app_id r; j_tenant_id := j_tenant_id r;
     j_job_type := j_job_type r; j_packed := j_packed r; j_status := "ready";
     j_created_at := j_created_at r; j_available_at := next_available;
     j_max_attempts := j_max_attempts r; j_attempt_count := j_attempt_count r;
     j_claimed_at := None; j_claimed_by := None;
     j_completed_at := j_completed_at r; j_failed_at := Some now;
     j_dead_lettered_at := j_dead_lettered_at r; j_idempotency_key := j_idempotency_key r;
     j_last_error_code := Some error_code; j_last_error_message := Some error_message |}.
Definition set_dead (now error_code error_message : string) (r : JobRec) : JobRec :=
  {| j_id := j_id r; j_app_id := j_app_id r; j_tenant_id := j_tenant_id r;
     j_job_type := j_job_type r; j_packed := j_packed r; j_status := "dead_lettered";
     j_created_at := j_created_at r; j_available_at := j_available_at r;
     j_max_attempts := j_max_attempts r; j_attempt_count := j_attempt_count r;
     j_claimed_at := j_claimed_at r; j_claimed_by := j_claimed_by r;
     j_completed_at := j_completed_at r; j_failed_at := Some now;
     j_dead_lettered_at := Some now; j_idempotency_key := j_idempotency_key r;
     j_last_error_code := Some error_code; j_last_error_message := Some error_message |}.

Definition update_jobs (where_ : JobRec → bool) (f : JobRec → JobRec) (t : JobTable) : JobTable :=
  {| jobs := update_where where_ f (jobs t); job_seq := job_seq t |}.

Definition is_status (s : JobStatus) (r : JobRec) : bool :=
  String.eqb (j_status r) (JobStatus_as_str s).

Section JobStore.
Context `{PackedColumn Value, Crypto}.
Context (encryption : option KeyProvider).

Definition seal_packed (nonce : blob) (tenant_id : string) (encoded : blob) :
    result StoreError blob :=
  match encryption with Some e => encrypt e nonce tenant_id encoded | None => Ok encoded end.

Definition map_row (r : JobRec) : result StoreError JobRow :=
  status ← ok_or (JobStatus_parse (j_status r))
             (Store ("jobs.map_row: unknown status '" +:+ j_status r +:+ "'"));
  packed ← match encryption with
           | Some e => decrypt e (j_tenant_id r) (j_packed r)
           | None => Ok (j_packed r)
           end;
  payload ← decode_packed (T := Value) packed;
  Ok {| jr_id := j_id r; jr_tenant_id := j_tenant_id r;
        jr_app_id := default DEFAULT_APP_ID (optional_text (Some (j_app_id r)));
        jr_job_type := j_job_type r; jr_payload := payload; jr_status := status;
        jr_attempt_count := j_attempt_count r; jr_max_attempts := j_max_attempts r;
        jr_available_at := j_available_at r; jr_created_at := j_created_at r;
        jr_claimed_at := optional_text (j_claimed_at r);
        jr_claimed_by := optional_text (j_claimed_by r);
        jr_completed_at := optional_text (j_completed_at r);
        jr_failed_at := optional_text (j_failed_at r);
        jr_dead_lettered_at := optional_text (j_dead_lettered_at r);
        jr_idempotency_key := optional_text (j_idempotency_key r);
        jr_last_error_code := optional_text (j_last_error_code r);
        jr_last_error_message := optional_text (j_last_error_message r) |}.

(** [Option::map(map_row).transpose()] of the first row. *)
Definition map_first (rows : list JobRec) : result StoreError (option JobRow) :=
  match rows with
  | [] => Ok None
  | r :: _ => row ← map_row r; Ok (Some row)
  end.

Definition has_key (app_id tenant_id job_type key : string) (r : JobRec) : bool :=
  String.eqb (j_app_id r) app_id && String.eqb (j_tenant_id r) tenant_id
  && String.eqb (j_job_type r) job_type && bool_decide (j_idempotency_key r = Some key).

Definition find_by_idempotency_key (t : JobTable) (tenant_id job_type key app_id : string) :
    result StoreError (option JobRow) :=
  map_first (select (has_key app_id tenant_id job_type key) (jobs t)).

Definition get_by_id (t : JobTable) (job_id : Z) (tenant_id app_id : option string) :
    result StoreError (option JobRow) :=
  map_first (select (λ r, (j_id r =? job_id) && opt_match tenant_id (j_tenant_id r)
                          && opt_match app_id (j_app_id r)) (jobs t)).

(** [INSERT INTO jobs .. RETURNING id]. *)
Definition insert_job (constraint_failed : string) (app_id tenant_id job_type : string)
    (packed : blob) (now available_at : string) (max_attempts : Z) (key : option string) :
    M JobTable StoreError Z := λ t,
  if match key with
     | Some k => existsb (has_key app_id tenant_id job_type k) (jobs t)
     | None => false
     end
  then (Err (Driver constraint_failed), t)
  else
    let id := job_seq t + 1 in
    (Ok id,
     {| jobs := jobs t ++ [{| j_id := id; j_app_id := app_id; j_tenant_id := tenant_id;
          j_job_type := job_type; j_packed := packed; j_status := "ready"; j_created_at := now;
          j_available_at := available_at; j_max_attempts := max_attempts; j_attempt_count := 0;
          j_claimed_at := None; j_claimed_by := None; j_completed_at := None; j_failed_at := None;
          j_dead_lettered_at := None; j_idempotency_key := key; j_last_error_code := None;
          j_last_error_message := None |}];
        job_seq := id |}).

Context (constraint_failed : string).

(** The insertion half of [enqueue]. *)
Definition enqueue_new (nonce : blob) (app_id : string) (input : EnqueueInput) (now_ms : Z) :
    M JobTable StoreError JobRow :=
  let now := epoch_ms_to_iso now_ms in
  let available_at := default now (en_available_at input) in
  let max_attempts := default 5 (en_max_attempts input) in
  encoded ← lift_res (encode_packed (en_payload input));
  packed ← lift_res (seal_packed nonce (en_tenant_id input) encoded);
  id ← insert_job constraint_failed app_id (en_tenant_id input) (en_job_type input) packed now
         available_at max_attempts (en_idempotency_key input);
  t ← get_state;
  row ← lift_res (get_by_id t id None None);
  lift_res (ok_or row (Store ("jobs.enqueue: inserted row " +:+ fmt id +:+ " not found"))).

Definition enqueue (nonce : blob) (input : EnqueueInput) (now_ms : Z) :
    M JobTable StoreError JobRow :=
  let app_id := default DEFAULT_APP_ID (en_app_id input) in
  match en_idempotency_key input with
  | Some key =>
      t ← get_state;
      existing ← lift_res (find_by_idempotency_key t (en_tenant_id input) (en_job_type input) key
                             app_id);
      match existing with
      | Some row => mret row
      | None => enqueue_new nonce app_id input now_ms
      end
  | None => enqueue_new nonce app_id input now_ms
  end.

(** The subquery of [claim]. *)
Definition eligible (now : string) (job_type app_id : option string) (r : JobRec) : bool :=
  is_status Ready r && Str.leb (j_available_at r) now && opt_match job_type (j_job_type r)
  && opt_match app_id (j_app_id r).
Definition claimable (t : JobTable) (now : string) (job_type app_id : option string) (limit : Z) :
    list JobRec :=
  limit_rows limit (order_by due_le (select (eligible now job_type app_id) (jobs t))).
Definition is_chosen (chosen : list JobRec) (r : JobRec) : bool :=
  bool_decide (j_id r ∈ j_id <$> chosen).

Definition claim (worker_id : string) (job_type : option string) (limit : Z)
    (app_id : option string) (now_ms : Z) : M JobTable StoreError (list JobRow) := λ t,
  let now := epoch_ms_to_iso now_ms in
  let chosen := claimable t now job_type app_id limit in
  let t' := update_jobs (is_chosen chosen) (set_claimed now worker_id) t in
  (map_res map_row (select (is_chosen chosen) (jobs t')), t').

Definition not_dead (job_id : Z) (r : JobRec) : bool :=
  (j_id r =? job_id) && negb (is_status DeadLettered r).

Definition complete (nonce : blob) (job_id : Z) (result_ : option Value) (now_ms : Z) :
    M JobTable StoreError unit :=
  let now := epoch_ms_to_iso now_ms in
  let write stored : M JobTable StoreError unit :=
    λ t, (Ok tt, update_jobs (not_dead job_id) (set_completed now stored) t) in
  match result_ with
  | Some v =>
      encoded ← lift_res (encode_packed v);
      match encryption with
      | Some e =>
          if is_active e then
            t ← get_state;
            found ← lift_res (get_by_id t job_id None None);
            match found with
            | None => mret tt
            | Some row => stored ← lift_res (encrypt e nonce (jr_tenant_id row) encoded);
                          write (Some stored)
            end
          else write (Some encoded)
      | None => write (Some encoded)
      end
  | None => write None
  end.

Definition fail (job_id : Z) (error_code error_message : string) (retryable : bool) (now_ms : Z) :
    M JobTable StoreError unit :=
  t ← get_state;
  found ← lift_res (get_by_id t job_id None None);
  match found with
  | None => mret tt
  | Some row =>
      let now := epoch_ms_to_iso now_ms in
      if retryable && (jr_attempt_count row <? jr_max_attempts row) then
        let next_available :=
          epoch_ms_to_iso (i64_add now_ms (job_backoff_ms (jr_attempt_count row))) in
        put_state (update_jobs (λ r, j_id r =? job_id)
                     (set_rearmed next_available now error_code error_message) t)
      else
        put_state (update_jobs (λ r, j_id r =? job_id) (set_dead now error_code error_message) t)
  end.

Definition list_jobs (t : JobTable) (f : ListJobsFilter) : result StoreError (list JobRow) :=
  map_res map_row (limit_rows (default 100 (lf_limit f)) (order_by id_ge
    (select (λ r, opt_match (lf_tenant_id f) (j_tenant_id r) && opt_match (lf_app_id f) (j_app_id r)
                  && match lf_status f with Some s => is_status s r | None => true end
                  && opt_match (lf_job_type f) (j_job_type r)) (jobs t)))).

Definition counts_by_status (t : JobTable) : JobCounts :=
  {| jc_ready := changes (is_status Ready) (jobs t);
     jc_running := changes (is_status Running) (jobs t);
     jc_completed := changes (is_status Completed) (jobs t);
     jc_dead_lettered := changes (is_status DeadLettered) (jobs t);
     jc_failed := changes (λ r, bool_decide (is_Some (j_last_error_code r))) (jobs t) |}.

Definition next (tenant_id job_type : string) (app_id : option string) (now_ms : Z) :
    M JobTable StoreError (option StoredJob) :=
  let app_id := default DEFAULT_APP_ID app_id in
  let worker_id := "legacy:" +:+ tenant_id in
  claimed ← claim worker_id (Some job_type) 1 (Some app_id) now_ms;
  mret ((λ row, {| sj_id := jr_id row; sj_name := jr_job_type row; sj_value := jr_payload row |})
        <$> list.head claimed).

(** ** The worker *)

Record JobError : Type := { je_code : string; je_message : string; je_retryable : bool }.

(** [registry.resolve]: a handler may use the store of its job's app. *)
Context (resolve : string → option (JobRow → M JobTable JobError Value)).

Definition complete_job (nonce : blob) (job_id : Z) (v : Value) (now_ms : Z) (t : JobTable) :
    JobTable := (complete nonce job_id (Some v) now_ms t).2.
Definition fail_job (job_id : Z) (error_code error_message : string) (retryable : bool)
    (now_ms : Z) (t : JobTable) : JobTable :=
  (fail job_id error_code error_message retryable now_ms t).2.

Definition run_job (nonce : Z → blob) (now_ms : Z) (t : JobTable) (job : JobRow) : JobTable :=
  match resolve (jr_job_type job) with
  | None =>
      fail_job (jr_id job) "jobs.unknownHandler"
        ("No handler registered for job type " +:+ quote +:+ jr_job_type job +:+ quote) false now_ms t
  | Some handler =>
      match handler job t with
      | (Ok v, t') => complete_job (nonce (jr_id job)) (jr_id job) v now_ms t'
      | (Err e, t') => fail_job (jr_id job) (je_code e) (je_message e) (je_retryable e) now_ms t'
      end
  end.

Definition poll_once (nonce : Z → blob) (worker_id : string) (claim_batch_size now_ms : Z)
    (t : JobTable) : nat * JobTable :=
  match claim worker_id None claim_batch_size None now_ms t with
  | (Err _, t') => (O, t')
  | (Ok claimed, t') => (length claimed, foldl (run_job nonce now_ms) t' claimed)
  end.

(** ** The recurring scheduler *)

Record RecurringTarget : Type := {
  tg_tenant_id : string; tg_app_id : option string; tg_payload : option Value;
}.
Record RecurringJob : Type := {
  rj_name : string; rj_job_type : string; rj_interval_ms : Z;
  rj_resolve_targets : JobTable → result string (list RecurringTarget);
}.
Record RecurringIntervalError : Type := { ri_name : string; ri_minimum : Z; ri_got : Z }.

(** [RecurringRegistry::new]. *)
Fixpoint check_intervals (js : list RecurringJob) : result RecurringIntervalError unit :=
  match js with
  | [] => Ok tt
  | j :: js' =>
      if rj_interval_ms j <? RECURRING_MIN_INTERVAL_MS
      then Err {| ri_name := rj_name j; ri_minimum := RECURRING_MIN_INTERVAL_MS;
                  ri_got := rj_interval_ms j |}
      else check_intervals js'
  end.
Definition RecurringRegistry_new (js : list RecurringJob) :
    result RecurringIntervalError (list RecurringJob) := check_intervals js;; Ok js.

Definition recurring_input (job : RecurringJob) (window_start : Z) (target : RecurringTarget) :
    EnqueueInput :=
  {| en_tenant_id := tg_tenant_id target; en_app_id := tg_app_id target;
     en_job_type := rj_job_type job; en_payload := default (VMap []) (tg_payload target);
     en_idempotency_key := Some (recurring_idempotency_key (rj_name job) (tg_app_id target)
                                   (tg_tenant_id target) window_start);
     en_available_at := Some (epoch_ms_to_iso window_start); en_max_attempts := None |}.

Fixpoint tick_targets (nonce : blob) (job : RecurringJob) (window_start now_ms : Z)
    (targets : list RecurringTarget) (acc : nat * JobTable) : nat * JobTable :=
  match targets with
  | [] => acc
  | target :: rest =>
      let '(enqueued, t) := acc in
      tick_targets nonce job window_start now_ms rest
        match enqueue nonce (recurring_input job window_start target) now_ms t with
        | (Ok _, t') => (S enqueued, t')
        | (Err _, t') => (enqueued, t')
        end
  end.

Definition tick_job (nonce : blob) (now_ms : Z) (acc : nat * JobTable) (job : RecurringJob) :
    nat * JobTable :=
  let window_start := recurring_window_start now_ms (rj_interval_ms job) in
  match rj_resolve_targets job acc.2 with
  | Err _ => acc
  | Ok targets => tick_targets nonce job window_start now_ms targets acc
  end.

Definition tick_once (nonce : blob) (registry : list RecurringJob) (now_ms : Z) (t : JobTable) :
    nat * JobTable :=
  foldl (tick_job nonce now_ms) (O, t) registry.
End JobStore.

(** ** Backoff and windows *)

Lemma job_backoff_eq a :
  job_backoff_ms a = Z.min (60000 * 2 ^ (Z.max 1 a - 1)) 300000.
Proof.
  unfold job_backoff_ms, i64_saturating_mul, BACKOFF_BASE_MS, BACKOFF_CAP_MS, i64_min, i64_max.
  rewrite Z.shiftl_1_l, (Z.max_comm a 1). set (e := Z.max 1 a - 1).
  assert (0 ≤ e) by lia. destruct (Z.le_gt_cases e 32) as [He|He].
  - rewrite (Z.min_l e 32) by done. assert (2 ^ e ≤ 2 ^ 32) by (apply Z.pow_le_mono_r; lia).
    assert (0 < 2 ^ e) by (apply Z.pow_pos_nonneg; lia). lia.
  - rewrite (Z.min_r e 32) by lia. assert (2 ^ 32 ≤ 2 ^ e) by (apply Z.pow_le_mono_r; lia). lia.
Qed.

Lemma window_bounds now interval :
  is_i64 now → 0 < interval → is_i64 (now - interval) →
  recurring_window_start now interval ≤ now < recurring_window_start now interval + interval.
Proof.
  intros [H1 H2] Hi [H3 H4]. unfold recurring_window_start, i64_mul.
  pose proof (Z.div_mod now interval ltac:(lia)). pose proof (Z.mod_pos_bound now interval Hi).
  rewrite wrap64_id by (unfold is_i64 in *; lia). lia.
Qed.

(** ** Rows through a step *)

Definition JobStatus_of (r : JobRec) : option JobStatus := JobStatus_parse (j_status r).

Inductive row_step : JobRec → JobRec → Prop :=
| row_keep r : row_step r r
| row_claimed now worker r :
    is_status Ready r = true → row_step r (set_claimed now worker r)
| row_completed now packed r :
    is_status DeadLettered r = false → row_step r (set_completed now packed r)
| row_rearmed next now code text r :
    j_attempt_count r < j_max_attempts r → row_step r (set_rearmed next now code text r)
| row_dead now code text r : row_step r (set_dead now code text r).

(** The identity of a job: what no operation changes. *)
Definition job_identity (r : JobRec) : Z * string * string * string * option string * Z :=
  (j_id r, j_app_id r, j_tenant_id r, j_job_type r, j_idempotency_key r, j_max_attempts r).

Lemma row_step_identity r r' : row_step r r' → job_identity r' = job_identity r.
Proof. by destruct 1. Qed.

(** The attempt budget, with at least one attempt. *)
Definition budget (r : JobRec) : Z := Z.max 1 (j_max_attempts r).

Record job_row_ok (seq : Z) (r : JobRec) : Prop := {
  jo_id : j_id r ≤ seq;
  jo_status : is_Some (JobStatus_of r);
  jo_attempts : 0 ≤ j_attempt_count r ≤ budget r;
  jo_ready : is_status Ready r = true → j_attempt_count r < budget r;
}.

Record job_wf (t : JobTable) : Prop := {
  jw_ids : NoDup (j_id <$> jobs t);
  jw_rows : ∀ r, r ∈ jobs t → job_row_ok (job_seq t) r;
  jw_keys : ∀ r1 r2 k, r1 ∈ jobs t → r2 ∈ jobs t → j_idempotency_key r1 = Some k →
              has_key (j_app_id r1) (j_tenant_id r1) (j_job_type r1) k r2 = true → r1 = r2;
}.

Lemma row_step_ok seq r r' : row_step r r' → job_row_ok seq r → job_row_ok seq r'.
Proof.
  intros Hs [Hi Hst Ha Hr]. destruct Hs as [r|now w r Hready|now p r Hd|nx now c m r Hlt|now c m r];
    split; try done; unfold budget in *; simpl in *; eauto; try (intros [=]); try lia.
  specialize (Hr Hready). lia.
Qed.

(** A new row of the table. *)
Definition new_row (t : JobTable) (row : JobRec) : Prop :=
  j_id row = job_seq t + 1 ∧ j_status row = "ready" ∧ j_attempt_count row = 0
  ∧ ∀ k, j_idempotency_key row = Some k →
      existsb (has_key (j_app_id row) (j_tenant_id row) (j_job_type row) k) (jobs t) = false.

(** What an operation does to the table. *)
Definition table_step (t t' : JobTable) : Prop :=
  ∃ f, (∀ r, r ∈ jobs t → row_step r (f r))
    ∧ ((jobs t' = f <$> jobs t ∧ job_seq t' = job_seq t)
       ∨ (∃ row, new_row t row ∧ jobs t' = jobs t ++ [row] ∧ job_seq t' = job_seq t + 1)).

Lemma has_key_spec a te ty k r :
  has_key a te ty k r = true ↔
  j_app_id r = a ∧ j_tenant_id r = te ∧ j_job_type r = ty ∧ j_idempotency_key r = Some k.
Proof.
  unfold has_key. rewrite !andb_true_iff, !String.eqb_eq, bool_decide_eq_true. tauto.
Qed.

Lemma table_step_wf t t' : table_step t t' → job_wf t → job_wf t'.
Proof.
  intros (f & Hf & Hcase) [Hids Hrows Hkeys].
  destruct Hcase as [[Hj Hs]|(row & (Hid & Hst & Hat & Hno) & Hj & Hs)].
  - assert (Hident : ∀ r, r ∈ jobs t → job_identity (f r) = job_identity r)
      by (intros; apply row_step_identity; auto).
    split.
    + rewrite Hj, <- list_fmap_compose.
      replace (j_id ∘ f <$> jobs t) with (j_id <$> jobs t); [done|].
      apply list_fmap_ext. intros i r Hl%list_elem_of_lookup_2. simpl.
      specialize (Hident r Hl). unfold job_identity in Hident. congruence.
    + rewrite Hj, Hs. intros r' (r & -> & Hr)%list_elem_of_fmap. eauto using row_step_ok.
    + rewrite Hj. intros r1' r2' k (r1 & -> & H1)%list_elem_of_fmap (r2 & -> & H2)%list_elem_of_fmap.
      rewrite has_key_spec. intros Hk Hh. f_equal.
      pose proof (Hident r1 H1) as I1. pose proof (Hident r2 H2) as I2.
      unfold job_identity in I1, I2. apply (Hkeys r1 r2 k); [done|done|congruence|].
      apply has_key_spec. destruct Hh as (? & ? & ? & ?). split_and!; congruence.
  - assert (Hnew : ∀ r, r ∈ jobs t → j_id r ≠ j_id row).
    { intros r Hr. pose proof (jo_id _ _ (Hrows r Hr)). lia. }
    split.
    + rewrite Hj, fmap_app. apply NoDup_app. split_and!; [done| |apply NoDup_singleton].
      intros i (r & -> & Hr)%list_elem_of_fmap Hi. apply list_elem_of_singleton in Hi.
      by apply (Hnew r).
    + rewrite Hj, Hs. intros r. rewrite elem_of_app, list_elem_of_singleton. intros [Hr| ->].
      * destruct (Hrows r Hr). split; try done. lia.
      * split; unfold budget, JobStatus_of; rewrite ?Hst, ?Hat, ?Hid; try lia. done.
    + rewrite Hj. intros r1 r2 k. rewrite !elem_of_app, !list_elem_of_singleton.
      intros [H1| ->] [H2| ->] Hk Hh; [by eauto| | |done].
      * exfalso. apply has_key_spec in Hh as (Ha & Ht & Hty & Hk2).
        specialize (Hno k Hk2). apply not_true_iff_false in Hno. apply Hno.
        apply existsb_exists. exists r1. split; [by apply list_elem_of_In|].
        apply has_key_spec. done.
      * exfalso. specialize (Hno k Hk). apply not_true_iff_false in Hno. apply Hno.
        apply existsb_exists. exists r2. split; [by apply list_elem_of_In|done].
Qed.

Lemma table_step_refl t : table_step t t.
Proof. exists id. split; [constructor|]. left. by rewrite list_fmap_id. Qed.

Lemma update_table_step w f t :
  (∀ r, r ∈ jobs t → w r = true → row_step r (f r)) → table_step t (update_jobs w f t).
Proof.
  intros Hf. exists (λ r, if w r then f r else r). split; [|by left].
  intros r Hr. destruct (w r) eqn:Ew; [by apply Hf|constructor].
Qed.

(** ** The operations as steps *)

Lemma elem_of_claimable t now ty app limit r :
  r ∈ claimable t now ty app limit → r ∈ jobs t ∧ eligible now ty app r = true.
Proof.
  intros Hr. rewrite <- elem_of_select, <- (elem_of_order_by due_le).
  unfold claimable, limit_rows in Hr. destruct (limit <? 0); [done|]. eapply elem_of_sublist; [exact Hr|apply sublist_take].
Qed.

Section JobSteps.
Context `{PackedColumn Value, Crypto}.
Context (encryption : option KeyProvider) (constraint_failed : string).

(** The operations that write; [may_fail] says which jobs may be failed. *)
Inductive job_step (may_fail : Z → Prop) : JobTable → JobTable → Prop :=
| step_enqueue nonce input now t t' res :
    enqueue encryption constraint_failed nonce input now t = (res, t') → job_step may_fail t t'
| step_claim worker ty limit app now t t' res :
    claim encryption worker ty limit app now t = (res, t') → job_step may_fail t t'
| step_complete nonce id v now t t' res :
    complete encryption nonce id v now t = (res, t') → job_step may_fail t t'
| step_fail id code text retryable now t t' res :
    may_fail id →
    fail encryption id code text retryable now t = (res, t') → job_step may_fail t t'.

Lemma map_row_columns r row :
  map_row encryption r = Ok row →
  jr_id row = j_id r ∧ jr_attempt_count row = j_attempt_count r
  ∧ jr_max_attempts row = j_max_attempts r ∧ jr_tenant_id row = j_tenant_id r
  ∧ JobStatus_of r = Some (jr_status row).
Proof using Type.
  unfold map_row, JobStatus_of. destruct (JobStatus_parse _) as [s|]; [|done].
  cbn [ok_or mbind result_bind].
  destruct (match encryption with Some e => _ | None => _ end) as [p|]; [|done].
  cbn [mbind result_bind]. destruct (decode_packed p); [|done].
  cbn [mbind result_bind]. by intros [= <-].
Qed.

Lemma get_by_id_row t id row :
  get_by_id encryption t id None None = Ok (Some row) →
  ∃ r, r ∈ jobs t ∧ j_id r = id ∧ map_row encryption r = Ok row.
Proof using Type.
  unfold get_by_id, map_first. set (w := λ r, _). destruct (select w (jobs t)) as [|r rs] eqn:E; [done|].
  destruct (map_row encryption r) as [row'|] eqn:Em; [|done]. intros [= <-].
  assert (r ∈ jobs t ∧ w r = true) as [Hr Hw] by (apply elem_of_select; rewrite E; set_solver).
  exists r. split_and!; [done| |done]. unfold w in Hw. simpl in Hw.
  rewrite !andb_true_r in Hw. by apply Z.eqb_eq in Hw.
Qed.

Lemma same_id_same_row t r1 r2 :
  job_wf t → r1 ∈ jobs t → r2 ∈ jobs t → j_id r1 = j_id r2 → r1 = r2.
Proof using Type.
  intros [Hnd _ _] (i & Hi)%list_elem_of_lookup (j & Hj)%list_elem_of_lookup Heq.
  assert (i = j) as ->; [|congruence].
  eapply (NoDup_lookup (j_id <$> jobs t)); [done|by rewrite list_lookup_fmap, Hi|].
  by rewrite list_lookup_fmap, Hj, Heq.
Qed.

Lemma insert_job_table app te ty packed now av mx key t res t' :
  insert_job constraint_failed app te ty packed now av mx key t = (res, t') →
  table_step t t'
  ∧ (∀ id, res = Ok id → ∃ row, jobs t' = jobs t ++ [row] ∧ j_id row = id ∧ j_app_id row = app
        ∧ j_tenant_id row = te ∧ j_job_type row = ty ∧ j_idempotency_key row = key).
Proof using Type.
  unfold insert_job. set (dup := match key with Some k => _ | None => _ end).
  destruct dup eqn:Ed; intros [= <- <-].
  - split; [apply table_step_refl|done].
  - split.
    + exists id. split; [constructor|]. right. eexists. split; [|done].
      split_and!; try done. intros k Hk. simpl in *. subst key. exact Ed.
    + intros id [= <-]. eexists. by split_and!.
Qed.

Lemma enqueue_new_table nonce app input now t res t' :
  enqueue_new encryption constraint_failed nonce app input now t = (res, t') →
  table_step t t'
  ∧ (∀ row, res = Ok row → job_wf t → ∃ r, r ∈ jobs t' ∧ j_id r = jr_id row ∧ j_app_id r = app
        ∧ j_tenant_id r = en_tenant_id input ∧ j_job_type r = en_job_type input
        ∧ j_idempotency_key r = en_idempotency_key input).
Proof using Type.
  unfold enqueue_new. run_M. intros He.
  destruct (encode_packed _) as [en|]; [|simplify_eq; split; [apply table_step_refl|done]].
  destruct (seal_packed _ _ _ _) as [pk|]; [|simplify_eq; split; [apply table_step_refl|done]].
  destruct (insert_job _ _ _ _ _ _ _ _ _ t) as [[id|e] t1] eqn:Ei.
  - apply insert_job_table in Ei as [Hs Hrow].
    assert (t' = t1) as -> by (destruct (get_by_id _ _ _ _ _); by simplify_eq).
    split; [done|]. intros row -> Hwf.
    destruct (Hrow id eq_refl) as (r & Hj & Hid & Ha & Ht & Hty & Hk).
    destruct (get_by_id encryption t1 id None None) as [[row'|]|] eqn:Eg; simplify_eq/=.
    apply get_by_id_row in Eg as (r' & Hr' & Hid' & Hm).
    assert (Hin : r ∈ jobs t1) by (rewrite Hj; set_solver).
    apply map_row_columns in Hm as (Hc & _). exists r. split_and!; try done. congruence.
  - apply insert_job_table in Ei as [Hs _]. simplify_eq. split; [done|discriminate].
Qed.

Lemma job_step_table may_fail t t' : job_step may_fail t t' → job_wf t → table_step t t'.
Proof using Type.
  intros Hs Hwf. destruct Hs as [nonce input now t t' res He|worker ty limit app now t t' res Hc
    |nonce id v now t t' res Hc|id code text retryable now t t' res _ Hfl].
  - unfold enqueue in He. destruct (en_idempotency_key input) as [key|].
    + run_M in He. destruct (find_by_idempotency_key _ _ _ _ _ _) as [[row|]|]; simplify_eq/=;
        [apply table_step_refl| |apply table_step_refl].
      by apply enqueue_new_table in He as [? _].
    + by apply enqueue_new_table in He as [? _].
  - unfold claim in Hc. simplify_eq. apply update_table_step. intros r Hr Hch. constructor.
    unfold is_chosen in Hch. apply bool_decide_eq_true in Hch.
    apply list_elem_of_fmap in Hch as (c & Hid & Hc).
    assert (Hel : c ∈ jobs t ∧ eligible (epoch_ms_to_iso now) ty app c = true).
    { by eapply elem_of_claimable. }
    destruct Hel as [Hct Hel]. rewrite (same_id_same_row t r c Hwf Hr Hct Hid).
    unfold eligible in Hel. rewrite !andb_true_iff in Hel. tauto.
  - unfold complete in Hc. run_M in Hc.
    assert (Hw : ∀ p, table_step t (update_jobs (not_dead id) (set_completed (epoch_ms_to_iso now) p) t)).
    { intros p. apply update_table_step. intros r _ Hn. constructor. unfold not_dead in Hn.
      apply andb_prop in Hn as [_ Hn]. by apply negb_true_iff in Hn. }
    case_matches; try apply table_step_refl; apply Hw.
  - unfold fail in Hfl. run_M in Hfl.
    destruct (get_by_id encryption t id None None) as [[row|]|] eqn:Eg; simplify_eq/=;
      try apply table_step_refl.
    apply get_by_id_row in Eg as (r0 & Hr0 & Hid & Hm).
    apply map_row_columns in Hm as (_ & Hat & Hmx & _).
    destruct (retryable && _) eqn:Ec; simplify_eq; apply update_table_step; intros r Hr Heq;
      apply Z.eqb_eq in Heq; constructor.
    apply andb_prop in Ec as [_ Hlt%Z.ltb_lt].
    rewrite (same_id_same_row t r r0 Hwf Hr Hr0) by congruence. lia.
Qed.

Lemma job_step_wf may_fail t t' : job_step may_fail t t' → job_wf t → job_wf t'.
Proof using Type. intros Hs Hwf. eapply table_step_wf; [by eapply job_step_table|done]. Qed.

Lemma jobs_reachable_wf may_fail t t' : rtc (job_step may_fail) t t' → job_wf t → job_wf t'.
Proof using Type. induction 1; eauto using job_step_wf. Qed.

(** Every row is still there after any number of steps, with its identity. *)
Lemma table_step_keeps t t' r :
  table_step t t' → r ∈ jobs t → ∃ r', r' ∈ jobs t' ∧ row_step r r'.
Proof using Type.
  intros (f & Hf & [[Hj _]|(row & _ & Hj & _)]) Hr; rewrite Hj.
  - exists (f r). split; [apply list_elem_of_fmap; eauto|by apply Hf].
  - exists r. split; [set_solver|constructor].
Qed.

Lemma jobs_kept may_fail t t' r :
  rtc (job_step may_fail) t t' → job_wf t → r ∈ jobs t →
  ∃ r', r' ∈ jobs t' ∧ job_identity r' = job_identity r.
Proof using Type.
  intros Hrtc. revert r. induction Hrtc as [t|t t1 t' Hs _ IH]; intros r Hwf Hr; [eauto|].
  pose proof (job_step_table _ _ _ Hs Hwf) as Ht.
  destruct (table_step_keeps _ _ _ Ht Hr) as (r1 & Hr1 & Hrs).
  destruct (IH r1) as (r2 & Hr2 & Hi); [by eapply job_step_wf|done|].
  exists r2. split; [done|]. rewrite Hi. by apply row_step_identity.
Qed.

(** ** Idempotent enqueues *)

Lemma find_key_row t r tenant ty key app :
  job_wf t → r ∈ jobs t → has_key app tenant ty key r = true →
  find_by_idempotency_key encryption t tenant ty key app
  = (row ← map_row encryption r; Ok (Some row)).
Proof using Type.
  intros Hwf Hr Hk. unfold find_by_idempotency_key, map_first.
  destruct (select _ (jobs t)) as [|r' rs] eqn:E.
  - assert (r ∈ @nil JobRec) as []%elem_of_nil. rewrite <- E. by apply elem_of_select.
  - assert (r' ∈ jobs t ∧ has_key app tenant ty key r' = true) as [Hr' Hk']
      by (apply elem_of_select; rewrite E; set_solver).
    assert (r = r') as <-; [|done].
    apply has_key_spec in Hk as (<- & <- & <- & Hk). by eapply jw_keys.
Qed.

Lemma enqueue_found nonce input now t r key :
  job_wf t → r ∈ jobs t → en_idempotency_key input = Some key →
  has_key (default DEFAULT_APP_ID (en_app_id input)) (en_tenant_id input) (en_job_type input) key r
  = true →
  enqueue encryption constraint_failed nonce input now t = (map_row encryption r, t).
Proof using Type.
  intros Hwf Hr Hi Hk. unfold enqueue. rewrite Hi. run_M.
  rewrite (find_key_row _ _ _ _ _ _ Hwf Hr Hk). by destruct (map_row encryption r).
Qed.

Lemma enqueue_leaves_key nonce input now t row t' key :
  job_wf t → en_idempotency_key input = Some key →
  enqueue encryption constraint_failed nonce input now t = (Ok row, t') →
  ∃ r, r ∈ jobs t' ∧ j_id r = jr_id row
    ∧ has_key (default DEFAULT_APP_ID (en_app_id input)) (en_tenant_id input) (en_job_type input)
        key r = true.
Proof using Type.
  intros Hwf Hi He. unfold enqueue in He. rewrite Hi in He. run_M in He.
  destruct (find_by_idempotency_key _ _ _ _ _ _) as [[row'|]|] eqn:Ef; simplify_eq/=.
  - unfold find_by_idempotency_key, map_first in Ef.
    destruct (select _ (jobs t')) as [|r rs] eqn:E; [done|].
    assert (r ∈ jobs t' ∧ has_key (default DEFAULT_APP_ID (en_app_id input)) (en_tenant_id input)
      (en_job_type input) key r = true) as [Hr Hk] by (apply elem_of_select; rewrite E; set_solver).
    destruct (map_row encryption r) as [row'|] eqn:Em; [|done]. simpl in Ef. simplify_eq.
    apply map_row_columns in Em as (Hid & _). eauto.
  - apply enqueue_new_table in He as [_ Hrow].
    destruct (Hrow row eq_refl Hwf) as (r & Hr & Hid & Ha & Ht & Hty & Hk).
    exists r. split_and!; [done|done|]. apply has_key_spec. split_and!; congruence.
Qed.
End JobSteps.

(** ** Claims *)

Section Claims.
Context `{PackedColumn Value, Crypto}.
Context (encryption : option KeyProvider) (constraint_failed : string).

Lemma enqueue_keeps nonce input now t res t' r :
  enqueue encryption constraint_failed nonce input now t = (res, t') → r ∈ jobs t → r ∈ jobs t'.
Proof using Type.
  assert (Hnew : ∀ app, enqueue_new encryption constraint_failed nonce app input now t = (res, t') →
    r ∈ jobs t → r ∈ jobs t').
  { intros app. unfold enqueue_new, insert_job. run_M. intros He Hr.
    destruct (encode_packed _); [|by simplify_eq]. destruct (seal_packed _ _ _ _); [|by simplify_eq].
    destruct (match en_idempotency_key input with Some k => _ | None => _ end); [by simplify_eq|].
    destruct (get_by_id _ _ _ _ _); simplify_eq; simpl; set_solver. }
  unfold enqueue. destruct (en_idempotency_key input); [|eauto]. run_M.
  destruct (find_by_idempotency_key _ _ _ _ _ _) as [[row|]|]; intros He Hr; simplify_eq; eauto.
Qed.

Lemma update_keeps (w : JobRec → bool) (f : JobRec → JobRec) (t : JobTable) (r : JobRec) :
  r ∈ jobs t → (if w r then f r else r) ∈ jobs (update_jobs w f t).
Proof using Type. intros Hr. simpl. apply list_elem_of_fmap. eauto. Qed.

(** A job that is not ready becomes ready only by [fail]. *)
Lemma job_step_not_ready may_fail t t' r :
  job_step encryption constraint_failed may_fail t t' → r ∈ jobs t → is_status Ready r = false →
  ∃ r', r' ∈ jobs t' ∧ j_id r' = j_id r ∧ (is_status Ready r' = true → may_fail (j_id r)).
Proof using Type.
  intros Hs Hr Hst. assert (Hsame : is_status Ready r = true → may_fail (j_id r)) by congruence.
  destruct Hs as [nonce input now t t' res He|worker ty limit app now t t' res Hc
    |nonce id v now t t' res Hc|id code text retryable now t t' res Hm Hfl].
  - exists r. split; [by eapply enqueue_keeps|done].
  - unfold claim in Hc. simplify_eq. eexists. split; [by apply update_keeps|].
    by destruct (is_chosen _ r).
  - unfold complete in Hc. run_M in Hc.
    assert (Hw : ∀ p, ∃ r', r' ∈ jobs (update_jobs (not_dead id) (set_completed (epoch_ms_to_iso now) p) t)
      ∧ j_id r' = j_id r ∧ (is_status Ready r' = true → may_fail (j_id r))).
    { intros p. eexists. split; [by apply update_keeps|]. by destruct (not_dead id r). }
    case_matches; try (by exists r); apply Hw.
  - unfold fail in Hfl. run_M in Hfl.
    assert (Hw : ∀ f, (∀ r, j_id (f r) = j_id r) → ∃ r', r' ∈ jobs (update_jobs (λ r, j_id r =? id) f t)
      ∧ j_id r' = j_id r ∧ (is_status Ready r' = true → may_fail (j_id r))).
    { intros f Hf. eexists. split; [by apply update_keeps|]. simpl.
      destruct (Z.eqb_spec (j_id r) id) as [Heq|]; [|done]. by rewrite Hf, Heq. }
    destruct (get_by_id _ _ _ _ _) as [[row|]|]; simplify_eq/=; try (by exists r).
    destruct (retryable && _); simplify_eq; by apply Hw.
Qed.

Lemma stays_not_ready id t t' :
  rtc (job_step encryption constraint_failed (λ i, i ≠ id)) t t' →
  (∃ r, r ∈ jobs t ∧ j_id r = id ∧ is_status Ready r = false) →
  ∃ r, r ∈ jobs t' ∧ j_id r = id ∧ is_status Ready r = false.
Proof using Type.
  induction 1 as [|t t1 t' Hs _ IH]; [done|]. intros (r & Hr & Hid & Hst). apply IH.
  destruct (job_step_not_ready _ _ _ _ Hs Hr Hst) as (r' & Hr' & Hid' & Hno).
  exists r'. split_and!; [done|congruence|]. destruct (is_status Ready r'); [|done].
  by destruct (Hno eq_refl).
Qed.

Lemma eligible_ready now ty app r : eligible now ty app r = true → is_status Ready r = true.
Proof using Type. unfold eligible. rewrite !andb_true_iff. tauto. Qed.

(** The rows a claim returns are the chosen ones, now running. *)
Lemma claim_rows worker ty limit app now t rows t' row :
  claim encryption worker ty limit app now t = (Ok rows, t') → row ∈ rows →
  ∃ r, r ∈ jobs t' ∧ j_id r = jr_id row ∧ j_status r = "running"
       ∧ map_row encryption r = Ok row.
Proof using Type.
  intros Hc Hrow. unfold claim in Hc. injection Hc as Hm <-. apply map_res_Ok in Hm.
  apply list_elem_of_lookup in Hrow as [i Hi].
  destruct (Forall2_lookup_r _ _ _ _ _ Hm Hi) as (r & Hr & Hmr).
  apply list_elem_of_lookup_2, elem_of_select in Hr as [Hr Hch].
  exists r. split_and!; [done| |  |done].
  - symmetry. by apply (map_row_columns _ _ _ Hmr).
  - simpl in Hr. unfold update_where in Hr. apply list_elem_of_fmap in Hr as (r0 & -> & Hr0).
    destruct (is_chosen _ r0) eqn:E; [done|]. congruence.
Qed.

Lemma length_limit_rows {A} limit (l : list A) :
  0 ≤ limit → length (limit_rows limit l) = Nat.min (Z.to_nat limit) (length l).
Proof using Type.
  intros Hl. unfold limit_rows. rewrite (proj2 (Z.ltb_ge _ _) Hl). apply length_take.
Qed.

Lemma limit_rows_app {A} limit (l : list A) : ∃ rest, l = limit_rows limit l ++ rest.
Proof using Type.
  unfold limit_rows. destruct (limit <? 0); [exists []; by rewrite app_nil_r|].
  exists (drop (Z.to_nat limit) l). by rewrite take_drop.
Qed.

Lemma sorted_app_le {A} (R : A → A → Prop) l1 l2 x y :
  StronglySorted R (l1 ++ l2) → x ∈ l1 → y ∈ l2 → R x y.
Proof using Type.
  induction l1 as [|a l1 IH]; intros Hs Hx Hy; [by apply elem_of_nil in Hx|].
  apply StronglySorted_inv in Hs as [Hs Hf]. apply elem_of_cons in Hx as [->|Hx]; [|by apply IH].
  rewrite Forall_forall in Hf. apply Hf. set_solver.
Qed.
End Claims.

Lemma due_le_total x y : due_le x y = true ∨ due_le y x = true.
Proof.
  unfold due_le. destruct (String.eqb_spec (j_available_at x) (j_available_at y)) as [->|Hne].
  - rewrite String.eqb_refl, !Z.leb_le. lia.
  - destruct (String.eqb_spec (j_available_at y) (j_available_at x)); [congruence|].
    apply lex_le_total.
Qed.
Lemma due_le_trans x y z : due_le x y = true → due_le y z = true → due_le x z = true.
Proof.
  unfold due_le. destruct (String.eqb_spec (j_available_at x) (j_available_at y)) as [->|Hxy];
    destruct (String.eqb_spec (j_available_at y) (j_available_at z)) as [Hyz|Hyz];
    try (rewrite !Z.leb_le; lia); try tauto.
  - rewrite <- Hyz. by destruct (String.eqb_spec (j_available_at x) (j_available_at y)).
  - intros H1 H2. destruct (String.eqb_spec (j_available_at x) (j_available_at z)) as [Heq|].
    + destruct Hxy. apply bytes_inj, lex_le_antisym; [done|]. by rewrite Heq.
    + by eapply lex_le_trans.
Qed.

Section ClaimExact.
Context `{PackedColumn Value, Crypto}.
Context (encryption : option KeyProvider).

Lemma claim_ids worker ty limit app now t rows t' :
  claim encryption worker ty limit app now t = (Ok rows, t') →
  jr_id <$> rows
  = j_id <$> select (is_chosen (claimable t (epoch_ms_to_iso now) ty app limit)) (jobs t').
Proof using Type.
  unfold claim. intros [= Hm <-]. apply map_res_Ok in Hm.
  apply list_eq_Forall2, Forall2_fmap_2, Forall2_flip. eapply Forall2_impl; [exact Hm|].
  intros r row Hmr. simpl. by apply (map_row_columns _ _ _ Hmr).
Qed.

Lemma claim_ids_NoDup worker ty limit app now t rows t' :
  job_wf t → claim encryption worker ty limit app now t = (Ok rows, t') → NoDup (jr_id <$> rows).
Proof using Type.
  intros Hwf Hc. rewrite (claim_ids _ _ _ _ _ _ _ _ Hc).
  eapply sublist_NoDup; [apply (jw_ids t')|apply fmap_sublist, select_sublist].
  eapply (job_step_wf encryption "" (λ _, True)); [eapply step_claim; exact Hc|done].
Qed.

Lemma claimable_ids_NoDup t now ty app limit :
  job_wf t → NoDup (j_id <$> claimable t now ty app limit).
Proof using Type.
  intros Hwf. unfold claimable.
  destruct (limit_rows_app limit (order_by due_le (select (eligible now ty app) (jobs t))))
    as [rest Hrest].
  assert (NoDup (j_id <$> order_by due_le (select (eligible now ty app) (jobs t)))) as Hnd.
  { rewrite order_by_perm.
    eapply sublist_NoDup; [apply (jw_ids t Hwf)|apply fmap_sublist, select_sublist]. }
  rewrite Hrest, fmap_app in Hnd. by apply NoDup_app in Hnd as [? _].
Qed.

Lemma claim_exact_eq worker ty limit app now t res t' :
  job_wf t → 0 ≤ limit → claim encryption worker ty limit app now t = (res, t') →
  let iso := epoch_ms_to_iso now in
  ∃ chosen,
    (∀ r, r ∈ chosen → r ∈ jobs t ∧ eligible iso ty app r = true)
    ∧ length chosen = Nat.min (Z.to_nat limit) (length (select (eligible iso ty app) (jobs t)))
    ∧ (∀ c r, c ∈ chosen → r ∈ jobs t → eligible iso ty app r = true → r ∉ chosen →
         due_le c r = true)
    ∧ jobs t' = update_where (is_chosen chosen) (set_claimed iso worker) (jobs t)
    ∧ (∀ rows, res = Ok rows → jr_id <$> rows ≡ₚ j_id <$> chosen).
Proof using Type.
  intros Hwf Hl Hc iso. assert (t' = update_jobs (is_chosen (claimable t iso ty app limit))
    (set_claimed iso worker) t) as -> by (unfold claim in Hc; by simplify_eq).
  set (chosen := claimable t iso ty app limit). exists chosen. split_and!; try done.
  - intros r. apply elem_of_claimable.
  - unfold chosen, claimable. rewrite length_limit_rows by done. by rewrite order_by_perm.
  - intros c r Hcc Hr He Hn. unfold chosen, claimable in *.
    destruct (limit_rows_app limit (order_by due_le (select (eligible iso ty app) (jobs t))))
      as [rest Hrest].
    apply (sorted_app_le (λ x y, due_le x y = true)
      (limit_rows limit (order_by due_le (select (eligible iso ty app) (jobs t))))
      rest); [|done|].
    + simpl. rewrite <- Hrest. apply order_by_sorted; [apply due_le_total|apply due_le_trans].
    + assert (r ∈ order_by due_le (select (eligible iso ty app) (jobs t))) as Hin
        by (rewrite elem_of_order_by; by apply elem_of_select).
      rewrite Hrest in Hin. apply elem_of_app in Hin as [|]; done.
  - intros rows ->. rewrite (claim_ids worker ty limit app now t rows _ Hc).
    apply NoDup_Permutation.
    + rewrite <- (claim_ids worker ty limit app now t rows _ Hc). by eapply claim_ids_NoDup.
    + by apply claimable_ids_NoDup.
    + intros i. split.
      * intros (r & -> & [_ Hch]%elem_of_select)%list_elem_of_fmap.
        by apply bool_decide_eq_true in Hch.
      * intros Hi. pose proof Hi as (c & -> & Hcc)%list_elem_of_fmap.
        apply elem_of_claimable in Hcc as [Hct _]. apply list_elem_of_fmap.
        exists (set_claimed iso worker c). split; [done|]. apply elem_of_select.
        assert (is_chosen chosen c = true) as Hch by by apply bool_decide_eq_true.
        split; [|done]. apply list_elem_of_fmap. exists c. unfold chosen in Hch. by rewrite Hch.
Qed.
End ClaimExact.

(** ** Recurring windows *)

Section Recurring.
Context `{PackedColumn Value, Crypto}.
Context (encryption : option KeyProvider) (constraint_failed : string).
Abbreviation any_step := (job_step encryption constraint_failed (λ _, True)).

(** The job of a window is in the table. *)
Definition window_present (t : JobTable) (job : RecurringJob) (w : Z) (target : RecurringTarget) :
    Prop :=
  let input := recurring_input job w target in
  ∃ r key, r ∈ jobs t ∧ en_idempotency_key input = Some key
    ∧ has_key (default DEFAULT_APP_ID (en_app_id input)) (en_tenant_id input) (en_job_type input)
        key r = true.

Lemma window_present_kept t t' job w target :
  rtc any_step t t' → job_wf t → window_present t job w target → window_present t' job w target.
Proof using Type.
  intros Hr Hwf (r & key & Hin & Hk & Hh).
  destruct (jobs_kept _ _ _ _ _ _ Hr Hwf Hin) as (r' & Hin' & Hi).
  exists r', key. split_and!; [done|done|]. unfold job_identity in Hi.
  rewrite has_key_spec in Hh |- *. destruct Hh as (? & ? & ? & ?). split_and!; congruence.
Qed.

Lemma tick_targets_fill nonce job w now targets k t k' t' :
  job_wf t →
  tick_targets encryption constraint_failed nonce job w now targets (k, t) = (k', t') →
  rtc any_step t t' ∧ (k' ≤ k + length targets)%nat
  ∧ (k' = (k + length targets)%nat → Forall (window_present t' job w) targets).
Proof using Type.
  revert k t. induction targets as [|tg rest IH]; intros k t Hwf; cbn [tick_targets].
  - intros [= <- <-]. split_and!; [apply rtc_refl|simpl; lia|constructor].
  - destruct (enqueue encryption constraint_failed nonce (recurring_input job w tg) now t)
      as [res t1] eqn:E. intros Ht.
    assert (Hs : any_step t t1) by (eapply step_enqueue; eauto).
    assert (Hwf1 : job_wf t1) by (eapply job_step_wf; eauto).
    destruct res as [row|]; destruct (IH _ _ Hwf1 Ht) as (Hr & Hle & Hall);
      (split_and!; [by eapply rtc_l|simpl; lia|]); simpl; intros Hk; [|lia].
    constructor; [|apply Hall; lia].
    eapply window_present_kept; [exact Hr|done|].
    destruct (enqueue_leaves_key _ _ _ (recurring_input job w tg) _ _ _ _ _ Hwf eq_refl E)
      as (r & Hin & _ & Hh).
    exists r. eexists. split_and!; [done|reflexivity|exact Hh].
Qed.

Lemma tick_targets_noop nonce job w now targets k t :
  job_wf t → Forall (window_present t job w) targets →
  (tick_targets encryption constraint_failed nonce job w now targets (k, t)).2 = t.
Proof using Type.
  intros Hwf. revert k. induction targets as [|tg rest IH]; intros k Hp; cbn [tick_targets]; [done|].
  apply Forall_cons in Hp as [(r & key & Hin & Hk & Hh) Hp].
  rewrite (enqueue_found _ _ _ _ _ _ r key) by done.
  destruct (map_row encryption r); by apply IH.
Qed.

(** The targets of a registry, when they do not depend on the jobs. *)
Definition all_targets (registry : list RecurringJob) (t : JobTable) : nat :=
  sum_list ((λ j, match rj_resolve_targets j t with Ok ts => length ts | Err _ => O end)
              <$> registry).

Lemma all_targets_cons j reg t :
  all_targets (j :: reg) t
  = (match rj_resolve_targets j t with Ok ts => length ts | Err _ => O end
     + all_targets reg t)%nat.
Proof using Type. done. Qed.

(** The targets do not depend on the jobs. *)
Definition static_targets (registry : list RecurringJob) : Prop :=
  ∀ j, j ∈ registry → ∀ ta tb, rj_resolve_targets j ta = rj_resolve_targets j tb.

Lemma all_targets_static registry ta tb :
  static_targets registry → all_targets registry ta = all_targets registry tb.
Proof using Type.
  intros Hres. unfold all_targets. f_equal. apply list_fmap_ext. intros i x Hx.
  apply list_elem_of_lookup_2 in Hx. by rewrite (Hres x Hx ta tb).
Qed.

(** Every window of the tick is in the table. *)
Definition windows_present (registry : list RecurringJob) (now : Z) (t : JobTable) : Prop :=
  ∀ j ts, j ∈ registry → rj_resolve_targets j t = Ok ts →
    Forall (window_present t j (recurring_window_start now (rj_interval_ms j))) ts.

Lemma window_presents_kept t t' j w ts :
  rtc any_step t t' → job_wf t → Forall (window_present t j w) ts →
  Forall (window_present t' j w) ts.
Proof using Type.
  intros Hr Hwf Hall. eapply Forall_impl; [exact Hall|]. intros tg. by apply window_present_kept.
Qed.

Lemma tick_jobs_fill nonce registry now k t k' t' :
  static_targets registry → job_wf t →
  foldl (tick_job encryption constraint_failed nonce now) (k, t) registry = (k', t') →
  rtc any_step t t' ∧ (k' ≤ k + all_targets registry t)%nat
  ∧ (k' = (k + all_targets registry t)%nat → windows_present registry now t').
Proof using Type.
  revert k t. induction registry as [|j reg IH]; intros k t Hres Hwf; simpl.
  - intros [= <- <-]. split_and!; [apply rtc_refl|lia|]. by intros _ j ts Hj%elem_of_nil.
  - assert (Hres' : static_targets reg) by (intros x Hx; apply Hres; set_solver).
    rewrite all_targets_cons. unfold tick_job at 2. cbn [snd].
    destruct (rj_resolve_targets j t) as [ts|] eqn:Ej; intros Hf.
    + destruct (tick_targets _ _ _ _ _ _ ts (k, t)) as [k1 t1] eqn:Et.
      destruct (tick_targets_fill _ _ _ _ _ _ _ _ _ Hwf Et) as (Hr1 & Hle1 & Hp1).
      assert (Hwf1 : job_wf t1) by (eapply jobs_reachable_wf; eauto).
      destruct (IH _ _ Hres' Hwf1 Hf) as (Hr2 & Hle2 & Hp2).
      rewrite (all_targets_static reg t1 t Hres') in Hle2, Hp2.
      split_and!; [by etrans|lia|]. intros Hk j' ts' Hj' Hr'.
      apply elem_of_cons in Hj' as [->|Hj'].
      * rewrite (Hres j ltac:(set_solver) t' t), Ej in Hr'. injection Hr' as <-.
        eapply window_presents_kept; [exact Hr2|done|]. apply Hp1. lia.
      * apply Hp2; [lia|done|done].
    + destruct (IH _ _ Hres' Hwf Hf) as (Hr2 & Hle2 & Hp2).
      split_and!; [done|done|]. intros Hk j' ts' Hj' Hr'.
      apply elem_of_cons in Hj' as [->|Hj']; [|by apply Hp2].
      rewrite (Hres j ltac:(set_solver) t' t) in Hr'. congruence.
Qed.

Lemma tick_jobs_noop nonce registry now k t :
  job_wf t → windows_present registry now t →
  (foldl (tick_job encryption constraint_failed nonce now) (k, t) registry).2 = t.
Proof using Type.
  intros Hwf. revert k. induction registry as [|j reg IH]; intros k Hp; simpl; [done|].
  assert (Hstep : (tick_job encryption constraint_failed nonce now (k, t) j).2 = t).
  { unfold tick_job. cbn [snd]. destruct (rj_resolve_targets j t) as [ts|] eqn:Ej; [|done].
    apply tick_targets_noop; [done|]. apply Hp; [set_solver|done]. }
  destruct (tick_job _ _ _ _ (k, t) j) as [k2 t2]. simpl in Hstep. subst t2. apply IH.
  intros j' ts Hj'. apply Hp. set_solver.
Qed.

Lemma tick_once_twice nonce nonce2 registry now now2 t t1 t2 :
  job_wf t → static_targets registry →
  (∀ j, j ∈ registry → recurring_window_start now2 (rj_interval_ms j)
                       = recurring_window_start now (rj_interval_ms j)) →
  tick_once encryption constraint_failed nonce registry now t = (all_targets registry t, t1) →
  rtc any_step t1 t2 →
  (tick_once encryption constraint_failed nonce2 registry now2 t2).2 = t2.
Proof using Type.
  intros Hwf Hres Hwin Ht Hr. unfold tick_once in *.
  destruct (tick_jobs_fill _ _ _ _ _ _ _ Hres Hwf Ht) as (Hr1 & _ & Hp). specialize (Hp eq_refl).
  assert (Hwf1 : job_wf t1) by (eapply jobs_reachable_wf; eauto).
  apply tick_jobs_noop; [by eapply jobs_reachable_wf|].
  intros j ts Hj Hts. rewrite (Hwin j Hj). eapply window_presents_kept; [exact Hr|done|].
  apply Hp; [done|]. by rewrite (Hres j Hj t1 t2).
Qed.
End Recurring.

(** ** The worker *)

Section Worker.
Context `{PackedColumn Value, Crypto}.
Context (encryption : option KeyProvider).
Lemma get_by_id_self t r job :
  job_wf t → r ∈ jobs t → map_row encryption r = Ok job →
  get_by_id encryption t (jr_id job) None None = Ok (Some job).
Proof using Type.
  intros Hwf Hr Hm. destruct (map_row_columns _ _ _ Hm) as (Hid & _).
  unfold get_by_id, map_first. set (w := λ r, _). destruct (select w (jobs t)) as [|r' rs] eqn:E.
  - assert (r ∈ @nil JobRec) as []%elem_of_nil. rewrite <- E. apply elem_of_select.
    split; [done|]. unfold w. simpl. by rewrite Hid, Z.eqb_refl.
  - assert (r' ∈ jobs t ∧ w r' = true) as [Hr' Hw] by (apply elem_of_select; rewrite E; set_solver).
    unfold w in Hw. simpl in Hw. rewrite !andb_true_r in Hw. apply Z.eqb_eq in Hw.
    rewrite (same_id_same_row t r' r Hwf Hr' Hr) by congruence. by rewrite Hm.
Qed.

Lemma fail_writes t r job code text retryable now :
  job_wf t → r ∈ jobs t → map_row encryption r = Ok job →
  fail_job encryption (jr_id job) code text retryable now t
  = update_jobs (λ r, j_id r =? jr_id job)
      (if retryable && (jr_attempt_count job <? jr_max_attempts job)
       then set_rearmed (epoch_ms_to_iso (i64_add now (job_backoff_ms (jr_attempt_count job))))
              (epoch_ms_to_iso now) code text
       else set_dead (epoch_ms_to_iso now) code text) t.
Proof using Type.
  intros Hwf Hr Hm. unfold fail_job, fail. run_M. rewrite (get_by_id_self t r job) by done.
  by destruct (retryable && _).
Qed.

Context (resolve : string → option (JobRow → M JobTable JobError Value)).
Context (outcome : JobRow → result JobError Value) (nonce : Z → blob).

(** Handlers that do their work outside the jobs table, with results that can be
    sealed. *)
Definition quiet_handlers : Prop :=
  (∀ ty h job t, resolve ty = Some h → h job t = (outcome job, t))
  ∧ (∀ job v, outcome job = Ok v →
       ∃ encoded, encode_packed v = Ok encoded
         ∧ ∀ e, encryption = Some e →
             ∃ stored, encrypt e (nonce (jr_id job)) (jr_tenant_id job) encoded = Ok stored).

(** How a claimed job ends. *)
Definition settled (now : Z) (job : JobRow) (r : JobRec) : Prop :=
  match resolve (jr_job_type job), outcome job with
  | None, _ => j_status r = "dead_lettered"
  | Some _, Ok _ => j_status r = "completed"
  | Some _, Err e =>
      if je_retryable e && (jr_attempt_count job <? jr_max_attempts job)
      then j_status r = "ready"
           ∧ j_available_at r
             = epoch_ms_to_iso (i64_add now (job_backoff_ms (jr_attempt_count job)))
      else j_status r = "dead_lettered"
  end.

Lemma complete_writes t r job v now :
  quiet_handlers → job_wf t → r ∈ jobs t → map_row encryption r = Ok job → outcome job = Ok v →
  ∃ stored, complete_job encryption (nonce (jr_id job)) (jr_id job) v now t
    = update_jobs (not_dead (jr_id job)) (set_completed (epoch_ms_to_iso now) (Some stored)) t.
Proof using Type.
  intros [_ Hq] Hwf Hr Hm Hv. destruct (Hq job v Hv) as (encoded & He & Hs).
  unfold complete_job, complete. run_M. rewrite He.
  destruct encryption as [e|] eqn:Een; [|by eexists].
  destruct (is_active e); [|by eexists].
  rewrite <- Een in *. rewrite (get_by_id_self t r job) by done.
  destruct (Hs e Een) as [stored Hst]. rewrite Hst. by eexists.
Qed.

Lemma run_job_own now t r job :
  quiet_handlers → job_wf t → r ∈ jobs t → map_row encryption r = Ok job → j_status r = "running" →
  ∃ r', r' ∈ jobs (run_job encryption resolve nonce now t job) ∧ j_id r' = jr_id job
        ∧ settled now job r'.
Proof using Type.
  intros Hq Hwf Hr Hm Hst. destruct (map_row_columns _ _ _ Hm) as (Hid & _).
  unfold run_job, settled. destruct (resolve (jr_job_type job)) as [h|] eqn:Eh.
  - rewrite (proj1 Hq _ _ job t Eh). destruct (outcome job) as [v|e] eqn:Eo.
    + destruct (complete_writes t r job v now Hq Hwf Hr Hm Eo) as [stored ->].
      eexists. split; [apply (update_keeps _ _ _ r Hr)|]. unfold not_dead, is_status.
      by rewrite Hid, Z.eqb_refl, Hst.
    + rewrite (fail_writes t r job) by done.
      eexists. split; [apply (update_keeps _ _ _ r Hr)|]. rewrite Hid, Z.eqb_refl.
      by destruct (je_retryable e && _).
  - rewrite (fail_writes t r job) by done.
    eexists. split; [apply (update_keeps _ _ _ r Hr)|]. by rewrite Hid, Z.eqb_refl.
Qed.

Lemma run_job_wf now t r job :
  quiet_handlers → job_wf t → r ∈ jobs t → map_row encryption r = Ok job →
  job_wf (run_job encryption resolve nonce now t job)
  ∧ ∀ x, x ∈ jobs t → j_id x ≠ jr_id job →
      x ∈ jobs (run_job encryption resolve nonce now t job).
Proof using Type.
  intros Hq Hwf Hr Hm. split.
  - unfold run_job. destruct (resolve (jr_job_type job)) as [h|] eqn:Eh.
    + rewrite (proj1 Hq _ _ job t Eh). destruct (outcome job).
      * eapply (job_step_wf encryption "" (λ _, True)); [|exact Hwf].
        eapply step_complete. apply surjective_pairing.
      * eapply (job_step_wf encryption "" (λ _, True)); [|exact Hwf].
        eapply step_fail; [done|]. apply surjective_pairing.
    + eapply (job_step_wf encryption "" (λ _, True)); [|exact Hwf].
      eapply step_fail; [done|]. apply surjective_pairing.
  - intros x Hx Hne. assert (Hu : ∀ w f, w x = false → x ∈ jobs (update_jobs w f t)).
    { intros w f Hw. pose proof (update_keeps w f t x Hx) as Hk. by rewrite Hw in Hk. }
    assert (Hneq : (j_id x =? jr_id job) = false) by by apply Z.eqb_neq.
    unfold run_job. destruct (resolve (jr_job_type job)) as [h|] eqn:Eh.
    + rewrite (proj1 Hq _ _ job t Eh). destruct (outcome job) as [v|e] eqn:Eo.
      * destruct (complete_writes t r job v now Hq Hwf Hr Hm Eo) as [stored ->].
        apply Hu. unfold not_dead. by rewrite Hneq.
      * rewrite (fail_writes t r job) by done. by apply Hu.
    + rewrite (fail_writes t r job) by done. by apply Hu.
Qed.

Lemma run_jobs_settle now claimed t :
  quiet_handlers → job_wf t → NoDup (jr_id <$> claimed) →
  (∀ job, job ∈ claimed →
     ∃ r, r ∈ jobs t ∧ map_row encryption r = Ok job ∧ j_status r = "running") →
  let t' := foldl (run_job encryption resolve nonce now) t claimed in
  (∀ job, job ∈ claimed → ∃ r, r ∈ jobs t' ∧ j_id r = jr_id job ∧ settled now job r)
  ∧ (∀ r, r ∈ jobs t → j_id r ∉ jr_id <$> claimed → r ∈ jobs t').
Proof using Type.
  intros Hq. revert t. induction claimed as [|job claimed IH]; intros t Hwf Hnd Hrows; simpl.
  { split; [|done]. by intros job Hj%elem_of_nil. }
  simpl in Hnd. apply NoDup_cons in Hnd as [Hfresh Hnd].
  destruct (Hrows job ltac:(set_solver)) as (r & Hr & Hm & Hst).
  destruct (run_job_wf now t r job Hq Hwf Hr Hm) as [Hwf' Hoth].
  destruct (run_job_own now t r job Hq Hwf Hr Hm Hst) as (r' & Hr' & Hid' & Hset).
  destruct (IH _ Hwf' Hnd) as [I1 I2].
  - intros job2 Hj2. destruct (Hrows job2 ltac:(set_solver)) as (r2 & Hr2 & Hm2 & Hst2).
    exists r2. split_and!; [|done|done]. apply Hoth; [done|].
    destruct (map_row_columns _ _ _ Hm2) as (Hid2 & _). intros Heq. apply Hfresh.
    apply list_elem_of_fmap. exists job2. split; [congruence|done].
  - split.
    + intros job2 [->|Hj2]%elem_of_cons; [|by apply I1].
      exists r'. split_and!; [|done|done]. apply I2; [done|]. by rewrite Hid'.
    + intros x Hx Hnot. apply I2; [apply Hoth; [done|set_solver]|set_solver].
Qed.

Lemma poll_once_settles_eq worker batch now t claimed t1 :
  quiet_handlers → job_wf t → claim encryption worker None batch None now t = (Ok claimed, t1) →
  let '(n, t') := poll_once encryption resolve nonce worker batch now t in
  n = length claimed
  ∧ (∀ job, job ∈ claimed → ∃ r, r ∈ jobs t' ∧ j_id r = jr_id job ∧ settled now job r)
  ∧ (∀ r, r ∈ jobs t1 → j_id r ∉ jr_id <$> claimed → r ∈ jobs t').
Proof using Type.
  intros Hq Hwf Hc. unfold poll_once. rewrite Hc. split; [done|].
  apply run_jobs_settle; [done| |by eapply claim_ids_NoDup|].
  - eapply (job_step_wf encryption "" (λ _, True)); [eapply step_claim; exact Hc|done].
  - intros job Hj. destruct (claim_rows _ _ _ _ _ _ _ _ _ _ Hc Hj) as (r & Hr & _ & Hst & Hm).
    eauto.
Qed.
End Worker.

(** backoff doubles from one minute to five: the delay after attempt [a] is
    [min(60s * 2^(max(1,a)-1), 300s)] for every [a], without overflow, between one
    and five minutes and monotone. *)
Theorem job_backoff_spec a :
  job_backoff_ms a = Z.min (60000 * 2 ^ (Z.max 1 a - 1)) 300000
  ∧ 60000 ≤ job_backoff_ms a ≤ 300000
  ∧ ∀ b, a ≤ b → job_backoff_ms a ≤ job_backoff_ms b.
Proof.
  assert (Hp : ∀ x, 2 ^ 0 ≤ 2 ^ (Z.max 1 x - 1)) by (intros; apply Z.pow_le_mono_r; lia).
  rewrite job_backoff_eq. split_and!; [done|specialize (Hp a); lia|lia|].
  intros b Hab. rewrite job_backoff_eq.
  assert (2 ^ (Z.max 1 a - 1) ≤ 2 ^ (Z.max 1 b - 1)) by (apply Z.pow_le_mono_r; lia). lia.
Qed.

(** the attempt budget holds: after any sequence of enqueues, claims,
    completions and failures from an empty table, ids are distinct, every status
    is one of the four, no job has been claimed more often than its
    [max_attempts] (at least one), and a job that is ready still has an attempt
    left. *)
Theorem attempts_bounded `{PackedColumn Value, Crypto} encryption msg t :
  rtc (job_step encryption msg (λ _, True)) {| jobs := []; job_seq := 0 |} t →
  NoDup (j_id <$> jobs t)
  ∧ ∀ r, r ∈ jobs t →
      is_Some (JobStatus_parse (j_status r))
      ∧ 0 ≤ j_attempt_count r ≤ Z.max 1 (j_max_attempts r)
      ∧ (j_status r = "ready" → j_attempt_count r < Z.max 1 (j_max_attempts r)).
Proof.
  intros Hr. assert (job_wf t) as [Hids Hrows _].
  { eapply jobs_reachable_wf; [exact Hr|]. split; [constructor|by intros r ?%elem_of_nil|].
    by intros r1 ? ? ?%elem_of_nil. }
  split; [done|]. intros r Hin. destruct (Hrows r Hin) as [_ Hst Ha Hready].
  split_and!; [done|by apply Ha|by apply Ha|]. intros Hs. apply Hready. unfold is_status. by rewrite Hs.
Qed.

(** enqueues are idempotent across every state: once a job was enqueued with
    an idempotency key, whatever happens to it afterwards, enqueueing again with
    the same app, tenant, type and key returns that job as it is now (the same
    id), and adds nothing. *)
Theorem enqueue_idempotent `{PackedColumn Value, Crypto} encryption msg nonce input now t row t' t''
    key nonce2 input2 now2 :
  job_wf t → en_idempotency_key input = Some key →
  enqueue encryption msg nonce input now t = (Ok row, t') →
  rtc (job_step encryption msg (λ _, True)) t' t'' →
  en_idempotency_key input2 = Some key → en_app_id input2 = en_app_id input →
  en_tenant_id input2 = en_tenant_id input → en_job_type input2 = en_job_type input →
  ∃ r, r ∈ jobs t'' ∧ j_id r = jr_id row
    ∧ enqueue encryption msg nonce2 input2 now2 t'' = (map_row encryption r, t'').
Proof.
  intros Hwf Hk He Hr Hk2 Ha2 Ht2 Hty2.
  assert (job_wf t') by (eapply job_step_wf; [eapply (step_enqueue _ _ (λ _, True)); exact He|done]).
  destruct (enqueue_leaves_key _ _ _ _ _ _ _ _ _ Hwf Hk He) as (r & Hin & Hid & Hh).
  destruct (jobs_kept _ _ _ _ _ _ Hr ltac:(done) Hin) as (r' & Hin' & Hi).
  unfold job_identity in Hi. exists r'. split_and!; [done|congruence|].
  apply (enqueue_found _ _ _ _ _ _ r' key); [by eapply jobs_reachable_wf|done|done|].
  rewrite Ha2, Ht2, Hty2. rewrite has_key_spec in Hh |- *. destruct Hh as (? & ? & ? & ?).
  split_and!; congruence.
Qed.

(** a claim takes exactly the jobs that are due first: it chooses eligible
    jobs (ready, due, of the type and app asked for), as many as there are up to
    the limit, none of them due after an eligible job left behind; it marks
    exactly those as running under the worker with one more attempt, and the rows
    it returns are those jobs. *)
Theorem claim_exact `{PackedColumn Value, Crypto} encryption worker ty limit app now t res t' :
  job_wf t → 0 ≤ limit → claim encryption worker ty limit app now t = (res, t') →
  let iso := epoch_ms_to_iso now in
  ∃ chosen,
    (∀ r, r ∈ chosen → r ∈ jobs t ∧ eligible iso ty app r = true)
    ∧ length chosen = Nat.min (Z.to_nat limit) (length (select (eligible iso ty app) (jobs t)))
    ∧ (∀ c r, c ∈ chosen → r ∈ jobs t → eligible iso ty app r = true → r ∉ chosen →
         due_le c r = true)
    ∧ jobs t' = update_where (is_chosen chosen) (set_claimed iso worker) (jobs t)
    ∧ (∀ rows, res = Ok rows → jr_id <$> rows ≡ₚ j_id <$> chosen).
Proof. apply claim_exact_eq. Qed.

(** a claimed job is nobody else's: after a claim returned a job, no later
    claim of any worker, type or app returns it again, whatever happens in
    between, unless that job was failed. In particular a job whose completion was
    lost is never handed out again. *)
Theorem claimed_exclusive `{PackedColumn Value, Crypto} encryption msg worker ty limit app now t
    rows t1 row t2 worker2 ty2 limit2 app2 now2 rows2 t3 :
  job_wf t →
  claim encryption worker ty limit app now t = (Ok rows, t1) → row ∈ rows →
  rtc (job_step encryption msg (λ i, i ≠ jr_id row)) t1 t2 →
  claim encryption worker2 ty2 limit2 app2 now2 t2 = (Ok rows2, t3) →
  jr_id row ∉ jr_id <$> rows2.
Proof.
  intros Hwf Hc Hrow Hr Hc2 Hin.
  assert (Hwf1 : job_wf t1)
    by (eapply (job_step_wf encryption msg (λ _, True)); [eapply step_claim; exact Hc|done]).
  assert (Hwf2 : job_wf t2) by (eapply jobs_reachable_wf; eauto).
  destruct (claim_rows _ _ _ _ _ _ _ _ _ _ Hc Hrow) as (r1 & Hr1 & Hid1 & Hst1 & _).
  destruct (stays_not_ready _ _ _ _ _ Hr) as (r2 & Hr2 & Hid2 & Hst2).
  { exists r1. split_and!; [done|done|]. unfold is_status. by rewrite Hst1. }
  rewrite (claim_ids _ _ _ _ _ _ _ _ _ Hc2) in Hin.
  apply list_elem_of_fmap in Hin as (r3 & Hid3 & [_ Hch]%elem_of_select).
  apply bool_decide_eq_true, list_elem_of_fmap in Hch as (c & Hidc & Hc').
  apply elem_of_claimable in Hc' as [Hct Hel%eligible_ready].
  rewrite (same_id_same_row t2 c r2 Hwf2 Hct Hr2) in Hel by congruence. congruence.
Qed.


(** a window is enqueued once: when a tick enqueued all its targets, a later
    tick in the same windows changes nothing, whatever the workers and other
    callers did to the jobs in between, restarts included. *)
Theorem recurring_tick_once `{PackedColumn Value, Crypto} encryption msg nonce nonce2 registry now
    now2 t t1 t2 :
  job_wf t → static_targets registry →
  (∀ j, j ∈ registry → recurring_window_start now2 (rj_interval_ms j)
                       = recurring_window_start now (rj_interval_ms j)) →
  tick_once encryption msg nonce registry now t = (all_targets registry t, t1) →
  rtc (job_step encryption msg (λ _, True)) t1 t2 →
  (tick_once encryption msg nonce2 registry now2 t2).2 = t2.
Proof. apply tick_once_twice. Qed.

(** ** A concrete queue *)

Module SampleJobs.
Export ToyCrypto ToyPacked.
Definition t0 : Z := 1700000000123.
Definition msg : string := "UNIQUE constraint failed".
Definition empty_jobs : JobTable := {| jobs := []; job_seq := 0 |}.
Definition mail (tenant key to : string) : EnqueueInput :=
  {| en_tenant_id := tenant; en_app_id := None; en_job_type := "mail"; en_payload := VStr to;
     en_idempotency_key := Some key; en_available_at := None; en_max_attempts := Some 2 |}.
Definition put (input : EnqueueInput) := enqueue enc msg nonce input t0.
Definition q1 : JobTable := (put (mail "t1" "k1" "ann") empty_jobs).2.
Definition q2 : JobTable := (put (mail "t2" "k2" "bob") q1).2.
Definition take_two (now : Z) := claim enc "w1" None 2 None now.
Definition q3 : JobTable := (take_two (t0 + 1) q2).2.
Definition claimed : list JobRow := default [] (ok (take_two (t0 + 1) q2).1).
Definition no_row : JobRow :=
  {| jr_id := 0; jr_tenant_id := ""; jr_app_id := ""; jr_job_type := ""; jr_payload := VNil;
     jr_status := Ready; jr_attempt_count := 0; jr_max_attempts := 0; jr_available_at := "";
     jr_created_at := ""; jr_claimed_at := None; jr_claimed_by := None; jr_completed_at := None;
     jr_failed_at := None; jr_dead_lettered_at := None; jr_idempotency_key := None;
     jr_last_error_code := None; jr_last_error_message := None |}.
Definition outcome (job : JobRow) : result JobError Value :=
  if String.eqb (jr_tenant_id job) "t1" then Ok (VStr "sent")
  else Err {| je_code := "smtp"; je_message := "down"; je_retryable := true |}.
Definition resolve (ty : string) : option (JobRow → M JobTable JobError Value) :=
  if String.eqb ty "mail" then Some (λ job t, (outcome job, t)) else None.
Definition digest : RecurringJob :=
  {| rj_name := "digest"; rj_job_type := "digest"; rj_interval_ms := 3600000;
     rj_resolve_targets := λ _, Ok [{| tg_tenant_id := "t1"; tg_app_id := None;
                                       tg_payload := None |}] |}.
Definition q4 : JobTable := (tick_once enc msg nonce [digest] t0 q2).2.

Lemma q2_reached : rtc (job_step enc msg (λ _, True)) empty_jobs q2.
Proof.
  apply (rtc_l _ _ q1); [|apply rtc_once]; eapply (step_enqueue enc msg _ nonce);
    apply surjective_pairing.
Qed.
Lemma empty_wf : job_wf empty_jobs.
Proof.
  split; [constructor|by intros r ?%elem_of_nil|]. by intros r1 ? ? ?%elem_of_nil.
Qed.
Lemma q2_wf : job_wf q2.
Proof. eapply jobs_reachable_wf; [exact q2_reached|exact empty_wf]. Qed.
Lemma quiet : quiet_handlers enc resolve outcome (λ _, nonce).
Proof.
  split.
  - intros ty h job t. unfold resolve. destruct (String.eqb ty "mail"); [|done]. by intros [= <-].
  - intros job v. unfold outcome. destruct (String.eqb _ _); [|done]. intros [= <-].
    eexists. split; [reflexivity|]. intros e [= <-]. eexists. reflexivity.
Qed.
End SampleJobs.
Import SampleJobs.

Lemma attempts_bounded_witness : NoDup (j_id <$> jobs q2).
Proof. exact (proj1 (attempts_bounded enc msg q2 q2_reached)). Defined.

Lemma enqueue_idempotent_witness :
  ∃ r, r ∈ jobs q3 ∧ j_id r = 2
    ∧ enqueue enc msg nonce (mail "t2" "k2" "eve") (t0 + 9) q3 = (map_row enc r, q3).
Proof.
  refine (enqueue_idempotent enc msg nonce (mail "t2" "k2" "bob") t0 q1
    (default no_row (ok (put (mail "t2" "k2" "bob") q1).1)) q2 q3
    "k2" nonce (mail "t2" "k2" "eve") (t0 + 9) _ eq_refl _ _ eq_refl eq_refl eq_refl eq_refl).
  - eapply jobs_reachable_wf; [apply rtc_once|exact empty_wf].
    eapply (step_enqueue enc msg (λ _, True) nonce). apply surjective_pairing.
  - vm_compute. reflexivity.
  - apply rtc_once. eapply (step_claim enc msg (λ _, True) "w1"). apply surjective_pairing.
Defined.

Lemma claim_exact_witness :
  ∃ chosen, length chosen = 2%nat
    ∧ jobs q3 = update_where (is_chosen chosen) (set_claimed (epoch_ms_to_iso (t0 + 1)) "w1")
                  (jobs q2).
Proof.
  destruct (claim_exact enc "w1" None 2 None (t0 + 1) q2 (take_two (t0 + 1) q2).1 q3 q2_wf)
    as (chosen & _ & Hlen & _ & Hj & _).
  - lia.
  - apply surjective_pairing.
  - exists chosen. split; [rewrite Hlen; vm_compute; reflexivity|exact Hj].
Defined.

Lemma claimed_exclusive_witness : 1 ∉ jr_id <$> default [] (ok (take_two (t0 + 5) q3).1).
Proof.
  refine (claimed_exclusive enc msg "w1" None 2 None (t0 + 1) q2 claimed q3
    (List.hd no_row claimed) q3 "w1" None 2 None (t0 + 5)
    _ (take_two (t0 + 5) q3).2 q2_wf _ _ (rtc_refl _ _) _).
  - vm_compute. reflexivity.
  - unfold claimed. vm_compute. left.
  - vm_compute. reflexivity.
Defined.


Lemma recurring_tick_once_witness :
  (tick_once enc msg nonce [digest] (t0 + 60000) q4).2 = q4.
Proof.
  refine (recurring_tick_once enc msg nonce nonce [digest] t0 (t0 + 60000) q2 q4 q4 q2_wf _ _ _
    (rtc_refl _ _)).
  - intros j Hj ta tb. apply list_elem_of_singleton in Hj as ->. reflexivity.
  - intros j Hj. apply list_elem_of_singleton in Hj as ->. vm_compute. reflexivity.
  - vm_compute. reflexivity.
Defined.

(** [next] of tenant "t9" pops the job of tenant "t1": the claim filters by type
    and app only. *)
Theorem next_crosses_tenants :
  (next enc "t9" "mail" None (t0 + 1) q1).1
  = Ok (Some {| sj_id := 1; sj_name := "mail"; sj_value := VStr "ann" |}).
Proof. vm_compute. reflexivity. Qed.
