(* ===== verification/Authz.v ===== *)
(** * Authorization ([frick-server/src/principal.rs], [authz.rs],
      [object_visibility.rs], [routes/objects.rs], and the grants of
      [frick-store/src/stores/grant.rs])

    The decision pipeline: a baseline on the principal and the resource, the
    application's policy hooks, and the relaxation by sharing grants. Hooks are
    application code and are parameters. The pipeline sees the grants only
    through the interface [GrantLookup]; the grant store implements it. *)

From Stdlib Require Import ZArith Lia Ascii String.
From stdpp Require Import base gmap strings list sorting pretty.
From S2P Require Import Prelude Value Schema Codec StoreBase Encryption Samples ObjectStore.

(** ** Principals *)

Definition DEFAULT_TENANT_ID : string := "_default".
Definition ARCHIVED_TENANT_PREFIX : string := "_archived_".

Inductive PrincipalScope : Type := Scope_Tenant | Scope_Admin | Scope_Service.
#[export] Instance PrincipalScope_eq_dec : EqDecision PrincipalScope.
Proof. solve_decision. Defined.

Record Principal : Type := {
  p_user_id : string; p_device_id : string; p_replica_id : string; p_tenant_id : string;
  p_scope : PrincipalScope; p_service_scopes : list string;
}.

Definition admin : Principal :=
  {| p_user_id := "_admin"; p_device_id := "_admin"; p_replica_id := "_admin";
     p_tenant_id := DEFAULT_TENANT_ID; p_scope := Scope_Admin; p_service_scopes := [] |}.
Definition is_admin (p : Principal) : bool := bool_decide (p_scope p = Scope_Admin).
Definition is_active_cheap (p : Principal) : bool :=
  is_admin p || negb (Str.starts_with ARCHIVED_TENANT_PREFIX (p_tenant_id p)).
Definition connection_key (p : Principal) : string :=
  p_tenant_id p +:+ String zero EmptyString +:+ p_user_id p.

(** ** Decisions *)

Inductive Action : Type :=
| ObjectRead | ObjectWrite | StreamRead | StreamAppend | PresenceRead | PresenceWrite | SignalSend
| SignalRead | BlobRead | BlobWrite | ProjectionRead | SearchQuery | CallCreate.
Definition Action_as_str (a : Action) : string :=
  match a with
  | ObjectRead => "object.read" | ObjectWrite => "object.write" | StreamRead => "stream.read"
  | StreamAppend => "stream.append" | PresenceRead => "presence.read"
  | PresenceWrite => "presence.write" | SignalSend => "signal.send" | SignalRead => "signal.read"
  | BlobRead => "blob.read" | BlobWrite => "blob.write" | ProjectionRead => "projection.read"
  | SearchQuery => "search.query" | CallCreate => "call.create"
  end.

Inductive DenyReason : Type :=
| Unauthenticated | NotAuthorizedForResource | NotMember | OwnerMismatch | SchemaIncompatible
| TenantMismatch.
#[export] Instance DenyReason_eq_dec : EqDecision DenyReason.
Proof. solve_decision. Defined.
Definition DenyReason_as_str (r : DenyReason) : string :=
  match r with
  | Unauthenticated => "unauthenticated" | NotAuthorizedForResource => "notAuthorizedForResource"
  | NotMember => "notMember" | OwnerMismatch => "ownerMismatch"
  | SchemaIncompatible => "schemaIncompatible" | TenantMismatch => "tenantMismatch"
  end.

Inductive AuthDecision : Type := Allow | Deny (reason : DenyReason) (public_message : string).
Definition is_allow (d : AuthDecision) : bool := match d with Allow => true | Deny _ _ => false end.

Record ResourceContext : Type := { rc_tenant_id : string; rc_owner_user_id : option string }.

Definition decide_baseline (principal : Principal) (action : Action) (resource : ResourceContext) :
    AuthDecision :=
  if Str.is_empty (p_user_id principal) then Deny Unauthenticated "Not authenticated"
  else if negb (bool_decide (p_scope principal = Scope_Admin))
          && negb (Str.is_empty (rc_tenant_id resource))
          && negb (String.eqb (rc_tenant_id resource) (p_tenant_id principal))
  then Deny TenantMismatch "Tenant mismatch"
  else match action with
       | ObjectRead | ObjectWrite | BlobRead | BlobWrite =>
           match rc_owner_user_id resource with
           | Some owner =>
               if String.eqb owner (p_user_id principal) then Allow
               else Deny OwnerMismatch "Not the resource owner"
           | None => Allow
           end
       | _ => Allow
       end.

Record PolicyResource : Type := {
  pr_kind : string; pr_name : option string; pr_key : option string; pr_event : option string;
  pr_owner_id : option string; pr_tenant_id : string;
}.
Record PolicyInput : Type := {
  pi_principal : Principal; pi_action : Action; pi_resource : PolicyResource;
  pi_context : option Value;
}.
(** A hook, with whatever it consults captured. *)
Definition PolicyHook : Type := PolicyInput → option AuthDecision.

Fixpoint run_hooks (baseline : AuthDecision) (input : PolicyInput) (hooks : list PolicyHook) :
    AuthDecision :=
  match hooks with
  | [] => baseline
  | hook :: rest =>
      match hook input with
      | Some (Deny r m) => Deny r m
      | _ => run_hooks baseline input rest
      end
  end.
Definition apply_policy_hooks (baseline : AuthDecision) (input : PolicyInput)
    (hooks : list PolicyHook) : AuthDecision :=
  if negb (is_allow baseline) || bool_decide (hooks = []) then baseline
  else run_hooks baseline input hooks.

(** ** Grants *)

Definition sharing_permission_satisfies (permission required : string) : bool :=
  if String.eqb required "read"
  then String.eqb permission "read" || String.eqb permission "write"
  else String.eqb permission "write".

Record Grant : Type := {
  g_id : string; g_tenant_id : string; g_owner_user_id : string; g_record_type : string;
  g_record_id : string; g_grantee_user_id : string; g_permission : string; g_created_at : string;
  g_revoked_at : option string;
}.
Record CreateGrantArgs : Type := {
  cg_id : string; cg_tenant_id : string; cg_owner_user_id : string; cg_record_type : string;
  cg_record_id : string; cg_grantee_user_id : string; cg_permission : string;
  cg_created_at : string;
}.
Record ListGrantsArgs : Type := {
  lg_tenant_id : string; lg_principal_user_id : string; lg_record_type : option string;
  lg_record_id : option string; lg_include_revoked : bool;
}.

(** The table, with its primary key [id]. *)
Definition GrantTable : Type := list Grant.

Definition is_empty_async (t : GrantTable) : bool := bool_decide (t = []).

Definition create (constraint_failed : string) (args : CreateGrantArgs) :
    M GrantTable StoreError Grant := λ t,
  if existsb (λ g, String.eqb (g_id g) (cg_id args)) t
  then (Err (Driver constraint_failed), t)
  else
    let g := {| g_id := cg_id args; g_tenant_id := cg_tenant_id args;
                g_owner_user_id := cg_owner_user_id args; g_record_type := cg_record_type args;
                g_record_id := cg_record_id args; g_grantee_user_id := cg_grantee_user_id args;
                g_permission := cg_permission args; g_created_at := cg_created_at args;
                g_revoked_at := None |} in
    (Ok g, t ++ [g]).

Definition at_grant (tenant_id id : string) (g : Grant) : bool :=
  String.eqb (g_tenant_id g) tenant_id && String.eqb (g_id g) id.
Definition get_by_id (t : GrantTable) (tenant_id id : string) : option Grant :=
  list.head (select (at_grant tenant_id id) t).

(** [ORDER BY created_at DESC, id ASC]. *)
Definition newest_le (a b : Grant) : bool :=
  if String.eqb (g_created_at a) (g_created_at b) then Str.leb (g_id a) (g_id b)
  else Str.leb (g_created_at b) (g_created_at a).
Definition list_grants (t : GrantTable) (args : ListGrantsArgs) : list Grant :=
  order_by newest_le (select (λ g,
    String.eqb (g_tenant_id g) (lg_tenant_id args)
    && (String.eqb (g_owner_user_id g) (lg_principal_user_id args)
        || String.eqb (g_grantee_user_id g) (lg_principal_user_id args))
    && match lg_record_type args with Some ty => String.eqb (g_record_type g) ty | None => true end
    && match lg_record_id args with Some i => String.eqb (g_record_id g) i | None => true end
    && (lg_include_revoked args || bool_decide (g_revoked_at g = None))) t).

Definition set_grant_revoked (now : string) (g : Grant) : Grant :=
  {| g_id := g_id g; g_tenant_id := g_tenant_id g; g_owner_user_id := g_owner_user_id g;
     g_record_type := g_record_type g; g_record_id := g_record_id g;
     g_grantee_user_id := g_grantee_user_id g; g_permission := g_permission g;
     g_created_at := g_created_at g; g_revoked_at := Some now |}.
Definition revoke (tenant_id id now : string) : M GrantTable StoreError (option Grant) := λ t,
  match get_by_id t tenant_id id with
  | None => (Ok None, t)
  | Some existing =>
      if bool_decide (is_Some (g_revoked_at existing)) then (Ok (Some existing), t)
      else (Ok (Some (set_grant_revoked now existing)),
            update_where (λ g, at_grant tenant_id id g && bool_decide (g_revoked_at g = None))
              (set_grant_revoked now) t)
  end.

Definition has_active_grant_for (t : GrantTable)
    (tenant_id grantee_user_id record_type record_id required : string) : bool :=
  existsb (λ g, sharing_permission_satisfies (g_permission g) required)
    (select (λ g, String.eqb (g_tenant_id g) tenant_id
                  && String.eqb (g_grantee_user_id g) grantee_user_id
                  && String.eqb (g_record_type g) record_type
                  && String.eqb (g_record_id g) record_id
                  && bool_decide (g_revoked_at g = None)) t).
Definition has_active_grant_for_record_id (t : GrantTable)
    (tenant_id grantee_user_id record_id : string) : bool :=
  existsb (λ g, sharing_permission_satisfies (g_permission g) "read")
    (select (λ g, String.eqb (g_tenant_id g) tenant_id
                  && String.eqb (g_grantee_user_id g) grantee_user_id
                  && String.eqb (g_record_id g) record_id
                  && bool_decide (g_revoked_at g = None)) t).

(** What the pipeline asks of the grants: a lookup, and a probe that is false
    only when no lookup can succeed. *)
Class GrantLookup (G : Type) := {
  grants_present : G → bool;
  active_grant : G → string → string → string → string → string → bool;
  present_of_active : ∀ g tenant user ty id required,
    active_grant g tenant user ty id required = true → grants_present g = true;
}.
#[export, refine] Instance grant_store : GrantLookup GrantTable :=
  {| grants_present t := negb (is_empty_async t); active_grant := has_active_grant_for |}.
Proof. intros [|g t]; [done|]. by intros. Defined.

(** ** Object visibility *)

Definition CONVENTIONAL_OWNER_FIELD : string := "ownerUserId".

Inductive ObjectVisibilityMode : Type := OwnerScoped | TenantWide.
#[export] Instance ObjectVisibilityMode_eq_dec : EqDecision ObjectVisibilityMode.
Proof. solve_decision. Defined.
Definition ObjectVisibilityMode_parse (raw : string) : option ObjectVisibilityMode :=
  let s := Str.trim raw in
  if String.eqb s "ownerScoped" || String.eqb s "owner_scoped" || String.eqb s "owner-scoped"
  then Some OwnerScoped
  else if String.eqb s "tenantWide" || String.eqb s "tenant_wide" || String.eqb s "tenant-wide"
  then Some TenantWide
  else None.
Definition ObjectVisibilityMode_as_str (m : ObjectVisibilityMode) : string :=
  match m with OwnerScoped => "ownerScoped" | TenantWide => "tenantWide" end.

Definition owner_field_for_type (schema : FrickSchema) (object_type : string) : option string :=
  object ← ok (object_by_name schema object_type);
  '(_, field) ← list_find (λ f, String.eqb (fd_name f) CONVENTIONAL_OWNER_FIELD
                               && bool_decide (fd_kind f = FK_String) = true) (od_fields object);
  Some (fd_name field).

Definition object_field_str (object : Value) (field : string) : option string :=
  entries ← as_map object;
  '(_, (_, value)) ← list_find (λ e, key_is field e.1 = true) entries;
  as_str value.
Definition object_record_id (object : Value) : option string := object_field_str object "id".

Definition is_object_visible_to_user (mode : ObjectVisibilityMode) (owner_field : option string)
    (object : Value) (user_id : string) : bool :=
  if bool_decide (mode = TenantWide) then true
  else match owner_field with
  | None => true
  | Some field =>
      match object_field_str object field with
      | Some owner => if negb (Str.is_empty owner) then String.eqb owner user_id else true
      | None => true
      end
  end.

Section Visibility.
Context `{GrantLookup G}.
Context (grants : G) (hooks : list PolicyHook).

Definition per_record_read_authz_active : bool := grants_present grants.

Definition relax_read (principal : Principal) (object_type : string) (object : Value) : bool :=
  match object_record_id object with
  | None => false
  | Some id =>
      active_grant grants (p_tenant_id principal) (p_user_id principal) object_type id "read"
  end.

Definition read_baseline (mode : ObjectVisibilityMode) (owner_field : option string)
    (principal : Principal) (object : Value) (writer_user_id : option string) : bool :=
  bool_decide (writer_user_id = Some (p_user_id principal))
  || is_object_visible_to_user mode owner_field object (p_user_id principal).

Definition subscriber_can_read_object (mode : ObjectVisibilityMode) (owner_field : option string)
    (principal : Principal) (object_type : string) (object : Value) (per_record_active : bool)
    (writer_user_id : option string) : bool :=
  let visible := is_admin principal
                 || read_baseline mode owner_field principal object writer_user_id in
  if visible then true
  else if negb per_record_active then false
  else relax_read principal object_type object.

Definition read_input (owner_field : option string) (principal : Principal) (object_type : string)
    (object : Value) : PolicyInput :=
  {| pi_principal := principal; pi_action := ObjectRead;
     pi_resource := {| pr_kind := "object"; pr_name := Some object_type;
       pr_key := object_record_id object; pr_event := None;
       pr_owner_id := object_field_str object (default CONVENTIONAL_OWNER_FIELD owner_field);
       pr_tenant_id := p_tenant_id principal |};
     pi_context := Some object |}.

Definition subscriber_can_read_object_with_hooks (mode : ObjectVisibilityMode)
    (owner_field : option string) (principal : Principal) (object_type : string) (object : Value)
    (per_record_active : bool) (writer_user_id : option string) : bool :=
  let admin_or_owner_visible :=
    is_admin principal || read_baseline mode owner_field principal object writer_user_id in
  let baseline_decision := if admin_or_owner_visible then Allow
                           else Deny OwnerMismatch "Not the resource owner" in
  let decision := apply_policy_hooks baseline_decision
                    (read_input owner_field principal object_type object) hooks in
  if is_allow decision then true
  else if negb per_record_active then false
  else relax_read principal object_type object.

(** [GET /objects]: the rows the caller may see, in the order of the store. *)
Definition list_objects `{PackedColumn PackedRecord, Crypto} (schema : FrickSchema)
    (encryption : option KeyProvider) (mode : ObjectVisibilityMode) (t : ObjectStore.ObjectTable)
    (principal : Principal) (object_type app_id : string) : result StoreError (list Value) :=
  rows ← ObjectStore.list_values schema encryption t (p_tenant_id principal) object_type app_id;
  let owner_field := owner_field_for_type schema object_type in
  Ok (List.filter (λ row, subscriber_can_read_object_with_hooks mode owner_field principal
                            object_type row per_record_read_authz_active None) rows).

(** ** Object writes *)

Definition write_input (principal : Principal) (object_type object_id : string)
    (value : option Value) : PolicyInput :=
  {| pi_principal := principal; pi_action := ObjectWrite;
     pi_resource := {| pr_kind := "object"; pr_name := Some object_type; pr_key := Some object_id;
       pr_event := None; pr_owner_id := None; pr_tenant_id := p_tenant_id principal |};
     pi_context := value |}.

Definition relax_object_write_with_grants (principal : Principal) (object_type object_id : string)
    (decision : AuthDecision) : AuthDecision :=
  match decision with
  | Allow => decision
  | Deny reason _ =>
      if negb (bool_decide (reason = NotAuthorizedForResource)
               || bool_decide (reason = OwnerMismatch))
      then decision
      else if active_grant grants (p_tenant_id principal) (p_user_id principal) object_type
                object_id "write"
      then Allow else decision
  end.

Definition decision_to_result (decision : AuthDecision) : result (DenyReason * string) unit :=
  match decision with Allow => Ok tt | Deny reason message => Err (reason, message) end.

Definition write_decision (principal : Principal) (object_type object_id : string)
    (value : option Value) : result (DenyReason * string) unit :=
  let resource := {| rc_tenant_id := p_tenant_id principal; rc_owner_user_id := None |} in
  let decision := decide_baseline principal ObjectWrite resource in
  let decision := apply_policy_hooks decision (write_input principal object_type object_id value)
                    hooks in
  decision_to_result (relax_object_write_with_grants principal object_type object_id decision).
End Visibility.

(** ** The pipeline, declaratively *)

Definition denies (input : PolicyInput) (r : DenyReason) (m : string) (h : PolicyHook) : Prop :=
  h input = Some (Deny r m).
Definition no_deny (input : PolicyInput) (h : PolicyHook) : Prop := ∀ r m, ¬ denies input r m h.

(** The first hook that denies, in registration order. *)
Definition first_deny (input : PolicyInput) (hooks : list PolicyHook) (r : DenyReason) (m : string) :
    Prop :=
  ∃ before h after, hooks = before ++ h :: after ∧ denies input r m h
                    ∧ Forall (no_deny input) before.

Lemma run_hooks_allow input hooks : run_hooks Allow input hooks = Allow ↔ Forall (no_deny input) hooks.
Proof.
  induction hooks as [|h hooks IH]; simpl; [done|]. rewrite Forall_cons, <- IH.
  unfold no_deny, denies. destruct (h input) as [[|r m]|]; naive_solver.
Qed.

Lemma run_hooks_deny input hooks r m :
  run_hooks Allow input hooks = Deny r m ↔ first_deny input hooks r m.
Proof.
  unfold first_deny. induction hooks as [|h hooks IH]; simpl.
  - split; [done|]. intros (b & h & a & Heq & _). by destruct b.
  - assert (Hskip : (∀ r m, h input ≠ Some (Deny r m)) →
      ((∃ b h0 a, hooks = b ++ h0 :: a ∧ denies input r m h0 ∧ Forall (no_deny input) b) ↔
       (∃ b h0 a, h :: hooks = b ++ h0 :: a ∧ denies input r m h0 ∧ Forall (no_deny input) b))).
    { intros Hno. split.
      - intros (b & h0 & a & -> & Hd & Hb). exists (h :: b), h0, a. by split_and!; [..|constructor].
      - intros ([|x b] & h0 & a & Heq & Hd & Hb); simplify_eq/=; [by destruct (Hno r m)|].
        apply Forall_cons in Hb as [_ Hb]. by exists b, h0, a. }
    destruct (h input) as [[|r' m']|] eqn:Eh.
    + rewrite IH. apply Hskip. congruence.
    + split.
      * intros [= -> ->]. exists [], h, hooks. by split_and!.
      * intros ([|x b] & h0 & a & Heq & Hd & Hb); simplify_eq/=.
        -- unfold denies in Hd. congruence.
        -- apply Forall_cons in Hb as [Hx _]. by destruct (Hx r' m').
    + rewrite IH. apply Hskip. congruence.
Qed.

Lemma apply_policy_hooks_allow input hooks :
  apply_policy_hooks Allow input hooks = run_hooks Allow input hooks.
Proof. unfold apply_policy_hooks. simpl. by case_bool_decide; subst. Qed.

(** Who sees a row without a grant. *)
Definition owner_visible (mode : ObjectVisibilityMode) (owner_field : option string)
    (principal : Principal) (object : Value) (writer : option string) : Prop :=
  p_scope principal = Scope_Admin
  ∨ writer = Some (p_user_id principal)
  ∨ mode = TenantWide
  ∨ owner_field = None
  ∨ ∃ field, owner_field = Some field
      ∧ (object_field_str object field = None ∨ object_field_str object field = Some ""
         ∨ object_field_str object field = Some (p_user_id principal)).

Lemma is_empty_spec s : Str.is_empty s = true ↔ s = "".
Proof. by destruct s. Qed.

Lemma owner_visible_spec mode owner_field principal object writer :
  is_admin principal || read_baseline mode owner_field principal object writer = true
  ↔ owner_visible mode owner_field principal object writer.
Proof.
  unfold is_admin, read_baseline, is_object_visible_to_user, owner_visible.
  rewrite !orb_true_iff, !bool_decide_eq_true. case_bool_decide as Hm; [by naive_solver|].
  destruct owner_field as [f|]; [|naive_solver].
  destruct (object_field_str object f) as [o|] eqn:Eo; [|naive_solver].
  destruct (Str.is_empty o) eqn:Ee; simpl.
  - apply is_empty_spec in Ee as ->. naive_solver.
  - rewrite String.eqb_eq. assert (o ≠ "") by (intros ->; done). naive_solver.
Qed.

Section Pipeline.
Context `{GrantLookup G}.
Context (grants : G) (hooks : list PolicyHook).

Lemma relaxed_spec principal ty object :
  (if negb (per_record_read_authz_active grants) then false else relax_read grants principal ty object)
  = true
  ↔ ∃ id, object_record_id object = Some id
      ∧ active_grant grants (p_tenant_id principal) (p_user_id principal) ty id "read" = true.
Proof using Type.
  unfold per_record_read_authz_active, relax_read. split.
  - destruct (negb _); [done|]. destruct (object_record_id object) as [id|]; [eauto|done].
  - intros (id & -> & Ha). by rewrite (present_of_active _ _ _ _ _ _ Ha).
Qed.

Lemma read_with_hooks_spec mode owner_field principal ty object writer :
  subscriber_can_read_object_with_hooks grants hooks mode owner_field principal ty object
    (per_record_read_authz_active grants) writer = true ↔
  (owner_visible mode owner_field principal object writer
   ∧ Forall (no_deny (read_input owner_field principal ty object)) hooks)
  ∨ ∃ id, object_record_id object = Some id
      ∧ active_grant grants (p_tenant_id principal) (p_user_id principal) ty id "read" = true.
Proof using Type.
  rewrite <- owner_visible_spec, <- (relaxed_spec principal), <- run_hooks_allow.
  unfold subscriber_can_read_object_with_hooks.
  destruct (is_admin principal || _).
  - rewrite apply_policy_hooks_allow. destruct (run_hooks _ _ _) eqn:Er; simpl; naive_solver.
  - unfold apply_policy_hooks. simpl. naive_solver.
Qed.

Lemma decide_write_baseline principal :
  decide_baseline principal ObjectWrite
    {| rc_tenant_id := p_tenant_id principal; rc_owner_user_id := None |}
  = if Str.is_empty (p_user_id principal) then Deny Unauthenticated "Not authenticated" else Allow.
Proof using Type.
  unfold decide_baseline. destruct (Str.is_empty _); [done|]. simpl.
  by rewrite String.eqb_refl, andb_false_r.
Qed.

Lemma write_decision_spec principal ty id value :
  write_decision grants hooks principal ty id value = Ok tt ↔
  p_user_id principal ≠ ""
  ∧ (Forall (no_deny (write_input principal ty id value)) hooks
     ∨ ∃ r m, first_deny (write_input principal ty id value) hooks r m
         ∧ (r = NotAuthorizedForResource ∨ r = OwnerMismatch)
         ∧ active_grant grants (p_tenant_id principal) (p_user_id principal) ty id "write" = true).
Proof using Type.
  unfold write_decision. rewrite decide_write_baseline.
  destruct (Str.is_empty (p_user_id principal)) eqn:Ee.
  - apply is_empty_spec in Ee. simpl. split; [done|]. by intros [].
  - assert (p_user_id principal ≠ "") by (intros Hu; by rewrite Hu in Ee).
    rewrite apply_policy_hooks_allow, <- run_hooks_allow. setoid_rewrite <- run_hooks_deny.
    destruct (run_hooks Allow _ hooks) as [|r m]; simpl; [naive_solver|].
    destruct (bool_decide (r = NotAuthorizedForResource) || bool_decide (r = OwnerMismatch)) eqn:Er;
      simpl; rewrite ?orb_true_iff, ?orb_false_iff, ?bool_decide_eq_true, ?bool_decide_eq_false in Er.
    + destruct (active_grant _ _ _ _ _ _) eqn:Ea; simpl; naive_solver.
    + naive_solver.
Qed.
End Pipeline.

(** ** Grants over time *)

Lemma has_active_grant_for_spec t tenant user ty rid required :
  has_active_grant_for t tenant user ty rid required = true ↔
  ∃ g, g ∈ t ∧ g_tenant_id g = tenant ∧ g_grantee_user_id g = user ∧ g_record_type g = ty
    ∧ g_record_id g = rid ∧ g_revoked_at g = None
    ∧ sharing_permission_satisfies (g_permission g) required = true.
Proof.
  unfold has_active_grant_for. rewrite existsb_exists. setoid_rewrite <- list_elem_of_In.
  setoid_rewrite elem_of_select. setoid_rewrite andb_true_iff. setoid_rewrite andb_true_iff.
  setoid_rewrite andb_true_iff. setoid_rewrite andb_true_iff.
  setoid_rewrite String.eqb_eq. setoid_rewrite bool_decide_eq_true. naive_solver.
Qed.

Inductive grant_step (constraint_failed : string) : GrantTable → GrantTable → Prop :=
| step_create args (t t' : GrantTable) res :
    create constraint_failed args t = (res, t') → grant_step constraint_failed t t'
| step_revoke tenant id now (t t' : GrantTable) res :
    revoke tenant id now t = (res, t') → grant_step constraint_failed t t'.

(** The grant is there, and every row of that id is revoked at that time. *)
Definition revoked_at (id at_ : string) (t : GrantTable) : Prop :=
  (∃ g, g ∈ t ∧ g_id g = id) ∧ ∀ g, g ∈ t → g_id g = id → g_revoked_at g = Some at_.

Lemma revoked_step msg id at_ t t' : grant_step msg t t' → revoked_at id at_ t → revoked_at id at_ t'.
Proof.
  intros Hs [(g0 & Hg0 & Hid0) Hall].
  destruct Hs as [args t t' res Hc|tenant id' now t t' res Hr].
  - unfold create in Hc. destruct (existsb _ t) eqn:Ee; simplify_eq; [by split; eauto|]. split.
    + exists g0. split; [set_solver|done].
    + intros g [Hg| ->%list_elem_of_singleton]%elem_of_app Hid; [by apply Hall|].
      simpl in Hid. apply not_true_iff_false in Ee. destruct Ee. apply existsb_exists.
      exists g0. split; [by apply list_elem_of_In|]. apply String.eqb_eq. congruence.
  - unfold revoke in Hr. destruct (get_by_id t tenant id') as [e|]; simplify_eq; [|by split; eauto].
    case_bool_decide; simplify_eq; [by split; eauto|]. unfold update_where.
    set (w := λ g, at_grant tenant id' g && bool_decide (g_revoked_at g = None)).
    assert (Hw : ∀ g, g ∈ t → g_id g = g_id g0 → w g = false).
    { intros g Hg Hid. unfold w. rewrite (bool_decide_false (g_revoked_at g = None)).
      - by rewrite andb_false_r.
      - by rewrite (Hall g Hg Hid). }
    split.
    + exists g0. split; [|done]. apply list_elem_of_fmap. exists g0. cbv beta. fold (w g0). by rewrite (Hw g0 Hg0 eq_refl).
    + intros g (x & -> & Hx)%list_elem_of_fmap Hid.
      cbv beta in Hid |- *. fold (w x) in Hid |- *.
      assert (Hidx : g_id x = g_id g0) by (by destruct (w x)).
      rewrite (Hw x Hx Hidx). by apply Hall.
Qed.

Lemma revoke_marks tenant id now t g t' :
  NoDup (g_id <$> t) → revoke tenant id now t = (Ok (Some g), t') →
  ∃ at_, g_revoked_at g = Some at_ ∧ revoked_at id at_ t'.
Proof.
  intros Hnd. unfold revoke. destruct (get_by_id t tenant id) as [e|] eqn:Eg; [|done].
  unfold get_by_id in Eg. destruct (select (at_grant tenant id) t) as [|e' es] eqn:Es; [done|].
  injection Eg as ->.
  assert (e ∈ t ∧ at_grant tenant id e = true) as [He Hat]
    by (apply elem_of_select; rewrite Es; set_solver).
  unfold at_grant in Hat. rewrite andb_true_iff, !String.eqb_eq in Hat. destruct Hat as [Hte Hid].
  assert (Huniq : ∀ x, x ∈ t → g_id x = id → x = e).
  { intros x (i & Hi)%list_elem_of_lookup Hx. apply list_elem_of_lookup in He as (j & Hj).
    assert (i = j) as ->; [|congruence].
    eapply (NoDup_lookup (g_id <$> t)); [done|by rewrite list_lookup_fmap, Hi|].
    rewrite list_lookup_fmap, Hj. simpl. congruence. }
  case_bool_decide as Hrev; intros [= <- <-].
  - destruct Hrev as [at_ Hat]. exists at_. split; [done|]. split; [eauto|].
    intros x Hx Hxid. by rewrite (Huniq x Hx Hxid).
  - apply eq_None_not_Some in Hrev. exists now. split; [done|].
    assert (Hw : at_grant tenant id e && bool_decide (g_revoked_at e = None) = true).
    { unfold at_grant. by rewrite Hte, Hid, !String.eqb_refl, bool_decide_true. }
    unfold update_where. split.
    + exists (set_grant_revoked now e). split; [|done]. apply list_elem_of_fmap.
      exists e. by rewrite Hw.
    + intros x (y & -> & Hy)%list_elem_of_fmap Hx.
      assert (y = e) as -> by (apply Huniq; [done|]; revert Hx; by case_match). by rewrite Hw.
Qed.

(** C9: a listed object is one the reader may see: [GET /objects] returns, in the
    order of the store, exactly the rows of the tenant, type and app that are
    either visible by ownership (an administrator, a tenant-wide deployment, a
    type without owner field, a row without owner or owned by the reader) and
    denied by no policy hook, or shared with the reader by an active grant. The
    probe that skips grant lookups never changes the answer. *)
Theorem list_objects_exact `{GrantLookup G, PackedColumn PackedRecord, Crypto} (grants : G) hooks
    schema encryption mode t principal ty app all rows :
  ObjectStore.list_values schema encryption t (p_tenant_id principal) ty app = Ok all →
  list_objects grants hooks schema encryption mode t principal ty app = Ok rows →
  sublist rows all
  ∧ ∀ v, v ∈ rows ↔ v ∈ all
      ∧ (owner_visible mode (owner_field_for_type schema ty) principal v None
           ∧ Forall (no_deny (read_input (owner_field_for_type schema ty) principal ty v)) hooks
         ∨ ∃ id, object_record_id v = Some id
             ∧ active_grant grants (p_tenant_id principal) (p_user_id principal) ty id "read" = true).
Proof.
  intros Hall Hl. unfold list_objects in Hl. rewrite Hall in Hl. simpl in Hl. injection Hl as <-.
  split; [apply (select_sublist _ all)|]. intros v. fold (@select Value).
  rewrite list_elem_of_In, filter_In, <- list_elem_of_In, read_with_hooks_spec. tauto.
Qed.

(** an object write is allowed exactly when the principal is authenticated
    and either no policy hook denies it, or the first hook that does gives a
    reason that sharing can relax and the principal holds an active write grant
    on the record. Ownership of the record plays no part. *)
Theorem object_write_exact `{GrantLookup G} (grants : G) hooks principal ty id value :
  write_decision grants hooks principal ty id value = Ok tt ↔
  p_user_id principal ≠ ""
  ∧ (Forall (no_deny (write_input principal ty id value)) hooks
     ∨ ∃ r m, first_deny (write_input principal ty id value) hooks r m
         ∧ (r = NotAuthorizedForResource ∨ r = OwnerMismatch)
         ∧ active_grant grants (p_tenant_id principal) (p_user_id principal) ty id "write" = true).
Proof. apply write_decision_spec. Qed.

(** revoking a grant is final: after [revoke] returned a grant, whatever
    grants are created or revoked later, the grant keeps the time of its first
    revocation, and any access that is still granted is granted by a grant with
    another id. *)
Theorem grant_revocation_final msg tenant id now t g t' t'' :
  NoDup (g_id <$> t) → revoke tenant id now t = (Ok (Some g), t') →
  rtc (grant_step msg) t' t'' →
  is_Some (g_revoked_at g)
  ∧ (∀ x, x ∈ t'' → g_id x = id → g_revoked_at x = g_revoked_at g)
  ∧ ∀ tn user ty rid required, has_active_grant_for t'' tn user ty rid required = true →
      ∃ x, x ∈ t'' ∧ g_id x ≠ id ∧ g_revoked_at x = None ∧ g_grantee_user_id x = user
        ∧ g_record_id x = rid.
Proof.
  intros Hnd Hr Hs. destruct (revoke_marks _ _ _ _ _ _ Hnd Hr) as (at_ & Hat & Hinv).
  assert (Hinv' : revoked_at id at_ t'') by (clear Hr; induction Hs; eauto using revoked_step).
  destruct Hinv' as [_ Hall]. rewrite Hat. split_and!; [eauto|done|].
  intros tn user ty rid required (x & Hx & _ & Hu & _ & Hrid & Hact & _)%has_active_grant_for_spec.
  exists x. split_and!; try done. intros Hid. by rewrite (Hall x Hx Hid) in Hact.
Qed.

(** the pipeline keeps tenants apart: at baseline, and whatever the hooks
    say, nobody but an administrator is allowed any action on a resource of
    another tenant, and nobody unauthenticated is allowed anything. *)
Theorem tenants_apart principal action resource input hooks :
  is_allow (apply_policy_hooks (decide_baseline principal action resource) input hooks) = true →
  p_user_id principal ≠ ""
  ∧ (p_scope principal = Scope_Admin ∨ rc_tenant_id resource = ""
     ∨ rc_tenant_id resource = p_tenant_id principal).
Proof.
  intros Ha. assert (Hb : decide_baseline principal action resource = Allow).
  { destruct (decide_baseline principal action resource) as [|r m]; [done|].
    unfold apply_policy_hooks in Ha. by simpl in Ha. }
  unfold decide_baseline in Hb. destruct (Str.is_empty (p_user_id principal)) eqn:Eu; [done|].
  split; [intros Hu; by rewrite Hu in Eu|].
  destruct (decide (p_scope principal = Scope_Admin)) as [|Hs]; [by left|].
  rewrite (bool_decide_false _ Hs) in Hb. simpl in Hb.
  destruct (Str.is_empty (rc_tenant_id resource)) eqn:Et; [right; left; by apply is_empty_spec|].
  simpl in Hb. destruct (String.eqb_spec (rc_tenant_id resource) (p_tenant_id principal));
    [by do 2 right|done].
Qed.

(** ** A concrete deployment *)

Module SampleAuthz.
Export ToyCrypto ToyPacked.
Definition ann : Principal :=
  {| p_user_id := "ann"; p_device_id := "d"; p_replica_id := "r"; p_tenant_id := "t1";
     p_scope := Scope_Tenant; p_service_scopes := [] |}.
Definition put (oid owner : string) (t : ObjectTable) : ObjectTable :=
  (ObjectStore.upsert_with_policy SampleSchema.schema enc nonce "app1" "t1" "Task" oid
    (VMap (str_entries [("title", VStr oid); ("ownerUserId", VStr owner)])) None LastWriteWins
    1700000000123 t).2.
Definition tasks : ObjectTable := put "c" "eve" (put "b" "bob" (put "a" "ann" ∅)).
Definition share : CreateGrantArgs :=
  {| cg_id := "g1"; cg_tenant_id := "t1"; cg_owner_user_id := "bob"; cg_record_type := "Task";
     cg_record_id := "b"; cg_grantee_user_id := "ann"; cg_permission := "write";
     cg_created_at := "2023-11-14T22:13:20.123Z" |}.
Definition grants1 : GrantTable := (create "UNIQUE" share []).2.
Definition grants2 : GrantTable := (revoke "t1" "g1" "2023-11-15T00:00:00.000Z" grants1).2.
Definition granted : Grant :=
  {| g_id := "g1"; g_tenant_id := "t1"; g_owner_user_id := "bob"; g_record_type := "Task";
     g_record_id := "b"; g_grantee_user_id := "ann"; g_permission := "write";
     g_created_at := "2023-11-14T22:13:20.123Z";
     g_revoked_at := Some "2023-11-15T00:00:00.000Z" |}.
Definition task (oid owner : string) : Value :=
  VMap (str_entries [("id", VStr oid); ("title", VStr oid); ("ownerUserId", VStr owner)]).
End SampleAuthz.
Import SampleAuthz.

Lemma list_objects_exact_witness : sublist [task "a" "ann"; task "b" "bob"]
  [task "a" "ann"; task "b" "bob"; task "c" "eve"].
Proof.
  refine (proj1 (list_objects_exact grants1 [] SampleSchema.schema enc OwnerScoped tasks ann "Task"
    "app1" _ _ _ _)); vm_compute; reflexivity.
Defined.

Lemma grant_revocation_final_witness :
  Forall (λ x, g_id x = "g1" → g_revoked_at x = Some "2023-11-15T00:00:00.000Z") grants2.
Proof.
  apply Forall_forall.
  refine (proj1 (proj2 (grant_revocation_final "UNIQUE" "t1" "g1" "2023-11-15T00:00:00.000Z" grants1
    granted grants2 grants2 _ _ (rtc_refl _ _)))).
  - vm_compute. apply (NoDup_singleton "g1").
  - vm_compute. reflexivity.
Defined.

Lemma tenants_apart_witness : p_user_id ann ≠ "".
Proof.
  exact (proj1 (tenants_apart ann StreamRead
    {| rc_tenant_id := "t1"; rc_owner_user_id := None |}
    (read_input None ann "Task" (task "a" "ann")) [] eq_refl)).
Defined.

(** A member of the tenant may overwrite or delete a record that belongs to
    somebody else and that it may not even read. *)
Theorem write_ignores_owner :
  write_decision ([] : GrantTable) [] ann "Task" "c" None = Ok tt
  ∧ list_objects ([] : GrantTable) [] SampleSchema.schema enc OwnerScoped tasks ann "Task" "app1"
    = Ok [task "a" "ann"].
Proof. split; vm_compute; reflexivity. Qed.
