(* ===== verification/PlatformEvents.v ===== *)
(** * Platform events: the pipeline and its contract
      ([frick-store/src/platform_events/mod.rs])

    The events, the validation of a publish, the driver trait as a class and the
    pipeline every driver is meant to implement: an event list with one delivery
    per consumer and event. [PlatformDrivers] models the two drivers and proves
    them against this pipeline. [serde_json] is outside the repository: an object
    map is an abstract type with its printer and parser ([SerdeJson]); a map that
    the two of them carry through is [json_stable]. *)

From Stdlib Require Import ZArith Lia Ascii String.
From stdpp Require Import base gmap strings list sorting pretty.
From S2P Require Import Prelude Timestamp StoreBase.

(** ** [serde_json] *)

Class SerdeJson := {
  JsonMap : Type;
  empty_map : JsonMap;
  object_to_string : JsonMap → string;          (* Value::Object(map).to_string() *)
  parse_object : string → option JsonMap;       (* from_str, an object or nothing *)
  string_to_json : string → string;             (* Value::String(s).to_string() *)
}.

Definition PLATFORM_EVENT_FAMILIES : list string :=
  ["analytics.user_event"; "telemetry.client_error"; "audit.dashboard_action"; "jobs.lifecycle";
   "sync.lifecycle"; "notifications.delivery"; "dashboard.operator_action"].

Inductive PlatformEventsAdapter : Type := Memory | Sqlite.
Definition PlatformEventsAdapter_as_str (a : PlatformEventsAdapter) : string :=
  match a with Memory => "memory" | Sqlite => "sqlite" end.

Record PlatformEventPublishReceipt : Type := {
  pr_id : string; pr_sequence : Z; pr_accepted_at : string; pr_duplicate : bool;
}.
Record PlatformEventDeliveryAttempt : Type := { at_attempt : Z; at_claimed_at : string }.
Record PlatformEventClaimOptions : Type := {
  co_batch_size : option Z; co_available_at : option string;
}.
Record PlatformEventConsumerHealth : Type := {
  ch_name : string; ch_pending : Z; ch_claimed : Z; ch_dead_lettered : Z; ch_lag : Z;
}.
Record PlatformEventHealth : Type := {
  ph_adapter : PlatformEventsAdapter; ph_ok : bool; ph_pending : Z; ph_claimed : Z;
  ph_dead_lettered : Z; ph_retained : Z; ph_unclaimed : Z;
  ph_consumers : list PlatformEventConsumerHealth;
}.
Record PlatformEventsPruneResult : Type := { pruned_by_age : Z; pruned_by_cap : Z }.

(** ** Event names *)

Definition is_ascii_lowercase (c : Z) : bool := (97 <=? c) && (c <=? 122).
Definition is_ascii_digit (c : Z) : bool := (48 <=? c) && (c <=? 57).
Definition name_char (c : Z) : bool := is_ascii_lowercase c || is_ascii_digit c || (c =? 95).

(** [str::split('.')] on the characters: always at least one segment. *)
Fixpoint split_on (sep : Z) (cs : list Z) : list (list Z) :=
  match cs with
  | [] => [[]]
  | c :: cs' =>
      if c =? sep then [] :: split_on sep cs'
      else match split_on sep cs' with
           | seg :: segs => (c :: seg) :: segs
           | [] => [[c]]
           end
  end.

Definition segment_ok (seg : list Z) : bool :=
  match seg with
  | first :: rest => is_ascii_lowercase first && forallb name_char rest
  | [] => false
  end.

Definition is_valid_event_name (name : string) : bool :=
  if Str.is_empty name then false
  else forallb segment_ok (split_on 46 (Str.chars name)).

(** The pattern of the documentation as a language: identifiers (a lower-case
    letter, then lower-case letters, digits and underscores) joined by dots. *)
Inductive ident : list Z → Prop :=
| ident_intro c cs : is_ascii_lowercase c = true → Forall (λ c, name_char c = true) cs →
    ident (c :: cs).
Inductive dotted : list Z → Prop :=
| dotted_one s : ident s → dotted s
| dotted_more s t : ident s → dotted t → dotted (s ++ 46 :: t).

(** ** Events *)

Section Types.
Context `{SerdeJson}.

Record PlatformEventInput : Type := {
  pi_family : string; pi_name : string; pi_source : string; pi_tenant_id : option string;
  pi_account_id : option string; pi_subject_id : option string; pi_trace_id : option string;
  pi_idempotency_key : option string; pi_occurred_at : option string;
  pi_payload : JsonMap; pi_attributes : JsonMap;
}.
Record NormalizedPlatformEvent : Type := {
  pn_schema_version : Z; pn_family : string; pn_name : string; pn_source : string;
  pn_occurred_at : string; pn_tenant_id : option string; pn_account_id : option string;
  pn_subject_id : option string; pn_trace_id : option string;
  pn_idempotency_key : option string; pn_payload : JsonMap; pn_attributes : JsonMap;
}.
Record PlatformEventEnvelope : Type := {
  pe_id : string; pe_schema_version : Z; pe_sequence : Z; pe_accepted_at : string;
  pe_occurred_at : string; pe_family : string; pe_name : string; pe_source : string;
  pe_tenant_id : option string; pe_account_id : option string; pe_subject_id : option string;
  pe_trace_id : option string; pe_idempotency_key : option string; pe_payload : JsonMap;
  pe_attributes : JsonMap;
}.
Record PlatformEventDelivery : Type := {
  pd_event : PlatformEventEnvelope; pd_consumer : string; pd_attempt : Z; pd_claimed_at : string;
}.

Definition attempt_fingerprint (d : PlatformEventDelivery) : PlatformEventDeliveryAttempt :=
  {| at_attempt := pd_attempt d; at_claimed_at := pd_claimed_at d |}.

Definition is_platform_event_family (value : string) : bool :=
  bool_decide (value ∈ PLATFORM_EVENT_FAMILIES).

Definition normalize_platform_event_input (input : PlatformEventInput) (now_iso : string) :
    result string NormalizedPlatformEvent :=
  if negb (is_platform_event_family (pi_family input))
  then Err ("Unknown platform event family " +:+ string_to_json (pi_family input))
  else
    let name := Str.trim (pi_name input) in
    if negb (is_valid_event_name name)
    then Err "platform event name must match /^[a-z][a-z0-9_]*(\.[a-z][a-z0-9_]*)*$/"
    else
      let source := Str.trim (pi_source input) in
      if Str.is_empty source || (120 <? Z.of_nat (length (Str.chars source)))
      then Err "platform event source must be between 1 and 120 characters"
      else Ok
        {| pn_schema_version := 1; pn_family := pi_family input; pn_name := name;
           pn_source := source; pn_occurred_at := default now_iso (pi_occurred_at input);
           pn_tenant_id := pi_tenant_id input; pn_account_id := pi_account_id input;
           pn_subject_id := pi_subject_id input; pn_trace_id := pi_trace_id input;
           pn_idempotency_key := pi_idempotency_key input; pn_payload := pi_payload input;
           pn_attributes := pi_attributes input |}.

(** [From<PlatformEventValidationError> for StoreError]. *)
Definition normalized (input : PlatformEventInput) (now_iso : string) :
    result StoreError NormalizedPlatformEvent :=
  map_err Store (normalize_platform_event_input input now_iso).

(** The envelope both drivers build from a normalized input. *)
Definition envelope (event_id : string) (sequence : Z) (accepted_at : string)
    (n : NormalizedPlatformEvent) : PlatformEventEnvelope :=
  {| pe_id := event_id; pe_schema_version := pn_schema_version n; pe_sequence := sequence;
     pe_accepted_at := accepted_at; pe_occurred_at := pn_occurred_at n; pe_family := pn_family n;
     pe_name := pn_name n; pe_source := pn_source n; pe_tenant_id := pn_tenant_id n;
     pe_account_id := pn_account_id n; pe_subject_id := pn_subject_id n;
     pe_trace_id := pn_trace_id n; pe_idempotency_key := pn_idempotency_key n;
     pe_payload := pn_payload n; pe_attributes := pn_attributes n |}.

(** [tenant\0key]. *)
Definition idempotency_scope (tenant_id : option string) (idempotency_key : string) : string :=
  default "" tenant_id +:+ String zero idempotency_key.

Definition clamp_batch_size (value : option Z) : Z :=
  match value with
  | Some v => if 0 <? v then Z.min v 1000 else 100
  | None => 100
  end.

Definition normalize_consumer_name (consumer : string) : result StoreError string :=
  let name := Str.trim consumer in
  if Str.is_empty name then Err (Store "platform event consumer name cannot be empty")
  else Ok name.

Definition encode_json_object (map : JsonMap) : string := object_to_string map.
Definition decode_json_object (value : option string) : JsonMap :=
  default empty_map (value ≫= parse_object).

(** A map the printer and the parser carry through. *)
Definition json_stable (map : JsonMap) : Prop :=
  parse_object (object_to_string map) = Some map.

(** ** The driver trait *)

Class PlatformEventsDriver (S : Type) := {
  adapter : PlatformEventsAdapter;
  publish : PlatformEventInput → string → Z → M S StoreError PlatformEventPublishReceipt;
  claim : string → PlatformEventClaimOptions → Z → M S StoreError (list PlatformEventDelivery);
  ack : string → string → PlatformEventDeliveryAttempt → Z → M S StoreError unit;
  retry : string → string → PlatformEventDeliveryAttempt → string → option string → Z →
    M S StoreError unit;
  dead_letter : string → string → PlatformEventDeliveryAttempt → string → Z → M S StoreError unit;
  health : S → PlatformEventHealth;
  prune : Z → M S StoreError PlatformEventsPruneResult;
}.

(** Calls of the trait and what they return. *)
Inductive Call : Type :=
| CPublish (input : PlatformEventInput) (event_id : string) (now : Z)
| CClaim (consumer : string) (options : PlatformEventClaimOptions) (now : Z)
| CAck (consumer event_id : string) (attempt : PlatformEventDeliveryAttempt) (now : Z)
| CRetry (consumer event_id : string) (attempt : PlatformEventDeliveryAttempt) (error : string)
    (available_at : option string) (now : Z)
| CDeadLetter (consumer event_id : string) (attempt : PlatformEventDeliveryAttempt)
    (error : string) (now : Z)
| CPrune (now : Z).

Inductive Reply : Type :=
| RPublish (r : result StoreError PlatformEventPublishReceipt)
| RClaim (r : result StoreError (list PlatformEventDelivery))
| RUnit (r : result StoreError unit)
| RPrune (r : result StoreError PlatformEventsPruneResult).

Definition call {S} (D : PlatformEventsDriver S) (c : Call) (s : S) : Reply * S :=
  match c with
  | CPublish input id now => let '(r, s') := publish input id now s in (RPublish r, s')
  | CClaim consumer options now => let '(r, s') := claim consumer options now s in (RClaim r, s')
  | CAck consumer id a now => let '(r, s') := ack consumer id a now s in (RUnit r, s')
  | CRetry consumer id a e av now =>
      let '(r, s') := retry consumer id a e av now s in (RUnit r, s')
  | CDeadLetter consumer id a e now =>
      let '(r, s') := dead_letter consumer id a e now s in (RUnit r, s')
  | CPrune now => let '(r, s') := prune now s in (RPrune r, s')
  end.

Fixpoint calls {S} (D : PlatformEventsDriver S) (cs : list Call) (s : S) : list Reply * S :=
  match cs with
  | [] => ([], s)
  | c :: cs' => let '(r, s1) := call D c s in let '(rs, s2) := calls D cs' s1 in (r :: rs, s2)
  end.
End Types.

(** ** The pipeline

    What a driver promises, independent of how it stores it: the retained events
    in sequence order and one delivery per consumer and event. A driver with a
    visibility timeout ([reclaim = Some timeout]) hands a stale claim out again;
    one without ([None]) does not. *)

Inductive DeliveryStatus : Type := Pending | Claimed | Retry | Acked | DeadLettered.
#[export] Instance DeliveryStatus_eq_dec : EqDecision DeliveryStatus.
Proof. solve_decision. Defined.

Record Delivery : Type := {
  dl_status : DeliveryStatus; dl_attempt : Z; dl_available_at : string;
  dl_claimed_at : option string;
}.

(** [entry(k).or_insert(v)]; also [INSERT .. ON CONFLICT DO NOTHING]. *)
Definition or_insert {K V} `{Countable K} (m : gmap K V) (k : K) (v : V) : gmap K V :=
  match m !! k with Some _ => m | None => <[k := v]> m end.

Section Pipeline.
Context `{SerdeJson}.
Context (reclaim : option Z) (retention_ms max_rows : Z).

Abbreviation Deliveries := (gmap (string * string) Delivery).

Record Pipeline : Type := {
  pl_events : list PlatformEventEnvelope;
  pl_sequence : Z;
  pl_deliveries : gmap (string * string) Delivery;
}.
Definition empty_pipeline : Pipeline :=
  {| pl_events := []; pl_sequence := 0; pl_deliveries := ∅ |}.

Definition same_scope (tenant : option string) (key : string) (e : PlatformEventEnvelope) : bool :=
  bool_decide (default "" (pe_tenant_id e) = default "" tenant)
  && bool_decide (pe_idempotency_key e = Some key).

Definition receipt (e : PlatformEventEnvelope) (duplicate : bool) : PlatformEventPublishReceipt :=
  {| pr_id := pe_id e; pr_sequence := pe_sequence e; pr_accepted_at := pe_accepted_at e;
     pr_duplicate := duplicate |}.

Definition existing (n : NormalizedPlatformEvent) (p : Pipeline) : option PlatformEventEnvelope :=
  key ← pn_idempotency_key n; List.find (same_scope (pn_tenant_id n) key) (pl_events p).

Definition spec_publish (input : PlatformEventInput) (event_id : string) (now : Z) :
    M Pipeline StoreError PlatformEventPublishReceipt := λ p,
  match normalized input (iso_from_epoch_ms now) with
  | Err e => (Err e, p)
  | Ok n =>
      match existing n p with
      | Some e => (Ok (receipt e true), p)
      | None =>
          let e := envelope event_id (pl_sequence p + 1) (iso_from_epoch_ms now) n in
          (Ok (receipt e false),
           {| pl_events := pl_events p ++ [e]; pl_sequence := pl_sequence p + 1;
              pl_deliveries := pl_deliveries p |})
      end
  end.

Definition pending (e : PlatformEventEnvelope) : Delivery :=
  {| dl_status := Pending; dl_attempt := 0; dl_available_at := pe_accepted_at e;
     dl_claimed_at := None |}.

(** The delivery of an event: the recorded one, or a new pending one. *)
Definition delivery_of (ds : Deliveries) (name : string) (e : PlatformEventEnvelope) : Delivery :=
  default (pending e) (ds !! (name, pe_id e)).

Definition claimable (cutoff : string) (now : Z) (d : Delivery) : bool :=
  match dl_status d with
  | Pending | Retry => Str.leb (dl_available_at d) cutoff
  | Claimed =>
      match reclaim with
      | None => false
      | Some timeout =>
          match dl_claimed_at d with
          | None => true
          | Some c => Str.leb c (iso_from_epoch_ms (i64_sub now timeout))
          end
      end
  | Acked | DeadLettered => false
  end.

Definition claimed_now (now : Z) (d : Delivery) : Delivery :=
  {| dl_status := Claimed; dl_attempt := dl_attempt d + 1; dl_available_at := dl_available_at d;
     dl_claimed_at := Some (iso_from_epoch_ms now) |}.

Definition is_claimable (ds : Deliveries) (name cutoff : string) (now : Z)
    (e : PlatformEventEnvelope) : bool :=
  claimable cutoff now (delivery_of ds name e).

(** The events a claim hands out. *)
Definition chosen (p : Pipeline) (name : string) (options : PlatformEventClaimOptions) (now : Z) :
    list PlatformEventEnvelope :=
  take (Z.to_nat (clamp_batch_size (co_batch_size options)))
    (List.filter
       (is_claimable (pl_deliveries p) name
          (default (iso_from_epoch_ms now) (co_available_at options)) now)
       (pl_events p)).

Definition backfill (name : string) (es : list PlatformEventEnvelope) (ds : Deliveries) : Deliveries :=
  foldl (λ m e, or_insert m (name, pe_id e) (pending e)) ds es.

Definition mark (name : string) (now : Z) (es : list PlatformEventEnvelope) (ds : Deliveries) :
    Deliveries :=
  foldl (λ m e, alter (claimed_now now) (name, pe_id e) m) ds es.

Definition hand_out (ds : Deliveries) (name : string) (now : Z) (e : PlatformEventEnvelope) :
    PlatformEventDelivery :=
  {| pd_event := e; pd_consumer := name; pd_attempt := dl_attempt (delivery_of ds name e) + 1;
     pd_claimed_at := iso_from_epoch_ms now |}.

Definition spec_claim (consumer : string) (options : PlatformEventClaimOptions) (now : Z) :
    M Pipeline StoreError (list PlatformEventDelivery) := λ p,
  match normalize_consumer_name consumer with
  | Err e => (Err e, p)
  | Ok name =>
      let es := chosen p name options now in
      (Ok (hand_out (pl_deliveries p) name now <$> es),
       {| pl_events := pl_events p; pl_sequence := pl_sequence p;
          pl_deliveries :=
            mark name now es (backfill name (pl_events p) (pl_deliveries p)) |})
  end.

(** The delivery is still the one this attempt claimed. *)
Definition is_attempt (a : PlatformEventDeliveryAttempt) (d : Delivery) : bool :=
  bool_decide (dl_status d = Claimed) && bool_decide (dl_attempt d = at_attempt a)
  && bool_decide (dl_claimed_at d = Some (at_claimed_at a)).

Definition settle (f : Delivery → Delivery) (consumer event_id : string)
    (a : PlatformEventDeliveryAttempt) : M Pipeline StoreError unit := λ p,
  match normalize_consumer_name consumer with
  | Err e => (Err e, p)
  | Ok name =>
      (Ok tt,
       {| pl_events := pl_events p; pl_sequence := pl_sequence p;
          pl_deliveries :=
            alter (λ d, if is_attempt a d then f d else d) (name, event_id) (pl_deliveries p) |})
  end.

Definition to_acked (d : Delivery) : Delivery :=
  {| dl_status := Acked; dl_attempt := dl_attempt d; dl_available_at := dl_available_at d;
     dl_claimed_at := dl_claimed_at d |}.
Definition to_retry (available : string) (d : Delivery) : Delivery :=
  {| dl_status := Retry; dl_attempt := dl_attempt d; dl_available_at := available;
     dl_claimed_at := None |}.
Definition to_dead (d : Delivery) : Delivery :=
  {| dl_status := DeadLettered; dl_attempt := dl_attempt d; dl_available_at := dl_available_at d;
     dl_claimed_at := dl_claimed_at d |}.

(** Retention, then the cap: what stays. *)
Definition too_old (now : Z) (e : PlatformEventEnvelope) : bool :=
  Str.ltb (pe_occurred_at e) (iso_from_epoch_ms (i64_sub now retention_ms)).
Definition recent (now : Z) (p : Pipeline) : list PlatformEventEnvelope :=
  delete_where (too_old now) (pl_events p).
Definition overflow (now : Z) (p : Pipeline) : nat :=
  length (recent now p) - Z.to_nat max_rows.
Definition retained (now : Z) (p : Pipeline) : list PlatformEventEnvelope :=
  drop (overflow now p) (recent now p).

Definition spec_prune (now : Z) : M Pipeline StoreError PlatformEventsPruneResult := λ p,
  let es := retained now p in
  (Ok {| pruned_by_age := changes (too_old now) (pl_events p);
         pruned_by_cap := Z.of_nat (overflow now p) |},
   {| pl_events := es; pl_sequence := pl_sequence p;
      pl_deliveries := filter (λ kd, kd.1.2 ∈ (pe_id <$> es)) (pl_deliveries p) |}).

Definition spec_call (c : Call) (p : Pipeline) : Reply * Pipeline :=
  match c with
  | CPublish input id now => let '(r, p') := spec_publish input id now p in (RPublish r, p')
  | CClaim consumer options now => let '(r, p') := spec_claim consumer options now p in (RClaim r, p')
  | CAck consumer id a now => let '(r, p') := settle to_acked consumer id a p in (RUnit r, p')
  | CRetry consumer id a _ av now =>
      let '(r, p') := settle (to_retry (default (iso_from_epoch_ms now) av)) consumer id a p in
      (RUnit r, p')
  | CDeadLetter consumer id a _ now =>
      let '(r, p') := settle to_dead consumer id a p in (RUnit r, p')
  | CPrune now => let '(r, p') := spec_prune now p in (RPrune r, p')
  end.

Fixpoint spec_calls (cs : list Call) (p : Pipeline) : list Reply * Pipeline :=
  match cs with
  | [] => ([], p)
  | c :: cs' => let '(r, p1) := spec_call c p in let '(rs, p2) := spec_calls cs' p1 in (r :: rs, p2)
  end.

(** ** Well-formed pipelines *)

(** A tenant the scope key cannot confuse: not empty, no NUL. *)
Definition tenant_ok (tenant : option string) : Prop :=
  ∀ t, tenant = Some t → t ≠ "" ∧ 0 ∉ Str.bytes t.

Record event_ok (seq : Z) (e : PlatformEventEnvelope) : Prop := {
  eo_sequence : pe_sequence e ≤ seq;
  eo_tenant : tenant_ok (pe_tenant_id e);
  eo_payload : json_stable (pe_payload e);
  eo_attributes : json_stable (pe_attributes e);
}.

Record pipeline_wf (p : Pipeline) : Prop := {
  pw_sorted : StronglySorted (λ a b, pe_sequence a < pe_sequence b) (pl_events p);
  pw_ids : NoDup (pe_id <$> pl_events p);
  pw_events : Forall (event_ok (pl_sequence p)) (pl_events p);
  pw_scopes : ∀ a b k, a ∈ pl_events p → b ∈ pl_events p → pe_idempotency_key a = Some k →
    same_scope (pe_tenant_id a) k b = true → a = b;
  pw_deliveries : ∀ c i d, pl_deliveries p !! (c, i) = Some d → i ∈ (pe_id <$> pl_events p);
}.

(** What the caller supplies: an event id of its own (random at the boundary), a
    tenant with a usable scope, a payload JSON can carry. *)
Definition call_ok (used : gset string) (c : Call) : Prop :=
  match c with
  | CPublish input id _ =>
      id ∉ used ∧ tenant_ok (pi_tenant_id input)
      ∧ json_stable (pi_payload input) ∧ json_stable (pi_attributes input)
  | _ => True
  end.
Definition call_ids (c : Call) : gset string :=
  match c with CPublish _ id _ => {[id]} | _ => ∅ end.
Fixpoint calls_ok (used : gset string) (cs : list Call) : Prop :=
  match cs with
  | [] => True
  | c :: cs' => call_ok used c ∧ calls_ok (call_ids c ∪ used) cs'
  end.
Definition ids_in (used : gset string) (p : Pipeline) : Prop :=
  ∀ i, i ∈ (pe_id <$> pl_events p) → i ∈ used.
End Pipeline.
Arguments Pipeline {_}.

(** ** Folds that insert and alter *)

Section Folds.
Context {A K V : Type} `{Countable K} (f : A → K).

Lemma or_insert_lookup (m : gmap K V) k v k' :
  or_insert m k v !! k' = if decide (k' = k) then Some (default v (m !! k)) else m !! k'.
Proof using Type.
  unfold or_insert. destruct (m !! k) as [w|] eqn:E; case_decide as Hd; subst; simpl.
  - done.
  - done.
  - by rewrite lookup_insert_eq.
  - by rewrite lookup_insert_ne.
Qed.

Lemma fold_or_insert_out (g : A → V) es (m : gmap K V) k :
  k ∉ (f <$> es) → foldl (λ m e, or_insert m (f e) (g e)) m es !! k = m !! k.
Proof using Type.
  revert m. induction es as [|e es IH]; intros m; simpl; [done|]. rewrite not_elem_of_cons.
  intros [Hk Hes]. rewrite IH by done. rewrite or_insert_lookup. by rewrite decide_False.
Qed.

Lemma fold_or_insert_in (g : A → V) es (m : gmap K V) e :
  NoDup (f <$> es) → e ∈ es →
  foldl (λ m e, or_insert m (f e) (g e)) m es !! f e = Some (default (g e) (m !! f e)).
Proof using Type.
  revert m. induction es as [|x es IH]; intros m; simpl; [by inversion 2|].
  rewrite NoDup_cons. intros [Hx Hnd] [->|Hin]%elem_of_cons.
  - rewrite fold_or_insert_out by done. rewrite or_insert_lookup. by rewrite decide_True.
  - rewrite IH by done. rewrite or_insert_lookup. rewrite decide_False; [done|].
    intros Heq. apply Hx. rewrite <- Heq. by apply list_elem_of_fmap_2.
Qed.

Lemma fold_alter_out (g : V → V) es (m : gmap K V) k :
  k ∉ (f <$> es) → foldl (λ m e, alter g (f e) m) m es !! k = m !! k.
Proof using Type.
  revert m. induction es as [|e es IH]; intros m; simpl; [done|]. rewrite not_elem_of_cons.
  intros [Hk Hes]. rewrite IH by done. by rewrite lookup_alter_ne.
Qed.

Lemma fold_alter_in (g : V → V) es (m : gmap K V) e :
  NoDup (f <$> es) → e ∈ es →
  foldl (λ m e, alter g (f e) m) m es !! f e = g <$> m !! f e.
Proof using Type.
  revert m. induction es as [|x es IH]; intros m; simpl; [by inversion 2|].
  rewrite NoDup_cons. intros [Hx Hnd] [->|Hin]%elem_of_cons.
  - rewrite fold_alter_out by done. by rewrite lookup_alter_eq.
  - rewrite IH by done. rewrite lookup_alter_ne; [done|].
    intros Heq. apply Hx. rewrite Heq. by apply list_elem_of_fmap_2.
Qed.
End Folds.

Lemma take_sublist {A} n (l : list A) : sublist (take n l) l.
Proof. rewrite <- (take_drop n l) at 2. by apply sublist_inserts_r. Qed.
Lemma drop_sublist {A} n (l : list A) : sublist (drop n l) l.
Proof. rewrite <- (take_drop n l) at 2. by apply sublist_inserts_l. Qed.
Lemma sublist_in {A} (l k : list A) x : sublist l k → x ∈ l → x ∈ k.
Proof. induction 1; set_solver. Qed.
Lemma sublist_NoDup {A B} (f : A → B) (l k : list A) :
  sublist l k → NoDup (f <$> k) → NoDup (f <$> l).
Proof.
  induction 1 as [|x l k Hs IH|x l k Hs IH]; simpl; [done| |]; rewrite NoDup_cons.
  - intros [Hx Hk]. rewrite NoDup_cons. split; [|by apply IH]. intros Hin. apply Hx.
    apply list_elem_of_fmap in Hin as (y & -> & Hy). apply list_elem_of_fmap_2.
    by eapply sublist_in.
  - intros [_ Hk]. by apply IH.
Qed.
Lemma sublist_sorted {A} (R : A → A → Prop) l k :
  sublist l k → StronglySorted R k → StronglySorted R l.
Proof.
  induction 1 as [|x l k Hs IH|x l k Hs IH]; [done| |]; intros [Hk Hf]%StronglySorted_inv.
  - constructor; [by apply IH|]. rewrite Forall_forall in Hf |- *. intros y Hy.
    apply Hf. by eapply sublist_in.
  - by apply IH.
Qed.
Lemma fmap_NoDup_inj {A B} (f : A → B) (l : list A) x y :
  NoDup (f <$> l) → x ∈ l → y ∈ l → f x = f y → x = y.
Proof.
  induction l as [|z l IH]; simpl; [by inversion 2|]. rewrite NoDup_cons. intros [Hz Hnd].
  rewrite !elem_of_cons. intros [->|Hx] [->|Hy] Heq; try done.
  - destruct Hz. rewrite Heq. by apply list_elem_of_fmap_2.
  - destruct Hz. rewrite <- Heq. by apply list_elem_of_fmap_2.
  - by apply IH.
Qed.

Section PipelineLemmas.
Context `{SerdeJson}.
Implicit Types (p : Pipeline) (e : PlatformEventEnvelope) (name c i : string).

Lemma NoDup_keys name (es : list PlatformEventEnvelope) :
  NoDup (pe_id <$> es) → NoDup ((λ e, (name, pe_id e)) <$> es).
Proof using Type.
  intros Hnd. pose proof (list_fmap_compose pe_id (pair name) es) as Hc.
  unfold compose in Hc. rewrite Hc. apply NoDup_fmap_2; [|done]. by intros ? ? [= ->].
Qed.

Lemma keys_elem name c i (es : list PlatformEventEnvelope) :
  (c, i) ∈ ((λ e, (name, pe_id e)) <$> es) ↔ c = name ∧ i ∈ (pe_id <$> es).
Proof using Type.
  rewrite !list_elem_of_fmap. naive_solver.
Qed.

Lemma backfill_in name es ds e :
  NoDup (pe_id <$> es) → e ∈ es →
  backfill name es ds !! (name, pe_id e) = Some (delivery_of ds name e).
Proof using Type.
  intros Hnd He. unfold backfill, delivery_of.
  by rewrite (fold_or_insert_in (λ e, (name, pe_id e))) by auto using NoDup_keys.
Qed.

Lemma backfill_out name es ds c i :
  c ≠ name ∨ i ∉ (pe_id <$> es) → backfill name es ds !! (c, i) = ds !! (c, i).
Proof using Type.
  intros Hn. unfold backfill. apply (fold_or_insert_out (λ e, (name, pe_id e))).
  rewrite keys_elem. naive_solver.
Qed.

Lemma backfill_kept name es ds c i d :
  ds !! (c, i) = Some d → NoDup (pe_id <$> es) → backfill name es ds !! (c, i) = Some d.
Proof using Type.
  intros Hd Hnd. destruct (decide (c = name ∧ i ∈ (pe_id <$> es))) as [[-> Hi]|Hn].
  - apply list_elem_of_fmap in Hi as (e & -> & He). rewrite backfill_in by done.
    unfold delivery_of. by rewrite Hd.
  - rewrite backfill_out; [done|]. destruct (decide (c = name)); naive_solver.
Qed.

Lemma mark_in name now es ds e :
  NoDup (pe_id <$> es) → e ∈ es →
  mark name now es ds !! (name, pe_id e) = claimed_now now <$> ds !! (name, pe_id e).
Proof using Type.
  intros Hnd He. unfold mark.
  by rewrite (fold_alter_in (λ e, (name, pe_id e))) by auto using NoDup_keys.
Qed.

Lemma mark_out name now es ds c i :
  c ≠ name ∨ i ∉ (pe_id <$> es) → mark name now es ds !! (c, i) = ds !! (c, i).
Proof using Type.
  intros Hn. unfold mark. apply (fold_alter_out (λ e, (name, pe_id e))).
  rewrite keys_elem. naive_solver.
Qed.

Lemma chosen_sublist reclaim p name options now :
  sublist (chosen reclaim p name options now) (pl_events p).
Proof using Type.
  unfold chosen. etrans; [apply take_sublist|].
  apply (select_sublist (is_claimable reclaim _ _ _ _)).
Qed.

(** The delivery of every event after a claim. *)
Lemma claim_delivery reclaim p name options now e :
  NoDup (pe_id <$> pl_events p) → e ∈ pl_events p →
  mark name now (chosen reclaim p name options now)
    (backfill name (pl_events p) (pl_deliveries p)) !! (name, pe_id e)
  = Some (let d := delivery_of (pl_deliveries p) name e in
          if bool_decide (pe_id e ∈ (pe_id <$> chosen reclaim p name options now))
          then claimed_now now d else d).
Proof using Type.
  intros Hnd He. case_bool_decide as Hc.
  - apply list_elem_of_fmap in Hc as (x & Hx & Hin).
    pose proof (chosen_sublist reclaim p name options now) as Hs.
    assert (x = e) as -> by (eapply fmap_NoDup_inj; eauto using sublist_in).
    rewrite mark_in; [|by eapply sublist_NoDup|done]. by rewrite backfill_in.
  - rewrite mark_out by auto. by rewrite backfill_in.
Qed.

Lemma retained_sublist retention max_rows now p :
  sublist (retained retention max_rows now p) (pl_events p).
Proof using Type.
  unfold retained. etrans; [apply drop_sublist|]. unfold recent.
  change (delete_where (too_old retention now) (pl_events p))
    with (select (λ r, negb (too_old retention now r)) (pl_events p)).
  apply select_sublist.
Qed.

Lemma find_None_all {A} (f : A → bool) l : List.find f l = None ↔ ∀ x, x ∈ l → f x = false.
Proof using Type.
  split.
  - intros Hf x Hx. apply (find_none _ _ Hf). by apply list_elem_of_In.
  - intros Hall. destruct (List.find f l) as [x|] eqn:E; [|done].
    apply find_some in E as [Hx Hfx]. rewrite Hall in Hfx; [done|]. by apply list_elem_of_In.
Qed.

Lemma normalized_fields (input : PlatformEventInput) iso n :
  normalized input iso = Ok n →
  pn_tenant_id n = pi_tenant_id input ∧ pn_payload n = pi_payload input
  ∧ pn_attributes n = pi_attributes input ∧ pn_idempotency_key n = pi_idempotency_key input.
Proof using Type.
  unfold normalized, normalize_platform_event_input. intros Hn.
  repeat (case_match; simplify_eq/=). done.
Qed.

(** *** Well-formedness through every call *)

Lemma empty_pipeline_wf : pipeline_wf empty_pipeline.
Proof using Type. split; simpl; try constructor; try set_solver. Qed.

Lemma event_ok_le seq seq' e : seq ≤ seq' → event_ok seq e → event_ok seq' e.
Proof using Type. intros ? []. split; [lia|done..]. Qed.

Lemma sub_events_wf p es ds :
  sublist es (pl_events p) → pipeline_wf p →
  (∀ c i d, ds !! (c, i) = Some d → i ∈ (pe_id <$> es)) →
  pipeline_wf {| pl_events := es; pl_sequence := pl_sequence p; pl_deliveries := ds |}.
Proof using Type.
  intros Hs [Hso Hid Hev Hsc _] Hd. split; simpl; [..|done].
  - by eapply sublist_sorted.
  - by eapply sublist_NoDup.
  - rewrite Forall_forall in Hev |- *. eauto using sublist_in.
  - eauto using sublist_in.
Qed.

Lemma publish_wf used p n id now :
  pipeline_wf p → ids_in used p → id ∉ used → existing n p = None →
  tenant_ok (pn_tenant_id n) → json_stable (pn_payload n) → json_stable (pn_attributes n) →
  pipeline_wf {| pl_events := pl_events p ++ [envelope id (pl_sequence p + 1) now n];
                 pl_sequence := pl_sequence p + 1; pl_deliveries := pl_deliveries p |}.
Proof using Type.
  intros [Hso Hid Hev Hsc Hd] Hids Hfr Hex Ht Hp Ha. rewrite Forall_forall in Hev.
  assert (Hnew : ∀ x k, x ∈ pl_events p → pn_idempotency_key n = Some k →
                   same_scope (pn_tenant_id n) k x = false).
  { unfold existing in Hex. intros x k Hx Hk. rewrite Hk in Hex. simpl in Hex.
    by apply (proj1 (find_None_all _ _) Hex). }
  assert (Hsym : ∀ a b k, pe_idempotency_key a = Some k → same_scope (pe_tenant_id a) k b = true →
            pe_idempotency_key b = Some k ∧ same_scope (pe_tenant_id b) k a = true).
  { intros a b k Hk. unfold same_scope. rewrite !andb_true_iff, !bool_decide_eq_true. naive_solver. }
  split; cbn [pl_events pl_sequence pl_deliveries].
  - apply StronglySorted_app_2; [|done|repeat constructor]. intros x y Hx Hy.
    apply list_elem_of_singleton in Hy as ->. destruct (Hev _ Hx). simpl. lia.
  - rewrite fmap_app. apply NoDup_app. split_and!; [done| |apply NoDup_singleton].
    intros i Hi Hn. apply list_elem_of_singleton in Hn as ->. by apply Hfr, Hids.
  - apply Forall_app. split; [|apply Forall_singleton; split; [simpl; lia|done..]].
    apply Forall_forall. intros x Hx. eapply event_ok_le; [|by apply Hev]. lia.
  - intros a b k. rewrite !elem_of_app, !list_elem_of_singleton.
    intros [Ha'| ->] [Hb| ->] Hk Hsame; [by eapply Hsc| | |done].
    + apply (Hsym _ _ _ Hk) in Hsame as [Hk' Hs]. simpl in Hk', Hs. by rewrite Hnew in Hs.
    + simpl in Hk, Hsame. by rewrite Hnew in Hsame.
  - intros c i d Hl. rewrite fmap_app, elem_of_app. left. by eapply Hd.
Qed.

Lemma claim_wf reclaim p name options now :
  pipeline_wf p →
  pipeline_wf {| pl_events := pl_events p; pl_sequence := pl_sequence p;
                 pl_deliveries := mark name now (chosen reclaim p name options now)
                   (backfill name (pl_events p) (pl_deliveries p)) |}.
Proof using Type.
  intros Hwf. apply sub_events_wf; [done|done|]. intros c i d Hl.
  destruct (decide (i ∈ (pe_id <$> pl_events p))) as [|Hn]; [done|].
  rewrite mark_out, backfill_out in Hl; [by eapply pw_deliveries|by right|right].
  intros Hi. apply Hn. apply list_elem_of_fmap in Hi as (x & -> & Hx). apply list_elem_of_fmap_2.
  eapply sublist_in; [apply chosen_sublist|done].
Qed.

Lemma settle_wf f consumer id a p :
  pipeline_wf p → pipeline_wf (settle f consumer id a p).2.
Proof using Type.
  intros Hwf. unfold settle. destruct (normalize_consumer_name _) as [name|]; [|done]. simpl.
  apply sub_events_wf; [done|done|]. intros c i d Hl. destruct (decide ((c, i) = (name, id))) as [Heq|Hne].
  - rewrite Heq, lookup_alter_eq in Hl.
    destruct (pl_deliveries p !! (name, id)) eqn:E; [|done]. injection Heq as -> ->.
    by eapply pw_deliveries.
  - rewrite lookup_alter_ne in Hl by done. by eapply pw_deliveries.
Qed.

Lemma settle_call used f consumer id a p r p' :
  pipeline_wf p → ids_in used p → settle f consumer id a p = (r, p') →
  pipeline_wf p' ∧ ids_in (∅ ∪ used) p'.
Proof using Type.
  intros Hwf Hids Hs. pose proof (settle_wf f consumer id a p Hwf) as Hw. rewrite Hs in Hw.
  split; [done|]. unfold settle in Hs. unfold ids_in in *.
  destruct (normalize_consumer_name _); simplify_eq/=; set_solver.
Qed.

Lemma spec_call_wf reclaim retention max_rows used (c : Call) p r p' :
  pipeline_wf p → ids_in used p → call_ok used c →
  spec_call reclaim retention max_rows c p = (r, p') →
  pipeline_wf p' ∧ ids_in (call_ids c ∪ used) p'.
Proof using Type.
  intros Hwf Hids Hok Hc.
  destruct c as [input id now|consumer options now|consumer id a now|consumer id a e av now
    |consumer id a e now|now]; simpl in Hc.
  - unfold spec_publish in Hc. destruct (normalized _ _) as [n|] eqn:En; simplify_eq/=.
    2: { split; [done|]. unfold ids_in in *. set_solver. }
    destruct (existing n p) eqn:Ex; simplify_eq/=.
    { split; [done|]. unfold ids_in in *. set_solver. }
    destruct (normalized_fields _ _ _ En) as (Ht & Hp & Ha & _). destruct Hok as (Hf & Ot & Op & Oa).
    split; [apply (publish_wf used); by rewrite ?Ht, ?Hp, ?Ha|].
    intros i. simpl. rewrite fmap_app, elem_of_app. intros [Hi| ->%list_elem_of_singleton]; [|set_solver].
    apply Hids in Hi. set_solver.
  - unfold spec_claim in Hc. destruct (normalize_consumer_name _) as [name|]; simplify_eq/=.
    + split; [by apply claim_wf|]. unfold ids_in in *. set_solver.
    + split; [done|]. unfold ids_in in *. set_solver.
  - revert Hc. case_eq (settle to_acked consumer id a p). intros ? ? ? [= _ <-].
    by eapply settle_call.
  - revert Hc. case_eq (settle (to_retry (default (iso_from_epoch_ms now) av)) consumer id a p).
    intros ? ? ? [= _ <-]. by eapply settle_call.
  - revert Hc. case_eq (settle to_dead consumer id a p). intros ? ? ? [= _ <-].
    by eapply settle_call.
  - unfold spec_prune in Hc. injection Hc as <- <-. pose proof (retained_sublist retention max_rows now p) as Hs.
    split.
    + apply sub_events_wf; [done|done|]. intros c i d Hl. by apply map_lookup_filter_Some in Hl as [_ Hl].
    + intros i Hi. simpl in Hi. apply list_elem_of_fmap in Hi as (x & -> & Hx).
      apply elem_of_union_r, Hids, list_elem_of_fmap_2. by eapply sublist_in.
Qed.

(** *** Pruning as two sweeps *)

(** A sweep keeps the events [es] and forgets the deliveries of [ids]. *)
Definition swept (p : Pipeline) (es : list PlatformEventEnvelope) (ids : list string) : Pipeline :=
  {| pl_events := es; pl_sequence := pl_sequence p;
     pl_deliveries := filter (λ kd, kd.1.2 ∉ ids) (pl_deliveries p) |}.
Definition sweeps (p : Pipeline) (es : list PlatformEventEnvelope) (ids : list string) : Prop :=
  sublist es (pl_events p) ∧ ∀ e, e ∈ pl_events p → e ∈ es ↔ pe_id e ∉ ids.

Lemma swept_wf p es ids : pipeline_wf p → sweeps p es ids → pipeline_wf (swept p es ids).
Proof using Type.
  intros Hwf [Hs Hk]. apply sub_events_wf; [done|done|].
  intros c i d [Hl Hi]%map_lookup_filter_Some. simpl in Hi.
  apply (pw_deliveries p Hwf) in Hl as (e & -> & He)%list_elem_of_fmap.
  apply list_elem_of_fmap_2. by apply Hk.
Qed.

(** The events with ids in a part of the event list are that part. *)
Lemma id_in_part p (l : list PlatformEventEnvelope) e :
  pipeline_wf p → sublist l (pl_events p) → e ∈ pl_events p → pe_id e ∈ (pe_id <$> l) ↔ e ∈ l.
Proof using Type.
  intros Hwf Hs He. split; [|apply list_elem_of_fmap_2]. intros (x & Hx & Hl)%list_elem_of_fmap.
  by rewrite (fmap_NoDup_inj pe_id (pl_events p) e x (pw_ids p Hwf) He (sublist_in _ _ _ Hs Hl) Hx).
Qed.

Lemma recent_sublist retention now p : sublist (recent retention now p) (pl_events p).
Proof using Type. apply (select_sublist (λ r, negb (too_old retention now r))). Qed.

Lemma first_sweep retention now p :
  pipeline_wf p →
  let ids := pe_id <$> select (too_old retention now) (pl_events p) in
  sweeps p (recent retention now p) ids ∧ pipeline_wf (swept p (recent retention now p) ids).
Proof using Type.
  intros Hwf ids. assert (Hsw : sweeps p (recent retention now p) ids).
  { split; [apply recent_sublist|]. intros e He. unfold ids.
    rewrite (id_in_part p) by (done || apply select_sublist).
    unfold recent. rewrite elem_of_delete_where, elem_of_select, <- not_true_iff_false. naive_solver. }
  split; [done|]. by apply swept_wf.
Qed.

Lemma second_sweep retention max_rows now p :
  pipeline_wf p →
  sweeps (swept p (recent retention now p) (pe_id <$> select (too_old retention now) (pl_events p)))
    (retained retention max_rows now p)
    (pe_id <$> take (overflow retention max_rows now p) (recent retention now p)).
Proof using Type.
  intros Hwf. set (o := overflow retention max_rows now p). unfold retained. fold o.
  split; [apply drop_sublist|]. simpl. intros e He. pose proof (recent_sublist retention now p) as Hr.
  rewrite (id_in_part p); [|done|etrans; [apply take_sublist|done]|by eapply sublist_in].
  assert (Hnr : NoDup (recent retention now p))
    by (apply (NoDup_fmap_1 pe_id); eapply sublist_NoDup; [exact Hr|by apply pw_ids]).
  rewrite <- (take_drop o (recent retention now p)) in Hnr, He. apply NoDup_app in Hnr as (_ & Hdis & _).
  apply elem_of_app in He. naive_solver.
Qed.

(** [spec_prune] is the age sweep followed by the cap sweep. *)
Lemma prune_is_two_sweeps retention max_rows now p :
  pipeline_wf p →
  spec_prune retention max_rows now p
  = (Ok {| pruned_by_age := changes (too_old retention now) (pl_events p);
           pruned_by_cap := Z.of_nat (overflow retention max_rows now p) |},
     swept (swept p (recent retention now p) (pe_id <$> select (too_old retention now) (pl_events p)))
       (retained retention max_rows now p)
       (pe_id <$> take (overflow retention max_rows now p) (recent retention now p))).
Proof using Type.
  intros Hwf. unfold spec_prune, swept. simpl. do 2 f_equal. apply map_eq. intros [c i].
  destruct (first_sweep retention now p Hwf) as [[_ H1] _].
  destruct (second_sweep retention max_rows now p Hwf) as [_ H2]. simpl in H2.
  rewrite !map_lookup_filter. destruct (pl_deliveries p !! (c, i)) as [d|] eqn:Ed; [|done]. simpl.
  apply (pw_deliveries p Hwf) in Ed as (e & -> & He)%list_elem_of_fmap.
  specialize (H1 e He).
  pose proof (id_in_part p (retained retention max_rows now p) e Hwf (retained_sublist _ _ _ _) He) as H3.
  specialize (H2 e).
  assert (Hsub : e ∈ retained retention max_rows now p → e ∈ recent retention now p)
    by (apply sublist_in, drop_sublist).
  repeat (case_guard; simpl); try done; exfalso; tauto.
Qed.

Lemma swept_nil p : swept p (pl_events p) [] = p.
Proof using Type.
  destruct p as [es q ds]. unfold swept. simpl. f_equal. apply map_filter_id. set_solver.
Qed.
End PipelineLemmas.


(** ** Simulation

    A driver implements the pipeline when every call replies alike and keeps the
    states related; the replies of whole sequences of calls then agree. *)
Section Simulation.
Context `{SerdeJson} {S : Type} (D : PlatformEventsDriver S).
Context (reclaim : option Z) (retention_ms max_rows : Z) (R : Pipeline → S → Prop).

Definition simulates : Prop :=
  ∀ used (p : Pipeline) s c r p', pipeline_wf p → ids_in used p → call_ok used c → R p s →
    spec_call reclaim retention_ms max_rows c p = (r, p') →
    ∃ s', call D c s = (r, s') ∧ R p' s'.

Lemma calls_simulated used cs (p : Pipeline) s rs p' :
  simulates → pipeline_wf p → ids_in used p → calls_ok used cs → R p s →
  spec_calls reclaim retention_ms max_rows cs p = (rs, p') →
  ∃ s', calls D cs s = (rs, s') ∧ R p' s' ∧ pipeline_wf p'.
Proof using Type.
  intros Hsim. revert used p s rs. induction cs as [|c cs IH]; intros used p s rs Hwf Hids Hok HR; simpl.
  - intros [= <- <-]. eauto.
  - destruct Hok as [Hc Hcs]. destruct (spec_call _ _ _ c p) as [r p1] eqn:E1.
    destruct (spec_calls _ _ _ cs p1) as [rs' p2] eqn:E2. intros [= <- <-].
    destruct (Hsim used p s c r p1) as (s1 & -> & HR1); [done..|].
    destruct (spec_call_wf _ _ _ _ _ _ _ _ Hwf Hids Hc E1) as [Hwf1 Hids1].
    destruct (IH _ _ _ _ Hwf1 Hids1 Hcs HR1 E2) as (s2 & -> & HR2 & Hwf2). eauto.
Qed.
End Simulation.
