(* ===== verification/PlatformDrivers.v ===== *)
(** * Platform events: the two drivers
      ([frick-store/src/platform_events/{memory,sqlite}.rs])

    The in-process driver keeps events, an idempotency map, receipt times and a
    delivery map per consumer behind one lock; the durable driver keeps two
    tables. Both are proved to reply as the pipeline of [PlatformEvents] does on
    every sequence of calls, the durable one with its visibility timeout and the
    in-process one without. The lock is held for a whole call and never poisoned;
    a statement of the durable driver fails only on a violated constraint. *)

From Stdlib Require Import ZArith Lia Ascii String.
From stdpp Require Import base gmap strings list sorting pretty.
From S2P Require Import Prelude Timestamp StoreBase PlatformEvents.

Definition DEFAULT_PLATFORM_EVENTS_RETENTION_MS : Z := 7 * 24 * 60 * 60 * 1000.
Definition DEFAULT_PLATFORM_EVENTS_MAX_ROWS : Z := 1000000.
Definition DEFAULT_PLATFORM_EVENTS_CLAIM_TIMEOUT_MS : Z := 5 * 60 * 1000.

Definition sum_of {A} (f : A → Z) (l : list A) : Z := foldr (λ a n, f a + n) 0 l.
Definition name_le (a b : PlatformEventConsumerHealth) : bool := Str.leb (ch_name a) (ch_name b).

(** ** The in-process driver *)

Module Mem.
Record DeliveryState : Type := {
  status : DeliveryStatus; attempt : Z; available_at : string; claimed_at : option string;
  last_error : option string;
}.

Definition matches_attempt (delivery : DeliveryState) (a : PlatformEventDeliveryAttempt) : bool :=
  bool_decide (status delivery = Claimed) && (attempt delivery =? at_attempt a)
  && bool_decide (claimed_at delivery = Some (at_claimed_at a)).

Record DeliveryCounts : Type := { pending : Z; claimed : Z; dead_lettered : Z }.

Definition count_one (c : DeliveryCounts) (d : DeliveryState) : DeliveryCounts :=
  match status d with
  | Pending | Retry =>
      {| pending := pending c + 1; claimed := claimed c; dead_lettered := dead_lettered c |}
  | Claimed =>
      {| pending := pending c; claimed := claimed c + 1; dead_lettered := dead_lettered c |}
  | DeadLettered =>
      {| pending := pending c; claimed := claimed c; dead_lettered := dead_lettered c + 1 |}
  | Acked => c
  end.
Definition count_deliveries (ds : list DeliveryState) : DeliveryCounts :=
  foldl count_one {| pending := 0; claimed := 0; dead_lettered := 0 |} ds.

Section Memory.
Context `{SerdeJson} (retention_ms max_rows : Z).

Record Inner : Type := {
  events : list PlatformEventEnvelope;
  idempotency : gmap string PlatformEventEnvelope;
  accepted_at : gmap string string;
  deliveries : gmap string (gmap string DeliveryState);
  sequence : Z;
}.
Definition Inner_default : Inner :=
  {| events := []; idempotency := ∅; accepted_at := ∅; deliveries := ∅; sequence := 0 |}.

Definition set_deliveries (ds : gmap string (gmap string DeliveryState)) (s : Inner) : Inner :=
  {| events := events s; idempotency := idempotency s; accepted_at := accepted_at s;
     deliveries := ds; sequence := sequence s |}.

Definition publish (input : PlatformEventInput) (event_id : string) (now_ms : Z) :
    M Inner StoreError PlatformEventPublishReceipt := λ inner,
  let now_iso := iso_from_epoch_ms now_ms in
  match normalized input now_iso with
  | Err e => (Err e, inner)
  | Ok n =>
      let dup :=
        key ← pn_idempotency_key n;
        existing ← idempotency inner !! idempotency_scope (pn_tenant_id n) key;
        Some {| pr_id := pe_id existing; pr_sequence := pe_sequence existing;
                pr_accepted_at := default now_iso (accepted_at inner !! pe_id existing);
                pr_duplicate := true |} in
      match dup with
      | Some receipt => (Ok receipt, inner)
      | None =>
          let sequence := sequence inner + 1 in
          let event := envelope event_id sequence now_iso n in
          (Ok {| pr_id := pe_id event; pr_sequence := sequence; pr_accepted_at := now_iso;
                 pr_duplicate := false |},
           {| events := events inner ++ [event];
              idempotency :=
                match pe_idempotency_key event with
                | Some key =>
                    <[idempotency_scope (pe_tenant_id event) key := event]> (idempotency inner)
                | None => idempotency inner
                end;
              accepted_at := <[pe_id event := now_iso]> (accepted_at inner);
              deliveries := deliveries inner; sequence := sequence |})
      end
  end.

Definition fresh_delivery (accepted_at : string) : DeliveryState :=
  {| status := Pending; attempt := 0; available_at := accepted_at; claimed_at := None;
     last_error := None |}.

(** The claim loop over the events, with the consumer's state and the batch
    collected so far. *)
Fixpoint claim_loop (batch_size : nat) (cutoff now_iso name : string)
    (order : list PlatformEventEnvelope) (state : gmap string DeliveryState)
    (out : list PlatformEventDelivery) :
    gmap string DeliveryState * list PlatformEventDelivery :=
  match order with
  | [] => (state, out)
  | event :: order' =>
      if (batch_size <=? length out)%nat then (state, out)
      else match state !! pe_id event with
      | None => claim_loop batch_size cutoff now_iso name order' state out
      | Some delivery =>
          let claimable :=
            match status delivery with
            | Pending | Retry => Str.leb (available_at delivery) cutoff
            | _ => false
            end in
          if negb claimable then claim_loop batch_size cutoff now_iso name order' state out
          else
            let delivery' :=
              {| status := Claimed; attempt := attempt delivery + 1;
                 available_at := available_at delivery; claimed_at := Some now_iso;
                 last_error := last_error delivery |} in
            claim_loop batch_size cutoff now_iso name order'
              (<[pe_id event := delivery']> state)
              (out ++ [{| pd_event := event; pd_consumer := name;
                          pd_attempt := attempt delivery'; pd_claimed_at := now_iso |}])
      end
  end.

Definition claim (consumer : string) (options : PlatformEventClaimOptions) (now_ms : Z) :
    M Inner StoreError (list PlatformEventDelivery) := λ inner,
  match normalize_consumer_name consumer with
  | Err e => (Err e, inner)
  | Ok name =>
      let now_iso := iso_from_epoch_ms now_ms in
      let cutoff := default now_iso (co_available_at options) in
      let batch_size := Z.to_nat (clamp_batch_size (co_batch_size options)) in
      let state := default ∅ (deliveries inner !! name) in
      let state :=
        foldl (λ st e, or_insert st (pe_id e) (fresh_delivery (pe_accepted_at e)))
          state (events inner) in
      let '(state, out) := claim_loop batch_size cutoff now_iso name (events inner) state [] in
      (Ok out, set_deliveries (<[name := state]> (deliveries inner)) inner)
  end.

(** [deliveries.get_mut(&name).and_then(|state| state.get_mut(event_id))] guarded
    by [matches_attempt]. *)
Definition with_delivery (f : DeliveryState → DeliveryState) (name event_id : string)
    (a : PlatformEventDeliveryAttempt) (inner : Inner) : Inner :=
  match deliveries inner !! name with
  | None => inner
  | Some state =>
      match state !! event_id with
      | None => inner
      | Some delivery =>
          if matches_attempt delivery a
          then set_deliveries (<[name := <[event_id := f delivery]> state]> (deliveries inner)) inner
          else inner
      end
  end.

Definition ack (consumer event_id : string) (a : PlatformEventDeliveryAttempt) (_now_ms : Z) :
    M Inner StoreError unit := λ inner,
  match normalize_consumer_name consumer with
  | Err e => (Err e, inner)
  | Ok name =>
      (Ok tt, with_delivery (λ d, {| status := Acked; attempt := attempt d;
                available_at := available_at d; claimed_at := claimed_at d;
                last_error := last_error d |}) name event_id a inner)
  end.

Definition retry (consumer event_id : string) (a : PlatformEventDeliveryAttempt) (error : string)
    (available : option string) (now_ms : Z) : M Inner StoreError unit := λ inner,
  match normalize_consumer_name consumer with
  | Err e => (Err e, inner)
  | Ok name =>
      let available := default (iso_from_epoch_ms now_ms) available in
      (Ok tt, with_delivery (λ d, {| status := Retry; attempt := attempt d;
                available_at := available; claimed_at := None; last_error := Some error |})
                name event_id a inner)
  end.

Definition dead_letter (consumer event_id : string) (a : PlatformEventDeliveryAttempt)
    (error : string) (_now_ms : Z) : M Inner StoreError unit := λ inner,
  match normalize_consumer_name consumer with
  | Err e => (Err e, inner)
  | Ok name =>
      (Ok tt, with_delivery (λ d, {| status := DeadLettered; attempt := attempt d;
                available_at := available_at d; claimed_at := claimed_at d;
                last_error := Some error |}) name event_id a inner)
  end.

Definition consumer_health (name : string) (ds : gmap string DeliveryState) :
    PlatformEventConsumerHealth :=
  let counts := count_deliveries (map_to_list ds).*2 in
  {| ch_name := name; ch_pending := pending counts; ch_claimed := claimed counts;
     ch_dead_lettered := dead_lettered counts; ch_lag := pending counts + claimed counts |}.

Definition health (inner : Inner) : PlatformEventHealth :=
  let consumers :=
    order_by name_le ((λ nd, consumer_health nd.1 nd.2) <$> map_to_list (deliveries inner)) in
  let tracked : gset string :=
    ⋃ ((λ nd, dom nd.2) <$> map_to_list (deliveries inner)) in
  let retained := Z.of_nat (length (events inner)) in
  {| ph_adapter := Memory; ph_ok := true; ph_pending := sum_of ch_pending consumers;
     ph_claimed := sum_of ch_claimed consumers;
     ph_dead_lettered := sum_of ch_dead_lettered consumers; ph_retained := retained;
     ph_unclaimed := Z.max (retained - Z.of_nat (size tracked)) 0; ph_consumers := consumers |}.

(** [forget]: every trace of the dropped events. *)
Definition forget (inner : Inner) (event_ids : list string) : Inner :=
  match event_ids with
  | [] => inner
  | _ =>
      {| events := events inner;
         idempotency := filter (λ ke, pe_id ke.2 ∉ event_ids) (idempotency inner);
         accepted_at := foldl (λ m id, delete id m) (accepted_at inner) event_ids;
         deliveries := filter (λ kd, kd.1 ∉ event_ids) <$> deliveries inner;
         sequence := sequence inner |}
  end.

Definition set_events (es : list PlatformEventEnvelope) (s : Inner) : Inner :=
  {| events := es; idempotency := idempotency s; accepted_at := accepted_at s;
     deliveries := deliveries s; sequence := sequence s |}.

Definition prune (now_ms : Z) : M Inner StoreError PlatformEventsPruneResult := λ inner,
  let cutoff_iso := iso_from_epoch_ms (i64_sub now_ms retention_ms) in
  let old e := Str.ltb (pe_occurred_at e) cutoff_iso in
  let dropped := pe_id <$> select old (events inner) in
  let inner := forget (set_events (delete_where old (events inner)) inner) dropped in
  let max_rows := Z.to_nat (Z.max max_rows 0) in
  let overflow := (length (events inner) - max_rows)%nat in
  let '(removed, inner) :=
    if (0 <? overflow)%nat
    then let removed := pe_id <$> take overflow (events inner) in
         (removed, forget (set_events (drop overflow (events inner)) inner) removed)
    else ([], inner) in
  (Ok {| pruned_by_age := Z.of_nat (length dropped); pruned_by_cap := Z.of_nat (length removed) |},
   inner).
End Memory.
End Mem.

Definition memory_driver `{SerdeJson} (retention_ms max_rows : Z) :
    PlatformEventsDriver Mem.Inner := {|
  adapter := Memory; publish := Mem.publish; claim := Mem.claim; ack := Mem.ack;
  retry := Mem.retry; dead_letter := Mem.dead_letter; health := Mem.health;
  prune := Mem.prune retention_ms max_rows;
|}.

(** ** The durable driver *)

Module Sql.
Record DeliveryRow : Type := {
  status : string; attempt_count : Z; available_at : string; claimed_at : option string;
  acked_at : option string; dead_lettered_at : option string; last_error : option string;
}.

(** The columns of [platform_events]; JSON columns are text. *)
Record EventRow : Type := {
  id : Z; event_id : string; schema_version : Z; accepted_at : string; occurred_at : string;
  family : string; name : string; source : string; tenant_id : option string;
  account_id : option string; subject_id : option string; trace_id : option string;
  idempotency_key : option string; payload : string; attributes : string;
}.

(** The tables with the [AUTOINCREMENT] counter; deliveries by primary key. *)
Record Tables : Type := {
  platform_events : list EventRow;
  autoincrement : Z;
  platform_event_deliveries : gmap (string * string) DeliveryRow;
}.
Definition empty_tables : Tables :=
  {| platform_events := []; autoincrement := 0; platform_event_deliveries := ∅ |}.

Definition id_le (a b : EventRow) : bool := id a <=? id b.

Definition receipt_from_row (row : EventRow) (duplicate : bool) : PlatformEventPublishReceipt :=
  {| pr_id := event_id row; pr_sequence := id row; pr_accepted_at := accepted_at row;
     pr_duplicate := duplicate |}.

Definition with_tables (es : list EventRow) (ds : gmap (string * string) DeliveryRow) (t : Tables) :
    Tables :=
  {| platform_events := es; autoincrement := autoincrement t; platform_event_deliveries := ds |}.

(** [WHERE idempotency_key = ? AND tenant_id IS NULL], or [tenant_id = ?]. *)
Definition find_by_idempotency_key (t : Tables) (tenant : option string) (key : string) :
    option EventRow :=
  match tenant with
  | None =>
      List.find (λ r, bool_decide (idempotency_key r = Some key) && bool_decide (tenant_id r = None))
        (platform_events t)
  | Some tenant =>
      List.find (λ r, bool_decide (idempotency_key r = Some key)
                      && bool_decide (tenant_id r = Some tenant)) (platform_events t)
  end.

(** [event_id UNIQUE] and the unique index on
    [(ifnull(tenant_id, ''), idempotency_key)]. *)
Definition violates (row r : EventRow) : bool :=
  String.eqb (event_id r) (event_id row)
  || (bool_decide (is_Some (idempotency_key row))
      && bool_decide (idempotency_key r = idempotency_key row)
      && String.eqb (default "" (tenant_id r)) (default "" (tenant_id row))).

Section Sqlite.
Context `{SerdeJson} (constraint_failed : string).
Context (retention_ms max_rows claim_timeout_ms : Z).

Definition envelope_from_row (row : EventRow) : PlatformEventEnvelope :=
  {| pe_id := event_id row; pe_schema_version := schema_version row; pe_sequence := id row;
     pe_accepted_at := accepted_at row; pe_occurred_at := occurred_at row; pe_family := family row;
     pe_name := name row; pe_source := source row; pe_tenant_id := tenant_id row;
     pe_account_id := account_id row; pe_subject_id := subject_id row; pe_trace_id := trace_id row;
     pe_idempotency_key := idempotency_key row; pe_payload := decode_json_object (Some (payload row));
     pe_attributes := decode_json_object (Some (attributes row)) |}.

(** [INSERT INTO platform_events .. RETURNING id]. *)
Definition insert_event (row : Z → EventRow) : M Tables StoreError Z := λ t,
  let new_id := autoincrement t + 1 in
  if existsb (violates (row new_id)) (platform_events t)
  then (Err (Driver constraint_failed), t)
  else (Ok new_id,
        {| platform_events := platform_events t ++ [row new_id]; autoincrement := new_id;
           platform_event_deliveries := platform_event_deliveries t |}).

Definition publish (input : PlatformEventInput) (event_id : string) (now_ms : Z) :
    M Tables StoreError PlatformEventPublishReceipt := λ t,
  let now_iso := iso_from_epoch_ms now_ms in
  match normalized input now_iso with
  | Err e => (Err e, t)
  | Ok n =>
      let find t := key ← pn_idempotency_key n; find_by_idempotency_key t (pn_tenant_id n) key in
      match find t with
      | Some existing => (Ok (receipt_from_row existing true), t)
      | None =>
          let row id :=
            {| id := id; event_id := event_id; schema_version := pn_schema_version n;
               accepted_at := now_iso; occurred_at := pn_occurred_at n; family := pn_family n;
               name := pn_name n; source := pn_source n; tenant_id := pn_tenant_id n;
               account_id := pn_account_id n; subject_id := pn_subject_id n;
               trace_id := pn_trace_id n; idempotency_key := pn_idempotency_key n;
               payload := encode_json_object (pn_payload n);
               attributes := encode_json_object (pn_attributes n) |} in
          match insert_event row t with
          | (Ok sequence, t') =>
              (Ok {| pr_id := event_id; pr_sequence := sequence; pr_accepted_at := now_iso;
                     pr_duplicate := false |}, t')
          | (Err error, t') =>
              match find t' with
              | Some existing => (Ok (receipt_from_row existing true), t')
              | None => (Err error, t')
              end
          end
      end
  end.

(** [(status IN ('pending', 'retry') AND available_at <= ?) OR (status =
    'claimed' AND (claimed_at IS NULL OR claimed_at <= ?))]. *)
Definition eligible (cutoff stale_claimed_before : string) (d : DeliveryRow) : bool :=
  ((String.eqb (status d) "pending" || String.eqb (status d) "retry")
   && Str.leb (available_at d) cutoff)
  || (String.eqb (status d) "claimed"
      && match claimed_at d with None => true | Some c => Str.leb c stale_claimed_before end).

Definition set_claimed (now_iso : string) (d : DeliveryRow) : DeliveryRow :=
  {| status := "claimed"; attempt_count := attempt_count d + 1; available_at := available_at d;
     claimed_at := Some now_iso; acked_at := acked_at d; dead_lettered_at := dead_lettered_at d;
     last_error := last_error d |}.

(** [platform_events e JOIN platform_event_deliveries d] of one consumer, by [e.id]. *)
Definition join_consumer (consumer : string) (t : Tables) : list (EventRow * DeliveryRow) :=
  omap (λ e, d ← platform_event_deliveries t !! (consumer, event_id e); Some (e, d))
    (order_by id_le (platform_events t)).

(** [INSERT .. SELECT ?, event_id, 'pending', 0, accepted_at .. ON CONFLICT DO
    NOTHING]. *)
Definition materialize (consumer : string) (t : Tables) : Tables :=
  with_tables (platform_events t)
    (foldl (λ m e, or_insert m (consumer, event_id e)
              {| status := "pending"; attempt_count := 0; available_at := accepted_at e;
                 claimed_at := None; acked_at := None; dead_lettered_at := None;
                 last_error := None |})
       (platform_event_deliveries t) (platform_events t)) t.

Definition claim_in_tx (consumer cutoff now_iso stale_claimed_before : string) (batch_size : Z) :
    M Tables StoreError (list PlatformEventDelivery) := λ t,
  let t := materialize consumer t in
  let selected :=
    take (Z.to_nat batch_size)
      (List.filter (λ ed, eligible cutoff stale_claimed_before ed.2) (join_consumer consumer t)) in
  let event_ids := (λ ed, event_id ed.1) <$> selected in
  match event_ids with
  | [] => (Ok [], t)
  | _ =>
      let t :=
        with_tables (platform_events t)
          (map_imap (λ k d, Some (if bool_decide (k.1 = consumer ∧ k.2 ∈ event_ids)
                                  then set_claimed now_iso d else d))
             (platform_event_deliveries t)) t in
      let rows := List.filter (λ ed, bool_decide (event_id ed.1 ∈ event_ids))
                    (join_consumer consumer t) in
      (Ok ((λ ed, {| pd_event := envelope_from_row ed.1; pd_consumer := consumer;
                     pd_attempt := attempt_count ed.2;
                     pd_claimed_at := default now_iso (claimed_at ed.2) |}) <$> rows), t)
  end.

Definition claim (consumer : string) (options : PlatformEventClaimOptions) (now_ms : Z) :
    M Tables StoreError (list PlatformEventDelivery) := λ t,
  match normalize_consumer_name consumer with
  | Err e => (Err e, t)
  | Ok name =>
      let now_iso := iso_from_epoch_ms now_ms in
      transaction
        (claim_in_tx name (default now_iso (co_available_at options)) now_iso
           (iso_from_epoch_ms (i64_sub now_ms claim_timeout_ms))
           (clamp_batch_size (co_batch_size options))) t
  end.

(** [UPDATE .. WHERE consumer = ? AND event_id = ? AND status = 'claimed' AND
    attempt_count = ? AND claimed_at = ?]. *)
Definition update_claimed (f : DeliveryRow → DeliveryRow) (consumer event_id : string)
    (a : PlatformEventDeliveryAttempt) (t : Tables) : Tables :=
  with_tables (platform_events t)
    (alter (λ d, if String.eqb (status d) "claimed" && (attempt_count d =? at_attempt a)
                    && bool_decide (claimed_at d = Some (at_claimed_at a)) then f d else d)
       (consumer, event_id) (platform_event_deliveries t)) t.

Definition ack (consumer event_id : string) (a : PlatformEventDeliveryAttempt) (now_ms : Z) :
    M Tables StoreError unit := λ t,
  match normalize_consumer_name consumer with
  | Err e => (Err e, t)
  | Ok name =>
      (Ok tt, update_claimed (λ d,
         {| status := "acked"; attempt_count := attempt_count d; available_at := available_at d;
            claimed_at := claimed_at d; acked_at := Some (iso_from_epoch_ms now_ms);
            dead_lettered_at := dead_lettered_at d; last_error := last_error d |})
         name event_id a t)
  end.

Definition retry (consumer event_id : string) (a : PlatformEventDeliveryAttempt) (error : string)
    (available : option string) (now_ms : Z) : M Tables StoreError unit := λ t,
  match normalize_consumer_name consumer with
  | Err e => (Err e, t)
  | Ok name =>
      let available := default (iso_from_epoch_ms now_ms) available in
      (Ok tt, update_claimed (λ d,
         {| status := "retry"; attempt_count := attempt_count d; available_at := available;
            claimed_at := None; acked_at := acked_at d; dead_lettered_at := dead_lettered_at d;
            last_error := Some error |}) name event_id a t)
  end.

Definition dead_letter (consumer event_id : string) (a : PlatformEventDeliveryAttempt)
    (error : string) (now_ms : Z) : M Tables StoreError unit := λ t,
  match normalize_consumer_name consumer with
  | Err e => (Err e, t)
  | Ok name =>
      (Ok tt, update_claimed (λ d,
         {| status := "dead_lettered"; attempt_count := attempt_count d;
            available_at := available_at d; claimed_at := claimed_at d; acked_at := acked_at d;
            dead_lettered_at := Some (iso_from_epoch_ms now_ms); last_error := Some error |})
         name event_id a t)
  end.

(** [SUM(CASE WHEN status IN (..) THEN 1 ELSE 0 END)]. *)
Definition sum_status (statuses : list string) (ds : list DeliveryRow) : Z :=
  changes (λ d, bool_decide (status d ∈ statuses)) ds.

Definition group_health (consumer : string) (ds : list DeliveryRow) : PlatformEventConsumerHealth :=
  let pending := sum_status ["pending"; "retry"] ds in
  let claimed := sum_status ["claimed"] ds in
  {| ch_name := consumer; ch_pending := pending; ch_claimed := claimed;
     ch_dead_lettered := sum_status ["dead_lettered"] ds; ch_lag := pending + claimed |}.

Definition health (t : Tables) : PlatformEventHealth :=
  let rows := map_to_list (platform_event_deliveries t) in
  let all := rows.*2 in
  let tracked e := existsb (λ kd : string * string * DeliveryRow, String.eqb kd.1.2 (event_id e)) rows in
  (* GROUP BY consumer ORDER BY consumer ASC *)
  let groups := order_by Str.leb (remove_dups (rows.*1.*1)) in
  {| ph_adapter := Sqlite; ph_ok := true;
     ph_pending := sum_status ["pending"; "retry"] all;
     ph_claimed := sum_status ["claimed"] all;
     ph_dead_lettered := sum_status ["dead_lettered"] all;
     ph_retained := Z.of_nat (length (platform_events t));
     ph_unclaimed := changes (λ e, negb (tracked e)) (platform_events t);
     ph_consumers :=
       (λ c, group_health c
               (select (λ kd : string * string * DeliveryRow, String.eqb kd.1.1 c) rows).*2)
       <$> groups |}.

(** [DELETE FROM platform_event_deliveries WHERE event_id IN (..)]. *)
Definition drop_deliveries (ids : list string) (t : Tables) : Tables :=
  with_tables (platform_events t)
    (filter (λ kd, kd.1.2 ∉ ids) (platform_event_deliveries t)) t.

Definition prune_in_tx (cutoff_iso : string) (max_rows : Z) :
    M Tables StoreError PlatformEventsPruneResult := λ t,
  let old e := Str.ltb (occurred_at e) cutoff_iso in
  let t1 := drop_deliveries (event_id <$> select old (platform_events t)) t in
  let pruned_by_age := changes old (platform_events t1) in
  let t2 := with_tables (delete_where old (platform_events t1)) (platform_event_deliveries t1) t1 in
  let remaining := Z.of_nat (length (platform_events t2)) in
  let overflow := remaining - max_rows in
  if 0 <? overflow then
    let oldest t := event_id <$> take (Z.to_nat overflow) (order_by id_le (platform_events t)) in
    let t3 := drop_deliveries (oldest t2) t2 in
    let is_oldest e := bool_decide (event_id e ∈ oldest t3) in
    (Ok {| pruned_by_age := pruned_by_age;
           pruned_by_cap := changes is_oldest (platform_events t3) |},
     with_tables (delete_where is_oldest (platform_events t3)) (platform_event_deliveries t3) t3)
  else (Ok {| pruned_by_age := pruned_by_age; pruned_by_cap := 0 |}, t2).

Definition prune (now_ms : Z) : M Tables StoreError PlatformEventsPruneResult :=
  transaction (prune_in_tx (iso_from_epoch_ms (i64_sub now_ms retention_ms)) max_rows).
End Sqlite.
End Sql.

Definition sqlite_driver `{SerdeJson} (constraint_failed : string)
    (retention_ms max_rows claim_timeout_ms : Z) : PlatformEventsDriver Sql.Tables := {|
  adapter := Sqlite; publish := Sql.publish constraint_failed;
  claim := Sql.claim claim_timeout_ms; ack := Sql.ack; retry := Sql.retry;
  dead_letter := Sql.dead_letter; health := Sql.health;
  prune := Sql.prune retention_ms max_rows;
|}.

(** ** Scope keys *)

Lemma string_app_sep (a b k l : string) :
  0 ∉ Str.bytes a → 0 ∉ Str.bytes b → a +:+ String zero k = b +:+ String zero l → a = b ∧ k = l.
Proof.
  revert b. induction a as [|c a IH]; intros [|d b]; simpl; rewrite ?not_elem_of_cons.
  - by intros _ _ [= ->].
  - intros _ [Hd _] [= <- _]. by destruct Hd.
  - intros [Hc _] _ [= -> _]. by destruct Hc.
  - intros [_ Ha] [_ Hb] [= -> Heq]. by destruct (IH b Ha Hb Heq) as [-> ->].
Qed.

Lemma tenant_ok_default t : tenant_ok t → 0 ∉ Str.bytes (default "" t).
Proof. destruct t as [t|]; simpl; [intros Ht; by destruct (Ht t eq_refl)|set_solver]. Qed.

Lemma tenant_ok_inj a b : tenant_ok a → tenant_ok b → default "" a = default "" b → a = b.
Proof.
  destruct a as [a|], b as [b|]; simpl; intros Ha Hb Heq; subst; try done.
  - by destruct (Ha "" eq_refl).
  - by destruct (Hb "" eq_refl).
Qed.

Lemma scope_inj a b k l :
  tenant_ok a → tenant_ok b → idempotency_scope a k = idempotency_scope b l →
  default "" a = default "" b ∧ k = l.
Proof. intros Ha Hb. apply string_app_sep; by apply tenant_ok_default. Qed.

(** The first of a sublist, when at most one element qualifies. *)
Lemma find_unique {A} (f : A → bool) l x :
  x ∈ l → f x = true → (∀ y, y ∈ l → f y = true → y = x) → List.find f l = Some x.
Proof.
  intros Hx Hf Hu. destruct (List.find f l) as [y|] eqn:E.
  - apply find_some in E as [Hy Hfy]. f_equal. apply Hu; [by apply list_elem_of_In|done].
  - apply find_None_all with (x := x) in E; [congruence|done].
Qed.

Lemma find_sublist {A} (f : A → bool) (l k : list A) :
  sublist l k → (∀ x y, x ∈ k → y ∈ k → f x = true → f y = true → x = y) →
  ∀ o, List.find f k = o →
  (∀ x, o = Some x → x ∈ l → List.find f l = Some x)
  ∧ ((∀ x, o = Some x → x ∉ l) → List.find f l = None).
Proof.
  intros Hs Hu o <-. split.
  - intros x Hx Hl. apply find_some in Hx as [Hk Hf]. apply list_elem_of_In in Hk.
    apply find_unique; [done..|]. intros y Hy Hfy. apply Hu; try done. by eapply sublist_in.
  - intros Hno. destruct (List.find f l) as [x|] eqn:E; [|done].
    apply find_some in E as [Hl Hf]. apply list_elem_of_In in Hl.
    destruct (Hno x); [|done]. apply find_unique; [by eapply sublist_in|done|].
    intros y Hy Hfy. apply Hu; try done. by eapply sublist_in.
Qed.

Lemma find_snoc {A} (f : A → bool) l x :
  List.find f (l ++ [x])
  = match List.find f l with Some y => Some y | None => if f x then Some x else None end.
Proof. induction l as [|y l IH]; simpl; [done|]. by destruct (f y). Qed.

(** ** The in-process driver implements the pipeline *)

Section MemorySimulation.
Context `{SerdeJson} (retention_ms max_rows : Z).

Definition mem_delivery (d : Mem.DeliveryState) : Delivery :=
  {| dl_status := Mem.status d; dl_attempt := Mem.attempt d; dl_available_at := Mem.available_at d;
     dl_claimed_at := Mem.claimed_at d |}.

Definition mem_lookup (s : Mem.Inner) (c i : string) : option Mem.DeliveryState :=
  Mem.deliveries s !! c ≫= (λ st, st !! i).

Record mem_rel (p : Pipeline) (s : Mem.Inner) : Prop := {
  mr_events : Mem.events s = pl_events p;
  mr_sequence : Mem.sequence s = pl_sequence p;
  mr_deliveries : ∀ c i, mem_delivery <$> mem_lookup s c i = pl_deliveries p !! (c, i);
  mr_idempotency : ∀ t k, tenant_ok t →
    Mem.idempotency s !! idempotency_scope t k = List.find (same_scope t k) (pl_events p);
  mr_accepted : ∀ e, e ∈ pl_events p → Mem.accepted_at s !! pe_id e = Some (pe_accepted_at e);
}.

Lemma mem_rel_init : mem_rel empty_pipeline Mem.Inner_default.
Proof using Type. split; simpl; try done; set_solver. Qed.

(** Publishing a new event: the scope map keeps the first event of each scope. *)
Lemma idempotency_push (idem : gmap string PlatformEventEnvelope) es e :
  tenant_ok (pe_tenant_id e) →
  (∀ k, pe_idempotency_key e = Some k → List.find (same_scope (pe_tenant_id e) k) es = None) →
  (∀ t k, tenant_ok t → idem !! idempotency_scope t k = List.find (same_scope t k) es) →
  ∀ t k, tenant_ok t →
    match pe_idempotency_key e with
    | Some key => <[idempotency_scope (pe_tenant_id e) key := e]> idem
    | None => idem
    end !! idempotency_scope t k
    = List.find (same_scope t k) (es ++ [e]).
Proof using Type.
  intros Hte Hnew Hidem t k Ht. rewrite find_snoc.
  destruct (pe_idempotency_key e) as [key|] eqn:Ek.
  - destruct (decide (idempotency_scope t k = idempotency_scope (pe_tenant_id e) key)) as [Heq|Hne].
    + rewrite Heq, lookup_insert_eq. apply scope_inj in Heq as [Hd ->]; [|done..].
      specialize (Hnew key eq_refl). rewrite find_None_all in Hnew.
      assert (List.find (same_scope t key) es = None) as ->.
      { apply find_None_all. intros x Hx. rewrite <- (Hnew x Hx). unfold same_scope. by rewrite Hd. }
      unfold same_scope. by rewrite !bool_decide_true.
    + rewrite lookup_insert_ne by done. rewrite Hidem by done. destruct (List.find _ _); [done|].
      destruct (same_scope t k e) eqn:Es; [|done]. unfold same_scope in Es.
      apply andb_true_iff in Es as [E1%bool_decide_eq_true E2%bool_decide_eq_true].
      destruct Hne. unfold idempotency_scope. rewrite E1. congruence.
  - rewrite Hidem by done. destruct (List.find _ _); [done|].
    unfold same_scope. by rewrite Ek, (bool_decide_false (None = Some k)), andb_false_r.
Qed.

Lemma mem_publish used p s input id now r p' :
  pipeline_wf p → ids_in used p → call_ok used (CPublish input id now) → mem_rel p s →
  spec_publish input id now p = (r, p') →
  ∃ s', Mem.publish input id now s = (r, s') ∧ mem_rel p' s'.
Proof using Type.
  intros Hwf Hids Hok [He Hq Hd Hi Ha]. unfold spec_publish, Mem.publish.
  destruct (normalized input _) as [n|] eqn:En; [|intros [= <- <-]; eexists; by split].
  destruct (normalized_fields _ _ _ En) as (Ht & _ & _ & _). destruct Hok as (Hf & Ot & _ & _).
  rewrite <- Ht in Ot.
  assert (Hdup : (key ← pn_idempotency_key n;
      existing ← Mem.idempotency s !! idempotency_scope (pn_tenant_id n) key;
      Some {| pr_id := pe_id existing; pr_sequence := pe_sequence existing;
              pr_accepted_at := default (iso_from_epoch_ms now) (Mem.accepted_at s !! pe_id existing);
              pr_duplicate := true |}) = (λ e, receipt e true) <$> existing n p).
  { unfold existing. destruct (pn_idempotency_key n) as [key|]; [|done]. cbn [mbind option_bind].
    rewrite Hi by done. destruct (List.find _ _) as [e|] eqn:Ef; [|done]. cbn [mbind option_bind].
    apply find_some in Ef as [Hin _]. apply list_elem_of_In in Hin. by rewrite Ha. }
  rewrite Hdup. destruct (existing n p) as [e|] eqn:Ex; simpl; [intros [= <- <-]; eexists; by split|].
  intros [= <- <-]. eexists. split; [by rewrite Hq|].
  split; cbn [Mem.events Mem.sequence Mem.idempotency Mem.accepted_at pl_events pl_sequence
              pl_deliveries]; rewrite ?He, ?Hq; try done.
  - apply (idempotency_push _ _ (envelope id (pl_sequence p + 1) (iso_from_epoch_ms now) n)); [done| |done].
    simpl. intros k Hk. unfold existing in Ex. by rewrite Hk in Ex.
  - intros e. rewrite elem_of_app, list_elem_of_singleton. intros [Hin| ->]; simpl.
    + rewrite lookup_insert_ne; [by apply Ha|]. intros Heq. apply Hf, Hids.
      rewrite Heq. by apply list_elem_of_fmap_2.
    + by rewrite lookup_insert_eq.
Qed.

(** The claim loop takes, in order, the claimable events of the batch. *)
Definition mem_claimable (cutoff : string) (st : gmap string Mem.DeliveryState)
    (e : PlatformEventEnvelope) : bool :=
  match st !! pe_id e with
  | Some d => match Mem.status d with
              | Pending | Retry => Str.leb (Mem.available_at d) cutoff
              | _ => false
              end
  | None => false
  end.
Definition mem_claimed (now_iso : string) (d : Mem.DeliveryState) : Mem.DeliveryState :=
  {| Mem.status := Claimed; Mem.attempt := Mem.attempt d + 1; Mem.available_at := Mem.available_at d;
     Mem.claimed_at := Some now_iso; Mem.last_error := Mem.last_error d |}.
Definition mem_hand_out (st : gmap string Mem.DeliveryState) (name now_iso : string)
    (e : PlatformEventEnvelope) : PlatformEventDelivery :=
  {| pd_event := e; pd_consumer := name;
     pd_attempt := default 0 (Mem.attempt <$> st !! pe_id e) + 1; pd_claimed_at := now_iso |}.

Lemma claim_loop_spec batch cutoff iso name es st out :
  NoDup (pe_id <$> es) →
  let sel := take (batch - length out) (List.filter (mem_claimable cutoff st) es) in
  Mem.claim_loop batch cutoff iso name es st out
  = (foldl (λ m e, alter (mem_claimed iso) (pe_id e) m) st sel,
     out ++ (mem_hand_out st name iso <$> sel)).
Proof using Type.
  revert st out. induction es as [|e es IH]; intros st out; simpl.
  { intros _. by rewrite take_nil, app_nil_r. }
  rewrite NoDup_cons. intros [Hn Hnd].
  destruct (Nat.leb_spec batch (length out)) as [Hle|Hgt].
  { replace (batch - length out)%nat with 0%nat by lia. simpl. by rewrite app_nil_r. }
  destruct (mem_claimable cutoff st e) eqn:Ec; unfold mem_claimable in Ec;
    (destruct (st !! pe_id e) as [d|] eqn:Ed; [rewrite Ec; simpl|try done; by apply IH]);
    [|by apply IH].
  set (d' := {| Mem.status := Claimed; Mem.attempt := _; Mem.available_at := _;
                Mem.claimed_at := _; Mem.last_error := _ |}).
  rewrite IH by done. rewrite length_app. simpl.
  assert (Hext : ∀ x, x ∈ es → <[pe_id e := d']> st !! pe_id x = st !! pe_id x).
  { intros x Hx. rewrite lookup_insert_ne; [done|]. intros Heq. apply Hn. rewrite Heq.
    by apply list_elem_of_fmap_2. }
  assert (List.filter (mem_claimable cutoff (<[pe_id e := d']> st)) es
          = List.filter (mem_claimable cutoff st) es) as ->.
  { apply filter_ext_in. intros x Hx%list_elem_of_In. unfold mem_claimable. by rewrite Hext. }
  destruct (batch - length out)%nat as [|m] eqn:Em; [lia|].
  replace (batch - (length out + 1))%nat with m by lia. simpl. f_equal.
  - f_equal. apply map_eq. intros i. destruct (decide (i = pe_id e)) as [->|Hi].
    + by rewrite lookup_insert_eq, lookup_alter_eq, Ed.
    + by rewrite lookup_insert_ne, lookup_alter_ne.
  - rewrite <- app_assoc. f_equal. simpl. f_equal.
    + unfold mem_hand_out. by rewrite Ed.
    + apply list_fmap_ext. intros ? x Hx%list_elem_of_lookup_2. unfold mem_hand_out. rewrite Hext; [done|].
      apply (sublist_in _ _ _ (take_sublist _ _)) in Hx.
      by apply list_elem_of_In, filter_In in Hx as [Hx%list_elem_of_In _].
Qed.

Lemma mem_backfill (name : string) (es : list PlatformEventEnvelope) (st : gmap string Mem.DeliveryState) (ds : gmap (string * string) Delivery) :
  (∀ i, mem_delivery <$> st !! i = ds !! (name, i)) →
  ∀ i, mem_delivery <$>
         foldl (λ st e, or_insert st (pe_id e) (Mem.fresh_delivery (pe_accepted_at e))) st es !! i
       = backfill name es ds !! (name, i).
Proof using Type.
  unfold backfill. revert st ds. induction es as [|e es IH]; intros st ds Hr; [done|]. simpl.
  apply IH. intros i. rewrite !or_insert_lookup, <- Hr.
  destruct (decide (i = pe_id e)) as [->|Hne].
  - rewrite decide_True by done. by destruct (st !! pe_id e).
  - rewrite decide_False by congruence. apply Hr.
Qed.

Lemma mem_mark (name : string) (now : Z) (es : list PlatformEventEnvelope) (st : gmap string Mem.DeliveryState) (ds : gmap (string * string) Delivery) :
  (∀ i, mem_delivery <$> st !! i = ds !! (name, i)) →
  ∀ i, mem_delivery <$>
         foldl (λ m e, alter (mem_claimed (iso_from_epoch_ms now)) (pe_id e) m) st es !! i
       = mark name now es ds !! (name, i).
Proof using Type.
  unfold mark. revert st ds. induction es as [|e es IH]; intros st ds Hr; [done|]. simpl.
  apply IH. intros i. destruct (decide (i = pe_id e)) as [->|Hne].
  - rewrite !lookup_alter_eq, <- Hr. by destruct (st !! pe_id e).
  - rewrite !lookup_alter_ne by congruence. apply Hr.
Qed.

Lemma mem_claim p s consumer options now r p' :
  pipeline_wf p → mem_rel p s → spec_claim None consumer options now p = (r, p') →
  ∃ s', Mem.claim consumer options now s = (r, s') ∧ mem_rel p' s'.
Proof using Type.
  intros Hwf Hrel. unfold spec_claim, Mem.claim.
  destruct (normalize_consumer_name consumer) as [name|]; [|intros [= <- <-]; by eexists].
  intros [= <- <-]. destruct Hrel as [He Hq Hd Hi Ha]. rewrite He.
  set (st0 := default ∅ (Mem.deliveries s !! name)).
  assert (Hst0 : ∀ i, mem_delivery <$> st0 !! i = pl_deliveries p !! (name, i)).
  { intros i. rewrite <- Hd. unfold mem_lookup, st0. by destruct (Mem.deliveries s !! name). }
  pose proof (mem_backfill name (pl_events p) st0 (pl_deliveries p) Hst0) as Hst1.
  set (st1 := foldl (λ st e, or_insert st _ _) st0 (pl_events p)) in *.
  pose proof (pw_ids p Hwf) as Hnd.
  assert (Hdel : ∀ e, e ∈ pl_events p →
            ∃ d, st1 !! pe_id e = Some d ∧ mem_delivery d = delivery_of (pl_deliveries p) name e).
  { intros e Hin. pose proof (Hst1 (pe_id e)) as Hs. rewrite backfill_in in Hs by done.
    destruct (st1 !! pe_id e) as [d|]; [|done]. injection Hs as Hs. eauto. }
  rewrite claim_loop_spec by done. simpl length. rewrite Nat.sub_0_r.
  assert (Hsel : take (Z.to_nat (clamp_batch_size (co_batch_size options)))
    (List.filter (mem_claimable (default (iso_from_epoch_ms now) (co_available_at options)) st1)
       (pl_events p)) = chosen None p name options now).
  { unfold chosen. f_equal. apply filter_ext_in. intros e Hin%list_elem_of_In.
    destruct (Hdel e Hin) as (d & Hl & Hde). unfold mem_claimable, is_claimable, claimable.
    rewrite Hl, <- Hde. by destruct d as [[] ? ? ? ?]. }
  rewrite Hsel. eexists. split; [do 2 f_equal|].
  - apply list_fmap_ext. intros ? e Hin%list_elem_of_lookup_2.
    apply (sublist_in _ _ _ (chosen_sublist _ _ _ _ _)) in Hin.
    destruct (Hdel e Hin) as (d & Hl & Hde). unfold mem_hand_out, hand_out. by rewrite Hl, <- Hde.
  - split; cbn [Mem.events Mem.sequence Mem.idempotency Mem.accepted_at pl_events pl_sequence
              pl_deliveries Mem.set_deliveries]; try done.
    intros c i. unfold mem_lookup. simpl. destruct (decide (c = name)) as [->|Hne].
    + rewrite lookup_insert_eq. simpl. by apply mem_mark.
    + rewrite lookup_insert_ne by done. rewrite mark_out, backfill_out by auto. apply Hd.
Qed.

(** Settling: one guarded update of one delivery. *)
Lemma mem_settle p s f g name id a :
  mem_rel p s → (∀ d, mem_delivery (f d) = g (mem_delivery d)) →
  mem_rel {| pl_events := pl_events p; pl_sequence := pl_sequence p;
             pl_deliveries := alter (λ d, if is_attempt a d then g d else d) (name, id)
                                (pl_deliveries p) |}
          (Mem.with_delivery f name id a s).
Proof using Type.
  intros Hrel Hfg. destruct Hrel as [He Hq Hd Hi Ha]. unfold Mem.with_delivery.
  assert (Hm : ∀ d, Mem.matches_attempt d a = is_attempt a (mem_delivery d)).
  { intros d. unfold Mem.matches_attempt, is_attempt. simpl. do 2 f_equal.
    destruct (Z.eqb_spec (Mem.attempt d) (at_attempt a)); [by rewrite bool_decide_true|].
    by rewrite bool_decide_false. }
  pose proof (Hd name id) as Hl. unfold mem_lookup in Hl.
  destruct (Mem.deliveries s !! name) as [st|] eqn:Est; simpl in Hl;
    [destruct (st !! id) as [d|] eqn:Ed; simpl in Hl|].
  - rewrite Hm. destruct (is_attempt a (mem_delivery d)) eqn:Ea; split; try done.
    + intros c i. unfold mem_lookup. simpl. destruct (decide ((c, i) = (name, id))) as [[= -> ->]|Hne].
      * rewrite lookup_insert_eq. simpl. rewrite lookup_insert_eq, lookup_alter_eq, <- Hl. simpl.
        by rewrite Ea, Hfg.
      * rewrite lookup_alter_ne by done. rewrite <- Hd. unfold mem_lookup.
        destruct (decide (c = name)) as [->|Hc].
        -- rewrite lookup_insert_eq, Est. simpl. by rewrite lookup_insert_ne by congruence.
        -- by rewrite lookup_insert_ne.
    + intros c i. cbn [pl_deliveries]. destruct (decide ((c, i) = (name, id))) as [[= -> ->]|Hne].
      * rewrite lookup_alter_eq, Hd. rewrite <- Hl. simpl. by rewrite Ea.
      * by rewrite lookup_alter_ne.
  - split; try done. intros c i. cbn [pl_deliveries].
    destruct (decide ((c, i) = (name, id))) as [[= -> ->]|Hne]; [|by rewrite lookup_alter_ne].
    by rewrite lookup_alter_eq, Hd, <- Hl.
  - split; try done. intros c i. cbn [pl_deliveries].
    destruct (decide ((c, i) = (name, id))) as [[= -> ->]|Hne]; [|by rewrite lookup_alter_ne].
    by rewrite lookup_alter_eq, Hd, <- Hl.
Qed.

(** Forgetting twice is forgetting both. *)
Lemma forget_lookup s ids c i :
  mem_lookup (Mem.forget s ids) c i
  = if decide (i ∈ ids) then None else mem_lookup s c i.
Proof using Type.
  unfold mem_lookup. destruct ids as [|x ids]; [by rewrite decide_False by set_solver|]. simpl.
  rewrite lookup_fmap. destruct (Mem.deliveries s !! c) as [st|]; simpl; [|by case_decide].
  case_decide as Hi.
  - apply map_lookup_filter_None. right. intros d _. simpl. naive_solver.
  - destruct (st !! i) as [d|] eqn:Ed.
    + apply map_lookup_filter_Some. by split.
    + apply map_lookup_filter_None. by left.
Qed.

Lemma forget_events s ids : Mem.events (Mem.forget s ids) = Mem.events s.
Proof using Type. by destruct ids. Qed.
Lemma forget_sequence s ids : Mem.sequence (Mem.forget s ids) = Mem.sequence s.
Proof using Type. by destruct ids. Qed.

Lemma forget_accepted s ids i :
  i ∉ ids → Mem.accepted_at (Mem.forget s ids) !! i = Mem.accepted_at s !! i.
Proof using Type.
  intros Hi. assert (Hf : ∀ m : gmap string string, foldl (λ m id, delete id m) m ids !! i = m !! i).
  { clear s. induction ids as [|x ids IH]; intros m; simpl; [done|]. rewrite IH by set_solver.
    rewrite lookup_delete_ne; [done|]. set_solver. }
  destruct ids; [done|]. apply Hf.
Qed.

Lemma forget_idempotency s ids k :
  Mem.idempotency (Mem.forget s ids) !! k
  = (e ← Mem.idempotency s !! k; if decide (pe_id e ∈ ids) then None else Some e).
Proof using Type.
  destruct ids as [|x ids].
  { cbn [Mem.forget]. destruct (Mem.idempotency s !! k) as [e|]; [|done]. cbn [mbind option_bind].
    case_decide; [set_solver|done]. }
  simpl. destruct (Mem.idempotency s !! k) as [e|] eqn:Ee; simpl.
  - case_decide as He.
    + apply map_lookup_filter_None. right. intros d Hd. simpl. simplify_eq. naive_solver.
    + apply map_lookup_filter_Some. by split.
  - apply map_lookup_filter_None. by left.
Qed.

Lemma mem_sweep p s es' ids :
  pipeline_wf p → mem_rel p s → sweeps p es' ids →
  mem_rel (swept p es' ids) (Mem.forget (Mem.set_events es' s) ids).
Proof using Type.
  intros Hwf [He Hq Hd Hi Ha] [Hs Hids]. unfold swept.
  split; cbn [pl_events pl_sequence pl_deliveries].
  - by rewrite forget_events.
  - by rewrite forget_sequence.
  - intros c i. rewrite forget_lookup. specialize (Hd c i). unfold mem_lookup in *. simpl.
    case_decide as Hin.
    + symmetry. apply map_lookup_filter_None. right. intros x _. simpl. naive_solver.
    + rewrite Hd. destruct (pl_deliveries p !! (c, i)) as [x|] eqn:Ex; symmetry.
      * apply map_lookup_filter_Some. by split.
      * apply map_lookup_filter_None. by left.
  - intros t k Ht. rewrite forget_idempotency. simpl. rewrite Hi by done.
    destruct (find_sublist (same_scope t k) es' (pl_events p) Hs) with (o := List.find (same_scope t k) (pl_events p))
      as [Hsome Hnone]; [|done|].
    { intros x y Hx Hy Fx Fy. unfold same_scope in Fx, Fy.
      apply andb_true_iff in Fx as [Fx1%bool_decide_eq_true Fx2%bool_decide_eq_true],
        Fy as [Fy1%bool_decide_eq_true Fy2%bool_decide_eq_true].
      eapply (pw_scopes p Hwf); eauto. unfold same_scope. rewrite !bool_decide_true by congruence. done. }
    destruct (List.find (same_scope t k) (pl_events p)) as [e|] eqn:Ef; simpl.
    + apply find_some in Ef as [Hin%list_elem_of_In _]. case_decide as Hdec.
      * symmetry. apply Hnone. intros x [= <-]. rewrite Hids by done. naive_solver.
      * symmetry. apply Hsome; [done|]. by apply Hids.
    + symmetry. by apply Hnone.
  - intros e Hin. assert (e ∈ pl_events p) by by eapply sublist_in.
    rewrite forget_accepted by by apply Hids. by apply Ha.
Qed.

Lemma mem_prune p s now r p' :
  pipeline_wf p → mem_rel p s → spec_prune retention_ms max_rows now p = (r, p') →
  ∃ s', Mem.prune retention_ms max_rows now s = (r, s') ∧ mem_rel p' s'.
Proof using Type.
  intros Hwf Hrel Hp. pose proof (mr_events _ _ Hrel) as He.
  destruct (first_sweep retention_ms now p Hwf) as [Hs1 Hw1].
  pose proof (mem_sweep p s _ _ Hwf Hrel Hs1) as Hr1.
  pose proof (second_sweep retention_ms max_rows now p Hwf) as Hs2.
  pose proof (mem_sweep _ _ _ _ Hw1 Hr1 Hs2) as Hr2.
  rewrite (prune_is_two_sweeps retention_ms max_rows now p Hwf) in Hp. injection Hp as <- <-.
  unfold Mem.prune. rewrite He.
  change (λ e, Str.ltb (pe_occurred_at e) (iso_from_epoch_ms (i64_sub now retention_ms)))
    with (too_old retention_ms now).
  change (delete_where (too_old retention_ms now) (pl_events p)) with (recent retention_ms now p).
  rewrite forget_events. cbn [Mem.events Mem.set_events].
  replace (Z.to_nat (Z.max max_rows 0)) with (Z.to_nat max_rows) by lia.
  change (length (recent retention_ms now p) - Z.to_nat max_rows)%nat
    with (overflow retention_ms max_rows now p).
  unfold changes. rewrite length_fmap.
  destruct (Nat.ltb_spec 0 (overflow retention_ms max_rows now p)) as [Ho|Ho].
  - cbv beta iota zeta. rewrite length_fmap, length_take, Nat.min_l by (unfold overflow; lia).
    eexists. by split.
  - cbv beta iota zeta. assert (overflow retention_ms max_rows now p = 0)%nat as Ho0 by lia.
    eexists. split; [by rewrite Ho0|].
    unfold retained. rewrite Ho0. simpl. rewrite drop_0.
    pose proof (swept_nil (swept p (recent retention_ms now p)
      (pe_id <$> select (too_old retention_ms now) (pl_events p)))) as Hn.
    simpl in Hn. rewrite Hn. exact Hr1.
Qed.

Lemma memory_simulates :
  simulates (memory_driver retention_ms max_rows) None retention_ms max_rows mem_rel.
Proof using Type.
  intros used p s c r p' Hwf Hids Hok Hrel Hc.
  destruct c as [input id now|consumer options now|consumer id a now|consumer id a e av now
    |consumer id a e now|now]; simpl in Hc |- *.
  - destruct (spec_publish _ _ _ p) as [r1 p1] eqn:E. injection Hc as <- <-.
    destruct (mem_publish _ _ _ _ _ _ _ _ Hwf Hids Hok Hrel E) as (s' & -> & Hr). eauto.
  - destruct (spec_claim _ _ _ _ p) as [r1 p1] eqn:E. injection Hc as <- <-.
    destruct (mem_claim _ _ _ _ _ _ _ Hwf Hrel E) as (s' & -> & Hr). eauto.
  - unfold settle in Hc. unfold Mem.ack.
    destruct (normalize_consumer_name consumer); simplify_eq; eexists; (split; [done|]); [|done].
    by apply mem_settle.
  - unfold settle in Hc. unfold Mem.retry.
    destruct (normalize_consumer_name consumer); simplify_eq; eexists; (split; [done|]); [|done].
    by apply mem_settle.
  - unfold settle in Hc. unfold Mem.dead_letter.
    destruct (normalize_consumer_name consumer); simplify_eq; eexists; (split; [done|]); [|done].
    by apply mem_settle.
  - destruct (mem_prune p s now (Ok {| pruned_by_age := changes (too_old retention_ms now) (pl_events p);
        pruned_by_cap := Z.of_nat (overflow retention_ms max_rows now p) |}) p') as (s' & -> & Hr);
      [done|done| |].
    + unfold spec_prune. by injection Hc as <- <-.
    + injection Hc as <- _. eauto.
Qed.
End MemorySimulation.

(** ** The durable driver implements the pipeline *)

Lemma order_by_id {R} (le : R → R → bool) l :
  StronglySorted (λ x y, le x y = true) l → order_by le l = l.
Proof.
  intros Hs. unfold order_by.
  assert (Hgen : ∀ acc, StronglySorted (λ x y, le x y = true) (acc ++ l) →
            foldl (λ acc r, insert_ordered le r acc) acc l = acc ++ l).
  { clear Hs. induction l as [|x l IH]; intros acc Ha; simpl; [by rewrite app_nil_r|].
    assert (Hi : insert_ordered le x acc = acc ++ [x]).
    { clear IH. induction acc as [|y acc IHa]; [done|]. simpl in *.
      apply StronglySorted_inv in Ha as [Ha Hf]. rewrite Forall_forall in Hf.
      rewrite (Hf x) by set_solver. by rewrite IHa. }
    rewrite Hi, IH by by rewrite <- app_assoc. by rewrite <- app_assoc. }
  by apply Hgen.
Qed.

Lemma filter_fmap_comm {A B} (f : A → B) (P : B → bool) l :
  List.filter P (f <$> l) = f <$> List.filter (λ x, P (f x)) l.
Proof. induction l as [|x l IH]; [done|]. simpl. destruct (P (f x)); [|done]. simpl. by f_equal. Qed.

Lemma filter_sublist_self {A B} `{EqDecision B} (f : A → B) l k :
  NoDup (f <$> k) → sublist l k →
  List.filter (λ x, bool_decide (f x ∈ (f <$> l))) k = l.
Proof.
  intros Hnd Hs. revert Hnd. induction Hs as [|x l k Hs IH|x l k Hs IH]; [done| |];
    rewrite fmap_cons, NoDup_cons; intros [Hx Hnd]; simpl.
  - rewrite bool_decide_true by set_solver. f_equal. etrans; [|exact (IH Hnd)].
    apply filter_ext_in. intros y Hy%list_elem_of_In. apply bool_decide_ext.
    rewrite elem_of_cons. split; [|by right]. intros [Heq|]; [|done]. destruct Hx.
    rewrite <- Heq. by apply list_elem_of_fmap_2.
  - rewrite bool_decide_false; [by apply IH|]. intros Hin. apply Hx.
    apply list_elem_of_fmap in Hin as (y & Heq & Hy). rewrite Heq.
    apply list_elem_of_fmap_2. by eapply sublist_in.
Qed.

Lemma filter_true {A} (P : A → bool) l : (∀ x, x ∈ l → P x = true) → List.filter P l = l.
Proof.
  induction l as [|x l IH]; intros Hall; simpl; [done|]. rewrite Hall by set_solver. f_equal.
  apply IH. set_solver.
Qed.

(** Deleting the rows with the ids of a prefix drops that prefix. *)
Lemma delete_prefix {A B} `{EqDecision B} (f : A → B) (rows : list A) n :
  NoDup (f <$> rows) →
  let is_oldest e := bool_decide (f e ∈ (f <$> take n rows)) in
  delete_where is_oldest rows = drop n rows
  ∧ changes is_oldest rows = Z.of_nat (length (take n rows)).
Proof.
  intros Hnd is_oldest. split.
  - unfold delete_where. rewrite <- (take_drop n rows) at 1. rewrite List.filter_app.
    assert (Hnd' := Hnd). rewrite <- (take_drop n rows), fmap_app in Hnd'.
    apply NoDup_app in Hnd' as (_ & Hdis & _).
    assert (List.filter (λ r, negb (is_oldest r)) (take n rows) = []) as ->.
    { apply elem_of_nil_inv. intros x Hx%list_elem_of_In. apply filter_In in Hx as [Hx Hn].
      unfold is_oldest in Hn. rewrite bool_decide_true in Hn; [done|].
      apply list_elem_of_fmap_2. by apply list_elem_of_In. }
    simpl. apply filter_true. intros x Hx. unfold is_oldest.
    rewrite bool_decide_false; [done|]. intros Hin. eapply Hdis; [done|]. by apply list_elem_of_fmap_2.
  - unfold changes, select, is_oldest. by rewrite (filter_sublist_self f) by
      (done || apply take_sublist).
Qed.

Section SqliteSimulation.
Context `{SerdeJson} (constraint_failed : string).
Context (retention_ms max_rows claim_timeout_ms : Z).

Definition status_text (s : DeliveryStatus) : string :=
  match s with
  | Pending => "pending" | Claimed => "claimed" | Retry => "retry" | Acked => "acked"
  | DeadLettered => "dead_lettered"
  end.

Record row_delivery (r : Sql.DeliveryRow) (d : Delivery) : Prop := {
  rd_status : Sql.status r = status_text (dl_status d);
  rd_attempt : Sql.attempt_count r = dl_attempt d;
  rd_available : Sql.available_at r = dl_available_at d;
  rd_claimed : Sql.claimed_at r = dl_claimed_at d;
}.

Record sql_rel (p : Pipeline) (t : Sql.Tables) : Prop := {
  sr_events : Sql.envelope_from_row <$> Sql.platform_events t = pl_events p;
  sr_sequence : Sql.autoincrement t = pl_sequence p;
  sr_deliveries : ∀ k, option_Forall2 row_delivery
                         (Sql.platform_event_deliveries t !! k) (pl_deliveries p !! k);
}.

Lemma sql_rel_init : sql_rel empty_pipeline Sql.empty_tables.
Proof using Type. split; simpl; try done. intros k. constructor. Qed.

Lemma row_ids (l : list Sql.EventRow) :
  pe_id <$> (Sql.envelope_from_row <$> l) = Sql.event_id <$> l.
Proof using Type. by rewrite <- list_fmap_compose. Qed.

Lemma find_fmap {A B} (f : A → B) (P : B → bool) l :
  List.find P (f <$> l) = f <$> List.find (λ x, P (f x)) l.
Proof using Type. induction l as [|x l IH]; simpl; [done|]. by destruct (P (f x)). Qed.

Lemma find_ext {A} (P Q : A → bool) l :
  (∀ x, x ∈ l → P x = Q x) → List.find P l = List.find Q l.
Proof using Type.
  induction l as [|x l IH]; intros Hpq; simpl; [done|]. rewrite Hpq by set_solver.
  rewrite IH; [done|]. intros y Hy. apply Hpq. set_solver.
Qed.

Lemma find_by_key_existing p t n :
  pipeline_wf p → sql_rel p t → tenant_ok (pn_tenant_id n) →
  (key ← pn_idempotency_key n; Sql.envelope_from_row <$> Sql.find_by_idempotency_key t (pn_tenant_id n) key)
  = existing n p.
Proof using Type.
  intros Hwf Hrel Hto. unfold existing. destruct (pn_idempotency_key n) as [key|]; [|done]. simpl.
  rewrite <- (sr_events _ _ Hrel), find_fmap. f_equal.
  assert (Hrow : ∀ r, r ∈ Sql.platform_events t → tenant_ok (Sql.tenant_id r)).
  { intros r Hr. pose proof (pw_events p Hwf) as Hev. rewrite <- (sr_events _ _ Hrel) in Hev.
    rewrite Forall_forall in Hev. by apply (eo_tenant _ _ (Hev _ (list_elem_of_fmap_2 _ _ _ Hr))). }
  unfold Sql.find_by_idempotency_key.
  transitivity (List.find (λ r, bool_decide (Sql.idempotency_key r = Some key)
                   && bool_decide (Sql.tenant_id r = pn_tenant_id n)) (Sql.platform_events t)).
  { destruct (pn_tenant_id n); [done|]. apply find_ext. intros r _. f_equal. by apply bool_decide_ext. }
  apply find_ext. intros r Hr. unfold same_scope. simpl. rewrite andb_comm. f_equal.
  apply bool_decide_ext. split; [by intros ->|]. apply tenant_ok_inj; auto.
Qed.

(** A fresh id and an unused scope violate no constraint. *)
Lemma no_violation used p t (row : Sql.EventRow) :
  ids_in used p → sql_rel p t → Sql.event_id row ∉ used →
  (∀ key e, Sql.idempotency_key row = Some key → e ∈ pl_events p →
     same_scope (Sql.tenant_id row) key e = false) →
  existsb (Sql.violates row) (Sql.platform_events t) = false.
Proof using Type.
  intros Hids Hrel Hfr Hsc. apply not_true_iff_false. rewrite existsb_exists.
  intros (r & Hr%list_elem_of_In & Hv).
  assert (Hin : Sql.envelope_from_row r ∈ pl_events p)
    by (rewrite <- (sr_events _ _ Hrel); by apply list_elem_of_fmap_2).
  unfold Sql.violates in Hv. rewrite orb_true_iff, !andb_true_iff, !bool_decide_eq_true in Hv.
  rewrite !String.eqb_eq in Hv. destruct Hv as [Heq|[[[key Hk] Hkk] Hte]].
  - apply Hfr. rewrite <- Heq. apply Hids. change (Sql.event_id r) with (pe_id (Sql.envelope_from_row r)).
    by apply list_elem_of_fmap_2.
  - specialize (Hsc key _ Hk Hin). unfold same_scope in Hsc. simpl in Hsc.
    rewrite !bool_decide_true in Hsc by congruence. done.
Qed.

Lemma sql_publish used p t input id now r p' :
  pipeline_wf p → ids_in used p → call_ok used (CPublish input id now) → sql_rel p t →
  spec_publish input id now p = (r, p') →
  ∃ t', Sql.publish constraint_failed input id now t = (r, t') ∧ sql_rel p' t'.
Proof using Type.
  intros Hwf Hids Hok Hrel. unfold spec_publish, Sql.publish.
  destruct (normalized input _) as [n|] eqn:En; [|intros [= <- <-]; eexists; by split].
  destruct (normalized_fields _ _ _ En) as (Ht & Hpl & Hat & _). destruct Hok as (Hf & Ot & Op & Oa).
  rewrite <- Ht in Ot. rewrite <- Hpl in Op. rewrite <- Hat in Oa.
  pose proof (find_by_key_existing p t n Hwf Hrel Ot) as Hex.
  destruct (key ← pn_idempotency_key n; Sql.find_by_idempotency_key t (pn_tenant_id n) key)
    as [row|] eqn:Ef.
  - assert (existing n p = Some (Sql.envelope_from_row row)) as ->.
    { rewrite <- Hex. destruct (pn_idempotency_key n); simpl in *; [|done]. by rewrite Ef. }
    intros [= <- <-]. eexists. by split.
  - assert (Hno : existing n p = None).
    { rewrite <- Hex. destruct (pn_idempotency_key n); simpl in *; [|done]. by rewrite Ef. }
    rewrite Hno. intros [= <- <-]. unfold Sql.insert_event.
    rewrite (no_violation used p) by
      (try done; simpl; intros key e Hk He; unfold existing in Hno; rewrite Hk in Hno;
       simpl in Hno; by apply (proj1 (find_None_all _ _) Hno)).
    eexists. split; [by rewrite (sr_sequence _ _ Hrel)|].
    split; simpl; [|done|by apply sr_deliveries].
    rewrite fmap_app, (sr_events _ _ Hrel). f_equal. simpl. f_equal.
    unfold Sql.envelope_from_row, envelope, decode_json_object, encode_json_object. simpl.
    unfold json_stable in *. by rewrite Op, Oa.
Qed.

(** *** Claiming *)

Lemma rows_sorted p t :
  pipeline_wf p → sql_rel p t → order_by Sql.id_le (Sql.platform_events t) = Sql.platform_events t.
Proof using Type.
  intros Hwf Hrel. apply order_by_id. pose proof (pw_sorted p Hwf) as Hs.
  rewrite <- (sr_events _ _ Hrel) in Hs. revert Hs. generalize (Sql.platform_events t).
  intros l. induction l as [|r l IH]; [constructor|]. simpl. intros [Hl Hf]%StronglySorted_inv.
  constructor; [by apply IH|]. rewrite Forall_forall in Hf. apply Forall_forall. intros x Hx.
  specialize (Hf _ (list_elem_of_fmap_2 Sql.envelope_from_row _ _ Hx)). simpl in Hf.
  unfold Sql.id_le. lia.
Qed.

Lemma sql_backfill (name : string) (rows : list Sql.EventRow) (m : gmap (string * string) Sql.DeliveryRow)
    (ds : gmap (string * string) Delivery) :
  (∀ k, option_Forall2 row_delivery (m !! k) (ds !! k)) →
  ∀ k, option_Forall2 row_delivery
    (foldl (λ m e, or_insert m (name, Sql.event_id e)
       {| Sql.status := "pending"; Sql.attempt_count := 0; Sql.available_at := Sql.accepted_at e;
          Sql.claimed_at := None; Sql.acked_at := None; Sql.dead_lettered_at := None;
          Sql.last_error := None |}) m rows !! k)
    (backfill name (Sql.envelope_from_row <$> rows) ds !! k).
Proof using Type.
  unfold backfill. revert m ds. induction rows as [|r rows IH]; intros m ds Hr; [done|]. simpl.
  apply IH. intros k. rewrite !or_insert_lookup. simpl. case_decide; [|done].
  pose proof (Hr (name, Sql.event_id r)) as Ho. destruct Ho; simpl; constructor; [done|].
  by split.
Qed.

Lemma materialized p t name :
  sql_rel p t →
  sql_rel {| pl_events := pl_events p; pl_sequence := pl_sequence p;
             pl_deliveries := backfill name (pl_events p) (pl_deliveries p) |}
          (Sql.materialize name t).
Proof using Type.
  intros Hrel. split; simpl; [by apply sr_events|by apply sr_sequence|].
  rewrite <- (sr_events _ _ Hrel). intros k. apply sql_backfill. apply (sr_deliveries _ _ Hrel).
Qed.

Lemma eligible_claimable cutoff now r d :
  row_delivery r d →
  Sql.eligible cutoff (iso_from_epoch_ms (i64_sub now claim_timeout_ms)) r
  = claimable (Some claim_timeout_ms) cutoff now d.
Proof using Type.
  intros [Hs Ha Hav Hc]. unfold Sql.eligible, claimable. rewrite Hs, Hav, Hc.
  by destruct (dl_status d); simpl; rewrite ?orb_false_r.
Qed.

(** The join of the events with the deliveries of a consumer who has seen all of
    them; [row0] is never used. *)
Definition row0 : Sql.DeliveryRow :=
  {| Sql.status := ""; Sql.attempt_count := 0; Sql.available_at := ""; Sql.claimed_at := None;
     Sql.acked_at := None; Sql.dead_lettered_at := None; Sql.last_error := None |}.
Definition row_of (name : string) (t : Sql.Tables) (r : Sql.EventRow) : Sql.DeliveryRow :=
  default row0 (Sql.platform_event_deliveries t !! (name, Sql.event_id r)).

Lemma join_total name t :
  order_by Sql.id_le (Sql.platform_events t) = Sql.platform_events t →
  (∀ r, r ∈ Sql.platform_events t → is_Some (Sql.platform_event_deliveries t !! (name, Sql.event_id r))) →
  Sql.join_consumer name t = (λ r, (r, row_of name t r)) <$> Sql.platform_events t.
Proof using Type.
  intros Ho Hall. unfold Sql.join_consumer, row_of. rewrite Ho.
  revert Hall. generalize (Sql.platform_event_deliveries t). intros m. generalize (Sql.platform_events t).
  intros l. induction l as [|r l IH]; intros Hall; [done|]. simpl.
  destruct (Hall r) as [d Hd]; [set_solver|]. rewrite Hd. simpl. f_equal. apply IH. set_solver.
Qed.

Lemma claimed_rel now r d :
  row_delivery r d → row_delivery (Sql.set_claimed (iso_from_epoch_ms now) r) (claimed_now now d).
Proof using Type. intros [Hs Ha Hav Hc]. split; simpl; congruence. Qed.

(** The rows a claim marks are related to the marked deliveries. *)
Lemma claimed_map_rel p t name now (es : list PlatformEventEnvelope) :
  sql_rel p t → NoDup (pe_id <$> es) →
  ∀ k, option_Forall2 row_delivery
    (map_imap (λ k d, Some (if bool_decide (k.1 = name ∧ k.2 ∈ (pe_id <$> es))
                            then Sql.set_claimed (iso_from_epoch_ms now) d else d))
       (Sql.platform_event_deliveries t) !! k)
    (mark name now es (pl_deliveries p) !! k).
Proof using Type.
  intros Hrel Hnd [c i]. rewrite map_lookup_imap. pose proof (sr_deliveries _ _ Hrel (c, i)) as Hk.
  simpl. case_bool_decide as Hb.
  - destruct Hb as [-> (e & -> & He)%list_elem_of_fmap]. rewrite mark_in by done.
    destruct Hk; simpl; constructor. by apply claimed_rel.
  - rewrite mark_out by (destruct (decide (c = name)); naive_solver).
    by destruct Hk; simpl; constructor.
Qed.

(** Every event has a delivery row once the missing ones are there. *)
Lemma materialized_rows p t name x :
  pipeline_wf p → sql_rel p t → x ∈ Sql.platform_events t →
  ∃ d, Sql.platform_event_deliveries (Sql.materialize name t) !! (name, Sql.event_id x) = Some d
    ∧ row_delivery d (delivery_of (pl_deliveries p) name (Sql.envelope_from_row x)).
Proof using Type.
  intros Hwf Hrel Hx. pose proof (materialized p t name Hrel) as Hrel1.
  pose proof (sr_deliveries _ _ Hrel1 (name, Sql.event_id x)) as Hk. cbn [pl_deliveries] in Hk.
  rewrite (backfill_in name _ _ (Sql.envelope_from_row x)) in Hk;
    [|by apply pw_ids|rewrite <- (sr_events _ _ Hrel); by apply list_elem_of_fmap_2].
  inversion Hk as [d ? Hd Hr|]. eauto.
Qed.

(** The rows the claim query selects are those of the chosen events. *)
Lemma claim_selects p t name options now :
  pipeline_wf p → sql_rel p t →
  ∃ sel, sublist sel (Sql.platform_events t)
    ∧ chosen (Some claim_timeout_ms) p name options now = Sql.envelope_from_row <$> sel
    ∧ take (Z.to_nat (clamp_batch_size (co_batch_size options)))
        (List.filter
           (λ ed, Sql.eligible (default (iso_from_epoch_ms now) (co_available_at options))
                    (iso_from_epoch_ms (i64_sub now claim_timeout_ms)) ed.2)
           (Sql.join_consumer name (Sql.materialize name t)))
      = (λ x, (x, row_of name (Sql.materialize name t) x)) <$> sel.
Proof using Type.
  intros Hwf Hrel. set (rows := Sql.platform_events t).
  set (cutoff := default (iso_from_epoch_ms now) (co_available_at options)).
  exists (take (Z.to_nat (clamp_batch_size (co_batch_size options)))
    (List.filter (λ x, is_claimable (Some claim_timeout_ms) (pl_deliveries p) name cutoff now
                         (Sql.envelope_from_row x)) rows)). split_and!.
  - etrans; [apply take_sublist|].
    apply (select_sublist (λ x, is_claimable _ _ _ _ _ (Sql.envelope_from_row x))).
  - unfold chosen. rewrite <- (sr_events _ _ Hrel), filter_fmap_comm. by rewrite fmap_take.
  - rewrite join_total; [|exact (rows_sorted p t Hwf Hrel)|].
    2: { intros x Hx. destruct (materialized_rows p t name x Hwf Hrel Hx) as (d & -> & _). eauto. }
    rewrite filter_fmap_comm, <- fmap_take. do 2 f_equal.
    apply filter_ext_in. intros x Hx%list_elem_of_In.
    destruct (materialized_rows p t name x Hwf Hrel Hx) as (d & Hl & Hr).
    unfold row_of, is_claimable. cbn [snd]. rewrite Hl. by apply eligible_claimable.
Qed.

Lemma sql_claim p t consumer options now r p' :
  pipeline_wf p → sql_rel p t →
  spec_claim (Some claim_timeout_ms) consumer options now p = (r, p') →
  ∃ t', Sql.claim claim_timeout_ms consumer options now t = (r, t') ∧ sql_rel p' t'.
Proof using Type.
  intros Hwf Hrel. unfold spec_claim, Sql.claim.
  destruct (normalize_consumer_name consumer) as [name|]; [|intros [= <- <-]; by eexists].
  intros [= <- <-]. pose proof (materialized p t name Hrel) as Hrel1.
  destruct (claim_selects p t name options now Hwf Hrel) as (sel & Hsub & Hch & Hsel).
  set (es := chosen _ p name options now) in *. unfold transaction, Sql.claim_in_tx. rewrite Hsel.
  assert (Hids : (λ ed : Sql.EventRow * Sql.DeliveryRow, Sql.event_id ed.1)
             <$> ((λ x, (x, row_of name (Sql.materialize name t) x)) <$> sel) = pe_id <$> es).
  { by rewrite Hch, row_ids, <- list_fmap_compose. }
  rewrite Hids.
  assert (Hnd : NoDup (pe_id <$> es)) by (eapply sublist_NoDup; [apply chosen_sublist|by apply pw_ids]).
  destruct (pe_id <$> es) as [|i ids] eqn:Eids; cbv zeta.
  { assert (es = []) as -> by by destruct es. eexists. by split. }
  pose proof (claimed_map_rel _ _ name now es Hrel1) as Hmap. rewrite Eids in Hmap. specialize (Hmap Hnd).
  simpl pl_deliveries in Hmap. rewrite <- Eids in *. clear i ids Eids.
  set (t2 := Sql.with_tables _ (map_imap _ _) _).
  assert (Hrow2 : ∀ x, x ∈ Sql.platform_events t →
            ∃ d, Sql.platform_event_deliveries t2 !! (name, Sql.event_id x) = Some d).
  { intros x Hx. destruct (materialized_rows p t name x Hwf Hrel Hx) as (d & Hl & _).
    unfold t2. cbn [Sql.platform_event_deliveries Sql.with_tables].
    rewrite map_lookup_imap, Hl. by eexists. }
  rewrite (join_total name t2); [|exact (rows_sorted p t Hwf Hrel)|exact Hrow2].
  exists t2. split; [|split; [apply (sr_events _ _ Hrel)|apply (sr_sequence _ _ Hrel)|exact Hmap]].
  do 2 f_equal. rewrite filter_fmap_comm. cbn [fst].
  assert (List.filter (λ x, bool_decide (Sql.event_id x ∈ (pe_id <$> es))) (Sql.platform_events t) = sel)
    as Hsame by (rewrite Hch, row_ids; apply filter_sublist_self; [|done];
                 rewrite <- row_ids, (sr_events _ _ Hrel); by apply pw_ids).
  change (Sql.platform_events t2) with (Sql.platform_events t). rewrite Hsame, Hch, <- !list_fmap_compose.
  apply list_fmap_ext. intros ? x Hx%list_elem_of_lookup_2.
  destruct (materialized_rows p t name x Hwf Hrel (sublist_in _ _ _ Hsub Hx)) as (d & Hl & Hr).
  unfold row_of, hand_out, t2. cbn [Sql.platform_event_deliveries Sql.with_tables compose].
  rewrite map_lookup_imap, Hl. simpl.
  rewrite bool_decide_true by (split; [done|]; rewrite Hch, row_ids; by apply list_elem_of_fmap_2).
  simpl. by rewrite (rd_attempt _ _ Hr).
Qed.

(** *** Settling and pruning *)

Lemma sql_settle p t f g name id a :
  sql_rel p t → (∀ r d, row_delivery r d → row_delivery (f r) (g d)) →
  sql_rel {| pl_events := pl_events p; pl_sequence := pl_sequence p;
             pl_deliveries := alter (λ d, if is_attempt a d then g d else d) (name, id)
                                (pl_deliveries p) |}
          (Sql.update_claimed f name id a t).
Proof using Type.
  intros Hrel Hfg. split; simpl; [apply (sr_events _ _ Hrel)|apply (sr_sequence _ _ Hrel)|].
  intros k. pose proof (sr_deliveries _ _ Hrel k) as Hk. destruct (decide (k = (name, id))) as [->|Hne].
  - rewrite !lookup_alter_eq. destruct Hk as [r d Hr|]; simpl; [|constructor]. constructor.
    assert (Hm : String.eqb (Sql.status r) "claimed" && (Sql.attempt_count r =? at_attempt a)
             && bool_decide (Sql.claimed_at r = Some (at_claimed_at a)) = is_attempt a d).
    { destruct Hr as [Hs Ha _ Hc]. unfold is_attempt. rewrite Hs, Ha, Hc. f_equal. f_equal.
      - by destruct (dl_status d).
      - destruct (Z.eqb_spec (dl_attempt d) (at_attempt a)); [by rewrite bool_decide_true|].
        by rewrite bool_decide_false. }
    rewrite Hm. destruct (is_attempt a d); auto.
  - by rewrite !lookup_alter_ne.
Qed.

Lemma sql_sweep p t rows ids :
  sql_rel p t →
  sql_rel (swept p (Sql.envelope_from_row <$> rows) ids)
    (Sql.with_tables rows (filter (λ kd, kd.1.2 ∉ ids) (Sql.platform_event_deliveries t)) t).
Proof using Type.
  intros Hrel. split; simpl; [done|apply (sr_sequence _ _ Hrel)|]. intros k.
  pose proof (sr_deliveries _ _ Hrel k) as Hk. rewrite !map_lookup_filter.
  destruct Hk; simpl; [|constructor]. case_guard; simpl; by constructor.
Qed.

Lemma delete_where_fmap {A B} (f : A → B) (P : B → bool) l :
  delete_where P (f <$> l) = f <$> delete_where (λ x, P (f x)) l.
Proof using Type. apply (filter_fmap_comm f (λ b, negb (P b))). Qed.

Lemma changes_fmap {A B} (f : A → B) (P : B → bool) l :
  changes P (f <$> l) = changes (λ x, P (f x)) l.
Proof using Type. unfold changes, select. by rewrite filter_fmap_comm, length_fmap. Qed.

(** [LIMIT remaining - max_rows] takes the overflow, for a negative cap as well. *)
Lemma limit_overflow {A} (l : list A) :
  0 < Z.of_nat (length l) - max_rows →
  take (Z.to_nat (Z.of_nat (length l) - max_rows)) l = take (length l - Z.to_nat max_rows) l.
Proof using Type.
  intros Hpos. destruct (Z.le_gt_cases 0 max_rows) as [H0|H0].
  - f_equal. lia.
  - rewrite !take_ge by lia. done.
Qed.

(** The tables after the age sweep. *)
Definition aged (now : Z) (t : Sql.Tables) : Sql.Tables :=
  let old e := Str.ltb (Sql.occurred_at e) (iso_from_epoch_ms (i64_sub now retention_ms)) in
  Sql.with_tables (delete_where old (Sql.platform_events t))
    (filter (λ kd, kd.1.2 ∉ (Sql.event_id <$> select old (Sql.platform_events t)))
       (Sql.platform_event_deliveries t)) t.

Lemma aged_rel p t now :
  pipeline_wf p → sql_rel p t →
  let p1 := swept p (recent retention_ms now p)
              (pe_id <$> select (too_old retention_ms now) (pl_events p)) in
  pipeline_wf p1 ∧ sql_rel p1 (aged now t).
Proof using Type.
  intros Hwf Hrel p1. split; [by apply first_sweep|]. unfold p1, recent, select.
  rewrite <- (sr_events _ _ Hrel), filter_fmap_comm, row_ids.
  rewrite (delete_where_fmap Sql.envelope_from_row (too_old retention_ms now)).
  by apply sql_sweep.
Qed.

Lemma sql_prune p t now r p' :
  pipeline_wf p → sql_rel p t → spec_prune retention_ms max_rows now p = (r, p') →
  ∃ t', Sql.prune retention_ms max_rows now t = (r, t') ∧ sql_rel p' t'.
Proof using Type.
  intros Hwf Hrel Hp. rewrite (prune_is_two_sweeps retention_ms max_rows now p Hwf) in Hp.
  injection Hp as <- <-. destruct (aged_rel p t now Hwf Hrel) as [Hwf1 Hrel1].
  set (p1 := swept p _ _) in *. set (l := Sql.platform_events (aged now t)).
  assert (Hl : recent retention_ms now p = Sql.envelope_from_row <$> l)
    by (symmetry; apply (sr_events _ _ Hrel1)).
  assert (Hnd : NoDup (Sql.event_id <$> l)) by (rewrite <- row_ids, <- Hl; by apply (pw_ids p1)).
  assert (Hord : order_by Sql.id_le l = l) by exact (rows_sorted p1 _ Hwf1 Hrel1).
  set (o := overflow retention_ms max_rows now p).
  assert (Ho : o = (length l - Z.to_nat max_rows)%nat)
    by (unfold o, overflow; by rewrite Hl, length_fmap).
  pose proof (sql_sweep p1 (aged now t) (drop o l) (Sql.event_id <$> take o l) Hrel1) as Hrel2.
  assert (Hage : changes (too_old retention_ms now) (pl_events p)
                 = changes (λ e, too_old retention_ms now (Sql.envelope_from_row e)) (Sql.platform_events t))
    by (rewrite <- (sr_events _ _ Hrel); apply (changes_fmap Sql.envelope_from_row)).
  unfold retained. fold o. rewrite Hage, Hl, <- fmap_take, <- fmap_drop, row_ids.
  unfold Sql.prune, transaction, Sql.prune_in_tx, Sql.drop_deliveries.
  cbn [Sql.with_tables Sql.platform_events Sql.platform_event_deliveries].
  change (delete_where _ (Sql.platform_events t)) with l. rewrite !Hord.
  destruct (Z.ltb_spec 0 (Z.of_nat (length l) - max_rows)) as [Hpos|Hpos].
  - rewrite !limit_overflow by done. rewrite <- Ho. destruct (delete_prefix Sql.event_id l o Hnd) as [-> ->].
    eexists. split; [by rewrite length_take, Nat.min_l by lia|]. exact Hrel2.
  - assert (o = 0%nat) as Ho0 by lia. rewrite Ho0 in *. eexists. split; [done|].
    simpl in *. rewrite drop_0 in *. pose proof (swept_nil p1) as Hn. simpl in Hn.
    rewrite Hl in Hn. rewrite Hn. exact Hrel1.
Qed.

Lemma sqlite_simulates :
  simulates (sqlite_driver constraint_failed retention_ms max_rows claim_timeout_ms)
    (Some claim_timeout_ms) retention_ms max_rows sql_rel.
Proof using Type.
  intros used p s c r p' Hwf Hids Hok Hrel Hc.
  destruct c as [input id now|consumer options now|consumer id a now|consumer id a e av now
    |consumer id a e now|now]; simpl in Hc |- *.
  - destruct (spec_publish _ _ _ p) as [r1 p1] eqn:E. injection Hc as <- <-.
    destruct (sql_publish _ _ _ _ _ _ _ _ Hwf Hids Hok Hrel E) as (s' & -> & Hr). eauto.
  - destruct (spec_claim _ _ _ _ p) as [r1 p1] eqn:E. injection Hc as <- <-.
    destruct (sql_claim _ _ _ _ _ _ _ Hwf Hrel E) as (s' & -> & Hr). eauto.
  - unfold settle in Hc. unfold Sql.ack.
    destruct (normalize_consumer_name consumer); simplify_eq; eexists; (split; [done|]); [|done].
    apply sql_settle; [done|]. intros ? ? []. by split.
  - unfold settle in Hc. unfold Sql.retry.
    destruct (normalize_consumer_name consumer); simplify_eq; eexists; (split; [done|]); [|done].
    apply sql_settle; [done|]. intros ? ? []. by split.
  - unfold settle in Hc. unfold Sql.dead_letter.
    destruct (normalize_consumer_name consumer); simplify_eq; eexists; (split; [done|]); [|done].
    apply sql_settle; [done|]. intros ? ? []. by split.
  - destruct (sql_prune p s now (Ok {| pruned_by_age := changes (too_old retention_ms now) (pl_events p);
        pruned_by_cap := Z.of_nat (overflow retention_ms max_rows now p) |}) p') as (s' & -> & Hr);
      [done|done| |].
    + unfold spec_prune. by injection Hc as <- <-.
    + injection Hc as <- _. eauto.
Qed.
End SqliteSimulation.
