(* ===== verification/PlatformDelivery.v ===== *)
(** * Platform events: what consumers observe

    The drivers reply as the pipeline does ([drivers_refine_pipeline]); with that,
    delivery to a consumer: a consumer that keeps claiming and acknowledging
    receives every outstanding event exactly once and in order, a claim that was
    never settled is handed out again by the durable driver once its visibility
    timeout has passed, and never again by the in-process driver. *)

From Stdlib Require Import ZArith Lia Ascii String.
From stdpp Require Import base gmap strings list sorting pretty.
From S2P Require Import Prelude Timestamp StoreBase PlatformEvents PlatformDrivers.

(** ** Event names *)

Lemma split_on_nonempty sep cs : split_on sep cs ≠ [].
Proof.
  induction cs as [|c cs IH]; simpl; [done|]. destruct (c =? sep); [done|].
  by destruct (split_on sep cs).
Qed.

Lemma split_on_plain sep s : sep ∉ s → split_on sep s = [s].
Proof.
  induction s as [|c s IH]; simpl; [done|]. rewrite not_elem_of_cons. intros [Hc Hs].
  destruct (Z.eqb_spec c sep); [by subst|]. by rewrite IH.
Qed.

Lemma split_on_app sep s t : sep ∉ s → split_on sep (s ++ sep :: t) = s :: split_on sep t.
Proof.
  induction s as [|c s IH]; simpl.
  - intros _. by rewrite Z.eqb_refl.
  - rewrite not_elem_of_cons. intros [Hc Hs]. destruct (Z.eqb_spec c sep); [by subst|].
    by rewrite IH.
Qed.

Lemma segment_ok_ident s : segment_ok s = true ↔ ident s.
Proof.
  destruct s as [|c s]; simpl.
  - split; [done|by inversion 1].
  - rewrite andb_true_iff, forallb_forall, <- List.Forall_forall. split.
    + intros [Hc Hs]. by constructor.
    + by inversion 1.
Qed.

Lemma ident_no_dot s : ident s → 46 ∉ s.
Proof.
  intros [c cs Hc Hcs]. rewrite not_elem_of_cons. split; [by intros <-|].
  intros Hin. rewrite Forall_forall in Hcs. by specialize (Hcs 46 Hin).
Qed.

Lemma split_on_cons cs seg segs :
  split_on 46 cs = seg :: segs →
  (segs = [] ∧ cs = seg) ∨ (∃ rest, cs = seg ++ 46 :: rest ∧ split_on 46 rest = segs).
Proof.
  revert seg. induction cs as [|c cs IH]; intros seg; simpl.
  - intros [= <- <-]. by left.
  - destruct (Z.eqb_spec c 46) as [->|Hne].
    + intros [= <- <-]. right. by exists cs.
    + destruct (split_on 46 cs) as [|s' ss] eqn:E; [by destruct (split_on_nonempty 46 cs)|].
      intros [= <- <-]. destruct (IH s' eq_refl) as [[-> ->]|(rest & -> & <-)]; [by left|].
      right. by exists rest.
Qed.

Lemma dotted_segments cs : forallb segment_ok (split_on 46 cs) = true ↔ dotted cs.
Proof.
  split.
  - remember (split_on 46 cs) as segs eqn:E. symmetry in E. revert cs E.
    induction segs as [|seg segs IH]; intros cs E; [by destruct (split_on_nonempty 46 cs)|].
    simpl. rewrite andb_true_iff, segment_ok_ident. intros [Hs Hss].
    apply split_on_cons in E as [[-> ->]|(rest & -> & E)]; [by constructor|].
    constructor; [done|]. by apply IH.
  - induction 1 as [s Hs|s t Hs Ht IH].
    + rewrite split_on_plain by by apply ident_no_dot. simpl. by rewrite (proj2 (segment_ok_ident s)).
    + rewrite split_on_app by by apply ident_no_dot. simpl. by rewrite (proj2 (segment_ok_ident s)).
Qed.

Lemma chars_nil s : Str.chars s = [] → s = "".
Proof. destruct s as [|c s]; [done|]. simpl. by repeat case_match. Qed.

(** event names: the check accepts exactly the documented pattern, identifiers
    of lower-case letters, digits and underscores that start with a letter,
    joined by single dots. *)
Theorem event_name_language name :
  is_valid_event_name name = true ↔ dotted (Str.chars name).
Proof.
  unfold is_valid_event_name. destruct name as [|c name]; [|by apply dotted_segments].
  simpl. split; [done|]. intros Hd. by apply dotted_segments in Hd.
Qed.

(** ** Refinement *)

Section Refinement.
Context `{SerdeJson} (retention_ms max_rows claim_timeout_ms : Z) (msg : string).

Lemma calls_from_empty {S} (D : PlatformEventsDriver S) reclaim R s0 cs :
  simulates D reclaim retention_ms max_rows R → R empty_pipeline s0 → calls_ok ∅ cs →
  let '(rs, p) := spec_calls reclaim retention_ms max_rows cs empty_pipeline in
  ∃ s, calls D cs s0 = (rs, s) ∧ R p s ∧ pipeline_wf p.
Proof using Type.
  intros Hsim HR Hok. destruct (spec_calls _ _ _ cs _) as [rs p] eqn:E.
  apply (calls_simulated D reclaim retention_ms max_rows R ∅ cs empty_pipeline); try done.
  - apply empty_pipeline_wf.
  - intros i Hi. simpl in Hi. by apply not_elem_of_nil in Hi.
Qed.
End Refinement.

(** C25: both drivers implement the pipeline: on every sequence of publishes,
    claims, acknowledgements, retries, dead letters and prunes, with fresh event
    ids, non-empty tenants without NUL and payloads JSON can carry, the durable
    driver replies exactly as the pipeline with its visibility timeout, and the
    in-process driver exactly as the pipeline without one. *)
Theorem drivers_refine_pipeline `{SerdeJson} retention_ms max_rows timeout msg cs :
  calls_ok ∅ cs →
  (calls (sqlite_driver msg retention_ms max_rows timeout) cs Sql.empty_tables).1
    = (spec_calls (Some timeout) retention_ms max_rows cs empty_pipeline).1
  ∧ (calls (memory_driver retention_ms max_rows) cs Mem.Inner_default).1
    = (spec_calls None retention_ms max_rows cs empty_pipeline).1.
Proof.
  intros Hok. split.
  - pose proof (calls_from_empty retention_ms max_rows _ (Some timeout) _ _ cs
      (sqlite_simulates msg retention_ms max_rows timeout) sql_rel_init Hok) as Hc.
    destruct (spec_calls _ _ _ _ _) as [rs p]. by destruct Hc as (s & -> & _).
  - pose proof (calls_from_empty retention_ms max_rows _ None _ _ cs
      (memory_simulates retention_ms max_rows) mem_rel_init Hok) as Hc.
    destruct (spec_calls _ _ _ _ _) as [rs p]. by destruct Hc as (s & -> & _).
Qed.

(** ** Consuming

    One round of a consumer: claim a batch, acknowledge each delivery of it. *)

Definition acknowledge `{SerdeJson} {S} (step : Call → S → Reply * S) (consumer : string) (now : Z)
    (s : S) (d : PlatformEventDelivery) : S :=
  (step (CAck consumer (pe_id (pd_event d)) (attempt_fingerprint d) now) s).2.

Definition consume_round `{SerdeJson} {S} (step : Call → S → Reply * S) (consumer : string)
    (options : PlatformEventClaimOptions) (now : Z) (s : S) : list PlatformEventDelivery * S :=
  match step (CClaim consumer options now) s with
  | (RClaim (Ok ds), s') => (ds, foldl (acknowledge step consumer now) s' ds)
  | (_, s') => ([], s')
  end.

Fixpoint consume `{SerdeJson} {S} (step : Call → S → Reply * S) (consumer : string)
    (options : PlatformEventClaimOptions) (nows : list Z) (s : S) : list PlatformEventDelivery * S :=
  match nows with
  | [] => ([], s)
  | now :: nows' =>
      let '(ds, s1) := consume_round step consumer options now s in
      let '(ds', s2) := consume step consumer options nows' s1 in
      (ds ++ ds', s2)
  end.

Definition unsettled `{SerdeJson} (ds : gmap (string * string) Delivery) (name : string)
    (e : PlatformEventEnvelope) : bool :=
  match dl_status (delivery_of ds name e) with Acked | DeadLettered => false | _ => true end.

(** The events a consumer has not settled, in sequence order. *)
Definition outstanding `{SerdeJson} (p : Pipeline) (name : string) : list PlatformEventEnvelope :=
  List.filter (unsettled (pl_deliveries p) name) (pl_events p).

Lemma filter_andb {A} (P Q : A → bool) l :
  List.filter Q (List.filter P l) = List.filter (λ x, P x && Q x) l.
Proof. induction l as [|x l IH]; simpl; [done|]. destruct (P x); simpl; [by rewrite IH|done]. Qed.

Section Consuming.
Context `{SerdeJson} (reclaim : option Z) (retention_ms max_rows : Z).
Context (consumer name : string) (Hname : normalize_consumer_name consumer = Ok name).
Implicit Types (p q : Pipeline) (e : PlatformEventEnvelope).

Abbreviation step := (spec_call reclaim retention_ms max_rows).

Lemma ack_all (dl : PlatformEventEnvelope → Delivery) now es q :
  NoDup (pe_id <$> es) →
  (∀ e, e ∈ es → pl_deliveries q !! (name, pe_id e) = Some (claimed_now now (dl e))) →
  let q' := foldl (acknowledge step consumer now) q
              ((λ e, {| pd_event := e; pd_consumer := name; pd_attempt := dl_attempt (dl e) + 1;
                        pd_claimed_at := iso_from_epoch_ms now |}) <$> es) in
  pl_events q' = pl_events q
  ∧ (∀ e, e ∈ es → pl_deliveries q' !! (name, pe_id e) = Some (to_acked (claimed_now now (dl e))))
  ∧ (∀ c i, c ≠ name ∨ i ∉ (pe_id <$> es) → pl_deliveries q' !! (c, i) = pl_deliveries q !! (c, i)).
Proof using Hname.
  revert q. induction es as [|e es IH]; intros q; cbv zeta.
  { intros _ _. split_and!; [done|by intros e He%not_elem_of_nil|done]. }
  rewrite !fmap_cons, NoDup_cons. cbn [foldl]. intros [Hn Hnd] Hq. set (q1 := acknowledge _ _ _ q _).
  assert (Eq1 : q1 = {| pl_events := pl_events q; pl_sequence := pl_sequence q;
    pl_deliveries :=
      alter (λ d, if is_attempt {| at_attempt := dl_attempt (dl e) + 1;
                                   at_claimed_at := iso_from_epoch_ms now |} d then to_acked d else d)
        (name, pe_id e) (pl_deliveries q) |}).
  { unfold q1, acknowledge. simpl. unfold settle. by rewrite Hname. }
  assert (Hq1 : ∀ x, x ∈ es → (name, pe_id e) ≠ (name, pe_id x)).
  { intros x Hx [= Heq]. apply Hn. rewrite Heq. by apply list_elem_of_fmap_2. }
  destruct (IH q1) as (He & Hin & Hout); [done| |].
  { intros x Hx. rewrite Eq1. simpl. rewrite lookup_alter_ne by auto. apply Hq. set_solver. }
  split_and!; [by rewrite He, Eq1| |].
  - intros x [->|Hx]%elem_of_cons; [|by apply Hin]. rewrite Hout by auto. rewrite Eq1. simpl.
    rewrite lookup_alter_eq, Hq by set_solver. simpl. unfold is_attempt. simpl.
    by rewrite !bool_decide_true.
  - intros c i Hci. rewrite Hout by set_solver. rewrite Eq1. simpl.
    rewrite lookup_alter_ne; [done|]. intros [= <- <-]. set_solver.
Qed.

Lemma ack_all_wf now ds q :
  pipeline_wf q → pipeline_wf (foldl (acknowledge step consumer now) q ds).
Proof using Type.
  revert q. induction ds as [|d ds IH]; intros q Hq; [done|]. cbn [foldl]. apply IH.
  unfold acknowledge. simpl. pose proof (settle_wf to_acked consumer (pe_id (pd_event d))
    (attempt_fingerprint d) q Hq) as Hs. by destruct (settle _ _ _ _ q).
Qed.

Lemma outstanding_sublist p : sublist (outstanding p name) (pl_events p).
Proof using Type. apply (select_sublist (unsettled (pl_deliveries p) name)). Qed.

Lemma outstanding_after p q b :
  pipeline_wf p → pl_events q = pl_events p →
  let es := take b (outstanding p name) in
  (∀ e, e ∈ es → unsettled (pl_deliveries q) name e = false) →
  (∀ e, e ∈ pl_events p → pe_id e ∉ (pe_id <$> es) →
     delivery_of (pl_deliveries q) name e = delivery_of (pl_deliveries p) name e) →
  outstanding q name = drop b (outstanding p name).
Proof using Type.
  intros Hwf He es Hdone Hkeep. pose proof (pw_ids p Hwf) as Hnd.
  pose proof (outstanding_sublist p) as Hsub.
  assert (Hes : sublist es (pl_events p)) by (etrans; [apply take_sublist|done]).
  destruct (delete_prefix pe_id (outstanding p name) b) as [Hd _]; [by eapply sublist_NoDup|].
  fold es in Hd. rewrite <- Hd. clearbody es. unfold delete_where, outstanding. rewrite He.
  rewrite filter_andb. apply filter_ext_in. intros e Hev%list_elem_of_In.
  case_bool_decide as Hin; simpl.
  - rewrite andb_false_r. apply Hdone. by apply (id_in_part p).
  - rewrite andb_true_r. unfold unsettled. by rewrite Hkeep.
Qed.

(** When everything outstanding is claimable, a round delivers and settles the
    first batch of it and leaves the rest as it was. *)
Lemma round_spec p options now :
  pipeline_wf p → co_available_at options = None →
  (∀ e, e ∈ outstanding p name →
     claimable reclaim (iso_from_epoch_ms now) now (delivery_of (pl_deliveries p) name e) = true) →
  let b := Z.to_nat (clamp_batch_size (co_batch_size options)) in
  ∃ p', consume_round step consumer options now p
        = (hand_out (pl_deliveries p) name now <$> take b (outstanding p name), p')
    ∧ pipeline_wf p' ∧ pl_events p' = pl_events p
    ∧ outstanding p' name = drop b (outstanding p name)
    ∧ ∀ e, e ∈ outstanding p' name →
        delivery_of (pl_deliveries p') name e = delivery_of (pl_deliveries p) name e.
Proof using Hname.
  intros Hwf Hav Hdue b. pose proof (pw_ids p Hwf) as Hnd.
  assert (Hch : chosen reclaim p name options now = take b (outstanding p name)).
  { unfold chosen, outstanding. fold b. rewrite Hav. simpl. f_equal. apply filter_ext_in.
    intros e He%list_elem_of_In. unfold is_claimable.
    destruct (unsettled (pl_deliveries p) name e) eqn:Eu.
    - apply Hdue. apply list_elem_of_In, filter_In. split; [by apply list_elem_of_In|done].
    - unfold unsettled in Eu. unfold claimable. by destruct (dl_status _). }
  assert (Hsub : sublist (take b (outstanding p name)) (pl_events p))
    by (rewrite <- Hch; apply chosen_sublist).
  set (es := take b (outstanding p name)) in *.
  pose proof (claim_wf reclaim p name options now Hwf) as Hwf1. rewrite Hch in Hwf1.
  set (q := {| pl_events := pl_events p; pl_sequence := pl_sequence p; pl_deliveries := _ |}) in Hwf1.
  assert (Hnde : NoDup (pe_id <$> es)) by by eapply sublist_NoDup.
  destruct (ack_all (delivery_of (pl_deliveries p) name) now es q) as (He & Hin & Hout); [done| |].
  { intros e Hes. unfold q. simpl. rewrite mark_in by done. rewrite backfill_in; [done|done|].
    by eapply sublist_in. }
  set (q' := foldl _ q _) in *. exists q'. split.
  { unfold consume_round. simpl. unfold spec_claim. rewrite Hname, Hch. reflexivity. }
  assert (Hkeep : ∀ e, e ∈ pl_events p → pe_id e ∉ (pe_id <$> es) →
            delivery_of (pl_deliveries q') name e = delivery_of (pl_deliveries p) name e).
  { intros e Hev Hni. unfold delivery_of at 1. rewrite Hout by auto. unfold q. simpl.
    rewrite mark_out by auto. by rewrite backfill_in. }
  assert (Hdone : ∀ e, e ∈ es → unsettled (pl_deliveries q') name e = false).
  { intros e Hes. unfold unsettled, delivery_of. by rewrite Hin. }
  assert (Hrest : outstanding q' name = drop b (outstanding p name)) by by apply outstanding_after.
  split_and!; [|done|done|].
  - by apply ack_all_wf.
  - rewrite Hrest. intros e Hd. apply Hkeep.
    + eapply sublist_in; [|exact Hd]. etrans; [apply drop_sublist|apply outstanding_sublist].
    + intros Hin'. apply (id_in_part p) in Hin'; [|done|done|].
      * assert (Hno : NoDup (outstanding p name)).
        { apply (NoDup_fmap_1 pe_id). eapply sublist_NoDup; [apply outstanding_sublist|done]. }
        rewrite <- (take_drop b (outstanding p name)) in Hno. apply NoDup_app in Hno as (_ & Hdis & _).
        by eapply Hdis.
      * eapply sublist_in; [|exact Hd]. etrans; [apply drop_sublist|apply outstanding_sublist].
Qed.

(** Rounds at times when everything outstanding is claimable deliver it from the
    front, each event once. *)
Lemma consume_spec p options nows :
  pipeline_wf p → co_available_at options = None →
  Forall (λ now, ∀ e, e ∈ outstanding p name →
    claimable reclaim (iso_from_epoch_ms now) now (delivery_of (pl_deliveries p) name e) = true) nows →
  let n := (length nows * Z.to_nat (clamp_batch_size (co_batch_size options)))%nat in
  let '(ds, p') := consume step consumer options nows p in
  pd_event <$> ds = take n (outstanding p name)
  ∧ outstanding p' name = drop n (outstanding p name).
Proof using Hname.
  set (b := Z.to_nat _). intros Hwf Hav. revert p Hwf.
  induction nows as [|now nows IH]; intros p Hwf; cbn [length consume].
  { intros _. cbn [Nat.mul]. by rewrite take_0, drop_0. }
  rewrite Forall_cons. intros [Hnow Hnows].
  destruct (round_spec p options now Hwf Hav Hnow) as (p1 & -> & Hwf1 & Hev & Hout & Hsame).
  fold b in Hout |- *.
  specialize (IH p1 Hwf1). destruct (consume step consumer options nows p1) as [ds p2].
  destruct IH as [Hds Hp2].
  { eapply Forall_impl; [exact Hnows|]. simpl. intros t Ht e He. rewrite Hsame by done. apply Ht.
    rewrite Hout in He. eapply sublist_in; [apply drop_sublist|exact He]. }
  rewrite Hp2, fmap_app, Hds, Hout, <- list_fmap_compose. split; [|by rewrite drop_drop].
  assert (Hid : pd_event ∘ hand_out (pl_deliveries p) name now <$> take b (outstanding p name)
                = take b (outstanding p name)) by apply list_fmap_id.
  rewrite Hid. cbn [Nat.mul]. by rewrite take_take_drop.
Qed.
End Consuming.

(** *** The same on a driver *)

Section OnDriver.
Context `{SerdeJson} {S : Type} (D : PlatformEventsDriver S).
Context (reclaim : option Z) (retention_ms max_rows : Z) (R : Pipeline → S → Prop).
Context (Hsim : simulates D reclaim retention_ms max_rows R).

Abbreviation step := (spec_call reclaim retention_ms max_rows).

(** A call that publishes nothing, on both sides. *)
Lemma call_simulated used (p : Pipeline) s c :
  pipeline_wf p → ids_in used p → R p s → (∀ used, call_ok used c) → call_ids c = ∅ →
  (call D c s).1 = (step c p).1 ∧ R (step c p).2 (call D c s).2
  ∧ pipeline_wf (step c p).2 ∧ ids_in used (step c p).2.
Proof using Hsim.
  intros Hwf Hids HR Hok Hci. destruct (step c p) as [r p'] eqn:E.
  destruct (Hsim used p s c r p') as (s' & -> & HR'); [done..|].
  destruct (spec_call_wf _ _ _ _ _ _ _ _ Hwf Hids (Hok used) E) as [Hwf' Hids'].
  rewrite Hci in Hids'. split_and!; try done. intros i Hi. specialize (Hids' i Hi). set_solver.
Qed.

Lemma acks_simulated used consumer now ds (p : Pipeline) s :
  pipeline_wf p → ids_in used p → R p s →
  R (foldl (acknowledge step consumer now) p ds) (foldl (acknowledge (call D) consumer now) s ds)
  ∧ pipeline_wf (foldl (acknowledge step consumer now) p ds)
  ∧ ids_in used (foldl (acknowledge step consumer now) p ds).
Proof using Hsim.
  revert p s. induction ds as [|d ds IH]; intros p s Hwf Hids HR; [done|]. cbn [foldl].
  destruct (call_simulated used p s
    (CAck consumer (pe_id (pd_event d)) (attempt_fingerprint d) now) Hwf Hids HR)
    as (_ & HR1 & Hwf1 & Hids1); [done|done|]. by apply IH.
Qed.

Lemma consume_simulated used consumer options nows (p : Pipeline) s :
  pipeline_wf p → ids_in used p → R p s →
  let '(ds, p') := consume step consumer options nows p in
  ∃ s', consume (call D) consumer options nows s = (ds, s') ∧ R p' s' ∧ pipeline_wf p'
    ∧ ids_in used p'.
Proof using Hsim.
  revert p s. induction nows as [|now nows IH]; intros p s Hwf Hids HR; cbn [consume]; [eauto|].
  destruct (call_simulated used p s (CClaim consumer options now) Hwf Hids HR)
    as (Hr & HR1 & Hwf1 & Hids1); [done|done|]. unfold consume_round.
  destruct (call D (CClaim consumer options now) s) as [r s1].
  destruct (step (CClaim consumer options now) p) as [r' p1]. simpl in Hr, HR1, Hwf1, Hids1. subst r'.
  assert (Hskip : ∀ ds p1 s1, pipeline_wf p1 → ids_in used p1 → R p1 s1 →
    let '(ds', p') := let '(ds', p2) := consume step consumer options nows p1 in (ds ++ ds', p2) in
    ∃ s', (let '(ds', s2) := consume (call D) consumer options nows s1 in (ds ++ ds', s2)) = (ds', s')
      ∧ R p' s' ∧ pipeline_wf p' ∧ ids_in used p').
  { intros ds q1 t1 Hw Hi Hq. specialize (IH q1 t1 Hw Hi Hq).
    destruct (consume step consumer options nows q1) as [ds' p2].
    destruct IH as (s2 & -> & HR2). eauto. }
  destruct r as [|[ds|]| |]; try by apply (Hskip []).
  destruct (acks_simulated used consumer now ds p1 s1 Hwf1 Hids1 HR1) as (? & ? & ?). by apply Hskip.
Qed.
End OnDriver.

Fixpoint calls_ids `{SerdeJson} (cs : list Call) : gset string :=
  match cs with [] => ∅ | c :: cs' => call_ids c ∪ calls_ids cs' end.

Section Runs.
Context `{SerdeJson} (reclaim : option Z) (retention_ms max_rows : Z).

Lemma calls_ok_app used cs cs' :
  calls_ok used (cs ++ cs') ↔ calls_ok used cs ∧ calls_ok (calls_ids cs ∪ used) cs'.
Proof using Type.
  revert used. induction cs as [|c cs IH]; intros used; simpl.
  - rewrite union_empty_l_L. naive_solver.
  - rewrite IH. replace (call_ids c ∪ calls_ids cs ∪ used) with (calls_ids cs ∪ (call_ids c ∪ used))
      by set_solver. naive_solver.
Qed.

Lemma spec_calls_wf used cs (p : Pipeline) :
  pipeline_wf p → ids_in used p → calls_ok used cs →
  let p' := (spec_calls reclaim retention_ms max_rows cs p).2 in
  pipeline_wf p' ∧ ids_in (calls_ids cs ∪ used) p'.
Proof using Type.
  revert used p. induction cs as [|c cs IH]; intros used p Hwf Hids; cbn [spec_calls calls_ids].
  { split; [done|]. by rewrite union_empty_l_L. }
  intros [Hc Hcs]. destruct (spec_call _ _ _ c p) as [r p1] eqn:E.
  destruct (spec_call_wf _ _ _ _ _ _ _ _ Hwf Hids Hc E) as [Hwf1 Hids1].
  destruct (IH _ _ Hwf1 Hids1 Hcs) as [Hwf2 Hids2]. destruct (spec_calls _ _ _ cs p1) as [rs p2].
  split; [done|]. intros i Hi. specialize (Hids2 i Hi). set_solver.
Qed.

Lemma ids_in_empty : ids_in ∅ empty_pipeline.
Proof using Type. by intros i Hi%not_elem_of_nil. Qed.

(** Nothing outstanding: a claim hands out nothing. *)
Lemma nothing_chosen (p : Pipeline) name options now :
  outstanding p name = [] → chosen reclaim p name options now = [].
Proof using Type.
  intros Ho. unfold chosen.
  assert (List.filter (is_claimable reclaim (pl_deliveries p) name
    (default (iso_from_epoch_ms now) (co_available_at options)) now) (pl_events p) = []) as ->;
    [|by rewrite take_nil].
  apply elem_of_nil_inv. intros e [He Hc]%list_elem_of_In%filter_In.
  apply (not_elem_of_nil e). rewrite <- Ho. apply list_elem_of_In, filter_In. split; [done|].
  unfold is_claimable, claimable in Hc. unfold unsettled. by destruct (dl_status _).
Qed.
End Runs.

(** A run on a driver next to the run on the pipeline. *)
Lemma run_simulated `{SerdeJson} {S} (D : PlatformEventsDriver S) reclaim retention_ms max_rows R used cs
    (p : Pipeline) s :
  simulates D reclaim retention_ms max_rows R →
  pipeline_wf p → ids_in used p → calls_ok used cs → R p s →
  let p' := (spec_calls reclaim retention_ms max_rows cs p).2 in
  R p' (calls D cs s).2 ∧ pipeline_wf p' ∧ ids_in (calls_ids cs ∪ used) p'.
Proof.
  intros Hsim Hwf Hids Hok HR p'.
  destruct (spec_calls_wf reclaim retention_ms max_rows used cs p Hwf Hids Hok) as [Hwf' Hids'].
  split; [|done]. destruct (calls_simulated D reclaim retention_ms max_rows R used cs p s _ p'
    Hsim Hwf Hids Hok HR (surjective_pairing _)) as (s' & -> & HR' & _). done.
Qed.

(** From [now] on nothing of the consumer is waiting: events were accepted and
    retries are due by then, and every open claim is older than the timeout. *)
Definition quiet `{SerdeJson} (timeout : Z) (p : Pipeline) (name : string) (now : Z) : bool :=
  forallb (λ e,
    let d := delivery_of (pl_deliveries p) name e in
    match dl_status d with
    | Pending | Retry => Str.leb (dl_available_at d) (iso_from_epoch_ms now)
    | Claimed =>
        match dl_claimed_at d with
        | Some c => Str.leb c (iso_from_epoch_ms (i64_sub now timeout))
        | None => true
        end
    | Acked | DeadLettered => true
    end) (pl_events p).

Lemma quiet_claimable `{SerdeJson} timeout (p : Pipeline) name now e :
  quiet timeout p name now = true → e ∈ outstanding p name →
  claimable (Some timeout) (iso_from_epoch_ms now) now (delivery_of (pl_deliveries p) name e) = true.
Proof.
  unfold quiet. rewrite forallb_forall. intros Hq [He Hu]%list_elem_of_In%filter_In. specialize (Hq e He).
  unfold unsettled, claimable in *. by destruct (dl_status _).
Qed.

(** C35: delivery is live: after any history, a consumer of the durable driver
    that keeps claiming and acknowledging, at times when retries are due and open
    claims (say of a crashed worker) have outlived the visibility timeout,
    receives every outstanding event exactly once and in sequence order within as
    many rounds as batches are needed, and afterwards has nothing left to
    claim. *)
Theorem sqlite_delivers_outstanding `{SerdeJson} retention_ms max_rows timeout msg cs consumer name
    options nows :
  let D := sqlite_driver msg retention_ms max_rows timeout in
  let p := (spec_calls (Some timeout) retention_ms max_rows cs empty_pipeline).2 in
  calls_ok ∅ cs → normalize_consumer_name consumer = Ok name → co_available_at options = None →
  Forall (λ now, quiet timeout p name now = true) nows →
  (length (outstanding p name)
   ≤ length nows * Z.to_nat (clamp_batch_size (co_batch_size options)))%nat →
  let '(ds, s) := consume (call D) consumer options nows (calls D cs Sql.empty_tables).2 in
  pd_event <$> ds = outstanding p name
  ∧ ∀ options' now', (call D (CClaim consumer options' now') s).1 = RClaim (Ok []).
Proof.
  intros D p Hok Hname Hav Hq Hlen.
  pose proof (sqlite_simulates msg retention_ms max_rows timeout) as Hsim.
  destruct (run_simulated D _ _ _ _ ∅ cs empty_pipeline Sql.empty_tables Hsim empty_pipeline_wf
    ids_in_empty Hok sql_rel_init) as (HR & Hwf & Hids). fold p in HR, Hwf, Hids.
  pose proof (consume_spec (Some timeout) retention_ms max_rows consumer name Hname p options nows
    Hwf Hav) as Hcs.
  pose proof (consume_simulated D _ _ _ _ Hsim _ consumer options nows p _ Hwf Hids HR) as Hcon.
  destruct (consume (spec_call _ _ _) consumer options nows p) as [ds p'].
  destruct Hcon as (s' & -> & HR' & Hwf' & Hids'). destruct Hcs as [Hds Hout].
  { eapply Forall_impl; [exact Hq|]. intros now Hnow e. by apply quiet_claimable. }
  rewrite take_ge in Hds by done. rewrite drop_ge in Hout by done. split; [done|].
  intros options' now'. destruct (call_simulated D _ _ _ _ Hsim _ p' s'
    (CClaim consumer options' now') Hwf' Hids' HR') as (-> & _); [done|done|].
  simpl. unfold spec_claim. rewrite Hname. by rewrite nothing_chosen.
Qed.

(** ** Stale attempts *)

Lemma update_claimed_noop f name id a t :
  (∀ r, Sql.platform_event_deliveries t !! (name, id) = Some r → Sql.attempt_count r ≠ at_attempt a) →
  Sql.update_claimed f name id a t = t.
Proof.
  intros Hr. unfold Sql.update_claimed, Sql.with_tables. destruct t as [es q ds]. simpl in *. f_equal.
  apply map_eq. intros k. destruct (decide (k = (name, id))) as [->|Hne].
  - rewrite lookup_alter_eq. destruct (ds !! (name, id)) as [r|]; [|done]. simpl.
    specialize (Hr r eq_refl). by rewrite (proj2 (Z.eqb_neq _ _) Hr), andb_false_r.
  - by rewrite lookup_alter_ne.
Qed.

Definition settles `{SerdeJson} (consumer event_id : string) (a : PlatformEventDeliveryAttempt)
    (c : Call) : Prop :=
  match c with
  | CAck c' i b _ | CRetry c' i b _ _ _ | CDeadLetter c' i b _ _ => c' = consumer ∧ i = event_id ∧ b = a
  | _ => False
  end.

(** a stale worker cannot touch a newer claim: when the durable driver has
    handed an event out as some attempt, an acknowledgement, retry or dead letter
    of that event under any other attempt number changes nothing at all. *)
Theorem stale_attempt_ignored `{SerdeJson} retention_ms max_rows timeout msg cs consumer options now
    ds s d a c :
  let D := sqlite_driver msg retention_ms max_rows timeout in
  calls_ok ∅ cs →
  call D (CClaim consumer options now) (calls D cs Sql.empty_tables).2 = (RClaim (Ok ds), s) →
  d ∈ ds → at_attempt a ≠ pd_attempt d → settles consumer (pe_id (pd_event d)) a c →
  call D c s = (RUnit (Ok tt), s).
Proof.
  intros D Hok Hcl Hd Ha Hset.
  pose proof (sqlite_simulates msg retention_ms max_rows timeout) as Hsim.
  destruct (run_simulated D _ _ _ _ ∅ cs empty_pipeline Sql.empty_tables Hsim empty_pipeline_wf
    ids_in_empty Hok sql_rel_init) as (HR & Hwf & Hids).
  set (p := (spec_calls _ _ _ cs empty_pipeline).2) in *.
  destruct (call_simulated D _ _ _ _ Hsim _ p _ (CClaim consumer options now) Hwf Hids HR)
    as (Hr & HR1 & _); [done|done|].
  rewrite Hcl in Hr, HR1. simpl in Hr, HR1. unfold spec_claim in Hr, HR1.
  destruct (normalize_consumer_name consumer) as [name|] eqn:En; [|done].
  injection Hr as ->. apply list_elem_of_fmap in Hd as (e & -> & He). simpl in Ha, Hset.
  assert (Hrow : ∀ r, Sql.platform_event_deliveries s !! (name, pe_id e) = Some r →
                   Sql.attempt_count r ≠ at_attempt a).
  { intros r Hl. pose proof (sr_deliveries _ _ HR1 (name, pe_id e)) as Hk. rewrite Hl in Hk.
    simpl in Hk. rewrite claim_delivery in Hk;
      [|by apply pw_ids|by eapply sublist_in; [apply chosen_sublist|]].
    rewrite bool_decide_true in Hk by by apply list_elem_of_fmap_2.
    inversion Hk as [? ? Hrd|]; subst. rewrite (rd_attempt _ _ Hrd). simpl. congruence. }
  destruct c; simpl in Hset; try done; destruct Hset as (-> & -> & ->); simpl;
    unfold Sql.ack, Sql.retry, Sql.dead_letter; rewrite En; by rewrite update_claimed_noop.
Qed.

(** ** The in-process driver does not redeliver *)

Section NoRedelivery.
Context `{SerdeJson} (retention_ms max_rows : Z).
Implicit Types (p : Pipeline).

Definition not_settling (c : Call) : Prop :=
  match c with CPublish _ _ _ | CClaim _ _ _ | CPrune _ => True | _ => False end.

(** The event, if still there, is claimed by the consumer. *)
Definition held (name i : string) p : Prop :=
  ∀ e, e ∈ pl_events p → pe_id e = i →
    ∃ d, pl_deliveries p !! (name, i) = Some d ∧ dl_status d = Claimed.

Lemma held_not_chosen name i p options now :
  pipeline_wf p → held name i p → i ∉ (pe_id <$> chosen None p name options now).
Proof using Type.
  intros Hwf Hh (e & -> & He)%list_elem_of_fmap.
  pose proof (sublist_in _ _ _ (chosen_sublist _ _ _ _ _) He) as Hev.
  destruct (Hh e Hev eq_refl) as (d & Hd & Hs). unfold chosen in He.
  apply (sublist_in _ _ _ (take_sublist _ _)) in He. apply list_elem_of_In, filter_In in He as [_ Hc].
  unfold is_claimable, delivery_of, claimable in Hc. rewrite Hd in Hc. simpl in Hc. by rewrite Hs in Hc.
Qed.

Lemma held_step used name i c p :
  pipeline_wf p → ids_in used p → i ∈ used → call_ok used c → not_settling c → held name i p →
  held name i (spec_call None retention_ms max_rows c p).2.
Proof using Type.
  intros Hwf Hids Hi Hok Hns Hh. destruct c as [input id now|consumer options now|?|?|?|now]; try done; simpl.
  - unfold spec_publish. destruct (normalized _ _) as [n|]; [|done]. destruct (existing n p); [done|].
    simpl. intros e. cbn [pl_events pl_deliveries]. rewrite elem_of_app, list_elem_of_singleton.
    intros [He| ->] Heq; [by eapply Hh|].
    simpl in Heq. subst id. by destruct Hok.
  - unfold spec_claim. destruct (normalize_consumer_name consumer) as [name'|]; [|done]. simpl.
    intros e He Heq. destruct (Hh e He Heq) as (d & Hd & Hs). simpl. exists d. split; [|done].
    destruct (decide (name' = name)) as [->|Hne].
    + rewrite mark_out by (right; by apply held_not_chosen). apply backfill_kept; [done|by apply pw_ids].
    + rewrite mark_out by auto. by rewrite backfill_out by auto.
  - intros e He Heq. simpl in He. destruct (Hh e) as (d & Hd & Hs); [|done|].
    { eapply sublist_in; [apply retained_sublist|exact He]. }
    exists d. split; [|done]. simpl. apply map_lookup_filter_Some. split; [done|]. simpl.
    rewrite <- Heq. by apply list_elem_of_fmap_2.
Qed.

Lemma held_steps used name i cs p :
  pipeline_wf p → ids_in used p → i ∈ used → calls_ok used cs → Forall not_settling cs → held name i p →
  held name i (spec_calls None retention_ms max_rows cs p).2.
Proof using Type.
  revert used p. induction cs as [|c cs IH]; intros used p Hwf Hids Hi; [done|].
  cbn [calls_ok spec_calls]. intros [Hc Hcs] [Hn Hns]%Forall_cons Hh.
  pose proof (held_step used name i c p Hwf Hids Hi Hc Hn Hh) as Hh1.
  destruct (spec_call _ _ _ c p) as [r p1] eqn:E.
  destruct (spec_call_wf _ _ _ _ _ _ _ _ Hwf Hids Hc E) as [Hwf1 Hids1].
  specialize (IH _ _ Hwf1 Hids1 ltac:(set_solver) Hcs Hns Hh1).
  by destruct (spec_calls _ _ _ cs p1).
Qed.
End NoRedelivery.

(** without a visibility timeout: once the in-process driver has handed an
    event to a consumer, no later claim of that consumer returns it again while
    the delivery is neither acknowledged, retried nor dead-lettered, however much
    time passes; an event of a consumer that crashed stays claimed for good. *)
Theorem memory_never_redelivers `{SerdeJson} retention_ms max_rows cs consumer options now ds s cs' options'
    now' ds' s' d d' :
  let D := memory_driver retention_ms max_rows in
  calls_ok ∅ (cs ++ cs') → Forall not_settling cs' →
  call D (CClaim consumer options now) (calls D cs Mem.Inner_default).2 = (RClaim (Ok ds), s) →
  call D (CClaim consumer options' now') (calls D cs' s).2 = (RClaim (Ok ds'), s') →
  d ∈ ds → d' ∈ ds' → pe_id (pd_event d') ≠ pe_id (pd_event d).
Proof.
  intros D [Hok Hok']%calls_ok_app Hns Hc1 Hc2 Hd Hd'.
  pose proof (memory_simulates retention_ms max_rows) as Hsim.
  destruct (run_simulated D _ _ _ _ ∅ cs empty_pipeline Mem.Inner_default Hsim empty_pipeline_wf
    ids_in_empty Hok mem_rel_init) as (HR & Hwf & Hids).
  set (p := (spec_calls _ _ _ cs empty_pipeline).2) in *.
  destruct (call_simulated D _ _ _ _ Hsim _ p _ (CClaim consumer options now) Hwf Hids HR)
    as (Hr & HR1 & Hwf1 & Hids1); [done|done|]. rewrite Hc1 in Hr, HR1. cbn [fst snd] in Hr, HR1.
  set (p1 := (spec_call None _ _ (CClaim consumer options now) p).2) in *.
  destruct (run_simulated D _ _ _ _ _ cs' p1 s Hsim Hwf1 Hids1 Hok' HR1) as (HR2 & Hwf2 & Hids2).
  assert (Hname : ∃ name, normalize_consumer_name consumer = Ok name)
    by (simpl in Hr; unfold spec_claim in Hr; destruct (normalize_consumer_name consumer); [eauto|done]).
  destruct Hname as [name En].
  assert (Hds : ds = hand_out (pl_deliveries p) name now <$> chosen None p name options now)
    by (simpl in Hr; unfold spec_claim in Hr; rewrite En in Hr; by injection Hr).
  subst ds. apply list_elem_of_fmap in Hd as (e & -> & He). cbn [pd_event hand_out].
  pose proof (sublist_in _ _ _ (chosen_sublist _ _ _ _ _) He) as Hev.
  assert (Hheld : held name (pe_id e) p1).
  { intros x Hx Hxe. pose proof (claim_delivery None p name options now e (pw_ids p Hwf) Hev) as Hl.
    rewrite bool_decide_true in Hl by by apply list_elem_of_fmap_2.
    unfold p1. simpl. unfold spec_claim. rewrite En. eexists. by split; [exact Hl|]. }
  assert (Hh2 : held name (pe_id e) (spec_calls None retention_ms max_rows cs' p1).2)
    by (eapply held_steps; eauto; by apply Hids, list_elem_of_fmap_2).
  destruct (call_simulated D _ _ _ _ Hsim _ _ _ (CClaim consumer options' now') Hwf2 Hids2 HR2)
    as (Hr2 & _); [done|done|]. rewrite Hc2 in Hr2. cbn [fst] in Hr2.
  simpl in Hr2. unfold spec_claim in Hr2. rewrite En in Hr2. injection Hr2 as ->.
  apply list_elem_of_fmap in Hd' as (e' & -> & He'). cbn [pd_event hand_out]. intros Heq.
  apply (held_not_chosen name (pe_id e) _ options' now' Hwf2 Hh2). rewrite <- Heq.
  by apply list_elem_of_fmap_2.
Qed.

(** ** A concrete history *)

Module SampleEvents.
(** Object maps as their own text. *)
#[export] Instance json : SerdeJson :=
  {| JsonMap := string; empty_map := "{}"; object_to_string := id; parse_object := Some;
     string_to_json := id |}.

Definition t0 : Z := 1700000000123.
Definition retention : Z := DEFAULT_PLATFORM_EVENTS_RETENTION_MS.
Definition cap : Z := DEFAULT_PLATFORM_EVENTS_MAX_ROWS.
Definition timeout : Z := DEFAULT_PLATFORM_EVENTS_CLAIM_TIMEOUT_MS.
Definition sent (key : string) : PlatformEventInput :=
  {| pi_family := "analytics.user_event"; pi_name := " message.sent "; pi_source := "test";
     pi_tenant_id := Some "t1"; pi_account_id := None; pi_subject_id := None; pi_trace_id := None;
     pi_idempotency_key := Some key; pi_occurred_at := None; pi_payload := "{}";
     pi_attributes := "{}" |}.
Definition options (n : Z) : PlatformEventClaimOptions :=
  {| co_batch_size := Some n; co_available_at := None |}.
(** Two events and a duplicate; a worker claims one and crashes. *)
Definition history : list Call :=
  [CPublish (sent "k1") "e1" t0; CPublish (sent "k2") "e2" (t0 + 1); CPublish (sent "k1") "e3" (t0 + 2);
   CClaim "audit" (options 1) (t0 + 3)].
Definition sqlite : PlatformEventsDriver Sql.Tables := sqlite_driver "UNIQUE" retention cap timeout.
Definition memory : PlatformEventsDriver Mem.Inner := memory_driver retention cap.
Definition state : Sql.Tables := (calls sqlite history Sql.empty_tables).2.
Definition later : Z := t0 + 3 + timeout.

Lemma history_ok : calls_ok ∅ history.
Proof.
  assert (Ht : tenant_ok (Some "t1")).
  { intros t [= <-]. split; [done|]. vm_compute. intros Hin. repeat (inversion Hin as [|? ? ? Hin']; clear Hin; rename Hin' into Hin). }
  repeat split; try done; set_solver.
Qed.
End SampleEvents.
Import SampleEvents.

Lemma drivers_refine_pipeline_witness :
  (calls sqlite history Sql.empty_tables).1 = (calls memory history Mem.Inner_default).1.
Proof.
  destruct (drivers_refine_pipeline retention cap timeout "UNIQUE" history history_ok) as [H1 H2].
  unfold sqlite, memory. rewrite H1, H2. vm_compute. reflexivity.
Defined.

Lemma sqlite_delivers_outstanding_witness :
  (λ d, (pe_id (pd_event d), pd_attempt d))
    <$> (consume (call sqlite) "audit" (options 10) [later] state).1 = [("e1", 2); ("e2", 1)]
  ∧ (call sqlite (CClaim "audit" (options 10) (later + timeout))
       (consume (call sqlite) "audit" (options 10) [later] state).2).1 = RClaim (Ok []).
Proof.
  pose proof (sqlite_delivers_outstanding retention cap timeout "UNIQUE" history "audit" "audit"
    (options 10) [later] history_ok eq_refl eq_refl) as Hd.
  assert (Hq : Forall (λ now, quiet timeout
    (spec_calls (Some timeout) retention cap history empty_pipeline).2 "audit" now = true) [later])
    by (apply Forall_singleton; vm_compute; reflexivity).
  specialize (Hd Hq ltac:(vm_compute; lia)). fold sqlite in Hd. fold state in Hd.
  split; [vm_compute; reflexivity|].
  destruct (consume (call sqlite) "audit" (options 10) [later] state) as [ds s]. apply (proj2 Hd).
Defined.

Lemma stale_attempt_ignored_witness :
  let s := (call sqlite (CClaim "audit" (options 10) later) state).2 in
  call sqlite (CAck "audit" "e1" {| at_attempt := 1; at_claimed_at := iso_from_epoch_ms (t0 + 3) |}
                 later) s = (RUnit (Ok tt), s).
Proof.
  cbv zeta.
  destruct (call sqlite (CClaim "audit" (options 10) later) state) as [r s] eqn:E.
  assert (∃ ds, r = RClaim (Ok ds) ∧ ∃ d, d ∈ ds ∧ pe_id (pd_event d) = "e1" ∧ pd_attempt d = 2)
    as (ds & -> & d & Hd & Hid & Hat).
  { assert (r = (call sqlite (CClaim "audit" (options 10) later) state).1) as -> by exact (eq_sym (f_equal fst E)).
    clear E. eexists. split; [vm_compute; reflexivity|]. eexists. split; [apply elem_of_cons; by left|].
    by split. }
  apply (stale_attempt_ignored retention cap timeout "UNIQUE" history "audit" (options 10) later ds s d
    {| at_attempt := 1; at_claimed_at := iso_from_epoch_ms (t0 + 3) |}
    (CAck "audit" "e1" {| at_attempt := 1; at_claimed_at := iso_from_epoch_ms (t0 + 3) |} later)).
  - exact history_ok.
  - exact E.
  - exact Hd.
  - rewrite Hat. cbn. lia.
  - rewrite Hid. exact (conj eq_refl (conj eq_refl eq_refl)).
Defined.

(** The crashed worker's event, a week later: the in-process driver still skips
    it. *)
Lemma memory_never_redelivers_witness :
  let s := (call memory (CClaim "audit" (options 10) (t0 + retention))
              (calls memory history Mem.Inner_default).2).1 in
  match s with
  | RClaim (Ok ds) => Forall (λ d', pe_id (pd_event d') ≠ "e1") ds
  | _ => False
  end.
Proof.
  cbv zeta.
  destruct (call memory (CClaim "audit" (options 10) (t0 + retention))
              (calls memory history Mem.Inner_default).2) as [r s] eqn:E.
  assert (∃ ds, r = RClaim (Ok ds)) as (ds & ->).
  { assert (r = (call memory (CClaim "audit" (options 10) (t0 + retention))
              (calls memory history Mem.Inner_default).2).1) as -> by exact (eq_sym (f_equal fst E)).
    clear E. eexists. vm_compute. reflexivity. }
  cbn [fst]. apply Forall_forall. intros d' Hd'.
  set (before := take 3 history).
  destruct (call memory (CClaim "audit" (options 1) (t0 + 3)) (calls memory before Mem.Inner_default).2)
    as [r1 s1] eqn:E1.
  assert (∃ ds d, r1 = RClaim (Ok ds) ∧ d ∈ ds ∧ pe_id (pd_event d) = "e1")
    as (ds1 & d & -> & Hd & <-).
  { assert (r1 = (call memory (CClaim "audit" (options 1) (t0 + 3))
              (calls memory before Mem.Inner_default).2).1) as -> by exact (eq_sym (f_equal fst E1)).
    clear E1. eexists _, _. split_and!; [vm_compute; reflexivity|apply elem_of_cons; by left|done]. }
  apply (memory_never_redelivers retention cap before "audit" (options 1) (t0 + 3) ds1 s1 []
    (options 10) (t0 + retention) ds s d d').
  - pose proof history_ok as Hok. cbn in Hok |- *. tauto.
  - constructor.
  - exact E1.
  - change (calls memory history Mem.Inner_default).2
      with (call memory (CClaim "audit" (options 1) (t0 + 3)) (calls memory before Mem.Inner_default).2).2 in E.
    rewrite E1 in E. exact E.
  - exact Hd.
  - exact Hd'.
Defined.
