(* ===== verification/ServerErrors.v ===== *)
(** * Server errors ([frick-server/src/error.rs])

    The error taxonomy every handler returns, its HTTP status, its wire code and
    the envelope it is sent as. *)

From Stdlib Require Import ZArith Lia Ascii String.
From stdpp Require Import base gmap strings list pretty.
From S2P Require Import Prelude Value Errors Schema.

Inductive LimitKind : Type :=
| MaxBlobBytes | MaxBlobBytesPerPrincipal | MaxStreamAppendPayloadBytes | MaxSseConnections
| MaxAuthAttemptsPerWindow | Limit_Other.

Inductive ServerError : Type :=
| SE_Authentication (message : string)
| SE_SessionExpired
| SE_Authorization (message : string) (reason : option string)
| SE_CorsOriginRejected
| SE_UnknownTenant (tenant_id : string)
| SE_EmailTaken
| SE_Limit (kind : LimitKind) (detail : Value)
| SE_BlobValidationRejected (message processor_id : string) (rejection_reason : option string)
| SE_InvalidStreamCursor
| SE_ProjectionNotFound (projection : string)
| SE_ProviderNotConfigured (provider : string)
| SE_SearchIndexNotFound (index : string)
| SE_InvalidSearchQuery
| SE_AdminAuditWrite
| SE_StorageConflict (detail : Value)
| SE_BadRequest (message : string)
| SE_Internal.

(** The [#[error(..)]] texts. *)
Definition ServerError_display (e : ServerError) : string :=
  match e with
  | SE_Authentication m | SE_Authorization m _ | SE_BlobValidationRejected m _ _
  | SE_BadRequest m => m
  | SE_SessionExpired => "session expired"
  | SE_CorsOriginRejected => "origin not allowed"
  | SE_UnknownTenant t => "unknown tenant: " +:+ t
  | SE_EmailTaken => "An account with that email already exists"
  | SE_Limit _ _ => "limit exceeded"
  | SE_InvalidStreamCursor => "invalid stream cursor"
  | SE_ProjectionNotFound p => "projection not found: " +:+ p
  | SE_ProviderNotConfigured p => p +:+ " provider not configured"
  | SE_SearchIndexNotFound i => "Search index " +:+ quote +:+ i +:+ quote +:+ " not found"
  | SE_InvalidSearchQuery => "Invalid search query"
  | SE_AdminAuditWrite => "admin audit write failed"
  | SE_StorageConflict _ => "storage conflict"
  | SE_Internal => "internal error"
  end.

Definition http_status (e : ServerError) : Z :=
  match e with
  | SE_Authentication _ | SE_SessionExpired => 401
  | SE_Authorization _ _ | SE_CorsOriginRejected | SE_UnknownTenant _ => 403
  | SE_Limit kind _ =>
      match kind with MaxSseConnections | MaxAuthAttemptsPerWindow => 429 | _ => 413 end
  | SE_BlobValidationRejected _ _ _ => 415
  | SE_ProjectionNotFound _ | SE_SearchIndexNotFound _ | SE_ProviderNotConfigured _ => 404
  | SE_AdminAuditWrite | SE_Internal => 500
  | SE_EmailTaken => 409
  | SE_InvalidStreamCursor | SE_StorageConflict _ | SE_BadRequest _ | SE_InvalidSearchQuery =>
      match e with SE_StorageConflict _ => 409 | _ => 400 end
  end.

Definition error_code (e : ServerError) : FrickErrorCode :=
  match e with
  | SE_SessionExpired => AuthSessionExpired
  | SE_Authentication _ => AuthUnauthenticated
  | SE_Authorization _ _ | SE_CorsOriginRejected | SE_UnknownTenant _ => AuthForbidden
  | SE_BlobValidationRejected _ _ _ => BlobUnsupportedContentType
  | SE_InvalidStreamCursor => StreamInvalidCursor
  | SE_StorageConflict _ | SE_EmailTaken => StorageConflict
  | SE_ProjectionNotFound _ | SE_SearchIndexNotFound _ | SE_ProviderNotConfigured _ =>
      StorageNotFound
  | SE_AdminAuditWrite | SE_Internal => ServerInternal
  | SE_Limit kind _ =>
      match kind with
      | MaxBlobBytes => BlobTooLarge
      | MaxBlobBytesPerPrincipal => BlobQuotaExceeded
      | MaxStreamAppendPayloadBytes => StreamAppendRejected
      | _ => RateLimitExceeded
      end
  | SE_BadRequest _ | SE_InvalidSearchQuery => SyncProtocolError
  end.

(** [(k.as_str().unwrap_or_default().to_string(), v.clone())]. *)
Definition detail_entries (detail : Value) : list (string * Value) :=
  match detail with
  | VMap entries => (λ kv, (default "" (as_str kv.1), kv.2)) <$> entries
  | _ => []
  end.

(** The entries [to_envelope] adds after [routeCode]. *)
Definition error_details (e : ServerError) : list (string * Value) :=
  match e with
  | SE_Authorization _ (Some reason) => [("reason", VStr reason)]
  | SE_UnknownTenant t => [("reason", VStr "unknownTenant"); ("tenantId", VStr t)]
  | SE_EmailTaken => [("reason", VStr "emailTaken")]
  | SE_ProjectionNotFound p => [("projection", VStr p)]
  | SE_ProviderNotConfigured p => [("reason", VStr "providerNotConfigured"); ("provider", VStr p)]
  | SE_SearchIndexNotFound i => [("reason", VStr "searchIndexNotFound"); ("index", VStr i)]
  | SE_InvalidSearchQuery => [("reason", VStr "invalidSearchQuery")]
  | SE_BlobValidationRejected _ processor_id rejection =>
      [("reason", VStr "blobValidationRejected"); ("processorId", VStr processor_id)]
      ++ match rejection with Some r => [("rejectionReason", VStr r)] | None => [] end
  | SE_Limit _ detail | SE_StorageConflict detail => detail_entries detail
  | _ => []
  end.

(** [foundation] is the schema of [foundation_schema()]. *)
Definition to_envelope (foundation : FrickSchema) (e : ServerError) (request_id : string) :
    FrickErrorEnvelope :=
  {| code := error_code e; env_message := ServerError_display e; request_id := request_id;
     retryable := match e with SE_Limit MaxAuthAttemptsPerWindow _ => true | _ => false end;
     details := Some (VMap ((λ kv, (VStr kv.1, kv.2))
                              <$> (("routeCode", VStr request_id) :: error_details e)));
     schema_hash := Some (hash foundation);
     env_schema_revision := Some (schema_revision foundation) |}.

(** What a client can rely on about the status of a code. *)
Definition status_of_code (c : FrickErrorCode) (e : ServerError) : Prop :=
  match c with
  | AuthUnauthenticated | AuthSessionExpired => http_status e = 401
  | AuthForbidden => http_status e = 403
  | StorageNotFound => http_status e = 404
  | StorageConflict => http_status e = 409
  | BlobTooLarge | BlobQuotaExceeded | StreamAppendRejected => http_status e = 413
  | BlobUnsupportedContentType => http_status e = 415
  | StreamInvalidCursor | SyncProtocolError => http_status e = 400
  | RateLimitExceeded => http_status e = 429 ∨ http_status e = 413
  | ServerInternal => http_status e = 500
  | SchemaIncompatible | SchemaMigrationRequired | SyncReconnectExhausted => False
  end.

(** every server error reaches the client as an envelope: its serialization
    passes the clients' shape check, carries the request id both as [requestId]
    and as [routeCode], its code fixes the HTTP status (only
    [rateLimit.exceeded] leaves two), and exactly the auth-attempt limit is
    marked retryable. *)
Theorem server_error_envelope foundation e request_id :
  let env := to_envelope foundation e request_id in
  is_envelope_value (envelope_to_value env) = true
  ∧ (∃ entries, details env = Some (VMap ((VStr "routeCode", VStr request_id) :: entries)))
  ∧ Errors.request_id env = request_id
  ∧ status_of_code (code env) e
  ∧ (retryable env = true ↔ ∃ d, e = SE_Limit MaxAuthAttemptsPerWindow d).
Proof.
  cbv zeta. split_and!.
  - by rewrite is_envelope_value_of_envelope.
  - eexists. reflexivity.
  - done.
  - destruct e as [| | | | | |k ?| | | | | | | | | |]; try (by simpl); destruct k; simpl; auto.
  - split; [|by intros [d ->]]. destruct e as [| | | | | |k d| | | | | | | | | |]; try done.
    destruct k; try done. eauto.
Qed.
