(* ===== verification/Sessions.v ===== *)
(** * Sessions and tenants ([frick-store/src/stores/{session,tenant}.rs],
      [frick-server/src/session.rs])

    The session table, keyed by the digest of the bearer token, the tenant
    ledger, and the resolution of a token to a principal that HTTP routes and the
    gateway share. SHA-256 is outside the repository: [session_token_digest] is a
    parameter, injective where a theorem is about one session. *)

From Stdlib Require Import ZArith Lia Ascii String.
From stdpp Require Import base gmap strings list sorting pretty.
From S2P Require Import Prelude Value Timestamp StoreBase Encryption Authz ServerErrors.

(** ** The session store *)

Record StoredSession : Type := {
  ss_session_token : string; ss_tenant_id : string; ss_user_id : string; ss_device_id : string;
  ss_replica_id : string; ss_expires_at : string; ss_created_at : string; ss_last_seen_at : string;
}.
Record CreateSessionInput : Type := {
  cs_session_token : string; cs_tenant_id : string; cs_user_id : string; cs_device_id : string;
  cs_replica_id : string; cs_expires_at : string;
}.
Record UserDevice : Type := { ud_device_id : string; ud_replica_id : string; ud_last_seen_at : string }.

(** The columns besides [session_token_digest]. *)
Record SessionRow : Type := {
  sn_tenant_id : string; sn_user_id : string; sn_device_id : string; sn_replica_id : string;
  sn_expires_at : string; sn_created_at : string; sn_last_seen_at : string;
}.
Abbreviation SessionTable := (gmap string SessionRow).

Definition from_row_with_last_seen (row : SessionRow) (session_token last_seen_at : string) :
    StoredSession :=
  {| ss_session_token := session_token; ss_tenant_id := sn_tenant_id row;
     ss_user_id := sn_user_id row; ss_device_id := sn_device_id row;
     ss_replica_id := sn_replica_id row; ss_expires_at := sn_expires_at row;
     ss_created_at := sn_created_at row; ss_last_seen_at := last_seen_at |}.
Definition from_row (row : SessionRow) (session_token : string) : StoredSession :=
  from_row_with_last_seen row session_token (sn_last_seen_at row).

Definition set_last_seen (now : string) (r : SessionRow) : SessionRow :=
  {| sn_tenant_id := sn_tenant_id r; sn_user_id := sn_user_id r; sn_device_id := sn_device_id r;
     sn_replica_id := sn_replica_id r; sn_expires_at := sn_expires_at r;
     sn_created_at := sn_created_at r; sn_last_seen_at := now |}.

(** [expires_ms <= now_ms]; an unparsable expiry never passes. *)
Definition session_expired (expires_at : string) (now_ms : Z) : bool :=
  match parse_iso_ms_opt expires_at with
  | Some expires_ms => expires_ms <=? now_ms
  | None => false
  end.

(** [ORDER BY device_id, last_seen_at DESC]. *)
Definition device_le (a b : SessionRow) : bool :=
  if String.eqb (sn_device_id a) (sn_device_id b)
  then Str.leb (sn_last_seen_at b) (sn_last_seen_at a)
  else Str.leb (sn_device_id a) (sn_device_id b).

(** The loop over the rows: expired ones are skipped, the first of a device
    wins. *)
Fixpoint collect_devices (now_ms : Z) (seen : gset string) (rows : list SessionRow) :
    list UserDevice :=
  match rows with
  | [] => []
  | row :: rows' =>
      if session_expired (sn_expires_at row) now_ms then collect_devices now_ms seen rows'
      else if bool_decide (sn_device_id row ∈ seen) then collect_devices now_ms seen rows'
      else {| ud_device_id := sn_device_id row; ud_replica_id := sn_replica_id row;
              ud_last_seen_at := sn_last_seen_at row |}
           :: collect_devices now_ms ({[sn_device_id row]} ∪ seen) rows'
  end.

Fixpoint distinct_ids (seen : gset string) (ids : list string) : list string :=
  match ids with
  | [] => []
  | i :: ids' =>
      if bool_decide (i ∈ seen) then distinct_ids seen ids'
      else i :: distinct_ids ({[i]} ∪ seen) ids'
  end.
Definition fan_out_targets (devices : list UserDevice) (origin_device_id : string) : list string :=
  distinct_ids ∅ (List.filter (λ i, negb (String.eqb i origin_device_id)) (ud_device_id <$> devices)).

Section SessionStore.
Context (session_token_digest : string → string) (constraint_failed : string).

Definition create (input : CreateSessionInput) (now_ms : Z) :
    M SessionTable StoreError StoredSession := λ t,
  let now := iso_from_epoch_ms now_ms in
  let digest := session_token_digest (cs_session_token input) in
  match t !! digest with
  | Some _ => (Err (Driver constraint_failed), t)
  | None =>
      let row := {| sn_tenant_id := cs_tenant_id input; sn_user_id := cs_user_id input;
                    sn_device_id := cs_device_id input; sn_replica_id := cs_replica_id input;
                    sn_expires_at := cs_expires_at input; sn_created_at := now;
                    sn_last_seen_at := now |} in
      (Ok (from_row row (cs_session_token input)), <[digest := row]> t)
  end.

Definition read_active (session_token : string) (now_ms : Z) :
    M SessionTable StoreError (option StoredSession) := λ t,
  let digest := session_token_digest session_token in
  match t !! digest with
  | None => (Ok None, t)
  | Some row =>
      if session_expired (sn_expires_at row) now_ms then (Ok None, t)
      else
        let now := iso_from_epoch_ms now_ms in
        (Ok (Some (from_row_with_last_seen row session_token now)), alter (set_last_seen now) digest t)
  end.

Definition read_any (t : SessionTable) (session_token : string) : option StoredSession :=
  (λ row, from_row row session_token) <$> t !! session_token_digest session_token.

Definition delete (session_token : string) : M SessionTable StoreError bool := λ t,
  let digest := session_token_digest session_token in
  (Ok (bool_decide (is_Some (t !! digest))), base.delete digest t).

(** [user_id = ?], and [tenant_id = ?] when a tenant is given. *)
Definition of_user (user_id : string) (tenant_id : option string) (r : SessionRow) : bool :=
  String.eqb (sn_user_id r) user_id
  && match tenant_id with Some tenant => String.eqb (sn_tenant_id r) tenant | None => true end.

Definition delete_for_user (user_id : string) (tenant_id : option string) :
    M SessionTable StoreError Z := λ t,
  (Ok (changes (λ kr : string * SessionRow, of_user user_id tenant_id kr.2) (map_to_list t)),
   filter (λ kr, of_user user_id tenant_id kr.2 = false) t).

Definition prune_expired (cutoff_iso : string) : M SessionTable StoreError Z := λ t,
  (Ok (changes (λ kr : string * SessionRow, Str.leb (sn_expires_at kr.2) cutoff_iso) (map_to_list t)),
   filter (λ kr, Str.leb (sn_expires_at kr.2) cutoff_iso = false) t).

Definition list_active_devices_for_user (t : SessionTable) (user_id : string)
    (tenant_id : option string) (now_ms : Z) : list UserDevice :=
  collect_devices now_ms ∅
    (order_by device_le (select (of_user user_id tenant_id) (map_to_list t).*2)).
End SessionStore.

(** ** The tenant ledger *)

Record TenantRow : Type := {
  tr_tenant_id : string; tr_display_name : option string; tr_created_at : string;
  tr_archived_at : option string;
}.
Abbreviation TenantTable := (gmap string TenantRow).

Definition tenant_already_exists_message (tenant_id : string) : string :=
  "Tenant " +:+ tenant_id +:+ " already exists".

(** [ORDER BY created_at ASC, tenant_id ASC]. *)
Definition tenant_le (a b : TenantRow) : bool :=
  if String.eqb (tr_created_at a) (tr_created_at b)
  then Str.leb (tr_tenant_id a) (tr_tenant_id b)
  else Str.leb (tr_created_at a) (tr_created_at b).

Module Tenants.
Definition list_ (t : TenantTable) (include_archived : bool) : list TenantRow :=
  order_by tenant_le
    (select (λ r, include_archived || bool_decide (tr_archived_at r = None)) (map_to_list t).*2).

Definition get (t : TenantTable) (tenant_id : string) : option TenantRow := t !! tenant_id.

Definition create (tenant_id : string) (display_name : option string) (now_ms : Z) :
    M TenantTable StoreError TenantRow := λ t,
  match get t tenant_id with
  | Some existing =>
      if bool_decide (tr_archived_at existing = None)
      then (Err (Store (tenant_already_exists_message tenant_id)), t)
      else
        let row := {| tr_tenant_id := tenant_id; tr_display_name := display_name;
                      tr_created_at := tr_created_at existing; tr_archived_at := None |} in
        (Ok row, <[tenant_id := row]> t)
  | None =>
      let row := {| tr_tenant_id := tenant_id; tr_display_name := display_name;
                    tr_created_at := iso_from_epoch_ms now_ms; tr_archived_at := None |} in
      (Ok row, <[tenant_id := row]> t)
  end.

Definition archive (tenant_id : string) (now_ms : Z) : M TenantTable StoreError unit := λ t,
  match get t tenant_id with
  | None => (Ok tt, t)
  | Some existing =>
      if bool_decide (is_Some (tr_archived_at existing)) then (Ok tt, t)
      else (Ok tt,
            <[tenant_id := {| tr_tenant_id := tr_tenant_id existing;
                              tr_display_name := tr_display_name existing;
                              tr_created_at := tr_created_at existing;
                              tr_archived_at := Some (iso_from_epoch_ms now_ms) |}]> t)
  end.

(** [INSERT .. ON CONFLICT DO NOTHING]. *)
Definition ensure (tenant_id : string) (now_ms : Z) : M TenantTable StoreError unit := λ t,
  match t !! tenant_id with
  | Some _ => (Ok tt, t)
  | None =>
      (Ok tt, <[tenant_id := {| tr_tenant_id := tenant_id; tr_display_name := None;
                                tr_created_at := iso_from_epoch_ms now_ms;
                                tr_archived_at := None |}]> t)
  end.
End Tenants.

(** ** Resolution *)

Record AuthState : Type := { st_sessions : gmap string SessionRow; st_tenants : gmap string TenantRow }.

Definition is_tenant_archived (t : TenantTable) (tenant_id : string) : bool :=
  if String.eqb tenant_id DEFAULT_TENANT_ID then false
  else if Str.starts_with ARCHIVED_TENANT_PREFIX tenant_id then true
  else match Tenants.get t tenant_id with
       | Some r => bool_decide (is_Some (tr_archived_at r))
       | None => false
       end.

Definition tenant_principal (s : StoredSession) : Principal :=
  {| p_user_id := ss_user_id s; p_device_id := ss_device_id s; p_replica_id := ss_replica_id s;
     p_tenant_id := ss_tenant_id s; p_scope := Scope_Tenant; p_service_scopes := [] |}.

Section Resolution.
Context (session_token_digest : string → string).

Definition principal_from_active_session_token (token : string) (now_ms : Z) :
    M AuthState ServerError Principal := λ s,
  match read_active session_token_digest token now_ms (st_sessions s) with
  | (Err _, t) => (Err SE_Internal, {| st_sessions := t; st_tenants := st_tenants s |})
  | (Ok (Some session), t) =>
      let s' := {| st_sessions := t; st_tenants := st_tenants s |} in
      if is_tenant_archived (st_tenants s) (ss_tenant_id session)
      then (Err (SE_Authentication "Tenant is archived"), s')
      else (Ok (tenant_principal session), s')
  | (Ok None, t) =>
      let s' := {| st_sessions := t; st_tenants := st_tenants s |} in
      match read_any session_token_digest t token with
      | Some _ => (Err SE_SessionExpired, s')
      | None => (Err (SE_Authentication "Invalid session"), s')
      end
  end.

(** [authorize] is the application's hook; it sees the state, the token, the
    principal and the time. *)
Definition principal_from_authorized_session_token
    (authorize : AuthState → string → Principal → Z → result ServerError unit)
    (token : string) (now_ms : Z) : M AuthState ServerError Principal :=
  principal ← principal_from_active_session_token token now_ms;
  s ← get_state;
  lift_res (authorize s token principal now_ms);;
  mret principal.
End Resolution.

Definition AllowActiveSessions (_ : AuthState) (_ : string) (_ : Principal) (_ : Z) :
    result ServerError unit := Ok tt.

Definition ensure_tenant_allowed (tenant_id : string) (implicit_tenant_creation : bool) (now_ms : Z) :
    M TenantTable ServerError unit := λ t,
  if String.eqb tenant_id DEFAULT_TENANT_ID then (Ok tt, t)
  else match Tenants.get t tenant_id with
       | Some tenant =>
           if bool_decide (is_Some (tr_archived_at tenant)) then (Err (SE_UnknownTenant tenant_id), t)
           else (Ok tt, t)
       | None =>
           if implicit_tenant_creation then
             match Tenants.ensure tenant_id now_ms t with
             | (Ok _, t') => (Ok tt, t')
             | (Err _, t') => (Err SE_Internal, t')
             end
           else (Err (SE_UnknownTenant tenant_id), t)
       end.

(** ** Requests ([frick-server/src/extract.rs]) *)

(** The first value of each header, by lower-case name. *)
Abbreviation HeaderMap := (gmap string string).
Definition AUTHORIZATION : string := "authorization".
Definition SESSION_TOKEN_HEADER : string := "x-frick-session-token".

(** [HeaderValue::to_str]: visible ASCII, spaces and tabs only. *)
Definition to_str (value : string) : option string :=
  if forallb (λ b, ((32 <=? b) && (b <? 127)) || (b =? 9)) (Str.bytes value) then Some value else None.

Definition drop_str (n : nat) (s : string) : string := String.substring n (String.length s - n) s.

Definition parse_bearer (value : string) : option string :=
  let rest :=
    if Str.starts_with "Bearer" value then Some (drop_str 6 value)
    else if String.eqb (Str.to_lowercase (String.substring 0 6 value)) "bearer" then Some (drop_str 6 value)
    else None in
  match rest with
  | None => None
  | Some rest =>
      match Str.strip_ws rest with
      | None => None
      | Some _ =>
          let token := Str.trim_start rest in
          if Str.is_empty token then None else Some token
      end
  end.

Definition session_token_from_headers (headers : HeaderMap) : option string :=
  let get (name : string) : option string := value ← (headers !! name : option string); to_str value in
  match (value ← get AUTHORIZATION; parse_bearer value) with
  | Some token => Some token
  | None => get SESSION_TOKEN_HEADER
  end.

Definition require_principal (session_token_digest : string → string)
    (authorize : AuthState → string → Principal → Z → result ServerError unit)
    (headers : HeaderMap) (now_ms : Z) : M AuthState ServerError Principal :=
  match session_token_from_headers headers with
  | None => lift_res (Err (SE_Authentication "Missing session token"))
  | Some token => principal_from_authorized_session_token session_token_digest authorize token now_ms
  end.

(** ** Histories *)

(** The writes of the two stores and the resolution of a token, which writes
    [last_seen_at]. *)
Inductive AuthOp : Type :=
| Op_create (input : CreateSessionInput) (now_ms : Z)
| Op_resolve (token : string) (now_ms : Z)
| Op_delete (token : string)
| Op_delete_for_user (user_id : string) (tenant_id : option string)
| Op_prune_expired (cutoff_iso : string)
| Op_tenant_create (tenant_id : string) (display_name : option string) (now_ms : Z)
| Op_tenant_archive (tenant_id : string) (now_ms : Z)
| Op_tenant_ensure (tenant_id : string) (now_ms : Z).

Definition on_sessions {A} (m : M SessionTable StoreError A) (s : AuthState) : AuthState :=
  {| st_sessions := (m (st_sessions s)).2; st_tenants := st_tenants s |}.
Definition on_tenants {A} (m : M TenantTable StoreError A) (s : AuthState) : AuthState :=
  {| st_sessions := st_sessions s; st_tenants := (m (st_tenants s)).2 |}.

Section Histories.
Context (session_token_digest : string → string) (constraint_failed : string).

Definition auth_op (s : AuthState) (op : AuthOp) : AuthState :=
  match op with
  | Op_create input now => on_sessions (create session_token_digest constraint_failed input now) s
  | Op_resolve token now => (principal_from_active_session_token session_token_digest token now s).2
  | Op_delete token => on_sessions (delete session_token_digest token) s
  | Op_delete_for_user user tenant => on_sessions (delete_for_user user tenant) s
  | Op_prune_expired cutoff => on_sessions (prune_expired cutoff) s
  | Op_tenant_create tenant name now => on_tenants (Tenants.create tenant name now) s
  | Op_tenant_archive tenant now => on_tenants (Tenants.archive tenant now) s
  | Op_tenant_ensure tenant now => on_tenants (Tenants.ensure tenant now) s
  end.
Definition auth_ops (s : AuthState) (ops : list AuthOp) : AuthState := foldl auth_op s ops.

(** What a successful resolution is, without the state. *)
Definition resolves (s : AuthState) (token : string) (now_ms : Z) : result ServerError Principal :=
  (principal_from_active_session_token session_token_digest token now_ms s).1.

(** An invariant of every operation the history is made of holds at its end. *)
Lemma auth_ops_invariant (P : AuthState → Prop) (ok : AuthOp → Prop) s ops :
  (∀ s op, ok op → P s → P (auth_op s op)) → Forall ok ops → P s → P (auth_ops s ops).
Proof. intros Hstep Hok. revert s. induction Hok; simpl; eauto. Qed.

(** The resolution by cases on the row. *)
Lemma resolution_cases s token now :
  principal_from_active_session_token session_token_digest token now s
  = match st_sessions s !! session_token_digest token with
    | None => (Err (SE_Authentication "Invalid session"), s)
    | Some row =>
        if session_expired (sn_expires_at row) now then (Err SE_SessionExpired, s)
        else
          (if is_tenant_archived (st_tenants s) (sn_tenant_id row)
           then Err (SE_Authentication "Tenant is archived")
           else Ok (tenant_principal (from_row row token)),
           {| st_sessions := alter (set_last_seen (iso_from_epoch_ms now))
                               (session_token_digest token) (st_sessions s);
              st_tenants := st_tenants s |})
    end.
Proof.
  unfold principal_from_active_session_token, read_active, read_any. destruct s as [t ts]. cbn.
  destruct (t !! _) as [row|] eqn:E; [|by rewrite E].
  destruct (session_expired _ _); [by rewrite E|]. cbn. by destruct (is_tenant_archived _ _).
Qed.

(** Resolving changes rows at most in [last_seen_at]. *)
Lemma resolve_row s token now k :
  st_sessions (auth_op s (Op_resolve token now)) !! k = st_sessions s !! k
  ∨ ∃ seen, st_sessions (auth_op s (Op_resolve token now)) !! k
            = set_last_seen seen <$> st_sessions s !! k.
Proof.
  cbn [auth_op]. rewrite resolution_cases. destruct (st_sessions s !! session_token_digest token) as [row|] eqn:E;
    [|by left]. destruct (session_expired _ _); [by left|]. cbn [snd st_sessions].
  destruct (decide (k = session_token_digest token)) as [->|].
  - right. eexists. apply lookup_alter_eq.
  - left. by rewrite lookup_alter_ne by done.
Qed.

Lemma resolve_tenants s token now : st_tenants (auth_op s (Op_resolve token now)) = st_tenants s.
Proof.
  cbn [auth_op]. rewrite resolution_cases. destruct (_ !! _); [|done]. by destruct (session_expired _ _).
Qed.

(** The columns a row never changes. *)
Definition same_session (a b : SessionRow) : Prop :=
  sn_tenant_id a = sn_tenant_id b ∧ sn_user_id a = sn_user_id b ∧ sn_device_id a = sn_device_id b
  ∧ sn_replica_id a = sn_replica_id b ∧ sn_expires_at a = sn_expires_at b.
Definition row_of (input : CreateSessionInput) (now : string) : SessionRow :=
  {| sn_tenant_id := cs_tenant_id input; sn_user_id := cs_user_id input;
     sn_device_id := cs_device_id input; sn_replica_id := cs_replica_id input;
     sn_expires_at := cs_expires_at input; sn_created_at := now; sn_last_seen_at := now |}.

Lemma create_lookup s input now k :
  st_sessions (auth_op s (Op_create input now)) !! k
  = if decide (k = session_token_digest (cs_session_token input))
    then match st_sessions s !! k with
         | Some r => Some r
         | None => Some (row_of input (iso_from_epoch_ms now))
         end
    else st_sessions s !! k.
Proof.
  cbn [auth_op]. unfold on_sessions, create. cbn [st_sessions].
  destruct (st_sessions s !! session_token_digest _) eqn:E; cbn [snd]; case_decide; subst.
  - by rewrite E.
  - done.
  - by rewrite E, lookup_insert_eq.
  - by rewrite lookup_insert_ne by done.
Qed.

(** A row is there because it was there or because the operation created it. *)
Lemma auth_op_row s op k row' :
  st_sessions (auth_op s op) !! k = Some row' →
  (∃ row, st_sessions s !! k = Some row ∧ same_session row row')
  ∨ (∃ input now, op = Op_create input now ∧ row' = row_of input (iso_from_epoch_ms now)).
Proof.
  assert (∀ r, same_session r r) as Hrefl by done.
  destruct op as [input now|token now|token|user tenant|cutoff| | |].
  - rewrite create_lookup. case_decide; [|eauto].
    destruct (st_sessions s !! k) eqn:E; intros [= <-]; eauto.
  - destruct (resolve_row s token now k) as [->|[seen ->]]; [eauto|].
    intros (row & -> & ->)%fmap_Some. left. by exists row.
  - cbn. rewrite lookup_delete_Some. naive_solver.
  - cbn. rewrite map_lookup_filter_Some. naive_solver.
  - cbn. rewrite map_lookup_filter_Some. naive_solver.
  - cbn. eauto.
  - cbn. eauto.
  - cbn. eauto.
Qed.

(** ** One session *)

(** The operations that leave the session of [input] in the table. *)
Definition spares (input : CreateSessionInput) (op : AuthOp) : bool :=
  match op with
  | Op_delete token => negb (String.eqb token (cs_session_token input))
  | Op_delete_for_user user tenant => negb (of_user user tenant (row_of input ""))
  | Op_prune_expired cutoff => negb (Str.leb (cs_expires_at input) cutoff)
  | _ => true
  end.
Definition has_session (input : CreateSessionInput) (s : AuthState) : Prop :=
  ∃ row, st_sessions s !! session_token_digest (cs_session_token input) = Some row
         ∧ same_session row (row_of input "").

Lemma of_user_same user tenant a b : same_session a b → of_user user tenant a = of_user user tenant b.
Proof. intros (E1 & E2 & _). unfold of_user. by rewrite E1, E2. Qed.

Lemma spared_session_stays `{!Inj (=) (=) session_token_digest} input s op :
  spares input op → has_session input s → has_session input (auth_op s op).
Proof.
  intros Hsp (row & Hrow & Hsame). unfold has_session.
  destruct op as [input' now|token now|token|user tenant|cutoff| | |];
    try (exists row; by split); cbn [spares] in Hsp.
  - exists row. rewrite create_lookup, Hrow. by case_decide.
  - destruct (resolve_row s token now (session_token_digest (cs_session_token input))) as [->|[seen ->]];
      rewrite Hrow; eauto.
  - exists row. split; [|done]. cbn. apply lookup_delete_Some. split; [|done].
    intros ?%(inj session_token_digest). subst. by rewrite String.eqb_refl in Hsp.
  - exists row. split; [|done]. cbn. apply map_lookup_filter_Some_2; [done|]. cbn.
    rewrite (of_user_same _ _ _ _ Hsame). by destruct (of_user _ _ _).
  - exists row. split; [|done]. cbn. apply map_lookup_filter_Some_2; [done|]. cbn [snd].
    destruct Hsame as (_ & _ & _ & _ & He). cbn in He. rewrite He. by destruct (Str.leb _ _).
Qed.
End Histories.

(** ** Revocation *)

Section Revocation.
Context (session_token_digest : string → string) (constraint_failed : string).

Definition no_session_of (user : string) (tenant : option string) (s : AuthState) : Prop :=
  ∀ k row, st_sessions s !! k = Some row → of_user user tenant row = false.
Definition archived_in (tenant : string) (s : AuthState) : Prop :=
  ∃ r, st_tenants s !! tenant = Some r ∧ is_Some (tr_archived_at r).

Lemma no_session_stays user tenant s op :
  match op with
  | Op_create input _ => of_user user tenant (row_of input "") = false
  | _ => True
  end →
  no_session_of user tenant s → no_session_of user tenant (auth_op session_token_digest constraint_failed s op).
Proof.
  intros Hop Hno k row Hrow.
  apply auth_op_row in Hrow as [(row0 & Hrow0 & Hsame)|(input & now & -> & ->)]; [|done].
  rewrite <- (of_user_same user tenant row0 row Hsame). eauto.
Qed.

Lemma archived_stays tenant s op :
  match op with Op_tenant_create tenant' _ _ => tenant' ≠ tenant | _ => True end →
  archived_in tenant s → archived_in tenant (auth_op session_token_digest constraint_failed s op).
Proof.
  intros Hop (r & Hr & Ha). unfold archived_in.
  destruct op as [| | | | |tenant' name now|tenant' now|tenant' now]; try (by exists r).
  - rewrite resolve_tenants. by exists r.
  - exists r. split; [|done]. cbn. unfold Tenants.create. repeat case_match; cbn; try done;
      by rewrite lookup_insert_ne by done.
  - cbn. unfold Tenants.archive, Tenants.get. destruct (st_tenants s !! tenant') eqn:E; [|by exists r].
    case_bool_decide; [by exists r|]. destruct (decide (tenant' = tenant)) as [->|].
    + cbn. eexists. rewrite lookup_insert_eq. split; [done|]. cbn. eauto.
    + exists r. cbn. by rewrite lookup_insert_ne by done.
  - exists r. split; [|done]. cbn. unfold Tenants.ensure. destruct (st_tenants s !! tenant') eqn:E; [done|].
    cbn. rewrite lookup_insert_ne; [done|]. intros ->. congruence.
Qed.

Lemma archive_archives tenant now s :
  is_Some (st_tenants s !! tenant) →
  archived_in tenant (auth_op session_token_digest constraint_failed s (Op_tenant_archive tenant now)).
Proof.
  intros [r Hr]. unfold archived_in. cbn. unfold Tenants.archive, Tenants.get. rewrite Hr.
  case_bool_decide; cbn; [by exists r|]. eexists. rewrite lookup_insert_eq. split; [done|]. cbn. eauto.
Qed.

Lemma resolved_row s token now p :
  resolves session_token_digest s token now = Ok p →
  ∃ row, st_sessions s !! session_token_digest token = Some row
         ∧ sn_user_id row = p_user_id p ∧ sn_tenant_id row = p_tenant_id p
         ∧ is_tenant_archived (st_tenants s) (p_tenant_id p) = false.
Proof.
  unfold resolves. rewrite resolution_cases. destruct (_ !! _) as [row|]; [|done].
  destruct (session_expired _ _); [done|]. cbn. destruct (is_tenant_archived _ _) eqn:E; [done|].
  intros [= <-]. by exists row.
Qed.
End Revocation.

(** ** The device directory *)

Definition device_of (r : SessionRow) : UserDevice :=
  {| ud_device_id := sn_device_id r; ud_replica_id := sn_replica_id r;
     ud_last_seen_at := sn_last_seen_at r |}.

Lemma str_leb_antisym a b : Str.leb a b = true → Str.leb b a = true → a = b.
Proof. intros. by apply bytes_inj, lex_le_antisym. Qed.

Lemma device_le_total x y : device_le x y = true ∨ device_le y x = true.
Proof.
  unfold device_le. destruct (String.eqb_spec (sn_device_id x) (sn_device_id y)) as [->|Hne].
  - rewrite String.eqb_refl. apply lex_le_total.
  - destruct (String.eqb_spec (sn_device_id y) (sn_device_id x)); [congruence|]. apply lex_le_total.
Qed.

Lemma device_le_trans x y z : device_le x y = true → device_le y z = true → device_le x z = true.
Proof.
  unfold device_le. destruct (String.eqb_spec (sn_device_id x) (sn_device_id y)) as [->|Hxy];
    destruct (String.eqb_spec (sn_device_id y) (sn_device_id z)) as [Hyz|Hyz]; try tauto.
  - intros. by eapply lex_le_trans.
  - rewrite <- Hyz. by destruct (String.eqb_spec (sn_device_id x) (sn_device_id y)).
  - intros H1 H2. destruct (String.eqb_spec (sn_device_id x) (sn_device_id z)) as [Heq|].
    + destruct Hxy. apply str_leb_antisym; [done|]. by rewrite Heq.
    + by eapply lex_le_trans.
Qed.

(** What the loop collects from rows in directory order. *)
Lemma collect_elem now L : ∀ seen d,
  StronglySorted (λ a b, device_le a b = true) L → d ∈ collect_devices now seen L →
  ud_device_id d ∉ seen ∧ ∃ row, row ∈ L ∧ session_expired (sn_expires_at row) now = false
    ∧ d = device_of row
    ∧ ∀ row', row' ∈ L → session_expired (sn_expires_at row') now = false →
        sn_device_id row' = sn_device_id row →
        Str.leb (sn_last_seen_at row') (sn_last_seen_at row) = true.
Proof.
  induction L as [|r L IH]; intros seen d Hs; simpl; [by intros ?%elem_of_nil|].
  apply StronglySorted_inv in Hs as [Hs Hle]. specialize (λ sn, IH sn d Hs).
  destruct (session_expired (sn_expires_at r) now) eqn:Ex.
  { intros (Hn & row & ? & ? & ? & Hmax)%IH. split; [done|]. exists row. split_and!; [set_solver|done..|].
    intros row' [->|?]%elem_of_cons; [congruence|eauto]. }
  case_bool_decide as Hseen.
  { intros (Hn & row & ? & ? & -> & Hmax)%IH. split; [done|]. exists row. split_and!; [set_solver|done..|].
    intros row' [->|?]%elem_of_cons ? Heq; [|eauto]. cbn in Hn. by rewrite <- Heq in Hn. }
  intros [->|(Hn & row & ? & ? & -> & Hmax)%IH]%elem_of_cons; cbn.
  - split; [done|]. exists r. split_and!; [set_solver|done..|].
    intros row' [->|Hin]%elem_of_cons ? Heq; [apply lex_le_refl|].
    rewrite Forall_forall in Hle. specialize (Hle _ Hin). unfold device_le in Hle.
    by rewrite Heq, String.eqb_refl in Hle.
  - cbn in Hn. split; [set_solver|]. exists row. split_and!; [set_solver|done..|].
    intros row' [->|?]%elem_of_cons ? Heq; [|eauto]. set_solver.
Qed.

Lemma collect_complete now L : ∀ seen row,
  row ∈ L → session_expired (sn_expires_at row) now = false → sn_device_id row ∉ seen →
  ∃ d, d ∈ collect_devices now seen L ∧ ud_device_id d = sn_device_id row.
Proof.
  induction L as [|r L IH]; intros seen row; [by intros ?%elem_of_nil|]. simpl.
  intros [->|Hin]%elem_of_cons Hex Hseen.
  - rewrite Hex, bool_decide_false by done. eexists. split; [apply elem_of_cons; by left|done].
  - destruct (session_expired (sn_expires_at r) now); [by apply IH|]. case_bool_decide; [by apply IH|].
    destruct (decide (sn_device_id row = sn_device_id r)) as [->|].
    + eexists. split; [apply elem_of_cons; by left|done].
    + destruct (IH ({[sn_device_id r]} ∪ seen) row) as (d & ? & ?); [done..|set_solver|].
      exists d. split; [set_solver|done].
Qed.

Definition device_lt (a b : UserDevice) : Prop := Str.ltb (ud_device_id a) (ud_device_id b) = true.

Lemma collect_sorted now L : ∀ seen,
  StronglySorted (λ a b, device_le a b = true) L →
  StronglySorted device_lt (collect_devices now seen L).
Proof.
  induction L as [|r L IH]; intros seen Hs; simpl; [constructor|].
  apply StronglySorted_inv in Hs as [Hs Hle]. destruct (session_expired _ _); [by apply IH|].
  case_bool_decide; [by apply IH|]. constructor; [by apply IH|].
  apply Forall_forall. intros d (Hn & row & Hin & _ & -> & _)%collect_elem; [|done].
  rewrite Forall_forall in Hle. specialize (Hle _ Hin). unfold device_le in Hle. unfold device_lt, Str.ltb.
  cbn [ud_device_id device_of] in Hn |- *. destruct (String.eqb_spec (sn_device_id r) (sn_device_id row)); [set_solver|].
  destruct (Str.leb (sn_device_id row) (sn_device_id r)) eqn:E; [|done].
  by destruct (str_leb_antisym _ _ Hle E).
Qed.

Lemma distinct_ids_nodup ids seen :
  NoDup ids → (∀ i, i ∈ ids → i ∉ seen) → distinct_ids seen ids = ids.
Proof.
  intros Hnd. revert seen. induction Hnd as [|i ids Hi Hnd IH]; intros seen Hs; simpl; [done|].
  rewrite bool_decide_false by set_solver. f_equal. apply IH. set_solver.
Qed.

Lemma device_lt_nodup ds : StronglySorted device_lt ds → NoDup (ud_device_id <$> ds).
Proof.
  induction 1 as [|d ds Hs IH Hall]; csimpl; constructor; [|done].
  intros (d' & Heq & Hin)%list_elem_of_fmap. rewrite Forall_forall in Hall. specialize (Hall _ Hin).
  unfold device_lt, Str.ltb, Str.leb in Hall. rewrite Heq, lex_le_refl in Hall. done.
Qed.

Definition principal_of (input : CreateSessionInput) : Principal :=
  {| p_user_id := cs_user_id input; p_device_id := cs_device_id input;
     p_replica_id := cs_replica_id input; p_tenant_id := cs_tenant_id input;
     p_scope := Scope_Tenant; p_service_scopes := [] |}.

Section Theorems.
Context (session_token_digest : string → string) (constraint_failed : string).
Local Abbreviation auth_op := (auth_op session_token_digest constraint_failed).
Local Abbreviation auth_ops := (auth_ops session_token_digest constraint_failed).
Local Abbreviation resolves := (resolves session_token_digest).

(** a session is good from its creation to its expiry and no longer. After it
    is created, whatever happens in the session and tenant stores short of its own
    revocation (deleting its token, logging its user out, pruning past its expiry),
    its token resolves to the principal it was created for strictly before the
    expiry, to "session expired" from the expiry on, and to "Tenant is archived"
    when its tenant has been archived in between. *)
Theorem session_lifetime `{!Inj (=) (=) session_token_digest} s input created ops expiry now :
  st_sessions s !! session_token_digest (cs_session_token input) = None →
  in_four_digit_years expiry → cs_expires_at input = iso_from_epoch_ms expiry →
  Forall (spares input) ops →
  let s' := auth_ops (auth_op s (Op_create input created)) ops in
  resolves s' (cs_session_token input) now
  = if expiry <=? now then Err SE_SessionExpired
    else if is_tenant_archived (st_tenants s') (cs_tenant_id input)
    then Err (SE_Authentication "Tenant is archived") else Ok (principal_of input).
Proof.
  intros Hfresh Hyears Hexp Hops s'.
  assert (has_session session_token_digest input s') as (row & Hrow & Hsame).
  { eapply auth_ops_invariant; [|exact Hops|].
    - intros ??. by apply spared_session_stays.
    - eexists. rewrite create_lookup, Hfresh. by case_decide. }
  unfold Sessions.resolves. rewrite resolution_cases, Hrow.
  destruct Hsame as (Ht & Hu & Hd & Hr & He). cbn in Ht, Hu, Hd, Hr, He.
  unfold session_expired. rewrite He, Hexp, iso_roundtrip_eq by done.
  destruct (expiry <=? now); [done|]. cbn. rewrite Ht.
  destruct (is_tenant_archived _ _); [done|]. unfold tenant_principal, principal_of. cbn. by rewrite Hu, Hd, Hr, Ht.
Qed.

(** logging a user out (in one tenant, or everywhere) is final: until a new
    session is created for that user there, no operation of the session and tenant
    stores brings back a token that resolves to them. *)
Theorem logout_final s user tenant ops token now p :
  Forall (λ op, match op with
                | Op_create input _ => of_user user tenant (row_of input "") = false
                | _ => True
                end) ops →
  resolves (auth_ops (auth_op s (Op_delete_for_user user tenant)) ops) token now = Ok p →
  ¬ (p_user_id p = user ∧ (tenant = None ∨ tenant = Some (p_tenant_id p))).
Proof.
  intros Hops Hres Hp.
  assert (no_session_of user tenant (auth_ops (auth_op s (Op_delete_for_user user tenant)) ops)) as Hno.
  { eapply auth_ops_invariant; [|exact Hops|].
    - intros ??. apply no_session_stays.
    - intros k row Hrow. cbn in Hrow. by apply map_lookup_filter_Some in Hrow as [_ ?]. }
  apply resolved_row in Hres as (row & Hrow & Hu & Ht & _).
  specialize (Hno _ _ Hrow). unfold of_user in Hno. rewrite Hu, Ht in Hno.
  destruct Hp as [Hpu Hpt]. rewrite Hpu, String.eqb_refl in Hno.
  destruct Hpt as [->| ->]; cbn in Hno; by rewrite ?String.eqb_refl in Hno.
Qed.

(** an archived tenant is locked out: from the archival until the tenant is
    created again, no token resolves to a principal of it, whatever sessions are
    created, resolved, revoked or pruned. *)
Theorem archived_tenant_locked_out s tenant archived ops token now p :
  tenant ≠ DEFAULT_TENANT_ID → is_Some (st_tenants s !! tenant) →
  Forall (λ op, match op with Op_tenant_create tenant' _ _ => tenant' ≠ tenant | _ => True end) ops →
  resolves (auth_ops (auth_op s (Op_tenant_archive tenant archived)) ops) token now = Ok p →
  p_tenant_id p ≠ tenant.
Proof.
  intros Hdef Hex Hops Hres Hp. revert Hres.
  pose proof (auth_ops_invariant session_token_digest constraint_failed (archived_in tenant) _
    (auth_op s (Op_tenant_archive tenant archived)) ops
    (λ s op, archived_stays session_token_digest constraint_failed tenant s op) Hops
    (archive_archives session_token_digest constraint_failed tenant archived s Hex)) as (r & Hr & Ha).
  intros (row & _ & _ & _ & Harch)%resolved_row. revert Harch. unfold is_tenant_archived, Tenants.get.
  rewrite Hp, Hr. destruct (String.eqb_spec tenant DEFAULT_TENANT_ID); [done|].
  destruct (Str.starts_with _ _); [done|]. by rewrite bool_decide_true by done.
Qed.
End Theorems.

(** the device directory is exact: its entries are strictly ordered by device,
    each is an unexpired session of the user (in the tenant) that no session of the
    same device was seen after, every unexpired session's device is listed, and the
    fan-out set of a message is every listed device but the one it came from. *)
Theorem device_directory_exact (t : gmap string SessionRow) user tenant now origin :
  let ds := list_active_devices_for_user t user tenant now in
  let active r := of_user user tenant r && negb (session_expired (sn_expires_at r) now) in
  StronglySorted device_lt ds
  ∧ (∀ d, d ∈ ds → ∃ k row, t !! k = Some row ∧ active row = true ∧ d = device_of row
       ∧ ∀ k' row', t !! k' = Some row' → active row' = true → sn_device_id row' = sn_device_id row →
           Str.leb (sn_last_seen_at row') (sn_last_seen_at row) = true)
  ∧ (∀ k row, t !! k = Some row → active row = true → sn_device_id row ∈ ud_device_id <$> ds)
  ∧ (∀ i, i ∈ fan_out_targets ds origin ↔ i ∈ ud_device_id <$> ds ∧ i ≠ origin).
Proof.
  intros ds active.
  pose proof (order_by_sorted device_le (select (of_user user tenant) (map_to_list t).*2)
    device_le_total device_le_trans) as Hs.
  assert (∀ row, row ∈ order_by device_le (select (of_user user tenant) (map_to_list t).*2)
                 ↔ of_user user tenant row = true ∧ ∃ k, t !! k = Some row) as Hin.
  { intros row. rewrite elem_of_order_by, elem_of_select, list_elem_of_fmap.
    setoid_rewrite elem_of_map_to_list'. split; [intros [([k r] & -> & ?) ?]; eauto|].
    intros [? [k ?]]. split; [|done]. by exists (k, row). }
  assert (StronglySorted device_lt ds) as Hsorted by by apply collect_sorted.
  split_and!; [done| | |].
  - intros d (_ & row & [Hu [k Hk]]%Hin & Hex & -> & Hmax)%collect_elem; [|done]. exists k, row.
    unfold active. rewrite Hu, Hex. split_and!; [done..|].
    intros k' row' Hk' [Hu' Hex']%andb_prop. apply negb_true_iff in Hex'. apply Hmax; [|done].
    apply Hin. eauto.
  - intros k row Hk [Hu Hex]%andb_prop. apply negb_true_iff in Hex.
    destruct (collect_complete now (order_by device_le (select (of_user user tenant) (map_to_list t).*2))
      ∅ row) as (d & Hd & <-); [apply Hin; eauto|done|set_solver|]. by apply list_elem_of_fmap_2.
  - intros i. unfold fan_out_targets. rewrite distinct_ids_nodup; [|by apply NoDup_ListNoDup, List.NoDup_filter, NoDup_ListNoDup, device_lt_nodup|set_solver].
    by rewrite list_elem_of_In, filter_In, <- list_elem_of_In, negb_true_iff, String.eqb_neq.
Qed.

(** ** Concrete runs *)

Module SampleSessions.
Definition phone : CreateSessionInput :=
  {| cs_session_token := "tok-phone"; cs_tenant_id := "acme"; cs_user_id := "ada";
     cs_device_id := "phone"; cs_replica_id := "r1"; cs_expires_at := iso_from_epoch_ms 5000 |}.
Definition laptop : CreateSessionInput :=
  {| cs_session_token := "tok-laptop"; cs_tenant_id := "acme"; cs_user_id := "ada";
     cs_device_id := "laptop"; cs_replica_id := "r2"; cs_expires_at := iso_from_epoch_ms 9000 |}.
Definition guest : CreateSessionInput :=
  {| cs_session_token := "tok-guest"; cs_tenant_id := "acme"; cs_user_id := "bob";
     cs_device_id := "tablet"; cs_replica_id := "r3"; cs_expires_at := iso_from_epoch_ms 9000 |}.
Definition empty : AuthState := {| st_sessions := ∅; st_tenants := ∅ |}.
Definition run : AuthState → list AuthOp → AuthState := auth_ops (λ token, token) "UNIQUE constraint failed".
End SampleSessions.

Lemma session_lifetime_witness :
  let ops := [Op_create SampleSessions.laptop 10; Op_resolve "tok-phone" 20;
              Op_delete "tok-laptop"; Op_tenant_ensure "acme" 30] in
  resolves (λ token, token) (SampleSessions.run SampleSessions.empty
    (Op_create SampleSessions.phone 0 :: ops)) "tok-phone" 4999 = Ok (principal_of SampleSessions.phone).
Proof.
  exact (session_lifetime (λ token, token) "UNIQUE constraint failed" SampleSessions.empty
    SampleSessions.phone 0
    [Op_create SampleSessions.laptop 10; Op_resolve "tok-phone" 20;
     Op_delete "tok-laptop"; Op_tenant_ensure "acme" 30] 5000 4999
    eq_refl ltac:(unfold in_four_digit_years; lia) eq_refl
    ltac:(repeat constructor)).
Defined.

Lemma logout_final_witness :
  ¬ (p_user_id (principal_of SampleSessions.guest) = "ada" ∧ (Some "acme" = None ∨ Some "acme" = Some "acme")).
Proof.
  exact (logout_final (λ token, token) "UNIQUE constraint failed"
    (SampleSessions.run SampleSessions.empty [Op_create SampleSessions.phone 0])
    "ada" (Some "acme") [Op_create SampleSessions.guest 10] "tok-guest" 20
    (principal_of SampleSessions.guest)
    ltac:(repeat constructor) ltac:(vm_compute; reflexivity)).
Defined.

Lemma archived_tenant_locked_out_witness : "acme" ≠ "other".
Proof.
  exact (archived_tenant_locked_out (λ token, token) "UNIQUE constraint failed"
    (SampleSessions.run SampleSessions.empty [Op_tenant_ensure "other" 0])
    "other" 5 [Op_create SampleSessions.guest 10; Op_tenant_ensure "other" 15] "tok-guest" 20
    (principal_of SampleSessions.guest)
    ltac:(done) ltac:(vm_compute; eauto) ltac:(repeat constructor) ltac:(vm_compute; reflexivity)).
Defined.
