(* ===== verification/RegLock.v ===== *)
(** * Registration lock ([frick-store/src/stores/reglock.rs],
      [frick-server/src/auth_reglock.rs])

    The recovery-PIN lock of an account: its table, the lockout schedule, the gate
    a password login passes through and the management routes. SHA-256 is outside
    the repository: [hash_verifier] is a parameter, injective where a theorem says
    which verifier passes. *)

From Stdlib Require Import ZArith Lia Ascii String.
From stdpp Require Import base gmap strings list sorting pretty.
From S2P Require Import Prelude Value Timestamp StoreBase Encryption JobStore Authz ServerErrors Sessions.

Definition LOCKOUT_THRESHOLD : Z := 3.
Definition LOCKOUT_MAX_SECONDS : Z := 3600.

Definition lockout_wait_seconds (failures : Z) : Z :=
  if failures <? LOCKOUT_THRESHOLD then 0
  else
    let exp := failures - LOCKOUT_THRESHOLD in
    if 12 <=? exp then LOCKOUT_MAX_SECONDS
    else Z.min (Z.shiftl 1 exp) LOCKOUT_MAX_SECONDS.

Record RegistrationLockRecord : Type := {
  rl_tenant_id : string; rl_user_id : string; rl_verifier_hash : string; rl_salt : string;
  rl_enabled : bool; rl_failed_attempts : Z; rl_locked_until_ms : Z; rl_last_activity_ms : Z;
  rl_updated_at : string;
}.
(** Keyed by [(tenant_id, user_id)]; [created_at] is never read. *)
Abbreviation LockTable := (gmap (string * string) RegistrationLockRecord).

(** The loop [diff |= x ^ y] over the zipped bytes. *)
Fixpoint fold_xor (diff : Z) (a b : list Z) : Z :=
  match a, b with
  | x :: a', y :: b' => fold_xor (Z.lor diff (Z.lxor x y)) a' b'
  | _, _ => diff
  end.
Definition constant_time_eq (a b : list Z) : bool :=
  if negb (Nat.eqb (length a) (length b)) then false else fold_xor 0 a b =? 0.

Definition i64_saturating_sub (a b : Z) : Z := Z.max i64_min (Z.min i64_max (a - b)).

(** The columns the statements set. *)
Definition set_counters (failed_attempts locked_until_ms : Z) (updated_at : string)
    (r : RegistrationLockRecord) : RegistrationLockRecord :=
  {| rl_tenant_id := rl_tenant_id r; rl_user_id := rl_user_id r;
     rl_verifier_hash := rl_verifier_hash r; rl_salt := rl_salt r; rl_enabled := rl_enabled r;
     rl_failed_attempts := failed_attempts; rl_locked_until_ms := locked_until_ms;
     rl_last_activity_ms := rl_last_activity_ms r; rl_updated_at := updated_at |}.
Definition set_activity (last_activity_ms : Z) (r : RegistrationLockRecord) : RegistrationLockRecord :=
  {| rl_tenant_id := rl_tenant_id r; rl_user_id := rl_user_id r;
     rl_verifier_hash := rl_verifier_hash r; rl_salt := rl_salt r; rl_enabled := rl_enabled r;
     rl_failed_attempts := rl_failed_attempts r; rl_locked_until_ms := rl_locked_until_ms r;
     rl_last_activity_ms := last_activity_ms; rl_updated_at := rl_updated_at r |}.
Definition set_disabled (r : RegistrationLockRecord) : RegistrationLockRecord :=
  {| rl_tenant_id := rl_tenant_id r; rl_user_id := rl_user_id r;
     rl_verifier_hash := rl_verifier_hash r; rl_salt := rl_salt r; rl_enabled := false;
     rl_failed_attempts := rl_failed_attempts r; rl_locked_until_ms := rl_locked_until_ms r;
     rl_last_activity_ms := rl_last_activity_ms r; rl_updated_at := rl_updated_at r |}.

(** ** The store *)

Module Locks.
Section Store.
Context (hash_verifier : string → string).

Definition enable (tenant_id user_id verifier salt : string) (now_ms : Z) :
    M LockTable StoreError unit := λ t,
  (Ok tt,
   <[(tenant_id, user_id) :=
       {| rl_tenant_id := tenant_id; rl_user_id := user_id;
          rl_verifier_hash := hash_verifier verifier; rl_salt := salt; rl_enabled := true;
          rl_failed_attempts := 0; rl_locked_until_ms := 0; rl_last_activity_ms := now_ms;
          rl_updated_at := iso_from_epoch_ms now_ms |}]> t).

Definition disable (tenant_id user_id : string) (now_ms : Z) : M LockTable StoreError bool := λ t,
  match t !! (tenant_id, user_id) with
  | Some r =>
      if rl_enabled r
      then (Ok true,
            <[(tenant_id, user_id) := set_disabled (set_counters 0 0 (iso_from_epoch_ms now_ms) r)]> t)
      else (Ok false, t)
  | None => (Ok false, t)
  end.

Definition read (tenant_id user_id : string) : M LockTable StoreError (option RegistrationLockRecord) :=
  λ t, (Ok (t !! (tenant_id, user_id)), t).

Definition verify (tenant_id user_id verifier : string) : M LockTable StoreError bool :=
  record ← read tenant_id user_id;
  match record with
  | None => mret false
  | Some record =>
      mret (constant_time_eq (Str.bytes (hash_verifier verifier)) (Str.bytes (rl_verifier_hash record)))
  end.

Definition register_failure (tenant_id user_id : string) (now_ms : Z) :
    M LockTable StoreError (option RegistrationLockRecord) :=
  record ← read tenant_id user_id;
  match record with
  | None => mret None
  | Some record =>
      let failures := rl_failed_attempts record + 1 in
      let wait_seconds := lockout_wait_seconds failures in
      let locked_until_ms := if 0 <? wait_seconds then now_ms + wait_seconds * 1000 else 0 in
      t ← get_state;
      put_state (alter (set_counters failures locked_until_ms (iso_from_epoch_ms now_ms))
                   (tenant_id, user_id) t);;
      read tenant_id user_id
  end.

Definition register_success (tenant_id user_id : string) (now_ms : Z) : M LockTable StoreError unit := λ t,
  (Ok tt, alter (λ r, set_activity now_ms (set_counters 0 0 (iso_from_epoch_ms now_ms) r))
            (tenant_id, user_id) t).

Definition touch_activity (tenant_id user_id : string) (now_ms : Z) : M LockTable StoreError unit := λ t,
  (Ok tt, alter (set_activity now_ms) (tenant_id, user_id) t).
End Store.
End Locks.

(** ** The login gate *)

(** What a refused login is answered with: the [423] challenge, or the internal
    error of a failed read. *)
Record Challenge : Type := {
  ch_reason : string; ch_salt : string; ch_failed_attempts : Z; ch_retry_after_seconds : Z;
}.
Inductive Refusal : Type :=
| Refused_challenge (c : Challenge)
| Refused_internal.

Definition seconds_until (until_ms now_ms : Z) : Z :=
  let delta := i64_saturating_sub until_ms now_ms in
  if delta <=? 0 then 0 else (delta + 999) / 1000.

Definition challenge_response (reason salt : string) (failed_attempts retry_after_seconds : Z) : Refusal :=
  Refused_challenge {| ch_reason := reason; ch_salt := salt; ch_failed_attempts := failed_attempts;
                       ch_retry_after_seconds := retry_after_seconds |}.

(** The inactivity window has passed: the lock is not enforced. *)
Definition lapsed (reglock_expiry_seconds : Z) (r : RegistrationLockRecord) (now_ms : Z) : bool :=
  i64_saturating_mul reglock_expiry_seconds 1000
    <=? i64_saturating_sub now_ms (rl_last_activity_ms r).

Section Gate.
Context (hash_verifier : string → string) (reglock_expiry_seconds : Z).

Definition check_registration_lock (tenant_id user_id : string) (submitted_verifier : option string)
    (now_ms : Z) : M LockTable Refusal unit := λ t,
  match Locks.read tenant_id user_id t with
  | (Err _, t) => (Err Refused_internal, t)
  | (Ok None, t) => (Ok tt, t)
  | (Ok (Some record), t) =>
      if negb (rl_enabled record) then (Ok tt, t)
      else if lapsed reglock_expiry_seconds record now_ms then (Ok tt, t)
      else if now_ms <? rl_locked_until_ms record then
        (Err (challenge_response "rateLimited" (rl_salt record) (rl_failed_attempts record)
                (seconds_until (rl_locked_until_ms record) now_ms)), t)
      else
        match submitted_verifier with
        | Some (String _ _ as verifier) =>
            match Locks.verify hash_verifier tenant_id user_id verifier t with
            | (Err _, t) => (Err Refused_internal, t)
            | (Ok true, t) => (Ok tt, (Locks.register_success tenant_id user_id now_ms t).2)
            | (Ok false, t) =>
                let '(updated, t) := Locks.register_failure tenant_id user_id now_ms t in
                let '(failed_attempts, retry_after) :=
                  match updated with
                  | Ok (Some r) => (rl_failed_attempts r, seconds_until (rl_locked_until_ms r) now_ms)
                  | _ => (rl_failed_attempts record + 1, 0)
                  end in
                (Err (challenge_response "pinIncorrect" (rl_salt record) failed_attempts retry_after), t)
            end
        | _ =>
            (Err (challenge_response "pinRequired" (rl_salt record) (rl_failed_attempts record) 0), t)
        end
  end.

Definition touch_reglock_activity (tenant_id user_id : string) (now_ms : Z) (t : LockTable) : LockTable :=
  (Locks.touch_activity tenant_id user_id now_ms t).2.
End Gate.

(** ** The management routes *)

Definition MAX_FIELD_LEN : nat := 128.
Definition valid_field (raw : option string) : option string :=
  match Str.trim <$> raw with
  | Some value =>
      if negb (Str.is_empty value) && Nat.leb (String.length value) MAX_FIELD_LEN then Some value else None
  | None => None
  end.

Record LockState : Type := { ls_auth : AuthState; ls_locks : gmap (string * string) RegistrationLockRecord }.

(** The bodies of the three routes' answers. *)
Inductive LockReply : Type :=
| Reply_enabled (enabled : bool)
| Reply_status (enabled : bool) (updated_at : option string).

Section Routes.
Context (session_token_digest hash_verifier : string → string).
Context (authorize : AuthState → string → Principal → Z → result ServerError unit).

Definition authenticate (headers : HeaderMap) (now_ms : Z) : M AuthState ServerError Principal :=
  match session_token_from_headers headers with
  | None => lift_res (Err (SE_Authentication "session token required"))
  | Some token => principal_from_authorized_session_token session_token_digest authorize token now_ms
  end.

Definition enable (headers : HeaderMap) (verifier salt : option string) (now : Z) :
    M LockState ServerError LockReply := λ s,
  match authenticate headers now (ls_auth s) with
  | (Err e, a) => (Err e, {| ls_auth := a; ls_locks := ls_locks s |})
  | (Ok principal, a) =>
      let s := {| ls_auth := a; ls_locks := ls_locks s |} in
      match valid_field verifier with
      | None => (Err (SE_BadRequest "verifier required"), s)
      | Some verifier =>
          match valid_field salt with
          | None => (Err (SE_BadRequest "salt required"), s)
          | Some salt =>
              match Locks.enable hash_verifier (p_tenant_id principal) (p_user_id principal)
                      verifier salt now (ls_locks s) with
              | (Err _, t) => (Err SE_Internal, {| ls_auth := a; ls_locks := t |})
              | (Ok _, t) => (Ok (Reply_enabled true), {| ls_auth := a; ls_locks := t |})
              end
          end
      end
  end.

Definition disable (headers : HeaderMap) (now : Z) : M LockState ServerError LockReply := λ s,
  match authenticate headers now (ls_auth s) with
  | (Err e, a) => (Err e, {| ls_auth := a; ls_locks := ls_locks s |})
  | (Ok principal, a) =>
      match Locks.disable (p_tenant_id principal) (p_user_id principal) now (ls_locks s) with
      | (Ok _, t) => (Ok (Reply_enabled false), {| ls_auth := a; ls_locks := t |})
      | (Err _, t) => (Err SE_Internal, {| ls_auth := a; ls_locks := t |})
      end
  end.

Definition status (headers : HeaderMap) (now : Z) : M LockState ServerError LockReply := λ s,
  match authenticate headers now (ls_auth s) with
  | (Err e, a) => (Err e, {| ls_auth := a; ls_locks := ls_locks s |})
  | (Ok principal, a) =>
      match Locks.read (p_tenant_id principal) (p_user_id principal) (ls_locks s) with
      | (Ok (Some r), t) => (Ok (Reply_status (rl_enabled r) (Some (rl_updated_at r))),
                             {| ls_auth := a; ls_locks := t |})
      | (Ok None, t) => (Ok (Reply_status false None), {| ls_auth := a; ls_locks := t |})
      | (Err _, t) => (Err SE_Internal, {| ls_auth := a; ls_locks := t |})
      end
  end.
End Routes.

(** ** The comparison and the schedule *)

Lemma fold_xor_zero a : ∀ b diff,
  length a = length b → fold_xor diff a b = 0 ↔ diff = 0 ∧ a = b.
Proof.
  induction a as [|x a IH]; intros [|y b] diff Hlen; try discriminate Hlen; cbn [fold_xor].
  - naive_solver.
  - injection Hlen as Hlen. rewrite IH by done. rewrite Z.lor_eq_0_iff, Z.lxor_eq_0_iff. naive_solver.
Qed.

Lemma constant_time_eq_true a b : constant_time_eq a b = true ↔ a = b.
Proof.
  unfold constant_time_eq. destruct (Nat.eqb_spec (length a) (length b)) as [Hlen|Hne]; cbn [negb].
  - rewrite Z.eqb_eq, fold_xor_zero by done. naive_solver.
  - split; [done|]. by intros ->.
Qed.

(** The waits a run of wrong guesses sits through before its [n]-th evaluation. *)
Fixpoint waits_before (n : nat) : Z :=
  match n with
  | O => 0
  | S n' => waits_before n' + lockout_wait_seconds (Z.of_nat n')
  end.

Lemma lockout_wait_nonneg f : 0 ≤ lockout_wait_seconds f ≤ LOCKOUT_MAX_SECONDS.
Proof.
  unfold lockout_wait_seconds, LOCKOUT_THRESHOLD, LOCKOUT_MAX_SECONDS.
  destruct (Z.ltb_spec f 3); [lia|]. destruct (Z.leb_spec 12 (f - 3)); [lia|].
  pose proof (Z.shiftl_nonneg 1 (f - 3)). lia.
Qed.

Lemma lockout_wait_capped f : 15 ≤ f → lockout_wait_seconds f = LOCKOUT_MAX_SECONDS.
Proof.
  intros. unfold lockout_wait_seconds, LOCKOUT_THRESHOLD.
  rewrite (proj2 (Z.ltb_ge _ _)) by lia. by rewrite (proj2 (Z.leb_le _ _)) by lia.
Qed.

Lemma waits_before_closed (k : nat) : waits_before (15 + k) = 4095 + 3600 * Z.of_nat k.
Proof.
  induction k as [|k IH]; [vm_compute; reflexivity|].
  replace (15 + S k)%nat with (S (15 + k)) by lia. cbn [waits_before]. rewrite IH.
  rewrite lockout_wait_capped by lia. unfold LOCKOUT_MAX_SECONDS. lia.
Qed.

Lemma waits_before_mono n m : (n ≤ m)%nat → waits_before n ≤ waits_before m.
Proof.
  induction 1 as [|m _ IH]; [done|]. cbn [waits_before].
  pose proof (lockout_wait_nonneg (Z.of_nat m)). lia.
Qed.

(** ** The gate, by cases on the record *)

Section GateFacts.
Context (hash_verifier : string → string) (reglock_expiry_seconds : Z).
Local Abbreviation check := (check_registration_lock hash_verifier reglock_expiry_seconds).

(** The enforced lock lets the verifier be tried. *)
Definition tries (r : RegistrationLockRecord) (now_ms : Z) : bool :=
  rl_enabled r && negb (lapsed reglock_expiry_seconds r now_ms) && (rl_locked_until_ms r <=? now_ms).
Definition submitted (v : option string) : bool :=
  match v with Some (String _ _) => true | _ => false end.
Definition matches (r : RegistrationLockRecord) (v : option string) : bool :=
  match v with Some v => String.eqb (hash_verifier v) (rl_verifier_hash r) | None => false end.

Definition failed_once (now_ms : Z) (r : RegistrationLockRecord) : RegistrationLockRecord :=
  let failures := rl_failed_attempts r + 1 in
  set_counters failures
    (if 0 <? lockout_wait_seconds failures then now_ms + lockout_wait_seconds failures * 1000 else 0)
    (iso_from_epoch_ms now_ms) r.

Lemma constant_time_eq_strings a b : constant_time_eq (Str.bytes a) (Str.bytes b) = String.eqb a b.
Proof.
  destruct (String.eqb_spec a b) as [->|Hne].
  - by apply constant_time_eq_true.
  - apply not_true_iff_false. rewrite constant_time_eq_true. by intros ?%bytes_inj.
Qed.

Lemma check_cases (t : gmap (string * string) RegistrationLockRecord) tenant user v now :
  check tenant user v now t
  = match t !! (tenant, user) with
    | None => (Ok tt, t)
    | Some r =>
        if negb (rl_enabled r) || lapsed reglock_expiry_seconds r now then (Ok tt, t)
        else if now <? rl_locked_until_ms r then
          (Err (challenge_response "rateLimited" (rl_salt r) (rl_failed_attempts r)
                  (seconds_until (rl_locked_until_ms r) now)), t)
        else if negb (submitted v) then
          (Err (challenge_response "pinRequired" (rl_salt r) (rl_failed_attempts r) 0), t)
        else if matches r v then
          (Ok tt, <[(tenant, user) := set_activity now (set_counters 0 0 (iso_from_epoch_ms now) r)]> t)
        else
          (Err (challenge_response "pinIncorrect" (rl_salt r) (rl_failed_attempts r + 1)
                  (seconds_until (rl_locked_until_ms (failed_once now r)) now)),
           <[(tenant, user) := failed_once now r]> t)
    end.
Proof.
  unfold check_registration_lock. cbn [Locks.read]. destruct (t !! (tenant, user)) as [r|] eqn:E; [|done].
  destruct (rl_enabled r); [|done]. cbn [negb orb]. destruct (lapsed _ _ _); [done|].
  destruct (now <? rl_locked_until_ms r); [done|].
  destruct v as [[|c v]|]; cbn [submitted negb]; [done| |done].
  unfold Locks.verify, Locks.read. run_M. rewrite E. cbv beta iota. rewrite constant_time_eq_strings.
  cbn [matches]. destruct (String.eqb (hash_verifier (String c v)) (rl_verifier_hash r)).
  - unfold Locks.register_success. cbn [snd]. f_equal. exact (alter_alt_Some _ _ _ _ E).
  - unfold Locks.register_failure, Locks.read. run_M. rewrite E. cbv beta iota zeta.
    rewrite lookup_alter_eq, E. cbn [fmap option_fmap option_map].
    f_equal. exact (alter_alt_Some _ _ _ _ E).
Qed.
End GateFacts.

(** ** Guessing *)

Section Guessing.
Context (hash_verifier : string → string) (reglock_expiry_seconds : Z) (tenant user : string).

(** A login attempt on the account, or authenticated activity that renews its
    window. *)
Inductive LockOp : Type :=
| Attempt (verifier : option string) (now_ms : Z)
| Touch (now_ms : Z).
Definition op_time (op : LockOp) : Z := match op with Attempt _ now | Touch now => now end.

(** The table after an operation, and whether it evaluated a wrong verifier. *)
Definition lock_op (t : LockTable) (op : LockOp) : bool * LockTable :=
  match op with
  | Attempt v now =>
      let '(res, t') := check_registration_lock hash_verifier reglock_expiry_seconds tenant user v now t in
      (match res with
       | Err (Refused_challenge c) => String.eqb (ch_reason c) "pinIncorrect"
       | _ => false
       end, t')
  | Touch now => (false, touch_reglock_activity tenant user now t)
  end.
Fixpoint wrong_guesses (t : LockTable) (ops : list LockOp) : nat :=
  match ops with
  | [] => 0
  | op :: ops' => let '(wrong, t') := lock_op t op in ((if wrong then 1 else 0) + wrong_guesses t' ops')%nat
  end.

(** Whatever the attempt, the account's record is one of these. *)
Definition wrong_for (r : RegistrationLockRecord) (op : LockOp) : Prop :=
  match op with Attempt v _ => matches hash_verifier r v = false | Touch _ => True end.

Lemma lock_op_record (t : gmap (string * string) RegistrationLockRecord) op r :
  t !! (tenant, user) = Some r → wrong_for r op →
  ∃ r', (lock_op t op).2 !! (tenant, user) = Some r' ∧ rl_verifier_hash r' = rl_verifier_hash r
    ∧ if (lock_op t op).1
      then rl_locked_until_ms r ≤ op_time op
           ∧ r' = failed_once (op_time op) r
      else rl_failed_attempts r' = rl_failed_attempts r ∧ rl_locked_until_ms r' = rl_locked_until_ms r.
Proof.
  intros Hr Hw. destruct op as [v now|now].
  - unfold lock_op. rewrite check_cases, Hr. cbn in Hw.
    destruct (_ || _); [by exists r|]. destruct (Z.ltb_spec now (rl_locked_until_ms r)); [by exists r|].
    destruct (negb (submitted v)); [by exists r|]. rewrite Hw. cbn.
    exists (failed_once now r). by rewrite lookup_insert_eq.
  - cbn. exists (set_activity now r). by rewrite lookup_alter_eq, Hr.
Qed.

(** The record after [n] wrong guesses since [start]: at any later time the lock
    lets a guess through, the waits of [n] failures are over. *)
Definition paced (start cur : Z) (n : nat) (r : RegistrationLockRecord) : Prop :=
  rl_failed_attempts r = Z.of_nat n
  ∧ ∀ now, cur ≤ now → rl_locked_until_ms r ≤ now → waits_before (S n) * 1000 ≤ now - start.

Lemma paced_failed start cur n r now :
  paced start cur n r → cur ≤ now → rl_locked_until_ms r ≤ now →
  paced start now (S n) (failed_once now r) ∧ waits_before (S n) * 1000 ≤ now - start.
Proof.
  intros [Hn Hp] Hcur Hl. specialize (Hp now Hcur Hl). split; [|done].
  unfold paced, failed_once. cbn [rl_failed_attempts rl_locked_until_ms set_counters].
  rewrite Hn. replace (Z.of_nat n + 1) with (Z.of_nat (S n)) by lia. split; [done|].
  intros now' Hnow' Hlock. change (waits_before (S (S n)))
    with (waits_before (S n) + lockout_wait_seconds (Z.of_nat (S n))).
  pose proof (lockout_wait_nonneg (Z.of_nat (S n))).
  destruct (Z.ltb_spec 0 (lockout_wait_seconds (Z.of_nat (S n)))); lia.
Qed.

Lemma wrong_for_same r r' op : rl_verifier_hash r' = rl_verifier_hash r → wrong_for r op → wrong_for r' op.
Proof. intros E. destruct op as [v|]; [|done]. unfold wrong_for, matches. by rewrite E. Qed.

Lemma last_cons {A} (l : list A) x d : List.last (x :: l) d = List.last l x.
Proof.
  revert x d. induction l as [|y l IH]; intros x d; [done|].
  change (List.last (y :: l) d = List.last (y :: l) x). by rewrite !IH.
Qed.

Lemma guesses_paced ops : ∀ (t : gmap (string * string) RegistrationLockRecord) r start cur n,
  t !! (tenant, user) = Some r → paced start cur n r → waits_before n * 1000 ≤ cur - start →
  Sorted Z.le (cur :: (op_time <$> ops)) → Forall (wrong_for r) ops →
  waits_before (n + wrong_guesses t ops) * 1000 ≤ List.last (op_time <$> ops) cur - start.
Proof.
  induction ops as [|op ops IH]; intros t r start cur n Hr Hp Hw Hs Hall;
    cbn [wrong_guesses]; [by rewrite Nat.add_0_r|]. rewrite fmap_cons, last_cons.
  apply Forall_cons in Hall as [Hop Hall]. apply Sorted_inv in Hs as [Hs Hle]. cbn in Hs.
  apply HdRel_inv in Hle.
  destruct (lock_op_record t op r Hr Hop) as (r' & Hr' & Hh & Hcase).
  assert (Forall (wrong_for r') ops) as Hall'.
  { eapply Forall_impl; [exact Hall|]. intros op'. by apply wrong_for_same. }
  destruct (lock_op t op) as [[|] t'] eqn:E; cbn [fst snd] in *.
  - destruct Hcase as [Hl ->]. destruct (paced_failed start cur n r (op_time op) Hp Hle Hl) as [Hp' Hw'].
    replace (n + (1 + wrong_guesses t' ops))%nat with (S n + wrong_guesses t' ops)%nat by lia.
    exact (IH t' _ start (op_time op) (S n) Hr' Hp' Hw' Hs Hall').
  - destruct Hcase as [Hf Hl]. rewrite Nat.add_0_l.
    assert (paced start (op_time op) n r') as Hp'.
    { destruct Hp as [Hn Hp]. split; [by rewrite Hf|]. intros now ?. rewrite Hl. apply Hp. lia. }
    exact (IH t' _ start (op_time op) n Hr' Hp' ltac:(lia) Hs Hall').
Qed.
End Guessing.


(** the gate in front of password logins decides exactly as documented. A login
    passes when the account has no enabled lock, when its inactivity window has
    lapsed, or when attempts are not locked out and the submitted verifier is the
    enrolled one; the challenge says which of the three refusals it is; only a pass
    with the verifier resets the counters and only a wrong verifier counts one more
    failure, on that account alone. *)
Theorem registration_gate_exact (hash_verifier : string → string) (expiry : Z)
    (t : gmap (string * string) RegistrationLockRecord) (tenant user : string) (v : option string)
    (now : Z) :
  let '(res, t') := check_registration_lock hash_verifier expiry tenant user v now t in
  match t !! (tenant, user) with
  | None => res = Ok tt ∧ t' = t
  | Some r =>
      let enforced := rl_enabled r && negb (lapsed expiry r now) in
      (res = Ok tt ↔ (enforced = true →
         rl_locked_until_ms r ≤ now ∧ submitted v = true ∧ matches hash_verifier r v = true))
      ∧ t' = (if negb (tries expiry r now && submitted v) then t
              else <[(tenant, user) :=
                       if matches hash_verifier r v
                       then set_activity now (set_counters 0 0 (iso_from_epoch_ms now) r)
                       else failed_once now r]> t)
      ∧ (enforced = true → res ≠ Ok tt →
         ∃ c, res = Err (Refused_challenge c) ∧ ch_salt c = rl_salt r
           ∧ ch_reason c = if now <? rl_locked_until_ms r then "rateLimited"
                           else if submitted v then "pinIncorrect" else "pinRequired")
  end.
Proof.
  rewrite check_cases. destruct (t !! (tenant, user)) as [r|] eqn:E; [|done].
  unfold tries. destruct (rl_enabled r); cbn [negb orb andb]; [|by split_and!].
  destruct (lapsed expiry r now); cbn [negb orb andb]; [by split_and!|].
  destruct (Z.ltb_spec now (rl_locked_until_ms r)) as [Hlt|Hge].
  { rewrite (proj2 (Z.leb_gt _ _)) by lia. split_and!; [|done..|].
    - split; [done|]. intros H. destruct (H eq_refl). lia.
    - intros _ _. eexists. by split_and!. }
  rewrite (proj2 (Z.leb_le _ _)) by lia. cbn [andb].
  destruct (submitted v); cbn [negb].
  2:{ split_and!; [|done..|].
    - split; [done|]. intros H. by destruct (H eq_refl) as (_ & ? & _).
    - intros _ _. eexists. by split_and!. }
  destruct (matches hash_verifier r v).
  - by split_and!.
  - split_and!; [|done|].
    + split; [done|]. intros H. by destruct (H eq_refl) as (_ & _ & ?).
    + intros _ _. eexists. by split_and!.
Qed.

(** ** Concrete runs *)

Module SampleLock.
Definition locked : RegistrationLockRecord :=
  {| rl_tenant_id := "acme"; rl_user_id := "ada"; rl_verifier_hash := "right"; rl_salt := "salt";
     rl_enabled := true; rl_failed_attempts := 0; rl_locked_until_ms := 0; rl_last_activity_ms := 0;
     rl_updated_at := iso_from_epoch_ms 0 |}.
Definition table : gmap (string * string) RegistrationLockRecord := {[ ("acme", "ada") := locked ]}.
Definition ops : list LockOp :=
  [Attempt (Some "a") 10; Attempt (Some "b") 20; Attempt (Some "c") 30; Attempt (Some "d") 40;
   Touch 500; Attempt None 1030; Attempt (Some "e") 1031].
End SampleLock.

