(* ===== verification/Sharing.v ===== *)
(** * Sharing ([frick-store/src/stores/invitation.rs],
      [frick-server/src/routes/share.rs])

    Invitations, the routes that mint and redeem them into grants, list, revoke
    and leave grants, and the acceptance of an invitation at the granularity of
    its SQL statements. JSON parsing and the random tokens are outside the
    repository and are parameters. *)

From Stdlib Require Import ZArith Lia Ascii String.
From stdpp Require Import base gmap strings list sorting pretty.
From S2P Require Import Prelude Value Timestamp StoreBase IdempotencyCache JobStore Authz ServerErrors Schema Sessions.

(** ** The invitation store *)

Record Invitation : Type := {
  iv_id : string; iv_tenant_id : string; iv_owner_user_id : string; iv_record_type : string;
  iv_record_id : string; iv_permission : string; iv_token : string; iv_created_at : string;
  iv_expires_at : string; iv_redeemed_at : option string; iv_redeemed_by_user_id : option string;
}.
Record CreateInvitationArgs : Type := {
  ci_id : string; ci_tenant_id : string; ci_owner_user_id : string; ci_record_type : string;
  ci_record_id : string; ci_permission : string; ci_token : string; ci_created_at : string;
  ci_expires_at : string;
}.
Inductive RedeemOutcome : Type :=
| Redeem_Ok (i : Invitation)
| Redeem_NotFound
| Redeem_Expired (i : Invitation)
| Redeem_AlreadyRedeemed (i : Invitation)
| Redeem_TenantMismatch (i : Invitation).
Record RedeemArgs : Type := {
  ra_token : string; ra_tenant_id : string; ra_redeemer_user_id : string; ra_now : string;
}.

(** Rows, with the primary key [id] and the unique index on [token]. *)
Definition InvitationTable : Type := list Invitation.

Definition fresh_invitation (args : CreateInvitationArgs) : Invitation :=
  {| iv_id := ci_id args; iv_tenant_id := ci_tenant_id args;
     iv_owner_user_id := ci_owner_user_id args; iv_record_type := ci_record_type args;
     iv_record_id := ci_record_id args; iv_permission := ci_permission args;
     iv_token := ci_token args; iv_created_at := ci_created_at args;
     iv_expires_at := ci_expires_at args; iv_redeemed_at := None; iv_redeemed_by_user_id := None |}.
Definition set_redeemed (now redeemer : string) (i : Invitation) : Invitation :=
  {| iv_id := iv_id i; iv_tenant_id := iv_tenant_id i; iv_owner_user_id := iv_owner_user_id i;
     iv_record_type := iv_record_type i; iv_record_id := iv_record_id i;
     iv_permission := iv_permission i; iv_token := iv_token i; iv_created_at := iv_created_at i;
     iv_expires_at := iv_expires_at i; iv_redeemed_at := Some now;
     iv_redeemed_by_user_id := Some redeemer |}.

Module Invitations.
Definition create (constraint_failed : string) (args : CreateInvitationArgs) :
    M InvitationTable StoreError Invitation := λ t,
  if existsb (λ i, String.eqb (iv_id i) (ci_id args) || String.eqb (iv_token i) (ci_token args)) t
  then (Err (Driver constraint_failed), t)
  else (Ok (fresh_invitation args), t ++ [fresh_invitation args]).

Definition get_by_token (t : InvitationTable) (token : string) : option Invitation :=
  list.head (select (λ i, String.eqb (iv_token i) token) t).

Definition get_by_id (t : InvitationTable) (tenant_id id : string) : option Invitation :=
  list.head (select (λ i, String.eqb (iv_tenant_id i) tenant_id && String.eqb (iv_id i) id) t).

(** [WHERE id = ? AND redeemed_at IS NULL]. *)
Definition redeemable (id : string) (i : Invitation) : bool :=
  String.eqb (iv_id i) id && bool_decide (iv_redeemed_at i = None).

(** The guards of [redeem], in their order. *)
Definition redeem_guards (args : RedeemArgs) (found : option Invitation) : RedeemOutcome :=
  match found with
  | None => Redeem_NotFound
  | Some found =>
      if negb (String.eqb (iv_tenant_id found) (ra_tenant_id args)) then Redeem_TenantMismatch found
      else if bool_decide (is_Some (iv_redeemed_at found)) then Redeem_AlreadyRedeemed found
      else if Str.leb (iv_expires_at found) (ra_now args) then Redeem_Expired found
      else Redeem_Ok found
  end.
(** The guarded [UPDATE]. *)
Definition redeem_update (args : RedeemArgs) (id : string) (t : InvitationTable) : InvitationTable :=
  update_where (redeemable id) (set_redeemed (ra_now args) (ra_redeemer_user_id args)) t.

Definition redeem (args : RedeemArgs) : M InvitationTable StoreError RedeemOutcome := λ t,
  match redeem_guards args (get_by_token t (ra_token args)) with
  | Redeem_Ok found =>
      (Ok (Redeem_Ok (set_redeemed (ra_now args) (ra_redeemer_user_id args) found)),
       redeem_update args (iv_id found) t)
  | other => (Ok other, t)
  end.
End Invitations.

(** ** The routes *)

Definition DEFAULT_INVITATION_TTL_SECONDS : Z := 14 * 24 * 60 * 60.
Definition MAX_INVITATION_TTL_SECONDS : Z := 90 * 24 * 60 * 60.

Definition field (body : Value) (key : string) : option Value :=
  match body with VMap entries => map_get key entries | _ => None end.
Definition require_string (body : Value) (key name : string) : result ServerError string :=
  match field body key with
  | Some v =>
      match as_str v with
      | Some (String _ _ as s) => Ok s
      | _ => Err (SE_BadRequest (name +:+ " must be a non-empty string"))
      end
  | None => Err (SE_BadRequest (name +:+ " must be a non-empty string"))
  end.
Definition parse_sharing_permission (body : Value) : result ServerError string :=
  let permission := match field body "permission" with Some v => as_str v | None => None end in
  if bool_decide (permission = Some "read") then Ok "read"
  else if bool_decide (permission = Some "write") then Ok "write"
  else Err (SE_BadRequest ("permission must be " +:+ quote +:+ "read" +:+ quote +:+ " or "
                           +:+ quote +:+ "write" +:+ quote)).

(** The number an IEEE double holds. *)
Definition f64_of_bits (bits : Z) : f64 :=
  let sign := if Z.testbit bits 63 then -1 else 1 in
  let e := Z.land (Z.shiftr bits 52) 2047 in
  let m := Z.land bits (2 ^ 52 - 1) in
  if e =? 2047 then (if m =? 0 then F64_inf (Z.testbit bits 63) else F64_nan)
  else if e =? 0 then F64_fin (sign * m) (-1074)
  else F64_fin (sign * (m + 2 ^ 52)) (e - 1075).
Definition f64_of_f32_bits (bits : Z) : f64 :=
  let sign := if Z.testbit bits 31 then -1 else 1 in
  let e := Z.land (Z.shiftr bits 23) 255 in
  let m := Z.land bits (2 ^ 23 - 1) in
  if e =? 255 then (if m =? 0 then F64_inf (Z.testbit bits 31) else F64_nan)
  else if e =? 0 then F64_fin (sign * m) (-149)
  else F64_fin (sign * (m + 2 ^ 23)) (e - 150).
(** [as_f64]; an integer beyond [2^53] is rounded in the source, which the clamp
    below the call hides. *)
Definition as_f64 (v : Value) : option f64 :=
  match v with
  | VInt z => Some (F64_fin z 0)
  | VF32 bits => Some (f64_of_f32_bits bits)
  | VF64 bits => Some (f64_of_bits bits)
  | _ => None
  end.
Definition f64_gt_zero (x : f64) : bool :=
  match x with F64_nan => false | F64_inf n => negb n | F64_fin m _ => 0 <? m end.
(** [x.floor() as i64] (saturating). *)
Definition f64_floor_i64 (x : f64) : Z :=
  match x with
  | F64_fin m e =>
      Z.max i64_min (Z.min i64_max (if 0 <=? e then m * 2 ^ e else m / 2 ^ (- e)))
  | F64_inf true => i64_min
  | F64_inf false => i64_max
  | F64_nan => 0
  end.

Definition resolve_invitation_ttl_seconds (body : Value) : result ServerError Z :=
  match field body "expiresInSeconds" with
  | None | Some VNil => Ok DEFAULT_INVITATION_TTL_SECONDS
  | Some value =>
      match as_f64 value with
      | Some n =>
          if f64_is_finite n && f64_gt_zero n
          then Ok (Z.min (f64_floor_i64 n) MAX_INVITATION_TTL_SECONDS)
          else Err (SE_BadRequest "expiresInSeconds must be a positive finite number")
      | None => Err (SE_BadRequest "expiresInSeconds must be a positive finite number")
      end
  end.

Definition forbidden (reason message : string) : ServerError := SE_Authorization message (Some reason).
Definition store_error (e : StoreError) : ServerError := SE_BadRequest (StoreError_display e).
Definition i64_saturating_add (a b : Z) : Z := Z.max i64_min (Z.min i64_max (a + b)).

Record ShareState : Type := {
  sh_auth : AuthState; sh_invitations : InvitationTable; sh_grants : GrantTable;
  (** The records whose subscribers the gateway was told to re-check. *)
  sh_visibility_revoked : list (string * string * string);
}.
Definition with_auth (a : AuthState) (s : ShareState) : ShareState :=
  {| sh_auth := a; sh_invitations := sh_invitations s; sh_grants := sh_grants s;
     sh_visibility_revoked := sh_visibility_revoked s |}.
Definition with_invitations (t : InvitationTable) (s : ShareState) : ShareState :=
  {| sh_auth := sh_auth s; sh_invitations := t; sh_grants := sh_grants s;
     sh_visibility_revoked := sh_visibility_revoked s |}.
Definition with_grants (t : GrantTable) (s : ShareState) : ShareState :=
  {| sh_auth := sh_auth s; sh_invitations := sh_invitations s; sh_grants := t;
     sh_visibility_revoked := sh_visibility_revoked s |}.
Definition notify_revoked (tenant_id : string) (g : Grant) (s : ShareState) : ShareState :=
  {| sh_auth := sh_auth s; sh_invitations := sh_invitations s; sh_grants := sh_grants s;
     sh_visibility_revoked := sh_visibility_revoked s ++ [(tenant_id, g_record_type g, g_record_id g)] |}.

Inductive ShareReply : Type :=
| Created_invitation (i : Invitation)
| Created_grant (g : Grant)
| Listed_grants (gs : list Grant)
| Revoked_grant (g : option Grant)
| Grant_not_found.

Section Routes.
Context (session_token_digest : string → string).
Context (authorize : AuthState → string → Principal → Z → result ServerError unit).
Context (implicit_tenant_creation has_gateway : bool) (constraint_failed : string).
(** [serde_json::from_slice] on a body, with its error's text. *)
Context (from_slice : string → result string Value).

Definition is_ascii_whitespace (b : Z) : bool :=
  (b =? 9) || (b =? 10) || (b =? 12) || (b =? 13) || (b =? 32).
Definition parse_body_value (body : string) : result ServerError Value :=
  if forallb is_ascii_whitespace (Str.bytes body) then Ok (VMap [])
  else match from_slice body with
       | Ok v => Ok v
       | Err err => Err (SE_BadRequest ("invalid JSON body: " +:+ err))
       end.

Definition authenticate (headers : HeaderMap) (now : Z) : M AuthState ServerError Principal := λ a,
  match require_principal session_token_digest authorize headers now a with
  | (Err e, a) => (Err e, a)
  | (Ok principal, a) =>
      match ensure_tenant_allowed (p_tenant_id principal) implicit_tenant_creation now (st_tenants a) with
      | (Err e, t) => (Err e, {| st_sessions := st_sessions a; st_tenants := t |})
      | (Ok _, t) => (Ok principal, {| st_sessions := st_sessions a; st_tenants := t |})
      end
  end.

(** [match authenticate(..) { Err(error) => return respond_error(..) }]. *)
Definition authenticated {A} (headers : HeaderMap) (now : Z)
    (k : Principal → M ShareState ServerError A) : M ShareState ServerError A := λ s,
  match authenticate headers now (sh_auth s) with
  | (Err e, a) => (Err e, with_auth a s)
  | (Ok principal, a) => k principal (with_auth a s)
  end.

(** [id12] and [token32] are the random draws. *)
Definition invite_as (principal : Principal) (body : string) (id12 token32 : string) (now : Z) :
    M ShareState ServerError ShareReply := λ s,
  match (parsed ← parse_body_value body;
         record_type ← require_string parsed "recordType" "recordType";
         record_id ← require_string parsed "recordId" "recordId";
         permission ← parse_sharing_permission parsed;
         ttl_seconds ← resolve_invitation_ttl_seconds parsed;
         Ok {| ci_id := "inv-" +:+ id12; ci_tenant_id := p_tenant_id principal;
               ci_owner_user_id := p_user_id principal; ci_record_type := record_type;
               ci_record_id := record_id; ci_permission := permission; ci_token := token32;
               ci_created_at := iso_from_epoch_ms now;
               ci_expires_at := iso_from_epoch_ms
                 (i64_saturating_add now (i64_saturating_mul ttl_seconds 1000)) |}) with
  | Err e => (Err e, s)
  | Ok args =>
      match Invitations.create constraint_failed args (sh_invitations s) with
      | (Ok invitation, t) => (Ok (Created_invitation invitation), with_invitations t s)
      | (Err error, t) => (Err (store_error error), with_invitations t s)
      end
  end.
Definition invite (headers : HeaderMap) (body id12 token32 : string) (now : Z) :
    M ShareState ServerError ShareReply :=
  authenticated headers now (λ principal, invite_as principal body id12 token32 now).

Definition redeem_refusal (outcome : RedeemOutcome) : result ServerError Invitation :=
  match outcome with
  | Redeem_NotFound => Err (forbidden "notAuthorizedForResource" "Invitation token is invalid")
  | Redeem_TenantMismatch _ =>
      Err (forbidden "tenantMismatch" "Invitation belongs to a different tenant")
  | Redeem_Expired _ => Err (forbidden "notAuthorizedForResource" "Invitation has expired")
  | Redeem_AlreadyRedeemed _ =>
      Err (forbidden "notAuthorizedForResource" "Invitation has already been redeemed")
  | Redeem_Ok invitation => Ok invitation
  end.

Definition grant_args (principal : Principal) (invitation : Invitation) (id12 now_iso : string) :
    CreateGrantArgs :=
  {| cg_id := "grant-" +:+ id12; cg_tenant_id := iv_tenant_id invitation;
     cg_owner_user_id := iv_owner_user_id invitation; cg_record_type := iv_record_type invitation;
     cg_record_id := iv_record_id invitation; cg_grantee_user_id := p_user_id principal;
     cg_permission := iv_permission invitation; cg_created_at := now_iso |}.

(** After the redemption: the owner check, then the grant. *)
Definition mint_grant (principal : Principal) (invitation : Invitation) (id12 now_iso : string) :
    M ShareState ServerError ShareReply := λ s,
  if String.eqb (iv_owner_user_id invitation) (p_user_id principal)
  then (Err (forbidden "notAuthorizedForResource" "Owners cannot accept their own invitations"), s)
  else match Authz.create constraint_failed (grant_args principal invitation id12 now_iso) (sh_grants s) with
       | (Ok grant, t) => (Ok (Created_grant grant), with_grants t s)
       | (Err error, t) => (Err (store_error error), with_grants t s)
       end.

Definition redeem_args (principal : Principal) (token now_iso : string) : RedeemArgs :=
  {| ra_token := token; ra_tenant_id := p_tenant_id principal;
     ra_redeemer_user_id := p_user_id principal; ra_now := now_iso |}.

Definition accept_token (principal : Principal) (token id12 : string) (now : Z) :
    M ShareState ServerError ShareReply := λ s,
  let now_iso := iso_from_epoch_ms now in
  match Invitations.redeem (redeem_args principal token now_iso) (sh_invitations s) with
  | (Err error, t) => (Err (store_error error), with_invitations t s)
  | (Ok outcome, t) =>
      match redeem_refusal outcome with
      | Err e => (Err e, with_invitations t s)
      | Ok invitation => mint_grant principal invitation id12 now_iso (with_invitations t s)
      end
  end.
Definition accept_as (principal : Principal) (body id12 : string) (now : Z) :
    M ShareState ServerError ShareReply := λ s,
  match (parsed ← parse_body_value body; require_string parsed "token" "token") with
  | Err e => (Err e, s)
  | Ok token => accept_token principal token id12 now s
  end.
Definition accept (headers : HeaderMap) (body id12 : string) (now : Z) :
    M ShareState ServerError ShareReply :=
  authenticated headers now (λ principal, accept_as principal body id12 now).

Definition list_grants_route (headers : HeaderMap) (record_type record_id include_revoked : option string)
    (now : Z) : M ShareState ServerError ShareReply :=
  authenticated headers now (λ principal s,
    (Ok (Listed_grants (list_grants (sh_grants s)
       {| lg_tenant_id := p_tenant_id principal; lg_principal_user_id := p_user_id principal;
          lg_record_type := record_type; lg_record_id := record_id;
          lg_include_revoked := bool_decide (include_revoked = Some "true") |})), s)).

Definition revoke_and_respond (tenant_id grant_id : string) (now : Z) :
    M ShareState ServerError ShareReply := λ s,
  match Authz.revoke tenant_id grant_id (iso_from_epoch_ms now) (sh_grants s) with
  | (Ok grant, t) =>
      (Ok (Revoked_grant grant),
       match grant with
       | Some g => if has_gateway then notify_revoked tenant_id g (with_grants t s) else with_grants t s
       | None => with_grants t s
       end)
  | (Err error, t) => (Err (store_error error), with_grants t s)
  end.

Definition revoke_as (principal : Principal) (grant_id : string) (now : Z) :
    M ShareState ServerError ShareReply := λ s,
  match Authz.get_by_id (sh_grants s) (p_tenant_id principal) grant_id with
  | Some existing =>
      if String.eqb (g_owner_user_id existing) (p_user_id principal)
      then revoke_and_respond (p_tenant_id principal) (g_id existing) now s
      else (Ok Grant_not_found, s)
  | None => (Ok Grant_not_found, s)
  end.
Definition revoke_grant (headers : HeaderMap) (grant_id : string) (now : Z) :
    M ShareState ServerError ShareReply :=
  authenticated headers now (λ principal, revoke_as principal grant_id now).

Definition leave_as (principal : Principal) (grant_id : string) (now : Z) :
    M ShareState ServerError ShareReply := λ s,
  match Authz.get_by_id (sh_grants s) (p_tenant_id principal) grant_id with
  | Some existing =>
      if String.eqb (g_grantee_user_id existing) (p_user_id principal)
      then revoke_and_respond (p_tenant_id principal) (g_id existing) now s
      else (Ok Grant_not_found, s)
  | None => (Ok Grant_not_found, s)
  end.
Definition leave_grant (headers : HeaderMap) (grant_id : string) (now : Z) :
    M ShareState ServerError ShareReply :=
  authenticated headers now (λ principal, leave_as principal grant_id now).
End Routes.

(** ** Histories of calls *)

Inductive ShareCall : Type :=
| Call_invite (headers : gmap string string) (body id12 token32 : string) (now : Z)
| Call_accept (headers : gmap string string) (body id12 : string) (now : Z)
| Call_list (headers : gmap string string) (record_type record_id include_revoked : option string) (now : Z)
| Call_revoke (headers : gmap string string) (grant_id : string) (now : Z)
| Call_leave (headers : gmap string string) (grant_id : string) (now : Z).

Section Histories.
Context (session_token_digest : string → string).
Context (authorize : AuthState → string → Principal → Z → result ServerError unit).
Context (implicit_tenant_creation has_gateway : bool) (constraint_failed : string).
Context (from_slice : string → result string Value).

Definition share_call (c : ShareCall) : M ShareState ServerError ShareReply :=
  match c with
  | Call_invite h body id12 token32 now =>
      invite session_token_digest authorize implicit_tenant_creation constraint_failed from_slice
        h body id12 token32 now
  | Call_accept h body id12 now =>
      accept session_token_digest authorize implicit_tenant_creation constraint_failed from_slice
        h body id12 now
  | Call_list h ty id rev now =>
      list_grants_route session_token_digest authorize implicit_tenant_creation h ty id rev now
  | Call_revoke h id now =>
      revoke_grant session_token_digest authorize implicit_tenant_creation has_gateway h id now
  | Call_leave h id now =>
      leave_grant session_token_digest authorize implicit_tenant_creation has_gateway h id now
  end.

(** The token a call redeems. *)
Definition accepted_token (c : ShareCall) : option string :=
  match c with
  | Call_accept _ body _ _ =>
      match (parsed ← parse_body_value from_slice body; require_string parsed "token" "token") with
      | Ok token => Some token
      | Err _ => None
      end
  | _ => None
  end.
Definition minted (r : result ServerError ShareReply) : bool :=
  match r with Ok (Created_grant _) => true | _ => false end.

(** How many grants a history of calls, one at a time, mints from one token. *)
Fixpoint grants_minted (token : string) (s : ShareState) (calls : list ShareCall) : nat :=
  match calls with
  | [] => 0
  | c :: calls' =>
      let '(r, s') := share_call c s in
      ((if bool_decide (accepted_token c = Some token) && minted r then 1 else 0)
       + grants_minted token s' calls')%nat
  end.

Definition redeemed_token (token : string) (t : InvitationTable) : Prop :=
  ∃ i, Invitations.get_by_token t token = Some i ∧ is_Some (iv_redeemed_at i).

Lemma get_by_token_update t args id token :
  Invitations.get_by_token (Invitations.redeem_update args id t) token
  = (λ i, if Invitations.redeemable id i
          then set_redeemed (ra_now args) (ra_redeemer_user_id args) i else i)
    <$> Invitations.get_by_token t token.
Proof.
  unfold Invitations.get_by_token, Invitations.redeem_update, update_where, select.
  induction t as [|i t IH]; [done|]. rewrite fmap_cons. cbn [List.filter].
  assert (iv_token (if Invitations.redeemable id i
                    then set_redeemed (ra_now args) (ra_redeemer_user_id args) i else i) = iv_token i) as ->
    by by destruct (Invitations.redeemable id i).
  by destruct (String.eqb (iv_token i) token).
Qed.

Lemma redeemed_create token args t :
  redeemed_token token t → redeemed_token token (Invitations.create constraint_failed args t).2.
Proof.
  intros (i & Hi & Hr). unfold Invitations.create. destruct (existsb _ t); [by exists i|]. cbn [snd].
  exists i. unfold Invitations.get_by_token, select in *. rewrite List.filter_app.
  destruct (List.filter _ t); [done|]. by split.
Qed.

Lemma redeemed_redeem token args t :
  redeemed_token token t → redeemed_token token (Invitations.redeem args t).2.
Proof.
  intros (i & Hi & Hr). unfold Invitations.redeem.
  destruct (Invitations.redeem_guards _ _) as [found| | | |]; cbn [snd]; try (by exists i).
  unfold redeemed_token. rewrite get_by_token_update, Hi. cbn. eexists. split; [done|].
  destruct (Invitations.redeemable _ i); [|done]. cbn. eauto.
Qed.

(** A redemption is refused once redeemed, and leaves the token redeemed. *)
Lemma redeem_once args t :
  match (Invitations.redeem args t).1 with
  | Ok (Redeem_Ok _) =>
      ¬ redeemed_token (ra_token args) t
      ∧ redeemed_token (ra_token args) (Invitations.redeem args t).2
  | _ => True
  end.
Proof.
  unfold Invitations.redeem.
  destruct (Invitations.get_by_token t (ra_token args)) as [found|] eqn:E; [|done].
  cbn [Invitations.redeem_guards]. destruct (negb _); [done|]. case_bool_decide as Hred; [done|].
  destruct (Str.leb _ _); [done|]. cbn [fst snd]. split.
  - intros (i & Hi & Hr). congruence.
  - unfold redeemed_token. rewrite get_by_token_update, E. cbn. eexists. split; [done|].
    unfold Invitations.redeemable. rewrite String.eqb_refl, bool_decide_true; [cbn; eauto|].
    by destruct (iv_redeemed_at found); [destruct Hred|].
Qed.

Lemma mint_grant_invitations principal i id12 now_iso s :
  sh_invitations (mint_grant constraint_failed principal i id12 now_iso s).2 = sh_invitations s.
Proof. unfold mint_grant. destruct (String.eqb _ _); [done|]. by destruct (Authz.create _ _ _) as [[]]. Qed.

(** What a call does to the invitations: nothing, an insert, or a redemption. *)
Lemma share_call_invitations c s :
  let t := sh_invitations s in
  let t' := sh_invitations (share_call c s).2 in
  t' = t ∨ (∃ args, t' = (Invitations.create constraint_failed args t).2)
  ∨ (∃ args, t' = (Invitations.redeem args t).2).
Proof.
  destruct c as [h body id12 token now|h body id12 now|h ty id rev now|h id now|h id now];
    cbn [share_call]; unfold invite, accept, list_grants_route, revoke_grant, leave_grant, authenticated;
    destruct (authenticate _ _ _ _ _ _) as [[principal|e] a]; try (by left).
  - unfold invite_as. destruct (_ ≫= _) as [args|]; [|by left]. right. left. exists args.
    change (sh_invitations (with_auth a s)) with (sh_invitations s).
    by destruct (Invitations.create _ _ _) as [[]].
  - unfold accept_as. destruct (_ ≫= _) as [token|]; [|by left]. right. right. unfold accept_token.
    exists (redeem_args principal token (iso_from_epoch_ms now)).
    change (sh_invitations (with_auth a s)) with (sh_invitations s).
    destruct (Invitations.redeem _ _) as [[outcome|e] t]; [|done].
    destruct (redeem_refusal outcome); [|done]. by rewrite mint_grant_invitations.
  - left. unfold revoke_as, revoke_and_respond. by repeat case_match.
  - left. unfold leave_as, revoke_and_respond. by repeat case_match.
Qed.

Lemma share_call_redeemed token c s :
  redeemed_token token (sh_invitations s) → redeemed_token token (sh_invitations (share_call c s).2).
Proof.
  intros Hr. destruct (share_call_invitations c s) as [->|[[args ->]|[args ->]]]; [done| |].
  - by apply redeemed_create.
  - by apply redeemed_redeem.
Qed.

(** A grant is minted from a token only while it is not redeemed, and redeems it. *)
Lemma share_call_mints token c s :
  accepted_token c = Some token → minted (share_call c s).1 = true →
  ¬ redeemed_token token (sh_invitations s)
  ∧ redeemed_token token (sh_invitations (share_call c s).2).
Proof.
  destruct c as [|h body id12 now| | |]; try done. cbn [accepted_token share_call]. unfold accept, authenticated.
  destruct (authenticate _ _ _ _ _ _) as [[principal|e] a]; [|done]. unfold accept_as.
  destruct (_ ≫= _) as [token'|]; [|done]. intros [= ->]. unfold accept_token.
  change (sh_invitations (with_auth a s)) with (sh_invitations s).
  pose proof (redeem_once (redeem_args principal token (iso_from_epoch_ms now)) (sh_invitations s)) as Honce.
  destruct (Invitations.redeem _ _) as [[[]|] t]; cbn [redeem_refusal]; try done.
  rewrite mint_grant_invitations. done.
Qed.

Lemma no_more_minted token calls s :
  redeemed_token token (sh_invitations s) → grants_minted token s calls = 0%nat.
Proof.
  revert s. induction calls as [|c calls IH]; intros s Hr; cbn [grants_minted]; [done|].
  pose proof (share_call_redeemed token c s Hr) as Hr'. pose proof (share_call_mints token c s) as Hm.
  destruct (share_call c s) as [r s']. cbn [fst snd] in *. rewrite (IH s' Hr').
  case_bool_decide as Hacc; [|done]. destruct (minted r) eqn:Em; [|done].
  by destruct (Hm Hacc eq_refl).
Qed.
End Histories.

(** ** Acceptance, statement by statement

    The route runs its statements outside any transaction, so two requests can be
    interleaved between them: the [SELECT] with the guards on its row, the guarded
    [UPDATE], and the [INSERT] of the grant after the owner check. *)

Inductive AcceptPc : Type :=
| At_select
| At_update (found : Invitation)
| At_insert (invitation : Invitation)
| At_end (r : result ServerError ShareReply).

Record AcceptRequest : Type := {
  ar_principal : Principal; ar_token : string; ar_id12 : string; ar_now : Z;
}.

Section Interleaving.
Context (constraint_failed : string).

Definition accept_step (q : AcceptRequest) (pc : AcceptPc) (s : ShareState) : AcceptPc * ShareState :=
  let now_iso := iso_from_epoch_ms (ar_now q) in
  let args := redeem_args (ar_principal q) (ar_token q) now_iso in
  match pc with
  | At_select =>
      match redeem_refusal (Invitations.redeem_guards args
              (Invitations.get_by_token (sh_invitations s) (ar_token q))) with
      | Err e => (At_end (Err e), s)
      | Ok found => (At_update found, s)
      end
  | At_update found =>
      (At_insert (set_redeemed now_iso (p_user_id (ar_principal q)) found),
       with_invitations (Invitations.redeem_update args (iv_id found) (sh_invitations s)) s)
  | At_insert invitation =>
      let '(r, s') := mint_grant constraint_failed (ar_principal q) invitation (ar_id12 q) now_iso s in
      (At_end r, s')
  | At_end r => (At_end r, s)
  end.

(** Two requests, and whose statement is next. *)
Fixpoint accept_pair (q1 q2 : AcceptRequest) (schedule : list bool) (pc1 pc2 : AcceptPc) (s : ShareState) :
    AcceptPc * AcceptPc * ShareState :=
  match schedule with
  | [] => (pc1, pc2, s)
  | true :: schedule' =>
      let '(pc1', s') := accept_step q1 pc1 s in accept_pair q1 q2 schedule' pc1' pc2 s'
  | false :: schedule' =>
      let '(pc2', s') := accept_step q2 pc2 s in accept_pair q1 q2 schedule' pc1 pc2' s'
  end.

(** Alone, the statements are the route. *)
Lemma accept_steps_alone q1 q2 pc2 s :
  accept_pair q1 q2 [true; true; true] At_select pc2 s
  = let '(r, s') := accept_token constraint_failed (ar_principal q1) (ar_token q1) (ar_id12 q1) (ar_now q1) s in
    (At_end r, pc2, s').
Proof.
  cbn [accept_pair]. unfold accept_token, Invitations.redeem. cbn [accept_step].
  destruct (Invitations.redeem_guards _ _) as [found| | | |]; cbn [redeem_refusal accept_step];
    try (by destruct s).
  by destruct (mint_grant _ _ _ _ _ _) as [r s'].
Qed.

(** An open invitation passes the guards. *)
Lemma select_open q s i :
  Invitations.get_by_token (sh_invitations s) (iv_token i) = Some i → iv_redeemed_at i = None →
  ar_token q = iv_token i → p_tenant_id (ar_principal q) = iv_tenant_id i →
  Str.leb (iv_expires_at i) (iso_from_epoch_ms (ar_now q)) = false →
  accept_step q At_select s = (At_update i, s).
Proof.
  intros Hi Hred Ht Hten Hexp. cbn [accept_step]. rewrite Ht, Hi.
  cbn [Invitations.redeem_guards ra_tenant_id ra_now redeem_args].
  rewrite Hten, Hexp, String.eqb_refl. cbn [negb].
  rewrite bool_decide_false by (rewrite Hred; by intros []). done.
Qed.

Lemma mint_grant_fresh principal i id12 now_iso s :
  iv_owner_user_id i ≠ p_user_id principal →
  Forall (λ g, g_id g ≠ "grant-" +:+ id12) (sh_grants s) →
  ∃ g, mint_grant constraint_failed principal i id12 now_iso s
       = (Ok (Created_grant g), with_grants (sh_grants s ++ [g]) s)
    ∧ g_id g = "grant-" +:+ id12 ∧ g_tenant_id g = iv_tenant_id i
    ∧ g_grantee_user_id g = p_user_id principal
    ∧ g_record_type g = iv_record_type i ∧ g_record_id g = iv_record_id i
    ∧ g_permission g = iv_permission i ∧ g_revoked_at g = None.
Proof.
  intros Hown Hfresh. unfold mint_grant.
  destruct (String.eqb_spec (iv_owner_user_id i) (p_user_id principal)); [done|].
  unfold Authz.create. cbn [cg_id grant_args].
  assert (existsb (λ g, String.eqb (g_id g) ("grant-" +:+ id12)) (sh_grants s) = false) as ->.
  { apply not_true_iff_false. rewrite existsb_exists. intros (g & Hg & Heq%String.eqb_eq).
    rewrite Forall_forall in Hfresh. apply list_elem_of_In in Hg. by apply (Hfresh g Hg). }
  eexists. split; [done|]. by split_and!.
Qed.
End Interleaving.

Section Theorems.
Context (session_token_digest : string → string).
Context (authorize : AuthState → string → Principal → Z → result ServerError unit).
Context (implicit_tenant_creation has_gateway : bool) (constraint_failed : string).
Context (from_slice : string → result string Value).

(** C38: an invitation is single-use: whatever calls of the sharing routes are
    made, by whomever and in whatever order, at most one of them mints a grant
    from a given token, as long as the calls do not overlap. *)
Theorem invitation_single_use token s calls :
  (grants_minted session_token_digest authorize implicit_tenant_creation has_gateway constraint_failed
     from_slice token s calls ≤ 1)%nat.
Proof.
  revert s. induction calls as [|c calls IH]; intros s; cbn [grants_minted]; [lia|].
  pose proof (share_call_mints session_token_digest authorize implicit_tenant_creation has_gateway
    constraint_failed from_slice token c s) as Hm.
  destruct (share_call _ _ _ _ _ _ c s) as [r s']. cbn [fst snd] in Hm. specialize (IH s').
  case_bool_decide as Hacc; cbn [andb]; [|lia]. destruct (minted r); [|lia].
  destruct (Hm Hacc eq_refl) as [_ Hr]. rewrite (no_more_minted _ _ _ _ _ _ token calls s' Hr). lia.
Qed.
End Theorems.

(** two overlapping requests spend one invitation twice. Whenever an invitation
    is open and two users of its tenant other than its issuer accept it with their
    statements interleaved, both are answered with a grant of their own, with the
    invitation's record and permission. *)
Theorem overlapping_accepts_both_mint constraint_failed q1 q2 s i :
  Invitations.get_by_token (sh_invitations s) (iv_token i) = Some i →
  iv_redeemed_at i = None →
  Forall (λ q, ar_token q = iv_token i ∧ p_tenant_id (ar_principal q) = iv_tenant_id i
               ∧ p_user_id (ar_principal q) ≠ iv_owner_user_id i
               ∧ Str.leb (iv_expires_at i) (iso_from_epoch_ms (ar_now q)) = false
               ∧ Forall (λ g, g_id g ≠ "grant-" +:+ ar_id12 q) (sh_grants s)) [q1; q2] →
  ar_id12 q1 ≠ ar_id12 q2 →
  ∃ g1 g2 s', accept_pair constraint_failed q1 q2 [true; false; true; false; true; false] At_select At_select s
    = (At_end (Ok (Created_grant g1)), At_end (Ok (Created_grant g2)), s')
    ∧ sh_grants s' = sh_grants s ++ [g1; g2]
    ∧ Forall (λ qg : AcceptRequest * Grant,
        g_grantee_user_id qg.2 = p_user_id (ar_principal qg.1) ∧ g_record_type qg.2 = iv_record_type i
        ∧ g_record_id qg.2 = iv_record_id i ∧ g_permission qg.2 = iv_permission i
        ∧ g_revoked_at qg.2 = None) [(q1, g1); (q2, g2)].
Proof.
  intros Hi Hred Hq Hids. apply Forall_cons in Hq as [(Ht1 & Hten1 & Hown1 & Hexp1 & Hf1) Hq].
  apply Forall_cons in Hq as [(Ht2 & Hten2 & Hown2 & Hexp2 & Hf2) _].
  cbn [accept_pair]. rewrite (select_open constraint_failed q1 s i), (select_open constraint_failed q2 s i)
    by done. cbn [accept_step].
  edestruct (mint_grant_fresh constraint_failed (ar_principal q1)) as (g1 & -> & Hg1id & Hg1); [done|exact Hf1|].
  edestruct (mint_grant_fresh constraint_failed (ar_principal q2)) as (g2 & -> & Hg2id & Hg2); [done| |].
  { cbn. apply Forall_app. split; [exact Hf2|]. apply Forall_singleton. rewrite Hg1id.
    by intros ?%(inj _). }
  eexists g1, g2, _. split; [done|]. cbn. rewrite <- app_assoc. split; [done|].
  destruct Hg1 as (_ & ? & ? & ? & ? & ?), Hg2 as (_ & ? & ? & ? & ? & ?). by repeat constructor.
Qed.

Lemma require_string_ok body key name x :
  field body key = Some (VStr x) → x ≠ "" → require_string body key name = Ok x.
Proof. intros Hf Hx. unfold require_string. rewrite Hf. by destruct x. Qed.

Lemma fresh_exists t id token :
  Forall (λ i, iv_id i ≠ id ∧ iv_token i ≠ token) t →
  existsb (λ i, String.eqb (iv_id i) id || String.eqb (iv_token i) token) t = false.
Proof.
  induction 1 as [|i t [Hi Ht] _ IH]; [done|]. cbn [existsb]. rewrite IH.
  apply String.eqb_neq in Hi as ->. apply String.eqb_neq in Ht as ->. done.
Qed.

Lemma get_by_token_snoc t i :
  Forall (λ j, iv_token j ≠ iv_token i) t → Invitations.get_by_token (t ++ [i]) (iv_token i) = Some i.
Proof.
  unfold Invitations.get_by_token, select. rewrite List.filter_app. cbn [List.filter].
  rewrite String.eqb_refl. induction 1 as [|j t Hj _ IH]; [done|]. cbn [List.filter app].
  apply String.eqb_neq in Hj as ->. done.
Qed.

(** The arguments an invitation without a lifetime of its own is created with. *)
Definition invitation_args (p : Principal) (ty id permission id12 token : string) (now : Z) :
    CreateInvitationArgs :=
  {| ci_id := "inv-" +:+ id12; ci_tenant_id := p_tenant_id p; ci_owner_user_id := p_user_id p;
     ci_record_type := ty; ci_record_id := id; ci_permission := permission; ci_token := token;
     ci_created_at := iso_from_epoch_ms now;
     ci_expires_at := iso_from_epoch_ms
       (i64_saturating_add now (i64_saturating_mul DEFAULT_INVITATION_TTL_SECONDS 1000)) |}.

Lemma invite_creates constraint_failed from_slice p body ty id id12 token now s :
  ty ≠ "" → id ≠ "" →
  parse_body_value from_slice body
  = Ok (VMap [(VStr "recordType", VStr ty); (VStr "recordId", VStr id); (VStr "permission", VStr "write")]) →
  Forall (λ i, iv_id i ≠ "inv-" +:+ id12 ∧ iv_token i ≠ token) (sh_invitations s) →
  (invite_as constraint_failed from_slice p body id12 token now s).2
  = with_invitations (sh_invitations s ++ [fresh_invitation (invitation_args p ty id "write" id12 token now)]) s.
Proof.
  intros Hty Hid Hbody Hfresh. unfold invite_as. rewrite Hbody. cbn [mbind result_bind].
  rewrite (require_string_ok _ "recordType" _ ty), (require_string_ok _ "recordId" _ id) by done.
  change (parse_sharing_permission _) with (@Ok ServerError string "write").
  change (resolve_invitation_ttl_seconds _) with (@Ok ServerError Z DEFAULT_INVITATION_TTL_SECONDS).
  unfold Invitations.create. cbn [mbind result_bind ci_id ci_token].
  by rewrite fresh_exists.
Qed.

Lemma accept_mints constraint_failed q token gid12 now s i :
  iv_token i = token → Invitations.get_by_token (sh_invitations s) token = Some i →
  iv_redeemed_at i = None → p_tenant_id q = iv_tenant_id i → iv_owner_user_id i ≠ p_user_id q →
  Str.leb (iv_expires_at i) (iso_from_epoch_ms now) = false →
  Forall (λ g, g_id g ≠ "grant-" +:+ gid12) (sh_grants s) →
  ∃ g, g ∈ sh_grants (accept_token constraint_failed q token gid12 now s).2
    ∧ g_tenant_id g = p_tenant_id q ∧ g_grantee_user_id g = p_user_id q
    ∧ g_record_type g = iv_record_type i ∧ g_record_id g = iv_record_id i
    ∧ g_permission g = iv_permission i ∧ g_revoked_at g = None.
Proof.
  intros Ht Hi Hred Hten Hown Hexp Hg.
  set (r := {| ar_principal := q; ar_token := token; ar_id12 := gid12; ar_now := now |}).
  pose proof (accept_steps_alone constraint_failed r r At_select s) as Hsteps.
  cbn [accept_pair] in Hsteps. rewrite (select_open constraint_failed r s i) in Hsteps by (by subst).
  cbn [accept_step] in Hsteps. cbn [r ar_principal ar_token ar_id12 ar_now] in Hsteps.
  edestruct (mint_grant_fresh constraint_failed q
    (set_redeemed (iso_from_epoch_ms now) (p_user_id q) i) gid12) as (g & Hmint & _ & Hgt & Hgg & Hrest);
    [done| |rewrite Hmint in Hsteps]; [done|].
  destruct (accept_token _ _ _ _ _ _) as [res s']. injection Hsteps as _ <-. exists g. cbn.
  destruct Hrest as (? & ? & ? & ?). split_and!; [set_solver|by rewrite Hgt, Hten|done..].
Qed.

(** issuing an invitation asks nothing about the record: any user of a tenant
    can invite any other user to write any record of the tenant, whoever owns it,
    and once accepted the write passes even where the application's policy refuses
    the writer as not the owner or not authorized for the resource. *)
Theorem invite_ignores_ownership constraint_failed (from_slice : string → result string Value) (hooks : list PolicyHook)
    (p q : Principal) (ty id body body' id12 token gid12 : string) (value : option Value) (now now' : Z) r m s :
  let s1 := (invite_as constraint_failed from_slice p body id12 token now s).2 in
  let s2 := (accept_as constraint_failed from_slice q body' gid12 now' s1).2 in
  ty ≠ "" → id ≠ "" → token ≠ "" → p_user_id q ≠ "" →
  p_tenant_id p = p_tenant_id q → p_user_id p ≠ p_user_id q →
  parse_body_value from_slice body
  = Ok (VMap [(VStr "recordType", VStr ty); (VStr "recordId", VStr id); (VStr "permission", VStr "write")]) →
  parse_body_value from_slice body' = Ok (VMap [(VStr "token", VStr token)]) →
  Forall (λ i, iv_id i ≠ "inv-" +:+ id12 ∧ iv_token i ≠ token) (sh_invitations s) →
  Forall (λ g, g_id g ≠ "grant-" +:+ gid12) (sh_grants s) →
  Str.leb (iso_from_epoch_ms (i64_saturating_add now (i64_saturating_mul DEFAULT_INVITATION_TTL_SECONDS 1000)))
    (iso_from_epoch_ms now') = false →
  first_deny (write_input q ty id value) hooks r m → r = NotAuthorizedForResource ∨ r = OwnerMismatch →
  write_decision (sh_grants s2) hooks q ty id value = Ok tt.
Proof.
  intros s1 s2 Hty Hid Htok Hq Hten Hne Hbody Hbody' Hinv Hg Hexp Hdeny Hr.
  apply write_decision_spec. split; [done|]. right. exists r, m. split_and!; [done..|].
  apply has_active_grant_for_spec. set (i := fresh_invitation (invitation_args p ty id "write" id12 token now)).
  assert (s1 = with_invitations (sh_invitations s ++ [i]) s) as Hs1 by by apply invite_creates.
  destruct (accept_mints constraint_failed q token gid12 now' s1 i) as (g & Hin & Ht & Hgg & Hrt & Hri & Hpm & Hrev);
    rewrite ?Hs1; try done.
  { apply (get_by_token_snoc (sh_invitations s) i). eapply Forall_impl; [exact Hinv|]. by intros j [_ ?]. }
  exists g. split; [|split_and!; try done; by rewrite Hpm].
  unfold s2, accept_as. rewrite Hbody'. cbn [mbind result_bind].
  by rewrite (require_string_ok _ "token" _ token) by done.
Qed.

(** ** Concrete runs *)

Module SampleShares.
Definition member (user : string) : Principal :=
  {| p_user_id := user; p_device_id := "d"; p_replica_id := "r"; p_tenant_id := "acme";
     p_scope := Scope_Tenant; p_service_scopes := [] |}.
Definition open : Invitation :=
  fresh_invitation (invitation_args (member "ada") "Note" "n1" "write" "1" "tok" 0).
Definition empty : ShareState :=
  {| sh_auth := {| st_sessions := ∅; st_tenants := ∅ |}; sh_invitations := []; sh_grants := [];
     sh_visibility_revoked := [] |}.
Definition opened : ShareState := with_invitations [open] empty.
Definition request (user id12 : string) : AcceptRequest :=
  {| ar_principal := member user; ar_token := "tok"; ar_id12 := id12; ar_now := 10 |}.
Definition from_slice (body : string) : result string Value :=
  if String.eqb body "invite"
  then Ok (VMap [(VStr "recordType", VStr "Note"); (VStr "recordId", VStr "n1"); (VStr "permission", VStr "write")])
  else Ok (VMap [(VStr "token", VStr "tok")]).
(** A policy that lets only the owner of the note write it. *)
Definition owner_only (input : PolicyInput) : option AuthDecision :=
  if String.eqb (p_user_id (pi_principal input)) "owner" then None
  else Some (Deny OwnerMismatch "Not the resource owner").
End SampleShares.

Lemma overlapping_accepts_both_mint_witness :
  ∃ g1 g2 s', accept_pair "UNIQUE" (SampleShares.request "bob" "1") (SampleShares.request "eve" "2")
      [true; false; true; false; true; false] At_select At_select SampleShares.opened
    = (At_end (Ok (Created_grant g1)), At_end (Ok (Created_grant g2)), s')
    ∧ sh_grants s' = [g1; g2].
Proof.
  destruct (overlapping_accepts_both_mint "UNIQUE" (SampleShares.request "bob" "1")
    (SampleShares.request "eve" "2") SampleShares.opened SampleShares.open eq_refl eq_refl)
    as (g1 & g2 & s' & H & Hg & _).
  - repeat constructor; vm_compute; congruence.
  - vm_compute. congruence.
  - exists g1, g2, s'. split; [exact H|exact Hg].
Defined.

Lemma invite_ignores_ownership_witness :
  write_decision (sh_grants (accept_as "UNIQUE" SampleShares.from_slice (SampleShares.member "eve")
      "accept" "2" 10 (invite_as "UNIQUE" SampleShares.from_slice (SampleShares.member "bob") "invite"
        "1" "tok" 0 SampleShares.empty).2).2)
    [SampleShares.owner_only] (SampleShares.member "eve") "Note" "n1" None = Ok tt.
Proof.
  apply (invite_ignores_ownership "UNIQUE" SampleShares.from_slice [SampleShares.owner_only]
    (SampleShares.member "bob") (SampleShares.member "eve") "Note" "n1" "invite" "accept" "1" "tok" "2"
    None 0 10 OwnerMismatch "Not the resource owner" SampleShares.empty); try (vm_compute; congruence).
  - constructor.
  - constructor.
  - exists [], SampleShares.owner_only, []. repeat split. constructor.
  - by right.
Defined.
