(* ===== verification/Credentials.v ===== *)
(** * One-time and long-lived credentials
      ([frick-store/src/stores/{password_reset,saml_assertion,sealed_sender,service_principal}.rs])

    Password-reset tokens, the SAML replay guard, sealed-sender access tokens and
    service principals. SHA-256, base64url and the random source are outside the
    repository: hashes are parameters, injective where a theorem follows one
    token, and a random draw is an argument. *)

From Stdlib Require Import ZArith Lia Ascii String.
From stdpp Require Import base gmap strings list sorting pretty.
From S2P Require Import Prelude Value Timestamp StoreBase Encryption RegLock.

(** ** Password resets *)

Definition DEFAULT_RESET_TTL_MINUTES : Z := 60.

Record IssuedResetToken : Type := {
  ir_token : string; ir_tenant_id : string; ir_user_id : string; ir_expires_at : string;
}.
Record ConsumedResetTokenRow : Type := { cr_tenant_id : string; cr_user_id : string }.
(** The columns besides [token_hash]. *)
Record ResetRow : Type := {
  rr_tenant_id : string; rr_user_id : string; rr_created_at : string; rr_expires_at : string;
  rr_consumed_at : option string;
}.
Abbreviation ResetTable := (gmap string ResetRow).

Definition set_consumed (now : string) (r : ResetRow) : ResetRow :=
  {| rr_tenant_id := rr_tenant_id r; rr_user_id := rr_user_id r; rr_created_at := rr_created_at r;
     rr_expires_at := rr_expires_at r; rr_consumed_at := Some now |}.
(** [tenant_id = ? AND user_id = ? AND consumed_at IS NULL]. *)
Definition outstanding_for (tenant_id user_id : string) (r : ResetRow) : bool :=
  String.eqb (rr_tenant_id r) tenant_id && String.eqb (rr_user_id r) user_id
  && bool_decide (rr_consumed_at r = None).

Module Reset.
Section Store.
Context (hash_token : string → string) (constraint_failed : string).

Definition issue (token tenant_id user_id : string) (ttl_minutes now_ms : Z) :
    M ResetTable StoreError IssuedResetToken :=
  let token_hash := hash_token token in
  let now_iso := iso_from_epoch_ms now_ms in
  let expires_at := iso_from_epoch_ms (now_ms + ttl_minutes * 60000) in
  transaction (λ t,
    let t := (λ r, if outstanding_for tenant_id user_id r then set_consumed now_iso r else r) <$> t in
    match t !! token_hash with
    | Some _ => (Err (Driver constraint_failed), t)
    | None =>
        (Ok {| ir_token := token; ir_tenant_id := tenant_id; ir_user_id := user_id;
               ir_expires_at := expires_at |},
         <[token_hash := {| rr_tenant_id := tenant_id; rr_user_id := user_id; rr_created_at := now_iso;
                            rr_expires_at := expires_at; rr_consumed_at := None |}]> t)
    end).

Definition consume (token : string) (now_ms : Z) :
    M ResetTable StoreError (option ConsumedResetTokenRow) :=
  let token_hash := hash_token token in
  let now_iso := iso_from_epoch_ms now_ms in
  transaction (λ t,
    match t !! token_hash with
    | None => (Ok None, t)
    | Some row =>
        if bool_decide (is_Some (rr_consumed_at row)) || Str.ltb (rr_expires_at row) now_iso
        then (Ok None, t)
        else (Ok (Some {| cr_tenant_id := rr_tenant_id row; cr_user_id := rr_user_id row |}),
              alter (set_consumed now_iso) token_hash t)
    end).

Definition purge_expired (now_ms : Z) : M ResetTable StoreError Z := λ t,
  let now_iso := iso_from_epoch_ms now_ms in
  (Ok (changes (λ kr : string * ResetRow, Str.ltb (rr_expires_at kr.2) now_iso) (map_to_list t)),
   filter (λ kr, Str.ltb (rr_expires_at kr.2) now_iso = false) t).
End Store.
End Reset.

(** ** The SAML replay guard *)

Record MarkSeenInput : Type := { ms_provider_id : string; ms_assertion_id : string; ms_expires_at : string }.
Record SeenRow : Type := { sa_seen_at : string; sa_expires_at : string }.
Abbreviation SeenTable := (gmap (string * string) SeenRow).

Module Saml.
Definition purge_expired (now_ms : Z) : M SeenTable StoreError Z := λ t,
  let cutoff := iso_from_epoch_ms now_ms in
  (Ok (changes (λ kr : (string * string) * SeenRow, Str.ltb (sa_expires_at kr.2) cutoff) (map_to_list t)),
   filter (λ kr, Str.ltb (sa_expires_at kr.2) cutoff = false) t).

(** The [INSERT]'s only failure in the model is the primary key; a win sweeps. *)
Definition mark_seen (input : MarkSeenInput) (now_ms : Z) : M SeenTable StoreError bool := λ t,
  let key := (ms_provider_id input, ms_assertion_id input) in
  match t !! key with
  | Some _ => (Ok false, t)
  | None =>
      let t := <[key := {| sa_seen_at := iso_from_epoch_ms now_ms; sa_expires_at := ms_expires_at input |}]> t in
      (Ok true, (purge_expired now_ms t).2)
  end.

Definition has_seen (t : SeenTable) (provider_id assertion_id : string) : bool :=
  bool_decide (is_Some (t !! (provider_id, assertion_id))).
End Saml.

(** ** Sealed-sender access tokens *)

Record SealedSenderAccessRecord : Type := {
  sl_tenant_id : string; sl_user_id : string; sl_token_hash : string; sl_revoked : bool;
  sl_created_at : string; sl_updated_at : string;
}.
Abbreviation SealedTable := (gmap (string * string) SealedSenderAccessRecord).

Module Sealed.
Section Store.
Context (hash_access_token : string → string).

Definition issue (tenant_id user_id token : string) (now_ms : Z) : M SealedTable StoreError unit := λ t,
  let now_iso := iso_from_epoch_ms now_ms in
  let created_at :=
    match t !! (tenant_id, user_id) with Some r => sl_created_at r | None => now_iso end in
  (Ok tt,
   <[(tenant_id, user_id) :=
       {| sl_tenant_id := tenant_id; sl_user_id := user_id; sl_token_hash := hash_access_token token;
          sl_revoked := false; sl_created_at := created_at; sl_updated_at := now_iso |}]> t).

Definition read (t : SealedTable) (tenant_id user_id : string) : option SealedSenderAccessRecord :=
  t !! (tenant_id, user_id).

Definition verify (t : SealedTable) (tenant_id user_id token : string) : bool :=
  match read t tenant_id user_id with
  | None => false
  | Some record =>
      if sl_revoked record then false
      else constant_time_eq (Str.bytes (hash_access_token token)) (Str.bytes (sl_token_hash record))
  end.

Definition set_revoked (now : string) (r : SealedSenderAccessRecord) : SealedSenderAccessRecord :=
  {| sl_tenant_id := sl_tenant_id r; sl_user_id := sl_user_id r; sl_token_hash := sl_token_hash r;
     sl_revoked := true; sl_created_at := sl_created_at r; sl_updated_at := now |}.
Definition revoke (tenant_id user_id : string) (now_ms : Z) : M SealedTable StoreError bool := λ t,
  match t !! (tenant_id, user_id) with
  | Some r =>
      if sl_revoked r then (Ok false, t)
      else (Ok true, <[(tenant_id, user_id) := set_revoked (iso_from_epoch_ms now_ms) r]> t)
  | None => (Ok false, t)
  end.
End Store.
End Sealed.

(** ** Service principals *)

Record IssuedServicePrincipal : Type := {
  sp_id : string; sp_key_id : string; sp_api_key : string; sp_tenant_id : string; sp_name : string;
  sp_scopes : list string; sp_created_at : string;
}.
Record ServicePrincipalRecord : Type := {
  sr_id : string; sr_key_id : string; sr_tenant_id : string; sr_name : string;
  sr_scopes : list string; sr_created_at : string; sr_revoked_at : option string;
}.
Record IssueServicePrincipalInput : Type := { is_tenant_id : string; is_name : string; is_scopes : list string }.
(** The row; [scopes] is the JSON text. *)
Record PrincipalRow : Type := {
  pw_id : string; pw_key_id : string; pw_key_hash : string; pw_tenant_id : string; pw_name : string;
  pw_scopes : string; pw_created_at : string; pw_revoked_at : option string;
}.
(** The rows, with the primary key [id] and the unique [key_id]. *)
Definition PrincipalTable : Type := list PrincipalRow.

Definition dedup_push (seen : list string) (scope : string) : list string :=
  let trimmed := Str.trim scope in
  if Str.is_empty trimmed then seen
  else if bool_decide (trimmed ∈ seen) then seen else seen ++ [trimmed].
Definition normalize_scopes (scopes : list string) : list string :=
  order_by Str.leb (foldl dedup_push [] scopes).

(** The text before the first dot, which is not the first character. *)
Definition key_id_from_api_key (api_key : string) : option string :=
  match String.index 0 "." api_key with
  | Some (S n) => Some (String.substring 0 (S n) api_key)
  | _ => None
  end.

Module Principals.
Section Store.
Context (hash_key : string → string) (constraint_failed : string).
(** [serde_json]: the text of an array of strings, and the items of a text that is
    an array, the strings among them. *)
Context (json_to_string : list string → option string).
Context (json_array : string → option (list (option string))).

Definition serialize_scopes (scopes : list string) : string := default "[]" (json_to_string scopes).
Definition parse_scopes (raw : string) : list string :=
  match json_array raw with Some items => omap id items | None => [] end.

Definition from_row (r : PrincipalRow) : ServicePrincipalRecord :=
  {| sr_id := pw_id r; sr_key_id := pw_key_id r; sr_tenant_id := pw_tenant_id r; sr_name := pw_name r;
     sr_scopes := parse_scopes (pw_scopes r); sr_created_at := pw_created_at r;
     sr_revoked_at := pw_revoked_at r |}.

(** [id12], [key6] and [secret32] are the base64url texts of the three draws. *)
Definition issue (input : IssueServicePrincipalInput) (id12 key6 secret32 : string) (now_ms : Z) :
    M PrincipalTable StoreError IssuedServicePrincipal := λ t,
  let id := "sp_" +:+ id12 in
  let key_id := "sk_" +:+ key6 in
  let api_key := key_id +:+ "." +:+ secret32 in
  let created_at := iso_from_epoch_ms now_ms in
  let scopes := normalize_scopes (is_scopes input) in
  if existsb (λ r, String.eqb (pw_id r) id || String.eqb (pw_key_id r) key_id) t
  then (Err (Driver constraint_failed), t)
  else
    (Ok {| sp_id := id; sp_key_id := key_id; sp_api_key := api_key; sp_tenant_id := is_tenant_id input;
           sp_name := is_name input; sp_scopes := scopes; sp_created_at := created_at |},
     t ++ [{| pw_id := id; pw_key_id := key_id; pw_key_hash := hash_key api_key;
              pw_tenant_id := is_tenant_id input; pw_name := is_name input;
              pw_scopes := serialize_scopes scopes; pw_created_at := created_at;
              pw_revoked_at := None |}]).

Definition constant_time_equals (a b : string) : bool :=
  let a := Str.bytes a in
  let b := Str.bytes b in
  if negb (Nat.eqb (length a) (length b)) then false else bool_decide (a = b).

Definition authenticate (t : PrincipalTable) (api_key : string) : option ServicePrincipalRecord :=
  match key_id_from_api_key api_key with
  | None => None
  | Some key_id =>
      match list.head (select (λ r, String.eqb (pw_key_id r) key_id) t) with
      | None => None
      | Some row =>
          if bool_decide (is_Some (pw_revoked_at row)) then None
          else if negb (constant_time_equals (hash_key api_key) (pw_key_hash row)) then None
          else Some (from_row row)
      end
  end.

(** [ORDER BY created_at DESC, id DESC]. *)
Definition newest_first (a b : PrincipalRow) : bool :=
  if String.eqb (pw_created_at a) (pw_created_at b) then Str.leb (pw_id b) (pw_id a)
  else Str.leb (pw_created_at b) (pw_created_at a).
Definition list_ (t : PrincipalTable) (tenant_id : string) : list ServicePrincipalRecord :=
  from_row <$> order_by newest_first (select (λ r, String.eqb (pw_tenant_id r) tenant_id) t).

Definition at_principal (tenant_id id : string) (r : PrincipalRow) : bool :=
  String.eqb (pw_tenant_id r) tenant_id && String.eqb (pw_id r) id.
Definition get (t : PrincipalTable) (tenant_id id : string) : option ServicePrincipalRecord :=
  from_row <$> list.head (select (at_principal tenant_id id) t).

Definition set_row_revoked (now : string) (r : PrincipalRow) : PrincipalRow :=
  {| pw_id := pw_id r; pw_key_id := pw_key_id r; pw_key_hash := pw_key_hash r;
     pw_tenant_id := pw_tenant_id r; pw_name := pw_name r; pw_scopes := pw_scopes r;
     pw_created_at := pw_created_at r; pw_revoked_at := Some now |}.
Definition revoke (tenant_id id : string) (now_ms : Z) : M PrincipalTable StoreError bool := λ t,
  let where_ r := at_principal tenant_id id r && bool_decide (pw_revoked_at r = None) in
  (Ok (0 <? changes where_ t), update_where where_ (set_row_revoked (iso_from_epoch_ms now_ms)) t).
End Store.
End Principals.

(** ** Password resets: the single slot

    What the store promises: a user has at most one outstanding token, the last
    one issued; consuming it before it expires gives the user back and spends it. *)

Inductive ResetOp : Type :=
| Rs_issue (token tenant_id user_id : string) (ttl_minutes now_ms : Z)
| Rs_consume (token : string) (now_ms : Z)
| Rs_purge (now_ms : Z).

(** The outstanding tokens: whose they are and until when. *)
Abbreviation Slots := (gmap string ((string * string) * Z)).
Definition slot_op (s : Slots) (op : ResetOp) : option (string * string) * Slots :=
  match op with
  | Rs_issue token tenant user ttl now =>
      (None, <[token := ((tenant, user), now + ttl * 60000)]> (filter (λ kv, kv.2.1 ≠ (tenant, user)) s))
  | Rs_consume token now =>
      match s !! token with
      | Some (who, expiry) => if now <=? expiry then (Some who, delete token s) else (None, s)
      | None => (None, s)
      end
  | Rs_purge now => (None, filter (λ kv, now ≤ kv.2.2) s)
  end.
Fixpoint slot_ops (s : Slots) (ops : list ResetOp) : list (option (string * string)) * Slots :=
  match ops with
  | [] => ([], s)
  | op :: ops' =>
      let '(r, s') := slot_op s op in
      let '(rs, s'') := slot_ops s' ops' in (r :: rs, s'')
  end.

Definition reset_op_ok (op : ResetOp) : Prop :=
  match op with
  | Rs_issue _ _ _ ttl now => in_four_digit_years (now + ttl * 60000)
  | Rs_consume _ now | Rs_purge now => in_four_digit_years now
  end.
Definition issued_token (op : ResetOp) : option string :=
  match op with Rs_issue token _ _ _ _ => Some token | _ => None end.

Section ResetRefinement.
Context (hash_token : string → string) (constraint_failed : string).

(** The store's answer to an operation; [None] for everything but the user of a
    consumed token. *)
Definition reset_op (t : ResetTable) (op : ResetOp) : option (string * string) * ResetTable :=
  match op with
  | Rs_issue token tenant user ttl now =>
      (None, (Reset.issue hash_token constraint_failed token tenant user ttl now t).2)
  | Rs_consume token now =>
      let '(r, t') := Reset.consume hash_token token now t in
      (match r with Ok (Some c) => Some (cr_tenant_id c, cr_user_id c) | _ => None end, t')
  | Rs_purge now => (None, (Reset.purge_expired now t).2)
  end.
Fixpoint reset_ops (t : ResetTable) (ops : list ResetOp) : list (option (string * string)) * ResetTable :=
  match ops with
  | [] => ([], t)
  | op :: ops' =>
      let '(r, t') := reset_op t op in
      let '(rs, t'') := reset_ops t' ops' in (r :: rs, t'')
  end.

(** An unconsumed row is a slot. *)
Definition slot_of (r : ResetRow) (v : (string * string) * Z) : Prop :=
  rr_consumed_at r = None ∧ v.1 = (rr_tenant_id r, rr_user_id r)
  ∧ rr_expires_at r = iso_from_epoch_ms v.2 ∧ in_four_digit_years v.2.
Definition reset_rel (used : list string) (t : ResetTable) (s : Slots) : Prop :=
  (∀ token v, s !! token = Some v ↔ ∃ r, t !! hash_token token = Some r ∧ slot_of r v)
  ∧ (∀ k r, t !! k = Some r → ∃ token e, token ∈ used ∧ k = hash_token token
       ∧ rr_expires_at r = iso_from_epoch_ms e ∧ in_four_digit_years e).

Lemma ltb_iso a b : in_four_digit_years a → in_four_digit_years b →
  Str.ltb (iso_from_epoch_ms a) (iso_from_epoch_ms b) = (a <? b).
Proof. intros Ha Hb. unfold Str.ltb. rewrite iso_order_eq by done. by rewrite Z.ltb_antisym. Qed.

Lemma iso_inj a b : in_four_digit_years a → in_four_digit_years b →
  iso_from_epoch_ms a = iso_from_epoch_ms b → a = b.
Proof. intros Ha%iso_roundtrip_eq Hb%iso_roundtrip_eq E. congruence. Qed.

(** Issuing spends the rows of the user and no others. *)
Lemma slot_of_spent now tenant user r v :
  slot_of (if outstanding_for tenant user r then set_consumed now r else r) v
  ↔ slot_of r v ∧ v.1 ≠ (tenant, user).
Proof.
  unfold slot_of, outstanding_for. destruct (rr_consumed_at r) eqn:Ec.
  { rewrite bool_decide_false by done. rewrite andb_false_r, Ec. naive_solver. }
  rewrite bool_decide_true, andb_true_r by done.
  destruct (String.eqb_spec (rr_tenant_id r) tenant) as [Ht|Ht];
    destruct (String.eqb_spec (rr_user_id r) user) as [Hu|Hu]; cbn [andb].
  { cbn [set_consumed rr_consumed_at]. split; [by intros (? & _)|]. intros [(_ & E & _) Hn]. congruence. }
  all: rewrite Ec; split; [intros Hs; split; [exact Hs|destruct Hs as (_ & -> & _); congruence]|by intros [? _]].
Qed.

Lemma reset_issue_rel `{!Inj (=) (=) hash_token} used t s token tenant user ttl now :
  reset_rel used t s → token ∉ used → in_four_digit_years (now + ttl * 60000) →
  reset_rel (token :: used) (Reset.issue hash_token constraint_failed token tenant user ttl now t).2
    (slot_op s (Rs_issue token tenant user ttl now)).2.
Proof.
  intros [Hs Hk] Hfresh Hy. unfold Reset.issue, transaction. rewrite lookup_fmap.
  destruct (t !! hash_token token) as [r0|] eqn:E0; cbn [fmap option_fmap option_map].
  { destruct (Hk _ _ E0) as (token' & e & Hin & Heq & _). apply (inj hash_token) in Heq. by subst. }
  cbn [slot_op snd]. split.
  - intros tok v. destruct (decide (tok = token)) as [->|Hne].
    + rewrite !lookup_insert_eq. split.
      * intros [= <-]. eexists. split; [done|]. by split_and!.
      * intros (r & [= <-] & _ & Hv & He & Hyv). f_equal. destruct v as [who e]. cbn in *. f_equal; [done|].
        by apply iso_inj.
    + rewrite !lookup_insert_ne by (done || by intros ?%(inj hash_token)). rewrite lookup_fmap.
      rewrite map_lookup_filter_Some, Hs. cbn [snd]. split.
      * intros [(r & Hr & Hv) Hw]. rewrite Hr. eexists. split; [done|]. by apply slot_of_spent.
      * intros (r' & (r & Hr & ->)%fmap_Some & [Hv Hw]%slot_of_spent). eauto.
  - intros k r. destruct (decide (k = hash_token token)) as [->|Hne].
    + rewrite lookup_insert_eq. intros [= <-]. exists token, (now + ttl * 60000). cbn. set_solver.
    + rewrite lookup_insert_ne, lookup_fmap by done. intros (r0 & Hr0 & ->)%fmap_Some.
      destruct (Hk _ _ Hr0) as (tok & e & ? & ? & He & ?). exists tok, e. split; [set_solver|].
      split; [done|]. by destruct (outstanding_for tenant user r0).
Qed.

Lemma reset_consume_rel `{!Inj (=) (=) hash_token} used t s token now :
  reset_rel used t s → in_four_digit_years now →
  (reset_op t (Rs_consume token now)).1 = (slot_op s (Rs_consume token now)).1
  ∧ reset_rel used (reset_op t (Rs_consume token now)).2 (slot_op s (Rs_consume token now)).2.
Proof.
  intros [Hs Hk] Hy. cbn [reset_op slot_op]. unfold Reset.consume, transaction.
  destruct (t !! hash_token token) as [r|] eqn:Er.
  2:{ assert (s !! token = None) as ->; [|done]. apply eq_None_not_Some. intros [v Hv].
      apply Hs in Hv as (r & Hr & _). congruence. }
  destruct (rr_consumed_at r) as [at_|] eqn:Ec.
  { rewrite bool_decide_true by eauto. cbn [orb].
    assert (s !! token = None) as ->; [|done]. apply eq_None_not_Some. intros [v Hv].
    apply Hs in Hv as (r' & Hr' & Hc & _). congruence. }
  rewrite bool_decide_false by (by intros []). cbn [orb].
  destruct (Hk _ _ Er) as (token' & e & _ & _ & He & Hye). rewrite He, ltb_iso by done.
  assert (s !! token = Some ((rr_tenant_id r, rr_user_id r), e)) as ->.
  { apply Hs. exists r. split; [done|]. by split_and!. }
  destruct (Z.ltb_spec e now) as [Hlt|Hge].
  { by rewrite (proj2 (Z.leb_gt _ _)) by lia. }
  rewrite (proj2 (Z.leb_le _ _)) by lia. split; [done|]. split.
  - intros tok v. destruct (decide (tok = token)) as [->|Hne].
    + cbn [snd]. rewrite lookup_delete_eq, lookup_alter_eq, Er. cbn.
      split; [done|]. intros (r' & [= <-] & Hc & _). done.
    + cbn [snd]. rewrite lookup_delete_ne, lookup_alter_ne by (done || by intros ?%(inj hash_token)). apply Hs.
  - intros k r' Hr'. cbn [snd] in Hr'. destruct (decide (k = hash_token token)) as [->|Hne].
    + rewrite lookup_alter_eq, Er in Hr'. injection Hr' as <-. exact (Hk _ _ Er).
    + rewrite lookup_alter_ne in Hr' by done. by eapply Hk.
Qed.

Lemma reset_purge_rel used t s now :
  reset_rel used t s → in_four_digit_years now →
  reset_rel used (reset_op t (Rs_purge now)).2 (slot_op s (Rs_purge now)).2.
Proof.
  intros [Hs Hk] Hy. cbn [reset_op slot_op]. unfold Reset.purge_expired. cbn [snd]. split.
  - intros tok v. rewrite map_lookup_filter_Some, Hs. split.
    + intros [(r & Hr & Hv) Hle]. exists r. split; [|done]. apply map_lookup_filter_Some_2; [done|].
      destruct Hv as (_ & _ & He & Hyv). cbn [snd]. rewrite He, ltb_iso by done. by apply Z.ltb_ge.
    + intros (r & [Hr Hf]%map_lookup_filter_Some & Hv). split; [eauto|].
      destruct Hv as (_ & _ & He & Hyv). cbn [snd] in Hf |- *. rewrite He, ltb_iso in Hf by done.
      by apply Z.ltb_ge in Hf.
  - intros k r [Hr _]%map_lookup_filter_Some. by eapply Hk.
Qed.

Lemma reset_ops_rel `{!Inj (=) (=) hash_token} ops : ∀ used t s,
  reset_rel used t s → Forall reset_op_ok ops → NoDup (omap issued_token ops) →
  (∀ token, token ∈ omap issued_token ops → token ∉ used) →
  (reset_ops t ops).1 = (slot_ops s ops).1.
Proof.
  induction ops as [|op ops IH]; intros used t s Hrel Hok Hnd Hfresh; [done|].
  apply Forall_cons in Hok as [Hop Hok]. cbn [reset_ops slot_ops].
  destruct op as [token tenant user ttl now|token now|now]; csimpl in Hnd; csimpl in Hfresh.
  - apply NoDup_cons in Hnd as [Hnot Hnd].
    pose proof (reset_issue_rel used t s token tenant user ttl now Hrel ltac:(set_solver) Hop) as Hrel'.
    cbn [reset_op]. destruct (slot_op s _) as [r s'] eqn:Es. injection Es as <- <-. cbn [snd slot_op] in Hrel'.
    pose proof (IH _ _ _ Hrel' Hok Hnd ltac:(set_solver)) as HIH.
    destruct (reset_ops _ ops), (slot_ops _ ops). cbn in HIH |- *. by rewrite HIH.
  - destruct (reset_consume_rel used t s token now Hrel Hop) as [Hr Hrel'].
    destruct (reset_op t _) as [r t'], (slot_op s _) as [r' s']. cbn [fst snd] in *. subst r'.
    pose proof (IH _ _ _ Hrel' Hok Hnd Hfresh) as HIH.
    destruct (reset_ops _ ops), (slot_ops _ ops). cbn in HIH |- *. by rewrite HIH.
  - pose proof (reset_purge_rel used t s now Hrel Hop) as Hrel'. cbn [reset_op slot_op] in *.
    pose proof (IH _ _ _ Hrel' Hok Hnd Hfresh) as HIH. cbn [fst snd] in *.
    destruct (reset_ops _ ops), (slot_ops _ ops). cbn in HIH |- *. by rewrite HIH.
Qed.
End ResetRefinement.

Definition single_slot (s : Slots) : Prop :=
  ∀ tok1 tok2 v1 v2, s !! tok1 = Some v1 → s !! tok2 = Some v2 → v1.1 = v2.1 → tok1 = tok2.

Lemma single_slot_op s op : single_slot s → single_slot (slot_op s op).2.
Proof.
  intros Hs. destruct op as [token tenant user ttl now|token now|now]; cbn [slot_op].
  - cbn [snd]. intros tok1 tok2 v1 v2 H1 H2.
    apply lookup_insert_Some in H1 as [[<- <-]|[Hn1 [H1 Hw1]%map_lookup_filter_Some]];
      apply lookup_insert_Some in H2 as [[<- <-]|[Hn2 [H2 Hw2]%map_lookup_filter_Some]];
      cbn [fst snd] in *; try congruence. eauto.
  - destruct (s !! token) as [[who e]|]; [|done]. destruct (now <=? e); [|done]. cbn [snd].
    intros tok1 tok2 v1 v2 [_ H1]%lookup_delete_Some [_ H2]%lookup_delete_Some. eauto.
  - cbn [snd]. intros tok1 tok2 v1 v2 [H1 _]%map_lookup_filter_Some [H2 _]%map_lookup_filter_Some. eauto.
Qed.

Lemma single_slot_ops ops : ∀ s, single_slot s → single_slot (slot_ops s ops).2.
Proof.
  induction ops as [|op ops IH]; intros s Hs; [done|]. cbn [slot_ops].
  pose proof (single_slot_op s op Hs) as Hs'. destruct (slot_op s op) as [r s'].
  specialize (IH s' Hs'). by destruct (slot_ops s' ops).
Qed.

(** the password-reset store implements the single-slot contract: over any
    history of issuing fresh tokens, consuming and purging, it gives the same
    answers as a table with at most one outstanding token per user, where issuing
    replaces the user's token, consuming an outstanding token before its expiry
    names its user and spends it, and everything else answers nothing. *)
Theorem reset_refines_single_slot (hash_token : string → string) (constraint_failed : string)
    `{!Inj (=) (=) hash_token} ops :
  Forall reset_op_ok ops → NoDup (omap issued_token ops) →
  (reset_ops hash_token constraint_failed ∅ ops).1 = (slot_ops ∅ ops).1
  ∧ single_slot (slot_ops ∅ ops).2.
Proof.
  intros Hok Hnd. split.
  - apply (reset_ops_rel hash_token constraint_failed ops []); [|done..|set_solver].
    split; [|done]. intros token v. split; [done|]. by intros (r & Hr & _).
  - by apply single_slot_ops.
Qed.

Lemma reset_refines_single_slot_witness :
  let ops := [Rs_issue "t1" "acme" "ada" 60 0; Rs_issue "t2" "acme" "ada" 60 10; Rs_consume "t1" 20;
              Rs_consume "t2" 30; Rs_consume "t2" 40; Rs_purge 50] in
  (reset_ops (λ x, x) "UNIQUE" ∅ ops).1 = [None; None; None; Some ("acme", "ada"); None; None].
Proof.
  assert (Forall reset_op_ok [Rs_issue "t1" "acme" "ada" 60 0; Rs_issue "t2" "acme" "ada" 60 10;
    Rs_consume "t1" 20; Rs_consume "t2" 30; Rs_consume "t2" 40; Rs_purge 50]) as Hok.
  { repeat constructor; unfold in_four_digit_years; lia. }
  assert (NoDup (omap issued_token [Rs_issue "t1" "acme" "ada" 60 0; Rs_issue "t2" "acme" "ada" 60 10;
    Rs_consume "t1" 20; Rs_consume "t2" 30; Rs_consume "t2" 40; Rs_purge 50])) as Hnd.
  { apply (bool_decide_unpack _). vm_compute. exact I. }
  destruct (reset_refines_single_slot (λ x, x) "UNIQUE" _ Hok Hnd) as [H _].
  cbv zeta. rewrite H. vm_compute. reflexivity.
Defined.

(** ** The replay window *)

Inductive SamlOp : Type :=
| Sm_mark (input : MarkSeenInput) (now_ms : Z)
| Sm_purge (now_ms : Z).
Definition saml_time (op : SamlOp) : Z := match op with Sm_mark _ now | Sm_purge now => now end.
Definition saml_op (t : SeenTable) (op : SamlOp) : SeenTable :=
  match op with
  | Sm_mark input now => (Saml.mark_seen input now t).2
  | Sm_purge now => (Saml.purge_expired now t).2
  end.
Definition saml_ops (t : SeenTable) (ops : list SamlOp) : SeenTable := foldl saml_op t ops.

(** The row is there, with an expiry at [e]. *)
Definition seen_until (key : string * string) (e : Z) (t : SeenTable) : Prop :=
  ∃ r, t !! key = Some r ∧ sa_expires_at r = iso_from_epoch_ms e.

Lemma seen_purge key e t now :
  in_four_digit_years e → in_four_digit_years now → now ≤ e →
  seen_until key e t → seen_until key e (Saml.purge_expired now t).2.
Proof.
  intros He Hn Hle (r & Hr & Hx). exists r. split; [|done]. cbn [Saml.purge_expired snd].
  apply map_lookup_filter_Some_2; [done|]. cbn [snd]. rewrite Hx, ltb_iso by done. by apply Z.ltb_ge.
Qed.

Lemma seen_op key e t op :
  in_four_digit_years e → in_four_digit_years (saml_time op) → saml_time op ≤ e →
  seen_until key e t → seen_until key e (saml_op t op).
Proof.
  intros He Hn Hle Hs. destruct op as [input now|now]; cbn [saml_op saml_time] in *; [|by apply seen_purge].
  unfold Saml.mark_seen. destruct (t !! (_, _)) eqn:E; [done|]. apply seen_purge; [done..|].
  destruct Hs as (r & Hr & Hx). exists r. split; [|done]. rewrite lookup_insert_ne; [done|]. congruence.
Qed.

(** a SAML assertion is accepted once within its replay window: after it was
    accepted, whatever assertions are submitted and whatever is swept up to its
    expiry, submitting it again is rejected, under any new expiry. *)
Theorem assertion_replay_rejected (t : gmap (string * string) SeenRow) (input : MarkSeenInput) (e now : Z) (ops : list SamlOp)
    (expires' : string) (now' : Z) :
  ms_expires_at input = iso_from_epoch_ms e → in_four_digit_years e → in_four_digit_years now → now ≤ e →
  (Saml.mark_seen input now t).1 = Ok true →
  Forall (λ op, in_four_digit_years (saml_time op) ∧ saml_time op ≤ e) ops →
  (Saml.mark_seen {| ms_provider_id := ms_provider_id input; ms_assertion_id := ms_assertion_id input;
                     ms_expires_at := expires' |} now'
     (saml_ops (Saml.mark_seen input now t).2 ops)).1 = Ok false.
Proof.
  intros Hexp He Hn Hle Hwin Hops.
  assert (seen_until (ms_provider_id input, ms_assertion_id input) e
            (saml_ops (Saml.mark_seen input now t).2 ops)) as (r & Hr & _).
  { assert (seen_until (ms_provider_id input, ms_assertion_id input) e (Saml.mark_seen input now t).2) as Hs.
    { unfold Saml.mark_seen in *. destruct (t !! (_, _)); [done|]. apply seen_purge; [done..|].
      eexists. split; [apply lookup_insert_eq|done]. }
    revert Hs. generalize (Saml.mark_seen input now t).2. clear Hwin.
    induction Hops as [|op ops [Hop Hole] _ IH]; intros t' Hs; [done|]. apply IH. by apply seen_op. }
  set (t' := saml_ops _ ops) in *. clearbody t'. unfold Saml.mark_seen.
  cbn [ms_provider_id ms_assertion_id]. by rewrite Hr.
Qed.

Lemma assertion_replay_rejected_witness :
  (Saml.mark_seen {| ms_provider_id := "idp"; ms_assertion_id := "a1"; ms_expires_at := "later" |} 900
     (saml_ops (Saml.mark_seen {| ms_provider_id := "idp"; ms_assertion_id := "a1";
                                  ms_expires_at := iso_from_epoch_ms 1000 |} 0 ∅).2
        [Sm_mark {| ms_provider_id := "idp"; ms_assertion_id := "a2"; ms_expires_at := iso_from_epoch_ms 50 |} 10;
         Sm_purge 1000])).1 = Ok false.
Proof.
  exact (assertion_replay_rejected ∅
    {| ms_provider_id := "idp"; ms_assertion_id := "a1"; ms_expires_at := iso_from_epoch_ms 1000 |} 1000 0
    [Sm_mark {| ms_provider_id := "idp"; ms_assertion_id := "a2"; ms_expires_at := iso_from_epoch_ms 50 |} 10;
     Sm_purge 1000] "later" 900 eq_refl
    ltac:(unfold in_four_digit_years; lia) ltac:(unfold in_four_digit_years; lia) ltac:(lia) eq_refl
    ltac:(repeat constructor; unfold in_four_digit_years; cbn; lia)).
Defined.

(** ** Sealed-sender tokens *)

Inductive SealedOp : Type :=
| Sl_issue (tenant_id user_id token : string) (now_ms : Z)
| Sl_revoke (tenant_id user_id : string) (now_ms : Z).
Definition sealed_op (hash : string → string) (t : SealedTable) (op : SealedOp) : SealedTable :=
  match op with
  | Sl_issue tenant user token now => (Sealed.issue hash tenant user token now t).2
  | Sl_revoke tenant user now => (Sealed.revoke tenant user now t).2
  end.
(** The token the recipient last registered, if they did not revoke it since. *)
Definition current_token (tenant user : string) (cur : option string) (op : SealedOp) : option string :=
  match op with
  | Sl_issue tenant' user' token _ => if decide ((tenant', user') = (tenant, user)) then Some token else cur
  | Sl_revoke tenant' user' _ => if decide ((tenant', user') = (tenant, user)) then None else cur
  end.

Lemma verify_eq hash t tenant user token :
  Sealed.verify hash t tenant user token
  = match t !! (tenant, user) with
    | Some r => negb (sl_revoked r) && String.eqb (hash token) (sl_token_hash r)
    | None => false
    end.
Proof.
  unfold Sealed.verify, Sealed.read. destruct (t !! _) as [r|]; [|done].
  destruct (sl_revoked r); [done|]. apply constant_time_eq_strings.
Qed.

(** a sealed-sender token authorizes delivery exactly while it is the current
    one: after any registrations and revocations by any recipients, a token
    verifies for a recipient if and only if it is the last one that recipient
    registered and they have not revoked it since. *)
Theorem sealed_token_current (hash : string → string) `{!Inj (=) (=) hash} (ops : list SealedOp)
    (tenant user token : string) :
  Sealed.verify hash (foldl (sealed_op hash) ∅ ops) tenant user token
  = bool_decide (foldl (current_token tenant user) None ops = Some token).
Proof.
  rewrite verify_eq. induction ops as [|op ops IH] using rev_ind.
  { by rewrite bool_decide_false by done. }
  rewrite !foldl_snoc. set (t := foldl (sealed_op hash) ∅ ops) in *.
  destruct op as [tenant' user' token' now|tenant' user' now]; cbn [sealed_op current_token].
  - unfold Sealed.issue. cbn [snd]. destruct (decide ((tenant', user') = (tenant, user))) as [Hk|Hk].
    + injection Hk as -> ->. rewrite lookup_insert_eq. cbn. apply eq_true_iff_eq.
      rewrite String.eqb_eq, bool_decide_eq_true. split; [by intros ->%(inj hash)|congruence].
    + by rewrite lookup_insert_ne by done.
  - unfold Sealed.revoke. destruct (decide ((tenant', user') = (tenant, user))) as [Hk|Hk].
    + injection Hk as -> ->. rewrite bool_decide_false by done. destruct (t !! (tenant, user)) as [r|] eqn:E.
      * destruct (sl_revoked r) eqn:Er; cbn [snd]; [by rewrite E, Er|]. by rewrite lookup_insert_eq.
      * cbn [snd]. by rewrite E.
    + rewrite <- IH. destruct (t !! (tenant', user')) as [r|]; [|done].
      destruct (sl_revoked r); [done|]. cbn [snd]. by rewrite lookup_insert_ne by done.
Qed.

Lemma sealed_token_current_witness :
  Sealed.verify (λ x, x) (foldl (sealed_op (λ x, x)) ∅
    [Sl_issue "acme" "ada" "old" 0; Sl_issue "acme" "ada" "new" 1; Sl_revoke "acme" "bob" 2]) "acme" "ada" "new"
  = true.
Proof.
  rewrite (sealed_token_current (λ x, x)). vm_compute. reflexivity.
Defined.

(** ** Service keys *)

(** No dot in the text; base64url has none. *)
Fixpoint no_dot (s : string) : bool :=
  match s with EmptyString => true | String c s' => negb (Ascii.eqb c "."%char) && no_dot s' end.

Lemma index_dot a b : no_dot a = true → String.index 0 "." (a +:+ "." +:+ b) = Some (String.length a).
Proof.
  induction a as [|c a IH]; [by destruct b|]. cbn [no_dot]. intros [Hc Ha]%andb_prop. specialize (IH Ha).
  change (String c a +:+ "." +:+ b) with (String c (a +:+ "." +:+ b)). cbn [String.index String.prefix].
  destruct (ascii_dec "." c) as [<-|_]; [done|]. rewrite IH. done.
Qed.

Lemma substring_prefix a b : String.substring 0 (String.length a) (a +:+ b) = a.
Proof.
  induction a as [|c a IH]; [by destruct b|].
  change (String c (String.substring 0 (String.length a) (a +:+ b)) = String c a). by rewrite IH.
Qed.

Lemma key_id_roundtrip key secret :
  no_dot key = true → key ≠ "" → key_id_from_api_key (key +:+ "." +:+ secret) = Some key.
Proof.
  intros Hk Hne. unfold key_id_from_api_key. rewrite index_dot by done.
  destruct key as [|c k]; [done|]. change (String.length (String c k)) with (S (String.length k)).
  f_equal. exact (substring_prefix (String c k) ("." +:+ secret)).
Qed.

Inductive PrincipalOp : Type :=
| Pr_issue (input : IssueServicePrincipalInput) (id12 key6 secret32 : string) (now_ms : Z)
| Pr_revoke (tenant_id id : string) (now_ms : Z).

Section ServiceKeys.
Context (hash_key : string → string) (constraint_failed : string).
Context (json_to_string : list string → option string).
Context (json_array : string → option (list (option string))).

Definition principal_op (t : PrincipalTable) (op : PrincipalOp) : PrincipalTable :=
  match op with
  | Pr_issue input id12 key6 secret32 now =>
      (Principals.issue hash_key constraint_failed json_to_string input id12 key6 secret32 now t).2
  | Pr_revoke tenant id now => (Principals.revoke tenant id now t).2
  end.
Definition principal_ops (t : PrincipalTable) (ops : list PrincipalOp) : PrincipalTable :=
  foldl principal_op t ops.

Definition row_by_key (t : PrincipalTable) (key_id : string) : option PrincipalRow :=
  list.head (select (λ r, String.eqb (pw_key_id r) key_id) t).

(** The row of a key is found again after every operation; a revocation of its
    principal, and nothing else, changes it. *)
Lemma row_by_key_op t op key_id r :
  row_by_key t key_id = Some r →
  row_by_key (principal_op t op) key_id
  = Some (match op with
          | Pr_revoke tenant id now =>
              if Principals.at_principal tenant id r && bool_decide (pw_revoked_at r = None)
              then Principals.set_row_revoked (iso_from_epoch_ms now) r else r
          | _ => r
          end).
Proof.
  unfold row_by_key, select. intros Hr. destruct op as [input id12 key6 secret32 now|tenant id now];
    cbn [principal_op].
  - unfold Principals.issue. destruct (existsb _ t); [done|]. cbn [snd]. rewrite List.filter_app.
    by destruct (List.filter _ t).
  - cbn [Principals.revoke snd]. unfold update_where. induction t as [|x t IH]; [done|].
    rewrite fmap_cons. cbn [List.filter] in Hr |- *.
    assert (∀ b : bool, pw_key_id (if b then Principals.set_row_revoked (iso_from_epoch_ms now) x else x)
                        = pw_key_id x) as -> by by intros [].
    destruct (String.eqb (pw_key_id x) key_id); [|by apply IH]. cbn in Hr |- *. by injection Hr as <-.
Qed.

(** A key that authenticates does so through its row. *)
Lemma authenticate_row t api_key key_id :
  key_id_from_api_key api_key = Some key_id →
  Principals.authenticate hash_key json_array t api_key
  = match row_by_key t key_id with
    | Some r =>
        if bool_decide (pw_revoked_at r = None) && String.eqb (hash_key api_key) (pw_key_hash r)
        then Some (Principals.from_row json_array r) else None
    | None => None
    end.
Proof.
  intros Hk. unfold Principals.authenticate, row_by_key. rewrite Hk. destruct (list.head _) as [r|]; [|done].
  assert (Principals.constant_time_equals (hash_key api_key) (pw_key_hash r)
          = String.eqb (hash_key api_key) (pw_key_hash r)) as ->.
  { unfold Principals.constant_time_equals. destruct (String.eqb_spec (hash_key api_key) (pw_key_hash r)) as [->|Hne].
    - rewrite Nat.eqb_refl. cbn [negb]. by rewrite bool_decide_true by done.
    - destruct (Nat.eqb _ _); [|done]. cbn [negb]. rewrite bool_decide_false; [done|]. by intros ?%bytes_inj. }
  destruct (pw_revoked_at r); [by rewrite bool_decide_true by eauto|].
  rewrite bool_decide_false by (by intros []). cbn. by destruct (String.eqb _ _).
Qed.

Definition revokes (tenant id : string) (op : PrincipalOp) : bool :=
  match op with
  | Pr_revoke tenant' id' _ => String.eqb tenant tenant' && String.eqb id id'
  | Pr_issue _ _ _ _ _ => false
  end.

(** The row after a history: untouched, or revoked. *)
Lemma row_by_key_ops ops : ∀ t key_id r,
  row_by_key t key_id = Some r →
  ∃ r', row_by_key (principal_ops t ops) key_id = Some r' ∧ pw_key_hash r' = pw_key_hash r
    ∧ (existsb (revokes (pw_tenant_id r) (pw_id r)) ops = false → r' = r)
    ∧ (existsb (revokes (pw_tenant_id r) (pw_id r)) ops = true ∨ is_Some (pw_revoked_at r) →
       is_Some (pw_revoked_at r')).
Proof.
  induction ops as [|op ops IH]; intros t key_id r Hr.
  { exists r. cbn. split_and!; [done..|]. by intros [?|?]. }
  cbn [existsb principal_ops foldl]. pose proof (row_by_key_op t op key_id r Hr) as Hr1.
  destruct (IH _ _ _ Hr1) as (r' & Hr' & Hh & Hsame & Hrev). clear IH Hr1. exists r'. split; [exact Hr'|].
  clear Hr'. destruct op as [input id12 key6 secret32 now|tenant id now]; [by split_and!|].
  cbn [revokes]. unfold Principals.at_principal in *.
  destruct (String.eqb (pw_tenant_id r) tenant && String.eqb (pw_id r) id); cbn [andb orb] in *; [|by split_and!].
  destruct (pw_revoked_at r) eqn:Er.
  - rewrite bool_decide_false in * by done. split_and!; [done..|]. intros _. apply Hrev. right. rewrite Er. eauto.
  - rewrite bool_decide_true in * by done. split_and!; [done..|]. intros _. apply Hrev. right. cbn. eauto.
Qed.
End ServiceKeys.

Lemma row_by_key_fresh t r id key_id :
  pw_key_id r = key_id →
  existsb (λ r, String.eqb (pw_id r) id || String.eqb (pw_key_id r) key_id) t = false →
  row_by_key (t ++ [r]) key_id = Some r.
Proof.
  intros Hk Hf. unfold row_by_key, select. rewrite List.filter_app. cbn [List.filter].
  rewrite Hk, String.eqb_refl. induction t as [|x t IH]; [done|]. cbn [existsb] in Hf.
  apply orb_false_iff in Hf as [[_ Hx]%orb_false_iff Hf]. cbn [List.filter]. rewrite Hx. by apply IH.
Qed.

Lemma omap_Some_id {A} (l : list A) : omap id (Some <$> l) = l.
Proof. induction l as [|x l IH]; csimpl; [done|]. by rewrite IH. Qed.

Lemma dedup_push_elem seen x s :
  s ∈ dedup_push seen x ↔ s ∈ seen ∨ (s = Str.trim x ∧ s ≠ "").
Proof.
  unfold dedup_push. destruct (Str.trim x) as [|c t] eqn:E; cbn [Str.is_empty]; [naive_solver|].
  case_bool_decide; [|rewrite elem_of_app, list_elem_of_singleton]; naive_solver.
Qed.

Lemma normalize_scopes_elem scopes s :
  s ∈ normalize_scopes scopes ↔ s ≠ "" ∧ ∃ x, x ∈ scopes ∧ Str.trim x = s.
Proof.
  unfold normalize_scopes. rewrite elem_of_order_by.
  assert (∀ seen, s ∈ foldl dedup_push seen scopes
                  ↔ s ∈ seen ∨ (s ≠ "" ∧ ∃ x, x ∈ scopes ∧ Str.trim x = s)) as H.
  { induction scopes as [|x scopes IH]; intros seen; cbn [foldl].
    - split; [by left|]. intros [?|[_ (x & Hx & _)]]; [done|]. by apply elem_of_nil in Hx.
    - rewrite IH, dedup_push_elem. setoid_rewrite elem_of_cons. naive_solver. }
  rewrite H. split; [intros [Hn|]; [by apply elem_of_nil in Hn|done]|by right].
Qed.

Lemma normalize_scopes_sorted scopes :
  StronglySorted (λ a b, Str.ltb a b = true) (normalize_scopes scopes).
Proof.
  assert (NoDup (normalize_scopes scopes)) as Hnd.
  { unfold normalize_scopes. rewrite order_by_perm.
    assert (∀ seen, NoDup seen → NoDup (foldl dedup_push seen scopes)) as H; [|apply H; constructor].
    induction scopes as [|x scopes IH]; intros seen Hs; [done|]. cbn [foldl]. apply IH. unfold dedup_push.
    destruct (Str.is_empty _); [done|]. case_bool_decide; [done|].
    apply NoDup_app. split_and!; [done|set_solver|apply NoDup_singleton]. }
  pose proof (order_by_sorted Str.leb (foldl dedup_push [] scopes)
    (λ a b, lex_le_total (Str.bytes a) (Str.bytes b))
    (λ a b c, lex_le_trans (Str.bytes a) (Str.bytes b) (Str.bytes c))) as Hs.
  unfold normalize_scopes in *. induction Hs as [|a l Hs IH Hf]; [constructor|].
  apply NoDup_cons in Hnd as [Hn Hnd]. constructor; [by apply IH|]. apply Forall_forall. intros b Hb.
  rewrite Forall_forall in Hf. specialize (Hf _ Hb). unfold Str.ltb. destruct (Str.leb b a) eqn:E; [|done].
  destruct Hn. assert (a = b) as -> by (by apply bytes_inj, lex_le_antisym). done.
Qed.

(** a service key authenticates exactly its principal, exactly until it is
    revoked. After a key is issued, through any history of issuing other
    principals and revoking, a presented key with its prefix resolves to the
    principal as issued, with its scopes trimmed, de-duplicated and sorted, if it
    is the key itself and the principal was not revoked in its tenant, and to
    nothing otherwise. *)
Theorem service_key_lifetime (hash_key : string → string) `{!Inj (=) (=) hash_key} (constraint_failed : string)
    (json_to_string : list string → option string) (json_array : string → option (list (option string)))
    input id12 key6 secret32 now t p t0 ops :
  (∀ scopes, ∃ s, json_to_string scopes = Some s ∧ json_array s = Some (Some <$> scopes)) →
  no_dot key6 = true →
  Principals.issue hash_key constraint_failed json_to_string input id12 key6 secret32 now t = (Ok p, t0) →
  StronglySorted (λ a b, Str.ltb a b = true) (sp_scopes p)
  ∧ key_id_from_api_key (sp_api_key p) = Some (sp_key_id p)
  ∧ ∀ key', key_id_from_api_key key' = Some (sp_key_id p) →
      Principals.authenticate hash_key json_array
        (principal_ops hash_key constraint_failed json_to_string t0 ops) key'
      = if String.eqb key' (sp_api_key p) && negb (existsb (revokes (is_tenant_id input) (sp_id p)) ops)
        then Some {| sr_id := sp_id p; sr_key_id := sp_key_id p; sr_tenant_id := is_tenant_id input;
                     sr_name := is_name input; sr_scopes := sp_scopes p;
                     sr_created_at := iso_from_epoch_ms now; sr_revoked_at := None |}
        else None.
Proof.
  intros Hjson Hdot Hissue. unfold Principals.issue in Hissue. destruct (existsb _ t) eqn:Efresh; [done|].
  injection Hissue as <- <-. cbn [sp_scopes sp_api_key sp_key_id sp_id].
  split_and!; [apply normalize_scopes_sorted|by apply key_id_roundtrip|].
  intros key' Hkey. rewrite (authenticate_row _ _ _ _ _ Hkey).
  set (row := {| pw_id := _ |}). assert (row_by_key (t ++ [row]) ("sk_" +:+ key6) = Some row) as Hrow.
  { exact (row_by_key_fresh t row _ _ eq_refl Efresh). }
  destruct (row_by_key_ops hash_key constraint_failed json_to_string ops _ _ _ Hrow)
    as (r' & -> & Hhash & Hsame & Hrev).
  cbn [pw_tenant_id pw_id row] in Hsame, Hrev.
  destruct (existsb (revokes _ _) ops); cbn [negb].
  - destruct (Hrev (or_introl eq_refl)) as [at_ Hat]. rewrite Hat, bool_decide_false, andb_false_r by done. done.
  - rewrite Hsame, andb_true_r by done. rewrite bool_decide_true by done. cbn [andb pw_key_hash row].
    assert (String.eqb (hash_key key') (hash_key (("sk_" +:+ key6) +:+ "." +:+ secret32))
            = String.eqb key' (("sk_" +:+ key6) +:+ "." +:+ secret32)) as ->.
    { apply eq_true_iff_eq. rewrite !String.eqb_eq. split; [by intros ?%(inj hash_key)|congruence]. }
    destruct (String.eqb _ _); [|done]. f_equal. unfold Principals.from_row. cbn.
    destruct (Hjson (normalize_scopes (is_scopes input))) as (txt & Ht & Ha).
    unfold Principals.serialize_scopes, Principals.parse_scopes. rewrite Ht. cbn. rewrite Ha.
    f_equal. apply omap_Some_id.
Qed.

(** A codec of string lists that reads back what it wrote. *)
Module SampleCodec.
Fixpoint bits (p : positive) : string :=
  match p with
  | xH => EmptyString
  | xO p' => String "0" (bits p')
  | xI p' => String "1" (bits p')
  end.
Fixpoint unbits (s : string) : positive :=
  match s with
  | EmptyString => xH
  | String c s' => if Ascii.eqb c "0" then xO (unbits s') else xI (unbits s')
  end.
Lemma unbits_bits p : unbits (bits p) = p.
Proof. induction p as [p IH|p IH|]; cbn; by rewrite ?IH. Qed.
Definition to_string (scopes : list string) : option string := Some (bits (encode scopes)).
Definition array (s : string) : option (list (option string)) :=
  (λ l : list string, Some <$> l) <$> decode (unbits s).
Lemma array_to_string scopes : ∃ s, to_string scopes = Some s ∧ array s = Some (Some <$> scopes).
Proof. eexists. split; [done|]. unfold array. by rewrite unbits_bits, decode_encode. Qed.
End SampleCodec.

Lemma service_key_lifetime_witness :
  let input := {| is_tenant_id := "acme"; is_name := "ci"; is_scopes := ["b"; " a "; "b"] |} in
  let issue := Principals.issue (λ k, k) "UNIQUE" SampleCodec.to_string input "1" "k" "s" 0 [] in
  ∃ p, issue.1 = Ok p ∧ sp_scopes p = ["a"; "b"] ∧ sp_api_key p = "sk_k.s"
    ∧ Principals.authenticate (λ k, k) SampleCodec.array issue.2 "sk_k.s"
      = Some {| sr_id := "sp_1"; sr_key_id := "sk_k"; sr_tenant_id := "acme"; sr_name := "ci";
                sr_scopes := ["a"; "b"]; sr_created_at := iso_from_epoch_ms 0; sr_revoked_at := None |}.
Proof.
  intros input issue. eexists. split; [reflexivity|]. split; [vm_compute; reflexivity|].
  split; [reflexivity|].
  exact (proj2 (proj2 (service_key_lifetime (λ k, k) "UNIQUE" SampleCodec.to_string SampleCodec.array input
    "1" "k" "s" 0 [] _ _ [] SampleCodec.array_to_string eq_refl eq_refl)) "sk_k.s" eq_refl).
Defined.
