(* ===== verification/Ephemeral.v ===== *)
(** * Presence leases and signals
      ([frick-store/src/stores/{presence,signal}.rs])

    The two short-lived primitives: leases that vanish when their time is up, and
    the outbox of signals that a drain takes in order. The order in which
    [DELETE .. RETURNING] hands rows back is the database's: it is a parameter,
    any permutation. *)

From Stdlib Require Import ZArith Lia Ascii String.
From stdpp Require Import base gmap strings list sorting pretty.
From S2P Require Import Prelude Value Schema Codec StoreBase Encryption Samples.

(** [(app_id, tenant_id, type, key)]. *)
Definition EphemeralKey : Type := string * string * string * string.
Definition type_of (k : EphemeralKey) : string := k.1.2.
Definition key_of (k : EphemeralKey) : string := k.2.
#[export] Instance EphemeralKey_eq_dec : EqDecision EphemeralKey.
Proof. unfold EphemeralKey. solve_decision. Defined.
#[export] Instance EphemeralKey_countable : Countable EphemeralKey.
Proof. unfold EphemeralKey. apply _. Defined.

Record LeaseRow : Type := { lr_packed : blob; lr_expires_at : Z }.
Abbreviation LeaseTable := (gmap EphemeralKey LeaseRow).

Record SignalRow : Type := { sg_row_id : Z; sg_row_key : EphemeralKey; sg_packed : blob; sg_expires_at : Z }.
(** The outbox and its [AUTOINCREMENT] counter. *)
Record Outbox : Type := { ob_rows : list SignalRow; ob_next_id : Z }.

Module Presence.
Section Store.
Context `{PackedColumn PackedPresenceRecord} (schema : FrickSchema).

(** What is stored for a value, or why it is not. *)
Definition pack (k : EphemeralKey) (value : Value) : result StoreError blob :=
  match pack_presence_record schema (type_of k) (key_of k) value with
  | Err e => Err (protocol_error e)
  | Ok packed => encode_packed packed
  end.
Definition unpack (b : blob) : result StoreError Value :=
  packed ← decode_packed b;
  match unpack_presence_record schema packed with
  | Err e => Err (protocol_error e)
  | Ok record => Ok (uk_value record)
  end.

Definition set (k : EphemeralKey) (value : Value) (ttl_ms now_ms : Z) : M LeaseTable StoreError unit := λ t,
  match pack k value with
  | Err e => (Err e, t)
  | Ok packed => (Ok tt, <[k := {| lr_packed := packed; lr_expires_at := now_ms + ttl_ms |}]> t)
  end.

Definition clear (k : EphemeralKey) : M LeaseTable StoreError unit := λ t, (Ok tt, delete k t).

Definition read (k : EphemeralKey) (now_ms : Z) : M LeaseTable StoreError (option Value) := λ t,
  match t !! k with
  | None => (Ok None, t)
  | Some row =>
      if lr_expires_at row <=? now_ms then (Ok None, (clear k t).2)
      else match unpack (lr_packed row) with
           | Ok v => (Ok (Some v), t)
           | Err e => (Err e, t)
           end
  end.
End Store.
End Presence.

Module Signals.
Section Store.
Context `{PackedColumn PackedSignalEnvelope} (schema : FrickSchema).
Context (returning : list SignalRow → list SignalRow).

Definition pack (k : EphemeralKey) (value : Value) : result StoreError blob :=
  match pack_signal_envelope schema (type_of k) (key_of k) value with
  | Err e => Err (protocol_error e)
  | Ok packed => encode_packed packed
  end.
Definition unpack (b : blob) : result StoreError Value :=
  packed ← decode_packed b;
  match unpack_signal_envelope schema packed with
  | Err e => Err (protocol_error e)
  | Ok envelope => Ok (uk_value envelope)
  end.

Definition enqueue (k : EphemeralKey) (value : Value) (ttl_ms now_ms : Z) : M Outbox StoreError unit := λ t,
  match pack k value with
  | Err e => (Err e, t)
  | Ok packed =>
      (Ok tt, {| ob_rows := ob_rows t ++ [{| sg_row_id := ob_next_id t; sg_row_key := k; sg_packed := packed;
                                             sg_expires_at := now_ms + ttl_ms |}];
                 ob_next_id := ob_next_id t + 1 |})
  end.

(** [WHERE .. AND expires_at > ?]. *)
Definition live_at (k : EphemeralKey) (now_ms : Z) (r : SignalRow) : bool :=
  bool_decide (sg_row_key r = k) && (now_ms <? sg_expires_at r).
Definition id_le (a b : SignalRow) : bool := sg_row_id a <=? sg_row_id b.

Definition drain (k : EphemeralKey) (now_ms : Z) : M Outbox StoreError (list Value) := λ t,
  let rows := returning (select (live_at k now_ms) (ob_rows t)) in
  let t' := {| ob_rows := delete_where (live_at k now_ms) (ob_rows t); ob_next_id := ob_next_id t |} in
  if bool_decide (rows = []) then (Ok [], t')
  else (map_res (λ r, unpack (sg_packed r)) (order_by id_le rows), t').
End Store.
End Signals.

(** ** The contracts *)

Inductive LeaseOp : Type :=
| Ls_set (k : EphemeralKey) (value : Value) (ttl_ms now_ms : Z)
| Ls_read (k : EphemeralKey) (now_ms : Z)
| Ls_clear (k : EphemeralKey).
(** A lease is a value until a time. [ok] says whether the value has a packed form. *)
Definition lease_spec (ok : EphemeralKey → Value → bool) (s : gmap EphemeralKey (Value * Z)) (op : LeaseOp) :
    option (option Value) * gmap EphemeralKey (Value * Z) :=
  match op with
  | Ls_set k v ttl now => (None, if ok k v then <[k := (v, now + ttl)]> s else s)
  | Ls_read k now =>
      match s !! k with
      | Some (v, e) => if now <? e then (Some (Some v), s) else (Some None, delete k s)
      | None => (Some None, s)
      end
  | Ls_clear k => (None, delete k s)
  end.

Inductive SignalOp : Type :=
| Sg_enqueue (k : EphemeralKey) (value : Value) (ttl_ms now_ms : Z)
| Sg_drain (k : EphemeralKey) (now_ms : Z).
(** A queue per key: a drain takes the unexpired signals in the order they were
    sent and leaves the expired ones. *)
Definition queue_spec (ok : EphemeralKey → Value → bool) (q : EphemeralKey → list (Value * Z)) (op : SignalOp) :
    option (list Value) * (EphemeralKey → list (Value * Z)) :=
  match op with
  | Sg_enqueue k v ttl now =>
      (None, if ok k v then λ k', if decide (k' = k) then q k ++ [(v, now + ttl)] else q k' else q)
  | Sg_drain k now =>
      (Some (List.filter (λ ve, now <? ve.2) (q k)).*1,
       λ k', if decide (k' = k) then List.filter (λ ve, negb (now <? ve.2)) (q k) else q k')
  end.

(** The answers of a history; [step] answers an operation. *)
Fixpoint answers {S Op A} (step : S → Op → A * S) (s : S) (ops : list Op) : list A :=
  match ops with
  | [] => []
  | op :: ops' => let '(a, s') := step s op in a :: answers step s' ops'
  end.

(** Related states answer alike through any history the relation survives. *)
Lemma answers_simulated {S1 S2 Op A} (step1 : S1 → Op → A * S1) (step2 : S2 → Op → A * S2)
    (R : S1 → S2 → Prop) (ok : Op → Prop) :
  (∀ s1 s2 op, ok op → R s1 s2 →
     (step1 s1 op).1 = (step2 s2 op).1 ∧ R (step1 s1 op).2 (step2 s2 op).2) →
  ∀ ops s1 s2, Forall ok ops → R s1 s2 → answers step1 s1 ops = answers step2 s2 ops.
Proof.
  intros Hstep ops. induction ops as [|op ops IH]; intros s1 s2 Hok HR; [done|].
  apply Forall_cons in Hok as [Hop Hok]. destruct (Hstep s1 s2 op Hop HR) as [Ha HR'].
  cbn [answers]. destruct (step1 s1 op) as [a1 s1'], (step2 s2 op) as [a2 s2']. cbn in Ha, HR'. subst.
  f_equal. by apply IH.
Qed.

(** ** Leases *)

Definition value_op (op_value : option Value) : Prop :=
  match op_value with Some v => record_value v | None => True end.
Definition lease_value (op : LeaseOp) : option Value :=
  match op with Ls_set _ v _ _ => Some v | _ => None end.
Definition signal_value (op : SignalOp) : option Value :=
  match op with Sg_enqueue _ v _ _ => Some v | _ => None end.

Section Leases.
Context `{PackedColumn PackedPresenceRecord} (schema : FrickSchema) (Hschema : validate_schema schema = Ok tt).

Definition lease_step (t : LeaseTable) (op : LeaseOp) : option (option Value) * LeaseTable :=
  match op with
  | Ls_set k v ttl now => (None, (Presence.set schema k v ttl now t).2)
  | Ls_read k now =>
      let '(r, t') := Presence.read schema k now t in
      (match r with Ok o => Some o | Err _ => None end, t')
  | Ls_clear k => (None, (Presence.clear k t).2)
  end.
Definition lease_packs (k : EphemeralKey) (v : Value) : bool :=
  match Presence.pack schema k v with Ok _ => true | Err _ => false end.

Lemma unpack_pack_lease k v b :
  record_value v → Presence.pack schema k v = Ok b → Presence.unpack schema b = Ok v.
Proof using Hschema.
  intros Hv. unfold Presence.pack, Presence.unpack.
  destruct (pack_presence_record schema (type_of k) (key_of k) v) as [packed|] eqn:E; [|done].
  intros Hb%decode_encode_packed. rewrite Hb. cbn [mbind result_bind].
  by rewrite (proj1 (unpack_pack_keyed schema _ _ _ _ Hschema Hv) E).
Qed.

Definition lease_rel (t : LeaseTable) (s : gmap EphemeralKey (Value * Z)) : Prop :=
  ∀ k, match t !! k, s !! k with
       | Some row, Some (v, e) => Presence.unpack schema (lr_packed row) = Ok v ∧ lr_expires_at row = e
       | None, None => True
       | _, _ => False
       end.

Lemma lease_rel_insert t s k row v e :
  lease_rel t s → Presence.unpack schema (lr_packed row) = Ok v → lr_expires_at row = e →
  lease_rel (<[k := row]> t) (<[k := (v, e)]> s).
Proof.
  intros HR Hv He k'. destruct (decide (k' = k)) as [->|].
  - by rewrite !lookup_insert_eq.
  - rewrite !lookup_insert_ne by done. apply HR.
Qed.
Lemma lease_rel_delete t s k : lease_rel t s → lease_rel (delete k t) (delete k s).
Proof.
  intros HR k'. destruct (decide (k' = k)) as [->|].
  - by rewrite !lookup_delete_eq.
  - rewrite !lookup_delete_ne by done. apply HR.
Qed.

Lemma lease_step_rel t s op :
  value_op (lease_value op) → lease_rel t s →
  (lease_step t op).1 = (lease_spec lease_packs s op).1
  ∧ lease_rel (lease_step t op).2 (lease_spec lease_packs s op).2.
Proof using Hschema.
  intros Hv HR. destruct op as [k v ttl now|k now|k]; cbn [lease_step lease_spec lease_value value_op] in *.
  - split; [done|]. unfold Presence.set, lease_packs. destruct (Presence.pack schema k v) as [b|] eqn:E; [|done].
    cbn [snd]. apply lease_rel_insert; [done| |done]. by eapply unpack_pack_lease.
  - pose proof (HR k) as Hk. unfold Presence.read.
    destruct (t !! k) as [row|], (s !! k) as [[v e]|]; try done. destruct Hk as [Hu <-].
    destruct (Z.leb_spec (lr_expires_at row) now) as [Hle|Hgt].
    + rewrite (proj2 (Z.ltb_ge _ _)) by lia. split; [done|]. by apply lease_rel_delete.
    + rewrite (proj2 (Z.ltb_lt _ _)) by lia. by rewrite Hu.
  - split; [done|]. by apply lease_rel_delete.
Qed.
End Leases.

(** presence is a lease: over any history of setting, reading and clearing, at
    any times and for any apps, tenants, types and keys, the store answers as a map
    from full keys to a value and an expiry. A read gives the value last set for
    that very key while its time to live lasts, and nothing, for good, from the
    expiry on; a value the schema cannot pack changes nothing. *)
Theorem presence_refines_leases `{PackedColumn PackedPresenceRecord} (schema : FrickSchema) (ops : list LeaseOp) :
  validate_schema schema = Ok tt → Forall (λ op, value_op (lease_value op)) ops →
  answers (lease_step schema) ∅ ops = answers (lease_spec (lease_packs schema)) ∅ ops.
Proof.
  intros Hs Hops. eapply (answers_simulated _ _ (lease_rel schema)); [|exact Hops|].
  - intros. by apply lease_step_rel.
  - intros k. by rewrite !lookup_empty.
Qed.

(** ** Signals *)

Lemma select_sorted {R} (w : R → bool) (P : R → R → Prop) l :
  StronglySorted P l → StronglySorted P (select w l).
Proof.
  unfold select. induction 1 as [|x l Hs IH Hf]; [constructor|]. cbn [List.filter].
  destruct (w x); [|done]. constructor; [done|]. apply Forall_forall. intros y Hy.
  rewrite Forall_forall in Hf. apply Hf. apply list_elem_of_In, filter_In in Hy as [Hy _].
  by apply list_elem_of_In.
Qed.

(** Sorting rows with distinct ids restores their order. *)
Lemma drained_order rows l :
  StronglySorted (λ a b, sg_row_id a < sg_row_id b) rows → l ≡ₚ rows →
  order_by Signals.id_le l = rows.
Proof.
  intros Hs Hl. assert (order_by Signals.id_le l ≡ₚ rows) as Hp by by rewrite order_by_perm.
  pose proof (order_by_sorted Signals.id_le l) as Ho. unfold Signals.id_le at 1 2 3 4 5 in Ho.
  ospecialize (Ho _ _).
  { intros x y. rewrite !Z.leb_le. lia. } { intros x y z. rewrite !Z.leb_le. lia. }
  clear Hl. revert Ho Hp. generalize (order_by Signals.id_le l) as l'. clear l.
  induction Hs as [|r rows Hs IH Hlt]; intros l Ho Hp.
  { by apply Permutation_nil_r in Hp. }
  destruct l as [|x l]; [by apply Permutation_nil_cons in Hp|].
  apply StronglySorted_inv in Ho as [Ho Hle].
  assert (x = r) as ->.
  { assert (x ∈ r :: rows) as [->|Hx]%elem_of_cons by (rewrite <- Hp; set_solver); [done|].
    assert (r ∈ x :: l) as [->|Hr]%elem_of_cons by (rewrite Hp; set_solver); [done|].
    rewrite Forall_forall in Hlt. rewrite Forall_forall in Hle. specialize (Hlt x Hx).
    specialize (Hle r Hr). unfold Signals.id_le in Hle. apply Z.leb_le in Hle. lia. }
  f_equal. apply IH; [done|]. by apply Permutation_cons_inv in Hp.
Qed.
Section Queues.
Context `{PackedColumn PackedSignalEnvelope} (schema : FrickSchema) (Hschema : validate_schema schema = Ok tt).
Context (returning : list SignalRow → list SignalRow) (Hreturning : ∀ l, returning l ≡ₚ l).

Definition signal_step (t : Outbox) (op : SignalOp) : option (list Value) * Outbox :=
  match op with
  | Sg_enqueue k v ttl now => (None, (Signals.enqueue schema k v ttl now t).2)
  | Sg_drain k now =>
      let '(r, t') := Signals.drain schema returning k now t in
      (match r with Ok vs => Some vs | Err _ => None end, t')
  end.
Definition signal_packs (k : EphemeralKey) (v : Value) : bool :=
  match Signals.pack schema k v with Ok _ => true | Err _ => false end.

Lemma unpack_pack_signal k v b :
  record_value v → Signals.pack schema k v = Ok b → Signals.unpack schema b = Ok v.
Proof using Hschema.
  intros Hv. unfold Signals.pack, Signals.unpack.
  destruct (pack_signal_envelope schema (type_of k) (key_of k) v) as [packed|] eqn:E; [|done].
  intros Hb%decode_encode_packed. rewrite Hb. cbn [mbind result_bind].
  by rewrite (proj2 (unpack_pack_keyed schema _ _ _ _ Hschema Hv) E).
Qed.

Definition at_key (k : EphemeralKey) (r : SignalRow) : bool := bool_decide (sg_row_key r = k).
Definition row_is (r : SignalRow) (ve : Value * Z) : Prop :=
  Signals.unpack schema (sg_packed r) = Ok ve.1 ∧ sg_expires_at r = ve.2.
Definition queue_rel (t : Outbox) (q : EphemeralKey → list (Value * Z)) : Prop :=
  StronglySorted (λ a b, sg_row_id a < sg_row_id b) (ob_rows t)
  ∧ Forall (λ r, sg_row_id r < ob_next_id t) (ob_rows t)
  ∧ ∀ k, Forall2 row_is (select (at_key k) (ob_rows t)) (q k).

Lemma queue_rel_enqueue t q k v b e :
  queue_rel t q → Signals.unpack schema b = Ok v →
  queue_rel {| ob_rows := ob_rows t ++ [{| sg_row_id := ob_next_id t; sg_row_key := k; sg_packed := b;
                                           sg_expires_at := e |}]; ob_next_id := ob_next_id t + 1 |}
    (λ k', if decide (k' = k) then q k ++ [(v, e)] else q k').
Proof.
  intros (Hs & Hn & Hq) Hv. split_and!; cbn [ob_rows ob_next_id].
  - apply StronglySorted_app. split_and!; [|done|repeat constructor].
    intros x y Hx ->%list_elem_of_singleton. rewrite Forall_forall in Hn. by apply Hn.
  - apply Forall_app. split; [|repeat constructor; cbn; lia].
    eapply Forall_impl; [exact Hn|]. cbn. lia.
  - intros k'. unfold select. rewrite List.filter_app. cbn [List.filter]. unfold at_key at 2. cbn [sg_row_key].
    destruct (decide (k' = k)) as [->|Hne].
    + rewrite bool_decide_true by done. apply Forall2_app; [apply Hq|]. by repeat constructor.
    + rewrite bool_decide_false by done. rewrite app_nil_r. apply Hq.
Qed.

Lemma filter_Forall2 {A B} (R : A → B → Prop) (f : A → bool) (g : B → bool) l l' :
  Forall2 R l l' → (∀ x y, R x y → f x = g y) → Forall2 R (List.filter f l) (List.filter g l').
Proof.
  intros Hl Hfg. induction Hl as [|x y l l' Hxy Hl IH]; [constructor|]. cbn [List.filter].
  rewrite (Hfg x y Hxy). destruct (g y); [by constructor|done].
Qed.

Lemma filter_filter {A} (f g h : A → bool) l :
  (∀ x, h x = f x && g x) → List.filter h l = List.filter g (List.filter f l).
Proof.
  intros Hh. induction l as [|x l IH]; [done|]. cbn [List.filter]. rewrite Hh. destruct (f x); cbn [andb]; [|done].
  cbn [List.filter]. destruct (g x); by rewrite IH.
Qed.

(** What a drain takes from a key and what it leaves. *)
Lemma drained_rows t q k now :
  queue_rel t q →
  Forall2 row_is (select (Signals.live_at k now) (ob_rows t)) (List.filter (λ ve, now <? ve.2) (q k)).
Proof.
  intros (_ & _ & Hq). unfold select. rewrite (filter_filter (at_key k) (λ r, now <? sg_expires_at r)) by done.
  apply filter_Forall2; [apply Hq|]. intros x y [_ ->]. done.
Qed.

Lemma queue_rel_drain t q k now :
  queue_rel t q →
  queue_rel {| ob_rows := delete_where (Signals.live_at k now) (ob_rows t); ob_next_id := ob_next_id t |}
    (λ k', if decide (k' = k) then List.filter (λ ve, negb (now <? ve.2)) (q k) else q k').
Proof.
  intros (Hs & Hn & Hq). unfold delete_where. split_and!; cbn [ob_rows ob_next_id].
  - apply (select_sorted (λ r, negb (Signals.live_at k now r))). exact Hs.
  - apply Forall_forall. intros r Hr. rewrite Forall_forall in Hn. apply Hn.
    apply list_elem_of_In, filter_In in Hr as [Hr _]. by apply list_elem_of_In.
  - intros k'. unfold select. destruct (decide (k' = k)) as [->|Hne].
    + rewrite <- (filter_filter _ _ (λ r, negb (Signals.live_at k now r) && at_key k r)) by done.
      rewrite (filter_filter (at_key k) (λ r, negb (now <? sg_expires_at r))).
      * apply filter_Forall2; [apply Hq|]. by intros x y [_ ->].
      * intros r. unfold Signals.live_at, at_key. by destruct (bool_decide _), (now <? _).
    + rewrite <- (filter_filter _ _ (at_key k')); [apply Hq|]. intros r. unfold Signals.live_at, at_key.
      case_bool_decide as E1; [|by rewrite andb_false_r]. rewrite bool_decide_false by congruence. done.
Qed.

Lemma map_res_rows rows vs :
  Forall2 row_is rows vs → map_res (λ r, Signals.unpack schema (sg_packed r)) rows = Ok vs.*1.
Proof.
  intros H2. apply map_res_Ok. induction H2 as [|r ve rows vs [Hu _] H2 IH]; csimpl; by constructor.
Qed.

Lemma signal_step_rel t q op :
  value_op (signal_value op) → queue_rel t q →
  (signal_step t op).1 = (queue_spec signal_packs q op).1
  ∧ queue_rel (signal_step t op).2 (queue_spec signal_packs q op).2.
Proof using Hschema Hreturning.
  intros Hv HR. destruct op as [k v ttl now|k now]; cbn [signal_step queue_spec signal_value value_op] in *.
  - split; [done|]. unfold Signals.enqueue, signal_packs. destruct (Signals.pack schema k v) as [b|] eqn:E; [|done].
    cbn [snd]. apply queue_rel_enqueue; [done|]. by eapply unpack_pack_signal.
  - pose proof (drained_rows t q k now HR) as Hrows. unfold Signals.drain.
    assert (StronglySorted (λ a b, sg_row_id a < sg_row_id b)
              (select (Signals.live_at k now) (ob_rows t))) as Hs by (apply select_sorted, HR).
    case_bool_decide as Hnil; cbn [fst snd].
    + split; [|by apply queue_rel_drain]. f_equal.
      pose proof (Hreturning (select (Signals.live_at k now) (ob_rows t))) as Hp. rewrite Hnil in Hp.
      apply Permutation_nil_l in Hp. rewrite <- Hp in Hrows. by apply Forall2_nil_inv_l in Hrows as ->.
    + rewrite (drained_order _ _ Hs (Hreturning _)), (map_res_rows _ _ Hrows).
      split; [done|]. by apply queue_rel_drain.
Qed.
End Queues.

(** the signal outbox is a set of queues, one per app, tenant, type and key:
    over any history of sending and draining, and whatever order the database
    returns deleted rows in, a drain answers the unexpired signals of that very key
    in the order they were sent, each once, and never again; expired ones are
    skipped and signals of other keys are not touched. *)
Theorem signals_refine_queues `{PackedColumn PackedSignalEnvelope} (schema : FrickSchema)
    (returning : list SignalRow → list SignalRow) (ops : list SignalOp) :
  validate_schema schema = Ok tt → (∀ l, returning l ≡ₚ l) →
  Forall (λ op, value_op (signal_value op)) ops →
  answers (signal_step schema returning) {| ob_rows := []; ob_next_id := 1 |} ops
  = answers (queue_spec (signal_packs schema)) (λ _, []) ops.
Proof.
  intros Hs Hret Hops. eapply (answers_simulated _ _ (queue_rel schema)); [|exact Hops|].
  - intros. by apply signal_step_rel.
  - split_and!; by constructor.
Qed.

(** ** Concrete runs *)

Module SampleEphemeral.
Export ToyPacked.
Definition room (app : string) : EphemeralKey := (app, "acme", "Ring", "room-1").
Definition desk (app : string) : EphemeralKey := (app, "acme", "Typing", "room-1").
Definition text (s : string) : Value := VMap [(VStr "title", VStr s)].
Definition signals : list SignalOp :=
  [Sg_enqueue (room "a") (text "one") 100 0; Sg_enqueue (room "b") (text "other") 100 1;
   Sg_enqueue (room "a") (text "two") 5 2; Sg_enqueue (room "a") (text "three") 100 3;
   Sg_drain (room "a") 50; Sg_drain (room "a") 51].
Definition leases : list LeaseOp :=
  [Ls_set (desk "a") (text "ada") 100 0; Ls_read (desk "a") 99; Ls_read (desk "b") 99; Ls_read (desk "a") 100;
   Ls_read (desk "a") 10].
Lemma text_record s : record_value (text s).
Proof. exists [("title", VStr s)]. split; [reflexivity|]. apply NoDup_singleton. Qed.
End SampleEphemeral.
Import SampleEphemeral.

Lemma presence_refines_leases_witness :
  answers (lease_step SampleSchema.schema) ∅ leases
  = [None; Some (Some (text "ada")); Some None; Some None; Some None].
Proof.
  rewrite (presence_refines_leases SampleSchema.schema leases);
    [vm_compute; reflexivity|vm_compute; reflexivity|].
  repeat constructor; apply text_record.
Defined.

Lemma signals_refine_queues_witness :
  answers (signal_step SampleSchema.schema (@rev SignalRow)) {| ob_rows := []; ob_next_id := 1 |} signals
  = [None; None; None; None; Some [text "one"; text "three"]; Some []].
Proof.
  rewrite (signals_refine_queues SampleSchema.schema (@rev SignalRow) signals);
    [vm_compute; reflexivity|vm_compute; reflexivity| |].
  - intros l. symmetry. apply Permutation_rev.
  - repeat constructor; apply text_record.
Defined.
