(* ===== verification/MediaPlane.v ===== *)
(** * The media plane of calls ([frick-server/src/calls/media_plane.rs],
      [fake_media_plane.rs], [p2p_media_plane.rs])

    The trait the call control plane talks to, as a class with the laws the
    control plane relies on, and the two adapters the server builds itself. The
    HMAC, base64 and JSON of the TURN credentials are outside the repository and
    are parameters. *)

From Stdlib Require Import ZArith Lia Ascii String.
From stdpp Require Import base gmap strings list pretty.
From S2P Require Import Prelude Timestamp Sharing.

Inductive MediaPlaneTransport : Type := P2p | Sfu.
Definition as_wire (t : MediaPlaneTransport) : string := match t with P2p => "p2p" | Sfu => "sfu" end.

Record MediaPlaneCapabilities : Type := {
  mc_transport : MediaPlaneTransport; mc_max_participants : option nat; mc_supports_region_hint : bool;
}.
Record MediaParticipant : Type := { mp_user_id : string; mp_device_id : string }.
(** Connection metadata: an insertion-ordered map. *)
Definition Connection : Type := list (string * string).
Record MediaSession : Type := {
  md_call_id : string; md_media_session_id : string; md_transport : MediaPlaneTransport;
  md_region : option string; md_connection : option Connection;
}.
Record MediaJoinGrant : Type := {
  jg_call_id : string; jg_media_session_id : string; jg_user_id : string; jg_device_id : string;
  jg_token : string; jg_expires_at : string; jg_connection : option Connection;
}.
Record AllocateSessionOptions : Type := {
  ao_region_hint : option string; ao_expected_participants : option nat;
}.
Record IssueJoinTokenOptions : Type := { jo_ttl_ms : option Z }.

(** [MediaPlaneAdapter] at a state type, with what the control plane counts on:
    capabilities are static, an allocated call has a session and a released one
    has none, other calls are not disturbed, and a token can be issued exactly
    where there is a session. *)
Class MediaPlane (S : Type) := {
  describe : S → MediaPlaneCapabilities;
  allocate_session : string → AllocateSessionOptions → M S string MediaSession;
  issue_join_token : string → MediaParticipant → Z → IssueJoinTokenOptions → M S string MediaJoinGrant;
  release_session : string → S → S;
  has_session : S → string → bool;
  describe_static : ∀ s call options, describe (allocate_session call options s).2 = describe s;
  describe_static_token : ∀ s call p now o, describe (issue_join_token call p now o s).2 = describe s;
  describe_static_release : ∀ s call, describe (release_session call s) = describe s;
  allocate_session_spec : ∀ s call options session s',
    allocate_session call options s = (Ok session, s') →
    ∀ c, has_session s' c = (if decide (c = call) then true else has_session s c);
  allocate_session_failed : ∀ s call options e s',
    allocate_session call options s = (Err e, s') → ∀ c, has_session s' c = has_session s c;
  release_session_spec : ∀ s call c,
    has_session (release_session call s) c = (if decide (c = call) then false else has_session s c);
  issue_join_token_spec : ∀ s call p now o,
    (if has_session s call then ∃ g, (issue_join_token call p now o s).1 = Ok g
                                     ∧ jg_call_id g = call ∧ jg_user_id g = mp_user_id p
                                     ∧ jg_device_id g = mp_device_id p
     else ∃ e, (issue_join_token call p now o s).1 = Err e)
    ∧ ∀ c, has_session (issue_join_token call p now o s).2 c = has_session s c;
}.

Definition DEFAULT_TOKEN_TTL_MS : Z := 5 * 60 * 1000.
Definition no_session_message (call_id : string) : string :=
  "Cannot issue a join token: no media session allocated for call " +:+ call_id.

(** ** The fake *)

Module Fake.
Record FakeState : Type := {
  fk_transport : MediaPlaneTransport; fk_default_token_ttl_ms : Z;
  fk_sessions : gmap string (MediaSession * Z); fk_counter : Z; fk_token_counts : gmap string Z;
}.
Definition new (transport : MediaPlaneTransport) (default_token_ttl_ms : Z) : FakeState :=
  {| fk_transport := transport; fk_default_token_ttl_ms := default_token_ttl_ms; fk_sessions := ∅;
     fk_counter := 0; fk_token_counts := ∅ |}.
Definition sfu : FakeState := new Sfu DEFAULT_TOKEN_TTL_MS.
Definition p2p : FakeState := new P2p DEFAULT_TOKEN_TTL_MS.
Definition has_session (s : FakeState) (call_id : string) : bool :=
  bool_decide (is_Some (fk_sessions s !! call_id)).

Definition describe (s : FakeState) : MediaPlaneCapabilities :=
  match fk_transport s with
  | P2p => {| mc_transport := P2p; mc_max_participants := Some 2%nat; mc_supports_region_hint := false |}
  | Sfu => {| mc_transport := Sfu; mc_max_participants := None; mc_supports_region_hint := true |}
  end.

Definition allocate_session (call_id : string) (options : AllocateSessionOptions) :
    M FakeState string MediaSession := λ s,
  match fk_sessions s !! call_id with
  | Some existing => (Ok existing.1, s)
  | None =>
      let ordinal := fk_counter s + 1 in
      let region :=
        if mc_supports_region_hint (describe s) then Some (default "local" (ao_region_hint options)) else None in
      let session :=
        {| md_call_id := call_id; md_media_session_id := "fake-room-" +:+ call_id +:+ "-" +:+ fmt ordinal;
           md_transport := fk_transport s; md_region := region;
           md_connection := Some [("signalingUrl", "fake://media/" +:+ call_id)] |} in
      (Ok session,
       {| fk_transport := fk_transport s; fk_default_token_ttl_ms := fk_default_token_ttl_ms s;
          fk_sessions := <[call_id := (session, ordinal)]> (fk_sessions s); fk_counter := ordinal;
          fk_token_counts := fk_token_counts s |})
  end.

Definition issue_join_token (call_id : string) (participant : MediaParticipant) (now_ms : Z)
    (options : IssueJoinTokenOptions) : M FakeState string MediaJoinGrant := λ s,
  match fk_sessions s !! call_id with
  | None => (Err (no_session_message call_id), s)
  | Some allocated =>
      let media_session_id := md_media_session_id allocated.1 in
      let participant_key := call_id +:+ "::" +:+ mp_user_id participant +:+ "::" +:+ mp_device_id participant in
      let token_ordinal := default 0 (fk_token_counts s !! participant_key) + 1 in
      let ttl_ms := default (fk_default_token_ttl_ms s) (jo_ttl_ms options) in
      (Ok {| jg_call_id := call_id; jg_media_session_id := media_session_id;
             jg_user_id := mp_user_id participant; jg_device_id := mp_device_id participant;
             jg_token := "fake-token." +:+ media_session_id +:+ "." +:+ mp_user_id participant +:+ "."
                         +:+ mp_device_id participant +:+ "." +:+ fmt token_ordinal;
             jg_expires_at := iso_from_epoch_ms (i64_saturating_add now_ms ttl_ms);
             jg_connection := Some [("iceServers", "fake://turn")] |},
       {| fk_transport := fk_transport s; fk_default_token_ttl_ms := fk_default_token_ttl_ms s;
          fk_sessions := fk_sessions s; fk_counter := fk_counter s;
          fk_token_counts := <[participant_key := token_ordinal]> (fk_token_counts s) |})
  end.

Definition release_session (call_id : string) (s : FakeState) : FakeState :=
  {| fk_transport := fk_transport s; fk_default_token_ttl_ms := fk_default_token_ttl_ms s;
     fk_sessions := delete call_id (fk_sessions s); fk_counter := fk_counter s;
     fk_token_counts := fk_token_counts s |}.
End Fake.

(** ** Peer to peer *)

Record P2pIceServer : Type := {
  ice_urls : list string; ice_username : option string; ice_credential : option string;
}.
Record P2pTurnConfig : Type := {
  turn_urls : list string; turn_shared_secret : string; turn_realm : option string;
}.
Record P2pMediaPlaneOptions : Type := {
  po_ice_servers : list P2pIceServer; po_turn : option P2pTurnConfig; po_default_token_ttl_ms : Z;
}.
Definition DEFAULT_STUN_URL : string := "stun:stun.l.google.com:19302".
Definition MIN_TURN_SECRET_BYTES : nat := 16.
Definition stun (url : string) : P2pIceServer :=
  {| ice_urls := [url]; ice_username := None; ice_credential := None |}.
Definition P2pMediaPlaneOptions_default : P2pMediaPlaneOptions :=
  {| po_ice_servers := [stun DEFAULT_STUN_URL]; po_turn := None;
     po_default_token_ttl_ms := DEFAULT_TOKEN_TTL_MS |}.

(** The credential of a user name under a secret, and the JSON of the servers. *)
Class TurnCrypto := {
  turn_credential : string → string → string;
  ice_json : list P2pIceServer → string;
}.

Module Peer.
Record P2pState : Type := {
  pp_options : P2pMediaPlaneOptions; pp_sessions : gmap string (MediaSession * Z); pp_counter : Z;
}.
Definition from_validated (options : P2pMediaPlaneOptions) : P2pState :=
  {| pp_options := options; pp_sessions := ∅; pp_counter := 0 |}.
Definition new (options : P2pMediaPlaneOptions) : result string P2pState :=
  match po_turn options with
  | Some turn =>
      if Nat.ltb (String.length (turn_shared_secret turn)) MIN_TURN_SECRET_BYTES
      then Err ("P2pMediaPlaneAdapter requires a TURN shared_secret of at least "
                +:+ fmt (Z.of_nat MIN_TURN_SECRET_BYTES) +:+ " bytes")
      else Ok (from_validated options)
  | None => Ok (from_validated options)
  end.
Definition stun_only : P2pState := from_validated P2pMediaPlaneOptions_default.
Definition has_session (s : P2pState) (call_id : string) : bool :=
  bool_decide (is_Some (pp_sessions s !! call_id)).
Definition describe (_ : P2pState) : MediaPlaneCapabilities :=
  {| mc_transport := P2p; mc_max_participants := Some 2%nat; mc_supports_region_hint := false |}.

Definition build_ice_servers `{TurnCrypto} (s : P2pState) (user_id : string) (expiry_ms : Z) :
    list P2pIceServer :=
  po_ice_servers (pp_options s)
  ++ match po_turn (pp_options s) with
     | Some turn =>
         let username := fmt (expiry_ms / 1000) +:+ ":" +:+ user_id in
         [{| ice_urls := turn_urls turn; ice_username := Some username;
             ice_credential := Some (turn_credential (turn_shared_secret turn) username) |}]
     | None => []
     end.

Definition allocate_session (call_id : string) (_ : AllocateSessionOptions) :
    M P2pState string MediaSession := λ s,
  match pp_sessions s !! call_id with
  | Some existing => (Ok existing.1, s)
  | None =>
      let ordinal := pp_counter s + 1 in
      let session :=
        {| md_call_id := call_id; md_media_session_id := "p2p-" +:+ call_id +:+ "-" +:+ fmt ordinal;
           md_transport := P2p; md_region := None; md_connection := Some [("transport", "p2p")] |} in
      (Ok session,
       {| pp_options := pp_options s; pp_sessions := <[call_id := (session, ordinal)]> (pp_sessions s);
          pp_counter := ordinal |})
  end.

Definition issue_join_token `{TurnCrypto} (call_id : string) (participant : MediaParticipant) (now_ms : Z)
    (options : IssueJoinTokenOptions) : M P2pState string MediaJoinGrant := λ s,
  match pp_sessions s !! call_id with
  | None => (Err (no_session_message call_id), s)
  | Some allocated =>
      let ttl_ms := default (po_default_token_ttl_ms (pp_options s)) (jo_ttl_ms options) in
      let expiry_ms := i64_saturating_add now_ms ttl_ms in
      let serialized := ice_json (build_ice_servers s (mp_user_id participant) expiry_ms) in
      let realm := match po_turn (pp_options s) with Some turn => turn_realm turn | None => None end in
      (Ok {| jg_call_id := call_id; jg_media_session_id := md_media_session_id allocated.1;
             jg_user_id := mp_user_id participant; jg_device_id := mp_device_id participant;
             jg_token := serialized; jg_expires_at := iso_from_epoch_ms expiry_ms;
             jg_connection := Some (("iceServers", serialized)
               :: match realm with Some r => [("turnRealm", r)] | None => [] end) |}, s)
  end.

Definition release_session (call_id : string) (s : P2pState) : P2pState :=
  {| pp_options := pp_options s; pp_sessions := delete call_id (pp_sessions s); pp_counter := pp_counter s |}.
End Peer.

(** ** Both adapters keep the laws *)

Section Sessions.
Context {V : Type} (m : gmap string V).
Definition held (c : string) : bool := bool_decide (is_Some (m !! c)).

Lemma held_Some c v : m !! c = Some v → held c = true.
Proof. intros E. unfold held. rewrite E. by apply bool_decide_true. Qed.
Lemma held_None c : m !! c = None → held c = false.
Proof. intros E. unfold held. rewrite E. apply bool_decide_false. by intros []. Qed.
Lemma held_again call v c : m !! call = Some v → held c = (if decide (c = call) then true else held c).
Proof. intros E. case_decide; subst; [by eapply held_Some|done]. Qed.
End Sessions.

Lemma held_insert {V} (m : gmap string V) call v c :
  held (<[call := v]> m) c = (if decide (c = call) then true else held m c).
Proof.
  unfold held. case_decide; subst; [by rewrite lookup_insert_eq, bool_decide_true|].
  by rewrite lookup_insert_ne.
Qed.
Lemma held_delete {V} (m : gmap string V) call c :
  held (delete call m) c = (if decide (c = call) then false else held m c).
Proof.
  case_decide; subst; [apply held_None, lookup_delete_eq|]. unfold held. by rewrite lookup_delete_ne.
Qed.

#[export, refine] Instance fake_media_plane : MediaPlane Fake.FakeState :=
  {| describe := Fake.describe; allocate_session := Fake.allocate_session;
     issue_join_token := Fake.issue_join_token; release_session := Fake.release_session;
     has_session := Fake.has_session |}.
Proof.
  all: unfold Fake.has_session; intros s call.
  - intros o. unfold Fake.allocate_session. by destruct (Fake.fk_sessions s !! call).
  - intros p now o. unfold Fake.issue_join_token. by destruct (Fake.fk_sessions s !! call).
  - done.
  - intros o session s' Ha c. unfold Fake.allocate_session in Ha.
    destruct (Fake.fk_sessions s !! call) eqn:E; simplify_eq; [by eapply held_again|apply held_insert].
  - intros o e s' Ha. unfold Fake.allocate_session in Ha. by destruct (Fake.fk_sessions s !! call).
  - intros c. apply held_delete.
  - intros p now o. unfold Fake.issue_join_token.
    change (bool_decide (is_Some (Fake.fk_sessions s !! call))) with (held (Fake.fk_sessions s) call).
    destruct (Fake.fk_sessions s !! call) as [a|] eqn:E.
    + rewrite (held_Some _ _ _ E). split; [|done]. eexists. by split_and!.
    + rewrite (held_None _ _ E). split; [|done]. eexists. done.
Defined.

#[export, refine] Instance p2p_media_plane `{TurnCrypto} : MediaPlane Peer.P2pState :=
  {| describe := Peer.describe; allocate_session := Peer.allocate_session;
     issue_join_token := Peer.issue_join_token; release_session := Peer.release_session;
     has_session := Peer.has_session |}.
Proof.
  all: unfold Peer.has_session; intros s call.
  - done.
  - done.
  - done.
  - intros o session s' Ha c. unfold Peer.allocate_session in Ha.
    destruct (Peer.pp_sessions s !! call) eqn:E; simplify_eq; [by eapply held_again|apply held_insert].
  - intros o e s' Ha. unfold Peer.allocate_session in Ha. by destruct (Peer.pp_sessions s !! call).
  - intros c. apply held_delete.
  - intros p now o. unfold Peer.issue_join_token.
    change (bool_decide (is_Some (Peer.pp_sessions s !! call))) with (held (Peer.pp_sessions s) call).
    destruct (Peer.pp_sessions s !! call) as [a|] eqn:E.
    + rewrite (held_Some _ _ _ E). split; [|done]. eexists. by split_and!.
    + rewrite (held_None _ _ E). split; [|done]. eexists. done.
Defined.
