(* ===== verification/Calls.v ===== *)
(** * The call control plane ([frick-server/src/calls/control_plane.rs], the call
      records of [frick-protocol/src/calls.rs])

    Rooms, invites and participants as objects, the durable event log, and the
    lifecycle operations over any media plane. The records go through the object
    store with its guard against writing another app's row; their serde encoding
    is not modelled, and the control plane is the one without an SFU companion. *)

From Stdlib Require Import ZArith Lia Ascii String.
From stdpp Require Import base gmap strings list pretty.
From S2P Require Import Prelude Value Timestamp StoreBase Authz MediaPlane.

(** ** Records *)

Inductive CallKind : Type := Kind_Audio | Kind_Video.
Inductive CallRoomState : Type := Room_Ringing | Room_Active | Room_Ended.
Inductive CallInviteState : Type := Invite_Ringing | Invite_Accepted | Invite_Declined | Invite_Cancelled.
Inductive CallParticipantState : Type := Part_Joined | Part_Left.
Inductive CallNetworkQuality : Type := Quality_Unknown | Quality_Poor | Quality_Fair | Quality_Good | Quality_Excellent.
#[export] Instance CallRoomState_eq_dec : EqDecision CallRoomState. Proof. solve_decision. Defined.
#[export] Instance CallInviteState_eq_dec : EqDecision CallInviteState. Proof. solve_decision. Defined.
#[export] Instance CallParticipantState_eq_dec : EqDecision CallParticipantState. Proof. solve_decision. Defined.

Record CallRoomRecord : Type := {
  cr_id : string; cr_conversation_id : string; cr_state : CallRoomState; cr_created_by : string;
  cr_kind : CallKind; cr_created_at : string; cr_started_at : option string; cr_ended_at : option string;
  cr_media_session_id : option string; cr_transport : option string;
}.
Record CallInviteRecord : Type := {
  ci_id : string; ci_call_id : string; ci_invitee_user_id : string; ci_status : CallInviteState;
  ci_invited_by : string; ci_invited_at : string; ci_responded_at : option string;
}.
Record CallParticipantRecord : Type := {
  cp_id : string; cp_call_id : string; cp_user_id : string; cp_device_id : string;
  cp_state : CallParticipantState; cp_joined_at : string; cp_left_at : option string;
  cp_mic_enabled : bool; cp_camera_enabled : bool; cp_screen_sharing : bool;
  cp_speaking : option bool; cp_network_quality : option CallNetworkQuality;
}.
Record CallMediaGrant : Type := {
  cg_call_id : string; cg_media_session_id : string; cg_user_id : string; cg_device_id : string;
  cg_token : string; cg_expires_at : string; cg_connection : option Connection;
}.
Record CallMediaStatePatch : Type := {
  pa_mic_enabled : option bool; pa_camera_enabled : option bool; pa_screen_sharing : option bool;
}.

(** ** Errors *)

Inductive CallStateReason : Type :=
| NoInvitees | CapacityExceeded | CallNotFound | CallEnded | NotParticipant | InviteAlreadyResolved.
Inductive CallAuthzReason : Type := NotCreator | NotInvitee | NotSelf.
Inductive CallError : Type :=
| CE_State (reason : CallStateReason) (message : string)
| CE_Authz (reason : CallAuthzReason) (message : string)
| CE_MediaUnsupported (message : string)
| CE_MediaForbidden (message : string)
| CE_Media (message : string)
| CE_Store (message : string)
| CE_Decode (message : string).

Record CallActor : Type := {
  ac_tenant_id : string; ac_user_id : string; ac_device_id : string; ac_app_id : option string;
}.
Definition DEFAULT_APP_ID : string := "_default".
Definition actor_app_id (a : CallActor) : string := default DEFAULT_APP_ID (ac_app_id a).
Record CreateCallInput : Type := {
  in_conversation_id : string; in_invitee_user_ids : list string; in_kind : option CallKind;
  in_region_hint : option string;
}.
Record CreateCallResult : Type := { cc_room : CallRoomRecord; cc_invites : list CallInviteRecord }.
Record JoinCallResult : Type := {
  jc_room : CallRoomRecord; jc_participant : CallParticipantRecord; jc_media_grant : CallMediaGrant;
}.

Definition CALL_ROOM_TYPE : string := "CallRoom".
Definition CALL_INVITE_TYPE : string := "CallInvite".
Definition CALL_PARTICIPANT_TYPE : string := "CallParticipant".

(** ** State *)

Record CallEvent : Type := {
  ev_tenant_id : string; ev_app_id : string; ev_call_id : string; ev_request_id : string;
  ev_event : string; ev_payload : list (string * Value);
}.
(** An object row: the app that owns it, and the record. The tables are keyed by
    tenant and object id. *)
Abbreviation Rows T := (gmap (string * string) (string * T)).
Record CallState (S : Type) : Type := {
  st_rooms : gmap (string * string) (string * CallRoomRecord);
  st_invites : gmap (string * string) (string * CallInviteRecord);
  st_participants : gmap (string * string) (string * CallParticipantRecord);
  st_events : list CallEvent; st_seq : Z; st_media : S;
}.
#[global] Arguments st_rooms {S} _.
#[global] Arguments st_invites {S} _.
#[global] Arguments st_participants {S} _.
#[global] Arguments st_events {S} _.
#[global] Arguments st_seq {S} _.
#[global] Arguments st_media {S} _.

(** [ObjectStore::read] and [upsert] on one table: reads are app-scoped, a write
    over another app's row is refused. *)
Definition read_object {T} (t : Rows T) (tenant_id app_id object_id : string) : option T :=
  match t !! (tenant_id, object_id) with
  | Some (owner, record) => if String.eqb owner app_id then Some record else None
  | None => None
  end.
Definition write_object {T} (object_type : string) (tenant_id app_id object_id : string) (record : T)
    (t : Rows T) : result CallError (Rows T) :=
  let written := <[(tenant_id, object_id) := (app_id, record)]> t in
  match t !! (tenant_id, object_id) with
  | Some (owner, _) =>
      if String.eqb owner app_id then Ok written
      else Err (CE_Store (StoreError_display (CrossAppAccess app_id owner tenant_id object_type object_id)))
  | None => Ok written
  end.

Definition kind_wire (k : CallKind) : string := match k with Kind_Audio => "audio" | Kind_Video => "video" end.
Definition invite_id (call_id user_id : string) : string := call_id +:+ ":" +:+ user_id.
Definition participant_id (call_id user_id device_id : string) : string :=
  call_id +:+ ":" +:+ user_id +:+ ":" +:+ device_id.
Definition media_participant (a : CallActor) : MediaParticipant :=
  {| mp_user_id := ac_user_id a; mp_device_id := ac_device_id a |}.

Fixpoint dedupe_from (seen : gset string) (exclude : string) (values : list string) : list string :=
  match values with
  | [] => []
  | u :: values' =>
      if String.eqb u exclude then dedupe_from seen exclude values'
      else if bool_decide (u ∈ seen) then dedupe_from seen exclude values'
      else u :: dedupe_from ({[u]} ∪ seen) exclude values'
  end.
Definition dedupe (values : list string) (exclude : string) : list string := dedupe_from ∅ exclude values.

Definition set_status (status : CallInviteState) (at_ : string) (i : CallInviteRecord) : CallInviteRecord :=
  {| ci_id := ci_id i; ci_call_id := ci_call_id i; ci_invitee_user_id := ci_invitee_user_id i;
     ci_status := status; ci_invited_by := ci_invited_by i; ci_invited_at := ci_invited_at i;
     ci_responded_at := Some at_ |}.
Definition activated (at_ : string) (r : CallRoomRecord) : CallRoomRecord :=
  {| cr_id := cr_id r; cr_conversation_id := cr_conversation_id r; cr_state := Room_Active;
     cr_created_by := cr_created_by r; cr_kind := cr_kind r; cr_created_at := cr_created_at r;
     cr_started_at := Some at_; cr_ended_at := cr_ended_at r;
     cr_media_session_id := cr_media_session_id r; cr_transport := cr_transport r |}.
Definition ended (at_ : string) (r : CallRoomRecord) : CallRoomRecord :=
  {| cr_id := cr_id r; cr_conversation_id := cr_conversation_id r; cr_state := Room_Ended;
     cr_created_by := cr_created_by r; cr_kind := cr_kind r; cr_created_at := cr_created_at r;
     cr_started_at := cr_started_at r; cr_ended_at := Some at_;
     cr_media_session_id := cr_media_session_id r; cr_transport := cr_transport r |}.
Definition left_at (at_ : string) (p : CallParticipantRecord) : CallParticipantRecord :=
  {| cp_id := cp_id p; cp_call_id := cp_call_id p; cp_user_id := cp_user_id p;
     cp_device_id := cp_device_id p; cp_state := Part_Left; cp_joined_at := cp_joined_at p;
     cp_left_at := Some at_; cp_mic_enabled := cp_mic_enabled p; cp_camera_enabled := cp_camera_enabled p;
     cp_screen_sharing := cp_screen_sharing p; cp_speaking := cp_speaking p;
     cp_network_quality := cp_network_quality p |}.
Definition patched (patch : CallMediaStatePatch) (p : CallParticipantRecord) : CallParticipantRecord :=
  {| cp_id := cp_id p; cp_call_id := cp_call_id p; cp_user_id := cp_user_id p;
     cp_device_id := cp_device_id p; cp_state := cp_state p; cp_joined_at := cp_joined_at p;
     cp_left_at := cp_left_at p;
     cp_mic_enabled := default (cp_mic_enabled p) (pa_mic_enabled patch);
     cp_camera_enabled := default (cp_camera_enabled p) (pa_camera_enabled patch);
     cp_screen_sharing := default (cp_screen_sharing p) (pa_screen_sharing patch);
     cp_speaking := cp_speaking p; cp_network_quality := cp_network_quality p |}.
Definition is_joined (p : CallParticipantRecord) : bool := bool_decide (cp_state p = Part_Joined).

(** ** Operations *)

Section ControlPlane.
Context {Media : Type} `{!MediaPlane Media}.
Local Abbreviation Plane := (M (CallState Media) CallError).

Definition fail {A} (e : CallError) : Plane A := λ s, (Err e, s).

Definition with_rooms (t : Rows CallRoomRecord) (s : CallState Media) : CallState Media :=
  {| st_rooms := t; st_invites := st_invites s; st_participants := st_participants s;
     st_events := st_events s; st_seq := st_seq s; st_media := st_media s |}.
Definition with_invites (t : Rows CallInviteRecord) (s : CallState Media) : CallState Media :=
  {| st_rooms := st_rooms s; st_invites := t; st_participants := st_participants s;
     st_events := st_events s; st_seq := st_seq s; st_media := st_media s |}.
Definition with_participants (t : Rows CallParticipantRecord) (s : CallState Media) : CallState Media :=
  {| st_rooms := st_rooms s; st_invites := st_invites s; st_participants := t;
     st_events := st_events s; st_seq := st_seq s; st_media := st_media s |}.
Definition with_media (m : Media) (s : CallState Media) : CallState Media :=
  {| st_rooms := st_rooms s; st_invites := st_invites s; st_participants := st_participants s;
     st_events := st_events s; st_seq := st_seq s; st_media := m |}.

Definition read_room (actor : CallActor) (call_id : string) : Plane (option CallRoomRecord) := λ s,
  (Ok (read_object (st_rooms s) (ac_tenant_id actor) (actor_app_id actor) call_id), s).
Definition read_invite (actor : CallActor) (call_id user_id : string) : Plane (option CallInviteRecord) := λ s,
  (Ok (read_object (st_invites s) (ac_tenant_id actor) (actor_app_id actor) (invite_id call_id user_id)), s).
Definition read_participant (actor : CallActor) (call_id user_id device_id : string) :
    Plane (option CallParticipantRecord) := λ s,
  (Ok (read_object (st_participants s) (ac_tenant_id actor) (actor_app_id actor)
         (participant_id call_id user_id device_id)), s).

Definition write_room (actor : CallActor) (room : CallRoomRecord) : Plane unit := λ s,
  match write_object CALL_ROOM_TYPE (ac_tenant_id actor) (actor_app_id actor) (cr_id room) room (st_rooms s) with
  | Ok t => (Ok tt, with_rooms t s)
  | Err e => (Err e, s)
  end.
Definition write_invite (actor : CallActor) (invite : CallInviteRecord) : Plane unit := λ s,
  match write_object CALL_INVITE_TYPE (ac_tenant_id actor) (actor_app_id actor) (ci_id invite) invite
          (st_invites s) with
  | Ok t => (Ok tt, with_invites t s)
  | Err e => (Err e, s)
  end.
Definition write_participant (actor : CallActor) (participant : CallParticipantRecord) : Plane unit := λ s,
  match write_object CALL_PARTICIPANT_TYPE (ac_tenant_id actor) (actor_app_id actor) (cp_id participant)
          participant (st_participants s) with
  | Ok t => (Ok tt, with_participants t s)
  | Err e => (Err e, s)
  end.

Definition append_event (actor : CallActor) (call_id event : string) (fields : list (string * Value)) :
    Plane unit := λ s,
  let seq := st_seq s + 1 in
  let e := {| ev_tenant_id := ac_tenant_id actor; ev_app_id := actor_app_id actor; ev_call_id := call_id;
              ev_request_id := "call-" +:+ call_id +:+ "-" +:+ event +:+ "-" +:+ fmt seq;
              ev_event := event; ev_payload := fields |} in
  (Ok tt, {| st_rooms := st_rooms s; st_invites := st_invites s; st_participants := st_participants s;
             st_events := st_events s ++ [e]; st_seq := seq; st_media := st_media s |}).

(** The rows of a call, of the actor's tenant and app. *)
Definition participants_of (s : CallState Media) (tenant_id app_id call_id : string) : list CallParticipantRecord :=
  List.filter (λ p, String.eqb (cp_call_id p) call_id)
    ((λ kr : (string * string) * (string * CallParticipantRecord), kr.2.2)
       <$> List.filter (λ kr : (string * string) * (string * CallParticipantRecord),
             String.eqb kr.1.1 tenant_id && String.eqb kr.2.1 app_id) (map_to_list (st_participants s))).
Definition list_participants (actor : CallActor) (call_id : string) : Plane (list CallParticipantRecord) := λ s,
  (Ok (participants_of s (ac_tenant_id actor) (actor_app_id actor) call_id), s).

Definition call_not_found (call_id : string) : CallError :=
  CE_State CallNotFound ("Call " +:+ call_id +:+ " does not exist").
Definition not_participant (actor : CallActor) (call_id : string) : CallError :=
  CE_State NotParticipant (ac_user_id actor +:+ "/" +:+ ac_device_id actor
                           +:+ " is not an active participant of " +:+ call_id).

Definition require_live_room (actor : CallActor) (call_id : string) : Plane CallRoomRecord :=
  room ← read_room actor call_id;
  match room with
  | None => fail (call_not_found call_id)
  | Some room =>
      if bool_decide (cr_state room = Room_Ended)
      then fail (CE_State CallEnded ("Call " +:+ call_id +:+ " has already ended"))
      else mret room
  end.

Definition require_invitee_or_creator (room : CallRoomRecord) (actor : CallActor) :
    Plane (option CallInviteRecord) :=
  if String.eqb (cr_created_by room) (ac_user_id actor) then mret None
  else
    invite ← read_invite actor (cr_id room) (ac_user_id actor);
    match invite with
    | Some invite => mret (Some invite)
    | None => fail (CE_Authz NotInvitee (ac_user_id actor +:+ " was not invited to call " +:+ cr_id room))
    end.

(** The distinct users who are joined. *)
Definition joined_users (ps : list CallParticipantRecord) : gset string :=
  list_to_set (cp_user_id <$> List.filter is_joined ps).

Definition assert_participant_capacity (actor : CallActor) (call_id : string) : Plane unit :=
  s ← get_state;
  match mc_max_participants (describe (st_media s)) with
  | None => mret tt
  | Some max =>
      participants ← list_participants actor call_id;
      let is_rejoin := existsb (λ p, is_joined p && String.eqb (cp_user_id p) (ac_user_id actor)
                                     && String.eqb (cp_device_id p) (ac_device_id actor)) participants in
      let active_users := joined_users participants in
      if is_rejoin || bool_decide (ac_user_id actor ∈ active_users) then mret tt
      else if Nat.ltb max (size ({[ac_user_id actor]} ∪ active_users))
      then fail (CE_State CapacityExceeded ("Call " +:+ call_id +:+ " is full (media plane capacity is "
                                            +:+ fmt (Z.of_nat max) +:+ ")"))
      else mret tt
  end.

Definition active_participant_count (actor : CallActor) (call_id : string) : Plane nat :=
  participants ← list_participants actor call_id;
  mret (length (List.filter is_joined participants)).

Definition lift_media {A} (m : M Media string A) : Plane A := λ s,
  let '(r, media) := m (st_media s) in
  (match r with Ok a => Ok a | Err e => Err (CE_Media e) end, with_media media s).

Definition ringing_invite (actor : CallActor) (call_id created_at invitee : string) : CallInviteRecord :=
  {| ci_id := invite_id call_id invitee; ci_call_id := call_id; ci_invitee_user_id := invitee;
     ci_status := Invite_Ringing; ci_invited_by := ac_user_id actor; ci_invited_at := created_at;
     ci_responded_at := None |}.

Fixpoint send_invites (actor : CallActor) (call_id created_at : string) (invitees : list string) :
    Plane (list CallInviteRecord) :=
  match invitees with
  | [] => mret []
  | invitee :: invitees' =>
      let invite := ringing_invite actor call_id created_at invitee in
      write_invite actor invite;;
      append_event actor call_id "CallInviteSent"
        [("callId", VStr call_id); ("inviteeUserId", VStr invitee); ("invitedBy", VStr (ac_user_id actor))];;
      rest ← send_invites actor call_id created_at invitees';
      mret (invite :: rest)
  end.

Definition check_expected_capacity (expected : nat) : Plane unit :=
  s ← get_state;
  match mc_max_participants (describe (st_media s)) with
  | Some max =>
      if Nat.ltb max expected
      then fail (CE_State CapacityExceeded ("Call exceeds the media plane capacity of "
                                            +:+ fmt (Z.of_nat max) +:+ " participants"))
      else mret tt
  | None => mret tt
  end.

(** [call_id] and [now] are what the clock seam returns. *)
Definition create_call (actor : CallActor) (input : CreateCallInput) (call_id : string) (now : Z) :
    Plane CreateCallResult :=
  let invitees := dedupe (in_invitee_user_ids input) (ac_user_id actor) in
  if bool_decide (invitees = [])
  then fail (CE_State NoInvitees "A call must invite at least one user other than the creator")
  else
    check_expected_capacity (length invitees + 1);;
    let created_at := iso_from_epoch_ms now in
    let kind := default Kind_Video (in_kind input) in
    session ← lift_media (allocate_session call_id
      {| ao_region_hint := in_region_hint input; ao_expected_participants := Some (length invitees + 1)%nat |});
    let room :=
      {| cr_id := call_id; cr_conversation_id := in_conversation_id input; cr_state := Room_Ringing;
         cr_created_by := ac_user_id actor; cr_kind := kind; cr_created_at := created_at;
         cr_started_at := None; cr_ended_at := None;
         cr_media_session_id := Some (md_media_session_id session);
         cr_transport := Some (as_wire (md_transport session)) |} in
    write_room actor room;;
    append_event actor call_id "CallCreated"
      [("callId", VStr call_id); ("conversationId", VStr (in_conversation_id input));
       ("createdBy", VStr (ac_user_id actor)); ("kind", VStr (kind_wire kind));
       ("createdAt", VStr created_at)];;
    invites ← send_invites actor call_id created_at invitees;
    mret {| cc_room := room; cc_invites := invites |}.

Definition creator_self_invite (call_id user_id : string) (now : Z) : CallInviteRecord :=
  let at_ := iso_from_epoch_ms now in
  {| ci_id := invite_id call_id user_id; ci_call_id := call_id; ci_invitee_user_id := user_id;
     ci_status := Invite_Accepted; ci_invited_by := user_id; ci_invited_at := at_;
     ci_responded_at := Some at_ |}.

Definition accepted_event (actor : CallActor) (call_id : string) : Plane unit :=
  append_event actor call_id "CallInviteAccepted"
    [("callId", VStr call_id); ("inviteeUserId", VStr (ac_user_id actor))].

Definition accept_invite (actor : CallActor) (call_id : string) (now : Z) : Plane CallInviteRecord :=
  room ← require_live_room actor call_id;
  invite ← require_invitee_or_creator room actor;
  match invite with
  | None => mret (creator_self_invite call_id (ac_user_id actor) now)
  | Some invite =>
      match ci_status invite with
      | Invite_Declined | Invite_Cancelled =>
          fail (CE_State InviteAlreadyResolved
                  ("Invite for " +:+ ac_user_id actor +:+ " is resolved and cannot be accepted"))
      | Invite_Accepted => mret invite
      | Invite_Ringing =>
          let updated := set_status Invite_Accepted (iso_from_epoch_ms now) invite in
          write_invite actor updated;; accepted_event actor call_id;; mret updated
      end
  end.

Definition decline_invite (actor : CallActor) (call_id : string) (now : Z) : Plane CallInviteRecord :=
  room ← require_live_room actor call_id;
  invite ← require_invitee_or_creator room actor;
  match invite with
  | None => fail (CE_Authz NotInvitee "The call creator has no invite to decline")
  | Some invite =>
      if bool_decide (ci_status invite = Invite_Accepted)
      then fail (CE_State InviteAlreadyResolved "An accepted invite cannot be declined")
      else
        let updated := set_status Invite_Declined (iso_from_epoch_ms now) invite in
        write_invite actor updated;; mret updated
  end.

Definition joined_participant (actor : CallActor) (call_id joined_at : string) : CallParticipantRecord :=
  {| cp_id := participant_id call_id (ac_user_id actor) (ac_device_id actor); cp_call_id := call_id;
     cp_user_id := ac_user_id actor; cp_device_id := ac_device_id actor; cp_state := Part_Joined;
     cp_joined_at := joined_at; cp_left_at := None; cp_mic_enabled := true; cp_camera_enabled := false;
     cp_screen_sharing := false; cp_speaking := None; cp_network_quality := None |}.

Definition resolved_invite (invite : option CallInviteRecord) : bool :=
  match invite with
  | Some i => bool_decide (ci_status i = Invite_Declined) || bool_decide (ci_status i = Invite_Cancelled)
  | None => false
  end.

(** A join accepts the invite it came by. *)
Definition accept_on_join (actor : CallActor) (call_id joined_at : string) (invite : option CallInviteRecord) :
    Plane unit :=
  match invite with
  | Some invite =>
      if bool_decide (ci_status invite = Invite_Accepted) then mret tt
      else write_invite actor (set_status Invite_Accepted joined_at invite);; accepted_event actor call_id
  | None => mret tt
  end.

(** The rest of a join, past its guards. *)
Definition enter_call (actor : CallActor) (call_id : string) (room : CallRoomRecord) (joined_at : string) (now : Z) :
    Plane JoinCallResult :=
  let participant := joined_participant actor call_id joined_at in
  write_participant actor participant;;
  active_room ←
    (if bool_decide (cr_state room = Room_Ringing)
     then write_room actor (activated joined_at room);; mret (activated joined_at room)
     else mret room);
  append_event actor call_id "CallParticipantJoined"
    [("callId", VStr call_id); ("userId", VStr (ac_user_id actor)); ("deviceId", VStr (ac_device_id actor));
     ("joinedAt", VStr joined_at)];;
  grant ← lift_media (issue_join_token call_id (media_participant actor) now {| jo_ttl_ms := None |});
  mret {| jc_room := active_room; jc_participant := participant;
          jc_media_grant :=
            {| cg_call_id := jg_call_id grant; cg_media_session_id := jg_media_session_id grant;
               cg_user_id := jg_user_id grant; cg_device_id := jg_device_id grant;
               cg_token := jg_token grant; cg_expires_at := jg_expires_at grant;
               cg_connection := jg_connection grant |} |}.

Definition join_call (actor : CallActor) (call_id : string) (now : Z) : Plane JoinCallResult :=
  room ← require_live_room actor call_id;
  invite ← require_invitee_or_creator room actor;
  if resolved_invite invite
  then fail (CE_State InviteAlreadyResolved
               ("Invite for " +:+ ac_user_id actor +:+ " is resolved; cannot join"))
  else
    let joined_at := iso_from_epoch_ms now in
    assert_participant_capacity actor call_id;;
    accept_on_join actor call_id joined_at invite;;
    enter_call actor call_id room joined_at now.

(** The actor's own row, joined. *)
Definition own_participant (actor : CallActor) (call_id : string) : Plane CallParticipantRecord :=
  participant ← read_participant actor call_id (ac_user_id actor) (ac_device_id actor);
  match participant with
  | Some p => if is_joined p then mret p else fail (not_participant actor call_id)
  | None => fail (not_participant actor call_id)
  end.

Definition set_media_state (actor : CallActor) (call_id : string) (patch : CallMediaStatePatch) :
    Plane CallParticipantRecord :=
  room ← require_live_room actor call_id;
  participant ← own_participant actor call_id;
  let updated := patched patch participant in
  write_participant actor updated;;
  append_event actor call_id "CallParticipantMediaChanged"
    [("callId", VStr call_id); ("userId", VStr (ac_user_id actor)); ("deviceId", VStr (ac_device_id actor));
     ("micEnabled", VBool (cp_mic_enabled updated)); ("cameraEnabled", VBool (cp_camera_enabled updated));
     ("screenSharing", VBool (cp_screen_sharing updated))];;
  mret updated.

(** The gate of the SFU operations; this control plane has no companion. *)
Definition require_sfu_participant (has_sfu : bool) (actor : CallActor) (call_id : string) : Plane unit :=
  if negb has_sfu
  then fail (CE_MediaUnsupported ("Call " +:+ call_id +:+ " is not brokered over an SFU media plane; SFU media negotiation is unsupported"))
  else
    room ← require_live_room actor call_id;
    participant ← own_participant actor call_id;
    mret tt.

Definition finalize_end (actor : CallActor) (call_id ended_by : string) (now : Z) : Plane CallRoomRecord :=
  let ended_at := iso_from_epoch_ms now in
  room ← read_room actor call_id;
  match room with
  | None => fail (call_not_found call_id)
  | Some room =>
      if bool_decide (cr_state room = Room_Ended) then mret room
      else
        write_room actor (ended ended_at room);;
        append_event actor call_id "CallEnded"
          [("callId", VStr call_id); ("endedBy", VStr ended_by); ("endedAt", VStr ended_at)];;
        s ← get_state;
        put_state (with_media (release_session call_id (st_media s)) s);;
        mret (ended ended_at room)
  end.

Definition leave_call (actor : CallActor) (call_id : string) (now : Z) : Plane CallRoomRecord :=
  room ← read_room actor call_id;
  match room with
  | None => fail (call_not_found call_id)
  | Some room =>
      if bool_decide (cr_state room = Room_Ended) then mret room
      else
        participant ← own_participant actor call_id;
        let at_ := iso_from_epoch_ms now in
        write_participant actor (left_at at_ participant);;
        append_event actor call_id "CallParticipantLeft"
          [("callId", VStr call_id); ("userId", VStr (ac_user_id actor));
           ("deviceId", VStr (ac_device_id actor)); ("leftAt", VStr at_)];;
        remaining ← active_participant_count actor call_id;
        if Nat.eqb remaining 0 && bool_decide (cr_state room = Room_Active)
        then finalize_end actor call_id (ac_user_id actor) now
        else mret room
  end.

Definition end_call (actor : CallActor) (call_id : string) (now : Z) : Plane CallRoomRecord :=
  room ← read_room actor call_id;
  match room with
  | None => fail (call_not_found call_id)
  | Some room =>
      if negb (String.eqb (cr_created_by room) (ac_user_id actor))
      then fail (CE_Authz NotCreator "Only the call creator may end the call")
      else if bool_decide (cr_state room = Room_Ended) then mret room
      else finalize_end actor call_id (ac_user_id actor) now
  end.

Definition get_room (actor : CallActor) (call_id : string) : Plane (option CallRoomRecord) :=
  read_room actor call_id.

Definition is_signal_member (s : CallState Media) (tenant_id app_id call_id user_id : string) : bool :=
  match read_object (st_rooms s) tenant_id app_id call_id with
  | None => false
  | Some room =>
      if bool_decide (cr_state room = Room_Ended) then false
      else if String.eqb (cr_created_by room) user_id then true
      else if match read_object (st_invites s) tenant_id app_id (invite_id call_id user_id) with
              | Some invite => negb (resolved_invite (Some invite))
              | None => false
              end then true
      else existsb (λ p, String.eqb (cp_user_id p) user_id) (participants_of s tenant_id app_id call_id)
  end.
End ControlPlane.

Definition call_actor (user_id device_id : string) : CallActor :=
  {| ac_tenant_id := DEFAULT_TENANT_ID; ac_user_id := user_id; ac_device_id := device_id; ac_app_id := None |}.
