(* ===== verification/CallLifecycle.v ===== *)
(** * The life of a call

    The transition system the control plane implements, its invariants, and the
    theorems on calls: only invited users are ever in a call, an ended call is
    frozen, the room's state says who is in it, and the capacity of the media plane
    is kept. *)

From Stdlib Require Import ZArith Lia Ascii String.
From stdpp Require Import base gmap strings list pretty.
From S2P Require Import Prelude Value Timestamp StoreBase Authz MediaPlane Calls.

(** ** Ids *)

Fixpoint no_colon (s : string) : bool :=
  match s with EmptyString => true | String c s' => negb (Ascii.eqb c ":"%char) && no_colon s' end.

Lemma colon_cut a b x y :
  no_colon a = true → no_colon b = true → a +:+ ":" +:+ x = b +:+ ":" +:+ y → a = b ∧ x = y.
Proof.
  revert b. induction a as [|c a IH]; intros [|d b] Ha Hb Heq; cbn in Ha, Hb.
  - by injection Heq.
  - injection Heq as <- _. done.
  - injection Heq as -> _. done.
  - apply andb_prop in Ha as [_ Ha]. apply andb_prop in Hb as [_ Hb]. injection Heq as -> Heq.
    destruct (IH b Ha Hb Heq) as [-> ->]. done.
Qed.

(** ** Operations as steps *)

Inductive CallOp : Type :=
| Op_create (actor : CallActor) (input : CreateCallInput) (call_id : string) (now : Z)
| Op_accept (actor : CallActor) (call_id : string) (now : Z)
| Op_decline (actor : CallActor) (call_id : string) (now : Z)
| Op_join (actor : CallActor) (call_id : string) (now : Z)
| Op_media (actor : CallActor) (call_id : string) (patch : CallMediaStatePatch)
| Op_leave (actor : CallActor) (call_id : string) (now : Z)
| Op_end (actor : CallActor) (call_id : string) (now : Z).

Section Lifecycle.
Context {Media : Type} `{!MediaPlane Media}.
Local Abbreviation State := (CallState Media).

Definition call_step (s : State) (op : CallOp) : State :=
  match op with
  | Op_create a input c now => (create_call a input c now s).2
  | Op_accept a c now => (accept_invite a c now s).2
  | Op_decline a c now => (decline_invite a c now s).2
  | Op_join a c now => (join_call a c now s).2
  | Op_media a c patch => (set_media_state a c patch s).2
  | Op_leave a c now => (leave_call a c now s).2
  | Op_end a c now => (end_call a c now s).2
  end.

(** A new call gets an id no call has, without a colon, as the clock seam's ids
    ([call-] and a UUID) are. *)
Definition op_fresh (s : State) (op : CallOp) : Prop :=
  match op with
  | Op_create _ _ c _ => no_colon c = true ∧ ∀ t, st_rooms s !! (t, c) = None
  | _ => True
  end.

Definition empty_calls (m : Media) : State :=
  {| st_rooms := ∅; st_invites := ∅; st_participants := ∅; st_events := []; st_seq := 0; st_media := m |}.
Inductive reachable (m : Media) : State → Prop :=
| reach_empty : reachable m (empty_calls m)
| reach_step s op : reachable m s → op_fresh s op → reachable m (call_step s op).

(** ** The transition system *)

Definition live (r : CallRoomRecord) : Prop := cr_state r ≠ Room_Ended.
Definition joined_in (s : State) (t c : string) (p : CallParticipantRecord) : Prop :=
  ∃ k app, st_participants s !! (t, k) = Some (app, p) ∧ cp_call_id p = c ∧ cp_state p = Part_Joined.
(** The user may be in the call: they created it or accepted an invite. *)
Definition admitted (s : State) (t app c user : string) : Prop :=
  ∃ r, st_rooms s !! (t, c) = Some (app, r)
       ∧ (cr_created_by r = user
          ∨ ∃ i, st_invites s !! (t, invite_id c user) = Some (app, i) ∧ ci_status i = Invite_Accepted).
Definition same_sessions (s s' : State) : Prop :=
  ∀ c, has_session (st_media s') c = has_session (st_media s) c.
Definition released (c0 : string) (s s' : State) : Prop :=
  ∀ c, has_session (st_media s') c = (if decide (c = c0) then false else has_session (st_media s) c).
(** One more joined user fits. *)
Definition fits (s : State) (t app c user : string) : Prop :=
  match mc_max_participants (describe (st_media s)) with
  | None => True
  | Some max =>
      user ∈ joined_users (participants_of s t app c)
      ∨ (size ({[user]} ∪ joined_users (participants_of s t app c)) ≤ max)%nat
  end.
Definition same_identity (p p' : CallParticipantRecord) : Prop :=
  cp_id p' = cp_id p ∧ cp_call_id p' = cp_call_id p ∧ cp_user_id p' = cp_user_id p
  ∧ cp_device_id p' = cp_device_id p.

Inductive call_tr (s s' : State) : Prop :=
| T_same :
    st_rooms s' = st_rooms s → st_invites s' = st_invites s → st_participants s' = st_participants s →
    same_sessions s s' → call_tr s s'
| T_create t app c r invites :
    no_colon c = true → (∀ t', st_rooms s !! (t', c) = None) →
    cr_id r = c → cr_state r = Room_Ringing →
    Forall (λ i, ci_call_id i = c ∧ ci_id i = invite_id c (ci_invitee_user_id i)) invites →
    st_rooms s' = <[(t, c) := (app, r)]> (st_rooms s) →
    st_invites s' = foldl (λ m i, <[(t, ci_id i) := (app, i)]> m) (st_invites s) invites →
    st_participants s' = st_participants s →
    (∀ c', has_session (st_media s') c' = (if decide (c' = c) then true else has_session (st_media s) c')) →
    call_tr s s'
| T_invite t app c r i status at_ :
    st_rooms s !! (t, c) = Some (app, r) → live r →
    st_invites s !! (t, ci_id i) = Some (app, i) → ci_call_id i = c →
    (ci_status i = Invite_Accepted → status = Invite_Accepted) →
    st_rooms s' = st_rooms s → st_participants s' = st_participants s →
    st_invites s' = <[(t, ci_id i) := (app, set_status status at_ i)]> (st_invites s) →
    same_sessions s s' → call_tr s s'
| T_join t app c r p at_ :
    st_rooms s !! (t, c) = Some (app, r) → live r →
    cp_call_id p = c → cp_state p = Part_Joined →
    cp_id p = participant_id c (cp_user_id p) (cp_device_id p) →
    (st_invites s' = st_invites s
     ∨ ∃ i, st_invites s !! (t, ci_id i) = Some (app, i) ∧ ci_call_id i = c
            ∧ st_invites s' = <[(t, ci_id i) := (app, set_status Invite_Accepted at_ i)]> (st_invites s)) →
    admitted s' t app c (cp_user_id p) → fits s t app c (cp_user_id p) →
    st_participants s' = <[(t, cp_id p) := (app, p)]> (st_participants s) →
    st_rooms s' = (if bool_decide (cr_state r = Room_Ringing)
                   then <[(t, c) := (app, activated at_ r)]> (st_rooms s) else st_rooms s) →
    same_sessions s s' → call_tr s s'
| T_media t app c r p p' :
    st_rooms s !! (t, c) = Some (app, r) → live r →
    st_participants s !! (t, cp_id p) = Some (app, p) → cp_call_id p = c → cp_state p = Part_Joined →
    same_identity p p' → cp_state p' = Part_Joined →
    st_rooms s' = st_rooms s → st_invites s' = st_invites s →
    st_participants s' = <[(t, cp_id p) := (app, p')]> (st_participants s) →
    same_sessions s s' → call_tr s s'
| T_leave t app c r p p' :
    st_rooms s !! (t, c) = Some (app, r) → live r →
    st_participants s !! (t, cp_id p) = Some (app, p) → cp_call_id p = c → cp_state p = Part_Joined →
    same_identity p p' → cp_state p' = Part_Left →
    (∃ q, joined_in s' t c q) →
    st_rooms s' = st_rooms s → st_invites s' = st_invites s →
    st_participants s' = <[(t, cp_id p) := (app, p')]> (st_participants s) →
    same_sessions s s' → call_tr s s'
| T_last_leave t app c r p p' at_ :
    st_rooms s !! (t, c) = Some (app, r) → live r →
    st_participants s !! (t, cp_id p) = Some (app, p) → cp_call_id p = c → cp_state p = Part_Joined →
    same_identity p p' → cp_state p' = Part_Left →
    st_rooms s' = <[(t, c) := (app, ended at_ r)]> (st_rooms s) → st_invites s' = st_invites s →
    st_participants s' = <[(t, cp_id p) := (app, p')]> (st_participants s) →
    released c s s' → call_tr s s'
| T_end t app c r at_ :
    st_rooms s !! (t, c) = Some (app, r) → live r →
    st_rooms s' = <[(t, c) := (app, ended at_ r)]> (st_rooms s) → st_invites s' = st_invites s →
    st_participants s' = st_participants s → released c s s' → call_tr s s'.

Record calls_wf (s : State) : Prop := {
  wf_rooms : ∀ t c app r, st_rooms s !! (t, c) = Some (app, r) → cr_id r = c ∧ no_colon c = true;
  wf_unique : ∀ t t' c v v', st_rooms s !! (t, c) = Some v → st_rooms s !! (t', c) = Some v' → t = t';
  wf_invites : ∀ t k app i, st_invites s !! (t, k) = Some (app, i) →
    k = ci_id i ∧ k = invite_id (ci_call_id i) (ci_invitee_user_id i)
    ∧ ∃ r, st_rooms s !! (t, ci_call_id i) = Some (app, r);
  wf_participants : ∀ t k app p, st_participants s !! (t, k) = Some (app, p) →
    k = cp_id p ∧ k = participant_id (cp_call_id p) (cp_user_id p) (cp_device_id p)
    ∧ admitted s t app (cp_call_id p) (cp_user_id p);
  wf_state : ∀ t c app r, st_rooms s !! (t, c) = Some (app, r) →
    match cr_state r with
    | Room_Ringing => ¬ ∃ p, joined_in s t c p
    | Room_Active => ∃ p, joined_in s t c p
    | Room_Ended => True
    end;
  wf_media : ∀ t c app r, st_rooms s !! (t, c) = Some (app, r) →
    has_session (st_media s) c = negb (bool_decide (cr_state r = Room_Ended));
}.

(** ** What a transition keeps *)

Lemma insert_invites_lookup (t app : string) (l : list CallInviteRecord)
    (m : gmap (string * string) (string * CallInviteRecord)) (k : string * string) v :
  foldl (λ m i, <[(t, ci_id i) := (app, i)]> m) m l !! k = Some v →
  (∃ i, i ∈ l ∧ k = (t, ci_id i) ∧ v = (app, i)) ∨ m !! k = Some v.
Proof.
  revert m. induction l as [|i l IH]; intros m; cbn [foldl]; [by right|].
  intros [(j & Hj & ?)|Hv]%IH; [left; exists j; split; [by right|done]|].
  apply lookup_insert_Some in Hv as [[<- <-]|[_ ?]]; [|by right]. left. exists i. split; [by left|done].
Qed.
Lemma insert_invites_other (t app : string) (l : list CallInviteRecord)
    (m : gmap (string * string) (string * CallInviteRecord)) (k : string * string) :
  (∀ i, i ∈ l → k ≠ (t, ci_id i)) → foldl (λ m i, <[(t, ci_id i) := (app, i)]> m) m l !! k = m !! k.
Proof.
  revert m. induction l as [|i l IH]; intros m Hk; cbn [foldl]; [done|].
  rewrite IH by (intros j Hj; apply Hk; by right). apply lookup_insert_ne.
  intros E. apply (Hk i); [by left|done].
Qed.

(** The three tables, each by the form of its change. *)
Definition same_room (r r' : CallRoomRecord) : Prop :=
  cr_id r' = cr_id r ∧ cr_created_by r' = cr_created_by r.
Definition rooms_form (s s' : State) : Prop :=
  st_rooms s' = st_rooms s
  ∨ (∃ t app c r, no_colon c = true ∧ (∀ t', st_rooms s !! (t', c) = None) ∧ cr_id r = c
       ∧ st_rooms s' = <[(t, c) := (app, r)]> (st_rooms s))
  ∨ (∃ t app c r r', st_rooms s !! (t, c) = Some (app, r) ∧ live r ∧ same_room r r'
       ∧ st_rooms s' = <[(t, c) := (app, r')]> (st_rooms s)).
Lemma tr_rooms_form s s' : call_tr s s' → rooms_form s s'.
Proof.
  unfold rooms_form. destruct 1 as [|t app c r invites|t app c r i st at_|t app c r p at_|t app c r p p'|t app c r p p'
    |t app c r p p' at_|t app c r at_]; try (by left).
  - right. left. exists t, app, c, r. by split_and!.
  - case_bool_decide; [|by left]. right. right. exists t, app, c, r, (activated at_ r). by split_and!.
  - right. right. exists t, app, c, r, (ended at_ r). by split_and!.
  - right. right. exists t, app, c, r, (ended at_ r). by split_and!.
Qed.

Definition same_invite (i i' : CallInviteRecord) : Prop :=
  ci_id i' = ci_id i ∧ ci_call_id i' = ci_call_id i ∧ ci_invitee_user_id i' = ci_invitee_user_id i
  ∧ (ci_status i = Invite_Accepted → ci_status i' = Invite_Accepted).
Definition invites_form (s s' : State) : Prop :=
  st_invites s' = st_invites s
  ∨ (∃ t app c r l, no_colon c = true ∧ (∀ t', st_rooms s !! (t', c) = None)
       ∧ st_rooms s' !! (t, c) = Some (app, r)
       ∧ Forall (λ i, ci_call_id i = c ∧ ci_id i = invite_id c (ci_invitee_user_id i)) l
       ∧ st_invites s' = foldl (λ m i, <[(t, ci_id i) := (app, i)]> m) (st_invites s) l)
  ∨ (∃ t app c r i i', st_rooms s !! (t, c) = Some (app, r) ∧ live r ∧ ci_call_id i = c
       ∧ st_invites s !! (t, ci_id i) = Some (app, i) ∧ same_invite i i'
       ∧ st_invites s' = <[(t, ci_id i) := (app, i')]> (st_invites s)).
Lemma tr_invites_form s s' : call_tr s s' → invites_form s s'.
Proof.
  unfold invites_form. destruct 1 as [|t app c r invites ???? Hl Hrooms|t app c r i st at_|t app c r p at_ ????? Hinv|t app c r p p'|t app c r p p'
    |t app c r p p' at_|t app c r at_]; try (by left).
  - right. left. exists t, app, c, r, invites. split_and!; try done. rewrite Hrooms. apply lookup_insert_eq.
  - right. right. exists t, app, c, r, i, (set_status st at_ i). by split_and!.
  - destruct Hinv as [->|(i & ? & ? & ->)]; [by left|]. right. right.
    exists t, app, c, r, i, (set_status Invite_Accepted at_ i). by split_and!.
Qed.

Definition participants_form (s s' : State) : Prop :=
  st_participants s' = st_participants s
  ∨ (∃ t app c r p', st_rooms s !! (t, c) = Some (app, r) ∧ live r ∧ cp_call_id p' = c
       ∧ ((cp_id p' = participant_id c (cp_user_id p') (cp_device_id p') ∧ admitted s' t app c (cp_user_id p'))
          ∨ ∃ p, st_participants s !! (t, cp_id p') = Some (app, p) ∧ same_identity p p')
       ∧ st_participants s' = <[(t, cp_id p') := (app, p')]> (st_participants s)).
Lemma tr_participants_form s s' : call_tr s s' → participants_form s s'.
Proof.
  unfold participants_form. destruct 1 as [|t app c r invites|t app c r i st at_|t app c r p at_|t app c r p p'|t app c r p p'
    |t app c r p p' at_|t app c r at_]; try (by left);
    right; try (exists t, app, c, r, p; by split_and!; [..|left|]);
    exists t, app, c, r, p'; assert (cp_id p' = cp_id p ∧ cp_call_id p' = c) as [Hid Hc]
      by (match goal with H : same_identity _ _ |- _ => destruct H as (-> & -> & _) end; done);
    rewrite Hid; (split_and!; [done..| |done]); right; by exists p.
Qed.

Lemma room_later s s' t c app r :
  rooms_form s s' → st_rooms s !! (t, c) = Some (app, r) →
  ∃ r', st_rooms s' !! (t, c) = Some (app, r') ∧ same_room r r' ∧ (live r ∨ r' = r).
Proof.
  intros [->|[(t0 & app0 & c0 & r0 & _ & Hfresh & _ & ->)|(t0 & app0 & c0 & r0 & r1 & Hr0 & Hl & Hsame & ->)]] Hr.
  - exists r. by split_and!; [..|right].
  - rewrite lookup_insert_ne; [exists r; by split_and!; [..|right]|].
    intros [= -> ->]. by rewrite Hfresh in Hr.
  - destruct (decide ((t0, c0) = (t, c))) as [E|E].
    + rewrite E in Hr0 |- *. rewrite lookup_insert_eq. simplify_eq. exists r1. by split_and!; [..|left].
    + rewrite lookup_insert_ne by done. exists r. by split_and!; [..|right].
Qed.

Lemma room_earlier s s' t c app r' :
  rooms_form s s' → st_rooms s' !! (t, c) = Some (app, r') →
  (∃ r, st_rooms s !! (t, c) = Some (app, r) ∧ same_room r r')
  ∨ (no_colon c = true ∧ (∀ t', st_rooms s !! (t', c) = None) ∧ cr_id r' = c).
Proof.
  intros [->|[(t0 & app0 & c0 & r0 & Hn & Hfresh & Hid & ->)|(t0 & app0 & c0 & r0 & r1 & Hr0 & Hl & Hsame & ->)]] Hr.
  - left. by exists r'.
  - apply lookup_insert_Some in Hr as [[[= <- <-] [= <- <-]]|[_ Hr]]; [by right|]. left. by exists r'.
  - left. apply lookup_insert_Some in Hr as [[[= <- <-] [= <- <-]]|[_ Hr]]; [by exists r0|by exists r'].
Qed.

Lemma invite_later s s' t k app i :
  calls_wf s → invites_form s s' → st_invites s !! (t, k) = Some (app, i) →
  ∃ i', st_invites s' !! (t, k) = Some (app, i') ∧ same_invite i i'.
Proof.
  intros Hwf Hform Hi. assert (same_invite i i) as Hrefl by done.
  destruct Hform as [->|[(t0 & app0 & c0 & r0 & l & Hn & Hfresh & _ & Hl & ->)
    |(t0 & app0 & c0 & r0 & i0 & i1 & _ & _ & _ & Hi0 & Hsame & ->)]]; [by eauto| |].
  - rewrite insert_invites_other; [by eauto|]. intros j Hj [= -> Hk].
    destruct (wf_invites s Hwf _ _ _ _ Hi) as (_ & Hid & r & Hr).
    rewrite Forall_forall in Hl. destruct (Hl j Hj) as [_ Hjid].
    destruct (colon_cut (ci_call_id i) c0 (ci_invitee_user_id i) (ci_invitee_user_id j)) as [Hc _];
      [by eapply (wf_rooms s Hwf)|done|unfold invite_id in *; congruence|].
    rewrite Hc, Hfresh in Hr. done.
  - destruct (decide ((t0, ci_id i0) = (t, k))) as [E|E].
    + rewrite E in Hi0 |- *. rewrite lookup_insert_eq. simplify_eq. by eauto.
    + rewrite lookup_insert_ne by done. by eauto.
Qed.

Lemma invite_earlier s s' t k app i' :
  invites_form s s' → st_invites s' !! (t, k) = Some (app, i') →
  (∃ i, st_invites s !! (t, k) = Some (app, i) ∧ same_invite i i')
  ∨ (k = ci_id i' ∧ k = invite_id (ci_call_id i') (ci_invitee_user_id i')
     ∧ (∀ t', st_rooms s !! (t', ci_call_id i') = None)
     ∧ ∃ r, st_rooms s' !! (t, ci_call_id i') = Some (app, r)).
Proof.
  intros Hform Hi. assert (same_invite i' i') as Hrefl by done.
  destruct Hform as [Hs|[(t0 & app0 & c0 & r0 & l & Hn & Hfresh & Hroom & Hl & Hs)
    |(t0 & app0 & c0 & r0 & i0 & i1 & _ & _ & _ & Hi0 & Hsame & Hs)]]; rewrite Hs in Hi; [by eauto| |].
  - apply insert_invites_lookup in Hi as [(j & Hj & [= -> ->] & [= -> ->])|Hi]; [|by eauto]. right.
    rewrite Forall_forall in Hl. destruct (Hl j Hj) as [<- Hid]. by eauto.
  - left. apply lookup_insert_Some in Hi as [[[= <- <-] [= <- <-]]|[_ Hi]]; eauto.
Qed.

Lemma admitted_later s s' t app c user :
  calls_wf s → call_tr s s' → admitted s t app c user → admitted s' t app c user.
Proof.
  intros Hwf Htr (r & Hr & Hu). pose proof (tr_rooms_form s s' Htr) as Hrooms.
  pose proof (tr_invites_form s s' Htr) as Hinvites.
  destruct (room_later s s' t c app r Hrooms Hr) as (r' & Hr' & [_ Hby] & _). exists r'. split; [done|].
  destruct Hu as [Hu|(i & Hi & Hst)]; [left; congruence|right].
  destruct (invite_later s s' t _ app i Hwf Hinvites Hi) as (i' & Hi' & _ & _ & _ & Hacc). eauto.
Qed.

Lemma participant_earlier s s' t k app p' :
  participants_form s s' → st_participants s' !! (t, k) = Some (app, p') →
  (∃ p, st_participants s !! (t, k) = Some (app, p) ∧ same_identity p p')
  ∨ (k = cp_id p' ∧ k = participant_id (cp_call_id p') (cp_user_id p') (cp_device_id p')
     ∧ admitted s' t app (cp_call_id p') (cp_user_id p')).
Proof.
  intros Hform Hp. destruct Hform as [Hs|(t0 & app0 & c0 & r0 & p1 & _ & _ & Hc & Hcase & Hs)]; rewrite Hs in Hp.
  { left. by exists p'. }
  apply lookup_insert_Some in Hp as [[[= <- <-] [= <- <-]]|[_ Hp]]; [|left; by exists p'].
  rewrite <- Hc in Hcase. destruct Hcase as [[Hid Hadm]|(p & Hp & Hsame)]; [right|left; eauto]. by split_and!.
Qed.

(** ** The invariant *)

(** The row a participant id addresses belongs to the call the id was made for. *)
Lemma addressed_call s t c user device app p app' r :
  calls_wf s → st_rooms s !! (t, c) = Some (app', r) →
  st_participants s !! (t, participant_id c user device) = Some (app, p) → cp_call_id p = c ∧ app = app'.
Proof.
  intros Hwf Hr Hp. destruct (wf_participants s Hwf _ _ _ _ Hp) as (_ & Hid & r' & Hr' & _).
  destruct (colon_cut c (cp_call_id p) (user +:+ ":" +:+ device) (cp_user_id p +:+ ":" +:+ cp_device_id p)) as [Hc _];
    [by eapply (wf_rooms s Hwf)|by eapply (wf_rooms s Hwf)|done|]. rewrite <- Hc in Hr'. by simplify_eq.
Qed.

(** Who is joined in another call is not touched. *)
Lemma joined_elsewhere s s' t0 k0 app0 p0 c0 t c p :
  st_participants s' = <[(t0, k0) := (app0, p0)]> (st_participants s) → cp_call_id p0 = c0 →
  (∀ app q, st_participants s !! (t0, k0) = Some (app, q) → cp_call_id q = c0) →
  (t, c) ≠ (t0, c0) → joined_in s' t c p ↔ joined_in s t c p.
Proof.
  intros Hs Hc0 Hold Hne. unfold joined_in. rewrite Hs. split.
  - intros (k & app & Hp & Hc & Hj). exists k, app. split_and!; [|done..].
    apply lookup_insert_Some in Hp as [[[= <- <-] [= <- <-]]|[_ ?]]; [|done]. congruence.
  - intros (k & app & Hp & Hc & Hj). exists k, app. split_and!; [|done..].
    rewrite lookup_insert_ne; [done|]. intros [= <- <-]. apply Hold in Hp. congruence.
Qed.

Lemma joined_same s s' t c p :
  st_participants s' = st_participants s → joined_in s' t c p ↔ joined_in s t c p.
Proof. intros Hs. unfold joined_in. by rewrite Hs. Qed.

Definition state_ok (s : State) (t c : string) (st : CallRoomState) : Prop :=
  match st with
  | Room_Ringing => ¬ ∃ p, joined_in s t c p
  | Room_Active => ∃ p, joined_in s t c p
  | Room_Ended => True
  end.
Lemma state_ok_iff s s' t c st :
  (∀ p, joined_in s' t c p ↔ joined_in s t c p) → state_ok s t c st → state_ok s' t c st.
Proof. intros Hj. unfold state_ok. destruct st; [| |done]; by setoid_rewrite Hj. Qed.

(** Changing one participant of a room to one that keeps the room's state right. *)
Lemma wf_state_participant s s' t0 c0 app0 r0 k0 p0 t c app r :
  calls_wf s → st_rooms s !! (t0, c0) = Some (app0, r0) →
  k0 = participant_id c0 (cp_user_id p0) (cp_device_id p0) → cp_call_id p0 = c0 →
  st_participants s' = <[(t0, k0) := (app0, p0)]> (st_participants s) →
  st_rooms s' !! (t, c) = Some (app, r) →
  ((t, c) ≠ (t0, c0) → st_rooms s !! (t, c) = Some (app, r)) →
  ((t, c) = (t0, c0) → state_ok s' t c (cr_state r)) → state_ok s' t c (cr_state r).
Proof.
  intros Hwf Hr0 -> Hc0 Hs Hr Hother Hhere. destruct (decide ((t, c) = (t0, c0))) as [E|E]; [by apply Hhere|].
  eapply state_ok_iff; [|exact (wf_state s Hwf _ _ _ _ (Hother E))]. intros q.
  eapply joined_elsewhere; [exact Hs|done| |done]. intros app' q' Hq. by destruct (addressed_call s _ _ _ _ _ _ _ _ Hwf Hr0 Hq).
Qed.

Lemma same_key s t app p p' :
  calls_wf s → st_participants s !! (t, cp_id p) = Some (app, p) → same_identity p p' →
  cp_id p = participant_id (cp_call_id p) (cp_user_id p') (cp_device_id p') ∧ cp_call_id p' = cp_call_id p.
Proof.
  intros Hwf Hp (Hid & Hc & -> & ->). split; [|done]. by destruct (wf_participants s Hwf _ _ _ _ Hp) as (_ & ? & _).
Qed.
(** A live room somebody is joined in is active. *)
Lemma joined_active s t c app r p :
  calls_wf s → st_rooms s !! (t, c) = Some (app, r) → live r → joined_in s t c p → cr_state r = Room_Active.
Proof.
  intros Hwf Hr Hl Hj. pose proof (wf_state s Hwf _ _ _ _ Hr) as Hst. unfold live in Hl.
  destruct (cr_state r); [|done|done]. by destruct Hst; exists p.
Qed.

Lemma wf_state_step s s' t c app r :
  calls_wf s → call_tr s s' → st_rooms s' !! (t, c) = Some (app, r) → state_ok s' t c (cr_state r).
Proof.
  intros Hwf Htr Hr. destruct Htr as [Hro Hin Hpa Hse|t0 app0 c0 r0 l Hn Hf Hid Hst Hl Hro Hin Hpa Hse
    |t0 app0 c0 r0 i st at_ Hr0 Hl0 Hi Hci Hacc Hro Hpa Hin Hse|t0 app0 c0 r0 p at_ Hr0 Hl0 Hc Hj Hid Hin Hadm Hfit Hpa Hro Hse
    |t0 app0 c0 r0 p p' Hr0 Hl0 Hp Hc Hj Hsame Hj' Hro Hin Hpa Hse|t0 app0 c0 r0 p p' Hr0 Hl0 Hp Hc Hj Hsame Hj' Hq Hro Hin Hpa Hse
    |t0 app0 c0 r0 p p' at_ Hr0 Hl0 Hp Hc Hj Hsame Hj' Hro Hin Hpa Hse|t0 app0 c0 r0 at_ Hr0 Hl0 Hro Hin Hpa Hse];
    rewrite Hro in Hr.
  - eapply state_ok_iff; [intros; by apply joined_same|by eapply (wf_state s Hwf)].
  - apply lookup_insert_Some in Hr as [[[= <- <-] [= <- <-]]|[_ Hr]].
    + rewrite Hst. intros (p & Hp). apply (joined_same s s') in Hp as (k & app & Hp & Hc & _); [|done].
      destruct (wf_participants s Hwf _ _ _ _ Hp) as (_ & _ & r' & Hr' & _). by rewrite Hc, Hf in Hr'.
    + eapply state_ok_iff; [intros; by apply joined_same|by eapply (wf_state s Hwf)].
  - eapply state_ok_iff; [intros; by apply joined_same|by eapply (wf_state s Hwf)].
  - assert (∃ q, joined_in s' t0 c0 q) as Hq.
    { exists p, (cp_id p), app0. rewrite Hpa, lookup_insert_eq. done. }
    eapply (wf_state_participant s s' t0 c0 app0 r0 (cp_id p) p); try done.
    + rewrite Hro. exact Hr.
    + intros Hne. case_bool_decide; [by rewrite lookup_insert_ne in Hr|done].
    + intros [= -> ->]. destruct (cr_state r0) eqn:Es; [| |done].
      * rewrite bool_decide_true, lookup_insert_eq in Hr by done. by simplify_eq.
      * rewrite bool_decide_false in Hr by done. simplify_eq. by rewrite Es.
  - destruct (same_key s t0 app0 p p' Hwf Hp Hsame) as [Hk Hc'].
    eapply (wf_state_participant s s' t0 c0 app0 r0 (cp_id p) p'); try done; try congruence.
    intros [= -> ->]. rewrite Hr0 in Hr. injection Hr as <- <-. rewrite (joined_active s t0 c0 app0 r0 p) by (done || by exists (cp_id p), app0).
    exists p', (cp_id p), app0. rewrite Hpa, lookup_insert_eq. split_and!; congruence.
  - destruct (same_key s t0 app0 p p' Hwf Hp Hsame) as [Hk Hc'].
    eapply (wf_state_participant s s' t0 c0 app0 r0 (cp_id p) p'); try done; try congruence.
    intros [= -> ->]. rewrite Hr0 in Hr. injection Hr as <- <-. by rewrite (joined_active s t0 c0 app0 r0 p) by (done || by exists (cp_id p), app0).
  - destruct (same_key s t0 app0 p p' Hwf Hp Hsame) as [Hk Hc'].
    eapply (wf_state_participant s s' t0 c0 app0 r0 (cp_id p) p'); try done; try congruence.
    + by rewrite Hro.
    + intros Hne. by rewrite lookup_insert_ne in Hr.
    + intros [= -> ->]. rewrite lookup_insert_eq in Hr. by simplify_eq.
  - apply lookup_insert_Some in Hr as [[[= <- <-] [= <- <-]]|[_ Hr]]; [done|].
    eapply state_ok_iff; [intros; by apply joined_same|by eapply (wf_state s Hwf)].
Qed.
(** Ending a room and releasing its session. *)
Lemma wf_media_released s s' t0 c0 app0 r0 at_ t c app r :
  calls_wf s → st_rooms s !! (t0, c0) = Some (app0, r0) → released c0 s s' →
  <[(t0, c0) := (app0, ended at_ r0)]> (st_rooms s) !! (t, c) = Some (app, r) →
  has_session (st_media s') c = negb (bool_decide (cr_state r = Room_Ended)).
Proof.
  intros Hwf Hr0 Hse Hr. rewrite Hse.
  apply lookup_insert_Some in Hr as [[[= <- <-] [= <- <-]]|[Hne Hr]]; [by rewrite decide_True by done|].
  rewrite decide_False; [by eapply (wf_media s Hwf)|]. intros ->.
  by rewrite (wf_unique s Hwf _ _ _ _ _ Hr Hr0) in Hne.
Qed.

Lemma wf_media_step s s' t c app r :
  calls_wf s → call_tr s s' → st_rooms s' !! (t, c) = Some (app, r) →
  has_session (st_media s') c = negb (bool_decide (cr_state r = Room_Ended)).
Proof.
  intros Hwf Htr Hr. destruct Htr as [Hro _ _ Hse|t0 app0 c0 r0 l _ Hf _ Hst _ Hro _ _ Hse
    |t0 app0 c0 r0 i st at_ _ _ _ _ _ Hro _ _ Hse|t0 app0 c0 r0 p at_ Hr0 Hl0 _ _ _ _ _ _ _ Hro Hse
    |t0 app0 c0 r0 p p' _ _ _ _ _ _ _ Hro _ _ Hse|t0 app0 c0 r0 p p' _ _ _ _ _ _ _ _ Hro _ _ Hse
    |t0 app0 c0 r0 p p' at_ Hr0 Hl0 _ _ _ _ _ Hro _ _ Hse|t0 app0 c0 r0 at_ Hr0 Hl0 Hro _ _ Hse];
    rewrite Hro in Hr; try (rewrite Hse; by eapply (wf_media s Hwf)); try (by eapply wf_media_released).
  - rewrite Hse. apply lookup_insert_Some in Hr as [[[= <- <-] [= <- <-]]|[_ Hr]].
    + rewrite decide_True, Hst by done. done.
    + rewrite decide_False; [by eapply (wf_media s Hwf)|]. intros ->. by rewrite Hf in Hr.
  - rewrite Hse. case_bool_decide as Es; [|by eapply (wf_media s Hwf)].
    apply lookup_insert_Some in Hr as [[[= <- <-] [= <- <-]]|[_ Hr]]; [|by eapply (wf_media s Hwf)].
    rewrite (wf_media s Hwf _ _ _ _ Hr0), Es. done.
Qed.

Lemma rooms_unique_step s s' t t' c v v' :
  calls_wf s → rooms_form s s' → st_rooms s' !! (t, c) = Some v → st_rooms s' !! (t', c) = Some v' → t = t'.
Proof.
  intros Hwf [->|[(t0 & app0 & c0 & r0 & _ & Hf & _ & ->)|(t0 & app0 & c0 & r0 & r1 & Hr0 & _ & _ & ->)]];
    [by apply (wf_unique s Hwf)| |];
    intros [[[= <- <-] <-]|[_ Hr]]%lookup_insert_Some [[Heq <-]|[_ Hr']]%lookup_insert_Some;
    simplify_eq; try done; try (by rewrite Hf in Hr); try (by rewrite Hf in Hr'); by eapply (wf_unique s Hwf).
Qed.

Theorem calls_wf_step s s' : call_tr s s' → calls_wf s → calls_wf s'.
Proof.
  intros Htr Hwf. pose proof (tr_rooms_form s s' Htr) as Hrooms. pose proof (tr_invites_form s s' Htr) as Hinv.
  pose proof (tr_participants_form s s' Htr) as Hpart. split.
  - intros t c app r' [(r & Hr & [-> _])|(Hn & _ & Hid)]%(room_earlier s s'); [|done|done].
    by eapply (wf_rooms s Hwf).
  - intros t t' c v v'. by apply (rooms_unique_step s s').
  - intros t k app i' [(i & Hi & Hid & Hc & Hu & _)|(Hk & Hid & _ & Hr)]%(invite_earlier s s'); [|by split_and!|done].
    destruct (wf_invites s Hwf _ _ _ _ Hi) as (Hk & Hk' & r & Hr). rewrite Hid, Hc, Hu. split_and!; [done..|].
    destruct (room_later s s' _ _ _ _ Hrooms Hr) as (r' & ? & _). by exists r'.
  - intros t k app p' [(p & Hp & Hid & Hc & Hu & Hd)|?]%(participant_earlier s s'); [|done|done].
    destruct (wf_participants s Hwf _ _ _ _ Hp) as (Hk & Hk' & Hadm). rewrite Hid, Hc, Hu, Hd. split_and!; [done..|].
    by eapply admitted_later.
  - intros t c app r Hr. by eapply (wf_state_step s s').
  - intros t c app r Hr. by eapply (wf_media_step s s').
Qed.
(** ** The operations take these transitions *)

Lemma bind_ok {S E A B} (m : M S E A) (f : A → M S E B) s a s' : m s = (Ok a, s') → mbind f m s = f a s'.
Proof. run_M. by intros ->. Qed.
Lemma bind_err {S E A B} (m : M S E A) (f : A → M S E B) s e s' : m s = (Err e, s') → mbind f m s = (Err e, s').
Proof. run_M. by intros ->. Qed.

Lemma read_object_Some {T} (m : Rows T) (t app k : string) v : read_object m t app k = Some v ↔ m !! (t, k) = Some (app, v).
Proof.
  unfold read_object. destruct (m !! (t, k)) as [[owner v']|]; [|done].
  destruct (String.eqb_spec owner app); naive_solver.
Qed.
Lemma write_object_ok {T} (ty t app k : string) (v : T) (m : Rows T) :
  (∀ owner v', m !! (t, k) = Some (owner, v') → owner = app) →
  write_object ty t app k v m = Ok (<[(t, k) := (app, v)]> m).
Proof.
  unfold write_object. destruct (m !! (t, k)) as [[owner v']|]; [|done]. intros H.
  rewrite (H owner v' eq_refl). by rewrite String.eqb_refl.
Qed.

Implicit Types (a : CallActor) (s : State).
Lemma write_room_ok a r s :
  (∀ owner r', st_rooms s !! (ac_tenant_id a, cr_id r) = Some (owner, r') → owner = actor_app_id a) →
  write_room a r s = (Ok tt, with_rooms (<[(ac_tenant_id a, cr_id r) := (actor_app_id a, r)]> (st_rooms s)) s).
Proof. intros H. unfold write_room. by rewrite write_object_ok. Qed.
Lemma write_invite_ok a i s :
  (∀ owner i', st_invites s !! (ac_tenant_id a, ci_id i) = Some (owner, i') → owner = actor_app_id a) →
  write_invite a i s = (Ok tt, with_invites (<[(ac_tenant_id a, ci_id i) := (actor_app_id a, i)]> (st_invites s)) s).
Proof. intros H. unfold write_invite. by rewrite write_object_ok. Qed.
Lemma write_participant_ok a p s :
  (∀ owner p', st_participants s !! (ac_tenant_id a, cp_id p) = Some (owner, p') → owner = actor_app_id a) →
  write_participant a p s
  = (Ok tt, with_participants (<[(ac_tenant_id a, cp_id p) := (actor_app_id a, p)]> (st_participants s)) s).
Proof. intros H. unfold write_participant. by rewrite write_object_ok. Qed.

Lemma require_live_room_cases a c s :
  (∃ e, require_live_room a c s = (Err e, s))
  ∨ ∃ r, require_live_room a c s = (Ok r, s)
         ∧ st_rooms s !! (ac_tenant_id a, c) = Some (actor_app_id a, r) ∧ live r.
Proof.
  unfold require_live_room, read_room. run_M.
  destruct (read_object (st_rooms s) _ _ c) as [r|] eqn:Hr; [|left; by eexists].
  apply read_object_Some in Hr. case_bool_decide; [left; by eexists|]. right. by exists r.
Qed.
Lemma require_invitee_cases r a s :
  (∃ e, require_invitee_or_creator r a s = (Err e, s))
  ∨ (require_invitee_or_creator r a s = (Ok None, s) ∧ cr_created_by r = ac_user_id a)
  ∨ ∃ i, require_invitee_or_creator r a s = (Ok (Some i), s)
         ∧ st_invites s !! (ac_tenant_id a, invite_id (cr_id r) (ac_user_id a)) = Some (actor_app_id a, i).
Proof.
  unfold require_invitee_or_creator, read_invite.
  destruct (String.eqb_spec (cr_created_by r) (ac_user_id a)) as [E|E]; run_M; [by right; left|].
  destruct (read_object (st_invites s) _ _ _) as [i|] eqn:Hi; [|left; by eexists].
  apply read_object_Some in Hi. right. right. by exists i.
Qed.
Lemma own_participant_cases a c s :
  (∃ e, own_participant a c s = (Err e, s))
  ∨ ∃ p, own_participant a c s = (Ok p, s) ∧ cp_state p = Part_Joined
         ∧ st_participants s !! (ac_tenant_id a, participant_id c (ac_user_id a) (ac_device_id a))
           = Some (actor_app_id a, p).
Proof.
  unfold own_participant, read_participant, is_joined. run_M.
  destruct (read_object (st_participants s) _ _ _) as [p|] eqn:Hp; [|left; by eexists].
  apply read_object_Some in Hp. case_bool_decide; [right; by exists p|left; by eexists].
Qed.

Lemma read_room_bind {B} a c (f : option CallRoomRecord → M State CallError B) s :
  (room ← read_room a c; f room) s = f (read_object (st_rooms s) (ac_tenant_id a) (actor_app_id a) c) s.
Proof. done. Qed.

(** A step of the system: a transition under which the media plane's capabilities stay. *)
Definition moves s s' : Prop := call_tr s s' ∧ describe (st_media s') = describe (st_media s).
Lemma moves_same s s' :
  st_rooms s' = st_rooms s → st_invites s' = st_invites s → st_participants s' = st_participants s →
  st_media s' = st_media s → moves s s'.
Proof. intros H1 H2 H3 H4. split; [|by rewrite H4]. apply T_same; [done..|]. intros c. by rewrite H4. Qed.

Lemma room_key a c r s :
  calls_wf s → st_rooms s !! (ac_tenant_id a, c) = Some (actor_app_id a, r) → cr_id r = c.
Proof. intros Hwf Hr. by eapply (wf_rooms s Hwf). Qed.
Lemma owner_of {T} (m : Rows T) (t k app : string) v :
  m !! (t, k) = Some (app, v) → ∀ owner v', m !! (t, k) = Some (owner, v') → owner = app.
Proof. intros ->. naive_solver. Qed.

(** Go past a guard by its case lemma; a guard that fails leaves the state. *)
Ltac pass_guard H :=
  first [rewrite (bind_err _ _ _ _ _ H); by apply moves_same | rewrite (bind_ok _ _ _ _ _ H); clear H].

Lemma set_media_state_moves a c patch s : calls_wf s → moves s (set_media_state a c patch s).2.
Proof.
  intros Hwf. unfold set_media_state.
  destruct (require_live_room_cases a c s) as [[e H]|(r & H & Hr & Hl)]; pass_guard H.
  destruct (own_participant_cases a c s) as [[e H]|(p & H & Hj & Hp)]; pass_guard H.
  destruct (addressed_call s _ _ _ _ _ _ _ _ Hwf Hr Hp) as [Hc _].
  destruct (wf_participants s Hwf _ _ _ _ Hp) as (Hk & _ & _). rewrite Hk in Hp.
  cbv zeta. rewrite (bind_ok _ _ _ _ _ (write_participant_ok a (patched patch p) s (owner_of _ _ _ _ _ Hp))).
  split; [|done]. by eapply T_media with (p := p) (p' := patched patch p).
Qed.

Lemma addressed_invite s t c user app i app' r :
  calls_wf s → st_rooms s !! (t, c) = Some (app', r) →
  st_invites s !! (t, invite_id c user) = Some (app, i) →
  st_invites s !! (t, ci_id i) = Some (app', i) ∧ ci_call_id i = c ∧ ci_id i = invite_id c user
  ∧ ci_invitee_user_id i = user.
Proof.
  intros Hwf Hr Hi. destruct (wf_invites s Hwf _ _ _ _ Hi) as (Hk & Hid & r' & Hr').
  destruct (colon_cut c (ci_call_id i) user (ci_invitee_user_id i)) as [Hc Hu];
    [by eapply (wf_rooms s Hwf)|by eapply (wf_rooms s Hwf)|done|]. rewrite <- Hc in Hr'. rewrite <- Hk.
  simplify_eq. by split_and!.
Qed.

Lemma accept_invite_moves a c now s : calls_wf s → moves s (accept_invite a c now s).2.
Proof.
  intros Hwf. unfold accept_invite.
  destruct (require_live_room_cases a c s) as [[e H]|(r & H & Hr & Hl)]; pass_guard H.
  destruct (require_invitee_cases r a s) as [[e H]|[[H Hby]|(i & H & Hi)]]; pass_guard H; [by apply moves_same|].
  rewrite (room_key a c r s Hwf Hr) in Hi.
  destruct (addressed_invite s _ _ _ _ _ _ _ Hwf Hr Hi) as (Hi' & Hc & _).
  destruct (ci_status i) eqn:Est; try (by apply moves_same). cbv zeta.
  rewrite (bind_ok _ _ _ _ _ (write_invite_ok a (set_status _ _ i) s (owner_of _ _ _ _ _ Hi'))).
  split; [|done]. by eapply T_invite with (i := i).
Qed.
Lemma decline_invite_moves a c now s : calls_wf s → moves s (decline_invite a c now s).2.
Proof.
  intros Hwf. unfold decline_invite.
  destruct (require_live_room_cases a c s) as [[e H]|(r & H & Hr & Hl)]; pass_guard H.
  destruct (require_invitee_cases r a s) as [[e H]|[[H Hby]|(i & H & Hi)]]; pass_guard H; [by apply moves_same|].
  rewrite (room_key a c r s Hwf Hr) in Hi.
  destruct (addressed_invite s _ _ _ _ _ _ _ Hwf Hr Hi) as (Hi' & Hc & _).
  case_bool_decide as Est; [by apply moves_same|]. cbv zeta.
  rewrite (bind_ok _ _ _ _ _ (write_invite_ok a (set_status _ _ i) s (owner_of _ _ _ _ _ Hi'))).
  split; [|done]. by eapply (T_invite _ _ _ _ c r i Invite_Declined).
Qed.

(** *** Ending *)

Lemma finalize_end_spec a c by_ now s r :
  st_rooms s !! (ac_tenant_id a, c) = Some (actor_app_id a, r) → live r → cr_id r = c →
  ∃ s', finalize_end a c by_ now s = (Ok (ended (iso_from_epoch_ms now) r), s')
    ∧ st_rooms s' = <[(ac_tenant_id a, c) := (actor_app_id a, ended (iso_from_epoch_ms now) r)]> (st_rooms s)
    ∧ st_invites s' = st_invites s ∧ st_participants s' = st_participants s
    ∧ st_media s' = release_session c (st_media s).
Proof.
  intros Hr Hl Hid. unfold finalize_end. cbv zeta.
  rewrite read_room_bind,  (proj2 (read_object_Some _ _ _ _ _) Hr).
  rewrite bool_decide_false by done.
  assert (∀ owner r', st_rooms s !! (ac_tenant_id a, cr_id r) = Some (owner, r') → owner = actor_app_id a) as Hown.
  { rewrite Hid. by eapply owner_of. }
  rewrite (bind_ok _ _ _ _ _ (write_room_ok a (ended (iso_from_epoch_ms now) r) s Hown)).
  eexists. split; [by run_M|]. cbn. rewrite Hid. done.
Qed.

Lemma released_release s s' c : st_media s' = release_session c (st_media s) → released c s s'.
Proof. intros E c'. by rewrite E, release_session_spec. Qed.

Lemma end_call_moves a c now s : calls_wf s → moves s (end_call a c now s).2.
Proof.
  intros Hwf. unfold end_call. rewrite read_room_bind.
  destruct (read_object (st_rooms s) _ _ c) as [r|] eqn:Hr; [|by apply moves_same].
  apply read_object_Some in Hr. destruct (negb _); [by apply moves_same|].
  case_bool_decide as Hl; [by apply moves_same|].
  destruct (finalize_end_spec a c (ac_user_id a) now s r) as (s' & -> & Hro & Hin & Hpa & Hme);
    [done|done|by eapply room_key|].
  split; [|cbn; by rewrite Hme, describe_static_release]. eapply T_end; try done. by apply released_release.
Qed.
Lemma elem_filter_bool {A} (f : A → bool) (l : list A) x : x ∈ List.filter f l ↔ x ∈ l ∧ f x = true.
Proof. rewrite !list_elem_of_In. apply filter_In. Qed.

Lemma participants_of_elem s t app c p :
  p ∈ participants_of s t app c ↔ cp_call_id p = c ∧ ∃ k, st_participants s !! (t, k) = Some (app, p).
Proof.
  unfold participants_of. rewrite elem_filter_bool, list_elem_of_fmap, String.eqb_eq. split.
  - intros [([[t' k] [app' p']] & -> & Hk) Hc]. split; [done|]. exists k.
    apply elem_filter_bool in Hk as [Hk [E1%String.eqb_eq E2%String.eqb_eq]%andb_prop]. cbn in E1, E2.
    rewrite elem_of_map_to_list in Hk. by subst.
  - intros [Hc (k & Hk)]. split; [|done]. exists ((t, k), (app, p)). split; [done|].
    apply elem_filter_bool. rewrite elem_of_map_to_list. cbn. by rewrite !String.eqb_refl.
Qed.
Lemma joined_users_elem s t app c u :
  u ∈ joined_users (participants_of s t app c)
  ↔ ∃ k p, st_participants s !! (t, k) = Some (app, p) ∧ cp_call_id p = c ∧ cp_state p = Part_Joined
           ∧ cp_user_id p = u.
Proof.
  unfold joined_users. rewrite elem_of_list_to_set, list_elem_of_fmap. unfold is_joined. split.
  - intros (p & -> & [[Hc (k & Hk)]%participants_of_elem Hj%bool_decide_eq_true]%elem_filter_bool). by exists k, p.
  - intros (k & p & Hk & Hc & Hj & <-). exists p. split; [done|]. apply elem_filter_bool. split.
    + apply participants_of_elem. eauto.
    + by apply bool_decide_eq_true.
Qed.

Lemma leave_call_moves a c now s : calls_wf s → moves s (leave_call a c now s).2.
Proof.
  intros Hwf. unfold leave_call. rewrite read_room_bind.
  destruct (read_object (st_rooms s) _ _ c) as [r|] eqn:Hr; [|by apply moves_same].
  apply read_object_Some in Hr. case_bool_decide as Hl; [by apply moves_same|].
  destruct (own_participant_cases a c s) as [[e H]|(p & H & Hj & Hp)]; pass_guard H. cbv zeta.
  destruct (addressed_call s _ _ _ _ _ _ _ _ Hwf Hr Hp) as [Hc _].
  destruct (wf_participants s Hwf _ _ _ _ Hp) as (Hk & _ & _). rewrite Hk in Hp. clear Hk.
  rewrite (joined_active s (ac_tenant_id a) c (actor_app_id a) r p) by (done || by exists (cp_id p), (actor_app_id a)).
  set (p' := left_at _ p).
  rewrite (bind_ok _ _ _ _ _ (write_participant_ok a p' s (owner_of _ _ _ _ _ Hp))).
  erewrite bind_ok by reflexivity. erewrite bind_ok by reflexivity. rewrite bool_decide_true, andb_true_r by done.
  match goal with |- context [Nat.eqb ?n 0] => destruct (Nat.eqb_spec n 0) as [E|E] end.
  - match goal with |- context [finalize_end _ _ _ _ ?s1] =>
      destruct (finalize_end_spec a c (ac_user_id a) now s1 r) as (s' & -> & Hro & Hin & Hpa & Hme) end;
      [done|done|by eapply room_key|].
    split; [|cbn; by rewrite Hme, describe_static_release].
    eapply (T_last_leave _ _ _ _ c r p p'); try done. by apply released_release.
  - split; [|done]. eapply (T_leave _ _ _ _ c r p p'); try done. cbn.
    match goal with H : length (List.filter is_joined ?l) ≠ 0%nat |- _ =>
      destruct (List.filter is_joined l) as [|q l'] eqn:Eq; [done|] end.
    assert (q ∈ q :: l') as Hq by (by left). rewrite <- Eq in Hq.
    apply elem_filter_bool in Hq as [[Hqc (k & Hq)]%participants_of_elem Hqj%bool_decide_eq_true].
    by exists q, k, (actor_app_id a).
Qed.
(** *** Joining *)

Lemma capacity_cases a c s :
  (∃ e, assert_participant_capacity a c s = (Err e, s))
  ∨ assert_participant_capacity a c s = (Ok tt, s)
    ∧ fits s (ac_tenant_id a) (actor_app_id a) c (ac_user_id a).
Proof.
  unfold assert_participant_capacity, fits. run_M.
  destruct (mc_max_participants _) as [max|]; [|by right]. unfold list_participants.
  set (ps := participants_of s _ _ c). destruct (existsb _ ps) eqn:Ex; cbn [orb].
  - right. split; [done|]. left. apply existsb_exists in Ex as (p & Hp & Hj).
    rewrite !andb_true_iff, !String.eqb_eq in Hj. destruct Hj as [[Hj Hu] _].
    apply elem_of_list_to_set, list_elem_of_fmap. exists p. split; [done|].
    apply elem_filter_bool. by rewrite list_elem_of_In.
  - case_bool_decide; [right; split; [done|by left]|].
    destruct (Nat.ltb_spec max (size ({[ac_user_id a]} ∪ joined_users ps))); [left; by eexists|].
    right. split; [done|by right].
Qed.

(** The invite is accepted on the way in. *)
Lemma accept_on_join_spec a c r (oi : option CallInviteRecord) at_ s :
  calls_wf s → st_rooms s !! (ac_tenant_id a, c) = Some (actor_app_id a, r) →
  match oi with
  | None => cr_created_by r = ac_user_id a
  | Some i => st_invites s !! (ac_tenant_id a, invite_id c (ac_user_id a)) = Some (actor_app_id a, i)
  end →
  ∃ s1, accept_on_join a c at_ oi s = (Ok tt, s1)
    ∧ st_rooms s1 = st_rooms s ∧ st_participants s1 = st_participants s ∧ st_media s1 = st_media s
    ∧ admitted s1 (ac_tenant_id a) (actor_app_id a) c (ac_user_id a)
    ∧ (st_invites s1 = st_invites s
       ∨ ∃ i, st_invites s !! (ac_tenant_id a, ci_id i) = Some (actor_app_id a, i) ∧ ci_call_id i = c
              ∧ st_invites s1 = <[(ac_tenant_id a, ci_id i) := (actor_app_id a, set_status Invite_Accepted at_ i)]>
                                  (st_invites s)).
Proof.
  intros Hwf Hr Hoi. unfold accept_on_join. destruct oi as [i|].
  - destruct (addressed_invite s _ _ _ _ _ _ _ Hwf Hr Hoi) as (Hi & Hc & Hk & _).
    case_bool_decide as Est.
    + exists s. split_and!; try done; [|by left]. exists r. split; [done|]. right. by exists i.
    + rewrite (bind_ok _ _ _ _ _ (write_invite_ok a (set_status _ _ i) s (owner_of _ _ _ _ _ Hi))).
      eexists. split; [reflexivity|]. split_and!; try done; [|right; by exists i].
      exists r. split; [done|]. right. exists (set_status Invite_Accepted at_ i). split; [|done].
      cbn. rewrite <- Hk. apply lookup_insert_eq.
  - exists s. split_and!; try done; [|by left]. exists r. split; [done|by left].
Qed.
Lemma token_issued c pt now o s :
  has_session (st_media s) c = true →
  ∃ g m, lift_media (issue_join_token c pt now o) s = (Ok g, with_media m s)
    ∧ jg_call_id g = c ∧ jg_user_id g = mp_user_id pt ∧ jg_device_id g = mp_device_id pt
    ∧ describe m = describe (st_media s) ∧ ∀ c', has_session m c' = has_session (st_media s) c'.
Proof.
  intros Hs. unfold lift_media. pose proof (issue_join_token_spec (st_media s) c pt now o) as [Hg Hkeep].
  pose proof (describe_static_token (st_media s) c pt now o) as Hd. rewrite Hs in Hg.
  destruct (issue_join_token c pt now o (st_media s)) as [res m]. cbn in *.
  destruct Hg as (g & -> & Hc & Hu & Hdev). by exists g, m.
Qed.

(** A join past its guards changes the tables and is answered with a grant. *)
Lemma enter_call_spec a c r now at_ s :
  calls_wf s → st_rooms s !! (ac_tenant_id a, c) = Some (actor_app_id a, r) → live r →
  ∀ s1, st_rooms s1 = st_rooms s → st_participants s1 = st_participants s → st_media s1 = st_media s →
  ∃ res s', enter_call a c r at_ now s1 = (Ok res, s')
    ∧ cg_call_id (jc_media_grant res) = c ∧ cg_user_id (jc_media_grant res) = ac_user_id a
    ∧ cg_device_id (jc_media_grant res) = ac_device_id a ∧ cr_state (jc_room res) = Room_Active
    ∧ st_rooms s' = (if bool_decide (cr_state r = Room_Ringing)
                     then <[(ac_tenant_id a, c) := (actor_app_id a, activated at_ r)]> (st_rooms s) else st_rooms s)
    ∧ st_invites s' = st_invites s1
    ∧ st_participants s' = <[(ac_tenant_id a, participant_id c (ac_user_id a) (ac_device_id a))
                             := (actor_app_id a, joined_participant a c at_)]> (st_participants s)
    ∧ describe (st_media s') = describe (st_media s) ∧ same_sessions s s'.
Proof.
  intros Hwf Hr Hl s1 Hro Hpa Hme. unfold enter_call. cbv zeta.
  erewrite bind_ok.
  2:{ apply write_participant_ok. intros owner q Hq. rewrite Hpa in Hq.
      by destruct (addressed_call s _ _ _ _ _ _ _ _ Hwf Hr Hq). }
  assert (has_session (st_media s) c = true) as Hs.
  { rewrite (wf_media s Hwf _ _ _ _ Hr). by rewrite bool_decide_false. }
  pose proof (room_key a c r s Hwf Hr) as Hid. unfold live in Hl.
  case_bool_decide as Est.
  - erewrite bind_ok.
    2:{ erewrite bind_ok; [reflexivity|]. apply write_room_ok. cbn. rewrite Hro, Hid. by eapply owner_of. }
    erewrite bind_ok by reflexivity.
    match goal with |- context [mbind _ (lift_media (issue_join_token ?c ?pt ?now ?o)) ?s2] =>
      destruct (token_issued c pt now o s2) as (g & m & Hg & ? & ? & ? & Hd & Hkeep) end; [cbn; by rewrite Hme|].
    rewrite (bind_ok _ _ _ _ _ Hg). eexists _, _. split; [reflexivity|]. cbn in *.
    rewrite Hro, Hid, Hpa. rewrite Hme in *. by split_and!.
  - erewrite (bind_ok (mret r)) by reflexivity. erewrite bind_ok by reflexivity.
    match goal with |- context [mbind _ (lift_media (issue_join_token ?c ?pt ?now ?o)) ?s2] =>
      destruct (token_issued c pt now o s2) as (g & m & Hg & ? & ? & ? & Hd & Hkeep) end; [cbn; by rewrite Hme|].
    rewrite (bind_ok _ _ _ _ _ Hg). eexists _, _. split; [reflexivity|]. cbn in *.
    rewrite Hro, Hpa. rewrite Hme in *. split_and!; try done. by destruct (cr_state r).
Qed.
(** The invite a join goes by: none for the creator. *)
Definition comes_by s a (c : string) (r : CallRoomRecord) (oi : option CallInviteRecord) : Prop :=
  match oi with
  | None => cr_created_by r = ac_user_id a
  | Some i => cr_created_by r ≠ ac_user_id a
              ∧ st_invites s !! (ac_tenant_id a, invite_id c (ac_user_id a)) = Some (actor_app_id a, i)
  end ∧ resolved_invite oi = false.
(** Who may join: the call is live, the user created it or holds an open invite, and fits. *)
Definition joinable s a (c : string) : Prop :=
  ∃ r oi, st_rooms s !! (ac_tenant_id a, c) = Some (actor_app_id a, r) ∧ live r ∧ comes_by s a c r oi
          ∧ fits s (ac_tenant_id a) (actor_app_id a) c (ac_user_id a).
(** What a join that gets in leaves and returns. *)
Definition entered s a (c : string) (now : Z) (res : JoinCallResult) s' : Prop :=
  moves s s'
  ∧ cg_call_id (jc_media_grant res) = c ∧ cg_user_id (jc_media_grant res) = ac_user_id a
  ∧ cg_device_id (jc_media_grant res) = ac_device_id a ∧ cr_state (jc_room res) = Room_Active
  ∧ st_participants s' !! (ac_tenant_id a, participant_id c (ac_user_id a) (ac_device_id a))
    = Some (actor_app_id a, joined_participant a c (iso_from_epoch_ms now)).

Lemma require_live_room_ok a c r s :
  st_rooms s !! (ac_tenant_id a, c) = Some (actor_app_id a, r) → live r → require_live_room a c s = (Ok r, s).
Proof.
  intros Hr%read_object_Some Hl. unfold require_live_room. rewrite read_room_bind, Hr.
  by rewrite bool_decide_false.
Qed.
Lemma require_invitee_ok a c r oi s :
  cr_id r = c → comes_by s a c r oi → require_invitee_or_creator r a s = (Ok oi, s).
Proof.
  intros Hid [Hoi _]. unfold require_invitee_or_creator, read_invite.
  destruct oi as [i|]; [destruct Hoi as [Hne Hi%read_object_Some]|rewrite Hoi; by rewrite String.eqb_refl].
  destruct (String.eqb_spec (cr_created_by r) (ac_user_id a)); [done|]. run_M. by rewrite Hid, Hi.
Qed.
Lemma capacity_ok a c s :
  fits s (ac_tenant_id a) (actor_app_id a) c (ac_user_id a) → assert_participant_capacity a c s = (Ok tt, s).
Proof.
  unfold assert_participant_capacity, fits. run_M. destruct (mc_max_participants _) as [max|]; [|done].
  unfold list_participants. set (ps := participants_of s _ _ c). destruct (existsb _ ps); [done|].
  case_bool_decide as Hin; [done|]. intros [?|Hle]; [done|]. cbn [orb].
  destruct (Nat.ltb_spec max (size ({[ac_user_id a]} ∪ joined_users ps))); [lia|done].
Qed.

Lemma join_call_enters a c now s :
  calls_wf s → joinable s a c → ∃ res s', join_call a c now s = (Ok res, s') ∧ entered s a c now res s'.
Proof.
  intros Hwf (r & oi & Hr & Hl & Hoi & Hfit). unfold join_call.
  rewrite (bind_ok _ _ _ _ _ (require_live_room_ok a c r s Hr Hl)).
  rewrite (bind_ok _ _ _ _ _ (require_invitee_ok a c r oi s (room_key a c r s Hwf Hr) Hoi)).
  destruct Hoi as [Hoi ->]. cbv zeta. rewrite (bind_ok _ _ _ _ _ (capacity_ok a c s Hfit)).
  set (at_ := iso_from_epoch_ms now).
  destruct (accept_on_join_spec a c r oi at_ s Hwf Hr) as (s1 & H & Hro & Hpa & Hme & Hadm & Hin).
  { destruct oi; [by destruct Hoi|done]. }
  rewrite (bind_ok _ _ _ _ _ H). clear H.
  destruct (enter_call_spec a c r now at_ s Hwf Hr Hl s1 Hro Hpa Hme)
    as (res & s' & H & Hg1 & Hg2 & Hg3 & Hst & Hro' & Hin' & Hpa' & Hd & Hse).
  exists res, s'. split; [done|]. unfold entered. split_and!; try done; [|by rewrite Hpa', lookup_insert_eq]. split; [|done].
  eapply (T_join _ _ (ac_tenant_id a) (actor_app_id a) c r (joined_participant a c at_) at_); try done.
  - by rewrite Hin'.
  - destruct Hadm as (r1 & Hr1 & Hu). rewrite Hro, Hr in Hr1. injection Hr1 as <-. unfold admitted.
    rewrite Hro', Hin'. case_bool_decide; [|by exists r].
    exists (activated at_ r). rewrite lookup_insert_eq. done.
Qed.

(** Any other join is refused with nothing changed. *)
Lemma join_call_cases a c now s : calls_wf s → (∃ e, join_call a c now s = (Err e, s)) ∨ joinable s a c.
Proof.
  intros Hwf. unfold join_call.
  destruct (require_live_room_cases a c s) as [[e H]|(r & H & Hr & Hl)];
    [left; rewrite (bind_err _ _ _ _ _ H); by eexists|rewrite (bind_ok _ _ _ _ _ H); clear H].
  assert ((∃ e, require_invitee_or_creator r a s = (Err e, s))
    ∨ ∃ oi, require_invitee_or_creator r a s = (Ok oi, s) ∧ (resolved_invite oi = false → comes_by s a c r oi))
    as [[e H]|(oi & H & Hoi)].
  { destruct (require_invitee_cases r a s) as [[e H]|[[H Hby]|(i & H & Hi)]]; [left; by exists e|..]; right;
      [by exists None|]. rewrite (room_key a c r s Hwf Hr) in Hi. exists (Some i). split; [done|]. intros ?.
    split; [|done]. split; [|done]. intros Hby. revert H. unfold require_invitee_or_creator.
    rewrite Hby, String.eqb_refl. done. }
  { left. rewrite (bind_err _ _ _ _ _ H). by eexists. }
  rewrite (bind_ok _ _ _ _ _ H). clear H. destruct (resolved_invite oi) eqn:Ho; [left; by eexists|]. cbv zeta.
  destruct (capacity_cases a c s) as [[e' H]|[H Hfit]]; [left; rewrite (bind_err _ _ _ _ _ H); by eexists|].
  right. exists r, oi. auto.
Qed.
Lemma join_call_moves a c now s : calls_wf s → moves s (join_call a c now s).2.
Proof.
  intros Hwf. destruct (join_call_cases a c now s Hwf) as [[e ->]|Hj]; [by apply moves_same|].
  destruct (join_call_enters a c now s Hwf Hj) as (res & s' & -> & ? & _). done.
Qed.

(** *** Creating *)

Lemma send_invites_spec a c at_ l s :
  (∀ u owner i, st_invites s !! (ac_tenant_id a, invite_id c u) = Some (owner, i) → owner = actor_app_id a) →
  ∃ s', send_invites a c at_ l s = (Ok (ringing_invite a c at_ <$> l), s')
    ∧ st_rooms s' = st_rooms s ∧ st_participants s' = st_participants s ∧ st_media s' = st_media s
    ∧ st_invites s' = foldl (λ m i, <[(ac_tenant_id a, ci_id i) := (actor_app_id a, i)]> m) (st_invites s)
                        (ringing_invite a c at_ <$> l).
Proof.
  revert s. induction l as [|u l IH]; intros s Hown; cbn [send_invites]; [by exists s|]. cbv zeta.
  erewrite bind_ok by (apply write_invite_ok; apply (Hown u)). erewrite bind_ok by reflexivity.
  match goal with |- context [mbind _ (send_invites _ _ _ _) ?s2] =>
    destruct (IH s2) as (s' & H & Hro & Hpa & Hme & Hin) end.
  { cbn. intros u' owner i [[_ [= <- _]]|[_ Hi]]%lookup_insert_Some; [done|]. by eapply Hown. }
  rewrite (bind_ok _ _ _ _ _ H). exists s'. by rewrite Hro, Hpa, Hme, Hin.
Qed.

Lemma expected_capacity_cases n s :
  (∃ e, check_expected_capacity n s = (Err e, s)) ∨ check_expected_capacity n s = (Ok tt, s).
Proof.
  unfold check_expected_capacity. run_M. destruct (mc_max_participants _); [|by right].
  destruct (Nat.ltb _ _); [left; by eexists|by right].
Qed.

Lemma create_call_moves a input c now s :
  calls_wf s → op_fresh s (Op_create a input c now) → moves s (create_call a input c now s).2.
Proof.
  intros Hwf [Hn Hf]. unfold create_call. cbv zeta. set (l := dedupe _ _).
  case_bool_decide; [by apply moves_same|].
  destruct (expected_capacity_cases (length l + 1) s) as [[e H']|H']; pass_guard H'.
  set (options := {| ao_region_hint := _ |}). set (at_ := iso_from_epoch_ms now).
  pose proof (describe_static (st_media s) c options) as Hd.
  destruct (allocate_session c options (st_media s)) as [res m] eqn:Ha. cbn in Hd.
  assert (lift_media (allocate_session c options) s
          = (match res with Ok x => Ok x | Err e => Err (CE_Media e) end, with_media m s)) as HL
    by (unfold lift_media; by rewrite Ha).
  destruct res as [session|e].
  2:{ rewrite (bind_err _ _ _ _ _ HL). split; [|done]. apply T_same; [done..|]. intros c'.
      by apply (allocate_session_failed _ _ _ _ _ Ha). }
  rewrite (bind_ok _ _ _ _ _ HL). clear HL. set (room := {| cr_id := c |}).
  erewrite bind_ok by (apply write_room_ok; cbn; rewrite Hf; done). erewrite bind_ok by reflexivity.
  match goal with |- context [mbind _ (send_invites _ _ _ _) ?s2] =>
    destruct (send_invites_spec a c at_ l s2) as (s' & H' & Hro & Hpa & Hme & Hin) end.
  { cbn. intros u owner i Hi. exfalso. destruct (wf_invites s Hwf _ _ _ _ Hi) as (_ & Hid & r & Hr).
    destruct (colon_cut c (ci_call_id i) u (ci_invitee_user_id i)) as [Hc _]; [done|by eapply (wf_rooms s Hwf)|done|].
    by rewrite <- Hc, Hf in Hr. }
  rewrite (bind_ok _ _ _ _ _ H'). cbn in *. split; [|by cbn; rewrite Hme].
  eapply (T_create _ _ (ac_tenant_id a) (actor_app_id a) c room (ringing_invite a c at_ <$> l)); try done.
  - apply Forall_fmap, Forall_true. done.
  - cbn. rewrite Hme. by apply (allocate_session_spec _ _ _ _ _ Ha).
Qed.

Lemma call_step_moves s op : calls_wf s → op_fresh s op → moves s (call_step s op).
Proof.
  intros Hwf Hf. destruct op; cbn [call_step];
    auto using create_call_moves, accept_invite_moves, decline_invite_moves, join_call_moves, set_media_state_moves,
      leave_call_moves, end_call_moves.
Qed.
(** ** Reachable states *)

Lemma calls_reachable_wf m s : reachable m s → calls_wf s.
Proof.
  induction 1 as [|s op Hr IH Hf]; [split; cbn; intros *; by rewrite lookup_empty|].
  destruct (call_step_moves s op IH Hf) as [Htr _]. by eapply calls_wf_step.
Qed.
Lemma reachable_describe m s : reachable m s → describe (st_media s) = describe m.
Proof.
  induction 1 as [|s op Hr IH Hf]; [done|].
  destruct (call_step_moves s op (calls_reachable_wf m s Hr) Hf) as [_ Hd]. by rewrite Hd.
Qed.

(** *** Capacity *)

Definition within (s : State) : Prop :=
  ∀ max, mc_max_participants (describe (st_media s)) = Some max →
  ∀ t app c, (size (joined_users (participants_of s t app c)) ≤ max)%nat.

(** One row written: the users joined in a call grow at most by that row's user. *)
Lemma joined_users_insert s s' t0 k0 app0 p0 t app c :
  st_participants s' = <[(t0, k0) := (app0, p0)]> (st_participants s) →
  joined_users (participants_of s' t app c)
  ⊆ joined_users (participants_of s t app c)
    ∪ (if bool_decide (cp_state p0 = Part_Joined ∧ t = t0 ∧ app = app0 ∧ c = cp_call_id p0)
       then {[cp_user_id p0]} else ∅).
Proof.
  intros Hs u (k & p & Hp & Hc & Hj & <-)%joined_users_elem. rewrite Hs in Hp.
  apply lookup_insert_Some in Hp as [[[= <- <-] [= <- <-]]|[_ Hp]]; apply elem_of_union; [right|left].
  - rewrite bool_decide_true by done. by apply elem_of_singleton.
  - apply joined_users_elem. by exists k, p.
Qed.
Lemma joined_users_kept s s' t0 app0 p p' t app c :
  st_participants s' = <[(t0, cp_id p) := (app0, p')]> (st_participants s) →
  st_participants s !! (t0, cp_id p) = Some (app0, p) → same_identity p p' → cp_state p = Part_Joined →
  joined_users (participants_of s' t app c) ⊆ joined_users (participants_of s t app c).
Proof.
  intros Hs Hp (_ & Hc & Hu & _) Hj. rewrite (joined_users_insert s s' t0 _ app0 p' t app c Hs).
  case_bool_decide as H; [|set_solver]. destruct H as (_ & -> & -> & ->).
  assert (cp_user_id p' ∈ joined_users (participants_of s t0 app0 (cp_call_id p'))); [|set_solver].
  apply joined_users_elem. exists (cp_id p), p. by rewrite Hu, Hc.
Qed.

Lemma within_step s s' : moves s s' → within s → within s'.
Proof.
  intros [Htr Hd] Hw max Hmax t app c. rewrite Hd in Hmax. pose proof (Hw max Hmax t app c) as Hold.
  assert (joined_users (participants_of s' t app c) ⊆ joined_users (participants_of s t app c) → (size (joined_users (participants_of s' t app c)) ≤ max)%nat) as Hle.
  { intros Hsub%subseteq_size. lia. }
  destruct Htr as [_ _ Hpa _|????? _ _ _ _ _ _ _ Hpa _|??????? _ _ _ _ _ _ Hpa _ _
    |t0 app0 c0 r0 p at_ _ _ Hc _ _ _ _ Hfit Hpa _ _|?????? _ _ Hp _ Hj Hs _ _ _ Hpa _|?????? _ _ Hp _ Hj Hs _ _ _ _ Hpa _
    |??????? _ _ Hp _ Hj Hs _ _ _ Hpa _|????? _ _ _ _ Hpa _];
    try (apply Hle; unfold participants_of; by rewrite Hpa);
    try (apply Hle; by eapply joined_users_kept).
  pose proof (joined_users_insert s s' _ _ _ _ t app c Hpa) as Hsub. revert Hsub.
  case_bool_decide as H; [|intros Hsub; apply Hle; set_solver]. destruct H as (_ & -> & -> & ->). intros Hsub.
  unfold fits in Hfit. rewrite Hmax, <- Hc in Hfit. destruct Hfit as [Hin|Hsize].
  { apply Hle. intros u Hu%Hsub. apply elem_of_union in Hu as [?|Hu]; [done|].
    apply elem_of_singleton in Hu as ->. done. }
  etrans; [apply subseteq_size, Hsub|]. by rewrite union_comm_L.
Qed.

Lemma empty_joined m t app c : joined_users (participants_of (empty_calls m) t app c) = ∅.
Proof.
  apply elem_of_equiv_empty_L. intros u (k & p & Hp & _)%joined_users_elem. cbn in Hp. by rewrite lookup_empty in Hp.
Qed.

(** *** Ended calls *)

Definition same_call (s s' : State) (t c : string) : Prop :=
  st_rooms s' !! (t, c) = st_rooms s !! (t, c)
  ∧ (∀ u, st_invites s' !! (t, invite_id c u) = st_invites s !! (t, invite_id c u))
  ∧ (∀ u d, st_participants s' !! (t, participant_id c u d) = st_participants s !! (t, participant_id c u d)).

Lemma ended_invites s s' t c app r u :
  calls_wf s → invites_form s s' → st_rooms s !! (t, c) = Some (app, r) → cr_state r = Room_Ended →
  st_invites s' !! (t, invite_id c u) = st_invites s !! (t, invite_id c u).
Proof.
  intros Hwf Hform Hr He. destruct (wf_rooms s Hwf _ _ _ _ Hr) as [_ Hn].
  destruct Hform as [->|[(t0 & app0 & c0 & r0 & l & Hn0 & Hf & _ & Hl & ->)
    |(t0 & app0 & c0 & r0 & i & i' & Hr0 & Hl0 & Hc & Hi & _ & ->)]]; [done|..].
  - apply insert_invites_other. intros j Hj [= -> Hk]. rewrite Forall_forall in Hl. destruct (Hl j Hj) as [_ Hid].
    destruct (colon_cut c c0 u (ci_invitee_user_id j)) as [-> _];
      [done..|unfold invite_id in *; congruence|]. by rewrite Hf in Hr.
  - apply lookup_insert_ne. intros [= -> Hk]. destruct (wf_invites s Hwf _ _ _ _ Hi) as (_ & Hid & _).
    destruct (colon_cut c c0 u (ci_invitee_user_id i)) as [-> _];
      [done|by eapply (wf_rooms s Hwf)|unfold invite_id in *; congruence|]. simplify_eq. done.
Qed.
Lemma ended_participants s s' t c app r u d :
  calls_wf s → participants_form s s' → st_rooms s !! (t, c) = Some (app, r) → cr_state r = Room_Ended →
  st_participants s' !! (t, participant_id c u d) = st_participants s !! (t, participant_id c u d).
Proof.
  intros Hwf Hform Hr He. destruct (wf_rooms s Hwf _ _ _ _ Hr) as [_ Hn].
  destruct Hform as [->|(t0 & app0 & c0 & r0 & p' & Hr0 & Hl0 & Hc & Hcase & ->)]; [done|].
  apply lookup_insert_ne. intros [= -> Hk].
  assert (cp_id p' = participant_id c0 (cp_user_id p') (cp_device_id p')) as Hid.
  { destruct Hcase as [[? _]|(p & Hp & Hs)]; [done|]. destruct (wf_participants s Hwf _ _ _ _ Hp) as (_ & Hid & _).
    destruct Hs as (_ & Hc' & -> & ->). congruence. }
  destruct (colon_cut c c0 (u +:+ ":" +:+ d) (cp_user_id p' +:+ ":" +:+ cp_device_id p')) as [-> _];
    [done|by eapply (wf_rooms s Hwf)|unfold participant_id in *; congruence|]. simplify_eq. done.
Qed.
Lemma ended_step s s' t c app r :
  calls_wf s → call_tr s s' → st_rooms s !! (t, c) = Some (app, r) → cr_state r = Room_Ended → same_call s s' t c.
Proof.
  intros Hwf Htr Hr He. split_and!.
  - destruct (room_later s s' t c app r (tr_rooms_form s s' Htr) Hr) as (r' & Hr' & _ & [Hl| ->]); [done|congruence].
  - intros u. eapply ended_invites; [done|by apply tr_invites_form|done..].
  - intros u d. eapply ended_participants; [done|by apply tr_participants_form|done..].
Qed.

Definition run_calls (s : State) (ops : list CallOp) : State := foldl call_step s ops.
Fixpoint ops_fresh (s : State) (ops : list CallOp) : Prop :=
  match ops with [] => True | op :: ops' => op_fresh s op ∧ ops_fresh (call_step s op) ops' end.
Lemma run_calls_reachable m s ops : reachable m s → ops_fresh s ops → reachable m (run_calls s ops).
Proof.
  revert s. induction ops as [|op ops IH]; intros s Hr Hf; [done|]. destruct Hf as [Hf Hfs].
  cbn [run_calls foldl]. apply IH; [by constructor|done].
Qed.

(** ** Theorems *)

(** Once a call has ended nothing any caller does changes it: its room, invites and
    participant rows stay as they are, its media session stays gone, and nobody signals on it. *)
Theorem ended_call_frozen (m : Media) (s : State) (ops : list CallOp) (t app c : string) (r : CallRoomRecord) :
  reachable m s → ops_fresh s ops →
  st_rooms s !! (t, c) = Some (app, r) → cr_state r = Room_Ended →
  same_call s (run_calls s ops) t c ∧ has_session (st_media (run_calls s ops)) c = false
  ∧ ∀ u, is_signal_member (run_calls s ops) t app c u = false.
Proof.
  intros Hreach Hf Hr He.
  assert (same_call s (run_calls s ops) t c) as Hsame.
  { revert s Hreach Hf Hr. induction ops as [|op ops IH]; intros s Hreach Hf Hr; [by split_and!|].
    destruct Hf as [Hf Hfs]. pose proof (calls_reachable_wf m s Hreach) as Hwf.
    destruct (call_step_moves s op Hwf Hf) as [Htr _].
    destruct (ended_step s _ t c app r Hwf Htr Hr He) as (H1 & H2 & H3).
    destruct (IH (call_step s op)) as (H1' & H2' & H3'); [by constructor|done|by rewrite H1|].
    split_and!; cbn [run_calls foldl]; intros; unfold run_calls in *; congruence. }
  split; [done|]. destruct Hsame as [Hroom _]. rewrite Hr in Hroom. split.
  - rewrite (wf_media _ (calls_reachable_wf m _ (run_calls_reachable m s ops Hreach Hf)) _ _ _ _ Hroom). by rewrite He.
  - intros u. unfold is_signal_member. apply read_object_Some in Hroom. by rewrite Hroom, bool_decide_true.
Qed.

(** In every reachable state the distinct users joined in a call are at most what the
    media plane takes, whatever users and devices joined, rejoined and left. *)
Theorem call_capacity (m : Media) (s : State) (max : nat) (t app c : string) :
  reachable m s → mc_max_participants (describe m) = Some max →
  (size (joined_users (participants_of s t app c)) ≤ max)%nat.
Proof.
  intros Hr Hmax. assert (within s) as Hw; [|apply Hw; by rewrite (reachable_describe m s Hr)].
  clear Hmax. induction Hr as [|s op Hr IH Hf].
  - intros max' _ t' app' c'. rewrite empty_joined, size_empty. lia.
  - eapply within_step; [|exact IH]. apply call_step_moves; [by eapply calls_reachable_wf|done].
Qed.

(** C24: In every reachable state a ringing call has nobody in it and an active one has
    somebody; the media plane holds a session for a call exactly until the call ends; and
    every participant row is of a user who created the call or accepted an invite to it. *)
Theorem call_state_invariant (m : Media) (s : State) :
  reachable m s →
  (∀ t c app r, st_rooms s !! (t, c) = Some (app, r) →
     match cr_state r with
     | Room_Ringing => ¬ ∃ p, joined_in s t c p
     | Room_Active => ∃ p, joined_in s t c p
     | Room_Ended => True
     end
     ∧ has_session (st_media s) c = negb (bool_decide (cr_state r = Room_Ended)))
  ∧ (∀ t k app p, st_participants s !! (t, k) = Some (app, p) → admitted s t app (cp_call_id p) (cp_user_id p)).
Proof.
  intros Hwf%calls_reachable_wf. split.
  - intros t c app r Hr. split; [by eapply (wf_state s Hwf)|by eapply (wf_media s Hwf)].
  - intros t k app p Hp. by eapply (wf_participants s Hwf).
Qed.

Lemma participant_invited s t app c u r :
  calls_wf s → st_rooms s !! (t, c) = Some (app, r) → cr_created_by r ≠ u →
  existsb (λ p, String.eqb (cp_user_id p) u) (participants_of s t app c) = true →
  ∃ i, st_invites s !! (t, invite_id c u) = Some (app, i) ∧ ci_status i = Invite_Accepted.
Proof.
  intros Hwf Hr Hne (p & Hp & Hu%String.eqb_eq)%existsb_exists.
  apply list_elem_of_In, participants_of_elem in Hp as (Hc & k & Hp).
  destruct (wf_participants s Hwf _ _ _ _ Hp) as (_ & _ & r' & Hr' & Hadm). rewrite Hc in *.
  rewrite Hr in Hr'. injection Hr' as <-. rewrite Hu in Hadm. by destruct Hadm.
Qed.

(** In a reachable state a user signals on a call exactly when the call is live and they
    created it or hold an invite that is ringing or accepted: the scan of the participant rows
    admits nobody further. *)
Theorem signal_members_exact (m : Media) (s : State) (t app c u : string) :
  reachable m s →
  is_signal_member s t app c u = true
  ↔ ∃ r, st_rooms s !! (t, c) = Some (app, r) ∧ cr_state r ≠ Room_Ended
         ∧ (cr_created_by r = u
            ∨ ∃ i, st_invites s !! (t, invite_id c u) = Some (app, i)
                   ∧ (ci_status i = Invite_Ringing ∨ ci_status i = Invite_Accepted)).
Proof.
  intros Hwf%calls_reachable_wf. unfold is_signal_member. split.
  - destruct (read_object (st_rooms s) t app c) as [r|] eqn:Hr; [|done]. apply read_object_Some in Hr.
    case_bool_decide as Hl; [done|]. intros H. exists r. split_and!; [done..|].
    destruct (String.eqb_spec (cr_created_by r) u) as [?|Hne]; [by left|].
    right. destruct (read_object (st_invites s) t app (invite_id c u)) as [i|] eqn:Hi;
      [apply read_object_Some in Hi; destruct (ci_status i) eqn:Est; [by eauto|by eauto|..]|];
      (edestruct participant_invited as (i' & Hi' & Hacc); [exact Hwf|exact Hr|exact Hne| |by eauto]);
      [..|exact H]; cbn in H; by rewrite Est in H.
  - intros (r & Hr%read_object_Some & Hl & Hu). rewrite Hr, bool_decide_false by done.
    destruct (String.eqb_spec (cr_created_by r) u) as [|Hne]; [done|].
    destruct Hu as [?|(i & Hi%read_object_Some & Hst)]; [done|]. rewrite Hi. unfold resolved_invite.
    by destruct Hst as [-> | ->].
Qed.
End Lifecycle.

(** ** A sample call

    Two users over the peer-to-peer fake: one calls, both join, the creator ends it. *)
Module SampleCalls.
Definition alice : CallActor := call_actor "alice" "phone".
Definition bob : CallActor := call_actor "bob" "laptop".
Definition input : CreateCallInput :=
  {| in_conversation_id := "conv"; in_invitee_user_ids := ["bob"; "alice"; "bob"]; in_kind := None; in_region_hint := None |}.
Definition ringing_ops : list CallOp := [Op_create alice input "call-1" 1000].
Definition active_ops : list CallOp := ringing_ops ++ [Op_join alice "call-1" 2000; Op_join bob "call-1" 3000].
Definition ended_ops : list CallOp := active_ops ++ [Op_end alice "call-1" 4000].
Definition later_ops : list CallOp :=
  [Op_join bob "call-1" 5000; Op_accept bob "call-1" 5000; Op_leave alice "call-1" 5000].
Definition after (ops : list CallOp) : CallState Fake.FakeState := run_calls (empty_calls Fake.p2p) ops.
Lemma create_then_fresh ops :
  Forall (λ op, match op with Op_create _ _ _ _ => False | _ => True end) ops →
  ops_fresh (empty_calls Fake.p2p) (ringing_ops ++ ops).
Proof.
  intros Hops. split; [split; [reflexivity|intros t; apply lookup_empty]|].
  generalize (call_step (empty_calls Fake.p2p) (Op_create alice input "call-1" 1000)) as s.
  induction Hops as [|op ops Hop _ IH]; intros s; [done|]. split; [by destruct op|apply IH].
Qed.
Lemma ringing_reachable : reachable Fake.p2p (after ringing_ops).
Proof. apply run_calls_reachable; [constructor|apply (create_then_fresh []); by constructor]. Qed.
Lemma active_reachable : reachable Fake.p2p (after active_ops).
Proof. apply run_calls_reachable; [constructor|apply create_then_fresh; by repeat constructor]. Qed.
Lemma ended_reachable : reachable Fake.p2p (after ended_ops).
Proof.
  apply run_calls_reachable; [constructor|]. unfold ended_ops, active_ops. rewrite <- app_assoc.
  apply create_then_fresh. by repeat constructor.
Qed.
(** Read a row through a projection, so that only the projection is evaluated. *)
Lemma row_by {T A : Type} (m : Rows T) (f : T → A) (k : string * string) (app : string) (x : A) :
  (λ v, (v.1, f v.2)) <$> m !! k = Some (app, x) → ∃ v, m !! k = Some (app, v) ∧ f v = x.
Proof. destruct (m !! k) as [[app' v]|]; [|done]. intros [= -> <-]. by exists v. Qed.
End SampleCalls.
Import SampleCalls.

Lemma call_capacity_witness :
  joined_users (participants_of (after active_ops) "_default" "_default" "call-1") = {["alice"; "bob"]}
  ∧ (size (joined_users (participants_of (after active_ops) "_default" "_default" "call-1")) ≤ 2)%nat.
Proof.
  split; [vm_compute; reflexivity|]. apply (call_capacity Fake.p2p); [exact active_reachable|reflexivity].
Defined.

Lemma ended_call_frozen_witness :
  same_call (after ended_ops) (run_calls (after ended_ops) later_ops) "_default" "call-1"
  ∧ has_session (st_media (run_calls (after ended_ops) later_ops)) "call-1" = false
  ∧ ∀ u, is_signal_member (run_calls (after ended_ops) later_ops) "_default" "_default" "call-1" u = false.
Proof.
  destruct (row_by (st_rooms (after ended_ops)) cr_state ("_default", "call-1") "_default"
              Room_Ended ltac:(vm_compute; reflexivity)) as (r & Hr & He).
  exact (ended_call_frozen Fake.p2p (after ended_ops) later_ops "_default" "_default" "call-1" r
           ended_reachable (conj I (conj I (conj I I))) Hr He).
Defined.


Lemma call_state_invariant_witness :
  (∃ p, joined_in (after active_ops) "_default" "call-1" p)
  ∧ has_session (st_media (after active_ops)) "call-1" = true.
Proof.
  destruct (call_state_invariant Fake.p2p (after active_ops) active_reachable) as [H _].
  destruct (row_by (st_rooms (after active_ops)) cr_state ("_default", "call-1") "_default"
              Room_Active ltac:(vm_compute; reflexivity)) as (r & Hr & Ha).
  specialize (H _ _ _ _ Hr). rewrite Ha in H. exact H.
Defined.

Lemma signal_members_exact_witness :
  is_signal_member (after ringing_ops) "_default" "_default" "call-1" "bob" = true
  ∧ is_signal_member (after ringing_ops) "_default" "_default" "call-1" "eve" = false.
Proof.
  split; [|reflexivity]. apply (signal_members_exact Fake.p2p); [exact ringing_reachable|].
  destruct (row_by (st_rooms (after ringing_ops)) cr_state ("_default", "call-1") "_default"
              Room_Ringing ltac:(vm_compute; reflexivity)) as (r & Hr & Hst).
  destruct (row_by (st_invites (after ringing_ops)) ci_status ("_default", invite_id "call-1" "bob") "_default"
              Invite_Ringing ltac:(vm_compute; reflexivity)) as (i & Hi & Hring).
  exists r. split; [exact Hr|]. split; [by rewrite Hst|]. right. exists i. auto.
Defined.
