(* ===== verification/Apps.v ===== *)
(** * The multi-app registry ([frick-server/src/apps.rs])

    Construction with its checks, routing of a request path to the app mounted
    at the longest prefix, and the storage partition of an app. The per-app
    projection and search registries are shared objects: an entry holds their
    handles. *)

From Stdlib Require Import ZArith Lia Ascii String.
From stdpp Require Import base gmap strings list sorting pretty.
From S2P Require Import Prelude Schema StoreBase Encryption.

Module Apps.

Definition DEFAULT_APP_ID : string := "_default".

Record AppEntry : Type := {
  ae_id : string; ae_base_path : string; ae_schema : FrickSchema;
  ae_projections : nat; ae_search : nat;
}.
Record AppResolution : Type := { ar_app_id : string; ar_relative_path : string }.
Record AppDescriptor : Type := {
  ap_id : string; ap_base_path : string; ap_schema_id : string; ap_schema_revision : Z;
}.
Record FrickAppRegistry : Type := { apps : list AppEntry; resolve_order : list nat }.

(** [format!("{:?}", s)] on text without control or extender characters: quotes
    and back slashes are escaped. *)
Fixpoint escape_debug (s : string) : string :=
  match s with
  | EmptyString => EmptyString
  | String c s' =>
      if (Str.byte c =? 34) || (Str.byte c =? 92) then String "\" (String c (escape_debug s'))
      else String c (escape_debug s')
  end.
Definition fmt_debug (s : string) : string := quote +:+ escape_debug s +:+ quote.

Definition ends_with_slash (s : string) : bool :=
  match last (String.list_ascii_of_string s) with Some c => Ascii.eqb c "/" | None => false end.

(** One turn of the validation loop of [new], over the ids and paths seen. *)
Definition check_app (seen : list string * list string) (app : AppEntry) :
    result string (list string * list string) :=
  let '(seen_ids, seen_base_paths) := seen in
  if negb (Str.is_empty (ae_base_path app))
     && (negb (Str.starts_with "/" (ae_base_path app)) || ends_with_slash (ae_base_path app))
  then Err ("App " +:+ quote +:+ ae_id app +:+ quote +:+ " basePath must start with " +:+ quote +:+ "/"
            +:+ quote +:+ " and have no trailing slash (got " +:+ fmt_debug (ae_base_path app) +:+ ")")
  else if contains seen_base_paths (ae_base_path app)
  then Err ("Duplicate Frick app basePath " +:+ fmt_debug (ae_base_path app) +:+ " (app id " +:+ quote
            +:+ ae_id app +:+ quote +:+ ")")
  else if contains seen_ids (ae_id app)
  then Err ("Duplicate Frick app id " +:+ quote +:+ ae_id app +:+ quote)
  else Ok (seen_ids ++ [ae_id app], seen_base_paths ++ [ae_base_path app]).

Definition path_len (apps : list AppEntry) (i : nat) : nat :=
  match apps !! i with Some app => String.length (ae_base_path app) | None => 0%nat end.

Definition new (apps : list AppEntry) : result string FrickAppRegistry :=
  _ ← fold_res check_app ([], []) apps;
  Ok {| apps := apps;
        resolve_order := order_by (λ a b, Nat.leb (path_len apps b) (path_len apps a))
                           (seq 0 (length apps)) |}.

Definition len (r : FrickAppRegistry) : nat := length (apps r).
Definition is_empty (r : FrickAppRegistry) : bool := bool_decide (apps r = []).
Definition is_multi_app (r : FrickAppRegistry) : bool := Nat.ltb 1 (len r).
Definition get (r : FrickAppRegistry) (app_id : string) : option AppEntry :=
  List.find (λ app, String.eqb (ae_id app) app_id) (apps r).
Definition find_by_schema_id (r : FrickAppRegistry) (id : string) : option AppEntry :=
  List.find (λ app, String.eqb (schema_id (ae_schema app)) id) (apps r).

Definition resolve_one (app : AppEntry) (url_path : string) : option AppResolution :=
  if Str.is_empty (ae_base_path app) then
    Some {| ar_app_id := ae_id app; ar_relative_path := url_path |}
  else if String.eqb url_path (ae_base_path app) then
    Some {| ar_app_id := ae_id app; ar_relative_path := "/" |}
  else
    match strip_prefix (ae_base_path app) url_path with
    | Some rest =>
        if Str.starts_with (ae_base_path app +:+ "/") url_path
        then Some {| ar_app_id := ae_id app; ar_relative_path := rest |} else None
    | None => None
    end.

Fixpoint resolve_in (apps : list AppEntry) (order : list nat) (url_path : string) : option AppResolution :=
  match order with
  | [] => None
  | i :: order' =>
      match (app ← apps !! i; resolve_one app url_path) with
      | Some r => Some r
      | None => resolve_in apps order' url_path
      end
  end.
Definition resolve_by_path (r : FrickAppRegistry) (url_path : string) : option AppResolution :=
  resolve_in (apps r) (resolve_order r) url_path.

Definition storage_app_id (r : FrickAppRegistry) (resolved : string) : string :=
  if is_multi_app r then resolved else DEFAULT_APP_ID.

Definition unit_separator : string := String (ascii_of_nat 31) EmptyString.
Definition scoped_index_name (r : FrickAppRegistry) (app_id index_name : string) : string :=
  if is_multi_app r then app_id +:+ unit_separator +:+ index_name else index_name.

Definition descriptors (r : FrickAppRegistry) : list AppDescriptor :=
  (λ app, {| ap_id := ae_id app; ap_base_path := ae_base_path app;
             ap_schema_id := schema_id (ae_schema app);
             ap_schema_revision := schema_revision (ae_schema app) |}) <$> apps r.

(** ** Construction *)

Definition path_ok (path : string) : Prop :=
  path = "" ∨ (Str.starts_with "/" path = true ∧ ends_with_slash path = false).

Lemma check_app_spec seen app seen' :
  check_app seen app = Ok seen' ↔
  path_ok (ae_base_path app) ∧ ae_base_path app ∉ seen.2 ∧ ae_id app ∉ seen.1
  ∧ seen' = (seen.1 ++ [ae_id app], seen.2 ++ [ae_base_path app]).
Proof.
  destruct seen as [ids paths]. unfold check_app, contains, path_ok. simpl.
  assert (Str.is_empty (ae_base_path app) = true ↔ ae_base_path app = "") as He
    by (destruct (ae_base_path app); done).
  destruct (Str.is_empty _), (Str.starts_with _ _), (ends_with_slash _); simpl;
    repeat case_bool_decide; naive_solver.
Qed.

Lemma check_apps_spec seen l :
  is_ok (fold_res check_app seen l) = true ↔
  Forall (λ app, path_ok (ae_base_path app)) l
  ∧ NoDup (ae_base_path <$> l) ∧ NoDup (ae_id <$> l)
  ∧ Forall (λ app, ae_base_path app ∉ seen.2 ∧ ae_id app ∉ seen.1) l.
Proof.
  revert seen. induction l as [|app l IH]; intros seen; simpl.
  - split; [intros _; repeat split; constructor|done].
  - rewrite !NoDup_cons, !Forall_cons. destruct (check_app seen app) as [seen'|e] eqn:Ec.
    + apply check_app_spec in Ec as (H1 & H2 & H3 & ->). rewrite IH. simpl.
      rewrite !Forall_forall, !list_elem_of_fmap. setoid_rewrite not_elem_of_app.
      setoid_rewrite list_elem_of_singleton. split; intros; destruct_and?; split_and!; try done;
        naive_solver.
    + split; [done|]. intros ([Hp _] & _ & _ & [[Ha Hb] _]). exfalso.
      assert (check_app seen app = Ok (seen.1 ++ [ae_id app], seen.2 ++ [ae_base_path app])) as Hok
        by by apply check_app_spec. by rewrite Ec in Hok.
Qed.

Lemma new_spec l r :
  new l = Ok r ↔
  Forall (λ app, path_ok (ae_base_path app)) l ∧ NoDup (ae_base_path <$> l) ∧ NoDup (ae_id <$> l)
  ∧ r = {| apps := l; resolve_order := order_by (λ a b, Nat.leb (path_len l b) (path_len l a))
                                         (seq 0 (length l)) |}.
Proof.
  pose proof (check_apps_spec ([], []) l) as Hc. unfold new.
  assert (Forall (λ app : AppEntry, ae_base_path app ∉ ([] : list string) ∧ ae_id app ∉ ([] : list string)) l)
    as Hn by (apply Forall_forall; intros; split; apply not_elem_of_nil).
  destruct (fold_res check_app ([], []) l) as [seen|e]; simpl in *.
  - split; [intros [= <-]|intros (_ & _ & _ & ->); done]. naive_solver.
  - split; [done|]. intros (H1 & H2 & H3 & _). exfalso. assert (false = true) by (by apply Hc). done.
Qed.

(** ** Routing *)

(** [base] is mounted over [url], which reads [rel] below it. *)
Definition mounts (base url rel : string) : Prop :=
  (base = "" ∧ rel = url)
  ∨ (base ≠ "" ∧ url = base ∧ rel = "/")
  ∨ (base ≠ "" ∧ ∃ t, rel = "/" +:+ t ∧ url = base +:+ rel).

Lemma str_length_app (a b : string) : String.length (a +:+ b) = (String.length a + String.length b)%nat.
Proof. induction a as [|c a IH]; [done|]. change (S (String.length (a +:+ b)) = S (String.length a + String.length b)). by rewrite IH. Qed.
Lemma str_app_assoc (a b c : string) : (a +:+ b) +:+ c = a +:+ (b +:+ c).
Proof. induction a as [|x a IH]; [done|]. change (String x ((a +:+ b) +:+ c) = String x (a +:+ (b +:+ c))). by rewrite IH. Qed.

Lemma strip_prefix_Some p s r : strip_prefix p s = Some r ↔ s = p +:+ r.
Proof.
  split; [|intros ->; apply strip_prefix_app]. revert s.
  induction p as [|a p IH]; intros s; simpl; [by intros [= ->]|].
  destruct s as [|b s]; [done|]. destruct (Ascii.eqb_spec a b) as [->|]; [|done].
  by intros ->%IH.
Qed.

Lemma starts_with_spec p s : Str.starts_with p s = true ↔ ∃ r, s = p +:+ r.
Proof.
  unfold Str.starts_with. revert s. induction p as [|a p IH]; intros s; simpl.
  - split; [by exists s|by destruct s].
  - destruct s as [|b s]; simpl; [split; [done|by intros (r & ?)]|].
    destruct (ascii_dec a b) as [->|Hn].
    + rewrite IH. split; intros (r & Hr); exists r; [by rewrite Hr|by injection Hr].
    + split; [done|]. intros (r & Hr). by injection Hr.
Qed.

Lemma resolve_one_spec app url res :
  resolve_one app url = Some res ↔
  ar_app_id res = ae_id app ∧ mounts (ae_base_path app) url (ar_relative_path res).
Proof.
  unfold resolve_one, mounts. destruct res as [id rel]; simpl.
  destruct (Str.is_empty (ae_base_path app)) eqn:Ee.
  { assert (ae_base_path app = "") as Hb by (by destruct (ae_base_path app)). naive_solver. }
  assert (ae_base_path app ≠ "") as Hne by (by destruct (ae_base_path app)).
  destruct (String.eqb_spec url (ae_base_path app)) as [->|Hu].
  - split; [naive_solver|]. intros (-> & [[? _]|[(_ & _ & ->)|(_ & t & -> & Hu)]]); [done|done|].
    apply (f_equal String.length) in Hu. rewrite str_length_app in Hu. simpl in Hu. lia.
  - destruct (strip_prefix (ae_base_path app) url) as [rest|] eqn:Es.
    + apply strip_prefix_Some in Es as ->.
      destruct (Str.starts_with (ae_base_path app +:+ "/") _) eqn:Esw.
      * apply starts_with_spec in Esw as (t & Ht). rewrite str_app_assoc in Ht.
        apply (inj (String.append _)) in Ht. subst rest.
        split; [intros Hr; inversion Hr; subst id rel; eauto 10|]. intros (-> & Hm).
        assert (ae_base_path app +:+ ("/" +:+ t) = ae_base_path app +:+ rel) as Ht by naive_solver.
        apply (inj (String.append _)) in Ht. by subst rel.
      * split; [done|]. intros (-> & Hm). exfalso.
        assert (∃ t, rel = "/" +:+ t ∧ ae_base_path app +:+ rest = ae_base_path app +:+ rel)
          as (t & -> & Ht) by naive_solver.
        assert (Str.starts_with (ae_base_path app +:+ "/") (ae_base_path app +:+ rest) = true) as Hx
          by (apply starts_with_spec; exists t; by rewrite Ht, str_app_assoc).
        by rewrite Hx in Esw.
    + split; [done|]. intros (-> & Hm). exfalso.
      assert (url = ae_base_path app +:+ rel) as -> by naive_solver.
      by rewrite strip_prefix_app in Es.
Qed.

Lemma resolve_in_Some l order url res :
  resolve_in l order url = Some res →
  ∃ pre i post app, order = pre ++ i :: post ∧ l !! i = Some app ∧ resolve_one app url = Some res
    ∧ ∀ j app', j ∈ pre → l !! j = Some app' → resolve_one app' url = None.
Proof.
  induction order as [|i order IH]; simpl; [done|].
  destruct (l !! i) as [app|] eqn:Ei; simpl; [destruct (resolve_one app url) as [r|] eqn:Er|].
  - intros [= <-]. exists [], i, order, app. split_and!; try done. intros ?? H; inversion H.
  - intros (pre & k & post & app' & -> & Hk & Hr & Hpre)%IH. exists (i :: pre), k, post, app'.
    split_and!; try done. intros j a [->|Hj]%elem_of_cons; [congruence|eauto].
  - intros (pre & k & post & app' & -> & Hk & Hr & Hpre)%IH. exists (i :: pre), k, post, app'.
    split_and!; try done. intros j a [->|Hj]%elem_of_cons; [congruence|eauto].
Qed.

Lemma resolve_in_None l order url :
  resolve_in l order url = None → ∀ i app, i ∈ order → l !! i = Some app → resolve_one app url = None.
Proof.
  induction order as [|k order IH]; simpl; [intros _ ?? H; inversion H|].
  destruct (l !! k) as [app|] eqn:Ek; simpl; [destruct (resolve_one app url) eqn:Er|];
    [done|intros H; specialize (IH H)..]; intros i a [->|Hi]%elem_of_cons; naive_solver.
Qed.

Lemma mounts_prefix base url rel : mounts base url rel → ∃ t, url = base +:+ t.
Proof.
  intros [[-> _]|[(_ & -> & _)|(_ & t & _ & ->)]]; [by exists url| |by eexists].
  exists "". by induction base as [|c b IH]; [|rewrite IH at 1].
Qed.

Lemma prefix_len_inj (a b s t : string) :
  a +:+ s = b +:+ t → String.length a = String.length b → a = b.
Proof.
  revert b. induction a as [|x a IH]; intros [|y b]; simpl; try done.
  intros [= -> Hs] [= Hl]. f_equal. by eapply IH.
Qed.

(** Two apps of one registry mounted over a path at the same depth are one. *)
Lemma same_depth l a1 a2 url r1 r2 :
  NoDup (ae_base_path <$> l) → a1 ∈ l → a2 ∈ l →
  mounts (ae_base_path a1) url r1 → mounts (ae_base_path a2) url r2 →
  String.length (ae_base_path a1) = String.length (ae_base_path a2) → a1 = a2.
Proof.
  intros Hn [i Hi]%list_elem_of_lookup [j Hj]%list_elem_of_lookup [s ->]%mounts_prefix [t Ht]%mounts_prefix Hl.
  assert (ae_base_path a1 = ae_base_path a2) as Hb by by eapply prefix_len_inj.
  rewrite NoDup_alt in Hn. assert (i = j) as ->; [|congruence].
  eapply (Hn _ _ (ae_base_path a1)); rewrite list_lookup_fmap; [by rewrite Hi|by rewrite Hj, Hb].
Qed.

Definition deepest (l : list AppEntry) (app : AppEntry) (url : string) : Prop :=
  ∀ app' rel, app' ∈ l → mounts (ae_base_path app') url rel →
    app' = app ∨ (String.length (ae_base_path app') < String.length (ae_base_path app))%nat.

Lemma resolve_deepest l r url res :
  new l = Ok r → resolve_by_path r url = Some res →
  ∃ app, app ∈ l ∧ ar_app_id res = ae_id app ∧ mounts (ae_base_path app) url (ar_relative_path res)
    ∧ deepest l app url.
Proof.
  intros (_ & Hn & _ & ->)%new_spec. unfold resolve_by_path. simpl.
  set (le := λ a b, Nat.leb (path_len l b) (path_len l a)).
  assert (StronglySorted (λ x y, le x y = true) (order_by le (seq 0 (length l)))) as Hsort.
  { apply order_by_sorted; intros; unfold le in *; rewrite ?Nat.leb_le in *; lia. }
  intros (pre & i & post & app & Ho & Hi & [Hid Hm]%resolve_one_spec & Hpre)%resolve_in_Some.
  exists app. split_and!; try done; [by eapply list_elem_of_lookup_2|].
  intros app' rel Hin Hm'. destruct (proj1 (list_elem_of_lookup _ _) Hin) as [j Hj].
  assert (j ∈ pre ++ i :: post) as Hjo.
  { rewrite <- Ho, elem_of_order_by, elem_of_seq. apply lookup_lt_Some in Hj. lia. }
  apply elem_of_app in Hjo as [Hjp|[->|Hjp]%elem_of_cons]; [|left; congruence|].
  - specialize (Hpre _ _ Hjp Hj). assert (resolve_one app' url = Some {| ar_app_id := ae_id app';
      ar_relative_path := rel |}) as Hx by by apply resolve_one_spec. congruence.
  - rewrite Ho in Hsort. apply StronglySorted_app_1_r, StronglySorted_inv in Hsort as [_ Hf].
    rewrite Forall_forall in Hf. specialize (Hf _ Hjp). unfold le, path_len in Hf.
    rewrite Hi, Hj, Nat.leb_le in Hf.
    destruct (decide (String.length (ae_base_path app') = String.length (ae_base_path app))); [|lia].
    left. eapply same_depth; eauto. by eapply list_elem_of_lookup_2.
Qed.

(** A request goes to the app mounted at the longest prefix of its
    path that ends on a segment boundary, with the rest of the path; it is
    unrouted exactly when no app is mounted over it. *)
Theorem route_longest_prefix l r url :
  new l = Ok r →
  (∀ res, resolve_by_path r url = Some res ↔
     ∃ app, app ∈ l ∧ ar_app_id res = ae_id app ∧ mounts (ae_base_path app) url (ar_relative_path res)
       ∧ deepest l app url)
  ∧ (resolve_by_path r url = None ↔ ∀ app rel, app ∈ l → ¬ mounts (ae_base_path app) url rel).
Proof.
  intros Hnew. assert (resolve_by_path r url = None →
    ∀ app rel, app ∈ l → ¬ mounts (ae_base_path app) url rel) as Hnone.
  { intros Hr app rel [i Hi]%list_elem_of_lookup Hm. apply new_spec in Hnew as (_ & _ & _ & ->).
    unfold resolve_by_path in Hr. simpl in Hr. 
    assert (resolve_one app url = Some {| ar_app_id := ae_id app; ar_relative_path := rel |}) as Hx
      by by apply resolve_one_spec.
    rewrite (resolve_in_None _ _ _ Hr i app) in Hx; [done| |done].
    apply elem_of_order_by, elem_of_seq. apply lookup_lt_Some in Hi. lia. }
  split; [intros res; split; [by apply resolve_deepest|]|split; [done|]].
  - intros (app & Hin & Hid & Hm & Hd). destruct (resolve_by_path r url) as [res'|] eqn:Er.
    + destruct (resolve_deepest _ _ _ _ Hnew Er) as (app' & Hin' & Hid' & Hm' & Hd').
      assert (app' = app) as -> by (destruct (Hd _ _ Hin' Hm'), (Hd' _ _ Hin Hm); try done; lia).
      assert (resolve_one app url = Some res ∧ resolve_one app url = Some res') as [H1 H2]
        by (split; by apply resolve_one_spec). congruence.
    + by destruct (Hnone eq_refl _ _ Hin Hm).
  - intros Hno. destruct (resolve_by_path r url) as [res|] eqn:Er; [|done].
    destruct (resolve_deepest _ _ _ _ Hnew Er) as (app & Hin & _ & Hm & _). by destruct (Hno _ _ Hin Hm).
Qed.

Module SampleApps.
Definition entry (id path : string) : AppEntry :=
  {| ae_id := id; ae_base_path := path; ae_schema := SampleSchema.schema; ae_projections := 0;
     ae_search := 0 |}.
Definition three : list AppEntry := [entry "root" ""; entry "chat" "/chat"; entry "chat-admin" "/chat/admin"].
Definition registry : FrickAppRegistry := {| apps := three; resolve_order := [2; 1; 0]%nat |}.
End SampleApps.

(** Witness: of three nested apps the middle one serves [/chat/rooms]. *)
Lemma route_longest_prefix_witness :
  resolve_by_path SampleApps.registry "/chat/rooms"
  = Some {| ar_app_id := "chat"; ar_relative_path := "/rooms" |}
  ∧ deepest SampleApps.three (SampleApps.entry "chat" "/chat") "/chat/rooms".
Proof.
  split; [vm_compute; reflexivity|].
  destruct (proj1 (proj1 (route_longest_prefix SampleApps.three SampleApps.registry "/chat/rooms"
              ltac:(vm_compute; reflexivity)) {| ar_app_id := "chat"; ar_relative_path := "/rooms" |})
              ltac:(vm_compute; reflexivity)) as (app & Hin & Hid & _ & Hd).
  unfold SampleApps.three in Hin. rewrite !elem_of_cons in Hin.
  destruct Hin as [->|[->|[->|Hn]]]; [done|exact Hd|done|by inversion Hn].
Defined.

(** ** Storage partitions *)

Definition no_separator (a : string) : Prop := ascii_of_nat 31 ∉ String.list_ascii_of_string a.

Lemma split_at_separator (a b x y : string) :
  no_separator a → no_separator b →
  a +:+ String (ascii_of_nat 31) x = b +:+ String (ascii_of_nat 31) y → a = b ∧ x = y.
Proof.
  unfold no_separator. generalize (ascii_of_nat 31). intros sep.
  revert b. induction a as [|c a IH]; intros [|d b] Ha Hb; simpl in *.
  - intros H. by inversion H.
  - intros H. inversion H; subst. set_solver.
  - intros H. inversion H; subst. set_solver.
  - intros H. inversion H as [[Hc Hr]]; subst d. destruct (IH b) as [-> ->]; set_solver.
Qed.

(** Distinct apps of a multi-app server never share a search index, whatever
    the index names. *)
Lemma scoped_index_name_inj r a b x y :
  is_multi_app r = true → no_separator a → no_separator b →
  scoped_index_name r a x = scoped_index_name r b y → a = b ∧ x = y.
Proof. unfold scoped_index_name. intros ->. apply split_at_separator. Qed.

End Apps.
