(* ===== verification/Facade.v ===== *)
(** * The store facade ([frick-store/src/facade.rs])

    One state over the stores, the write funnel that tells the search projector
    and then the write listener what changed, the app-scoped views, and the
    retention of idempotency keys. The clock and the id generator are arguments
    of the operations. The search adapter is the log of the operations handed to
    it; the projector and the parser of JSON numbers are parameters. *)

From Stdlib Require Import ZArith Lia Ascii String.
From stdpp Require Import base gmap strings list sorting pretty.
From S2P Require Import Prelude Value Schema Codec Timestamp StoreBase Encryption Samples ObjectStore IdempotencyCache StreamStore JobStore Authz ServerErrors Sessions Sharing Ephemeral.

Definition DEFAULT_APP_ID : string := "_default".
Definition DEFAULT_SIGNAL_TTL_MS : Z := 30000.

Inductive FrickStoreWriteEvent : Type :=
| ObjectUpsert (tenant_id app_id object_type object_id : string) (object : Value)
    (writer_user_id : option string)
| ObjectDelete (tenant_id app_id object_type object_id : string)
| StreamAppend (tenant_id : string) (event : StoredEvent).

Definition event_kind (event : FrickStoreWriteEvent) : string :=
  match event with
  | ObjectUpsert _ _ _ _ _ _ => "objectUpsert" | ObjectDelete _ _ _ _ => "objectDelete"
  | StreamAppend _ _ => "streamAppend"
  end.

Record IdempotencyCacheStats : Type := { ics_size : nat; ics_capacity : nat; ics_evictions : Z }.
Record PruneResult : Type := { pr_by_age : Z; pr_by_cap : Z }.

(** The tables behind the facade, the front cache, and what the projector's
    operations and the listener received, oldest first. *)
Record FrickStore {SearchOp : Type} : Type := {
  fs_objects : gmap object_key ObjectRow; fs_streams : StreamDb; fs_cache : option EventCache;
  fs_leases : gmap EphemeralKey LeaseRow; fs_outbox : Outbox; fs_jobs : JobTable;
  fs_sessions : gmap string SessionRow;
  (** [(tenant_id, setting_key, setting_value)] *)
  fs_settings : list (string * string * string);
  fs_search : list (string * SearchOp); fs_notified : list FrickStoreWriteEvent;
}.
Arguments FrickStore : clear implicits.

Section Facade.
Context `{PackedColumn PackedRecord, PackedColumn PackedStreamEvent, PackedColumn Value, Crypto}.
Context {SearchOp : Type}.
Context (schema : FrickSchema) (encryption : option KeyProvider) (constraint_failed : string).
(** [search_projector]: unset, or a function that may panic. *)
Context (projector : option (FrickStoreWriteEvent → option (list SearchOp))).
Context (has_listener : bool) (replay_window_ms : Z).
Local Abbreviation Store := (FrickStore SearchOp).

Definition with_objects (t : gmap object_key ObjectRow) (s : Store) : Store :=
  {| fs_objects := t; fs_streams := fs_streams s; fs_cache := fs_cache s; fs_leases := fs_leases s;
     fs_outbox := fs_outbox s; fs_jobs := fs_jobs s; fs_sessions := fs_sessions s;
     fs_settings := fs_settings s; fs_search := fs_search s; fs_notified := fs_notified s |}.
Definition with_streams (t : StreamState) (s : Store) : Store :=
  {| fs_objects := fs_objects s; fs_streams := t.1; fs_cache := t.2; fs_leases := fs_leases s;
     fs_outbox := fs_outbox s; fs_jobs := fs_jobs s; fs_sessions := fs_sessions s;
     fs_settings := fs_settings s; fs_search := fs_search s; fs_notified := fs_notified s |}.
Definition with_leases (t : gmap EphemeralKey LeaseRow) (s : Store) : Store :=
  {| fs_objects := fs_objects s; fs_streams := fs_streams s; fs_cache := fs_cache s; fs_leases := t;
     fs_outbox := fs_outbox s; fs_jobs := fs_jobs s; fs_sessions := fs_sessions s;
     fs_settings := fs_settings s; fs_search := fs_search s; fs_notified := fs_notified s |}.
Definition with_outbox (t : Outbox) (s : Store) : Store :=
  {| fs_objects := fs_objects s; fs_streams := fs_streams s; fs_cache := fs_cache s;
     fs_leases := fs_leases s; fs_outbox := t; fs_jobs := fs_jobs s; fs_sessions := fs_sessions s;
     fs_settings := fs_settings s; fs_search := fs_search s; fs_notified := fs_notified s |}.
Definition with_jobs (t : JobTable) (s : Store) : Store :=
  {| fs_objects := fs_objects s; fs_streams := fs_streams s; fs_cache := fs_cache s;
     fs_leases := fs_leases s; fs_outbox := fs_outbox s; fs_jobs := t; fs_sessions := fs_sessions s;
     fs_settings := fs_settings s; fs_search := fs_search s; fs_notified := fs_notified s |}.
Definition with_sessions (t : gmap string SessionRow) (s : Store) : Store :=
  {| fs_objects := fs_objects s; fs_streams := fs_streams s; fs_cache := fs_cache s;
     fs_leases := fs_leases s; fs_outbox := fs_outbox s; fs_jobs := fs_jobs s; fs_sessions := t;
     fs_settings := fs_settings s; fs_search := fs_search s; fs_notified := fs_notified s |}.

(** Run a store's method on its part of the state. *)
Definition on {S A} (get_part : Store → S) (put_part : S → Store → Store) (m : M S StoreError A) :
    M Store StoreError A := λ s,
  let '(r, t) := m (get_part s) in (r, put_part t s).

(** ** The write funnel *)

Definition run_search_projector (tenant_id : string) (event : FrickStoreWriteEvent) (s : Store) : Store :=
  match projector with
  | None => s
  | Some project =>
      match project event with
      | None => s
      | Some ops =>
          {| fs_objects := fs_objects s; fs_streams := fs_streams s; fs_cache := fs_cache s;
             fs_leases := fs_leases s; fs_outbox := fs_outbox s; fs_jobs := fs_jobs s;
             fs_sessions := fs_sessions s; fs_settings := fs_settings s;
             fs_search := fs_search s ++ ((λ op, (tenant_id, op)) <$> ops); fs_notified := fs_notified s |}
      end
  end.
Definition notify_write_listener (event : FrickStoreWriteEvent) (s : Store) : Store :=
  if has_listener then
    {| fs_objects := fs_objects s; fs_streams := fs_streams s; fs_cache := fs_cache s;
       fs_leases := fs_leases s; fs_outbox := fs_outbox s; fs_jobs := fs_jobs s;
       fs_sessions := fs_sessions s; fs_settings := fs_settings s; fs_search := fs_search s;
       fs_notified := fs_notified s ++ [event] |}
  else s.
(** The two calls that end every write. *)
Definition announce (tenant_id : string) (event : FrickStoreWriteEvent) : M Store StoreError unit := λ s,
  (Ok tt, notify_write_listener event (run_search_projector tenant_id event s)).

(** ** Objects and streams *)

Definition upsert_object (nonce : blob) (tenant_id object_type object_id : string) (value : Value)
    (version : Z) (app_id : string) (now_ms : Z) : M Store StoreError unit :=
  on fs_objects with_objects
    (ObjectStore.upsert schema encryption nonce tenant_id object_type object_id value version app_id now_ms);;
  s ← get_state;
  read ← lift_res (ObjectStore.read schema encryption (fs_objects s) tenant_id object_type object_id app_id);
  announce tenant_id (ObjectUpsert tenant_id app_id object_type object_id (default value read) None).

Definition upsert_object_with_policy (nonce : blob) (tenant_id app_id object_type object_id : string)
    (value : Value) (expected_version : option Z) (writer_user_id : option string) (now_ms : Z) :
    M Store StoreError ObjectUpsertResult :=
  r ← on fs_objects with_objects
        (upsert_with_policy schema encryption nonce app_id tenant_id object_type object_id value
           expected_version (resolve_object_merge_policy schema object_type) now_ms);
  s ← get_state;
  read ← lift_res (ObjectStore.read schema encryption (fs_objects s) tenant_id object_type object_id app_id);
  announce tenant_id (ObjectUpsert tenant_id app_id object_type object_id (default value read) writer_user_id);;
  mret r.

Definition object_merge_policy (object_type : string) : FrickObjectMergePolicy :=
  resolve_object_merge_policy schema object_type.

Definition delete_object (tenant_id object_type object_id app_id : string) : M Store StoreError bool :=
  existed ← on fs_objects with_objects (ObjectStore.delete tenant_id object_type object_id app_id);
  (if existed : bool then announce tenant_id (ObjectDelete tenant_id app_id object_type object_id)
   else mret tt);;
  mret existed.

(** The front cache is taken out for the append and put back after it. *)
Definition append_event (nonce : blob) (tenant_id stream stream_id replica_id request_id event : string)
    (payload : Value) (app_id uuid : string) (now_ms : Z) : M Store StoreError AppendResult :=
  result ← on (λ s, (fs_streams s, fs_cache s)) with_streams
             (append schema (new_window (Some replay_window_ms)) encryption constraint_failed nonce
                tenant_id stream stream_id replica_id request_id event payload app_id
                ("event-" +:+ uuid) now_ms);
  (if ar_created result then
     announce (st_tenant_id (ar_event result)) (StreamAppend (st_tenant_id (ar_event result)) (ar_event result))
   else mret tt);;
  mret result.

(** ** Presence, signals, jobs *)

Definition set_presence (tenant_id presence_type presence_key : string) (value : Value)
    (ttl_ms : Z) (app_id : string) (now_ms : Z) : M Store StoreError unit :=
  on fs_leases with_leases
    (Presence.set schema (app_id, tenant_id, presence_type, presence_key) value ttl_ms now_ms).
Definition clear_presence (tenant_id presence_type presence_key app_id : string) : M Store StoreError unit :=
  on fs_leases with_leases (Presence.clear (app_id, tenant_id, presence_type, presence_key)).
Definition enqueue_signal (tenant_id signal_type signal_key : string) (value : Value)
    (ttl_ms : option Z) (app_id : string) (now_ms : Z) : M Store StoreError unit :=
  on fs_outbox with_outbox
    (Signals.enqueue schema (app_id, tenant_id, signal_type, signal_key) value
       (default DEFAULT_SIGNAL_TTL_MS ttl_ms) now_ms).
Definition enqueue_job (nonce : blob) (input : EnqueueInput) (now_ms : Z) : M Store StoreError StoredJob :=
  row ← on fs_jobs with_jobs (JobStore.enqueue encryption constraint_failed nonce input now_ms);
  mret {| sj_id := jr_id row; sj_name := jr_job_type row; sj_value := jr_payload row |}.
Definition next_job (tenant_id job_type : string) (app_id : option string) (now_ms : Z) :
    M Store StoreError (option StoredJob) :=
  on fs_jobs with_jobs (JobStore.next encryption tenant_id job_type app_id now_ms).

(** ** App-scoped views *)

(** [for_app]: the app id of the view. *)
Definition for_app (app_id : option string) : string :=
  match app_id with
  | None => DEFAULT_APP_ID
  | Some a => if String.eqb a DEFAULT_APP_ID then DEFAULT_APP_ID else a
  end.
Definition scoped_upsert_object (app : string) (nonce : blob) (tenant_id object_type object_id : string)
    (value : Value) (version now_ms : Z) : M Store StoreError unit :=
  upsert_object nonce tenant_id object_type object_id value version app now_ms.
Definition scoped_append_event (app : string) (nonce : blob)
    (tenant_id stream stream_id replica_id request_id event : string) (payload : Value) (uuid : string)
    (now_ms : Z) : M Store StoreError AppendResult :=
  append_event nonce tenant_id stream stream_id replica_id request_id event payload app uuid now_ms.
Definition scoped_set_presence (app tenant_id presence_type presence_key : string) (value : Value)
    (ttl_ms now_ms : Z) : M Store StoreError unit :=
  set_presence tenant_id presence_type presence_key value ttl_ms app now_ms.
Definition scoped_clear_presence (app tenant_id presence_type presence_key : string) :
    M Store StoreError unit := clear_presence tenant_id presence_type presence_key app.
Definition scoped_enqueue_signal (app tenant_id signal_type signal_key : string) (value : Value)
    (ttl_ms : option Z) (now_ms : Z) : M Store StoreError unit :=
  enqueue_signal tenant_id signal_type signal_key value ttl_ms app now_ms.
Definition scoped_enqueue_job (app : string) (nonce : blob) (input : EnqueueInput) (now_ms : Z) :
    M Store StoreError StoredJob :=
  let input := match en_app_id input with
               | Some _ => input
               | None => {| en_tenant_id := en_tenant_id input; en_app_id := Some app;
                            en_job_type := en_job_type input; en_payload := en_payload input;
                            en_idempotency_key := en_idempotency_key input;
                            en_available_at := en_available_at input;
                            en_max_attempts := en_max_attempts input |}
               end in
  enqueue_job nonce input now_ms.
End Facade.

(** ** Retention of idempotency keys *)

(** The key tables below are those of the stream store, with its instances. *)
#[local] Remove Hints EphemeralKey_eq_dec EphemeralKey_countable : typeclass_instances.

Abbreviation KeyTable := (gmap (string * string * string * string) (string * string)).
Definition key_tenant (k : string * string * string * string) : string := k.1.1.2.

(** [DELETE FROM idempotency_keys WHERE ..]. *)
Definition delete_keys (where_ : (string * string * string * string) * (string * string) → bool)
    (t : KeyTable) : Z * KeyTable :=
  let kept := base.filter (λ kv, where_ kv = false) t in
  (Z.of_nat (size t - size kept), kept).

Section Prune.
(** [serde_json::from_str::<f64>], the tie order of rows of one time stamp, and
    the display of the capacity in the cache's error. *)
Context (parse_f64 : string → option f64) (rowid : string * string * string * string → Z).
Context (fmt_f64 : f64 → string) (cache_capacity : f64) (retention_ms max_rows session_grace_ms : Z).

Definition f64_negative (x : f64) : bool := match x with F64_fin m _ => m <? 0 | _ => false end.

Definition retention_cutoff (now_ms : Z) (setting : string * string * string) : option (string * string) :=
  let '(tenant_id, key, raw) := setting in
  if negb (String.eqb key "retentionMs") then None
  else match parse_f64 raw with
       | None => None
       | Some parsed =>
           if negb (f64_is_finite parsed) || f64_negative parsed then None
           else Some (tenant_id, epoch_ms_to_iso (i64_sub now_ms (f64_floor_i64 parsed)))
       end.
Definition collect_tenant_retention_cutoffs (settings : list (string * string * string)) (now_ms : Z) :
    list (string * string) := omap (retention_cutoff now_ms) settings.

(** The age pass: each override, then the global cutoff for the other tenants. *)
Definition prune_tenant (acc : Z * KeyTable) (cutoff : string * string) : Z * KeyTable :=
  let '(n, t') := delete_keys (λ kv, String.eqb (key_tenant kv.1) cutoff.1 && Str.ltb kv.2.2 cutoff.2) acc.2 in
  (acc.1 + n, t').
Definition prune_age (cutoffs : list (string * string)) (global_cutoff : string) (t : KeyTable) : Z * KeyTable :=
  let acc := foldl prune_tenant (0, t) cutoffs in
  let '(n, t') := delete_keys (λ kv, Str.ltb kv.2.2 global_cutoff && negb (contains cutoffs.*1 (key_tenant kv.1)))
                    acc.2 in
  (acc.1 + n, t').

(** [ORDER BY created_at ASC, rowid ASC]. *)
Definition oldest_le (a b : (string * string * string * string) * (string * string)) : bool :=
  Str.ltb a.2.2 b.2.2 || (String.eqb a.2.2 b.2.2 && (rowid a.1 <=? rowid b.1)).
Definition prune_cap (t : KeyTable) : Z * KeyTable :=
  let overflow := i64_sub (Z.of_nat (size t)) max_rows in
  if 0 <? overflow then
    let victims := (take (Z.to_nat overflow) (order_by oldest_le (map_to_list t))).*1 in
    delete_keys (λ kv, bool_decide (kv.1 ∈ victims)) t
  else (0, t).

Definition prune {SearchOp} (now_ms : Z) : M (FrickStore SearchOp) StoreError PruneResult := λ s,
  let cutoffs := collect_tenant_retention_cutoffs (fs_settings s) now_ms in
  let '(by_age, t1) := prune_age cutoffs (epoch_ms_to_iso (i64_sub now_ms retention_ms))
                         (idempotency_keys (fs_streams s)) in
  let '(by_cap, t2) := prune_cap t1 in
  let r := {| pr_by_age := by_age; pr_by_cap := by_cap |} in
  let db := {| stream_events := stream_events (fs_streams s); idempotency_keys := t2 |} in
  if (0 <? by_age) || (0 <? by_cap) then
    match IdempotencyCache.new fmt_f64 cache_capacity with
    | Err e => (Err e, with_streams (db, fs_cache s) s)
    | Ok fresh => (Ok r, with_streams (db, Some fresh) s)
    end
  else (Ok r, with_streams (db, fs_cache s) s).

Definition prune_expired_sessions {SearchOp} (now_ms : Z) : M (FrickStore SearchOp) StoreError Z :=
  on fs_sessions with_sessions (Sessions.prune_expired (epoch_ms_to_iso (i64_sub now_ms session_grace_ms))).

Definition idempotency_cache_stats {SearchOp} (s : FrickStore SearchOp) : IdempotencyCacheStats :=
  match fs_cache s with
  | Some c => {| ics_size := cache_size c; ics_capacity := capacity c; ics_evictions := evictions c |}
  | None => {| ics_size := 0; ics_capacity := f64_floor_usize cache_capacity; ics_evictions := 0 |}
  end.
Definition idempotency_key_row_count {SearchOp} (s : FrickStore SearchOp) : Z :=
  Z.of_nat (size (idempotency_keys (fs_streams s))).
End Prune.

(** ** The change feed *)

(** What a listener can rebuild from the events: the objects with their app, and
    the log. *)
Record Replica : Type := { rp_objects : gmap object_key (string * Value); rp_log : list StoredEvent }.
Definition replay (r : Replica) (event : FrickStoreWriteEvent) : Replica :=
  match event with
  | ObjectUpsert tenant app ty id object _ =>
      {| rp_objects := <[(tenant, ty, id) := (app, object)]> (rp_objects r); rp_log := rp_log r |}
  | ObjectDelete tenant _ ty id =>
      {| rp_objects := base.delete (tenant, ty, id) (rp_objects r); rp_log := rp_log r |}
  | StreamAppend _ e => {| rp_objects := rp_objects r; rp_log := rp_log r ++ [e] |}
  end.

Inductive FacadeOp : Type :=
| Fo_upsert (nonce : blob) (tenant ty id : string) (value : Value) (version : Z) (app : string) (now : Z)
| Fo_policy (nonce : blob) (tenant app ty id : string) (value : Value) (expected : option Z)
    (writer : option string) (now : Z)
| Fo_delete (tenant ty id app : string)
| Fo_append (nonce : blob) (tenant stream stream_id replica request event : string) (payload : Value)
    (app uuid : string) (now : Z)
| Fo_presence (tenant ty key : string) (value : Value) (ttl : Z) (app : string) (now : Z)
| Fo_signal (tenant ty key : string) (value : Value) (ttl : option Z) (app : string) (now : Z).

(** Nonces have their length; values are records with distinct keys. *)
Definition op_wf (op : FacadeOp) : Prop :=
  match op with
  | Fo_upsert nonce _ _ _ value _ _ _ | Fo_policy nonce _ _ _ _ value _ _ _ =>
      length nonce = NONCE_LEN ∧ record_value value
  | Fo_append nonce _ _ _ _ _ _ payload _ _ _ => length nonce = NONCE_LEN ∧ record_value payload
  | _ => True
  end.

Lemma default_some (v w : Value) : default v (Some w) = w.
Proof. done. Qed.

Section Feed.
Context `{PackedColumn PackedRecord, PackedColumn PackedStreamEvent, CryptoLaws}.
Context {SearchOp : Type}.
Context (schema : FrickSchema) (encryption : option KeyProvider) (constraint_failed : string).
Context (projector : option (FrickStoreWriteEvent → option (list SearchOp))) (replay_window_ms : Z).
Local Abbreviation Store := (FrickStore SearchOp).

Definition facade_op (op : FacadeOp) (s : Store) : Store :=
  match op with
  | Fo_upsert nonce tenant ty id value version app now =>
      (upsert_object schema encryption projector true nonce tenant ty id value version app now s).2
  | Fo_policy nonce tenant app ty id value expected writer now =>
      (upsert_object_with_policy schema encryption projector true nonce tenant app ty id value expected
         writer now s).2
  | Fo_delete tenant ty id app => (delete_object projector true tenant ty id app s).2
  | Fo_append nonce tenant stream sid replica request event payload app uuid now =>
      (append_event schema encryption constraint_failed projector true replay_window_ms nonce tenant
         stream sid replica request event payload app uuid now s).2
  | Fo_presence tenant ty key value ttl app now => (set_presence schema tenant ty key value ttl app now s).2
  | Fo_signal tenant ty key value ttl app now => (enqueue_signal schema tenant ty key value ttl app now s).2
  end.

(** The readable contents of the tables. *)
Definition view (s : Store) : Replica :=
  {| rp_objects := map_imap (λ (k : object_key) r,
                     v ← ok (unpack schema encryption k.1.1 (or_packed r)); Some (or_app_id r, v))
                     (fs_objects s);
     rp_log := omap (λ r, ok (unpack_row schema encryption r (ev_tenant_id r) (ev_app_id r)))
                 (stream_events (fs_streams s)) |}.
Definition event_tenant (event : FrickStoreWriteEvent) : string :=
  match event with ObjectUpsert t _ _ _ _ _ | ObjectDelete t _ _ _ | StreamAppend t _ => t end.
Definition projected (event : FrickStoreWriteEvent) : list (string * SearchOp) :=
  match projector with
  | Some project => (λ op, (event_tenant event, op)) <$> default [] (project event)
  | None => []
  end.

(** The step from [s] to [s'] announced exactly [events]. *)
Definition announces (s s' : Store) (events : list FrickStoreWriteEvent) : Prop :=
  fs_notified s' = fs_notified s ++ events
  ∧ fs_search s' = fs_search s ++ concat (projected <$> events)
  ∧ view s' = foldl replay (view s) events.

Lemma announce_spec tenant event s :
  event_tenant event = tenant →
  ∃ s', announce projector true tenant event s = (Ok tt, s')
    ∧ fs_objects s' = fs_objects s ∧ fs_streams s' = fs_streams s
    ∧ fs_notified s' = fs_notified s ++ [event] ∧ fs_search s' = fs_search s ++ projected event.
Proof using Type.
  intros <-. unfold announce, run_search_projector, notify_write_listener, projected.
  eexists. split; [reflexivity|]. destruct projector as [project|]; simpl; [|by rewrite app_nil_r].
  destruct (project event) as [ops|]; simpl; [done|by rewrite app_nil_r].
Qed.

Lemma announces_one s s1 s2 event :
  fs_notified s1 = fs_notified s → fs_search s1 = fs_search s →
  fs_objects s2 = fs_objects s1 → fs_streams s2 = fs_streams s1 →
  fs_notified s2 = fs_notified s1 ++ [event] → fs_search s2 = fs_search s1 ++ projected event →
  view s1 = replay (view s) event → announces s s2 [event].
Proof using Type.
  intros Hn Hs Ho Hst Hn2 Hs2 Hv. split_and!; [congruence| |].
  - simpl. rewrite app_nil_r. congruence.
  - simpl. rewrite <- Hv. unfold view. by rewrite Ho, Hst.
Qed.
Lemma announces_none s s' :
  fs_notified s' = fs_notified s → fs_search s' = fs_search s →
  fs_objects s' = fs_objects s → stream_events (fs_streams s') = stream_events (fs_streams s) →
  announces s s' [].
Proof using Type.
  unfold announces. intros -> -> Ho Hst. split_and!; [by rewrite app_nil_r..|]. simpl. unfold view. by rewrite Ho, Hst.
Qed.

Hypothesis schema_ok : validate_schema schema = Ok tt.
Hypothesis Hobj : engine_ok (T := PackedRecord) encryption.
Hypothesis Hev : engine_ok (T := PackedStreamEvent) encryption.

(** A packed row put at its address is read back and shows in the view. *)
Lemma view_put s tenant ty id app es b version at_ nonce :
  length nonce = NONCE_LEN → NoDup es.*1 →
  pack schema encryption nonce tenant ty id (VMap (str_entries es)) = Ok b →
  let row := {| or_app_id := app; or_version := version; or_packed := b; or_updated_at := at_ |} in
  let s1 := with_objects (<[(tenant, ty, id) := row]> (fs_objects s)) s in
  ObjectStore.read schema encryption (fs_objects s1) tenant ty id app = Ok (Some (stored_value id es))
  ∧ ∀ w, view s1 = replay (view s) (ObjectUpsert tenant app ty id (stored_value id es) w).
Proof using All.
  intros Hn Hnd Hp row s1.
  pose proof (unpack_pack schema encryption schema_ok Hobj nonce tenant ty id es b Hn Hnd Hp) as Hu.
  split.
  - unfold ObjectStore.read, select_row. simpl. rewrite lookup_insert_eq. simpl.
    rewrite String.eqb_refl. unfold row. simpl. by rewrite Hu.
  - intros w. unfold view, replay. simpl. f_equal. rewrite map_imap_insert. simpl. by rewrite Hu.
Qed.

Lemma feed_written s tenant ty id app es b version at_ nonce w :
  length nonce = NONCE_LEN → NoDup es.*1 →
  pack schema encryption nonce tenant ty id (VMap (str_entries es)) = Ok b →
  let row := {| or_app_id := app; or_version := version; or_packed := b; or_updated_at := at_ |} in
  let s1 := with_objects (<[(tenant, ty, id) := row]> (fs_objects s)) s in
  ∃ s2, announce projector true tenant (ObjectUpsert tenant app ty id (stored_value id es) w) s1 = (Ok tt, s2)
    ∧ announces s s2 [ObjectUpsert tenant app ty id (stored_value id es) w].
Proof using All.
  intros Hn Hnd Hp row s1. destruct (view_put s tenant ty id app es b version at_ nonce Hn Hnd Hp) as [_ Hv].
  destruct (announce_spec tenant (ObjectUpsert tenant app ty id (stored_value id es) w) s1 eq_refl)
    as (s2 & Ha & Ho & Hs & Hnt & Hse).
  exists s2. split; [done|]. apply (announces_one s s1 s2); [done..|]. exact (Hv w).
Qed.

Lemma upsert_feed nonce tenant ty id value version app now s :
  length nonce = NONCE_LEN → record_value value →
  ∃ events, announces s
    (upsert_object schema encryption projector true nonce tenant ty id value version app now s).2 events.
Proof using All.
  intros Hn (es & -> & Hnd). unfold upsert_object, on, ObjectStore.upsert, write_row_tx. run_M.
  destruct (pack schema encryption nonce tenant ty id _) as [b|e] eqn:Ep; simpl;
    [|exists []; by apply announces_none].
  destruct (write_row_packed app tenant ty id b version now (fs_objects s)) as [[[]|e] t'] eqn:Ew.
  - apply write_row_packed_Ok in Ew as [-> _].
    destruct (view_put s tenant ty id app es b version (iso_from_epoch_ms now) nonce Hn Hnd Ep) as [Hr _].
    cbv zeta in Hr. rewrite Hr, default_some.
    destruct (feed_written s tenant ty id app es b version (iso_from_epoch_ms now) nonce None Hn Hnd Ep)
      as (s2 & Ha & Hs). cbv zeta in Ha. rewrite Ha. eauto.
  - apply write_row_packed_Err in Ew as [-> _]. exists []. by apply announces_none.
Qed.

Lemma policy_feed nonce tenant app ty id value expected writer now s :
  length nonce = NONCE_LEN → record_value value →
  ∃ events, announces s
    (upsert_object_with_policy schema encryption projector true nonce tenant app ty id value expected writer
       now s).2 events.
Proof using All.
  intros Hn (es & -> & Hnd). unfold upsert_object_with_policy, on. run_M.
  destruct (upsert_with_policy _ _ _ _ _ _ _ _ _ _ _ (fs_objects s)) as [[r|e] t'] eqn:Eu.
  - apply upsert_with_policy_Ok in Eu as (b & Ep & -> & _).
    destruct (view_put s tenant ty id app es b (next_version r) (iso_from_epoch_ms now) nonce Hn Hnd Ep) as [Hr _].
    cbv zeta in Hr. rewrite Hr, default_some.
    destruct (feed_written s tenant ty id app es b (next_version r) (iso_from_epoch_ms now) nonce writer Hn Hnd Ep)
      as (s2 & Ha & Hs). cbv zeta in Ha. rewrite Ha. eauto.
  - assert (t' = fs_objects s) as -> by by eapply upsert_with_policy_Err. exists []. by apply announces_none.
Qed.

Lemma delete_feed tenant ty id app s :
  ∃ events, announces s (delete_object projector true tenant ty id app s).2 events.
Proof using Type.
  unfold delete_object, on. run_M.
  destruct (ObjectStore.delete tenant ty id app (fs_objects s)) as [r t'] eqn:Ed.
  unfold ObjectStore.delete in Ed. destruct (select_row _ _ _ _ _) as [row|]; simplify_eq.
  - set (s1 := with_objects _ s).
    destruct (announce_spec tenant (ObjectDelete tenant app ty id) s1 eq_refl) as (s2 & Ha & Ho & Hs & Hnt & Hse).
    rewrite Ha. exists [ObjectDelete tenant app ty id]. apply (announces_one s s1 s2); [done..|].
    unfold view, replay, s1. simpl. f_equal. by rewrite map_imap_delete.
  - exists []. by apply announces_none.
Qed.

Lemma append_Err_log window nonce tenant stream sid replica request event payload app eid now db cache e st :
  append schema window encryption constraint_failed nonce tenant stream sid replica request event payload app
    eid now (db, cache) = (Err e, st) → stream_events st.1 = stream_events db.
Proof using Type.
  unfold append, append_new, insert_event. intros Ha.
  repeat (case_match; simplify_eq/=; try done).
Qed.

Lemma append_replayed_log window nonce tenant stream sid replica request event payload app eid now db cache r st :
  append schema window encryption constraint_failed nonce tenant stream sid replica request event payload app
    eid now (db, cache) = (Ok r, st) → ar_created r = false → stream_events st.1 = stream_events db.
Proof using Type. unfold append. intros Ha Hc. repeat (case_match; simplify_eq/=; try done). Qed.

Lemma append_feed nonce tenant stream sid replica request event payload app uuid now s :
  length nonce = NONCE_LEN → record_value payload →
  ∃ events, announces s
    (append_event schema encryption constraint_failed projector true replay_window_ms nonce tenant stream sid
       replica request event payload app uuid now s).2 events.
Proof using All.
  intros Hn Hp. unfold append_event, on. run_M.
  destruct (append _ _ _ _ _ _ _ _ _ _ _ _ _ _ _ (fs_streams s, fs_cache s)) as [[r|e] st] eqn:Ea.
  - destruct (ar_created r) eqn:Ec.
    + destruct st as [db' cache'].
      destruct (append_created _ _ _ _ _ _ _ _ _ _ _ _ _ _ _ _ _ _ _ _ Ea Ec) as [Hnew _].
      set (stored := ar_event r) in *. eapply append_new_Ok in Hnew as (Hst & row & Hrows & _ & Hra & Hrt & _ & _ & _ & _ & _ & _ & _ & Hun);
        [|done..]. specialize (Hun Hn Hp).
      set (s1 := with_streams (db', cache') s).
      destruct (announce_spec (st_tenant_id stored) (StreamAppend (st_tenant_id stored) stored) s1 eq_refl)
        as (s2 & Ha & Ho & Hs & Hnt & Hse).
      rewrite Ha. exists [StreamAppend (st_tenant_id stored) stored].
      apply (announces_one s s1 s2); [done..|]. unfold view, replay, s1. simpl. f_equal.
      rewrite Hrows, omap_app. simpl. rewrite Hra, Hrt, Hun. done.
    + exists []. apply announces_none; try done. simpl. by eapply append_replayed_log.
  - exists []. apply announces_none; try done. simpl. by eapply append_Err_log.
Qed.

End Feed.

Section Histories.
Context `{PackedColumn PackedRecord, PackedColumn PackedStreamEvent, CryptoLaws}.
Context {SearchOp : Type}.
Context (schema : FrickSchema) (encryption : option KeyProvider) (constraint_failed : string).
Context (projector : option (FrickStoreWriteEvent → option (list SearchOp))) (window : Z).

Definition facade_ops (ops : list FacadeOp) (s : FrickStore SearchOp) : FrickStore SearchOp :=
  foldl (λ s op, facade_op schema encryption constraint_failed projector window op s) s ops.

Lemma op_feed op s :
  validate_schema schema = Ok tt → engine_ok (T := PackedRecord) encryption →
  engine_ok (T := PackedStreamEvent) encryption → op_wf op →
  ∃ events, announces schema encryption projector s
    (facade_op schema encryption constraint_failed projector window op s) events.
Proof using All.
  intros Hs Ho He Hop. destruct op; simpl in *.
  - destruct Hop. by apply upsert_feed.
  - destruct Hop. by apply policy_feed.
  - apply delete_feed.
  - destruct Hop. by apply append_feed.
  - exists []. unfold set_presence, on. destruct (Presence.set _ _ _ _ _ _). by apply announces_none.
  - exists []. unfold enqueue_signal, on. destruct (Signals.enqueue _ _ _ _ _ _). by apply announces_none.
Qed.
End Histories.

(** C6: The write listener's events are an exact change log: after any
    history of facade operations, failed ones included, replaying the events the
    listener received since a point over the readable contents at that point
    gives the readable contents now, objects and stream log, and the search
    projector was handed the same events in the same order. *)
Theorem change_feed_exact `{PackedColumn PackedRecord, PackedColumn PackedStreamEvent, CryptoLaws}
    {SearchOp} (schema : FrickSchema) (encryption : option KeyProvider) (msg : string)
    (projector : option (FrickStoreWriteEvent → option (list SearchOp))) (window : Z)
    (ops : list FacadeOp) (s : FrickStore SearchOp) :
  validate_schema schema = Ok tt → engine_ok (T := PackedRecord) encryption →
  engine_ok (T := PackedStreamEvent) encryption → Forall op_wf ops →
  let s' := facade_ops schema encryption msg projector window ops s in
  ∃ events, fs_notified s' = fs_notified s ++ events
    ∧ fs_search s' = fs_search s ++ concat (projected projector <$> events)
    ∧ view schema encryption s' = foldl replay (view schema encryption s) events.
Proof.
  intros Hs Ho He Hops. revert s. induction Hops as [|op ops Hop _ IH]; intros s; simpl.
  - exists []. by rewrite !app_nil_r.
  - destruct (op_feed schema encryption msg projector window op s Hs Ho He Hop) as (e1 & Hn1 & Hs1 & Hv1).
    destruct (IH (facade_op schema encryption msg projector window op s)) as (e2 & Hn2 & Hs2 & Hv2).
    exists (e1 ++ e2). unfold facade_ops in *. split_and!.
    + by rewrite Hn2, Hn1, app_assoc.
    + by rewrite Hs2, Hs1, fmap_app, concat_app, app_assoc.
    + by rewrite Hv2, Hv1, foldl_app.
Qed.

Module SampleFacade.
Import ToyCrypto ToyPacked.
Definition empty : FrickStore string :=
  {| fs_objects := ∅; fs_streams := empty_db; fs_cache := SampleLog.cache0; fs_leases := ∅;
     fs_outbox := {| ob_rows := []; ob_next_id := 1 |}; fs_jobs := {| jobs := []; job_seq := 0 |};
     fs_sessions := ∅; fs_settings := []; fs_search := []; fs_notified := [] |}.
Definition task (title : string) : Value := VMap (str_entries [("title", VStr title)]).
Definition projector (e : FrickStoreWriteEvent) : option (list string) := Some [event_kind e].
Definition history : list FacadeOp :=
  [Fo_policy nonce "t1" "app1" "Task" "a" (task "one") None (Some "ann") 1700000000000;
   Fo_policy nonce "t1" "app2" "Task" "a" (task "theft") None (Some "eve") 1700000000000;
   Fo_upsert nonce "t1" "Task" "b" (task "two") 1 "app1" 1700000000001;
   Fo_append nonce "t1" "TaskStream" "s1" "r" "q1" "TaskDone" (task "one") "app1" "u1" 1700000000002;
   Fo_append nonce "t1" "TaskStream" "s1" "r" "q1" "TaskDone" (task "one") "app1" "u2" 1700000000003;
   Fo_delete "t1" "Task" "a" "app1"; Fo_delete "t1" "Task" "a" "app1"].
Definition final : FrickStore string :=
  facade_ops SampleSchema.schema enc "UNIQUE constraint failed" (Some projector) 60000 history empty.
Lemma task_record title : record_value (task title).
Proof. exists [("title", VStr title)]. split; [done|]. apply NoDup_singleton. Qed.
Lemma history_wf : Forall op_wf history.
Proof. unfold history. repeat constructor; apply task_record. Qed.
End SampleFacade.

Import ToyCrypto ToyPacked.

(** Witness: of seven operations four change something and four events were sent,
    with the stolen write, the replayed append and the second delete silent. *)
Lemma change_feed_exact_witness :
  (event_kind <$> fs_notified SampleFacade.final)
    = ["objectUpsert"; "objectUpsert"; "streamAppend"; "objectDelete"]
  ∧ view SampleSchema.schema ToyPacked.enc SampleFacade.final
    = foldl replay (view SampleSchema.schema ToyPacked.enc SampleFacade.empty)
        (fs_notified SampleFacade.final).
Proof.
  split; [vm_compute; reflexivity|].
  destruct (change_feed_exact SampleSchema.schema ToyPacked.enc "UNIQUE constraint failed"
    (Some SampleFacade.projector) 60000 SampleFacade.history SampleFacade.empty
    SampleSchema.schema_validates ToyPacked.enc_ok ToyPacked.enc_event_ok SampleFacade.history_wf)
    as (events & Hn & _ & Hv).
  unfold SampleFacade.final. rewrite Hv, Hn. reflexivity.
Defined.

(** ** Retention *)

(** [leb a b] with ties on the row id. *)
Lemma oldest_le_alt rowid a b :
  oldest_le rowid a b = true ↔
  (a.2.2 ≠ b.2.2 ∧ Str.leb a.2.2 b.2.2 = true) ∨ (a.2.2 = b.2.2 ∧ rowid a.1 ≤ rowid b.1).
Proof.
  unfold oldest_le, Str.ltb. rewrite orb_true_iff, andb_true_iff, negb_true_iff, String.eqb_eq, Z.leb_le.
  assert (Str.leb b.2.2 a.2.2 = false ↔ a.2.2 ≠ b.2.2 ∧ Str.leb a.2.2 b.2.2 = true) as ->; [|done].
  destruct (lex_le_total (Str.bytes a.2.2) (Str.bytes b.2.2)) as [Hab|Hba]; fold (Str.leb a.2.2 b.2.2) in *;
    fold (Str.leb b.2.2 a.2.2) in *.
  - split; [intros Hf; split; [|done]; intros He; rewrite He in *; congruence|].
    intros [Hne _]. destruct (Str.leb b.2.2 a.2.2) eqn:E; [|done]. by destruct Hne; apply str_leb_antisym.
  - rewrite Hba. split; [done|]. intros [Hne Hab]. by destruct Hne; apply str_leb_antisym.
Qed.
Lemma oldest_le_total rowid a b : oldest_le rowid a b = true ∨ oldest_le rowid b a = true.
Proof.
  rewrite !oldest_le_alt. destruct (decide (a.2.2 = b.2.2)) as [He|Hne].
  - rewrite He. destruct (Z.le_ge_cases (rowid a.1) (rowid b.1)); [left|right]; right; split; auto; lia.
  - destruct (lex_le_total (Str.bytes a.2.2) (Str.bytes b.2.2)); [left|right]; left; split; auto; congruence.
Qed.
Lemma oldest_le_trans rowid a b c :
  oldest_le rowid a b = true → oldest_le rowid b c = true → oldest_le rowid a c = true.
Proof.
  rewrite !oldest_le_alt. intros [[Hn1 H1]|[H1 Hr1]] [[Hn2 H2]|[H2 Hr2]].
  - left. split; [|by eapply lex_le_trans]. intros He. rewrite He in *. by destruct Hn2; apply str_leb_antisym.
  - left. rewrite <- H2. done.
  - left. rewrite H1. done.
  - right. split; [congruence|lia].
Qed.

Section Retention.
Implicit Types (t : KeyTable) (cutoffs : list (string * string)).

(** Older than every cutoff that applies to its tenant allows. *)
Definition aged_by cutoffs (kv : (string * string * string * string) * (string * string)) : bool :=
  existsb (λ c, String.eqb (key_tenant kv.1) c.1 && Str.ltb kv.2.2 c.2) cutoffs.
Definition aged cutoffs (global : string) (kv : (string * string * string * string) * (string * string)) : bool :=
  aged_by cutoffs kv || (Str.ltb kv.2.2 global && negb (contains cutoffs.*1 (key_tenant kv.1))).

Lemma delete_keys_filter w t :
  delete_keys w t = (Z.of_nat (size t) - Z.of_nat (size (base.filter (λ kv, w kv = false) t)),
                     base.filter (λ kv, w kv = false) t).
Proof.
  unfold delete_keys. f_equal.
  pose proof (map_subseteq_size _ _ (map_filter_subseteq (λ kv, w kv = false) t)). lia.
Qed.

Lemma filter_twice (p q : (string * string * string * string) * (string * string) → bool) t :
  base.filter (λ kv, q kv = false) (base.filter (λ kv, p kv = false) t)
  = base.filter (λ kv, p kv || q kv = false) t.
Proof. rewrite map_filter_filter. apply map_filter_ext. intros k v _. rewrite orb_false_iff. naive_solver. Qed.

Lemma prune_tenants_spec cutoffs n t :
  foldl prune_tenant (n, t) cutoffs
  = (n + (Z.of_nat (size t) - Z.of_nat (size (base.filter (λ kv, aged_by cutoffs kv = false) t))),
     base.filter (λ kv, aged_by cutoffs kv = false) t).
Proof.
  revert n t. induction cutoffs as [|c cutoffs IH]; intros n t.
  - simpl. rewrite map_filter_id by done. f_equal. lia.
  - cbn [foldl]. unfold prune_tenant at 2. rewrite delete_keys_filter. cbn [fst snd].
    rewrite IH, filter_twice. f_equal. unfold aged_by. simpl. lia.
Qed.

Lemma prune_age_spec cutoffs global t :
  prune_age cutoffs global t
  = (Z.of_nat (size t) - Z.of_nat (size (base.filter (λ kv, aged cutoffs global kv = false) t)),
     base.filter (λ kv, aged cutoffs global kv = false) t).
Proof.
  unfold prune_age. rewrite prune_tenants_spec, delete_keys_filter. cbn [fst snd]. rewrite filter_twice.
  f_equal. unfold aged. lia.
Qed.

Lemma filter_take_keys (A B : list ((string * string * string * string) * (string * string))) :
  NoDup (A ++ B).*1 →
  base.filter (λ kv, bool_decide (kv.1 ∈ A.*1) = false) (list_to_map (A ++ B) : KeyTable) = list_to_map B.
Proof.
  intros Hnd. rewrite fmap_app in Hnd. apply NoDup_app in Hnd as (HA & Hdis & HB).
  apply map_eq. intros k. apply option_eq. intros v.
  rewrite map_lookup_filter_Some, <- !elem_of_list_to_map by (rewrite ?fmap_app; by apply NoDup_app || done).
  rewrite elem_of_app, bool_decide_eq_false. simpl. split; [|intros Hin; split; [by right|]].
  - intros [[Hin|Hin] Hk]; [|done]. destruct Hk. apply list_elem_of_fmap. by exists (k, v).
  - intros Hk. apply (Hdis k); [done|]. apply list_elem_of_fmap. by exists (k, v).
Qed.

Context (rowid : string * string * string * string → Z).

(** The cap pass keeps the newest rows, at most the limit. *)
Lemma prune_cap_spec max_rows t :
  0 ≤ max_rows ≤ i64_max → Z.of_nat (size t) ≤ i64_max →
  ∃ t2, prune_cap rowid max_rows t = (Z.of_nat (size t) - Z.of_nat (size t2), t2)
    ∧ t2 ⊆ t ∧ Z.of_nat (size t2) = Z.min (Z.of_nat (size t)) max_rows
    ∧ ∀ k v k' v', t !! k = Some v → t2 !! k = None → t2 !! k' = Some v' →
        oldest_le rowid (k, v) (k', v') = true.
Proof.
  intros Hm Hsz. unfold prune_cap.
  assert (i64_sub (Z.of_nat (size t)) max_rows = Z.of_nat (size t) - max_rows) as ->.
  { unfold i64_sub. apply wrap64_id. unfold is_i64, i64_min, i64_max in *. lia. }
  case_match eqn:Ho; [apply Z.ltb_lt in Ho|apply Z.ltb_ge in Ho].
  2:{ exists t. split_and!; [f_equal; lia|done|lia|]. intros. congruence. }
  set (n := Z.to_nat _). set (ord := order_by (oldest_le rowid) (map_to_list t)).
  assert (ord ≡ₚ map_to_list t) as Hperm by apply order_by_perm.
  assert (NoDup ord.*1) as Hnd by (rewrite Hperm; apply NoDup_fst_map_to_list).
  assert (t = list_to_map ord) as Ht.
  { rewrite (list_to_map_proper ord (map_to_list t)) by done. by rewrite list_to_map_to_list. }
  rewrite delete_keys_filter. set (t2 := base.filter _ t).
  assert (t2 = list_to_map (drop n ord)) as Ht2.
  { unfold t2. pose proof (filter_take_keys (take n ord) (drop n ord)) as Hf.
    rewrite take_drop, <- Ht in Hf. by apply Hf. }
  assert (NoDup (drop n ord).*1) as Hnd2.
  { rewrite <- (take_drop n ord), fmap_app in Hnd. by apply NoDup_app in Hnd as (_ & _ & ?). }
  assert (length ord = size t) as Hlen by (rewrite Hperm; apply length_map_to_list).
  exists t2. split_and!; [done|apply map_filter_subseteq| |].
  - rewrite Ht2, map_size_list_to_map, length_drop, Hlen by done. lia.
  - intros k v k' v' Hk Hk2 Hk'.
    pose proof (order_by_sorted (oldest_le rowid) (map_to_list t) (oldest_le_total rowid) (oldest_le_trans rowid))
      as Hsort. fold ord in Hsort. rewrite <- (take_drop n ord) in Hsort.
    rewrite Ht2 in Hk2, Hk'. apply elem_of_list_to_map in Hk'; [|done].
    rewrite Ht in Hk. apply elem_of_list_to_map in Hk; [|done].
    rewrite <- (take_drop n ord), elem_of_app in Hk. destruct Hk as [Hk|Hk].
    + apply (StronglySorted_app_1_elem_of _ _ _ _ _ Hsort Hk Hk').
    + apply elem_of_list_to_map in Hk; [congruence|done].
Qed.
End Retention.

Lemma keys_size_le (m1 m2 : KeyTable) : m1 ⊆ m2 → (size m1 ≤ size m2)%nat.
Proof. apply map_subseteq_size. Qed.
Lemma keys_size_eq (m1 m2 : KeyTable) : m1 ⊆ m2 → (size m2 ≤ size m1)%nat → m1 = m2.
Proof. apply map_subseteq_size_eq. Qed.

(** Retention of idempotency keys: the age pass removes exactly the keys older
    than their tenant's cutoff, the cap pass leaves at most the limit and only
    removes keys at least as old as every key it keeps, surviving rows and the
    log are untouched, and when anything was removed the front cache is empty,
    so no removed key can still be answered from it. *)
Theorem prune_exact {SearchOp} (parse_f64 : string → option f64)
    (rowid : string * string * string * string → Z) (fmt_f64 : f64 → string) (cap : f64)
    (retention_ms max_rows now : Z) (s : FrickStore SearchOp) :
  is_ok (IdempotencyCache.new (V := CachedIdempotentEvent) fmt_f64 cap) = true →
  0 ≤ max_rows ≤ i64_max →
  Z.of_nat (size (idempotency_keys (fs_streams s))) ≤ i64_max →
  ∃ r s', prune parse_f64 rowid fmt_f64 cap retention_ms max_rows now s = (Ok r, s')
  ∧ let cutoffs := collect_tenant_retention_cutoffs parse_f64 (fs_settings s) now in
    let old := idempotency_keys (fs_streams s) in
    let live := base.filter (λ kv, aged cutoffs (epoch_ms_to_iso (i64_sub now retention_ms)) kv = false) old in
    let kept := idempotency_keys (fs_streams s') in
    pr_by_age r = Z.of_nat (size old) - Z.of_nat (size live)
    ∧ pr_by_cap r = Z.of_nat (size live) - Z.of_nat (size kept)
    ∧ kept ⊆ live ∧ Z.of_nat (size kept) = Z.min (Z.of_nat (size live)) max_rows
    ∧ (∀ k v k' v', live !! k = Some v → kept !! k = None → kept !! k' = Some v' →
         oldest_le rowid (k, v) (k', v') = true)
    ∧ stream_events (fs_streams s') = stream_events (fs_streams s)
    ∧ (kept = old ∧ fs_cache s' = fs_cache s
       ∨ ∃ c, fs_cache s' = Some c ∧ entries c = ∅).
Proof.
  intros Hcap Hm Hsz. unfold prune. rewrite prune_age_spec.
  set (live := base.filter _ (idempotency_keys (fs_streams s))).
  set (old := idempotency_keys (fs_streams s)) in *.
  assert (live ⊆ old) as Hlo by apply map_filter_subseteq.
  pose proof (keys_size_le _ _ Hlo) as Hls.
  clearbody live old.
  destruct (prune_cap_spec rowid max_rows live Hm ltac:(lia)) as (kept & Hc & Hsub & Hsize & Hold).
  rewrite Hc. pose proof (keys_size_le _ _ Hsub) as Hks.
  destruct (0 <? _) eqn:Ea; [|destruct (0 <? Z.of_nat (size live) - _) eqn:Eb]; cbn [orb].
  1,2: destruct (IdempotencyCache.new fmt_f64 cap) as [c|e] eqn:En; [|done]; do 2 eexists; split; [done|];
    split_and!; try done; right; exists c; split; [done|]; unfold IdempotencyCache.new in En; by case_match; simplify_eq.
  do 2 eexists. split; [done|]. split_and!; try done. left. split; [|done]. simpl.
  apply Z.ltb_ge in Ea, Eb.
  assert (kept = live) as -> by (apply keys_size_eq; [done|lia]).
  apply keys_size_eq; [done|lia].
Qed.

Module SamplePrune.
Definition key (tenant request : string) : string * string * string * string := ("app1", tenant, "r", request).
Definition keys : KeyTable :=
  list_to_map [(key "t1" "q1", ("e1", "2023-11-14T22:13:10.000Z")); (key "t1" "q2", ("e2", "2023-11-14T22:13:11.000Z"));
               (key "t1" "q3", ("e3", "2023-11-14T22:13:12.000Z")); (key "t2" "q4", ("e4", "2023-11-14T22:13:13.000Z"))].
Definition store : FrickStore string :=
  {| fs_objects := ∅; fs_streams := {| stream_events := []; idempotency_keys := keys |};
     fs_cache := SampleLog.cache0; fs_leases := ∅;
     fs_outbox := {| ob_rows := []; ob_next_id := 1 |}; fs_jobs := {| jobs := []; job_seq := 0 |};
     fs_sessions := ∅; fs_settings := [("t2", "retentionMs", "5000")]; fs_search := []; fs_notified := [] |}.
Definition parse (raw : string) : option f64 := if String.eqb raw "5000" then Some (F64_fin 5000 0) else None.
(** One day of retention, at most two rows; [t2] keeps five seconds. *)
Definition pruned := prune parse (λ _, 0) (λ _, "") (F64_fin 2 0) 86400000 2 1700000000000 store.
End SamplePrune.

(** Witness: the row of the tenant with an override ages out, then the oldest row
    of the other tenant goes to meet the cap. *)
Lemma prune_exact_witness :
  pr_by_age <$> ok SamplePrune.pruned.1 = Some 1
  ∧ (map_to_list (idempotency_keys (fs_streams SamplePrune.pruned.2))).*1
    ≡ₚ [SamplePrune.key "t1" "q2"; SamplePrune.key "t1" "q3"]
  ∧ Z.of_nat (size (idempotency_keys (fs_streams SamplePrune.pruned.2))) ≤ 2.
Proof.
  split; [vm_compute; reflexivity|split].
  - vm_compute. repeat (reflexivity || constructor).
  - destruct (prune_exact SamplePrune.parse (λ _, 0) (λ _, "") (F64_fin 2 0) 86400000 2 1700000000000
      SamplePrune.store eq_refl) as (r & s' & Hp & _ & _ & _ & Hsz & _);
      [vm_compute; split; discriminate|vm_compute; discriminate|].
    unfold SamplePrune.pruned. rewrite Hp. cbn [snd]. rewrite Hsz. apply Z.le_min_r.
Defined.
