(* ===== verification/Frames.v ===== *)
(** * Frames ([frick-protocol/src/frame.rs], the commands of [calls.rs])

    The payloads of the sync protocol and the frame type. A map payload field
    ([IndexMap]) is its list of entries. *)

From Stdlib Require Import ZArith Lia Ascii String.
From stdpp Require Import base gmap strings list pretty.
From S2P Require Import Prelude Value Errors Schema Codec Handshake Authz MediaPlane Calls.

Inductive SubscriptionKind : Type := Sub_Object | Sub_Stream | Sub_Presence | Sub_Signal | Sub_Projection.
#[export] Instance SubscriptionKind_eq_dec : EqDecision SubscriptionKind.
Proof. solve_decision. Defined.
#[export, refine] Instance SubscriptionKind_enum : StringEnum SubscriptionKind := {|
  enum_name := "SubscriptionKind";
  enum_ALL := [Sub_Object; Sub_Stream; Sub_Presence; Sub_Signal; Sub_Projection];
  enum_as_str k := match k with
    | Sub_Object => "object" | Sub_Stream => "stream" | Sub_Presence => "presence"
    | Sub_Signal => "signal" | Sub_Projection => "projection" end;
|}.
Proof. all: solve_enum. Defined.

Record HelloPayload : Type := {
  hp_replica_id : string; hp_device_id : string; hp_schema_hash : string;
  hp_known_cursors : list (string * Z); hp_session_token : option string;
  hp_client_capabilities : option FrickClientCapabilities;
}.
Record SubscribePayload : Type := {
  sp_subscription_id : string; sp_kind : SubscriptionKind; sp_name : string; sp_key : option string;
  sp_cursor : option Z;
}.
Record SnapshotPayload : Type := {
  sn_subscription_id : string; sn_objects : list PackedRecord; sn_cursor : Z;
}.
Record StreamPagePayload : Type := {
  pg_subscription_id : string; pg_events : list PackedStreamEvent; pg_cursor : Z; pg_has_more : bool;
}.
Record AppendPayload : Type := {
  ap_request_id : string; ap_stream : string; ap_key : string; ap_event : string; ap_payload : Value;
}.
Record AckPayload : Type := { ak_request_id : string; ak_cursor : option Z; ak_version : option Z }.
Record ObjectUpsertPayload : Type := {
  ou_request_id : string; ou_object_type : string; ou_object_id : string; ou_value : Value;
  ou_expected_version : option Z;
}.
Record NackPayload : Type := {
  nk_request_id : string; nk_error : FrickErrorEnvelope; nk_code : option FrickErrorCode;
  nk_message : option string;
}.
Record HelloAckPayload : Type := {
  ha_schema_hash : string; ha_schema_id : string; ha_schema_revision : Z;
  ha_schema_compatibility : SchemaCompatibilityResult; ha_server_capabilities : FrickServerCapabilities;
}.
Record ObjectRemoval : Type := { rm_object_type : string; rm_id : string }.
Record DeltaPayload : Type := {
  dl_objects : list PackedRecord; dl_events : list PackedStreamEvent; dl_cursor : Z;
  dl_removed : option (list ObjectRemoval);
}.
Record PresenceSetPayload : Type := {
  ps_request_id : string; ps_name : string; ps_key : string; ps_value : Value;
}.
Record PresenceClearPayload : Type := { pc_request_id : string; pc_name : string; pc_key : string }.
Record PresenceDeltaPayload : Type := {
  pd_subscription_id : string; pd_records : list PackedPresenceRecord; pd_cleared : list string;
}.
Record SignalPayload : Type := {
  sig_request_id : string; sig_name : string; sig_key : string; sig_value : Value;
}.
Record SignalDeliverPayload : Type := { sd_envelope : PackedSignalEnvelope }.
Record CursorCommitPayload : Type := { cu_subscription_id : string; cu_cursor : Z }.
Record PingPayload : Type := { ping_sent_at : Z }.
Record PongPayload : Type := { pong_sent_at : Z; pong_received_at : Z }.
Record SyncStatusPayload : Type := {
  ss_connected : bool; ss_cursors : list (string * Z); ss_in_flight : Z;
}.
Record ProjectionDeltaChange : Type := { dc_key : string; dc_value : Value }.
Definition is_delete (c : ProjectionDeltaChange) : bool := is_nil (dc_value c).
Record ProjectionDeltaPayload : Type := {
  pj_projection : string; pj_changes : list ProjectionDeltaChange;
}.

(** ** Call commands *)

Inductive CallSfuMediaKind : Type := SfuKind_Audio | SfuKind_Video.
Inductive CallCommandOp : Type :=
| Op_Create (conversation_id : string) (invitee_user_ids : list string) (kind : option CallKind)
    (region_hint : option string)
| Op_Join (call_id : string)
| Op_Accept (call_id : string)
| Op_Leave (call_id : string)
| Op_End (call_id : string)
| Op_SetMediaState (call_id : string) (media : CallMediaStatePatch)
| Op_SfuConnectTransport (call_id token transport_id : string) (dtls_parameters : Value)
| Op_SfuProduce (call_id token transport_id : string) (kind : CallSfuMediaKind) (rtp_parameters : Value)
| Op_SfuConsume (call_id token transport_id producer_id : string) (rtp_capabilities : Value).
Inductive CallCommandName : Type :=
| Name_Create | Name_Join | Name_Accept | Name_Leave | Name_End | Name_SetMediaState
| Name_SfuConnectTransport | Name_SfuProduce | Name_SfuConsume.
#[export] Instance CallCommandName_eq_dec : EqDecision CallCommandName.
Proof. solve_decision. Defined.
Definition op_name (op : CallCommandOp) : CallCommandName :=
  match op with
  | Op_Create _ _ _ _ => Name_Create | Op_Join _ => Name_Join | Op_Accept _ => Name_Accept
  | Op_Leave _ => Name_Leave | Op_End _ => Name_End | Op_SetMediaState _ _ => Name_SetMediaState
  | Op_SfuConnectTransport _ _ _ _ => Name_SfuConnectTransport
  | Op_SfuProduce _ _ _ _ _ => Name_SfuProduce | Op_SfuConsume _ _ _ _ _ => Name_SfuConsume
  end.
Record CallCommandPayload : Type := { cm_request_id : string; cm_command : CallCommandOp }.
Record CallSfuProduceResult : Type := { spr_producer_id : string; spr_kind : CallSfuMediaKind }.
Record CallSfuConsumeResult : Type := {
  scr_consumer_id : string; scr_producer_id : string; scr_kind : CallSfuMediaKind;
  scr_rtp_parameters : Value;
}.
Record CallCommandResultPayload : Type := {
  cres_request_id : string; cres_op : CallCommandName; cres_room : option CallRoomRecord;
  cres_invites : option (list CallInviteRecord); cres_participant : option CallParticipantRecord;
  cres_media_grant : option CallMediaGrant; cres_invite : option CallInviteRecord;
  cres_producer : option CallSfuProduceResult; cres_consumer : option CallSfuConsumeResult;
}.

(** ** Frames *)

Inductive FrickFrame : Type :=
| F_Hello (p : HelloPayload)
| F_Schema (s : FrickSchema)
| F_Subscribe (p : SubscribePayload)
| F_Snapshot (p : SnapshotPayload)
| F_StreamPage (p : StreamPagePayload)
| F_Append (p : AppendPayload)
| F_Ack (p : AckPayload)
| F_Nack (p : NackPayload)
| F_Delta (p : DeltaPayload)
| F_PresenceSet (p : PresenceSetPayload)
| F_PresenceClear (p : PresenceClearPayload)
| F_PresenceDelta (p : PresenceDeltaPayload)
| F_SignalSend (p : SignalPayload)
| F_SignalDeliver (p : SignalDeliverPayload)
| F_CursorCommit (p : CursorCommitPayload)
| F_Ping (p : PingPayload)
| F_Pong (p : PongPayload)
| F_SyncStatus (p : SyncStatusPayload)
| F_HelloAck (p : HelloAckPayload)
| F_ProjectionDelta (p : ProjectionDeltaPayload)
| F_ObjectUpsert (p : ObjectUpsertPayload)
| F_CallCommand (p : CallCommandPayload)
| F_CallCommandResult (p : CallCommandResultPayload).

Definition frame_kind (f : FrickFrame) : FrameKind :=
  match f with
  | F_Hello _ => K_Hello | F_Schema _ => K_Schema | F_Subscribe _ => K_Subscribe
  | F_Snapshot _ => K_Snapshot | F_StreamPage _ => K_StreamPage | F_Append _ => K_Append
  | F_Ack _ => K_Ack | F_Nack _ => K_Nack | F_Delta _ => K_Delta | F_PresenceSet _ => K_PresenceSet
  | F_PresenceClear _ => K_PresenceClear | F_PresenceDelta _ => K_PresenceDelta
  | F_SignalSend _ => K_SignalSend | F_SignalDeliver _ => K_SignalDeliver
  | F_CursorCommit _ => K_CursorCommit | F_Ping _ => K_Ping | F_Pong _ => K_Pong
  | F_SyncStatus _ => K_SyncStatus | F_HelloAck _ => K_HelloAck
  | F_ProjectionDelta _ => K_ProjectionDelta | F_ObjectUpsert _ => K_ObjectUpsert
  | F_CallCommand _ => K_CallCommand | F_CallCommandResult _ => K_CallCommandResult
  end.
