(* ===== verification/Projections.v ===== *)
(** * Projections ([frick-server/src/projections.rs])

    The registry of an app: projections in registration order, the rows they
    materialize per tenant, and the delta notices handed to the listener. An
    [IndexMap] is its list of entries in insertion order. Handlers are
    application code with a state of their own and are parameters; a handler
    that panics returns [None]. *)

From Stdlib Require Import ZArith Lia Ascii String.
From stdpp Require Import base gmap strings list pretty.
From S2P Require Import Prelude Value Errors Schema Codec Handshake StoreBase StreamStore Authz ServerErrors Calls Frames Facade.

(** ** Insertion-ordered maps *)

Module IndexMap.
Section Ops.
Context {V : Type}.
Fixpoint get (k : string) (m : list (string * V)) : option V :=
  match m with
  | [] => None
  | (k', v) :: m' => if String.eqb k' k then Some v else get k m'
  end.
(** [insert]: in place when present, else at the end. *)
Fixpoint insert (k : string) (v : V) (m : list (string * V)) : list (string * V) :=
  match m with
  | [] => [(k, v)]
  | (k', v') :: m' => if String.eqb k' k then (k', v) :: m' else (k', v') :: insert k v m'
  end.
(** [shift_remove]: the others keep their order. *)
Fixpoint shift_remove (k : string) (m : list (string * V)) : list (string * V) :=
  match m with
  | [] => []
  | (k', v') :: m' => if String.eqb k' k then m' else (k', v') :: shift_remove k m'
  end.

Lemma get_insert k v m : get k (insert k v m) = Some v.
Proof.
  induction m as [|[k' v'] m IH]; simpl; [by rewrite String.eqb_refl|].
  destruct (String.eqb k' k) eqn:E; simpl; by rewrite E.
Qed.
Lemma get_insert_ne k k2 v m : k ≠ k2 → get k2 (insert k v m) = get k2 m.
Proof.
  intros Hne. induction m as [|[k' v'] m IH]; simpl.
  - by destruct (String.eqb_spec k k2).
  - destruct (String.eqb_spec k' k) as [->|]; simpl; [by destruct (String.eqb_spec k k2)|].
    by rewrite IH.
Qed.
Lemma get_shift_remove_ne k k2 m : k ≠ k2 → get k2 (shift_remove k m) = get k2 m.
Proof.
  intros Hne. induction m as [|[k' v'] m IH]; simpl; [done|].
  destruct (String.eqb_spec k' k) as [->|]; simpl; [by destruct (String.eqb_spec k k2)|]. by rewrite IH.
Qed.
Lemma insert_keys k v m : k ∈ (insert k v m).*1 ∧ ∀ x, x ∈ (insert k v m).*1 ↔ x = k ∨ x ∈ m.*1.
Proof.
  assert (∀ x, x ∈ (insert k v m).*1 ↔ x = k ∨ x ∈ m.*1) as H; [|split; [apply H; by left|done]].
  intros x. induction m as [|[k' v'] m IH]; simpl; [set_solver|].
  destruct (String.eqb_spec k' k) as [->|]; simpl; set_solver.
Qed.
Lemma insert_NoDup k v m : NoDup m.*1 → NoDup (insert k v m).*1.
Proof.
  induction m as [|[k' v'] m IH]; simpl; intros Hnd; [repeat constructor; set_solver|].
  apply NoDup_cons in Hnd as [Hk Hnd]. destruct (String.eqb_spec k' k) as [->|]; simpl; [by constructor|].
  constructor; [|by apply IH]. rewrite (proj2 (insert_keys k v m)). set_solver.
Qed.
Lemma shift_remove_sublist k m : sublist (shift_remove k m) m.
Proof.
  induction m as [|[k' v'] m IH]; simpl; [done|]. destruct (String.eqb k' k); [by apply sublist_cons|].
  by apply sublist_skip.
Qed.
Lemma shift_remove_NoDup k m : NoDup m.*1 → NoDup (shift_remove k m).*1.
Proof. intros Hnd. eapply sublist_NoDup; [exact Hnd|]. apply fmap_sublist, shift_remove_sublist. Qed.
Lemma get_shift_remove k m : NoDup m.*1 → get k (shift_remove k m) = None.
Proof.
  induction m as [|[k' v'] m IH]; simpl; [done|]. intros [Hk Hnd]%NoDup_cons.
  destruct (String.eqb_spec k' k) as [->|Hne]; simpl.
  - clear IH Hnd. induction m as [|[x y] m IHm]; simpl in *; [done|].
    destruct (String.eqb_spec x k) as [->|]; [set_solver|]. apply IHm. set_solver.
  - destruct (String.eqb_spec k' k); [done|]. by apply IH.
Qed.
End Ops.
End IndexMap.

(** ** Sources, events, changes *)

Inductive ProjectionSourceKind : Type := Src_Object | Src_Stream.
Record FrickProjectionSource : Type := { src_kind : ProjectionSourceKind; src_type_name : string }.

Inductive FrickProjectionWriteEvent : Type :=
| Pe_ObjectUpsert (tenant_id app_id object_type object_id : string) (object : Value)
| Pe_ObjectDelete (tenant_id app_id object_type object_id : string)
| Pe_StreamEvent (tenant_id app_id stream_type stream_id : string) (stream_event : Value).

Definition event_matches (e : FrickProjectionWriteEvent) (source : FrickProjectionSource) : bool :=
  match src_kind source, e with
  | Src_Object, Pe_ObjectUpsert _ _ ty _ _ | Src_Object, Pe_ObjectDelete _ _ ty _ =>
      String.eqb (src_type_name source) ty
  | Src_Stream, Pe_StreamEvent _ _ ty _ _ => String.eqb (src_type_name source) ty
  | _, _ => false
  end.

(** [None] removes the row. *)
Record ProjectionChange : Type := { ch_key : string; ch_value : option Value }.
Record ProjectionDeltaNotice : Type := {
  no_projection : string; no_tenant_id : string; no_app_id : string; no_changes : list ProjectionChange;
}.
Record FrickProjectionContext : Type := { cx_tenant_id : string; cx_app_id : string }.

(** A handler of state [H]. *)
Record FrickProjection {H : Type} : Type := {
  pr_name : string; pr_sources : list FrickProjectionSource; pr_state : H;
  pr_apply : H → FrickProjectionWriteEvent → FrickProjectionContext → option (list ProjectionChange) * H;
  pr_supports_rebuild : bool; pr_rebuild : H → FrickProjectionContext → H;
  pr_read : H → FrickProjectionContext → list (string * string) → option Value;
}.
Arguments FrickProjection : clear implicits.

Definition Rows : Type := list (string * list (string * list (string * Value))).
Record Registry {H : Type} : Type := {
  rg_order : list string; rg_by_name : list (string * FrickProjection H); rg_rows : Rows;
  (** what the delta listener received *)
  rg_notices : list ProjectionDeltaNotice;
}.
Arguments Registry : clear implicits.

Inductive ProjectionRebuildOutcome : Type := Rebuilt | Rebuild_NotFound | NotSupported.
Inductive ProjectionReadOutcome : Type := Read_Ok (v : Value) | Read_NotFound | MethodNotAllowed.
Record ProjectionDescriptor : Type := {
  de_name : string; de_sources : list FrickProjectionSource; de_supports_rebuild : bool; de_supports_read : bool;
}.

(** ** The rows *)

Definition apply_change (rows : list (string * Value)) (c : ProjectionChange) : list (string * Value) :=
  match ch_value c with
  | Some v => IndexMap.insert (ch_key c) v rows
  | None => IndexMap.shift_remove (ch_key c) rows
  end.

Definition apply_changes_to_snapshot (rows : Rows) (projection tenant_id : string)
    (changes : list ProjectionChange) : Rows :=
  let by_tenant := default [] (IndexMap.get projection rows) in
  let tenant_rows := foldl apply_change (default [] (IndexMap.get tenant_id by_tenant)) changes in
  match tenant_rows with
  | [] =>
      let by_tenant := IndexMap.shift_remove tenant_id by_tenant in
      match by_tenant with
      | [] => IndexMap.shift_remove projection rows
      | _ => IndexMap.insert projection by_tenant rows
      end
  | _ => IndexMap.insert projection (IndexMap.insert tenant_id tenant_rows by_tenant) rows
  end.

(** ** The registry *)

Section Registry.
Context {H : Type}.
Local Abbreviation Reg := (Registry H).

Definition new : Reg := {| rg_order := []; rg_by_name := []; rg_rows := []; rg_notices := [] |}.

Definition register (p : FrickProjection H) : M Reg ServerError unit := λ r,
  match IndexMap.get (pr_name p) (rg_by_name r) with
  | Some _ => (Err (SE_BadRequest ("Projection " +:+ quote +:+ pr_name p +:+ quote +:+ " is already registered")), r)
  | None => (Ok tt, {| rg_order := rg_order r ++ [pr_name p];
                       rg_by_name := IndexMap.insert (pr_name p) p (rg_by_name r);
                       rg_rows := rg_rows r; rg_notices := rg_notices r |})
  end.
Definition names (r : Reg) : list string := rg_order r.
Definition contains_projection (r : Reg) (name : string) : bool :=
  bool_decide (is_Some (IndexMap.get name (rg_by_name r))).
Definition descriptors (r : Reg) : list ProjectionDescriptor :=
  omap (λ name, p ← IndexMap.get name (rg_by_name r);
          Some {| de_name := pr_name p; de_sources := pr_sources p;
                  de_supports_rebuild := pr_supports_rebuild p;
                  de_supports_read := bool_decide (is_Some (pr_read p (pr_state p)
                    {| cx_tenant_id := "_"; cx_app_id := DEFAULT_APP_ID |} [])) |})
    (rg_order r).

Definition with_state (h : H) (p : FrickProjection H) : FrickProjection H :=
  {| pr_name := pr_name p; pr_sources := pr_sources p; pr_state := h; pr_apply := pr_apply p;
     pr_supports_rebuild := pr_supports_rebuild p; pr_rebuild := pr_rebuild p; pr_read := pr_read p |}.
Definition set_handler (name : string) (p : FrickProjection H) (r : Reg) : Reg :=
  {| rg_order := rg_order r; rg_by_name := IndexMap.insert name p (rg_by_name r); rg_rows := rg_rows r;
     rg_notices := rg_notices r |}.

Definition matching (r : Reg) (event : FrickProjectionWriteEvent) : list string :=
  List.filter (λ name, match IndexMap.get name (rg_by_name r) with
                       | Some p => existsb (event_matches event) (pr_sources p)
                       | None => false
                       end) (rg_order r).

(** One matching projection: apply, materialize, tell the listener. *)
Definition notify_one (has_listener : bool) (event : FrickProjectionWriteEvent)
    (ctx : FrickProjectionContext) (r : Reg) (name : string) : Reg :=
  match IndexMap.get name (rg_by_name r) with
  | None => r
  | Some p =>
      let '(applied, h) := pr_apply p (pr_state p) event ctx in
      let r := set_handler name (with_state h p) r in
      match applied with
      | None | Some [] => r
      | Some changes =>
          {| rg_order := rg_order r; rg_by_name := rg_by_name r;
             rg_rows := apply_changes_to_snapshot (rg_rows r) name (cx_tenant_id ctx) changes;
             rg_notices := rg_notices r ++
               (if has_listener
                then [{| no_projection := name; no_tenant_id := cx_tenant_id ctx;
                         no_app_id := cx_app_id ctx; no_changes := changes |}]
                else []) |}
      end
  end.
Definition notify (has_listener : bool) (event : FrickProjectionWriteEvent)
    (ctx : FrickProjectionContext) (r : Reg) : Reg :=
  foldl (notify_one has_listener event ctx) r (matching r event).

Definition tenant_rows (r : Reg) (name tenant_id : string) : list (string * Value) :=
  match (by_tenant ← IndexMap.get name (rg_rows r); IndexMap.get tenant_id by_tenant) with
  | Some rows => rows
  | None => []
  end.
Definition snapshot (r : Reg) (name tenant_id : string) : list ProjectionChange :=
  (λ kv, {| ch_key := kv.1; ch_value := Some kv.2 |}) <$> tenant_rows r name tenant_id.

Definition rebuild_step (ctx : FrickProjectionContext) (acc : list string * Reg) (name : string) :
    list string * Reg :=
  match IndexMap.get name (rg_by_name acc.2) with
  | None => acc
  | Some p =>
      if pr_supports_rebuild p
      then (acc.1 ++ [name], set_handler name (with_state (pr_rebuild p (pr_state p) ctx) p) acc.2)
      else acc
  end.
Definition rebuild_all (ctx : FrickProjectionContext) (r : Reg) : list string * Reg :=
  foldl (rebuild_step ctx) ([], r) (rg_order r).
Definition rebuild_one (name : string) (ctx : FrickProjectionContext) (r : Reg) :
    ProjectionRebuildOutcome * Reg :=
  match IndexMap.get name (rg_by_name r) with
  | None => (Rebuild_NotFound, r)
  | Some p =>
      if negb (pr_supports_rebuild p) then (NotSupported, r)
      else (Rebuilt, set_handler name (with_state (pr_rebuild p (pr_state p) ctx) p) r)
  end.
Definition read_projection (r : Reg) (name : string) (ctx : FrickProjectionContext)
    (query : list (string * string)) : ProjectionReadOutcome :=
  match IndexMap.get name (rg_by_name r) with
  | None => Read_NotFound
  | Some p => match pr_read p (pr_state p) ctx query with
              | Some v => Read_Ok v
              | None => MethodNotAllowed
              end
  end.

(** ** The driver *)

Definition stored_event_to_value (stored : StoredEvent) : Value :=
  let e := st_event stored in
  VMap [(VStr "stream", VStr (se_stream e)); (VStr "streamId", VStr (se_stream_id e));
        (VStr "sequence", VInt (se_sequence e)); (VStr "eventId", VStr (se_event_id e));
        (VStr "event", VStr (se_event e)); (VStr "payload", se_payload e);
        (VStr "tenantId", VStr (st_tenant_id stored)); (VStr "appId", VStr (st_app_id stored))].

Definition drive_projection_write (has_listener : bool) (event : FrickStoreWriteEvent) (r : Reg) : Reg :=
  match event with
  | ObjectUpsert tenant app ty id object _ =>
      notify has_listener (Pe_ObjectUpsert tenant app ty id object)
        {| cx_tenant_id := tenant; cx_app_id := app |} r
  | StreamAppend tenant e =>
      notify has_listener (Pe_StreamEvent tenant (st_app_id e) (se_stream (st_event e))
                             (se_stream_id (st_event e)) (stored_event_to_value e))
        {| cx_tenant_id := tenant; cx_app_id := st_app_id e |} r
  | ObjectDelete _ _ _ _ => r
  end.
End Registry.

Definition changes_to_frame (changes : list ProjectionChange) : list ProjectionDeltaChange :=
  (λ c, {| dc_key := ch_key c; dc_value := default VNil (ch_value c) |}) <$> changes.
Definition notice_to_payload (n : ProjectionDeltaNotice) : ProjectionDeltaPayload :=
  {| pj_projection := no_projection n; pj_changes := changes_to_frame (no_changes n) |}.

(** ** Snapshots and deltas *)

Record rows_wf (rows : Rows) : Prop := {
  rw_projections : NoDup rows.*1;
  rw_tenants : ∀ name by_tenant, IndexMap.get name rows = Some by_tenant → NoDup by_tenant.*1;
}.

Definition rows_at (rows : Rows) (name tenant_id : string) : list (string * Value) :=
  default [] (by_tenant ← IndexMap.get name rows; IndexMap.get tenant_id by_tenant).

Lemma rows_at_insert_ne rows name name2 bt tenant :
  name ≠ name2 → rows_at (IndexMap.insert name bt rows) name2 tenant = rows_at rows name2 tenant.
Proof. intros Hne. unfold rows_at. by rewrite IndexMap.get_insert_ne. Qed.
Lemma rows_at_insert rows name bt tenant :
  rows_at (IndexMap.insert name bt rows) name tenant = default [] (IndexMap.get tenant bt).
Proof. unfold rows_at. by rewrite IndexMap.get_insert. Qed.
Lemma rows_at_get rows name tenant :
  rows_at rows name tenant = default [] (IndexMap.get tenant (default [] (IndexMap.get name rows))).
Proof. unfold rows_at. by destruct (IndexMap.get name rows). Qed.

(** Materializing changes touches one projection and tenant, where it applies
    them one by one. *)
Lemma apply_changes_rows rows name tenant changes name2 tenant2 :
  rows_wf rows →
  rows_at (apply_changes_to_snapshot rows name tenant changes) name2 tenant2
  = if bool_decide (name2 = name ∧ tenant2 = tenant)
    then foldl apply_change (rows_at rows name tenant) changes else rows_at rows name2 tenant2.
Proof.
  intros [Hp Ht]. unfold apply_changes_to_snapshot.
  rewrite (rows_at_get rows name tenant).
  set (bt := default [] (IndexMap.get name rows)).
  assert (NoDup bt.*1) as Hbt by (unfold bt; destruct (IndexMap.get name rows) eqn:E; [by eapply Ht|constructor]).
  set (tr := foldl apply_change (default [] (IndexMap.get tenant bt)) changes).
  destruct (decide (name2 = name)) as [->|Hn].
  2:{ rewrite bool_decide_false by naive_solver. unfold rows_at.
      destruct tr; [destruct (IndexMap.shift_remove tenant bt)|];
        rewrite ?IndexMap.get_shift_remove_ne, ?IndexMap.get_insert_ne by congruence; done. }
  rewrite (rows_at_get rows name tenant2). fold bt.
  destruct (decide (tenant2 = tenant)) as [->|Htn].
  - rewrite bool_decide_true by done. destruct tr as [|x tr'] eqn:Etr.
    + pose proof (IndexMap.get_shift_remove tenant bt Hbt) as Hg.
      destruct (IndexMap.shift_remove tenant bt) as [|y bt']; rewrite ?rows_at_insert, ?Hg; [|done].
      unfold rows_at. by rewrite IndexMap.get_shift_remove.
    + by rewrite rows_at_insert, IndexMap.get_insert.
  - rewrite bool_decide_false by naive_solver. destruct tr as [|x tr'].
    + pose proof (IndexMap.get_shift_remove_ne tenant tenant2 bt ltac:(congruence)) as Hg.
      destruct (IndexMap.shift_remove tenant bt) as [|y bt']; rewrite ?rows_at_insert, <- ?Hg; [|done].
      unfold rows_at. by rewrite IndexMap.get_shift_remove.
    + by rewrite rows_at_insert, IndexMap.get_insert_ne by congruence.
Qed.

Lemma rows_wf_insert rows name bt : rows_wf rows → NoDup bt.*1 → rows_wf (IndexMap.insert name bt rows).
Proof.
  intros [Hp Ht] Hbt. split; [by apply IndexMap.insert_NoDup|]. intros n b Hg.
  destruct (decide (n = name)) as [->|Hne].
  - rewrite IndexMap.get_insert in Hg. by simplify_eq.
  - rewrite IndexMap.get_insert_ne in Hg by congruence. by eapply Ht.
Qed.
Lemma apply_changes_wf rows name tenant changes :
  rows_wf rows → rows_wf (apply_changes_to_snapshot rows name tenant changes).
Proof.
  intros Hw. unfold apply_changes_to_snapshot. set (bt := default [] (IndexMap.get name rows)).
  assert (NoDup bt.*1) as Hbt.
  { unfold bt. destruct (IndexMap.get name rows) eqn:E; [by eapply (rw_tenants rows Hw)|constructor]. }
  destruct (foldl _ _ _).
  - pose proof (IndexMap.shift_remove_NoDup tenant bt Hbt) as Hr.
    destruct (IndexMap.shift_remove tenant bt); [|by apply rows_wf_insert].
    destruct Hw as [Hp Ht]. split; [by apply IndexMap.shift_remove_NoDup|]. intros n b Hg.
    destruct (decide (n = name)) as [->|Hne]; [by rewrite IndexMap.get_shift_remove in Hg|].
    rewrite IndexMap.get_shift_remove_ne in Hg by congruence. by eapply Ht.
  - apply rows_wf_insert; [done|]. by apply IndexMap.insert_NoDup.
Qed.

Section Deltas.
Context {H : Type}.
Implicit Types (r : Registry H) (events : list FrickStoreWriteEvent).

(** The changes a subscriber of a projection and tenant is told of. *)
Definition told (name tenant : string) (notices : list ProjectionDeltaNotice) : list ProjectionChange :=
  concat (no_changes <$> List.filter (λ n, String.eqb (no_projection n) name
                                           && String.eqb (no_tenant_id n) tenant) notices).
Lemma told_app name tenant n1 n2 : told name tenant (n1 ++ n2) = told name tenant n1 ++ told name tenant n2.
Proof. unfold told. by rewrite List.filter_app, fmap_app, concat_app. Qed.
Lemma told_one name tenant n :
  told name tenant [n] = if bool_decide (name = no_projection n ∧ tenant = no_tenant_id n)
                         then no_changes n else [].
Proof.
  unfold told. simpl. destruct (String.eqb_spec (no_projection n) name), (String.eqb_spec (no_tenant_id n) tenant);
    case_bool_decide; simpl; rewrite ?app_nil_r; naive_solver.
Qed.

(** From [r] to [r'] the listener was told exactly what changed. *)
Definition tracks (r r' : Registry H) : Prop :=
  rows_wf (rg_rows r') ∧ ∃ notices, rg_notices r' = rg_notices r ++ notices
    ∧ ∀ name tenant, rows_at (rg_rows r') name tenant
        = foldl apply_change (rows_at (rg_rows r) name tenant) (told name tenant notices).

Lemma tracks_refl r : rows_wf (rg_rows r) → tracks r r.
Proof. intros Hw. split; [done|]. exists []. split; [by rewrite app_nil_r|done]. Qed.
Lemma tracks_trans r1 r2 r3 : tracks r1 r2 → (rows_wf (rg_rows r2) → tracks r2 r3) → tracks r1 r3.
Proof.
  intros (Hw2 & n1 & Hn1 & H1) H23. destruct (H23 Hw2) as (Hw3 & n2 & Hn2 & H2). split; [done|].
  exists (n1 ++ n2). split; [by rewrite Hn2, Hn1, app_assoc|].
  intros name tenant. by rewrite H2, H1, told_app, foldl_app.
Qed.

Lemma notify_one_tracks event ctx r name :
  rows_wf (rg_rows r) → tracks r (notify_one true event ctx r name).
Proof.
  intros Hw. unfold notify_one. destruct (IndexMap.get name (rg_by_name r)) as [p|]; [|by apply tracks_refl].
  destruct (pr_apply p (pr_state p) event ctx) as [[[|c cs]|] h]; try (split; [done|]; exists []; split;
    [by rewrite app_nil_r|done]).
  split; [by apply apply_changes_wf|]. eexists. split; [reflexivity|]. intros n t. cbn [rg_rows set_handler].
  rewrite apply_changes_rows, told_one by done. cbn [no_projection no_tenant_id no_changes].
  case_bool_decide as Hc; [|done]. by destruct Hc as [-> ->].
Qed.

Lemma drive_tracks event r : rows_wf (rg_rows r) → tracks r (drive_projection_write true event r).
Proof.
  intros Hw. assert (∀ e ctx r0, rows_wf (rg_rows r0) → tracks r0 (notify true e ctx r0)) as Hn.
  { intros e ctx r0 Hw0. unfold notify. generalize (matching r0 e). intros l. revert r0 Hw0.
    induction l as [|name l IH]; intros r0 Hw0; simpl; [by apply tracks_refl|].
    eapply tracks_trans; [by apply notify_one_tracks|]. intros. by apply IH. }
  destruct event; simpl; [by apply Hn|by apply tracks_refl|by apply Hn].
Qed.
End Deltas.


Module SampleProjections.
(** Rows of the open tasks; a task titled "done" drops its row. *)
Definition open_apply (h : nat) (e : FrickProjectionWriteEvent) (_ : FrickProjectionContext) :
    option (list ProjectionChange) * nat :=
  match e with
  | Pe_ObjectUpsert _ _ _ id object =>
      (Some [{| ch_key := id;
                ch_value := if bool_decide (object_field_str object "title" = Some "done") then None
                            else Some object |}], S h)
  | _ => (None, h)
  end.
Definition open_tasks : FrickProjection nat :=
  {| pr_name := "open"; pr_sources := [{| src_kind := Src_Object; src_type_name := "Task" |}]; pr_state := 0%nat;
     pr_apply := open_apply; pr_supports_rebuild := false; pr_rebuild := λ h _, h; pr_read := λ _ _ _, None |}.
Definition registry : Registry nat := (register open_tasks new).2.
Definition put (tenant id title : string) : FrickStoreWriteEvent :=
  ObjectUpsert tenant "app1" "Task" id (VMap [(VStr "title", VStr title)]) None.
Definition writes : list FrickStoreWriteEvent :=
  [put "t1" "a" "one"; put "t2" "a" "other"; put "t1" "b" "two"; put "t1" "a" "done"].
Definition final : Registry nat := foldl (λ r e, drive_projection_write true e r) registry writes.
Lemma registry_wf : rows_wf (rg_rows registry).
Proof. split; [constructor|done]. Qed.
End SampleProjections.

