(* ===== verification/Cluster.v ===== *)
(** * The cluster bus ([frick-server/src/cluster.rs], [cluster/envelope.rs],
      [cluster/memory.rs])

    Envelopes with their wire maps, and the in-process bus: several buses attach
    to one channel, each with a loop guard and a tenant filter. A handler is a
    name; publishing returns the handlers that run, in order. *)

From Stdlib Require Import ZArith Lia Ascii String.
From stdpp Require Import base gmap strings list pretty.
From S2P Require Import Prelude Value Schema Codec.

Module Env.

Record ProjectionChange : Type := { ch_key : string; ch_value : Value }.
Definition PresenceRecord : Type := ProjectionChange.

Inductive ClusterEnvelope : Type :=
| StreamEvent (origin_node_id tenant_id : string) (app_id : option string) (stream stream_id : string)
    (sequence : Z) (packed : PackedStreamEvent)
| Objects (origin_node_id tenant_id : string) (app_id : option string) (object_type : string)
    (objects : list Value)
| ObjectDeletes (origin_node_id tenant_id : string) (app_id : option string) (object_type : string)
    (ids : list string)
| Signal (origin_node_id tenant_id : string) (app_id : option string) (name key : string) (value : Value)
    (request_id : string)
| ProjectionDelta (origin_node_id tenant_id : string) (app_id : option string) (projection : string)
    (changes : list ProjectionChange)
| PresenceDelta (origin_node_id tenant_id : string) (app_id : option string) (name : string)
    (records : list PresenceRecord) (cleared : list string)
| MediaPlacementClaim (origin_node_id tenant_id call_id home_node_id announced_ip : string)
| MediaPlacementRelease (origin_node_id tenant_id call_id : string).

Definition kind (e : ClusterEnvelope) : string :=
  match e with
  | StreamEvent _ _ _ _ _ _ _ => "streamEvent" | Objects _ _ _ _ _ => "objects"
  | ObjectDeletes _ _ _ _ _ => "objectDeletes" | Signal _ _ _ _ _ _ _ => "signal"
  | ProjectionDelta _ _ _ _ _ => "projectionDelta" | PresenceDelta _ _ _ _ _ _ => "presenceDelta"
  | MediaPlacementClaim _ _ _ _ _ => "mediaPlacementClaim"
  | MediaPlacementRelease _ _ _ => "mediaPlacementRelease"
  end.
Definition origin_node_id (e : ClusterEnvelope) : string :=
  match e with
  | StreamEvent o _ _ _ _ _ _ | Objects o _ _ _ _ | ObjectDeletes o _ _ _ _ | Signal o _ _ _ _ _ _
  | ProjectionDelta o _ _ _ _ | PresenceDelta o _ _ _ _ _ | MediaPlacementClaim o _ _ _ _
  | MediaPlacementRelease o _ _ => o
  end.
Definition tenant_id (e : ClusterEnvelope) : string :=
  match e with
  | StreamEvent _ t _ _ _ _ _ | Objects _ t _ _ _ | ObjectDeletes _ t _ _ _ | Signal _ t _ _ _ _ _
  | ProjectionDelta _ t _ _ _ | PresenceDelta _ t _ _ _ _ | MediaPlacementClaim _ t _ _ _
  | MediaPlacementRelease _ t _ => t
  end.

(** ** The wire map *)

Definition as_array (v : Value) : option (list Value) := match v with VArr l => Some l | _ => None end.
Definition as_i64 (v : Value) : option Z :=
  match v with VInt z => if (i64_min <=? z) && (z <=? i64_max) then Some z else None | _ => None end.

Definition push_app_id (app_id : option string) : list (Value * Value) :=
  match app_id with Some a => [(VStr "appId", VStr a)] | None => [] end.
Definition packed_to_value (p : PackedStreamEvent) : Value :=
  VArr [VInt (pse_stream_type p); VStr (pse_stream_key p); VInt (pse_sequence p); VStr (pse_event_id p);
        VInt (pse_event_type p); VArr ((λ f, VArr [VInt f.1; f.2]) <$> pse_fields p)].
Definition changes_to_value (changes : list ProjectionChange) : Value :=
  VArr ((λ c, VMap [(VStr "key", VStr (ch_key c)); (VStr "value", ch_value c)]) <$> changes).

Definition to_value (e : ClusterEnvelope) : Value :=
  let s (k v : string) := (VStr k, VStr v) in
  let head := [s "kind" (kind e); s "originNodeId" (origin_node_id e); s "tenantId" (tenant_id e)] in
  match e with
  | StreamEvent _ _ app stream sid seq packed =>
      VMap (head ++ push_app_id app
            ++ [s "stream" stream; s "streamId" sid; (VStr "sequence", VInt seq);
                (VStr "packed", packed_to_value packed)])
  | Objects _ _ app ty objects =>
      VMap (head ++ push_app_id app ++ [s "type" ty; (VStr "objects", VArr objects)])
  | ObjectDeletes _ _ app ty ids =>
      VMap (head ++ push_app_id app ++ [s "type" ty; (VStr "ids", VArr (VStr <$> ids))])
  | Signal _ _ app name key value request =>
      VMap (head ++ push_app_id app
            ++ [s "name" name; s "key" key; (VStr "value", value); s "requestId" request])
  | ProjectionDelta _ _ app projection changes =>
      VMap (head ++ push_app_id app
            ++ [s "projection" projection; (VStr "changes", changes_to_value changes)])
  | PresenceDelta _ _ app name records cleared =>
      VMap (head ++ push_app_id app
            ++ [s "name" name; (VStr "records", changes_to_value records);
                (VStr "cleared", VArr (VStr <$> cleared))])
  | MediaPlacementClaim _ _ call home ip =>
      VMap (head ++ [s "callId" call; s "homeNodeId" home; s "announcedIp" ip])
  | MediaPlacementRelease _ _ call => VMap (head ++ [s "callId" call])
  end.

Inductive EnvelopeDecodeError : Type := NotAMap | MissingKind | UnknownKind (kind : string).

(** [get(i).and_then(f).unwrap_or_default()]. *)
Definition at_or {A} (f : Value → option A) (d : A) (items : list Value) (i : nat) : A :=
  match nth_error items i with Some v => default d (f v) | None => d end.
Definition value_to_field (v : Value) : option PackedField :=
  pair ← as_array v;
  Some (at_or as_i64 0 pair 0, at_or Some VNil pair 1).
Definition value_to_packed (v : Value) : PackedStreamEvent :=
  let items := default [] (as_array v) in
  let i64_at := at_or as_i64 0 items in
  let str_at := at_or as_str "" items in
  {| pse_stream_type := i64_at 0%nat; pse_stream_key := str_at 1%nat; pse_sequence := i64_at 2%nat;
     pse_event_id := str_at 3%nat; pse_event_type := i64_at 4%nat;
     pse_fields := omap value_to_field (at_or as_array [] items 5) |}.
Definition value_to_change (v : Value) : option ProjectionChange :=
  map ← as_map v;
  Some {| ch_key := default "" (map_get "key" map ≫= as_str); ch_value := default VNil (map_get "value" map) |}.
Definition value_to_changes (v : Value) : list ProjectionChange :=
  omap value_to_change (default [] (as_array v)).
Definition value_to_strings (v : Value) : list string := omap as_str (default [] (as_array v)).

Definition empty_packed : PackedStreamEvent :=
  {| pse_stream_type := 0; pse_stream_key := ""; pse_sequence := 0; pse_event_id := ""; pse_event_type := 0;
     pse_fields := [] |}.

Definition from_value (value : Value) : result EnvelopeDecodeError ClusterEnvelope :=
  match as_map value with
  | None => Err NotAMap
  | Some map =>
      let get name := map_get name map in
      let str_field name := default "" (get name ≫= as_str) in
      let opt_str name := get name ≫= as_str in
      let origin := str_field "originNodeId" in
      let tenant := str_field "tenantId" in
      let app_id := opt_str "appId" in
      match get "kind" ≫= as_str with
      | None => Err MissingKind
      | Some kind =>
          if String.eqb kind "streamEvent" then
            Ok (StreamEvent origin tenant app_id (str_field "stream") (str_field "streamId")
                  (default 0 (get "sequence" ≫= as_i64))
                  (match get "packed" with Some v => value_to_packed v | None => empty_packed end))
          else if String.eqb kind "objects" then
            Ok (Objects origin tenant app_id (str_field "type") (default [] (get "objects" ≫= as_array)))
          else if String.eqb kind "objectDeletes" then
            Ok (ObjectDeletes origin tenant app_id (str_field "type")
                  (match get "ids" with Some v => value_to_strings v | None => [] end))
          else if String.eqb kind "signal" then
            Ok (Signal origin tenant app_id (str_field "name") (str_field "key") (default VNil (get "value"))
                  (str_field "requestId"))
          else if String.eqb kind "projectionDelta" then
            Ok (ProjectionDelta origin tenant app_id (str_field "projection")
                  (match get "changes" with Some v => value_to_changes v | None => [] end))
          else if String.eqb kind "presenceDelta" then
            Ok (PresenceDelta origin tenant app_id (str_field "name")
                  (match get "records" with Some v => value_to_changes v | None => [] end)
                  (match get "cleared" with Some v => value_to_strings v | None => [] end))
          else if String.eqb kind "mediaPlacementClaim" then
            Ok (MediaPlacementClaim origin tenant (str_field "callId") (str_field "homeNodeId")
                  (str_field "announcedIp"))
          else if String.eqb kind "mediaPlacementRelease" then
            Ok (MediaPlacementRelease origin tenant (str_field "callId"))
          else Err (UnknownKind kind)
      end
  end.

(** ** Round trip *)

Definition packed_i64 (p : PackedStreamEvent) : Prop :=
  is_i64 (pse_stream_type p) ∧ is_i64 (pse_sequence p) ∧ is_i64 (pse_event_type p)
  ∧ Forall (λ f, is_i64 f.1) (pse_fields p).
Definition envelope_i64 (e : ClusterEnvelope) : Prop :=
  match e with StreamEvent _ _ _ _ _ seq packed => is_i64 seq ∧ packed_i64 packed | _ => True end.

Lemma as_i64_VInt z : is_i64 z → as_i64 (VInt z) = Some z.
Proof. unfold is_i64. intros [Hl Hu]. simpl. by rewrite (proj2 (Z.leb_le _ _) Hl), (proj2 (Z.leb_le _ _) Hu). Qed.
Lemma fields_roundtrip (fs : list PackedField) :
  Forall (λ f, is_i64 f.1) fs → omap value_to_field ((λ f, VArr [VInt f.1; f.2]) <$> fs) = fs.
Proof.
  intros Hf. induction Hf as [|[i v] fs Hi _ IH]; [done|]. cbn [fmap list_fmap].
  change (omap value_to_field (?x :: ?l)) with
    (match value_to_field x with Some y => y :: omap value_to_field l | None => omap value_to_field l end).
  unfold value_to_field at 1, at_or. cbn -[as_i64 value_to_field]. rewrite as_i64_VInt by done.
  f_equal. exact IH.
Qed.
Lemma packed_roundtrip p : packed_i64 p → value_to_packed (packed_to_value p) = p.
Proof.
  intros (H1 & H2 & H3 & Hf). unfold value_to_packed, packed_to_value, at_or.
  cbn -[as_i64 value_to_field]. rewrite !as_i64_VInt by done. rewrite fields_roundtrip by done. by destruct p.
Qed.
Lemma changes_roundtrip cs : value_to_changes (changes_to_value cs) = cs.
Proof.
  unfold value_to_changes, changes_to_value. cbn. induction cs as [|[k v] cs IH]; [done|]. cbn. f_equal. exact IH.
Qed.
Lemma strings_roundtrip l : value_to_strings (VArr (VStr <$> l)) = l.
Proof. unfold value_to_strings. cbn. induction l as [|s l IH]; [done|]. cbn. f_equal. exact IH. Qed.

(** C31: What a node sends another node receives: every envelope whose
    integers fit [i64] is read back from its wire map unchanged. *)
Theorem envelope_roundtrip e : envelope_i64 e → from_value (to_value e) = Ok e.
Proof.
  destruct e as [o t app st sid seq p|o t app ty os|o t app ty ids|o t app n k v rq|o t app pj cs|o t app n rs cl|o t c h ip|o t c];
    intros He; [destruct He as [Hs Hp]| | | | | | |]; try (destruct app as [app|]); cbn -[as_i64 value_to_packed value_to_changes value_to_strings packed_to_value changes_to_value i64_min i64_max];
    rewrite ?as_i64_VInt, ?packed_roundtrip, ?changes_roundtrip, ?strings_roundtrip by done; reflexivity.
Qed.

(** Witness: a stream event of an older peer, without an app id. *)
Lemma envelope_roundtrip_witness :
  from_value (to_value (StreamEvent "n1" "t1" None "TaskStream" "s1" 7 sample_packed_event))
  = Ok (StreamEvent "n1" "t1" None "TaskStream" "s1" 7 sample_packed_event).
Proof.
  apply envelope_roundtrip. split; [split; vm_compute; discriminate|].
  split_and!; [split; vm_compute; discriminate..|]. repeat (apply Forall_cons_2; [split; vm_compute; discriminate|]).
  apply Forall_nil_2.
Defined.
End Env.

(** ** The in-process bus *)

Module Bus.
Import Env.

(** One bus of the channel: its handlers by id, its filter, and whether its
    attachment to the channel is still in place. *)
Record MemoryClusterBus {H : Type} : Type := {
  bus_node_id : string; bus_attached : bool; bus_handlers : list (Z * H);
  bus_tenants : option (gset string); bus_next_handler_id : Z;
}.
Arguments MemoryClusterBus : clear implicits.
(** The channel: the buses in attachment order. *)
Definition Channel (H : Type) : Type := list (MemoryClusterBus H).

Section Bus.
Context {H : Type}.

Definition with_options (node_id : string) (c : Channel H) : Channel H :=
  c ++ [{| bus_node_id := node_id; bus_attached := true; bus_handlers := []; bus_tenants := None;
           bus_next_handler_id := 0 |}].

(** The closure a bus attaches: loop guard, tenant filter, local handlers. *)
Definition inbound (envelope : ClusterEnvelope) (b : MemoryClusterBus H) : list H :=
  if negb (bus_attached b) then []
  else if String.eqb (origin_node_id envelope) (bus_node_id b) then []
  else match bus_tenants b with
       | Some tenants =>
           if bool_decide (tenant_id envelope ∈ tenants) then (bus_handlers b).*2 else []
       | None => (bus_handlers b).*2
       end.
(** [publish]: the handlers that run, with their node. *)
Definition publish (envelope : ClusterEnvelope) (c : Channel H) : list (string * H) :=
  concat ((λ b, (λ h, (bus_node_id b, h)) <$> inbound envelope b) <$> c).

Definition subscribe (handler : H) (b : MemoryClusterBus H) : Z * MemoryClusterBus H :=
  (bus_next_handler_id b,
   {| bus_node_id := bus_node_id b; bus_attached := bus_attached b;
      bus_handlers := bus_handlers b ++ [(bus_next_handler_id b, handler)]; bus_tenants := bus_tenants b;
      bus_next_handler_id := bus_next_handler_id b + 1 |}).
Definition unsubscribe (id : Z) (b : MemoryClusterBus H) : MemoryClusterBus H :=
  {| bus_node_id := bus_node_id b; bus_attached := bus_attached b;
     bus_handlers := List.filter (λ h, negb (h.1 =? id)) (bus_handlers b); bus_tenants := bus_tenants b;
     bus_next_handler_id := bus_next_handler_id b |}.
Definition set_subscribed_tenants (tenants : option (gset string)) (b : MemoryClusterBus H) : MemoryClusterBus H :=
  {| bus_node_id := bus_node_id b; bus_attached := bus_attached b; bus_handlers := bus_handlers b;
     bus_tenants := tenants; bus_next_handler_id := bus_next_handler_id b |}.
Definition close (b : MemoryClusterBus H) : MemoryClusterBus H :=
  {| bus_node_id := bus_node_id b; bus_attached := false; bus_handlers := []; bus_tenants := bus_tenants b;
     bus_next_handler_id := bus_next_handler_id b |}.

(** A handler runs exactly for the envelopes of other nodes whose tenant its bus
    takes, as long as the bus is attached and it is subscribed. *)
Lemma inbound_spec envelope b h :
  h ∈ inbound envelope b ↔
  bus_attached b = true ∧ origin_node_id envelope ≠ bus_node_id b ∧ h ∈ (bus_handlers b).*2
  ∧ (∀ ts, bus_tenants b = Some ts → tenant_id envelope ∈ ts).
Proof.
  unfold inbound. destruct (bus_attached b); simpl; [|set_solver].
  destruct (String.eqb_spec (origin_node_id envelope) (bus_node_id b)) as [|Hne]; [set_solver|].
  destruct (bus_tenants b) as [ts|]; [case_bool_decide|]; naive_solver set_solver.
Qed.
Lemma publish_spec envelope (c : Channel H) node h :
  (node, h) ∈ publish envelope c ↔ ∃ b, b ∈ c ∧ bus_node_id b = node ∧ h ∈ inbound envelope b.
Proof.
  unfold publish. rewrite elem_of_concat. split.
  - intros (l & (b & -> & Hb)%list_elem_of_fmap & (h' & [= -> ->] & Hh)%list_elem_of_fmap). eauto.
  - intros (b & Hb & <- & Hh). eexists. split; [apply list_elem_of_fmap; eauto|].
    apply list_elem_of_fmap. eauto.
Qed.
End Bus.
End Bus.
