(* ===== verification/Placement.v ===== *)
(** * Media placement ([frick-server/src/calls/media_placement.rs])

    Which node homes a call: the single-box placement, and the registry that
    nodes keep from each other's claims on the cluster bus. *)

From Stdlib Require Import ZArith Lia Ascii String.
From stdpp Require Import base gmap strings list pretty.
From S2P Require Import Prelude Value Schema Codec StoreBase Encryption Samples ObjectStore Authz ServerErrors Sessions Cluster.
Import Env.

Definition MEDIA_PLACEMENT_TENANT : string := "_media_placement".
Definition DEFAULT_PLACEMENT_TTL_MS : Z := 60 * 60 * 1000.

Record MediaHome : Type := { mh_node_id : string; mh_region : string; mh_announced_ip : string }.

Module Local.
Definition new (node_id region : option string) (announced_ip : string) : MediaHome :=
  {| mh_node_id := default "local" node_id; mh_region := default "local" region;
     mh_announced_ip := announced_ip |}.
Definition loopback : MediaHome := new None None "127.0.0.1".
Definition place_for (home : MediaHome) (_ : string) : MediaHome := home.
End Local.

Record RegistryEntry : Type := { re_home : MediaHome; re_at_ms : Z }.
Record Placement : Type := {
  pl_node_id : string; pl_region : string; pl_announced_ip : string; pl_ttl_ms : Z;
  pl_registry : gmap string RegistryEntry;
}.

Definition new_placement (bus_node_id : string) (node_id region : option string) (announced_ip : string)
    (ttl_ms : option Z) : Placement :=
  {| pl_node_id := default bus_node_id node_id; pl_region := default "local" region;
     pl_announced_ip := announced_ip; pl_ttl_ms := default DEFAULT_PLACEMENT_TTL_MS ttl_ms;
     pl_registry := ∅ |}.
Definition with_registry (t : gmap string RegistryEntry) (p : Placement) : Placement :=
  {| pl_node_id := pl_node_id p; pl_region := pl_region p; pl_announced_ip := pl_announced_ip p;
     pl_ttl_ms := pl_ttl_ms p; pl_registry := t |}.

Definition live_entry (call_id : string) (now : Z) (p : Placement) : option RegistryEntry * Placement :=
  match pl_registry p !! call_id with
  | None => (None, p)
  | Some entry =>
      if pl_ttl_ms p <=? i64_sub now (re_at_ms entry)
      then (None, with_registry (base.delete call_id (pl_registry p)) p)
      else (Some entry, p)
  end.
Definition own_home (p : Placement) : MediaHome :=
  {| mh_node_id := pl_node_id p; mh_region := pl_region p; mh_announced_ip := pl_announced_ip p |}.
Definition claim (p : Placement) (call_id : string) (home : MediaHome) : ClusterEnvelope :=
  MediaPlacementClaim (pl_node_id p) MEDIA_PLACEMENT_TENANT call_id (mh_node_id home) (mh_announced_ip home).
Definition put_home (call_id : string) (home : MediaHome) (now : Z) (p : Placement) : Placement :=
  with_registry (<[call_id := {| re_home := home; re_at_ms := now |}]> (pl_registry p)) p.

(** The home, what is published, and the new registry. *)
Definition place_for (call_id : string) (now : Z) (p : Placement) : MediaHome * list ClusterEnvelope * Placement :=
  match live_entry call_id now p with
  | (Some entry, p) => (re_home entry, [], p)
  | (None, p) => (own_home p, [claim p call_id (own_home p)], put_home call_id (own_home p) now p)
  end.
Definition release (call_id : string) (p : Placement) : list ClusterEnvelope * Placement :=
  let we_own := match pl_registry p !! call_id with
                | Some entry => String.eqb (mh_node_id (re_home entry)) (pl_node_id p)
                | None => false
                end in
  (if we_own then [MediaPlacementRelease (pl_node_id p) MEDIA_PLACEMENT_TENANT call_id] else [],
   with_registry (base.delete call_id (pl_registry p)) p).

Definition on_peer_claim (call_id : string) (peer_home : MediaHome) (now : Z) (p : Placement) : bool * Placement :=
  match pl_registry p !! call_id with
  | None => (false, put_home call_id peer_home now p)
  | Some current =>
      if String.eqb (mh_node_id (re_home current)) (mh_node_id peer_home)
      then (false, put_home call_id peer_home now p)
      else if Str.ltb (mh_node_id peer_home) (mh_node_id (re_home current))
      then (String.eqb (mh_node_id (re_home current)) (pl_node_id p), put_home call_id peer_home now p)
      else (false, p)
  end.
Definition on_envelope (e : ClusterEnvelope) (now : Z) (p : Placement) : Placement :=
  if String.eqb (origin_node_id e) (pl_node_id p) then p
  else match e with
       | MediaPlacementClaim _ _ call_id home_node_id announced_ip =>
           (on_peer_claim call_id {| mh_node_id := home_node_id; mh_region := "";
                                     mh_announced_ip := announced_ip |} now p).2
       | MediaPlacementRelease _ _ call_id => with_registry (base.delete call_id (pl_registry p)) p
       | _ => p
       end.
Definition home_for (call_id : string) (now : Z) (p : Placement) : option MediaHome * Placement :=
  let '(entry, p) := live_entry call_id now p in (re_home <$> entry, p).

(** ** Convergence *)

Lemma str_leb_total a b : Str.leb a b = true ∨ Str.leb b a = true.
Proof. apply lex_le_total. Qed.
Lemma str_leb_trans a b c : Str.leb a b = true → Str.leb b c = true → Str.leb a c = true.
Proof. apply lex_le_trans. Qed.
Lemma str_ltb_leb a b : Str.ltb a b = true → Str.leb a b = true.
Proof. unfold Str.ltb. rewrite negb_true_iff. destruct (str_leb_total a b); congruence. Qed.

(** The registered home is the lowest of the claims [(node, address)]. *)
Definition lowest (p : Placement) (call_id : string) (claims : list (string * string)) : Prop :=
  ∃ entry, pl_registry p !! call_id = Some entry
    ∧ (mh_node_id (re_home entry), mh_announced_ip (re_home entry)) ∈ claims
    ∧ ∀ c, c ∈ claims → Str.leb (mh_node_id (re_home entry)) c.1 = true.

Lemma claim_lowest p call_id claims id ip region now :
  lowest p call_id claims →
  lowest (on_peer_claim call_id {| mh_node_id := id; mh_region := region; mh_announced_ip := ip |} now p).2
    call_id ((id, ip) :: claims).
Proof.
  intros (entry & He & Hin & Hmin). unfold on_peer_claim. rewrite He. cbn [mh_node_id].
  assert (∀ c, Str.leb c c = true) as Hrefl by (intros; apply lex_le_refl).
  destruct (String.eqb_spec (mh_node_id (re_home entry)) id) as [Heq|Hne].
  - eexists. split; [apply lookup_insert_eq|]. cbn. split; [left|].
    intros c [->|Hc]%elem_of_cons; [apply Hrefl|]. rewrite <- Heq. by apply Hmin.
  - destruct (Str.ltb id (mh_node_id (re_home entry))) eqn:El.
    + eexists. split; [apply lookup_insert_eq|]. cbn. split; [left|].
      intros c [->|Hc]%elem_of_cons; [apply Hrefl|]. eapply str_leb_trans; [by apply str_ltb_leb|by apply Hmin].
    + exists entry. split; [done|]. split; [by right|]. intros c [->|Hc]%elem_of_cons; [|by apply Hmin].
      unfold Str.ltb in El. by apply negb_false_iff in El.
Qed.

(** An envelope that says nothing of the call, or a claim of one of [nodes]. *)
Definition heard_ok (nodes : list Placement) (call_id : string) (e : ClusterEnvelope) : Prop :=
  match e with
  | MediaPlacementClaim origin _ c home ip =>
      c = call_id → ∃ m, m ∈ nodes ∧ origin = pl_node_id m ∧ home = pl_node_id m ∧ ip = pl_announced_ip m
  | MediaPlacementRelease _ _ c => c ≠ call_id
  | _ => True
  end.

Definition claims_of (call_id : string) (p : Placement) (es : list ClusterEnvelope) : list (string * string) :=
  omap (λ e, match e with
             | MediaPlacementClaim origin _ c home ip =>
                 if String.eqb c call_id && negb (String.eqb origin (pl_node_id p)) then Some (home, ip) else None
             | _ => None
             end) es.

Lemma on_envelope_node e now p : pl_node_id (on_envelope e now p) = pl_node_id p.
Proof.
  unfold on_envelope. case_match; [done|]. destruct e; try done. unfold on_peer_claim.
  repeat case_match; done.
Qed.
Lemma on_peer_claim_ne c call_id home now p :
  c ≠ call_id → pl_registry (on_peer_claim c home now p).2 !! call_id = pl_registry p !! call_id.
Proof.
  intros Hne. unfold on_peer_claim, put_home. repeat case_match; simpl; by rewrite ?lookup_insert_ne.
Qed.

Lemma heard_lowest nodes call_id heard p claims :
  Forall (λ en, heard_ok nodes call_id en.1) heard → lowest p call_id claims →
  lowest (foldl (λ p en, on_envelope en.1 en.2 p) p heard) call_id
    (rev (claims_of call_id p heard.*1) ++ claims).
Proof.
  intros Hh. revert p claims. induction Hh as [|[e now] heard He _ IH]; intros p claims Hl; [done|].
  cbn [foldl fmap list_fmap fst snd] in *. simpl in He.
  assert (claims_of call_id (on_envelope e now p) heard.*1 = claims_of call_id p heard.*1) as Hc.
  { unfold claims_of. rewrite on_envelope_node. done. }
  assert (∀ cs, lowest (on_envelope e now p) call_id cs →
    lowest (foldl (λ p en, on_envelope en.1 en.2 p) (on_envelope e now p) heard) call_id
      (rev (claims_of call_id p heard.*1) ++ cs)) as IH' by (intros cs Hcs; rewrite <- Hc; by apply IH).
  assert (∀ cs, lowest p call_id cs → pl_registry (on_envelope e now p) !! call_id = pl_registry p !! call_id →
    lowest (on_envelope e now p) call_id cs) as Hkeep.
  { intros cs (en & Hen & Hr) Heq. exists en. by rewrite Heq. }
  unfold claims_of in *. cbn [omap list_omap].
  destruct (String.eqb_spec (origin_node_id e) (pl_node_id p)) as [Ho|Ho].
  { assert (on_envelope e now p = p) as Hp by (unfold on_envelope; by rewrite (proj2 (String.eqb_eq _ _) Ho)).
    destruct e as [| | | | | |origin t c home ip|]; try (apply IH'; by rewrite Hp).
    simpl in Ho. rewrite (proj2 (String.eqb_eq _ _) Ho), andb_false_r. apply IH'. by rewrite Hp. }
  destruct e as [| | | | | |origin t c home ip|origin t c];
    try (apply IH', Hkeep; [done|]; unfold on_envelope; by case_match).
  - simpl in Ho. rewrite (proj2 (String.eqb_neq _ _) Ho), andb_true_r.
    destruct (String.eqb_spec c call_id) as [->|Hne].
    + cbn [rev]. rewrite <- app_assoc. apply IH'. unfold on_envelope. cbn [origin_node_id].
      rewrite (proj2 (String.eqb_neq _ _) Ho). by apply claim_lowest.
    + apply IH', Hkeep; [done|]. unfold on_envelope. cbn [origin_node_id].
      rewrite (proj2 (String.eqb_neq _ _) Ho). by apply on_peer_claim_ne.
  - apply IH', Hkeep; [done|]. unfold on_envelope. case_match; [done|]. simpl. by rewrite lookup_delete_ne.
Qed.

Lemma lowest_node (nodes : list Placement) :
  nodes ≠ [] → ∃ w, w ∈ nodes ∧ ∀ m, m ∈ nodes → Str.leb (pl_node_id w) (pl_node_id m) = true.
Proof.
  induction nodes as [|n [|n' nodes] IH]; intros Hne; [done| |].
  - exists n. split; [set_solver|]. intros m ->%list_elem_of_singleton. apply lex_le_refl.
  - destruct IH as (w & Hw & Hmin); [done|]. destruct (str_leb_total (pl_node_id n) (pl_node_id w)) as [H|H].
    + exists n. split; [set_solver|]. intros m [->|Hm]%elem_of_cons; [apply lex_le_refl|].
      eapply str_leb_trans; [exact H|by apply Hmin].
    + exists w. split; [set_solver|]. intros m [->|Hm]%elem_of_cons; [done|by apply Hmin].
Qed.

Lemma claims_of_spec nodes call_id p (heard : list (ClusterEnvelope * Z)) c :
  Forall (λ en, heard_ok nodes call_id en.1) heard → c ∈ claims_of call_id p heard.*1 →
  ∃ m, m ∈ nodes ∧ c = (pl_node_id m, pl_announced_ip m).
Proof.
  intros Hh Hc. unfold claims_of in Hc. apply list_elem_of_omap in Hc as (e & He & Hsome).
  destruct e as [| | | | | |origin t c' home ip|]; try done.
  destruct (String.eqb_spec c' call_id) as [->|]; [|done]. simpl in Hsome. case_match; simplify_eq.
  apply list_elem_of_fmap in He as ([e' now] & Heq & Hin). rewrite Forall_forall in Hh.
  specialize (Hh _ Hin). simpl in *. subst e'. destruct (Hh eq_refl) as (m & Hm & _ & -> & ->). eauto.
Qed.

(** C18: Nodes that homed one call at the same time agree once they have
    heard each other: whatever the order, the repetitions and the times of the
    claims, and whatever else is on the bus short of a release, every node ends
    with the lowest node id as the home and with that node's address. *)
Theorem placement_converges (nodes : list Placement) (call_id : string) :
  NoDup (pl_node_id <$> nodes) → nodes ≠ [] →
  ∃ w, w ∈ nodes ∧ (∀ m, m ∈ nodes → Str.leb (pl_node_id w) (pl_node_id m) = true)
  ∧ ∀ n now (heard : list (ClusterEnvelope * Z)), n ∈ nodes → pl_registry n !! call_id = None →
      Forall (λ en, heard_ok nodes call_id en.1) heard →
      (∀ m, m ∈ nodes → m ≠ n → claim m call_id (own_home m) ∈ heard.*1) →
      ∃ entry, pl_registry (foldl (λ p en, on_envelope en.1 en.2 p) (place_for call_id now n).2 heard) !! call_id
                 = Some entry
        ∧ mh_node_id (re_home entry) = pl_node_id w ∧ mh_announced_ip (re_home entry) = pl_announced_ip w.
Proof.
  intros Hnd Hne. destruct (lowest_node nodes Hne) as (w & Hw & Hmin). exists w. split_and!; [done..|].
  intros n now heard Hn Hreg Hheard Hall.
  assert (∀ m m', m ∈ nodes → m' ∈ nodes → pl_node_id m = pl_node_id m' → m = m') as Hinj.
  { intros m m' [i Hi]%list_elem_of_lookup [j Hj]%list_elem_of_lookup Heq. rewrite NoDup_alt in Hnd.
    assert (i = j) as ->; [|congruence].
    eapply (Hnd _ _ (pl_node_id m)); rewrite list_lookup_fmap; [by rewrite Hi|by rewrite Hj, Heq]. }
  assert ((place_for call_id now n).2 = put_home call_id (own_home n) now n) as ->.
  { unfold place_for, live_entry. by rewrite Hreg. }
  set (p := put_home call_id (own_home n) now n).
  assert (lowest p call_id [(pl_node_id n, pl_announced_ip n)]) as Hl0.
  { eexists. split; [apply lookup_insert_eq|]. simpl. split; [left|].
    intros c ->%list_elem_of_singleton. apply lex_le_refl. }
  destruct (heard_lowest nodes call_id heard p _ Hheard Hl0) as (entry & He & Hin & Hlow).
  exists entry. split; [done|].
  assert (∃ m, m ∈ nodes ∧ mh_node_id (re_home entry) = pl_node_id m
                ∧ mh_announced_ip (re_home entry) = pl_announced_ip m) as (m & Hm & Hmi & Hma).
  { rewrite elem_of_app in Hin. destruct Hin as [Hin|Hin].
    - rewrite list_elem_of_In, <- in_rev, <- list_elem_of_In in Hin.
      destruct (claims_of_spec nodes _ _ _ _ Hheard Hin) as (m & Hm & [= -> ->]). eauto.
    - apply list_elem_of_singleton in Hin as [= -> ->]. eauto. }
  assert (Str.leb (pl_node_id m) (pl_node_id w) = true) as Hle.
  { rewrite <- Hmi. change (pl_node_id w) with (pl_node_id w, pl_announced_ip w).1. apply Hlow, elem_of_app.
    destruct (decide (pl_node_id w = pl_node_id n)) as [Heq|Hneq].
    - right. apply list_elem_of_singleton. by rewrite (Hinj _ _ Hw Hn Heq).
    - left. rewrite list_elem_of_In, <- in_rev, <- list_elem_of_In. unfold claims_of. apply list_elem_of_omap. eexists. split.
      + apply (Hall w Hw). intros ->. done.
      + simpl. by rewrite String.eqb_refl, (proj2 (String.eqb_neq _ _) Hneq). }
  assert (m = w) as ->; [|done]. apply Hinj; [done..|]. apply str_leb_antisym; [done|by apply Hmin].
Qed.

Module SamplePlacement.
Definition node (id ip : string) : Placement := new_placement id None None ip None.
Definition a : Placement := node "node-a" "10.0.0.1".
Definition b : Placement := node "node-b" "10.0.0.2".
Definition nodes : list Placement := [b; a].
Definition heard_by_b : list (ClusterEnvelope * Z) :=
  [(claim a "c1" (own_home a), 5); (claim a "c1" (own_home a), 9)].
Definition settled (n : Placement) (heard : list (ClusterEnvelope * Z)) : option string :=
  (λ e, mh_node_id (re_home e)) <$>
  (pl_registry (foldl (λ p en, on_envelope en.1 en.2 p) (place_for "c1" 1 n).2 heard) !! "c1").
Lemma nodes_distinct : NoDup (pl_node_id <$> nodes).
Proof. vm_compute. repeat constructor; set_solver. Qed.
Lemma heard_ok_b : Forall (λ en, heard_ok nodes "c1" en.1) heard_by_b.
Proof. unfold heard_by_b. repeat constructor; intros _; exists a; repeat split; unfold nodes; set_solver. Qed.
End SamplePlacement.

(** Witness: of two nodes that claimed one call, the one that hears the other's
    claim, twice, hands the call to the lower id. *)
Lemma placement_converges_witness :
  SamplePlacement.settled SamplePlacement.b SamplePlacement.heard_by_b = Some "node-a"
  ∧ ∃ w, w ∈ SamplePlacement.nodes ∧ Str.leb (pl_node_id w) "node-a" = true.
Proof.
  split; [vm_compute; reflexivity|].
  destruct (placement_converges SamplePlacement.nodes "c1" SamplePlacement.nodes_distinct ltac:(done))
    as (w & Hw & Hmin & Hconv).
  destruct (Hconv SamplePlacement.b 1 SamplePlacement.heard_by_b ltac:(unfold SamplePlacement.nodes; set_solver)
    eq_refl SamplePlacement.heard_ok_b) as (entry & He & _).
  { intros m [->|[->|Hn]%elem_of_cons]%elem_of_cons Hne; [done| |by inversion Hn]. left. }
  exists w. split; [exact Hw|]. exact (Hmin SamplePlacement.a ltac:(unfold SamplePlacement.nodes; set_solver)).
Defined.

(** ** On the gateway's bus *)

(** Every envelope a placement publishes carries the sentinel tenant. *)
Definition placement_traffic (e : ClusterEnvelope) : Prop := tenant_id e = MEDIA_PLACEMENT_TENANT.

(** A bus whose filter is the set of connected tenants, as the gateway
    sets it, passes no placement envelope to any handler, unless a tenant is
    itself called [_media_placement]: a placement sharing the gateway's bus
    never hears a claim or a release. *)
Theorem filtered_bus_drops_placement {H} (b : Bus.MemoryClusterBus H) (connected : gset string)
    (e : ClusterEnvelope) :
  MEDIA_PLACEMENT_TENANT ∉ connected → placement_traffic e →
  Bus.inbound e (Bus.set_subscribed_tenants (Some connected) b) = [].
Proof.
  intros Hs He. apply elem_of_nil_inv. intros h (_ & _ & _ & Hts)%Bus.inbound_spec.
  specialize (Hts connected eq_refl). unfold placement_traffic in He. by rewrite He in Hts.
Qed.

(** Witness: with client [acme] connected, the claim of [node-a] does not reach
    the placement of [node-b], and both nodes home the call. *)
Lemma filtered_bus_drops_placement_witness :
  Bus.inbound (claim SamplePlacement.a "c1" (own_home SamplePlacement.a))
    (Bus.set_subscribed_tenants (Some {["acme"]})
       (Bus.subscribe "placement"
          {| Bus.bus_node_id := "node-b"; Bus.bus_attached := true; Bus.bus_handlers := [];
             Bus.bus_tenants := None; Bus.bus_next_handler_id := 0 |}).2) = []
  ∧ mh_node_id (place_for "c1" 1 SamplePlacement.a).1.1 = "node-a"
  ∧ mh_node_id (place_for "c1" 2 SamplePlacement.b).1.1 = "node-b".
Proof.
  split; [|by vm_compute]. apply filtered_bus_drops_placement; [|reflexivity].
  rewrite elem_of_singleton. discriminate.
Defined.
