(* ===== verification/Gateway.v ===== *)
(** * The gateway hub ([frick-server/src/gateway.rs]): connections and counts

    The registry of live connections with its caps and counts, the subscriptions
    and pending writes of a connection, and the frames queued to it. The hub is
    one record; a lock section of the code is one function on it. A set of
    subscriptions is a list without repeated ids; a channel to the writer task is
    the list of what was sent on it. *)

From Stdlib Require Import ZArith Lia Ascii String SpecFloat.
From stdpp Require Import base gmap strings list pretty.
From S2P Require Import Prelude Value Errors Schema Codec Handshake StoreBase Authz ServerErrors Sessions MediaPlane Calls Frames Apps Cluster.

Module Close.
Definition POLICY_VIOLATION : Z := 1008.
Definition TOO_LARGE : Z := 1009.
Definition TRY_AGAIN_LATER : Z := 1013.
End Close.

(** The limits the gateway reads. *)
Record FrickLimits : Type := {
  max_stream_append_payload_bytes : Z; max_subscriptions_per_connection : Z; max_stream_page_size : Z;
  max_pending_appends_per_client : Z; write_rate_burst : Z; write_rate_refill_per_second : Z;
  max_web_socket_frame_bytes : Z; max_web_socket_connections : Z; max_connections_per_principal : Z;
  presence_ttl_min_seconds : Z; presence_ttl_max_seconds : Z;
}.

Inductive Outbound : Type := Out_Frame (bytes : blob) | Out_Close (code : Z) (reason : string).
Record SubKey : Type := {
  sk_subscription_id : string; sk_kind : SubscriptionKind; sk_name : string; sk_key : option string;
}.
Record Connection : Type := {
  c_principal : option Principal; c_session_token : option string; c_app_id : string;
  c_handshake_complete : bool; c_subscriptions : list SubKey; c_pending_writes : Z;
  (** what was sent on the channel, and whether the writer task still receives *)
  c_outbound : list Outbound; c_writer_open : bool;
}.
Inductive CloseTarget : Type := Token (token : string) | User (user_id : string) (tenant_id : option string).

(** ** The write-rate bucket *)

Module Bucket.
(** IEEE doubles of the Standard Library. *)
Definition prec : Z := 53.
Definition emax : Z := 1024.
Definition of_Z (z : Z) : spec_float := binary_normalize prec emax z 0 false.
Definition add : spec_float → spec_float → spec_float := SFadd prec emax.
Definition sub : spec_float → spec_float → spec_float := SFsub prec emax.
Definition mul : spec_float → spec_float → spec_float := SFmul prec emax.
Definition div : spec_float → spec_float → spec_float := SFdiv prec emax.
(** [f64::min]. *)
Definition min (x y : spec_float) : spec_float :=
  match x, y with
  | S754_nan, _ => y
  | _, S754_nan => x
  | _, _ => if SFltb y x then y else x
  end.

(** [last_refill] in nanoseconds. *)
Record TokenBucket : Type := { tokens : spec_float; last_refill : Z }.
Definition new (burst : spec_float) (now : Z) : TokenBucket := {| tokens := burst; last_refill := now |}.
(** [saturating_duration_since(..).as_secs_f64()]. *)
Definition elapsed_secs (since now : Z) : spec_float :=
  let ns := Z.max 0 (now - since) in
  add (of_Z (ns / 1000000000)) (div (of_Z (ns mod 1000000000)) (of_Z 1000000000)).
Definition try_consume (now : Z) (burst refill_per_second : spec_float) (b : TokenBucket) : bool * TokenBucket :=
  let elapsed := elapsed_secs (last_refill b) now in
  let t := min (add (tokens b) (mul elapsed refill_per_second)) burst in
  if SFleb (of_Z 1) t then (true, {| tokens := sub t (of_Z 1); last_refill := now |})
  else (false, {| tokens := t; last_refill := now |}).
End Bucket.

(** ** The hub *)

Record Hub : Type := {
  h_connections : gmap Z Connection;
  h_per_principal : gmap string Z;
  h_tenant_subscriber_counts : gmap string Z;
  h_rate_buckets : gmap string Bucket.TokenBucket;
  h_next_id : Z;
  (** the node id of the attached bus, the tenants last pushed to it, and what
      was published on it *)
  h_cluster_bus : option string;
  h_pushed_tenants : option (gset string);
  h_published : list Env.ClusterEnvelope;
  (** what the lifecycle hooks saw: connect or disconnect, and the live count *)
  h_lifecycle : list (bool * nat);
}.
Definition empty_hub : Hub :=
  {| h_connections := ∅; h_per_principal := ∅; h_tenant_subscriber_counts := ∅; h_rate_buckets := ∅;
     h_next_id := 1; h_cluster_bus := None; h_pushed_tenants := None; h_published := []; h_lifecycle := [] |}.

Definition with_connections (t : gmap Z Connection) (h : Hub) : Hub :=
  {| h_connections := t; h_per_principal := h_per_principal h;
     h_tenant_subscriber_counts := h_tenant_subscriber_counts h; h_rate_buckets := h_rate_buckets h;
     h_next_id := h_next_id h; h_cluster_bus := h_cluster_bus h; h_pushed_tenants := h_pushed_tenants h;
     h_published := h_published h; h_lifecycle := h_lifecycle h |}.
Definition with_counts (pp tc : gmap string Z) (h : Hub) : Hub :=
  {| h_connections := h_connections h; h_per_principal := pp; h_tenant_subscriber_counts := tc;
     h_rate_buckets := h_rate_buckets h; h_next_id := h_next_id h; h_cluster_bus := h_cluster_bus h;
     h_pushed_tenants := h_pushed_tenants h; h_published := h_published h; h_lifecycle := h_lifecycle h |}.
Definition with_buckets (t : gmap string Bucket.TokenBucket) (h : Hub) : Hub :=
  {| h_connections := h_connections h; h_per_principal := h_per_principal h;
     h_tenant_subscriber_counts := h_tenant_subscriber_counts h; h_rate_buckets := t;
     h_next_id := h_next_id h; h_cluster_bus := h_cluster_bus h; h_pushed_tenants := h_pushed_tenants h;
     h_published := h_published h; h_lifecycle := h_lifecycle h |}.
Definition with_bus (bus : option string) (pushed : option (gset string))
    (published : list Env.ClusterEnvelope) (h : Hub) : Hub :=
  {| h_connections := h_connections h; h_per_principal := h_per_principal h;
     h_tenant_subscriber_counts := h_tenant_subscriber_counts h; h_rate_buckets := h_rate_buckets h;
     h_next_id := h_next_id h; h_cluster_bus := bus; h_pushed_tenants := pushed; h_published := published;
     h_lifecycle := h_lifecycle h |}.

(** ** Counts *)

(** The transition flag and the new counts. *)
Definition bump_tenant_count (counts : gmap string Z) (tenant_id : string) (delta : Z) :
    bool * gmap string Z :=
  let current := default 0 (counts !! tenant_id) in
  let next := current + delta in
  (negb (Bool.eqb (current =? 0) (next <=? 0)),
   if next <=? 0 then base.delete tenant_id counts else <[tenant_id := Z.min next (2 ^ 32 - 1)]> counts).
Definition release_principal_slot (per_principal : gmap string Z) (key : string) : gmap string Z :=
  match per_principal !! key with
  | None => per_principal
  | Some count =>
      let count := Z.max 0 (count - 1) in
      if count =? 0 then base.delete key per_principal else <[key := count]> per_principal
  end.
Definition take_principal_slot (per_principal : gmap string Z) (key : string) : gmap string Z :=
  <[key := default 0 (per_principal !! key) + 1]> per_principal.

Definition push_subscribed_tenants (h : Hub) : Hub :=
  match h_cluster_bus h with
  | None => h
  | Some bus => with_bus (Some bus) (Some (dom (h_tenant_subscriber_counts h))) (h_published h) h
  end.
Definition push_if (transitioned : bool) (h : Hub) : Hub := if transitioned then push_subscribed_tenants h else h.
Definition lifecycle (connected : bool) (h : Hub) : Hub :=
  {| h_connections := h_connections h; h_per_principal := h_per_principal h;
     h_tenant_subscriber_counts := h_tenant_subscriber_counts h; h_rate_buckets := h_rate_buckets h;
     h_next_id := h_next_id h; h_cluster_bus := h_cluster_bus h; h_pushed_tenants := h_pushed_tenants h;
     h_published := h_published h;
     h_lifecycle := h_lifecycle h ++ [(connected, map_size (h_connections h))] |}.

Definition set_cluster_bus (node_id : string) (h : Hub) : Hub :=
  with_bus (Some node_id) (Some (dom (h_tenant_subscriber_counts h))) (h_published h) h.
Definition publish (mk : string → Env.ClusterEnvelope) (h : Hub) : Hub :=
  match h_cluster_bus h with
  | None => h
  | Some node => with_bus (Some node) (h_pushed_tenants h) (h_published h ++ [mk node]) h
  end.

(** ** Registration *)

(** The locked sections of [register] and [unregister], with the transition flag. *)
Definition register_locked (connection : Connection) (h : Hub) : Z * bool * Hub :=
  let id := h_next_id h in
  let h1 := {| h_connections := h_connections h; h_per_principal := h_per_principal h;
               h_tenant_subscriber_counts := h_tenant_subscriber_counts h;
               h_rate_buckets := h_rate_buckets h; h_next_id := h_next_id h + 1;
               h_cluster_bus := h_cluster_bus h; h_pushed_tenants := h_pushed_tenants h;
               h_published := h_published h; h_lifecycle := h_lifecycle h |} in
  let '(transitioned, h2) :=
    match c_principal connection with
    | None => (false, h1)
    | Some p =>
        let '(tr, tc) := bump_tenant_count (h_tenant_subscriber_counts h1) (p_tenant_id p) 1 in
        (tr, with_counts (take_principal_slot (h_per_principal h1) (connection_key p)) tc h1)
    end in
  (id, transitioned, with_connections (<[id := connection]> (h_connections h2)) h2).
Definition register (connection : Connection) (h : Hub) : Z * Hub :=
  let '(id, transitioned, h') := register_locked connection h in
  (id, lifecycle true (push_if transitioned h')).

Definition unregister_locked (id : Z) (h : Hub) : bool * Hub :=
  match h_connections h !! id with
  | None => (false, h)
  | Some connection =>
      let h0 := with_connections (base.delete id (h_connections h)) h in
      match c_principal connection with
      | None => (false, h0)
      | Some p =>
          let key := connection_key p in
          let pp := release_principal_slot (h_per_principal h0) key in
          let buckets := match pp !! key with
                         | Some _ => h_rate_buckets h0
                         | None => base.delete key (h_rate_buckets h0)
                         end in
          let '(tr, tc) := bump_tenant_count (h_tenant_subscriber_counts h0) (p_tenant_id p) (-1) in
          (tr, with_buckets buckets (with_counts pp tc h0))
      end
  end.
Definition unregister (id : Z) (h : Hub) : Hub :=
  let '(transitioned, h') := unregister_locked id h in
  lifecycle false (push_if transitioned h').

Fixpoint apply_transitions (h : Hub) (transitions : list (string * Z)) : bool * Hub :=
  match transitions with
  | [] => (false, h)
  | (tenant, delta) :: rest =>
      let '(tr, tc) := bump_tenant_count (h_tenant_subscriber_counts h) tenant delta in
      let '(trs, h') := apply_transitions (with_counts (h_per_principal h) tc h) rest in
      (tr || trs, h')
  end.
Definition apply_tenant_transitions (transitions : list (string * Z)) (h : Hub) : Hub :=
  match transitions with
  | [] => h
  | _ => let '(transitioned, h') := apply_transitions h transitions in push_if transitioned h'
  end.

Definition connection_matches_target (connection : Connection) (target : CloseTarget) : bool :=
  match target with
  | Token token => bool_decide (c_session_token connection = Some token)
  | User user_id tenant_id =>
      match c_principal connection with
      | None => false
      | Some p => String.eqb (p_user_id p) user_id
                  && match tenant_id with Some t => String.eqb (p_tenant_id p) t | None => true end
      end
  end.

(** ** Connections *)

Definition update (id : Z) (f : Connection → Connection) (h : Hub) : Hub :=
  match h_connections h !! id with
  | Some c => with_connections (<[id := f c]> (h_connections h)) h
  | None => h
  end.
Definition send (o : Outbound) (c : Connection) : Connection :=
  {| c_principal := c_principal c; c_session_token := c_session_token c; c_app_id := c_app_id c;
     c_handshake_complete := c_handshake_complete c; c_subscriptions := c_subscriptions c;
     c_pending_writes := c_pending_writes c; c_outbound := c_outbound c ++ [o];
     c_writer_open := c_writer_open c |}.
Definition set_subscriptions (subs : list SubKey) (c : Connection) : Connection :=
  {| c_principal := c_principal c; c_session_token := c_session_token c; c_app_id := c_app_id c;
     c_handshake_complete := c_handshake_complete c; c_subscriptions := subs;
     c_pending_writes := c_pending_writes c; c_outbound := c_outbound c; c_writer_open := c_writer_open c |}.
Definition set_pending (n : Z) (c : Connection) : Connection :=
  {| c_principal := c_principal c; c_session_token := c_session_token c; c_app_id := c_app_id c;
     c_handshake_complete := c_handshake_complete c; c_subscriptions := c_subscriptions c;
     c_pending_writes := n; c_outbound := c_outbound c; c_writer_open := c_writer_open c |}.
Definition set_principal (p : Principal) (c : Connection) : Connection :=
  {| c_principal := Some p; c_session_token := c_session_token c; c_app_id := c_app_id c;
     c_handshake_complete := c_handshake_complete c; c_subscriptions := c_subscriptions c;
     c_pending_writes := c_pending_writes c; c_outbound := c_outbound c; c_writer_open := c_writer_open c |}.
Definition set_handshake (principal : option Principal) (token : option string) (app_id : string)
    (c : Connection) : Connection :=
  {| c_principal := principal; c_session_token := token; c_app_id := app_id;
     c_handshake_complete := true; c_subscriptions := c_subscriptions c;
     c_pending_writes := c_pending_writes c; c_outbound := c_outbound c; c_writer_open := c_writer_open c |}.

Definition writer_ended (c : Connection) : Connection :=
  {| c_principal := c_principal c; c_session_token := c_session_token c; c_app_id := c_app_id c;
     c_handshake_complete := c_handshake_complete c; c_subscriptions := c_subscriptions c;
     c_pending_writes := c_pending_writes c; c_outbound := c_outbound c; c_writer_open := false |}.

(** Matching connections get a close; the count of those whose writer receives it. *)
Definition close_session (target : CloseTarget) (h : Hub) : Z * Hub :=
  (Z.of_nat (map_size (base.filter (λ ic, connection_matches_target ic.2 target && c_writer_open ic.2 = true)
                         (h_connections h))),
   with_connections ((λ c, if connection_matches_target c target
                           then send (Out_Close Close.POLICY_VIOLATION "Session revoked") c else c)
                     <$> h_connections h) h).

(** The end of a successful Hello: the locked section with the transitions it
    leaves, then the counts. *)
Definition hello_locked (id : Z) (authed : option Principal) (token : option string) (app_id : string)
    (h : Hub) : list (string * Z) * Hub :=
  match h_connections h !! id with
  | None => ([], h)
  | Some c =>
      match authed with
      | None => ([], update id (set_handshake (c_principal c) (c_session_token c) app_id) h)
      | Some p =>
          let previous_tenant := p_tenant_id <$> c_principal c in
          (if bool_decide (previous_tenant = Some (p_tenant_id p)) then []
           else match previous_tenant with Some t => [(t, -1)] | None => [] end ++ [(p_tenant_id p, 1)],
           update id (set_handshake (Some p) token app_id) h)
      end
  end.
Definition hello_attach (id : Z) (authed : option Principal) (token : option string) (app_id : string)
    (h : Hub) : Hub :=
  let '(transitions, h') := hello_locked id authed token app_id h in
  apply_tenant_transitions transitions h'.

Definition handshake_complete (h : Hub) (id : Z) : bool :=
  match h_connections h !! id with Some c => c_handshake_complete c | None => false end.
Definition connection_principal (h : Hub) (id : Z) : option Principal :=
  c ← h_connections h !! id; c_principal c.
Definition connection_app_id (h : Hub) (id : Z) : string :=
  match h_connections h !! id with Some c => c_app_id c | None => Apps.DEFAULT_APP_ID end.
Definition set_connection_principal (id : Z) (p : Principal) (h : Hub) : Hub := update id (set_principal p) h.

Definition same_principal (l r : Principal) : bool :=
  String.eqb (p_user_id l) (p_user_id r) && String.eqb (p_device_id l) (p_device_id r)
  && String.eqb (p_replica_id l) (p_replica_id r) && String.eqb (p_tenant_id l) (p_tenant_id r).

Section Hub.
Context (limits : FrickLimits).

Definition reserve_hello_principal (id : Z) (p : Principal) (h : Hub) : bool * Hub :=
  let key := connection_key p in
  let previous_key := connection_key <$> connection_principal h id in
  if bool_decide (previous_key = Some key) then (true, h)
  else
    let current := default 0 (h_per_principal h !! key) in
    if max_connections_per_principal limits <=? current then (false, h)
    else
      let pp := match previous_key with
                | Some k => release_principal_slot (h_per_principal h) k
                | None => h_per_principal h
                end in
      (true, with_counts (take_principal_slot pp key) (h_tenant_subscriber_counts h) h).

Definition subscription_count (h : Hub) (id : Z) (subscription_id : string) : bool * Z * string :=
  match h_connections h !! id with
  | None => (false, 0, Apps.DEFAULT_APP_ID)
  | Some c => (existsb (λ s, String.eqb (sk_subscription_id s) subscription_id) (c_subscriptions c),
               Z.of_nat (length (c_subscriptions c)), c_app_id c)
  end.
Definition without_subscription (subscription_id : string) (subs : list SubKey) : list SubKey :=
  List.filter (λ s, negb (String.eqb (sk_subscription_id s) subscription_id)) subs.
Definition add_subscription (id : Z) (sub : SubKey) (h : Hub) : Hub :=
  update id (λ c, set_subscriptions (without_subscription (sk_subscription_id sub) (c_subscriptions c) ++ [sub]) c) h.
Definition remove_subscription (id : Z) (subscription_id : string) (h : Hub) : Hub :=
  update id (λ c, set_subscriptions (without_subscription subscription_id (c_subscriptions c)) c) h.

Definition try_reserve_pending_write (id : Z) (h : Hub) : bool * Hub :=
  match h_connections h !! id with
  | None => (false, h)
  | Some c =>
      if max_pending_appends_per_client limits <=? c_pending_writes c then (false, h)
      else (true, update id (set_pending (c_pending_writes c + 1)) h)
  end.
Definition release_pending_write (id : Z) (h : Hub) : Hub :=
  update id (λ c, set_pending (Z.max 0 (c_pending_writes c - 1)) c) h.

Definition try_consume_write_token (key : string) (now_ns : Z) (h : Hub) : bool * Hub :=
  if write_rate_burst limits <=? 0 then (true, h)
  else
    let burst := Bucket.of_Z (write_rate_burst limits) in
    let refill := Bucket.of_Z (Z.max 0 (write_rate_refill_per_second limits)) in
    let bucket := default (Bucket.new burst now_ns) (h_rate_buckets h !! key) in
    let '(ok, bucket) := Bucket.try_consume now_ns burst refill bucket in
    (ok, with_buckets (<[key := bucket]> (h_rate_buckets h)) h).

(** ** Frames out *)

Context (encode_frame : FrickFrame → result ProtocolError blob).

Definition send_frame (id : Z) (frame : FrickFrame) (h : Hub) : Hub :=
  match encode_frame frame with
  | Err _ => h
  | Ok bytes => update id (send (Out_Frame bytes)) h
  end.
Definition send_close (id : Z) (code : Z) (reason : string) (h : Hub) : Hub :=
  update id (send (Out_Close code reason)) h.

Definition simple_nack (code : FrickErrorCode) (message request_id : string) (retryable : bool)
    (details : option Value) (schema : option FrickSchema) : FrickFrame :=
  F_Nack {| nk_request_id := request_id;
            nk_error := {| Errors.code := code; env_message := message; Errors.request_id := request_id;
                           Errors.retryable := retryable; Errors.details := details;
                           schema_hash := hash <$> schema; env_schema_revision := schema_revision <$> schema |};
            nk_code := Some code; nk_message := Some message |}.
Definition limit_details (limit : string) (configured : Z) : Value :=
  VMap [(VStr "limit", VStr limit); (VStr "configuredMax", VInt configured)].
Definition principal_cap_nack (request_id : string) (configured_max : Z) : FrickFrame :=
  simple_nack RateLimitExceeded "Maximum connections per principal exceeded" request_id true
    (Some (limit_details "maxConnectionsPerPrincipal" configured_max)) None.
Definition reason_details (reason : string) : Value := VMap [(VStr "reason", VStr reason)].
Definition send_auth_nack (id : Z) (request_id : string) (reason : DenyReason) (public_message : string)
    (h : Hub) : Hub :=
  let code := if bool_decide (reason = Unauthenticated) then AuthUnauthenticated else AuthForbidden in
  send_frame id (simple_nack code public_message request_id false
                   (Some (reason_details (DenyReason_as_str reason))) None) h.
Definition send_hello_auth_nack (id : Z) (code : FrickErrorCode) (message reason : string) (h : Hub) :
    bool * Hub :=
  (true, send_close id Close.POLICY_VIOLATION message
           (send_frame id (simple_nack code message "hello" false (Some (reason_details reason)) None) h)).
Definition ack (request_id : string) : FrickFrame :=
  F_Ack {| ak_request_id := request_id; ak_cursor := None; ak_version := None |}.

(** ** Connecting *)

(** [run_connection] up to registration: the caps, then the connection's id. An
    over-cap socket is closed before it is a connection: what it is sent. *)
Definition connect (principal : option Principal) (bearer : option string) (h : Hub) :
    (list Outbound + Z) * Hub :=
  if (0 <=? max_web_socket_connections limits)
     && (max_web_socket_connections limits <=? Z.of_nat (map_size (h_connections h)))
  then (inl [Out_Close Close.TRY_AGAIN_LATER "WebSocket connection limit exceeded"], h)
  else
    let over_cap := match principal with
                    | Some p => max_connections_per_principal limits
                                  <=? default 0 (h_per_principal h !! connection_key p)
                    | None => false
                    end in
    if over_cap : bool then
      (inl (match encode_frame (principal_cap_nack "connect" (max_connections_per_principal limits)) with
            | Ok bytes => [Out_Frame bytes] | Err _ => []
            end ++ [Out_Close Close.TRY_AGAIN_LATER "WebSocket connection limit exceeded"]), h)
    else
      let '(id, h') := register {| c_principal := principal; c_session_token := bearer;
                         c_app_id := Apps.DEFAULT_APP_ID; c_handshake_complete := false;
                         c_subscriptions := []; c_pending_writes := 0; c_outbound := [];
                         c_writer_open := true |} h in
      (inr id, h').
End Hub.

(** ** Helpers without state *)

Definition bearer_token (headers : HeaderMap) : option string :=
  value ← (headers !! AUTHORIZATION : option string);
  value ← to_str value;
  (fix split (pre : string) (s : string) : option string :=
     match s with
     | EmptyString => None
     | String c s' =>
         match Str.strip_ws s with
         | Some rest =>
             if String.eqb (Str.to_lowercase pre) "bearer"
             then let token := Str.trim rest in if Str.is_empty token then None else Some token
             else None
         | None => split (pre +:+ String c EmptyString) s'
         end
     end) "" value.

Definition pre_hello_request_id (f : FrickFrame) : string :=
  match f with
  | F_Subscribe p => sp_subscription_id p
  | F_CursorCommit p => cu_subscription_id p
  | F_Append p => ap_request_id p
  | F_ObjectUpsert p => ou_request_id p
  | F_PresenceSet p => ps_request_id p
  | F_PresenceClear p => pc_request_id p
  | F_SignalSend p => sig_request_id p
  | _ => "pre-hello"
  end.
Definition subscribe_action (k : SubscriptionKind) : Action :=
  match k with
  | Sub_Object => ObjectRead | Sub_Stream => StreamRead | Sub_Presence => PresenceRead
  | Sub_Signal => SignalRead | Sub_Projection => ProjectionRead
  end.
Definition schema_from_client_caps (caps : FrickClientCapabilities) (target : FrickSchema) : FrickSchema :=
  {| s_name := s_name target; schema_id := sc_schema_id (cc_schema caps); schema_version := schema_version target;
     schema_revision := sc_schema_revision (cc_schema caps);
     minimum_client_revision := minimum_client_revision target;
     minimum_server_revision := minimum_server_revision target; protocol := protocol target;
     protocol_version := protocol_version target; compatibility := compatibility target;
     hash := sc_schema_hash (cc_schema caps); objects := objects target; streams := streams target;
     events := events target; presences := presences target; signals := signals target; blobs := blobs target;
     jobs := jobs target; projections := projections target |}.
Definition object_id_of (object : Value) : string := default "" (object_record_id object).
Definition stream_name_of (schema : FrickSchema) (packed : PackedStreamEvent) : string :=
  match stream_by_id schema (pse_stream_type packed) with Ok s => sd_name s | Err _ => "" end.
Definition app_id_or_default (app_id : option string) : string := default Apps.DEFAULT_APP_ID app_id.
