(* ===== verification/GatewayHub.v ===== *)
(** * The counts of the gateway hub

    The invariant of the connection registry of [frick-server/src/gateway.rs]:
    the count of every tenant is the number of its connections and the set pushed
    to the bus is the tenants with one, the slots of a principal cover its
    connections, and neither cap is exceeded. The steps of the hub keep it when
    they run one after the other; with the locked sections interleaved a stale
    set can be pushed last. *)

From Stdlib Require Import ZArith Lia Ascii String.
From stdpp Require Import base gmap strings list relations.
From S2P Require Import Prelude Value Errors Schema Authz Sessions Frames Apps Cluster Gateway.

(** ** Sums over the roster *)

(** Who is connected: all the counts depend on. *)
Definition roster (h : Hub) : gmap Z (option Principal) := c_principal <$> h_connections h.
Definition rsum (f : option Principal → Z) (m : gmap Z (option Principal)) : Z :=
  map_fold (λ _ p acc, f p + acc) 0 m.

Section Sums.
Context (f : option Principal → Z).
Lemma rsum_insert_new i p m : m !! i = None → rsum f (<[i := p]> m) = f p + rsum f m.
Proof. intros Hi. unfold rsum. rewrite map_fold_insert_L; [done | intros; lia | done]. Qed.
Lemma rsum_delete i p m : m !! i = Some p → rsum f m = f p + rsum f (base.delete i m).
Proof. intros Hi. unfold rsum. rewrite (map_fold_delete_L _ _ i p m); [done | intros; lia | done]. Qed.
Lemma rsum_insert i p q m : m !! i = Some p → rsum f (<[i := q]> m) = rsum f m - f p + f q.
Proof.
  intros Hi. rewrite <- insert_delete_eq, rsum_insert_new by apply lookup_delete_eq.
  rewrite (rsum_delete i p m Hi). lia.
Qed.
Lemma rsum_bounds m : (∀ p, 0 ≤ f p ≤ 1) → 0 ≤ rsum f m ≤ Z.of_nat (size m).
Proof.
  intros Hf. induction m as [|i p m Hi IH] using map_ind.
  - unfold rsum. rewrite map_fold_empty, map_size_empty. lia.
  - rewrite rsum_insert_new, map_size_insert_None by done. specialize (Hf p). lia.
Qed.
End Sums.

(** One for a connection of the tenant, of the principal key. *)
Definition of_tenant (tenant : string) (p : option Principal) : Z :=
  match p with Some p => if String.eqb (p_tenant_id p) tenant then 1 else 0 | None => 0 end.
Definition of_key (key : string) (p : option Principal) : Z :=
  match p with Some p => if String.eqb (connection_key p) key then 1 else 0 | None => 0 end.
Lemma of_tenant_01 t p : 0 ≤ of_tenant t p ≤ 1.
Proof. unfold of_tenant. destruct p as [p|]; [destruct (String.eqb _ _)|]; lia. Qed.
Lemma of_key_01 k p : 0 ≤ of_key k p ≤ 1.
Proof. unfold of_key. destruct p as [p|]; [destruct (String.eqb _ _)|]; lia. Qed.

(** ** The invariant *)

Definition slots (h : Hub) (key : string) : Z := default 0 (h_per_principal h !! key).
Definition counted (counts : gmap string Z) (f : string → Z) : Prop :=
  ∀ t, counts !! t = if f t =? 0 then None else Some (f t).
(** The tenants that somebody is connected for. *)
Definition connected_tenants (h : Hub) (ts : gset string) : Prop :=
  ∀ t, t ∈ ts ↔ ∃ id p, h_connections h !! id ≫= c_principal = Some p ∧ p_tenant_id p = t.

Record hub_ok (limits : FrickLimits) (h : Hub) : Prop := {
  ok_ids : ∀ id, h_next_id h ≤ id → h_connections h !! id = None;
  ok_size : Z.of_nat (size (roster h)) ≤ max_web_socket_connections limits;
  ok_counts : counted (h_tenant_subscriber_counts h) (λ t, rsum (of_tenant t) (roster h));
  ok_pushed : is_Some (h_cluster_bus h) → h_pushed_tenants h = Some (dom (h_tenant_subscriber_counts h));
  ok_slots : ∀ k, rsum (of_key k) (roster h) ≤ slots h k ≤ Z.max 0 (max_connections_per_principal limits);
}.

(** What the counts do not see: subscriptions, budgets, frames. *)
Definition same_roster (h h' : Hub) : Prop :=
  roster h' = roster h ∧ h_next_id h' = h_next_id h
  ∧ h_tenant_subscriber_counts h' = h_tenant_subscriber_counts h ∧ h_per_principal h' = h_per_principal h
  ∧ h_cluster_bus h' = h_cluster_bus h ∧ h_pushed_tenants h' = h_pushed_tenants h.
#[export] Instance same_roster_preorder : PreOrder same_roster.
Proof.
  split; [by intros h; unfold same_roster | unfold same_roster; intros x y z; naive_solver congruence].
Qed.

Lemma roster_lookup h id : roster h !! id = c_principal <$> h_connections h !! id.
Proof. apply lookup_fmap. Qed.
Lemma roster_None h id : h_connections h !! id = None ↔ roster h !! id = None.
Proof. rewrite roster_lookup. by destruct (h_connections h !! id). Qed.

Lemma hub_ok_same limits h h' : same_roster h h' → hub_ok limits h → hub_ok limits h'.
Proof.
  intros (Hr & Hn & Hc & Hp & Hb & Hpt) [Hids Hsize Hcounts Hpushed Hslots]. split; unfold slots.
  - intros id Hid. apply roster_None. rewrite Hr. apply roster_None, Hids. lia.
  - by rewrite Hr.
  - by rewrite Hc, Hr.
  - by rewrite Hb, Hpt, Hc.
  - intros k. rewrite Hr, Hp. apply Hslots.
Qed.

Lemma rsum_pos t m : rsum (of_tenant t) m ≠ 0 → ∃ id p, m !! id = Some (Some p) ∧ p_tenant_id p = t.
Proof.
  induction m as [|i q m Hi IH] using map_ind; [done|]. rewrite rsum_insert_new by done. intros Hne.
  destruct (decide (of_tenant t q = 0)) as [Hz|Hnz].
  - destruct IH as (id & p & Hid & Ht); [lia|]. exists id, p. split; [|done].
    rewrite lookup_insert_ne; [done | by intros ->; rewrite Hi in Hid].
  - unfold of_tenant in Hnz. destruct q as [q|]; [|done].
    destruct (String.eqb_spec (p_tenant_id q) t); [|done]. exists i, q. by rewrite lookup_insert_eq.
Qed.
Lemma connected_roster h id p : h_connections h !! id ≫= c_principal = Some p ↔ roster h !! id = Some (Some p).
Proof. rewrite roster_lookup. destruct (h_connections h !! id) as [c|]; simpl; split; congruence. Qed.
Lemma counted_tenants h :
  counted (h_tenant_subscriber_counts h) (λ t, rsum (of_tenant t) (roster h)) →
  connected_tenants h (dom (h_tenant_subscriber_counts h)).
Proof.
  intros Hc t. setoid_rewrite connected_roster. rewrite elem_of_dom, Hc. split.
  - destruct (Z.eqb_spec (rsum (of_tenant t) (roster h)) 0) as [|Hne]; [by intros []|]. intros _.
    by apply rsum_pos.
  - intros (id & p & Hr & <-). rewrite (rsum_delete _ _ _ _ Hr). unfold of_tenant at 1 3.
    rewrite String.eqb_refl.
    pose proof (rsum_bounds (of_tenant (p_tenant_id p)) (base.delete id (roster h)) (of_tenant_01 _)).
    destruct (Z.eqb_spec (1 + rsum (of_tenant (p_tenant_id p)) (base.delete id (roster h))) 0); [lia | done].
Qed.

(** ** The steps *)

Lemma bump_spec counts f t d :
  counted counts f → (∀ u, 0 ≤ f u) → 0 ≤ f t + d < 2 ^ 32 → d = 1 ∨ d = -1 →
  counted (bump_tenant_count counts t d).2 (λ u, f u + if String.eqb t u then d else 0)
  ∧ ((bump_tenant_count counts t d).1 = false → dom (bump_tenant_count counts t d).2 = dom counts).
Proof.
  intros Hc Hf Ht Hd. unfold bump_tenant_count. simpl.
  assert (default 0 (counts !! t) = f t) as ->.
  { rewrite Hc. destruct (Z.eqb_spec (f t) 0); simpl; lia. }
  split.
  - intros u. destruct (Z.leb_spec (f t + d) 0).
    + destruct (String.eqb_spec t u) as [<-|Hne].
      * rewrite lookup_delete_eq. by replace (f t + d) with 0 by lia.
      * rewrite lookup_delete_ne, Hc by done. by rewrite Z.add_0_r.
    + destruct (String.eqb_spec t u) as [<-|Hne].
      * rewrite lookup_insert_eq. rewrite Z.min_l by lia. by destruct (Z.eqb_spec (f t + d) 0); [lia|].
      * rewrite lookup_insert_ne, Hc by done. by rewrite Z.add_0_r.
  - specialize (Hf t). destruct (Z.eqb_spec (f t) 0) as [Hz|], (Z.leb_spec (f t + d) 0); simpl; try done; intros _.
    + lia.
    + rewrite dom_insert_L. assert (t ∈ dom counts); [|set_solver].
      rewrite elem_of_dom, Hc. by destruct (Z.eqb_spec (f t) 0).
Qed.

Lemma same_principal_spec p q :
  same_principal p q = true → connection_key q = connection_key p ∧ p_tenant_id q = p_tenant_id p.
Proof.
  unfold same_principal. rewrite !andb_true_iff, !String.eqb_eq. intros [[[Hu _] _] Ht].
  unfold connection_key. by rewrite Hu, Ht.
Qed.
Lemma same_principal_counts p q :
  same_principal p q = true →
  (∀ t, of_tenant t (Some q) = of_tenant t (Some p)) ∧ (∀ k, of_key k (Some q) = of_key k (Some p)).
Proof. intros [Hk Ht]%same_principal_spec. unfold of_tenant, of_key. by rewrite Hk, Ht. Qed.

Lemma update_same id f h : (∀ c, c_principal (f c) = c_principal c) → same_roster h (update id f h).
Proof.
  intros Hf. unfold update, same_roster. destruct (h_connections h !! id) as [c|] eqn:Hc; [|done].
  split_and!; try done. unfold roster. simpl. rewrite fmap_insert, Hf, <- fmap_insert.
  by rewrite insert_id.
Qed.
Lemma fmap_same f h :
  (∀ c, c_principal (f c) = c_principal c) → same_roster h (with_connections (f <$> h_connections h) h).
Proof.
  intros Hf. split_and!; try done. unfold roster. simpl. rewrite <- map_fmap_compose.
  apply map_fmap_ext. intros. apply Hf.
Qed.
Lemma update_roster id f h c :
  h_connections h !! id = Some c → roster (update id f h) = <[id := c_principal (f c)]> (roster h).
Proof. intros Hc. unfold update, roster. rewrite Hc. simpl. apply fmap_insert. Qed.
Lemma lifecycle_same b h : same_roster h (lifecycle b h).
Proof. by unfold same_roster. Qed.

(** The counts and the roster move together. *)
Lemma push_if_ok limits tr h :
  hub_ok limits (push_subscribed_tenants h) → (tr = false → hub_ok limits h) → hub_ok limits (push_if tr h).
Proof. intros Hp Hn. destruct tr; simpl; auto. Qed.
Lemma push_ok limits h :
  (∀ id, h_next_id h ≤ id → h_connections h !! id = None) →
  Z.of_nat (size (roster h)) ≤ max_web_socket_connections limits →
  counted (h_tenant_subscriber_counts h) (λ t, rsum (of_tenant t) (roster h)) →
  (∀ k, rsum (of_key k) (roster h) ≤ slots h k ≤ Z.max 0 (max_connections_per_principal limits)) →
  hub_ok limits (push_subscribed_tenants h).
Proof.
  intros Hids Hsize Hc Hs. unfold push_subscribed_tenants.
  destruct (h_cluster_bus h) as [bus|] eqn:Hb; split; try done; simpl; rewrite ?Hb; by intros [].
Qed.

Lemma take_slot pp key k :
  default 0 (take_principal_slot pp key !! k) = default 0 (pp !! k) + if String.eqb key k then 1 else 0.
Proof.
  unfold take_principal_slot. destruct (String.eqb_spec key k) as [<-|Hne].
  - by rewrite lookup_insert_eq.
  - rewrite lookup_insert_ne by done. lia.
Qed.
Lemma release_slot pp key k :
  0 ≤ default 0 (pp !! k) →
  default 0 (release_principal_slot pp key !! k)
  = Z.max 0 (default 0 (pp !! k) - if String.eqb key k then 1 else 0).
Proof.
  unfold release_principal_slot. intros Hpos. destruct (String.eqb_spec key k) as [<-|Hne].
  - destruct (pp !! key) as [n|] eqn:Hn; simpl in *; [|by rewrite Hn].
    destruct (Z.eqb_spec (Z.max 0 (n - 1)) 0) as [Hz|]; [rewrite lookup_delete_eq | rewrite lookup_insert_eq]; simpl; lia.
  - destruct (pp !! key) as [n|]; [|lia].
    destruct (Z.eqb_spec (Z.max 0 (n - 1)) 0); [rewrite lookup_delete_ne | rewrite lookup_insert_ne]; try done; lia.
Qed.
Lemma of_key_if k p : of_key k (Some p) = if String.eqb (connection_key p) k then 1 else 0.
Proof. done. Qed.
Lemma of_tenant_if t p : of_tenant t (Some p) = if String.eqb (p_tenant_id p) t then 1 else 0.
Proof. done. Qed.

#[local] Opaque bump_tenant_count.

Section Steps.
Context (limits : FrickLimits).
Hypothesis ws_cap : 0 ≤ max_web_socket_connections limits < 2 ^ 32.

Lemma counted_ext counts f g : (∀ t, f t = g t) → counted counts f → counted counts g.
Proof. intros He Hc t. by rewrite <- He. Qed.
Lemma tenant_bounds h t : hub_ok limits h → 0 ≤ rsum (of_tenant t) (roster h) < 2 ^ 32.
Proof.
  intros Hok. pose proof (rsum_bounds _ (roster h) (of_tenant_01 t)). pose proof (ok_size _ _ Hok). lia.
Qed.

(** A step that moves one count by one, with the connections to match. *)
Lemma move_ok h h1 t d :
  hub_ok limits h → d = 1 ∨ d = -1 →
  h_tenant_subscriber_counts h1 = (bump_tenant_count (h_tenant_subscriber_counts h) t d).2 →
  h_cluster_bus h1 = h_cluster_bus h → h_pushed_tenants h1 = h_pushed_tenants h →
  (∀ u, rsum (of_tenant u) (roster h1) = rsum (of_tenant u) (roster h) + if String.eqb t u then d else 0) →
  (∀ id, h_next_id h1 ≤ id → h_connections h1 !! id = None) →
  Z.of_nat (size (roster h1)) ≤ max_web_socket_connections limits →
  (∀ k, rsum (of_key k) (roster h1) ≤ slots h1 k ≤ Z.max 0 (max_connections_per_principal limits)) →
  hub_ok limits (push_if (bump_tenant_count (h_tenant_subscriber_counts h) t d).1 h1).
Proof using All.
  intros Hok Hd Hc1 Hb1 Hp1 Hsum Hids Hsize Hslots. pose proof Hok as [_ _ Hcounts Hpushed _].
  destruct (bump_spec _ _ t d Hcounts) as [Htc Hdom]; [intros u; apply (tenant_bounds h u Hok) | | done|].
  { pose proof (rsum_bounds _ (roster h1) (of_tenant_01 t)) as Hb. rewrite Hsum, String.eqb_refl in Hb. lia. }
  rewrite <- Hc1 in Htc, Hdom.
  assert (counted (h_tenant_subscriber_counts h1) (λ u, rsum (of_tenant u) (roster h1))) as Hcnt.
  { eapply counted_ext; [|exact Htc]. intros u. by rewrite Hsum. }
  apply push_if_ok; [by apply push_ok|]. intros Hflag. split; try done.
  rewrite Hb1, Hp1, (Hdom Hflag). exact Hpushed.
Qed.

(** A new connection, counted for its principal if it has one. *)
Lemma register_ok c h :
  hub_ok limits h → Z.of_nat (size (h_connections h)) < max_web_socket_connections limits →
  (∀ p, c_principal c = Some p → slots h (connection_key p) < max_connections_per_principal limits) →
  hub_ok limits (register c h).2.
Proof using All.
  intros Hok Hroom Hslot. pose proof Hok as [Hids Hsize Hcounts Hpushed Hslots].
  assert (roster h !! h_next_id h = None) as Hnew by (apply roster_None, Hids; lia).
  assert (Z.of_nat (size (<[h_next_id h := c_principal c]> (roster h))) ≤ max_web_socket_connections limits) as Hsz.
  { rewrite map_size_insert_None by done. unfold roster. rewrite map_size_fmap. lia. }
  assert (∀ id, h_next_id h + 1 ≤ id → <[h_next_id h := c]> (h_connections h) !! id = None) as Hids'.
  { intros id Hid. rewrite lookup_insert_ne by lia. apply Hids. lia. }
  unfold register, register_locked. destruct (c_principal c) as [p|] eqn:Hp.
  - specialize (Hslot p eq_refl). simpl in *.
    destruct (bump_tenant_count _ _ 1) as [tr tc] eqn:Hb.
    replace tr with (bump_tenant_count (h_tenant_subscriber_counts h) (p_tenant_id p) 1).1 by by rewrite Hb.
    eapply hub_ok_same; [apply lifecycle_same|]. apply move_ok; try done; simpl; [by left | by rewrite Hb | | |];
      unfold roster; simpl; rewrite fmap_insert, Hp; fold (roster h); [|done|].
    + intros u. rewrite rsum_insert_new, of_tenant_if by done. lia.
    + intros k. unfold slots in *. simpl. rewrite take_slot, rsum_insert_new, of_key_if by done.
      specialize (Hslots k). destruct (String.eqb_spec (connection_key p) k) as [<-|]; lia.
  - eapply hub_ok_same; [apply lifecycle_same|]. simpl.
    split; try done; unfold roster; simpl; rewrite fmap_insert, Hp; fold (roster h); [done| |].
    + eapply counted_ext; [|exact Hcounts]. intros t. by rewrite rsum_insert_new.
    + intros k. rewrite rsum_insert_new by done. apply Hslots.
Qed.

(** A connection that goes away takes its counts with it. *)
Lemma unregister_ok id h : hub_ok limits h → hub_ok limits (unregister id h).
Proof using All.
  intros Hok. pose proof Hok as [Hids Hsize Hcounts Hpushed Hslots].
  unfold unregister, unregister_locked. destruct (h_connections h !! id) as [c|] eqn:Hc.
  2: { eapply hub_ok_same; [apply lifecycle_same | done]. }
  assert (roster h !! id = Some (c_principal c)) as Hr by by rewrite roster_lookup, Hc.
  assert (Z.of_nat (size (base.delete id (roster h))) ≤ max_web_socket_connections limits) as Hsz.
  { rewrite map_size_delete_Some by done. lia. }
  assert (∀ i, h_next_id h ≤ i → base.delete id (h_connections h) !! i = None) as Hids'.
  { intros i Hi. apply lookup_delete_None. right. by apply Hids. }
  destruct (c_principal c) as [p|] eqn:Hp.
  - simpl in *. destruct (bump_tenant_count _ _ (-1)) as [tr tc] eqn:Hb.
    replace tr with (bump_tenant_count (h_tenant_subscriber_counts h) (p_tenant_id p) (-1)).1 by by rewrite Hb.
    eapply hub_ok_same; [apply lifecycle_same|]. apply move_ok; try done; simpl; [by right | by rewrite Hb | | |];
      unfold roster; simpl; rewrite fmap_delete; fold (roster h); [|done|].
    + intros u. rewrite (rsum_delete _ id (Some p) (roster h)), of_tenant_if by done.
      destruct (String.eqb _ _); lia.
    + intros k. unfold slots in *. simpl. specialize (Hslots k).
      pose proof (rsum_bounds _ (base.delete id (roster h)) (of_key_01 k)).
      rewrite (rsum_delete _ id (Some p) (roster h)), of_key_if in Hslots by done.
      rewrite release_slot by (destruct (String.eqb (connection_key p) k); lia).
      destruct (String.eqb _ _); lia.
  - eapply hub_ok_same; [apply lifecycle_same|]. simpl.
    split; try done; unfold roster; simpl; rewrite fmap_delete; fold (roster h); [done| |].
    + eapply counted_ext; [|exact Hcounts]. intros t. cbv beta. by rewrite (rsum_delete _ id None (roster h)).
    + intros k. specialize (Hslots k). by rewrite (rsum_delete _ id None (roster h)) in Hslots.
Qed.

(** What a reservation for a Hello leaves: room for the connection to become the
    principal's. *)
Definition reserved (id : Z) (p : Principal) (h : Hub) : Prop :=
  (∀ q, connection_principal h id = Some q → same_principal q p = true)
  ∧ (is_Some (h_connections h !! id) → ∀ k, rsum (of_key k) (<[id := Some p]> (roster h)) ≤ slots h k).

Lemma principal_roster h id q : connection_principal h id = Some q ↔ roster h !! id = Some (Some q).
Proof. rewrite roster_lookup. unfold connection_principal. destruct (h_connections h !! id); simpl; split; congruence. Qed.

Lemma reserved_same id p h h' : same_roster h h' → reserved id p h → reserved id p h'.
Proof.
  intros (Hr & _ & _ & Hp & _) [Hq Hs]. unfold reserved, slots in *. split.
  - intros q Hcp. apply Hq, principal_roster. rewrite <- Hr. by apply principal_roster.
  - intros [c Hc]. rewrite Hr, Hp. apply Hs.
    destruct (h_connections h !! id) eqn:He; [done|]. apply roster_None in He. rewrite <- Hr in He.
    by apply roster_None in He; rewrite Hc in He.
Qed.

Lemma reserve_ok id p h :
  hub_ok limits h → (∀ q, connection_principal h id = Some q → same_principal q p = true) →
  hub_ok limits (reserve_hello_principal limits id p h).2
  ∧ roster (reserve_hello_principal limits id p h).2 = roster h
  ∧ ((reserve_hello_principal limits id p h).1 = true → reserved id p (reserve_hello_principal limits id p h).2).
Proof using All.
  intros Hok Hsame. pose proof Hok as [Hids Hsize Hcounts Hpushed Hslots].
  unfold reserve_hello_principal. destruct (connection_principal h id) as [q|] eqn:Hq.
  - destruct (same_principal_spec _ _ (Hsame q eq_refl)) as [Hk _]. simpl. rewrite Hk, bool_decide_true by done.
    split_and!; [done|done|]. intros _. split; [intros q' Hq'; change (connection_principal h id = Some q') in Hq'; rewrite Hq in Hq'; by apply Hsame|]. intros _ k.
    apply principal_roster in Hq. rewrite (rsum_insert _ _ _ _ _ Hq).
    rewrite (proj2 (same_principal_counts _ _ (Hsame q eq_refl))). simpl. specialize (Hslots k). lia.
  - simpl.
    destruct (Z.leb_spec (max_connections_per_principal limits) (default 0 (h_per_principal h !! connection_key p)));
      [done|]. simpl. set (h1 := with_counts _ _ _).
    assert (∀ k, slots h1 k = slots h k + of_key k (Some p)) as Hsl.
    { intros k. unfold slots, h1. simpl. by rewrite take_slot. }
    split_and!; [|done|].
    + split; try done. intros k. change (roster h1) with (roster h). rewrite Hsl, of_key_if.
      specialize (Hslots k). unfold slots in *. destruct (String.eqb_spec (connection_key p) k) as [<-|]; lia.
    + intros _. split; [intros q Hq'; by change (connection_principal h id = Some q) in Hq'; rewrite Hq in Hq'|].
      intros [c Hc] k. change (roster h1) with (roster h). change (h_connections h !! id = Some c) in Hc.
      rewrite Hsl, (rsum_insert _ _ (c_principal c)) by by rewrite roster_lookup, Hc.
      pose proof (of_key_01 k (c_principal c)). specialize (Hslots k). lia.
Qed.

Lemma hello_attach_ok id authed token app h :
  hub_ok limits h → (∀ p, authed = Some p → reserved id p h) →
  hub_ok limits (hello_attach id authed token app h).
Proof using All.
  intros Hok Hres. unfold hello_attach, hello_locked. destruct (h_connections h !! id) as [c|] eqn:Hc; [|done].
  destruct authed as [p|].
  2: { simpl. eapply hub_ok_same; [|exact Hok]. unfold update. rewrite Hc. split_and!; try done.
       unfold roster. simpl. rewrite fmap_insert. simpl. rewrite <- fmap_insert. by rewrite insert_id. }
  destruct (Hres p eq_refl) as [Hsame Hkey]. specialize (Hkey (ex_intro _ c Hc)). unfold connection_principal in Hsame.
  rewrite Hc in Hsame. simpl in Hsame. pose proof Hok as [Hids Hsize Hcounts Hpushed Hslots].
  set (h1 := update id _ h). assert (roster h1 = <[id := Some p]> (roster h)) as Hr
    by exact (update_roster id (set_handshake (Some p) token app) h c Hc).
  assert (roster h !! id = Some (c_principal c)) as Hold by by rewrite roster_lookup, Hc.
  assert (Z.of_nat (size (roster h1)) ≤ max_web_socket_connections limits) as Hsz.
  { rewrite Hr, map_size_insert_Some by done. lia. }
  assert (∀ i, h_next_id h ≤ i → h_connections h1 !! i = None) as Hids'.
  { intros i Hi. apply roster_None. rewrite Hr, lookup_insert_ne; [by apply roster_None, Hids|].
    intros <-. by rewrite Hids in Hc. }
  assert (h_tenant_subscriber_counts h1 = h_tenant_subscriber_counts h
    ∧ h_cluster_bus h1 = h_cluster_bus h ∧ h_pushed_tenants h1 = h_pushed_tenants h
    ∧ h_per_principal h1 = h_per_principal h ∧ h_next_id h1 = h_next_id h) as (Hc1 & Hb1 & Hp1 & Hpp1 & Hn1).
  { unfold h1, update. by rewrite Hc. }
  assert (∀ k, rsum (of_key k) (roster h1) ≤ slots h1 k ≤ Z.max 0 (max_connections_per_principal limits)) as Hk.
  { intros k. rewrite Hr. unfold slots. rewrite Hpp1. split; [apply Hkey | apply Hslots]. }
  destruct (c_principal c) as [q|] eqn:Hq.
  - destruct (same_principal_spec _ _ (Hsame q eq_refl)) as [_ Ht]. simpl. rewrite Ht, bool_decide_true by done. simpl.
    split; try done; [by rewrite Hn1 | | by rewrite Hb1, Hp1, Hc1].
    rewrite Hc1. eapply counted_ext; [|exact Hcounts]. intros t. cbv beta.
    rewrite Hr, (rsum_insert _ _ _ _ _ Hold), (proj1 (same_principal_counts _ _ (Hsame q eq_refl))). lia.
  - simpl. destruct (bump_tenant_count _ _ 1) as [tr tc] eqn:Hb. rewrite orb_false_r.
    rewrite Hc1 in Hb.
    replace tr with (bump_tenant_count (h_tenant_subscriber_counts h) (p_tenant_id p) 1).1 by by rewrite Hb.
    apply move_ok; try done; simpl; [by left | by rewrite Hb | | by rewrite Hn1]. intros u.
    change (roster (with_counts (h_per_principal h1) tc h1)) with (roster h1).
    rewrite Hr, (rsum_insert _ _ _ _ _ Hold), of_tenant_if. simpl. lia.
Qed.

Lemma connect_ok encode_frame principal bearer h :
  hub_ok limits h → hub_ok limits (connect limits encode_frame principal bearer h).2.
Proof using All.
  intros Hok. unfold connect. rewrite (proj2 (Z.leb_le _ _) (proj1 ws_cap)). simpl.
  destruct (Z.leb_spec (max_web_socket_connections limits) (Z.of_nat (map_size (h_connections h)))) as [|Hroom]; [done|].
  destruct (match principal with Some _ => _ | None => _ end) eqn:Hcap; [done|].
  pose proof (register_ok
    {| c_principal := principal; c_session_token := bearer; c_app_id := Apps.DEFAULT_APP_ID;
       c_handshake_complete := false; c_subscriptions := []; c_pending_writes := 0; c_outbound := [];
       c_writer_open := true |} h Hok Hroom) as Hreg.
  destruct (register _ h) as [id h']. apply Hreg. intros p [= ->]. by apply Z.leb_gt in Hcap.
Qed.
Lemma refresh_ok id p h :
  hub_ok limits h → (∀ q, connection_principal h id = Some q → same_principal q p = true) →
  is_Some (connection_principal h id) → hub_ok limits (set_connection_principal id p h).
Proof using Type.
  intros [Hids Hsize Hcounts Hpushed Hslots] Hsame [q Hq]. specialize (Hsame q Hq).
  pose proof (proj1 (principal_roster _ _ _) Hq) as Hrq.
  destruct (h_connections h !! id) as [c|] eqn:Hc; [|by apply roster_None in Hc; rewrite Hc in Hrq].
  pose proof (update_roster id (set_principal p) h c Hc) as Hr. simpl in Hr. unfold set_connection_principal.
  destruct (same_principal_counts _ _ Hsame) as [Ht Hk].
  assert (h_next_id (update id (set_principal p) h) = h_next_id h
    ∧ h_tenant_subscriber_counts (update id (set_principal p) h) = h_tenant_subscriber_counts h
    ∧ h_cluster_bus (update id (set_principal p) h) = h_cluster_bus h
    ∧ h_pushed_tenants (update id (set_principal p) h) = h_pushed_tenants h
    ∧ h_per_principal (update id (set_principal p) h) = h_per_principal h) as (Hn1 & Hc1 & Hb1 & Hp1 & Hpp1).
  { unfold update. by rewrite Hc. }
  split.
  - rewrite Hn1. intros i Hi. apply roster_None. rewrite Hr, lookup_insert_ne; [by apply roster_None, Hids|].
    intros <-. by rewrite Hids in Hc.
  - by rewrite Hr, map_size_insert_Some.
  - rewrite Hc1. eapply counted_ext; [|exact Hcounts]. intros t. cbv beta. rewrite Hr, (rsum_insert _ _ _ _ _ Hrq), Ht. lia.
  - by rewrite Hb1, Hp1, Hc1.
  - intros k. unfold slots. rewrite Hpp1, Hr, (rsum_insert _ _ _ _ _ Hrq), Hk. specialize (Hslots k). unfold slots in Hslots. lia.
Qed.
Lemma set_cluster_bus_ok node h : hub_ok limits h → hub_ok limits (set_cluster_bus node h).
Proof using Type. intros []. by split. Qed.
End Steps.

(** ** The steps the counts do not see *)

Create HintDb hub.
Lemma send_frame_same encode id f h : same_roster h (send_frame encode id f h).
Proof. unfold send_frame. destruct (encode f); [by apply update_same | done]. Qed.
Lemma send_close_same id code reason h : same_roster h (send_close id code reason h).
Proof. by apply update_same. Qed.
Lemma add_subscription_same id sub h : same_roster h (add_subscription id sub h).
Proof. by apply update_same. Qed.
Lemma remove_subscription_same id sid h : same_roster h (remove_subscription id sid h).
Proof. by apply update_same. Qed.
Lemma try_reserve_pending_write_same limits id h : same_roster h (try_reserve_pending_write limits id h).2.
Proof.
  unfold try_reserve_pending_write. destruct (h_connections h !! id); [|done].
  destruct (_ <=? _); [done | by apply update_same].
Qed.
Lemma release_pending_write_same id h : same_roster h (release_pending_write id h).
Proof. by apply update_same. Qed.
Lemma try_consume_write_token_same limits key now h : same_roster h (try_consume_write_token limits key now h).2.
Proof.
  unfold try_consume_write_token. destruct (_ <=? _); [done|]. by destruct (Bucket.try_consume _ _ _ _).
Qed.
Lemma close_session_same target h : same_roster h (close_session target h).2.
Proof. apply fmap_same. intros c. by destruct (connection_matches_target c target). Qed.
Lemma publish_same mk h : same_roster h (publish mk h).
Proof. unfold publish. destruct (h_cluster_bus h) eqn:Hb; [|done]. by unfold same_roster; simpl; rewrite Hb. Qed.
Lemma send_auth_nack_same encode id rid r m h : same_roster h (send_auth_nack encode id rid r m h).
Proof. apply send_frame_same. Qed.
Lemma send_hello_auth_nack_same encode id code m r h : same_roster h (send_hello_auth_nack encode id code m r h).2.
Proof. etrans; [apply send_frame_same | apply send_close_same]. Qed.
#[export] Hint Resolve send_frame_same send_close_same add_subscription_same remove_subscription_same
  try_reserve_pending_write_same release_pending_write_same try_consume_write_token_same
  close_session_same publish_same send_auth_nack_same send_hello_auth_nack_same : hub.

(** ** Interleaved pushes *)

#[local] Transparent bump_tenant_count.

(** A hub, and the pushes under way on other threads: one that has seen the
    transition, or has read the tenants and is about to hand them to the bus. *)
Record Racing : Type := { rc_hub : Hub; rc_pushes : list (option (gset string)) }.
Inductive race : Racing → Racing → Prop :=
| race_register c h ps id tr h' :
    register_locked c h = (id, tr, h') →
    race {| rc_hub := h; rc_pushes := ps |} {| rc_hub := h'; rc_pushes := if tr then ps ++ [None] else ps |}
| race_unregister id h ps tr h' :
    unregister_locked id h = (tr, h') →
    race {| rc_hub := h; rc_pushes := ps |} {| rc_hub := h'; rc_pushes := if tr then ps ++ [None] else ps |}
| race_read h ps qs :
    race {| rc_hub := h; rc_pushes := ps ++ None :: qs |}
         {| rc_hub := h; rc_pushes := ps ++ Some (dom (h_tenant_subscriber_counts h)) :: qs |}
| race_push h ps ts qs :
    race {| rc_hub := h; rc_pushes := ps ++ Some ts :: qs |}
         {| rc_hub := with_bus (h_cluster_bus h) (Some ts) (h_published h) h; rc_pushes := ps ++ qs |}.

Definition fresh_connection (p : Principal) : Connection :=
  {| c_principal := Some p; c_session_token := None; c_app_id := Apps.DEFAULT_APP_ID;
     c_handshake_complete := false; c_subscriptions := []; c_pending_writes := 0; c_outbound := [];
     c_writer_open := true |}.

(** The run: the first connection reads the tenants, the second connects and
    pushes its set, then the first pushes what it read. *)
Lemma race_run node p q : p_tenant_id p ≠ p_tenant_id q →
  let h0 := set_cluster_bus node empty_hub in
  let h1 := (register_locked (fresh_connection p) h0).2 in
  let h2 := (register_locked (fresh_connection q) h1).2 in
  let h3 := with_bus (h_cluster_bus h2) (Some (dom (h_tenant_subscriber_counts h2))) (h_published h2) h2 in
  rtc race {| rc_hub := h0; rc_pushes := [] |}
    {| rc_hub := with_bus (h_cluster_bus h3) (Some {[p_tenant_id p]}) (h_published h3) h3; rc_pushes := [] |}.
Proof.
  intros Hne h0 h1 h2 h3.
  assert (register_locked (fresh_connection p) h0 = (1, true, h1)) as Hp by done.
  assert (h_tenant_subscriber_counts h1 = {[p_tenant_id p := 1]}) as Hc1 by done.
  assert (register_locked (fresh_connection q) h1 = (2, true, h2)) as Hq.
  { unfold h2, register_locked. cbn -[bump_tenant_count h1]. rewrite Hc1. unfold bump_tenant_count.
    by rewrite lookup_singleton_ne. }
  assert (dom (h_tenant_subscriber_counts h1) = {[p_tenant_id p]}) as Hdom by (rewrite Hc1; set_solver).
  subst h3. clearbody h2 h1 h0.
  eapply rtc_l; [apply (race_register _ _ _ _ _ _ Hp)|]. simpl.
  eapply rtc_l; [apply (race_read h1 [] [])|]. simpl. rewrite Hdom.
  eapply rtc_l; [apply (race_register _ _ _ _ _ _ Hq)|]. simpl.
  eapply rtc_l; [apply (race_read h2 [Some {[p_tenant_id p]}] [])|]. simpl.
  eapply rtc_l; [apply (race_push h2 [Some {[p_tenant_id p]}] _ [])|]. simpl.
  eapply rtc_l; [apply (race_push _ [] {[p_tenant_id p]} [])|]. simpl. done.
Qed.

(** Two clients of different tenants connect at the same time and the pushes of
    the tenant set overlap: with nothing under way any more both are connected
    and counted, but the bus has only the first tenant, and drops every
    envelope of the second until some tenant comes or goes. *)
Theorem racing_pushes_stale {H} node p q :
  p_tenant_id p ≠ p_tenant_id q →
  ∃ h, rtc race {| rc_hub := set_cluster_bus node empty_hub; rc_pushes := [] |}
           {| rc_hub := h; rc_pushes := [] |}
    ∧ connection_principal h 1 = Some p ∧ connection_principal h 2 = Some q
    ∧ h_tenant_subscriber_counts h !! p_tenant_id q = Some 1
    ∧ h_pushed_tenants h = Some {[p_tenant_id p]}
    ∧ ∀ (b : Bus.MemoryClusterBus H) envelope,
        Bus.bus_tenants b = h_pushed_tenants h → Env.tenant_id envelope = p_tenant_id q →
        Bus.inbound envelope b = [].
Proof.
  intros Hne. eexists. split; [by apply (race_run node p q)|]. simpl. split_and!; try done.
  - change ((bump_tenant_count {[p_tenant_id p := 1]} (p_tenant_id q) 1).2 !! p_tenant_id q = Some 1).
    unfold bump_tenant_count. rewrite lookup_singleton_ne by done. simpl. by rewrite lookup_insert_eq.
  - intros b envelope Hb Ht. unfold Bus.inbound. rewrite Hb, bool_decide_false by (rewrite Ht; set_solver).
    by destruct (negb (Bus.bus_attached b)), (String.eqb (Env.origin_node_id envelope) (Bus.bus_node_id b)).
Qed.

Module SampleHub.
Definition member (tenant user : string) : Principal :=
  {| p_user_id := user; p_device_id := "d"; p_replica_id := "r"; p_tenant_id := tenant;
     p_scope := Scope_Tenant; p_service_scopes := [] |}.
End SampleHub.

Lemma racing_pushes_stale_witness :
  ∃ h, h_tenant_subscriber_counts h !! "globex" = Some 1 ∧ h_pushed_tenants h = Some {["acme"]}.
Proof.
  destruct (racing_pushes_stale (H := unit) "n1" (SampleHub.member "acme" "ann") (SampleHub.member "globex" "bob"))
    as (h & _ & _ & _ & Hc & Hp & _); [done|]. by exists h.
Defined.
