(* ===== verification/GatewayFanout.v ===== *)
(** * Fan-out of the gateway ([frick-server/src/gateway.rs])

    What a store write, a projection delta, a signal, a presence change or an
    envelope of a peer node puts on the channels of the subscribed connections.
    Sends on different channels commute, so a loop over the connections is one
    map. The task an object upsert spawns for the subscribers whose right to read
    needs the store is a value, run later by [run_deferred]. *)

From Stdlib Require Import ZArith Lia Ascii String.
From stdpp Require Import base gmap strings list pretty.
From S2P Require Import Prelude Value Errors Schema Codec StoreBase ObjectStore StreamStore Authz Frames Apps Facade Projections Cluster Gateway GatewayHub.

(** ** Delivery *)

Definition send_all (os : list Outbound) (c : Connection) : Connection := foldl (λ c o, send o c) c os.
Definition deliver (who : Z → Connection → list Outbound) (h : Hub) : Hub :=
  with_connections (map_imap (λ id c, Some (send_all (who id c) c)) (h_connections h)) h.

(** A connection the tenant's and app's traffic may reach, with its principal. *)
Definition addressed (tenant_id app_id : string) (c : Connection) : option Principal :=
  p ← c_principal c;
  if negb (is_active_cheap p) || negb (String.eqb (p_tenant_id p) tenant_id) then None
  else if negb (String.eqb (c_app_id c) app_id) then None
  else Some p.
Definition sub_matches (kind : SubscriptionKind) (name : string) (key : option string) (sub : SubKey) : bool :=
  bool_decide (sk_kind sub = kind) && String.eqb (sk_name sub) name
  && match key with Some key => bool_decide (sk_key sub = Some key) | None => true end.
Definition subscribed (kind : SubscriptionKind) (name : string) (key : option string) (c : Connection) : bool :=
  existsb (sub_matches kind name key) (c_subscriptions c).

Definition broadcast_to_subscribers (kind : SubscriptionKind) (name : string) (key : option string)
    (tenant_id app_id : string) (bytes : blob) : Hub → Hub :=
  deliver (λ _ c, match addressed tenant_id app_id c with
                  | Some _ => if subscribed kind name key c then [Out_Frame bytes] else []
                  | None => []
                  end).

Definition projection_change_to_envelope (c : Projections.ProjectionChange) : Env.ProjectionChange :=
  {| Env.ch_key := Projections.ch_key c; Env.ch_value := default VNil (Projections.ch_value c) |}.
Definition envelope_change_to_projection (c : Env.ProjectionChange) : Projections.ProjectionChange :=
  {| Projections.ch_key := Env.ch_key c;
     Projections.ch_value := match Env.ch_value c with VNil => None | v => Some v end |}.

(** The spawned task of an object upsert. *)
Record Deferred : Type := {
  df_tenant_id : string; df_object_type : string; df_object_id : string; df_object : Value;
  df_writer_user_id : option string; df_bytes : blob; df_subscribers : gmap Z Principal;
}.

Section Fanout.
Context (schema : FrickSchema) (mode : ObjectVisibilityMode) (hooks : list PolicyHook).
Context (encode_frame : FrickFrame → result ProtocolError blob).

Definition baseline_visible (object_type : string) (object : Value) (writer_user_id : option string)
    (p : Principal) : bool :=
  bool_decide (writer_user_id = Some (p_user_id p)) || is_admin p
  || is_object_visible_to_user mode (owner_field_for_type schema object_type) object (p_user_id p).
Definition has_hooks : bool := negb (bool_decide (hooks = [])).

Definition fan_out_object_upsert (now_ms : Z) (tenant_id app_id object_type object_id : string)
    (object : Value) (writer_user_id : option string) (h : Hub) : Hub * list Deferred :=
  match pack_object_record schema object_type object_id (without_record_id object) with
  | Err _ => (h, [])
  | Ok packed =>
      match encode_frame (F_Delta {| dl_objects := [packed]; dl_events := []; dl_cursor := now_ms;
                                     dl_removed := None |}) with
      | Err _ => (h, [])
      | Ok bytes =>
          let subscriber c := p ← addressed tenant_id app_id c;
                              if subscribed Sub_Object object_type None c then Some p else None in
          let inline p := negb has_hooks && baseline_visible object_type object writer_user_id p in
          let deferred := omap (λ c, p ← subscriber c; if inline p then None else Some p) (h_connections h) in
          (deliver (λ _ c, match subscriber c with
                           | Some p => if inline p then [Out_Frame bytes] else []
                           | None => []
                           end) h,
           if bool_decide (deferred = ∅) then []
           else [{| df_tenant_id := tenant_id; df_object_type := object_type; df_object_id := object_id;
                    df_object := object; df_writer_user_id := writer_user_id; df_bytes := bytes;
                    df_subscribers := deferred |}])
      end
  end.

Definition deferred_reads `{GrantLookup G} (grants : G) (d : Deferred) (p : Principal) : bool :=
  let active := per_record_read_authz_active grants in
  if has_hooks then
    subscriber_can_read_object_with_hooks grants hooks mode (owner_field_for_type schema (df_object_type d)) p
      (df_object_type d) (df_object d) active (df_writer_user_id d)
  else if negb active then false
  else active_grant grants (df_tenant_id d) (p_user_id p) (df_object_type d) (df_object_id d) "read".
Definition run_deferred `{GrantLookup G} (grants : G) (d : Deferred) : Hub → Hub :=
  deliver (λ id _, match df_subscribers d !! id with
                   | Some p => if deferred_reads grants d p then [Out_Frame (df_bytes d)] else []
                   | None => []
                   end).

(** The id-only record and the removal a delete and a revocation send. *)
Definition removal_frame (now_ms : Z) (object_type object_id : string) : result ProtocolError blob :=
  tombstone ← pack_object_record schema object_type object_id (VMap []);
  encode_frame (F_Delta {| dl_objects := [tombstone]; dl_events := []; dl_cursor := now_ms;
    dl_removed := Some [{| rm_object_type := object_type; rm_id := object_id |}] |}).
Definition fan_out_object_delete (now_ms : Z) (tenant_id app_id object_type object_id : string) (h : Hub) : Hub :=
  match removal_frame now_ms object_type object_id with
  | Err _ => h
  | Ok bytes => broadcast_to_subscribers Sub_Object object_type None tenant_id app_id bytes h
  end.

(** [row] is what [objects().read] returned. *)
Definition fan_out_object_visibility_revoked `{GrantLookup G} (grants : G) (now_ms : Z)
    (row : result StoreError (option Value)) (tenant_id app_id object_type object_id : string) (h : Hub) : Hub :=
  match row with
  | Ok (Some object) =>
      match removal_frame now_ms object_type object_id with
      | Err _ => h
      | Ok bytes =>
          let owner_field := owner_field_for_type schema object_type in
          deliver (λ _ c, match addressed tenant_id app_id c with
                          | Some p =>
                              if subscribed Sub_Object object_type None c
                                 && negb (subscriber_can_read_object_with_hooks grants hooks mode owner_field p
                                            object_type object (per_record_read_authz_active grants) None)
                              then [Out_Frame bytes] else []
                          | None => []
                          end) h
      end
  | _ => h
  end.

Definition fan_out_packed_stream_event (tenant_id app_id : string) (packed : PackedStreamEvent) (h : Hub) : Hub :=
  match encode_frame (F_Delta {| dl_objects := []; dl_events := [packed]; dl_cursor := pse_sequence packed;
                                 dl_removed := None |}) with
  | Err _ => h
  | Ok bytes => broadcast_to_subscribers Sub_Stream (stream_name_of schema packed) (Some (pse_stream_key packed))
                  tenant_id app_id bytes h
  end.
Definition fan_out_stream_append (tenant_id : string) (event : StoredEvent) (h : Hub) : Hub :=
  match pack_stream_event schema (st_event event) with
  | Err _ => h
  | Ok packed =>
      match encode_frame (F_Delta {| dl_objects := []; dl_events := [packed];
                                     dl_cursor := se_sequence (st_event event); dl_removed := None |}) with
      | Err _ => h
      | Ok bytes => broadcast_to_subscribers Sub_Stream (se_stream (st_event event))
                      (Some (se_stream_id (st_event event))) tenant_id (st_app_id event) bytes h
      end
  end.

Definition fan_out_projection_delta (notice : ProjectionDeltaNotice) (h : Hub) : Hub :=
  match encode_frame (F_ProjectionDelta (notice_to_payload notice)) with
  | Err _ => h
  | Ok bytes => broadcast_to_subscribers Sub_Projection (no_projection notice) None (no_tenant_id notice)
                  (no_app_id notice) bytes h
  end.
Definition publish_projection_delta (notice : ProjectionDeltaNotice) (h : Hub) : Hub :=
  publish (λ node, Env.ProjectionDelta node (no_tenant_id notice) (Some (no_app_id notice))
                     (no_projection notice) (projection_change_to_envelope <$> no_changes notice))
    (fan_out_projection_delta notice h).

Definition fan_out_signal_local (tenant_id app_id : string) (payload : SignalPayload) (h : Hub) : Hub :=
  match pack_signal_envelope schema (sig_name payload) (sig_key payload) (sig_value payload) with
  | Err _ => h
  | Ok envelope =>
      match encode_frame (F_SignalDeliver {| sd_envelope := envelope |}) with
      | Err _ => h
      | Ok bytes => broadcast_to_subscribers Sub_Signal (sig_name payload) (Some (sig_key payload))
                      tenant_id app_id bytes h
      end
  end.
Definition publish_signal (name key : string) (value : Value) (tenant_id app_id request_id : string) (h : Hub) : Hub :=
  publish (λ node, Env.Signal node tenant_id (Some app_id) name key value request_id)
    (fan_out_signal_local tenant_id app_id
       {| sig_request_id := request_id; sig_name := name; sig_key := key; sig_value := value |} h).

Definition fan_out_presence_delta (tenant_id app_id name key : string) (records : list Env.PresenceRecord)
    (cleared : list string) (h : Hub) : Hub :=
  let packed := omap (λ r, ok (pack_presence_record schema name (Env.ch_key r) (Env.ch_value r)))
                  (List.filter (λ r, negb (is_nil (Env.ch_value r))) records) in
  deliver (λ _ c, match addressed tenant_id app_id c with
                  | Some _ =>
                      omap (λ sub, if sub_matches Sub_Presence name (Some key) sub
                                   then bytes ← ok (encode_frame (F_PresenceDelta
                                          {| pd_subscription_id := sk_subscription_id sub; pd_records := packed;
                                             pd_cleared := cleared |}));
                                        Some (Out_Frame bytes)
                                   else None) (c_subscriptions c)
                  | None => []
                  end) h.
Definition fan_out_presence (tenant_id app_id name key : string) (value : option Value) (cleared : bool) : Hub → Hub :=
  let records := match value with
                 | Some v => [{| Env.ch_key := key; Env.ch_value := v |}]
                 | None => []
                 end in
  fan_out_presence_delta tenant_id app_id name key records (if cleared then [key] else []).

(** ** The funnel *)

(** The envelope a local write goes out with. *)
Definition write_envelope (event : FrickStoreWriteEvent) (node : string) : option Env.ClusterEnvelope :=
  match event with
  | ObjectUpsert tenant app ty _ object _ => Some (Env.Objects node tenant (Some app) ty [object])
  | ObjectDelete tenant app ty id => Some (Env.ObjectDeletes node tenant (Some app) ty [id])
  | StreamAppend tenant event =>
      packed ← ok (pack_stream_event schema (st_event event));
      Some (Env.StreamEvent node tenant (Some (st_app_id event)) (se_stream (st_event event))
              (se_stream_id (st_event event)) (se_sequence (st_event event)) packed)
  end.
Definition publish_opt (mk : string → option Env.ClusterEnvelope) (h : Hub) : Hub :=
  match h_cluster_bus h with
  | None => h
  | Some node => match mk node with Some e => publish (λ _, e) h | None => h end
  end.
Definition local_fan_out (now_ms : Z) (event : FrickStoreWriteEvent) (h : Hub) : Hub * list Deferred :=
  match event with
  | ObjectUpsert tenant app ty id object writer => fan_out_object_upsert now_ms tenant app ty id object writer h
  | ObjectDelete tenant app ty id => (fan_out_object_delete now_ms tenant app ty id h, [])
  | StreamAppend tenant event => (fan_out_stream_append tenant event h, [])
  end.
(** The side effects and federation hooks the application registers see the
    event and not the hub. *)
Definition handle_store_write (now_ms : Z) (event : FrickStoreWriteEvent) (h : Hub) : Hub * list Deferred :=
  let '(h', ds) := local_fan_out now_ms event h in
  (publish_opt (write_envelope event) h', ds).

Fixpoint fan_out_objects (now_ms : Z) (tenant_id app_id object_type : string) (objects : list Value) (h : Hub) :
    Hub * list Deferred :=
  match objects with
  | [] => (h, [])
  | object :: rest =>
      let '(h1, ds1) := fan_out_object_upsert now_ms tenant_id app_id object_type (object_id_of object) object None h in
      let '(h2, ds2) := fan_out_objects now_ms tenant_id app_id object_type rest h1 in
      (h2, ds1 ++ ds2)
  end.
Definition handle_cluster_envelope (now_ms : Z) (envelope : Env.ClusterEnvelope) (h : Hub) : Hub * list Deferred :=
  match envelope with
  | Env.StreamEvent _ tenant app _ _ _ packed =>
      (fan_out_packed_stream_event tenant (app_id_or_default app) packed h, [])
  | Env.Objects _ tenant app ty objects => fan_out_objects now_ms tenant (app_id_or_default app) ty objects h
  | Env.ObjectDeletes _ tenant app ty ids =>
      (foldl (λ h id, fan_out_object_delete now_ms tenant (app_id_or_default app) ty id h) h ids, [])
  | Env.Signal _ tenant app name key value request_id =>
      (fan_out_signal_local tenant (app_id_or_default app)
         {| sig_request_id := request_id; sig_name := name; sig_key := key; sig_value := value |} h, [])
  | Env.ProjectionDelta _ tenant app projection changes =>
      (fan_out_projection_delta {| no_projection := projection; no_tenant_id := tenant;
         no_app_id := app_id_or_default app; no_changes := envelope_change_to_projection <$> changes |} h, [])
  | Env.PresenceDelta _ tenant app name records cleared =>
      match match records with r :: _ => Some (Env.ch_key r) | [] => hd_error cleared end with
      | None => (h, [])
      | Some key => (fan_out_presence_delta tenant (app_id_or_default app) name key records cleared h, [])
      end
  | Env.MediaPlacementClaim _ _ _ _ _ | Env.MediaPlacementRelease _ _ _ => (h, [])
  end.
End Fanout.

(** ** What a delivery changes *)

Definition outbound (h : Hub) (id : Z) : option (list Outbound) := c_outbound <$> h_connections h !! id.
(** Everything of a connection but its channel. *)
Definition profile (c : Connection) :=
  (c_principal c, c_session_token c, c_app_id c, c_handshake_complete c, c_subscriptions c, c_pending_writes c).

Lemma send_all_spec os : ∀ c, c_outbound (send_all os c) = c_outbound c ++ os ∧ profile (send_all os c) = profile c.
Proof.
  unfold send_all. induction os as [|o os IH]; intros c; simpl; [by rewrite app_nil_r|].
  destruct (IH (send o c)) as [Ho Hp]. rewrite Ho, Hp. simpl. by rewrite <- app_assoc.
Qed.
Lemma deliver_lookup who h id :
  h_connections (deliver who h) !! id = (λ c, send_all (who id c) c) <$> h_connections h !! id.
Proof. unfold deliver. simpl. rewrite map_lookup_imap. by destruct (h_connections h !! id). Qed.
Lemma deliver_outbound who h id c :
  h_connections h !! id = Some c → outbound (deliver who h) id = Some (c_outbound c ++ who id c).
Proof. intros Hc. unfold outbound. rewrite deliver_lookup, Hc. simpl. by rewrite (proj1 (send_all_spec _ _)). Qed.
Lemma deliver_profile who h : profile <$> h_connections (deliver who h) = profile <$> h_connections h.
Proof.
  apply map_eq. intros id. rewrite !lookup_fmap, deliver_lookup.
  destruct (h_connections h !! id); [|done]. simpl. by rewrite (proj2 (send_all_spec _ _)).
Qed.
Lemma deliver_same who h : same_roster h (deliver who h).
Proof.
  split_and!; try done. unfold roster. apply map_eq. intros id. rewrite !lookup_fmap, deliver_lookup.
  destruct (h_connections h !! id) as [c|]; [|done]. simpl.
  pose proof (proj2 (send_all_spec (who id c) c)) as He. unfold profile in He. by simplify_eq He; intros; f_equal.
Qed.
#[export] Hint Resolve deliver_same : hub.

Lemma profile_addressed tenant app c c' :
  profile c = profile c' → addressed tenant app c = addressed tenant app c'.
Proof. unfold profile, addressed. intros [= -> _ -> _ _ _]. done. Qed.
Lemma profile_subscribed kind name key c c' :
  profile c = profile c' → subscribed kind name key c = subscribed kind name key c'.
Proof. unfold profile, subscribed. intros [= _ _ _ _ -> _]. done. Qed.
Lemma addressed_Some tenant app c p :
  addressed tenant app c = Some p ↔
  c_principal c = Some p ∧ is_active_cheap p = true ∧ p_tenant_id p = tenant ∧ c_app_id c = app.
Proof.
  unfold addressed. destruct (c_principal c) as [q|]; simpl.
  2: { split; [done | intros (? & _); done]. }
  destruct (is_active_cheap q) eqn:Ha, (String.eqb_spec (p_tenant_id q) tenant), (String.eqb_spec (c_app_id c) app);
    simpl; split; try done; intros Hx; try (injection Hx as <-; by split_and!);
    destruct Hx as (Hq & Hac & Ht & Hap); congruence.
Qed.

(** ** Object upserts *)

Section Upserts.
Context `{GrantLookup G}.
Context (schema : FrickSchema) (mode : ObjectVisibilityMode) (hooks : list PolicyHook).
Context (encode_frame : FrickFrame → result ProtocolError blob).

(** The tasks of a fan-out, run one after the other. *)
Definition run_all (grants : G) (ds : list Deferred) (h : Hub) : Hub :=
  foldl (λ h d, run_deferred schema mode hooks grants d h) h ds.
(** Who is to be told of a record: the pipeline of the list route. *)
Definition told_of (grants : G) (tenant app ty : string) (object : Value) (writer : option string)
    (c : Connection) : bool :=
  match addressed tenant app c with
  | Some p => subscribed Sub_Object ty None c
              && subscriber_can_read_object_with_hooks grants hooks mode (owner_field_for_type schema ty) p ty object
                   (per_record_read_authz_active grants) writer
  | None => false
  end.

Lemma split_reads grants d p :
  object_record_id (df_object d) = Some (df_object_id d) → p_tenant_id p = df_tenant_id d →
  negb (has_hooks hooks) && baseline_visible schema mode (df_object_type d) (df_object d) (df_writer_user_id d) p
  || deferred_reads schema mode hooks grants d p
  = subscriber_can_read_object_with_hooks grants hooks mode (owner_field_for_type schema (df_object_type d)) p
      (df_object_type d) (df_object d) (per_record_read_authz_active grants) (df_writer_user_id d).
Proof using Type.
  intros Hid Ht. unfold deferred_reads, has_hooks. case_bool_decide as Hh; simpl; [|done]. subst hooks.
  unfold subscriber_can_read_object_with_hooks, baseline_visible, read_baseline, relax_read. rewrite Hid, Ht.
  destruct (bool_decide (df_writer_user_id d = Some (p_user_id p))), (is_admin p),
    (is_object_visible_to_user mode (owner_field_for_type schema (df_object_type d)) (df_object d) (p_user_id p));
    simpl; done.
Qed.

Lemma run_deferred_outbound grants d h id c :
  h_connections h !! id = Some c →
  outbound (run_deferred schema mode hooks grants d h) id
  = Some (c_outbound c ++ match df_subscribers d !! id with
                          | Some p => if deferred_reads schema mode hooks grants d p then [Out_Frame (df_bytes d)] else []
                          | None => []
                          end).
Proof using Type. intros Hc. by apply deliver_outbound. Qed.
End Upserts.

(** C1: An upsert, with the task it spawned, puts the delta of the record once on
    the channel of exactly the live subscribers of the type in the tenant and app
    that may read the record, baseline, policy hooks and grants included: the
    inline and the deferred half decide together what the list route decides. *)
Theorem object_delta_exact `{GrantLookup G} schema mode hooks encode_frame (grants : G)
    now tenant app ty id object writer packed bytes h h' ds conn c :
  pack_object_record schema ty id (without_record_id object) = Ok packed →
  encode_frame (F_Delta {| dl_objects := [packed]; dl_events := []; dl_cursor := now; dl_removed := None |})
    = Ok bytes →
  object_record_id object = Some id →
  fan_out_object_upsert schema mode hooks encode_frame now tenant app ty id object writer h = (h', ds) →
  h_connections h !! conn = Some c →
  outbound (run_all schema mode hooks grants ds h') conn
  = Some (c_outbound c ++ if told_of schema mode hooks grants tenant app ty object writer c
                          then [Out_Frame bytes] else []).
Proof.
  intros Hpack Henc Hid Hfan Hc. unfold fan_out_object_upsert in Hfan. rewrite Hpack, Henc in Hfan.
  set (sub := λ c, p ← addressed tenant app c; if subscribed Sub_Object ty None c then Some p else None) in Hfan.
  set (inline := λ p, negb (has_hooks hooks) && baseline_visible schema mode ty object writer p) in Hfan.
  set (subs := omap (λ c, p ← sub c; if inline p then None else Some p) (h_connections h)) in Hfan.
  set (d := {| df_tenant_id := tenant; df_object_type := ty; df_object_id := id; df_object := object;
               df_writer_user_id := writer; df_bytes := bytes; df_subscribers := subs |}) in Hfan.
  assert (outbound (run_all schema mode hooks grants ds h') conn
    = Some ((c_outbound c ++ match sub c with Some p => if inline p then [Out_Frame bytes] else [] | None => [] end)
            ++ match subs !! conn with
               | Some p => if deferred_reads schema mode hooks grants d p then [Out_Frame bytes] else []
               | None => []
               end)) as Hout.
  { injection Hfan as <- <-. set (who := λ (_ : Z) c, _).
    assert (h_connections (deliver who h) !! conn = Some (send_all (who conn c) c)) as Hc' by by rewrite deliver_lookup, Hc.
    pose proof (deliver_outbound who h conn c Hc) as Ho. case_bool_decide as He; simpl.
    - assert (subs = ∅) as Hs by exact He. rewrite Ho, Hs, lookup_empty. by rewrite app_nil_r.
    - rewrite (run_deferred_outbound schema mode hooks grants d _ _ _ Hc').
      unfold outbound in Ho. rewrite Hc' in Ho. simpl in Ho. injection Ho as ->. done. }
  rewrite Hout. f_equal. rewrite <- app_assoc. f_equal. unfold subs, told_of. rewrite lookup_omap, Hc. simpl.
  unfold sub. destruct (addressed tenant app c) as [p|] eqn:Ha; simpl; [|done].
  destruct (subscribed Sub_Object ty None c); simpl; [|done].
  apply addressed_Some in Ha as (_ & _ & Ht & _).
  rewrite <- (split_reads schema mode hooks grants d p Hid Ht). change (negb (has_hooks hooks) && _) with (inline p).
  by destruct (inline p).
Qed.

(** ** Peers *)

(** A write as the store announces it: the record carries its id. *)
Definition announced (event : FrickStoreWriteEvent) : Prop :=
  match event with ObjectUpsert _ _ _ id object _ => object_record_id object = Some id | _ => True end.
(** A peer does not know who wrote. *)
Definition without_writer (event : FrickStoreWriteEvent) : FrickStoreWriteEvent :=
  match event with ObjectUpsert t a ty id object _ => ObjectUpsert t a ty id object None | other => other end.

Section Peers.
Context (schema : FrickSchema) (mode : ObjectVisibilityMode) (hooks : list PolicyHook).
Context (encode_frame : FrickFrame → result ProtocolError blob).

Lemma packed_stream_name event packed :
  validate_schema schema = Ok tt → pack_stream_event schema event = Ok packed →
  stream_name_of schema packed = se_stream event ∧ pse_stream_key packed = se_stream_id event
  ∧ pse_sequence packed = se_sequence event.
Proof using Type.
  intros Hv%validate_schema_Ok Hp. unfold pack_stream_event in Hp.
  apply bind_Ok in Hp as (st & Hst & Hp). apply bind_Ok in Hp as (ev & Hev & Hp).
  apply bind_Ok in Hp as (fs & Hfs & [= <-]). apply find_by_name_Ok in Hst as [Hst Hn].
  destruct Hv as [_ _ [Hs _] _ _ _ _ _ _]. unfold stream_name_of, stream_by_id. simpl.
  by rewrite (find_by_id_in sd_id sd_name).
Qed.
Lemma peer_write now event node h :
  validate_schema schema = Ok tt → announced event →
  match write_envelope schema event node with
  | Some envelope => handle_cluster_envelope schema mode hooks encode_frame now envelope h
                     = local_fan_out schema mode hooks encode_frame now (without_writer event) h
  | None => local_fan_out schema mode hooks encode_frame now event h = (h, [])
  end.
Proof using Type.
  intros Hv Ha. destruct event as [tenant app ty id object writer|tenant app ty id|tenant event]; simpl.
  - simpl in Ha. unfold object_id_of. rewrite Ha. simpl.
    destruct (fan_out_object_upsert _ _ _ _ _ _ _ _ _ _ _ _) as [h1 ds]. by rewrite app_nil_r.
  - done.
  - unfold fan_out_stream_append. destruct (pack_stream_event schema (st_event event)) as [packed|e] eqn:Hp; simpl; [|done].
    destruct (packed_stream_name _ _ Hv Hp) as (Hn & Hk & Hs). unfold fan_out_packed_stream_event.
    by rewrite Hn, Hk, Hs.
Qed.
Lemma local_published now event h :
  h_published (local_fan_out schema mode hooks encode_frame now event h).1 = h_published h
  ∧ h_cluster_bus (local_fan_out schema mode hooks encode_frame now event h).1 = h_cluster_bus h.
Proof using Type.
  destruct event as [tenant app ty id object writer|tenant app ty id|tenant event]; simpl.
  - unfold fan_out_object_upsert. destruct (pack_object_record _ _ _ _); [|done]. by destruct (encode_frame _).
  - unfold fan_out_object_delete. by destruct (removal_frame _ _ _ _ _).
  - unfold fan_out_stream_append. destruct (pack_stream_event _ _); [|done]. by destruct (encode_frame _).
Qed.
End Peers.

(** C16: Fan-out over the bus is local fan-out on the peer: what a write publishes,
    handled by another node, does to that node's connections exactly what the
    write itself would have done there with no local writer, and a projection
    delta or signal exactly what it did at its origin; a write with no envelope
    would have reached nobody. *)
Theorem cluster_delivery_exact schema mode hooks encode_frame now event hA hB node notice name key value tenant app rid :
  validate_schema schema = Ok tt → announced event → h_cluster_bus hA = Some node →
  (∃ envelopes,
     h_published (handle_store_write schema mode hooks encode_frame now event hA).1 = h_published hA ++ envelopes
     ∧ match envelopes with
       | [envelope] => handle_cluster_envelope schema mode hooks encode_frame now envelope hB
                       = local_fan_out schema mode hooks encode_frame now (without_writer event) hB
       | _ => envelopes = [] ∧ local_fan_out schema mode hooks encode_frame now event hB = (hB, [])
       end)
  ∧ (∃ envelope,
       h_published (publish_projection_delta encode_frame notice hA) = h_published hA ++ [envelope]
       ∧ handle_cluster_envelope schema mode hooks encode_frame now envelope hB
         = (fan_out_projection_delta encode_frame notice hB, []))
  ∧ (∃ envelope,
       h_published (publish_signal schema encode_frame name key value tenant app rid hA) = h_published hA ++ [envelope]
       ∧ handle_cluster_envelope schema mode hooks encode_frame now envelope hB
         = (fan_out_signal_local schema encode_frame tenant app
              {| sig_request_id := rid; sig_name := name; sig_key := key; sig_value := value |} hB, [])).
Proof.
  intros Hv Ha Hbus. split_and!.
  - exists (option_list (write_envelope schema event node)).
    destruct (local_published schema mode hooks encode_frame now event hA) as [Hp Hb].
    unfold handle_store_write. destruct (local_fan_out _ _ _ _ now event hA) as [h' ds]. simpl in *.
    pose proof (peer_write schema mode hooks encode_frame now event node hB Hv Ha) as Hpeer.
    unfold publish_opt, publish. rewrite Hb, Hbus. 
    destruct (write_envelope schema event node); simpl; rewrite Hp; [done|]. by rewrite app_nil_r.
  - unfold publish_projection_delta, publish, fan_out_projection_delta.
    set (h1 := match encode_frame _ with Ok _ => _ | Err _ => _ end).
    assert (h_cluster_bus h1 = Some node ∧ h_published h1 = h_published hA) as [-> Hp].
    { unfold h1. by destruct (encode_frame _). }
    eexists. simpl. rewrite Hp. split; [done|]. simpl. unfold fan_out_projection_delta, notice_to_payload. simpl.
    replace (changes_to_frame (envelope_change_to_projection <$> (projection_change_to_envelope <$> no_changes notice)))
      with (changes_to_frame (no_changes notice)); [done|].
    unfold changes_to_frame. rewrite <- !list_fmap_compose. apply list_fmap_ext. intros i [k v] _. simpl.
    by destruct v as [[]|].
  - unfold publish_signal, publish. set (h1 := fan_out_signal_local _ _ _ _ _ _).
    assert (h_cluster_bus h1 = Some node ∧ h_published h1 = h_published hA) as [-> Hp].
    { unfold h1, fan_out_signal_local. destruct (pack_signal_envelope _ _ _ _); [|done]. by destruct (encode_frame _). }
    eexists. simpl. rewrite Hp. by split.
Qed.

(** ** Tenants and apps *)

Definition event_scope (event : FrickStoreWriteEvent) : string * string :=
  match event with
  | ObjectUpsert tenant app _ _ _ _ | ObjectDelete tenant app _ _ => (tenant, app)
  | StreamAppend tenant event => (tenant, st_app_id event)
  end.
Definition envelope_scope (e : Env.ClusterEnvelope) : string * string :=
  (Env.tenant_id e,
   match e with
   | Env.StreamEvent _ _ app _ _ _ _ | Env.Objects _ _ app _ _ | Env.ObjectDeletes _ _ app _ _
   | Env.Signal _ _ app _ _ _ _ | Env.ProjectionDelta _ _ app _ _ | Env.PresenceDelta _ _ app _ _ _ =>
       app_id_or_default app
   | _ => Apps.DEFAULT_APP_ID
   end).

(** The connection is as it was, and no task is to reach it. *)
Definition untouched (id : Z) (c : Connection) (r : Hub * list Deferred) : Prop :=
  h_connections r.1 !! id = Some c ∧ Forall (λ d, df_subscribers d !! id = None) r.2.

Lemma deliver_skips who h id c :
  h_connections h !! id = Some c → who id c = [] → h_connections (deliver who h) !! id = Some c.
Proof. intros Hc Hw. by rewrite deliver_lookup, Hc; simpl; rewrite Hw. Qed.

Section Isolation.
Context (schema : FrickSchema) (mode : ObjectVisibilityMode) (hooks : list PolicyHook).
Context (encode_frame : FrickFrame → result ProtocolError blob).
Context (tenant app : string) (id : Z) (c : Connection).
Hypothesis elsewhere : addressed tenant app c = None.

Lemma broadcast_skips kind name key bytes h :
  h_connections h !! id = Some c →
  h_connections (broadcast_to_subscribers kind name key tenant app bytes h) !! id = Some c.
Proof using elsewhere. intros Hc. apply deliver_skips; [done|]. by rewrite elsewhere. Qed.
Lemma upsert_skips now ty oid object writer h :
  h_connections h !! id = Some c →
  untouched id c (fan_out_object_upsert schema mode hooks encode_frame now tenant app ty oid object writer h).
Proof using elsewhere.
  intros Hc. unfold fan_out_object_upsert. destruct (pack_object_record _ _ _ _); [|by split].
  destruct (encode_frame _); [|by split]. split; simpl.
  - apply deliver_skips; [done|]. by rewrite elsewhere.
  - case_bool_decide; [done|]. apply Forall_singleton. simpl. rewrite lookup_omap, Hc. simpl. by rewrite elsewhere.
Qed.
Lemma objects_skip now ty objects : ∀ h,
  h_connections h !! id = Some c →
  untouched id c (fan_out_objects schema mode hooks encode_frame now tenant app ty objects h).
Proof using elsewhere.
  induction objects as [|object rest IH]; intros h Hc; simpl; [by split|].
  destruct (upsert_skips now ty (object_id_of object) object None h Hc) as [Hc1 Hd1].
  destruct (fan_out_object_upsert _ _ _ _ _ _ _ _ _ _ _ _) as [h1 ds1]. simpl in *.
  destruct (IH h1 Hc1) as [Hc2 Hd2]. destruct (fan_out_objects _ _ _ _ _ _ _ _ _ _) as [h2 ds2].
  split; simpl in *; [done | by apply Forall_app].
Qed.
Lemma delete_skips now ty oid h :
  h_connections h !! id = Some c →
  h_connections (fan_out_object_delete schema encode_frame now tenant app ty oid h) !! id = Some c.
Proof using elsewhere.
  intros Hc. unfold fan_out_object_delete. destruct (removal_frame _ _ _ _ _); [by apply broadcast_skips | done].
Qed.
Lemma deletes_skip now ty ids : ∀ h,
  h_connections h !! id = Some c →
  h_connections (foldl (λ h oid, fan_out_object_delete schema encode_frame now tenant app ty oid h) h ids) !! id = Some c.
Proof using elsewhere. induction ids as [|oid ids IH]; intros h Hc; simpl; [done|]. by apply IH, delete_skips. Qed.
Lemma signal_skips payload h :
  h_connections h !! id = Some c →
  h_connections (fan_out_signal_local schema encode_frame tenant app payload h) !! id = Some c.
Proof using elsewhere.
  intros Hc. unfold fan_out_signal_local. destruct (pack_signal_envelope _ _ _ _); [|done].
  destruct (encode_frame _); [by apply broadcast_skips | done].
Qed.
Lemma presence_skips name key records cleared h :
  h_connections h !! id = Some c →
  h_connections (fan_out_presence_delta schema encode_frame tenant app name key records cleared h) !! id = Some c.
Proof using elsewhere. intros Hc. apply deliver_skips; [done|]. by rewrite elsewhere. Qed.
End Isolation.

Lemma run_all_skips `{GrantLookup G} schema mode hooks (grants : G) ds id c : ∀ h,
  Forall (λ d, df_subscribers d !! id = None) ds → h_connections h !! id = Some c →
  h_connections (run_all schema mode hooks grants ds h) !! id = Some c.
Proof.
  unfold run_all. induction ds as [|d ds IH]; intros h Hd Hc; simpl; [done|].
  apply Forall_cons in Hd as [Hd Hds]. apply IH; [done|]. apply deliver_skips; [done|]. by rewrite Hd.
Qed.
Lemma envelope_untouched schema mode hooks encode_frame now envelope h id c :
  h_connections h !! id = Some c →
  addressed (envelope_scope envelope).1 (envelope_scope envelope).2 c = None →
  untouched id c (handle_cluster_envelope schema mode hooks encode_frame now envelope h).
Proof.
  intros Hc Hx. destruct envelope as [o t a st sid n pk | o t a ty os | o t a ty ids | o t a nm k v rid
    | o t a pr chs | o t a nm recs cl | o t cid home ip | o t cid]; simpl in *; try by split.
  - split; [|done]. simpl. unfold fan_out_packed_stream_event.
    destruct (encode_frame _); [by apply broadcast_skips | done].
  - by apply objects_skip.
  - split; [by apply deletes_skip | done].
  - split; [by apply signal_skips | done].
  - split; [|done]. simpl. unfold fan_out_projection_delta. destruct (encode_frame _); [by apply broadcast_skips | done].
  - destruct (match recs with r :: _ => _ | [] => _ end); [|by split]. split; [by apply presence_skips | done].
Qed.
Lemma write_untouched schema mode hooks encode_frame now event h id c :
  h_connections h !! id = Some c → addressed (event_scope event).1 (event_scope event).2 c = None →
  untouched id c (local_fan_out schema mode hooks encode_frame now event h).
Proof.
  intros Hc Hx. destruct event as [t a ty oid object writer | t a ty oid | t event]; simpl in *.
  - by apply upsert_skips.
  - split; [by apply delete_skips | done].
  - split; [|done]. simpl. unfold fan_out_stream_append. destruct (pack_stream_event _ _); [|done].
    destruct (encode_frame _); [by apply broadcast_skips | done].
Qed.
Lemma publish_opt_connections mk h : h_connections (publish_opt mk h) = h_connections h.
Proof. unfold publish_opt, publish. destruct (h_cluster_bus h) as [n|]; [|done]. by destruct (mk n). Qed.


(** ** Two nodes *)

Module SampleFanout.
Import SampleAuthz.
(** A codec that keeps the cursor of a delta. *)
Definition encode (f : FrickFrame) : result ProtocolError blob :=
  Ok match f with F_Delta d => [dl_cursor d] | _ => [0] end.
Definition watcher (user app : string) : Connection :=
  {| c_principal := Some (SampleHub.member "t1" user); c_session_token := None; c_app_id := app;
     c_handshake_complete := true;
     c_subscriptions := [{| sk_subscription_id := "s1"; sk_kind := Sub_Object; sk_name := "Task"; sk_key := None |}];
     c_pending_writes := 0; c_outbound := []; c_writer_open := true |}.
Definition hub : Hub :=
  with_connections {[1 := watcher "ann" "app1"; 2 := watcher "eve" "app1"; 3 := watcher "ann" "app2"]}
    (set_cluster_bus "n1" empty_hub).
Definition shared : FrickStoreWriteEvent := ObjectUpsert "t1" "app1" "Task" "b" (task "b" "bob") (Some "bob").
Definition after_write := fan_out_object_upsert SampleSchema.schema OwnerScoped [] encode 7 "t1" "app1" "Task" "b"
  (task "b" "bob") (Some "bob") hub.
Definition packed : PackedRecord := (1, "b", [(1, VStr "b"); (4, VStr "bob")]).
End SampleFanout.

(** Witness: bob's record is shared with ann and not with eve. *)
Lemma object_delta_exact_witness :
  outbound (run_all SampleSchema.schema OwnerScoped [] SampleAuthz.grants1 SampleFanout.after_write.2
              SampleFanout.after_write.1) 1 = Some [Out_Frame [7]]
  ∧ outbound (run_all SampleSchema.schema OwnerScoped [] SampleAuthz.grants1 SampleFanout.after_write.2
                SampleFanout.after_write.1) 2 = Some [].
Proof.
  split.
  - refine (object_delta_exact SampleSchema.schema OwnerScoped [] SampleFanout.encode SampleAuthz.grants1 7 "t1" "app1"
      "Task" "b" (SampleAuthz.task "b" "bob") (Some "bob") SampleFanout.packed [7] SampleFanout.hub _ _ 1
      (SampleFanout.watcher "ann" "app1") _ _ _ (surjective_pairing _) _); vm_compute; reflexivity.
  - refine (object_delta_exact SampleSchema.schema OwnerScoped [] SampleFanout.encode SampleAuthz.grants1 7 "t1" "app1"
      "Task" "b" (SampleAuthz.task "b" "bob") (Some "bob") SampleFanout.packed [7] SampleFanout.hub _ _ 2
      (SampleFanout.watcher "eve" "app1") _ _ _ (surjective_pairing _) _); vm_compute; reflexivity.
Defined.

(** Witness: the shared record reaches the watchers of its app on a peer too. *)
Lemma cluster_delivery_exact_witness :
  handle_cluster_envelope SampleSchema.schema OwnerScoped [] SampleFanout.encode 7
    (Env.Objects "n1" "t1" (Some "app1") "Task" [SampleAuthz.task "b" "bob"]) SampleFanout.hub
  = local_fan_out SampleSchema.schema OwnerScoped [] SampleFanout.encode 7 (without_writer SampleFanout.shared)
      SampleFanout.hub.
Proof.
  destruct (cluster_delivery_exact SampleSchema.schema OwnerScoped [] SampleFanout.encode 7 SampleFanout.shared
    SampleFanout.hub SampleFanout.hub "n1"
    {| no_projection := "p"; no_tenant_id := "t1"; no_app_id := "app1"; no_changes := [] |} "Ring" "k" VNil "t1" "app1" "r"
    SampleSchema.schema_validates eq_refl eq_refl) as [(envelopes & Hp & Hh) _].
  assert (envelopes = [Env.Objects "n1" "t1" (Some "app1") "Task" [SampleAuthz.task "b" "bob"]]) as ->
    by (symmetry; exact Hp).
  exact Hh.
Defined.

