(* ===== verification/GatewayFrames.v ===== *)
(** * Frame handling of the gateway ([frick-server/src/gateway.rs])

    The handlers of the frames a client sends, over one world: the hub, the store
    with the sessions, the tenants, the grants, the calls and the projection
    registries. A handler runs its awaits in order and reads the clock once; the
    clock, the nonce and the generated ids are its [Seams]. The flag a handler
    returns asks the read loop to end. The call control plane is the one without
    the SFU companion. *)

From Stdlib Require Import ZArith Lia Ascii String.
From stdpp Require Import base gmap strings list pretty.
From S2P Require Import Prelude Value Errors Schema Codec Handshake StoreBase Encryption ObjectStore StreamStore Authz ServerErrors Sessions MediaPlane Calls Frames Apps Facade Projections Cluster Gateway GatewayHub GatewayFanout Samples.

Record NotificationBody : Type := { nb_title : option string; nb_body : option string; nb_data : option Value }.
Record FrickNotificationIntent : Type := {
  ni_intent : string; ni_tenant_id : string; ni_recipient_user_ids : list string; ni_body : NotificationBody;
  ni_thread_id : option string; ni_deep_link : option string;
}.

Record World {SearchOp Media H : Type} : Type := {
  w_hub : Hub; w_store : FrickStore SearchOp; w_tenants : gmap string TenantRow; w_grants : GrantTable;
  w_calls : CallState Media;
  (** the registries by handle *)
  w_projections : gmap nat (Registry H);
  (** spawned tasks that have not run, and the intents handed to the router *)
  w_tasks : list Deferred; w_intents : list FrickNotificationIntent;
}.
Arguments World : clear implicits.
Record Seams : Type := { now_ms : Z; now_ns : Z; sm_nonce : blob; uuid : string }.
(** The parts of [AppState] that do not change. *)
Record GatewayConfig {SearchOp : Type} : Type := {
  g_limits : FrickLimits; g_schema : FrickSchema; g_mode : ObjectVisibilityMode; g_hooks : list PolicyHook;
  g_apps : Apps.FrickAppRegistry; g_projections : nat; g_encryption : option KeyProvider;
  g_constraint_failed : string; g_projector : option (FrickStoreWriteEvent → option (list SearchOp));
  g_replay_window_ms : Z;
}.
Arguments GatewayConfig : clear implicits.

Definition CallError_display (e : CallError) : string :=
  match e with
  | CE_State _ m | CE_Authz _ m | CE_MediaUnsupported m | CE_MediaForbidden m => m
  | CE_Media m => "media plane error: " +:+ m
  | CE_Store m => "store error: " +:+ m
  | CE_Decode m => "decode error: " +:+ m
  end.
Definition call_error_to_nack (e : CallError) : FrickErrorCode * string :=
  match e with
  | CE_Authz NotCreator _ => (AuthForbidden, "notCreator")
  | CE_Authz NotInvitee _ => (AuthForbidden, "notInvitee")
  | CE_Authz NotSelf _ => (AuthForbidden, "notSelf")
  | CE_State CallNotFound _ => (StorageNotFound, "callNotFound")
  | CE_State CapacityExceeded _ => (RateLimitExceeded, "capacityExceeded")
  | CE_State CallEnded _ => (StorageConflict, "callEnded")
  | CE_State NotParticipant _ => (StorageConflict, "notParticipant")
  | CE_State InviteAlreadyResolved _ => (StorageConflict, "inviteAlreadyResolved")
  | CE_State NoInvitees _ => (StorageConflict, "noInvitees")
  | CE_MediaUnsupported _ => (AuthForbidden, "mediaUnsupported")
  | CE_MediaForbidden _ => (AuthForbidden, "forbidden")
  | CE_Media _ | CE_Store _ | CE_Decode _ => (ServerInternal, "internal")
  end.

(** [pack_object_rows]: rows that do not pack are skipped. *)
Definition pack_object_rows (schema : FrickSchema) (object_type : string) (rows : list Value) : list PackedRecord :=
  omap (λ value, ok (pack_object_record schema object_type (object_id_of value) (without_record_id value))) rows.

Section Handlers.
Context {SearchOp Media H : Type}.
Context `{PackedColumn PackedRecord, PackedColumn PackedStreamEvent, PackedColumn Value, Crypto, !MediaPlane Media}.
Context (g : GatewayConfig SearchOp).
Context (encode_frame : FrickFrame → result ProtocolError blob) (decode_frame : blob → result ProtocolError FrickFrame).
Context (encode_value_len : Value → Z) (session_token_digest : string → string).
Context (authorize : AuthState → string → Principal → Z → result ServerError unit).
Local Abbreviation W := (World SearchOp Media H).
Local Abbreviation limits := (g_limits g).
Local Abbreviation schema := (g_schema g).

Definition with_hub (h : Hub) (w : W) : W :=
  {| w_hub := h; w_store := w_store w; w_tenants := w_tenants w; w_grants := w_grants w; w_calls := w_calls w;
     w_projections := w_projections w; w_tasks := w_tasks w; w_intents := w_intents w |}.
Definition with_store (s : FrickStore SearchOp) (w : W) : W :=
  {| w_hub := w_hub w; w_store := s; w_tenants := w_tenants w; w_grants := w_grants w; w_calls := w_calls w;
     w_projections := w_projections w; w_tasks := w_tasks w; w_intents := w_intents w |}.
Definition with_tasks (ds : list Deferred) (w : W) : W :=
  {| w_hub := w_hub w; w_store := w_store w; w_tenants := w_tenants w; w_grants := w_grants w; w_calls := w_calls w;
     w_projections := w_projections w; w_tasks := ds; w_intents := w_intents w |}.
Definition with_registry (handle : nat) (r : Registry H) (w : W) : W :=
  {| w_hub := w_hub w; w_store := w_store w; w_tenants := w_tenants w; w_grants := w_grants w; w_calls := w_calls w;
     w_projections := <[handle := r]> (w_projections w); w_tasks := w_tasks w; w_intents := w_intents w |}.
Definition with_calls (calls : CallState Media) (w : W) : W :=
  {| w_hub := w_hub w; w_store := w_store w; w_tenants := w_tenants w; w_grants := w_grants w; w_calls := calls;
     w_projections := w_projections w; w_tasks := w_tasks w; w_intents := w_intents w |}.
Definition with_intents (intents : list FrickNotificationIntent) (w : W) : W :=
  {| w_hub := w_hub w; w_store := w_store w; w_tenants := w_tenants w; w_grants := w_grants w; w_calls := w_calls w;
     w_projections := w_projections w; w_tasks := w_tasks w; w_intents := intents |}.
Definition on_hub (f : Hub → Hub) (w : W) : W := with_hub (f (w_hub w)) w.
Definition reply (id : Z) (frame : FrickFrame) : W → W := on_hub (send_frame encode_frame id frame).

(** ** Projections and the write listener (boot.rs) *)

Definition event_app_id (event : FrickStoreWriteEvent) : string := (event_scope event).2.
(** The handle of the app's registry. *)
Definition projections_for_app (app_id : string) : nat :=
  if Apps.is_multi_app (g_apps g)
  then match Apps.get (g_apps g) app_id with Some app => Apps.ae_projections app | None => g_projections g end
  else g_projections g.
Definition app_projections_for_event (event : FrickStoreWriteEvent) : nat := projections_for_app (event_app_id event).
(** The listener boot installs: the gateway's funnel, then the projections of the
    app, whose delta listener publishes every notice. *)
Definition on_write (now : Z) (event : FrickStoreWriteEvent) (w : W) : W :=
  let '(h, ds) := handle_store_write schema (g_mode g) (g_hooks g) encode_frame now event (w_hub w) in
  let w1 := with_tasks (w_tasks w ++ ds) (with_hub h w) in
  let handle := app_projections_for_event event in
  match w_projections w1 !! handle with
  | None => w1
  | Some r =>
      let r' := drive_projection_write true event r in
      foldl (λ w notice, on_hub (publish_projection_delta encode_frame notice) w) (with_registry handle r' w1)
        (drop (length (rg_notices r)) (rg_notices r'))
  end.
(** A store operation with the listener it calls. *)
Definition run_store {A} (now : Z) (op : M (FrickStore SearchOp) StoreError A) (w : W) : result StoreError A * W :=
  let '(r, s) := op (w_store w) in
  (r, foldl (λ w event, on_write now event w) (with_store s w) (drop (length (fs_notified (w_store w))) (fs_notified s))).

(** ** Sessions *)

Definition resolve_session (token : string) (now : Z) (w : W) : result ServerError Principal * W :=
  let '(r, a) := principal_from_authorized_session_token session_token_digest authorize token now
                   {| st_sessions := fs_sessions (w_store w); st_tenants := w_tenants w |} in
  (r, {| w_hub := w_hub w; w_store := Facade.with_sessions (st_sessions a) (w_store w); w_tenants := st_tenants a;
         w_grants := w_grants w; w_calls := w_calls w; w_projections := w_projections w; w_tasks := w_tasks w;
         w_intents := w_intents w |}).

(** [active_principal_for_frame]. *)
Definition active_principal_for_frame (now : Z) (id : Z) (request_id : string) (w : W) : option Principal * W :=
  match h_connections (w_hub w) !! id with
  | None => (None, w)
  | Some c =>
      match c_principal c with
      | None => (None, on_hub (send_auth_nack encode_frame id request_id Unauthenticated "Missing session token") w)
      | Some principal =>
          match c_session_token c with
          | Some token =>
              match resolve_session token now w with
              | (Ok active, w1) =>
                  if negb (same_principal principal active) then
                    (None, on_hub (send_close id Close.POLICY_VIOLATION "Session principal changed")
                             (on_hub (send_auth_nack encode_frame id request_id NotAuthorizedForResource
                                        "Session principal changed") w1))
                  else (Some active, on_hub (set_connection_principal id active) w1)
              | (Err error, w1) =>
                  let message := match error with
                                 | SE_SessionExpired => "Session expired"
                                 | SE_Authentication message => message
                                 | _ => "Invalid session"
                                 end in
                  (None, on_hub (send_close id Close.POLICY_VIOLATION message)
                           (reply id (simple_nack AuthUnauthenticated message request_id false
                                        (Some (reason_details "unauthenticated")) None) w1))
              end
          | None =>
              if negb (is_active_cheap principal) then
                (None, on_hub (send_close id Close.POLICY_VIOLATION "Tenant is archived")
                         (on_hub (send_auth_nack encode_frame id request_id Unauthenticated "Tenant is archived") w))
              else (Some principal, w)
          end
      end
  end.

(** [upgrade], then the caps and the registration of [run_connection]. *)
Definition upgrade (now : Z) (headers : HeaderMap) (w : W) : (list Outbound + Z) * W :=
  let bearer := bearer_token headers in
  let '(principal, w1) := match bearer with
                          | Some token => let '(r, w1) := resolve_session token now w in (ok r, w1)
                          | None => (None, w)
                          end in
  let '(r, h) := connect limits encode_frame principal bearer (w_hub w1) in
  (r, with_hub h w1).

(** ** Hello *)

Definition hello_nack (code : FrickErrorCode) (message : string) (details : option Value) (target : FrickSchema)
    (id : Z) : W → W := reply id (simple_nack code message "hello" false details (Some target)).
(** The checks after authentication: the compatibility to report, or the nack. *)
Definition hello_compatibility (payload : HelloPayload) (target : FrickSchema) :
    result (FrickErrorCode * string * option Value) SchemaCompatibilityResult :=
  match hp_client_capabilities payload with
  | None =>
      match reject_schema_mismatch (hp_schema_hash payload) (hash target) with
      | Err _ => Err (Errors.SchemaIncompatible,
                      "Schema mismatch: client=" +:+ hp_schema_hash payload +:+ " server=" +:+ hash target, None)
      | Ok _ => Ok (compare_schema_compatibility target target)
      end
  | Some caps =>
      let compatibility := compare_schema_compatibility (schema_from_client_caps caps target) target in
      if negb (compatible compatibility) then
        Err (Errors.SchemaIncompatible, default "Schema incompatible" (compat_message compatibility), None)
      else
        let unsupported := unsupported_required_capabilities caps (default_server_capabilities target) in
        if bool_decide (unsupported = []) then Ok compatibility
        else Err (SyncProtocolError, "Client requires unsupported capabilities",
                  Some (VMap [(VStr "unsupportedCapabilities", VArr (VStr <$> unsupported))]))
  end.
(** From app routing on, with the principal the token gave. *)
Definition hello_after_auth (id : Z) (payload : HelloPayload) (authed : option Principal) (w : W) : bool * W :=
  let advertised := (λ caps, sc_schema_id (cc_schema caps)) <$> hp_client_capabilities payload in
  let matched := sid ← advertised; Apps.find_by_schema_id (g_apps g) sid in
  let unknown_app := match advertised, matched with
                     | Some sid, None => Apps.is_multi_app (g_apps g) && negb (String.eqb sid (schema_id schema))
                     | _, _ => false
                     end in
  if unknown_app : bool then
    (false, hello_nack AuthForbidden "Application not authorized for this connection"
              (Some (VMap [(VStr "reason", VStr "appNotAuthorized");
                           (VStr "knownAppIds", VArr ((λ d, VStr (Apps.ap_id d)) <$> Apps.descriptors (g_apps g)))]))
              schema id w)
  else
    let resolved_app_id := Apps.storage_app_id (g_apps g)
                             (match matched with Some app => Apps.ae_id app | None => Apps.DEFAULT_APP_ID end) in
    let target := match matched with Some app => Apps.ae_schema app | None => schema end in
    match hello_compatibility payload target with
    | Err (code, message, details) => (false, hello_nack code message details target id w)
    | Ok compatibility =>
        let w1 := on_hub (hello_attach id authed (hp_session_token payload) resolved_app_id) w in
        (false,
         reply id (F_Schema target)
           (reply id (F_HelloAck {| ha_schema_hash := hash target; ha_schema_id := schema_id target;
                                    ha_schema_revision := schema_revision target;
                                    ha_schema_compatibility := compatibility;
                                    ha_server_capabilities := default_server_capabilities target |}) w1))
    end.
Definition handle_hello (now : Z) (id : Z) (payload : HelloPayload) (w : W) : bool * W :=
  match hp_session_token payload with
  | None => hello_after_auth id payload None w
  | Some token =>
      match resolve_session token now w with
      | (Err _, w1) =>
          let '(close, h) := send_hello_auth_nack encode_frame id AuthUnauthenticated "Invalid session token"
                               "unauthenticated" (w_hub w1) in
          (close, with_hub h w1)
      | (Ok principal, w1) =>
          let mismatch := match connection_principal (w_hub w1) id with
                          | Some existing => negb (same_principal existing principal)
                          | None => false
                          end in
          if mismatch : bool then
            let '(close, h) := send_hello_auth_nack encode_frame id AuthForbidden
                                 "Hello session token does not match the connection principal"
                                 "notAuthorizedForResource" (w_hub w1) in
            (close, with_hub h w1)
          else
            let '(reserved, h) := reserve_hello_principal limits id principal (w_hub w1) in
            let w2 := with_hub h w1 in
            if negb reserved then
              (true, on_hub (send_close id Close.TRY_AGAIN_LATER "connection limit exceeded")
                       (reply id (principal_cap_nack "hello" (max_connections_per_principal limits)) w2))
            else hello_after_auth id payload (Some principal) w2
      end
  end.

(** ** Subscribe *)

Definition own_resource (p : Principal) : ResourceContext :=
  {| rc_tenant_id := p_tenant_id p; rc_owner_user_id := None |}.
(** The synchronous half: the cap, the projection, the baseline, and then the
    entry. [None] when the frame was refused; else the app of the connection. *)
Definition subscribe_register (id : Z) (payload : SubscribePayload) (w : W) : option string * W :=
  let sid := sp_subscription_id payload in
  let '(already, count, app_id) := subscription_count (w_hub w) id sid in
  if negb already && (max_subscriptions_per_connection limits <=? count) then
    (None, reply id (simple_nack RateLimitExceeded "Maximum subscriptions per connection exceeded" sid false
                       (Some (limit_details "maxSubscriptionsPerConnection" (max_subscriptions_per_connection limits)))
                       None) w)
  else
    let known := match w_projections w !! projections_for_app app_id with
                 | Some r => contains_projection r (sp_name payload)
                 | None => false
                 end in
    if bool_decide (sp_kind payload = Sub_Projection) && negb known then
      (None, reply id (simple_nack AuthForbidden ("Unknown projection " +:+ sp_name payload) sid false
                         (Some (VMap [(VStr "reason", VStr "projectionNotFound");
                                      (VStr "projection", VStr (sp_name payload))])) None) w)
    else
      let denied := match connection_principal (w_hub w) id with
                    | Some p => match decide_baseline p (subscribe_action (sp_kind payload)) (own_resource p) with
                                | Deny reason message => Some (reason, message)
                                | Allow => None
                                end
                    | None => None
                    end in
      match denied with
      | Some (reason, message) => (None, on_hub (send_auth_nack encode_frame id sid reason message) w)
      | None => (Some app_id,
                 on_hub (add_subscription id {| sk_subscription_id := sid; sk_kind := sp_kind payload;
                                                sk_name := sp_name payload; sk_key := sp_key payload |}) w)
      end.

Definition projection_input (p : Principal) (payload : SubscribePayload) : PolicyInput :=
  {| pi_principal := p; pi_action := ProjectionRead;
     pi_resource := {| Authz.pr_kind := "projection"; Authz.pr_name := Some (sp_name payload); Authz.pr_key := sp_key payload;
                       Authz.pr_event := None; Authz.pr_owner_id := None; Authz.pr_tenant_id := p_tenant_id p |};
     pi_context := None |}.
Definition take_all (limit : Z) {A} (l : list A) : list A := if limit <? 0 then l else take (Z.to_nat limit) l.
(** The first frame of the subscription. *)
Definition subscribe_snapshot (id : Z) (payload : SubscribePayload) (app_id : string) (p : Principal) (w : W) : W :=
  let sid := sp_subscription_id payload in
  match sp_kind payload with
  | Sub_Stream =>
      match sp_key payload with
      | None =>
          reply id (simple_nack SyncProtocolError "Stream subscription requires a key" sid false None None)
            (on_hub (remove_subscription id sid) w)
      | Some key =>
          let cursor := default 0 (sp_cursor payload) in
          let page_limit := max_stream_page_size limits in
          let events := default [] (ok (StreamStore.read schema (g_encryption g) (fs_streams (w_store w))
                          (p_tenant_id p) (sp_name payload) key cursor (Some (page_limit + 1)) app_id)) in
          let page := take_all page_limit events in
          let packed := omap (λ stored, ok (pack_stream_event schema (st_event stored))) page in
          reply id (F_StreamPage {| pg_subscription_id := sid; pg_events := packed;
                                    pg_cursor := match last packed with Some e => pse_sequence e | None => cursor end;
                                    pg_has_more := bool_decide (length page < length events)%nat |}) w
      end
  | Sub_Object =>
      let rows := default [] (ok (ObjectStore.list_values schema (g_encryption g) (fs_objects (w_store w))
                                    (p_tenant_id p) (sp_name payload) app_id)) in
      let visible := List.filter (λ row, subscriber_can_read_object_with_hooks (w_grants w) (g_hooks g) (g_mode g)
                       (owner_field_for_type schema (sp_name payload)) p (sp_name payload) row
                       (per_record_read_authz_active (w_grants w)) None) rows in
      reply id (F_Snapshot {| sn_subscription_id := sid;
                              sn_objects := pack_object_rows schema (sp_name payload) visible; sn_cursor := 0 |}) w
  | Sub_Projection =>
      let rows := match w_projections w !! projections_for_app app_id with
                  | Some r => snapshot r (sp_name payload) (p_tenant_id p)
                  | None => []
                  end in
      reply id (F_ProjectionDelta {| pj_projection := sp_name payload; pj_changes := changes_to_frame rows |}) w
  | Sub_Presence | Sub_Signal => w
  end.
(** The half after the await: the session again, then the decision with hooks. *)
Definition subscribe_finish (now : Z) (id : Z) (payload : SubscribePayload) (app_id : string) (w : W) : bool * W :=
  let sid := sp_subscription_id payload in
  match active_principal_for_frame now id sid w with
  | (None, w1) => (false, on_hub (remove_subscription id sid) w1)
  | (Some p, w1) =>
      let baseline := decide_baseline p (subscribe_action (sp_kind payload)) (own_resource p) in
      let decision := if bool_decide (sp_kind payload = Sub_Projection)
                      then apply_policy_hooks baseline (projection_input p payload) (g_hooks g) else baseline in
      match decision with
      | Deny reason message =>
          (false, on_hub (send_auth_nack encode_frame id sid reason message)
                    (on_hub (remove_subscription id sid) w1))
      | Allow => (false, subscribe_snapshot id payload app_id p w1)
      end
  end.
Definition handle_subscribe (now : Z) (id : Z) (payload : SubscribePayload) (w : W) : bool * W :=
  match subscribe_register id payload w with
  | (None, w1) => (false, w1)
  | (Some app_id, w1) => subscribe_finish now id payload app_id w1
  end.

(** ** Writes *)

Definition append_input (p : Principal) (payload : AppendPayload) : PolicyInput :=
  {| pi_principal := p; pi_action := Authz.StreamAppend;
     pi_resource := {| Authz.pr_kind := "stream"; Authz.pr_name := Some (ap_stream payload); Authz.pr_key := Some (ap_key payload);
                       Authz.pr_event := Some (ap_event payload); Authz.pr_owner_id := None; Authz.pr_tenant_id := p_tenant_id p |};
     pi_context := Some (ap_payload payload) |}.
Definition rate_details : Value :=
  VMap [(VStr "limit", VStr "writeRateBurst"); (VStr "configuredBurst", VInt (write_rate_burst limits));
        (VStr "configuredRefillPerSecond", VInt (write_rate_refill_per_second limits))].
Definition pending_nack (message request_id : string) : FrickFrame :=
  simple_nack RateLimitExceeded message request_id true
    (Some (limit_details "maxPendingAppendsPerClient" (max_pending_appends_per_client limits))) None.
(** With the slot reserved: the size, the decision, the append. *)
Definition append_reserved (s : Seams) (id : Z) (payload : AppendPayload) (p : Principal) (w : W) : W :=
  let rid := ap_request_id payload in
  let max_payload := max_stream_append_payload_bytes limits in
  if (0 <=? max_payload) && (max_payload <? encode_value_len (ap_payload payload)) then
    reply id (simple_nack StreamAppendRejected "Append payload exceeds maximum size" rid false
                (Some (VMap [(VStr "reason", VStr "payloadTooLarge"); (VStr "configuredMax", VInt max_payload)])) None)
      (on_hub (release_pending_write id) w)
  else
    match apply_policy_hooks (decide_baseline p Authz.StreamAppend (own_resource p)) (append_input p payload) (g_hooks g) with
    | Deny reason message =>
        on_hub (send_auth_nack encode_frame id rid reason message) (on_hub (release_pending_write id) w)
    | Allow =>
        let app_id := connection_app_id (w_hub w) id in
        let '(result, w1) :=
          run_store (now_ms s) (append_event schema (g_encryption g) (g_constraint_failed g) (g_projector g) true
            (g_replay_window_ms g) (sm_nonce s) (p_tenant_id p) (ap_stream payload) (ap_key payload) (p_replica_id p)
            rid (ap_event payload) (ap_payload payload) app_id (uuid s) (now_ms s)) w in
        let w2 := on_hub (release_pending_write id) w1 in
        match result with
        | Ok append => reply id (F_Ack {| ak_request_id := rid; ak_cursor := Some (se_sequence (st_event (ar_event append)));
                                          ak_version := None |}) w2
        | Err _ => reply id (simple_nack SyncProtocolError "Append failed" rid false None None) w2
        end
    end.
Definition handle_append (s : Seams) (id : Z) (payload : AppendPayload) (w : W) : bool * W :=
  let rid := ap_request_id payload in
  match active_principal_for_frame (now_ms s) id rid w with
  | (None, w1) => (false, w1)
  | (Some p, w1) =>
      let '(allowed, h) := try_consume_write_token limits (connection_key p) (now_ns s) (w_hub w1) in
      let w2 := with_hub h w1 in
      if negb allowed then
        (false, reply id (simple_nack RateLimitExceeded "Write rate limit exceeded" rid true (Some rate_details) None) w2)
      else
        let '(reserved, h) := try_reserve_pending_write limits id (w_hub w2) in
        let w3 := with_hub h w2 in
        if negb reserved then (false, reply id (pending_nack "Pending append queue is full" rid) w3)
        else (false, append_reserved s id payload p w3)
  end.

Definition conflict_details (expected : option Z) (actual : Z) (policy : FrickObjectMergePolicy) : Value :=
  VMap (match expected with Some e => [(VStr "expectedVersion", VInt e)] | None => [] end
        ++ [(VStr "actualVersion", VInt actual); (VStr "mergePolicy", VStr (enum_as_str policy))]).
Definition upsert_reserved (s : Seams) (id : Z) (payload : ObjectUpsertPayload) (p : Principal) (w : W) : W :=
  let rid := ou_request_id payload in
  let hooked := apply_policy_hooks (decide_baseline p ObjectWrite (own_resource p))
                  (write_input p (ou_object_type payload) (ou_object_id payload) (Some (ou_value payload))) (g_hooks g) in
  match relax_object_write_with_grants (w_grants w) p (ou_object_type payload) (ou_object_id payload) hooked with
  | Deny reason message =>
      on_hub (send_auth_nack encode_frame id rid reason message) (on_hub (release_pending_write id) w)
  | Allow =>
      let app_id := connection_app_id (w_hub w) id in
      let '(result, w1) :=
        run_store (now_ms s) (upsert_object_with_policy schema (g_encryption g) (g_projector g) true (sm_nonce s)
          (p_tenant_id p) app_id (ou_object_type payload) (ou_object_id payload) (ou_value payload)
          (ou_expected_version payload) (Some (p_user_id p)) (now_ms s)) w in
      let w2 := on_hub (release_pending_write id) w1 in
      match result with
      | Ok upsert => reply id (F_Ack {| ak_request_id := rid; ak_cursor := None;
                                        ak_version := Some (next_version upsert) |}) w2
      | Err (ObjectVersionConflict _ _ _ expected actual) =>
          reply id (simple_nack StorageConflict "Object version conflict" rid false
                      (Some (conflict_details expected actual (object_merge_policy schema (ou_object_type payload))))
                      (Some schema)) w2
      | Err _ => reply id (simple_nack SyncProtocolError "Object upsert failed" rid false None None) w2
      end
  end.
Definition handle_object_upsert (s : Seams) (id : Z) (payload : ObjectUpsertPayload) (w : W) : bool * W :=
  let rid := ou_request_id payload in
  match active_principal_for_frame (now_ms s) id rid w with
  | (None, w1) => (false, w1)
  | (Some p, w1) =>
      let '(reserved, h) := try_reserve_pending_write limits id (w_hub w1) in
      let w2 := with_hub h w1 in
      if negb reserved then (false, reply id (pending_nack "Pending write queue is full" rid) w2)
      else (false, upsert_reserved s id payload p w2)
  end.

(** ** Presence and signals *)

(** [Ord::clamp], which wants [lo ≤ hi]. *)
Definition clamp (x lo hi : Z) : Z := if x <? lo then lo else if hi <? x then hi else x.
Definition with_allowed (id : Z) (rid : string) (action : Action) (p : Principal) (k : W → W) (w : W) : W :=
  match decide_baseline p action (own_resource p) with
  | Deny reason message => on_hub (send_auth_nack encode_frame id rid reason message) w
  | Allow => k w
  end.
Definition presence_ttl_seconds (name : string) : Z :=
  clamp (match presence_by_name schema name with
         | Ok presence => Z.quot (pd_ttl_ms presence) 1000
         | Err _ => presence_ttl_min_seconds limits
         end) (presence_ttl_min_seconds limits) (presence_ttl_max_seconds limits).
Definition handle_presence_set (s : Seams) (id : Z) (payload : PresenceSetPayload) (w : W) : bool * W :=
  let rid := ps_request_id payload in
  match active_principal_for_frame (now_ms s) id rid w with
  | (None, w1) => (false, w1)
  | (Some p, w1) =>
      (false, with_allowed id rid PresenceWrite p (λ w1,
         let app_id := connection_app_id (w_hub w1) id in
         let '(_, w2) := run_store (now_ms s) (set_presence schema (p_tenant_id p) (ps_name payload) (ps_key payload)
                           (ps_value payload) (presence_ttl_seconds (ps_name payload) * 1000) app_id (now_ms s)) w1 in
         let w3 := on_hub (fan_out_presence schema encode_frame (p_tenant_id p) app_id (ps_name payload) (ps_key payload)
                             (Some (ps_value payload)) false) w2 in
         reply id (ack rid)
           (on_hub (publish (λ node, Env.PresenceDelta node (p_tenant_id p) (Some app_id) (ps_name payload)
                      [{| Env.ch_key := ps_key payload; Env.ch_value := ps_value payload |}] [])) w3)) w1)
  end.
Definition handle_presence_clear (s : Seams) (id : Z) (payload : PresenceClearPayload) (w : W) : bool * W :=
  let rid := pc_request_id payload in
  match active_principal_for_frame (now_ms s) id rid w with
  | (None, w1) => (false, w1)
  | (Some p, w1) =>
      (false, with_allowed id rid PresenceWrite p (λ w1,
         let app_id := connection_app_id (w_hub w1) id in
         let '(_, w2) := run_store (now_ms s) (clear_presence (p_tenant_id p) (pc_name payload) (pc_key payload) app_id) w1 in
         let w3 := on_hub (fan_out_presence schema encode_frame (p_tenant_id p) app_id (pc_name payload) (pc_key payload)
                             None true) w2 in
         reply id (ack rid)
           (on_hub (publish (λ node, Env.PresenceDelta node (p_tenant_id p) (Some app_id) (pc_name payload) []
                      [pc_key payload])) w3)) w1)
  end.

(** The signals relayed to members of a call only. *)
Definition WEBRTC_SIGNAL : string := "WebRTCSignal".
Definition CALL_DATA_CHANNEL : string := "CallDataChannel".
Definition handle_signal (s : Seams) (id : Z) (payload : SignalPayload) (w : W) : bool * W :=
  let rid := sig_request_id payload in
  match active_principal_for_frame (now_ms s) id rid w with
  | (None, w1) => (false, w1)
  | (Some p, w1) =>
      (false, with_allowed id rid SignalSend p (λ w1,
         let app_id := connection_app_id (w_hub w1) id in
         if (String.eqb (sig_name payload) WEBRTC_SIGNAL || String.eqb (sig_name payload) CALL_DATA_CHANNEL)
            && negb (is_signal_member (w_calls w1) (p_tenant_id p) app_id (sig_key payload) (p_user_id p))
         then reply id (simple_nack AuthForbidden "Not a member of this call" rid false (Some (reason_details "notMember"))
                          None) w1
         else
           let '(_, w2) := run_store (now_ms s) (enqueue_signal schema (p_tenant_id p) (sig_name payload) (sig_key payload)
                             (sig_value payload) None app_id (now_ms s)) w1 in
           reply id (ack rid) (on_hub (fan_out_signal_local schema encode_frame (p_tenant_id p) app_id payload) w2)) w1)
  end.

(** ** Calls *)

Definition empty_result (op : CallCommandName) : CallCommandResultPayload :=
  {| cres_request_id := ""; cres_op := op; cres_room := None; cres_invites := None; cres_participant := None;
     cres_media_grant := None; cres_invite := None; cres_producer := None; cres_consumer := None |}.
Definition room_result (op : CallCommandName) (room : CallRoomRecord) (invites : option (list CallInviteRecord))
    (participant : option CallParticipantRecord) (grant : option CallMediaGrant) : CallCommandResultPayload :=
  {| cres_request_id := ""; cres_op := op; cres_room := Some room; cres_invites := invites;
     cres_participant := participant; cres_media_grant := grant; cres_invite := None; cres_producer := None;
     cres_consumer := None |}.
Definition sfu_unsupported (call_id : string) : CallError :=
  CE_MediaUnsupported ("Call " +:+ call_id
    +:+ " is not brokered over an SFU media plane; SFU media negotiation is unsupported").
Definition dispatch_call_command (s : Seams) (actor : CallActor) (command : CallCommandOp) :
    M (CallState Media) CallError CallCommandResultPayload :=
  match command with
  | Op_Create conversation_id invitees kind region_hint =>
      created ← create_call actor {| in_conversation_id := conversation_id; in_invitee_user_ids := invitees;
                                     in_kind := kind; in_region_hint := region_hint |} (uuid s) (now_ms s);
      mret (room_result Name_Create (cc_room created) (Some (cc_invites created)) None None)
  | Op_Join call_id =>
      joined ← join_call actor call_id (now_ms s);
      mret (room_result Name_Join (jc_room joined) None (Some (jc_participant joined)) (Some (jc_media_grant joined)))
  | Op_Accept call_id =>
      invite ← accept_invite actor call_id (now_ms s);
      mret {| cres_request_id := ""; cres_op := Name_Accept; cres_room := None; cres_invites := None;
              cres_participant := None; cres_media_grant := None; cres_invite := Some invite; cres_producer := None;
              cres_consumer := None |}
  | Op_Leave call_id =>
      room ← leave_call actor call_id (now_ms s);
      mret (room_result Name_Leave room None None None)
  | Op_End call_id =>
      room ← end_call actor call_id (now_ms s);
      mret (room_result Name_End room None None None)
  | Op_SetMediaState call_id media =>
      participant ← set_media_state actor call_id media;
      mret {| cres_request_id := ""; cres_op := Name_SetMediaState; cres_room := None; cres_invites := None;
              cres_participant := Some participant; cres_media_grant := None; cres_invite := None;
              cres_producer := None; cres_consumer := None |}
  | Op_SfuConnectTransport call_id _ _ _ | Op_SfuProduce call_id _ _ _ _ | Op_SfuConsume call_id _ _ _ _ =>
      fail (sfu_unsupported call_id)
  end.

Definition ringing_intent (tenant_id : string) (room : CallRoomRecord) (invite : CallInviteRecord) :
    FrickNotificationIntent :=
  {| ni_intent := "call.ringing"; ni_tenant_id := tenant_id; ni_recipient_user_ids := [ci_invitee_user_id invite];
     ni_body := {| nb_title := Some "Incoming call"; nb_body := Some "Someone is calling you";
       nb_data := Some (VMap [(VStr "type", VStr "callRinging"); (VStr "callId", VStr (cr_id room));
         (VStr "conversationId", VStr (cr_conversation_id room)); (VStr "createdBy", VStr (cr_created_by room));
         (VStr "callerId", VStr (cr_created_by room)); (VStr "kind", VStr (kind_wire (cr_kind room)));
         (VStr "clientRendered", VBool true)]) |};
     ni_thread_id := Some (cr_id room); ni_deep_link := None |}.
Definition enqueue_ringing_push (tenant_id : string) (room : CallRoomRecord) (invites : list CallInviteRecord)
    (w : W) : W := with_intents (w_intents w ++ (ringing_intent tenant_id room <$> invites)) w.

Definition set_request_id (rid : string) (r : CallCommandResultPayload) : CallCommandResultPayload :=
  {| cres_request_id := rid; cres_op := cres_op r; cres_room := cres_room r; cres_invites := cres_invites r;
     cres_participant := cres_participant r; cres_media_grant := cres_media_grant r; cres_invite := cres_invite r;
     cres_producer := cres_producer r; cres_consumer := cres_consumer r |}.
Definition handle_call_command (s : Seams) (id : Z) (payload : CallCommandPayload) (w : W) : bool * W :=
  let rid := cm_request_id payload in
  match active_principal_for_frame (now_ms s) id rid w with
  | (None, w1) => (false, w1)
  | (Some p, w1) =>
      let actor := {| ac_tenant_id := p_tenant_id p; ac_user_id := p_user_id p; ac_device_id := p_device_id p;
                      ac_app_id := Some (connection_app_id (w_hub w1) id) |} in
      match dispatch_call_command s actor (cm_command payload) (w_calls w1) with
      | (Ok result, calls) =>
          let w2 := with_calls calls w1 in
          let w3 := match cres_op result, cres_room result, cres_invites result with
                    | Name_Create, Some room, Some invites => enqueue_ringing_push (p_tenant_id p) room invites w2
                    | _, _, _ => w2
                    end in
          (false, reply id (F_CallCommandResult (set_request_id rid result)) w3)
      | (Err e, calls) =>
          let '(code, reason) := call_error_to_nack e in
          (false, reply id (simple_nack code (CallError_display e) rid false (Some (reason_details reason)) None)
                    (with_calls calls w1))
      end
  end.

(** ** Dispatch *)

Definition dispatch (s : Seams) (id : Z) (frame : FrickFrame) (w : W) : bool * W :=
  if negb (handshake_complete (w_hub w) id)
     && negb (bool_decide (frame_kind frame = K_Hello)) && negb (bool_decide (frame_kind frame = K_Ping))
  then (false, reply id (simple_nack SyncProtocolError "Hello handshake required before sync frames"
                           (pre_hello_request_id frame) false (Some (reason_details "handshakeRequired"))
                           (Some schema)) w)
  else
    match frame with
    | F_Hello payload => handle_hello (now_ms s) id payload w
    | F_Subscribe payload => handle_subscribe (now_ms s) id payload w
    | F_Append payload => handle_append s id payload w
    | F_ObjectUpsert payload => handle_object_upsert s id payload w
    | F_PresenceSet payload => handle_presence_set s id payload w
    | F_PresenceClear payload => handle_presence_clear s id payload w
    | F_SignalSend payload => handle_signal s id payload w
    | F_CursorCommit payload =>
        (false, reply id (F_Ack {| ak_request_id := cu_subscription_id payload; ak_cursor := Some (cu_cursor payload);
                                   ak_version := None |}) w)
    | F_Ping payload =>
        (false, reply id (F_Pong {| pong_sent_at := ping_sent_at payload; pong_received_at := now_ms s |}) w)
    | F_CallCommand payload => handle_call_command s id payload w
    | _ => (false, w)
    end.
Definition handle_raw_frame (s : Seams) (id : Z) (payload : blob) (w : W) : bool * W :=
  let max_frame := max_web_socket_frame_bytes limits in
  if (0 <=? max_frame) && (max_frame <? Z.of_nat (length payload)) then
    (true, on_hub (send_close id Close.TOO_LARGE "frame too large")
             (reply id (simple_nack RateLimitExceeded "Inbound WebSocket frame exceeds maximum size" "frame" false
                          (Some (limit_details "maxWebSocketFrameBytes" max_frame)) None) w))
  else
    match decode_frame payload with
    | Ok frame => dispatch s id frame w
    | Err error => (false, reply id (simple_nack SyncProtocolError (Value.message error) "unknown" false None None) w)
    end.

(** A message of the socket, then the end of the loop when the handler asks. *)
Definition on_message (s : Seams) (id : Z) (payload : blob) (w : W) : W :=
  let '(close_after, w') := handle_raw_frame s id payload w in
  if close_after : bool then on_hub (unregister id) w' else w'.
(** A heartbeat of the loop: the end when nothing came within the timeout, else
    a ping. *)
Definition on_heartbeat (now last_seen timeout_ms : Z) (id : Z) (w : W) : W :=
  if timeout_ms <? now - last_seen then on_hub (unregister id) w
  else reply id (F_Ping {| ping_sent_at := now |}) w.
(** A task spawned by a fan-out. *)
Definition run_task (n : nat) (w : W) : W :=
  match w_tasks w !! n with
  | None => w
  | Some d => with_tasks (base.delete n (w_tasks w))
                (on_hub (run_deferred schema (g_mode g) (g_hooks g) (w_grants w) d) w)
  end.
Definition on_envelope (now : Z) (envelope : Env.ClusterEnvelope) (w : W) : W :=
  let '(h, ds) := handle_cluster_envelope schema (g_mode g) (g_hooks g) encode_frame now envelope (w_hub w) in
  with_tasks (w_tasks w ++ ds) (with_hub h w).
End Handlers.

(** ** A node with one client *)

Module SampleGateway.
Import SampleAuthz.
Definition limits : FrickLimits :=
  {| max_stream_append_payload_bytes := 1000; max_subscriptions_per_connection := 2; max_stream_page_size := 10;
     max_pending_appends_per_client := 4; write_rate_burst := 0; write_rate_refill_per_second := 0;
     max_web_socket_frame_bytes := 100; max_web_socket_connections := 10; max_connections_per_principal := 1;
     presence_ttl_min_seconds := 1; presence_ttl_max_seconds := 60 |}.
Definition config : GatewayConfig string :=
  {| g_limits := limits; g_schema := SampleSchema.schema; g_mode := OwnerScoped; g_hooks := [];
     g_apps := {| Apps.apps := []; Apps.resolve_order := [] |}; g_projections := 0; g_encryption := ToyPacked.enc;
     g_constraint_failed := "UNIQUE constraint failed"; g_projector := None; g_replay_window_ms := 60000 |}.
Definition digest (token : string) : string := token.
Definition sessions : gmap string SessionRow :=
  (Sessions.create digest "UNIQUE constraint failed" SampleSessions.phone 0 ∅).2.
Definition calls : CallState Fake.FakeState :=
  {| st_rooms := ∅; st_invites := ∅; st_participants := ∅; st_events := []; st_seq := 1; st_media := Fake.p2p |}.
Definition world : World string Fake.FakeState nat :=
  {| w_hub := empty_hub; w_store := Facade.with_sessions sessions SampleFacade.empty; w_tenants := ∅; w_grants := [];
     w_calls := calls; w_projections := {[0%nat := SampleProjections.registry]}; w_tasks := []; w_intents := [] |}.
Definition seams (now : Z) : Seams := {| now_ms := now; now_ns := now * 1000000; sm_nonce := ToyPacked.nonce; uuid := "u1" |}.
Definition hello (schema_hash : string) : FrickFrame :=
  F_Hello {| hp_replica_id := "r1"; hp_device_id := "phone"; hp_schema_hash := schema_hash; hp_known_cursors := [];
             hp_session_token := Some "tok-phone"; hp_client_capabilities := None |}.
Definition subscribe : FrickFrame :=
  F_Subscribe {| sp_subscription_id := "s1"; sp_kind := Sub_Stream; sp_name := "TaskStream"; sp_key := Some "k1";
                 sp_cursor := None |}.
Definition append : FrickFrame :=
  F_Append {| ap_request_id := "q1"; ap_stream := "TaskStream"; ap_key := "k1"; ap_event := "TaskDone";
              ap_payload := VMap [(VStr "title", VStr "one")] |}.
(** A one-byte code of the four frames. *)
Definition decode (b : blob) : result ProtocolError FrickFrame :=
  match b with
  | [1] => Ok (hello "sample-3") | [2] => Ok subscribe | [3] => Ok append | [4] => Ok (hello "old")
  | _ => perr "bad frame"
  end.
Definition authorize : AuthState → string → Principal → Z → result ServerError unit := AllowActiveSessions.
Definition len (_ : Value) : Z := 10.
Definition message (now : Z) (b : blob) : World string Fake.FakeState nat → World string Fake.FakeState nat :=
  on_message config SampleFanout.encode decode len digest authorize (seams now) 1 b.
Definition connected : World string Fake.FakeState nat :=
  (upgrade config SampleFanout.encode digest authorize 100 ∅ world).2.
Definition greeted : World string Fake.FakeState nat := message 101 [1] connected.
Definition subscribed : World string Fake.FakeState nat := message 102 [2] greeted.
Definition appended : World string Fake.FakeState nat := message 103 [3] subscribed.
(** The client's channel at the end: the acknowledged hello with the schema, the
    empty page, the delta of its own append and the acknowledgement. *)
Example append_seen : outbound (w_hub appended) 1
  = Some [Out_Frame [0]; Out_Frame [0]; Out_Frame [0]; Out_Frame [1]; Out_Frame [0]].
Proof. vm_compute. reflexivity. Qed.
End SampleGateway.
