(* ===== verification/GatewayInvariants.v ===== *)
(** * Invariants of the gateway

    The steps of a gateway node (connects, frames, heartbeats, disconnects, store
    writes of other routes, peer envelopes, spawned tasks) and what holds in every
    state they reach: the hub's counts and caps, the subscriptions of a
    connection, the write budget. *)

From Stdlib Require Import ZArith Lia Ascii String.
From stdpp Require Import base gmap strings list relations.
From S2P Require Import Prelude Value Errors Schema Codec Handshake StoreBase Encryption ObjectStore StreamStore Authz ServerErrors Sessions MediaPlane Calls Frames Apps Facade Projections Cluster Gateway GatewayHub GatewayFanout GatewayFrames Samples.

(** A relation on hubs that sending and publishing stay within. *)
Class SendsWithin (R : relation Hub) : Prop := {
  sw_preorder :: PreOrder R;
  sw_deliver who h : R h (deliver who h);
  sw_publish mk h : R h (publish mk h);
  sw_frame encode_frame id frame h : R h (send_frame encode_frame id frame h);
  sw_close id code reason h : R h (send_close id code reason h);
}.
#[export] Instance same_roster_sends : SendsWithin same_roster.
Proof. split; auto using deliver_same, publish_same, send_frame_same, send_close_same; apply _. Qed.

Section Within.
Context (R : relation Hub) `{!SendsWithin R}.
Context (schema : FrickSchema) (mode : ObjectVisibilityMode) (hooks : list PolicyHook).
Context (encode_frame : FrickFrame → result ProtocolError blob).

(** Fan-out only sends. *)
Lemma broadcast_within kind name key tenant app bytes h :
  R h (broadcast_to_subscribers kind name key tenant app bytes h).
Proof using All. apply sw_deliver. Qed.
Lemma object_upsert_within now t a ty id object writer h :
  R h (fan_out_object_upsert schema mode hooks encode_frame now t a ty id object writer h).1.
Proof using SendsWithin0.
  unfold fan_out_object_upsert. destruct (pack_object_record _ _ _ _); [|reflexivity].
  destruct (encode_frame _); [apply sw_deliver | reflexivity].
Qed.
Lemma object_delete_within now t a ty id h :
  R h (fan_out_object_delete schema encode_frame now t a ty id h).
Proof using SendsWithin0. unfold fan_out_object_delete. destruct (removal_frame _ _ _ _ _); [apply sw_deliver | reflexivity]. Qed.
Lemma projection_delta_within notice h : R h (fan_out_projection_delta encode_frame notice h).
Proof using SendsWithin0. unfold fan_out_projection_delta. destruct (encode_frame _); [apply sw_deliver | reflexivity]. Qed.
Lemma signal_within t a payload h : R h (fan_out_signal_local schema encode_frame t a payload h).
Proof using SendsWithin0.
  unfold fan_out_signal_local. destruct (pack_signal_envelope _ _ _ _); [|reflexivity].
  destruct (encode_frame _); [apply sw_deliver | reflexivity].
Qed.
Lemma publish_opt_within mk h : R h (publish_opt mk h).
Proof using SendsWithin0.
  unfold publish_opt. destruct (h_cluster_bus h) as [n|]; [|reflexivity]. destruct (mk n); [apply sw_publish | reflexivity].
Qed.
Lemma local_fan_out_within now event h : R h (local_fan_out schema mode hooks encode_frame now event h).1.
Proof using SendsWithin0.
  destruct event; simpl; [apply object_upsert_within | apply object_delete_within|].
  unfold fan_out_stream_append. destruct (pack_stream_event _ _); [|reflexivity].
  destruct (encode_frame _); [apply sw_deliver | reflexivity].
Qed.
Lemma store_write_within now event h : R h (handle_store_write schema mode hooks encode_frame now event h).1.
Proof using SendsWithin0.
  unfold handle_store_write. pose proof (local_fan_out_within now event h) as Hs.
  destruct (local_fan_out _ _ _ _ _ _ _) as [h' ds]. etrans; [exact Hs | apply publish_opt_within].
Qed.
Lemma objects_within now t a ty objects : ∀ h,
  R h (fan_out_objects schema mode hooks encode_frame now t a ty objects h).1.
Proof using SendsWithin0.
  induction objects as [|object rest IH]; intros h; simpl; [reflexivity|].
  pose proof (object_upsert_within now t a ty (object_id_of object) object None h) as H1.
  destruct (fan_out_object_upsert _ _ _ _ _ _ _ _ _ _ _ _) as [h1 ds1]. specialize (IH h1).
  destruct (fan_out_objects _ _ _ _ _ _ _ _ _ _) as [h2 ds2]. etrans; [exact H1 | exact IH].
Qed.
Lemma foldl_within {A} (f : Hub → A → Hub) l : (∀ h x, R h (f h x)) → ∀ h, R h (foldl f h l).
Proof using SendsWithin0. intros Hf. induction l as [|x l IH]; intros h; simpl; [reflexivity|]. etrans; [apply Hf | apply IH]. Qed.
Lemma envelope_within now envelope h :
  R h (handle_cluster_envelope schema mode hooks encode_frame now envelope h).1.
Proof using SendsWithin0.
  destruct envelope; simpl; try reflexivity.
  - unfold fan_out_packed_stream_event. destruct (encode_frame _); [apply sw_deliver | reflexivity].
  - apply objects_within.
  - apply foldl_within. intros. apply object_delete_within.
  - apply signal_within.
  - apply projection_delta_within.
  - destruct (match records with r :: _ => _ | [] => _ end); [apply sw_deliver | reflexivity].
Qed.
Lemma publish_projection_within notice h : R h (publish_projection_delta encode_frame notice h).
Proof using SendsWithin0. etrans; [apply projection_delta_within | apply sw_publish]. Qed.
End Within.

Section Steps.
Context {SearchOp Media H : Type}.
Context `{PackedColumn PackedRecord, PackedColumn PackedStreamEvent, PackedColumn Value, Crypto, !MediaPlane Media}.
Context (g : GatewayConfig SearchOp).
Context (encode_frame : FrickFrame → result ProtocolError blob) (decode_frame : blob → result ProtocolError FrickFrame).
Context (encode_value_len : Value → Z) (session_token_digest : string → string).
Context (authorize : AuthState → string → Principal → Z → result ServerError unit).
Local Abbreviation W := (World SearchOp Media H).
Local Abbreviation on_message := (on_message g encode_frame decode_frame encode_value_len session_token_digest authorize).
Local Abbreviation upgrade := (upgrade g encode_frame session_token_digest authorize).

(** What a node does. The rest of the server may change everything but the hub. *)
Inductive gateway_step : W → W → Prop :=
| gs_upgrade now headers w : gateway_step w (upgrade now headers w).2
| gs_message s id payload w : gateway_step w (on_message s id payload w)
| gs_heartbeat now last_seen timeout id w : gateway_step w (on_heartbeat encode_frame now last_seen timeout id w)
| gs_disconnect id w : gateway_step w (on_hub (unregister id) w)
| gs_writer_ended id w : gateway_step w (on_hub (update id writer_ended) w)
| gs_write {A} now (op : M (FrickStore SearchOp) StoreError A) w : gateway_step w (run_store g encode_frame now op w).2
| gs_task n w : gateway_step w (run_task g n w)
| gs_envelope now envelope w : gateway_step w (on_envelope g encode_frame now envelope w)
| gs_close_session target w : gateway_step w (on_hub (λ h, (close_session target h).2) w)
| gs_signal name key value tenant app rid w :
    gateway_step w (on_hub (publish_signal (g_schema g) encode_frame name key value tenant app rid) w)
| gs_revoked now tenant app ty id w :
    gateway_step w (on_hub (fan_out_object_visibility_revoked (g_schema g) (g_mode g) (g_hooks g) encode_frame
      (w_grants w) now (ObjectStore.read (g_schema g) (g_encryption g) (fs_objects (w_store w)) tenant ty id app)
      tenant app ty id) w)
| gs_attach_bus node w : gateway_step w (on_hub (set_cluster_bus node) w)
| gs_elsewhere (w w' : W) : w_hub w' = w_hub w → w_tasks w' = w_tasks w → gateway_step w w'.

(** ** Relations on worlds *)

Definition within (R : relation Hub) (w w' : W) : Prop := R (w_hub w) (w_hub w').
#[local] Instance within_preorder (R : relation Hub) `{!PreOrder R} : PreOrder (within R).
Proof. split; [intros w; by unfold within | intros x y z; unfold within; apply transitivity]. Qed.

Section Worlds.
Context (R : relation Hub) `{!SendsWithin R}.
Lemma within_foldl {A} (f : W → A → W) l : (∀ w x, within R w (f w x)) → ∀ w, within R w (foldl f w l).
Proof using SendsWithin0. intros Hf. induction l as [|x l IH]; intros w; simpl; [reflexivity|]. etrans; [apply Hf | apply IH]. Qed.
Lemma reply_within id frame (w : W) : within R w (reply encode_frame id frame w).
Proof using SendsWithin0. apply sw_frame. Qed.
Lemma on_write_within now event (w : W) : within R w (on_write g encode_frame now event w).
Proof using SendsWithin0.
  unfold on_write. pose proof (store_write_within R (g_schema g) (g_mode g) (g_hooks g) encode_frame now event (w_hub w)) as Hs.
  destruct (handle_store_write _ _ _ _ _ _ _) as [h ds]. simpl in *.
  destruct (w_projections w !! _) as [r|]; [|done].
  etrans; [|apply within_foldl; intros; apply (publish_projection_within R)]. done.
Qed.
Lemma run_store_within {A} now (op : M (FrickStore SearchOp) StoreError A) (w : W) :
  within R w (run_store g encode_frame now op w).2.
Proof using SendsWithin0.
  unfold run_store. destruct (op (w_store w)) as [r s]. simpl.
  etrans; [|apply within_foldl; intros; apply on_write_within]. unfold within. reflexivity.
Qed.
End Worlds.

Local Abbreviation quiet := (within same_roster).
Lemma reply_quiet id frame (w : W) : quiet w (reply encode_frame id frame w).
Proof using Type. apply (reply_within same_roster). Qed.
Lemma run_store_quiet {A} now (op : M (FrickStore SearchOp) StoreError A) (w : W) :
  quiet w (run_store g encode_frame now op w).2.
Proof using Type. apply (run_store_within same_roster). Qed.

Hypothesis ws_cap : 0 ≤ max_web_socket_connections (g_limits g) < 2 ^ 32.
Definition healthy (w : W) : Prop := hub_ok (g_limits g) (w_hub w).

Lemma quiet_healthy w w' : quiet w w' → healthy w → healthy w'.
Proof. apply hub_ok_same. Qed.
Lemma resolve_session_hub token now (w : W) :
  w_hub (resolve_session session_token_digest authorize token now w).2 = w_hub w.
Proof. unfold resolve_session. by destruct (principal_from_authorized_session_token _ _ _ _ _). Qed.

Lemma nack_close_same id frame code message h :
  same_roster h (send_close id code message (send_frame encode_frame id frame h)).
Proof using Type. etrans; [apply send_frame_same | apply send_close_same]. Qed.

Lemma active_principal_healthy now id rid (w : W) :
  healthy w → healthy (active_principal_for_frame encode_frame session_token_digest authorize now id rid w).2.
Proof using Type.
  intros Hok. unfold active_principal_for_frame. destruct (h_connections (w_hub w) !! id) as [c|] eqn:Hc; [|done].
  destruct (c_principal c) as [p|] eqn:Hp; [|eapply quiet_healthy; [apply send_frame_same | done]].
  destruct (c_session_token c) as [token|].
  2: { destruct (negb _); simpl; [|done]. eapply hub_ok_same; [apply nack_close_same | exact Hok]. }
  pose proof (resolve_session_hub token now w) as Hh. destruct (resolve_session _ _ token now w) as [[active|e] w1]; simpl in *.
  - destruct (same_principal p active) eqn:Hs; simpl.
    + unfold healthy. simpl. rewrite Hh. assert (connection_principal (w_hub w) id = Some p) as Hcp
        by (unfold connection_principal; by rewrite Hc).
      apply refresh_ok; [exact Hok | | by exists p]. intros q Hq. rewrite Hcp in Hq. by injection Hq as <-.
    + unfold healthy. simpl. rewrite Hh. eapply hub_ok_same; [apply nack_close_same | exact Hok].
  - unfold healthy. simpl. rewrite Hh. eapply hub_ok_same; [apply nack_close_same | exact Hok].
Qed.

Lemma hello_after_auth_healthy id payload authed (w : W) :
  healthy w → (∀ p, authed = Some p → reserved id p (w_hub w)) →
  healthy (hello_after_auth g encode_frame id payload authed w).2.
Proof using ws_cap.
  intros Hok Hres. unfold hello_after_auth.
  destruct (match _ with Some _ => _ | None => _ end); [by eapply quiet_healthy; [apply reply_quiet|]|].
  destruct (hello_compatibility _ _) as [compat|[[code m] d]]; [|by eapply quiet_healthy; [apply reply_quiet|]].
  eapply quiet_healthy; [etrans; apply reply_quiet|]. by apply hello_attach_ok.
Qed.
Lemma hello_healthy now id payload (w : W) :
  healthy w → healthy (handle_hello g encode_frame session_token_digest authorize now id payload w).2.
Proof using ws_cap.
  intros Hok. unfold handle_hello. destruct (hp_session_token payload) as [token|]; [|by apply hello_after_auth_healthy].
  pose proof (resolve_session_hub token now w) as Hh. destruct (resolve_session _ _ token now w) as [[p|e] w1]; simpl in *.
  2: { unfold healthy. simpl. rewrite Hh. eapply hub_ok_same; [apply send_hello_auth_nack_same | exact Hok]. }
  rewrite Hh. destruct (match connection_principal (w_hub w) id with Some _ => _ | None => _ end) eqn:Hm; simpl.
  { unfold healthy. simpl. eapply hub_ok_same; [apply send_hello_auth_nack_same | exact Hok]. }
  destruct (reserve_ok (g_limits g) ws_cap id p (w_hub w) Hok) as (Hok1 & _ & Hres).
  { intros q Hq. rewrite Hq in Hm. by destruct (same_principal q p). }
  destruct (reserve_hello_principal _ id p (w_hub w)) as [taken h]. simpl in *. destruct taken; simpl.
  - apply hello_after_auth_healthy; [exact Hok1|]. intros q [= <-]. by apply Hres.
  - eapply hub_ok_same; [apply nack_close_same | exact Hok1].
Qed.

Lemma on_hub_quiet f (w : W) : (∀ h, same_roster h (f h)) → quiet w (on_hub f w).
Proof. intros Hf. apply Hf. Qed.
Lemma with_hub_quiet h (w : W) : same_roster (w_hub w) h → quiet w (with_hub h w).
Proof. done. Qed.
#[local] Hint Resolve reply_quiet run_store_quiet on_hub_quiet : hub.
#[local] Hint Extern 3 (within same_roster _ (on_hub _ _)) => apply on_hub_quiet; intros; auto with hub : hub.

Lemma subscribe_register_quiet id payload (w : W) : quiet w (subscribe_register g encode_frame id payload w).2.
Proof using Type.
  unfold subscribe_register. destruct (subscription_count _ _ _) as [[already count] app].
  destruct (negb already && _); [apply reply_quiet|]. destruct (bool_decide _ && _); [apply reply_quiet|].
  destruct (match connection_principal _ _ with Some _ => _ | None => _ end) as [[r m]|]; simpl; auto with hub.
Qed.
Lemma subscribe_snapshot_quiet id payload app p (w : W) : quiet w (subscribe_snapshot g encode_frame id payload app p w).
Proof using Type.
  unfold subscribe_snapshot. destruct (sp_kind payload); auto with hub; try done.
  destruct (sp_key payload); [auto with hub|]. etrans; [|apply reply_quiet]. auto with hub.
Qed.
Lemma append_reserved_quiet s id payload p (w : W) : quiet w (append_reserved g encode_frame encode_value_len s id payload p w).
Proof using Type.
  unfold append_reserved. destruct (_ && _); [etrans; [|apply reply_quiet]; auto with hub|].
  destruct (apply_policy_hooks _ _ _); [|etrans; [|apply on_hub_quiet; intros; apply send_frame_same]; auto with hub].
  pose proof (run_store_quiet (now_ms s) (append_event (g_schema g) (g_encryption g) (g_constraint_failed g) (g_projector g) true
            (g_replay_window_ms g) (sm_nonce s) (p_tenant_id p) (ap_stream payload) (ap_key payload) (p_replica_id p)
            (ap_request_id payload) (ap_event payload) (ap_payload payload) (connection_app_id (w_hub w) id) (uuid s) (now_ms s)) w) as Hs.
  destruct (run_store _ _ _ _ w) as [r w1]. simpl in Hs.
  destruct r; (etrans; [exact Hs|]); (etrans; [|apply reply_quiet]); auto with hub.
Qed.
Lemma upsert_reserved_quiet s id payload p (w : W) : quiet w (upsert_reserved g encode_frame s id payload p w).
Proof using Type.
  unfold upsert_reserved.
  destruct (relax_object_write_with_grants _ _ _ _ _); [|etrans; [|apply on_hub_quiet; intros; apply send_frame_same]; auto with hub].
  pose proof (run_store_quiet (now_ms s) (upsert_object_with_policy (g_schema g) (g_encryption g) (g_projector g) true (sm_nonce s)
          (p_tenant_id p) (connection_app_id (w_hub w) id) (ou_object_type payload) (ou_object_id payload) (ou_value payload)
          (ou_expected_version payload) (Some (p_user_id p)) (now_ms s)) w) as Hs.
  destruct (run_store _ _ _ _ w) as [r w1]. simpl in Hs.
  destruct r as [|[]]; (etrans; [exact Hs|]); (etrans; [|apply reply_quiet]); auto with hub.
Qed.
Lemma with_allowed_quiet id rid action p k (w : W) : quiet w (k w) → quiet w (with_allowed encode_frame id rid action p k w).
Proof using Type. intros Hk. unfold with_allowed. destruct (decide_baseline _ _ _); [done|]. apply on_hub_quiet. auto with hub. Qed.

(** The frame of an authenticated client: its session is read again first, and
    the rest is quiet. *)
Ltac after_session w Hok :=
  match goal with
  | |- context [active_principal_for_frame ?e ?d ?a ?now ?id ?rid w] =>
      let Hok1 := fresh "Hok1" in
      pose proof (active_principal_healthy now id rid w Hok) as Hok1;
      destruct (active_principal_for_frame e d a now id rid w) as [[p|] w1]; cbn [fst snd] in Hok1 |- *; [|exact Hok1];
      eapply quiet_healthy; [|exact Hok1]
  end.

Lemma subscribe_healthy now id payload (w : W) :
  healthy w → healthy (handle_subscribe g encode_frame session_token_digest authorize now id payload w).2.
Proof using Type.
  intros Hok. unfold handle_subscribe. pose proof (subscribe_register_quiet id payload w) as Hq.
  destruct (subscribe_register _ _ id payload w) as [[app|] w0]; simpl in *; [|by eapply quiet_healthy].
  assert (healthy w0) as Hok0 by by eapply quiet_healthy. unfold subscribe_finish.
  pose proof (active_principal_healthy now id (sp_subscription_id payload) w0 Hok0) as Hok1.
  destruct (active_principal_for_frame _ _ _ _ _ _ w0) as [[p|] w1]; simpl in *.
  2: { eapply quiet_healthy; [|exact Hok1]. auto with hub. }
  destruct (if bool_decide _ then _ else _); simpl; (eapply quiet_healthy; [|exact Hok1]).
  - apply subscribe_snapshot_quiet.
  - etrans; [|apply on_hub_quiet; intros; apply send_frame_same]. auto with hub.
Qed.
Lemma append_healthy s id payload (w : W) :
  healthy w → healthy (handle_append g encode_frame encode_value_len session_token_digest authorize s id payload w).2.
Proof using Type.
  intros Hok. unfold handle_append. after_session w Hok.
  pose proof (try_consume_write_token_same (g_limits g) (connection_key p) (now_ns s) (w_hub w1)) as Ht.
  destruct (try_consume_write_token _ _ _ _) as [allowed h]. simpl in Ht. destruct allowed; simpl.
  2: { etrans; [by apply with_hub_quiet | apply reply_quiet]. }
  pose proof (try_reserve_pending_write_same (g_limits g) id h) as Hr.
  destruct (try_reserve_pending_write _ _ h) as [reserved h1]. simpl in Hr.
  assert (quiet w1 (with_hub h1 (with_hub h w1))) as Hq by (unfold within; simpl; by etrans).
  destruct reserved; simpl; (etrans; [exact Hq|]); [apply append_reserved_quiet | apply reply_quiet].
Qed.
Lemma upsert_healthy s id payload (w : W) :
  healthy w → healthy (handle_object_upsert g encode_frame session_token_digest authorize s id payload w).2.
Proof using Type.
  intros Hok. unfold handle_object_upsert. after_session w Hok.
  pose proof (try_reserve_pending_write_same (g_limits g) id (w_hub w1)) as Hr.
  destruct (try_reserve_pending_write _ _ _) as [reserved h1]. simpl in Hr.
  destruct reserved; simpl; (etrans; [by apply with_hub_quiet|]); [apply upsert_reserved_quiet | apply reply_quiet].
Qed.
Ltac stored w1 :=
  cbv beta zeta;
  match goal with
  | |- context [run_store ?g ?e ?now ?op w1] =>
      pose proof (run_store_quiet now op w1); destruct (run_store g e now op w1) as [? w2]
  end; simpl in *.
Lemma presence_set_healthy s id payload (w : W) :
  healthy w → healthy (handle_presence_set g encode_frame session_token_digest authorize s id payload w).2.
Proof using Type.
  intros Hok. unfold handle_presence_set. after_session w Hok.
  apply with_allowed_quiet. stored w1. etrans; [eassumption|]. etrans; [|apply reply_quiet].
  etrans; [|apply on_hub_quiet; intros; apply publish_same]. apply on_hub_quiet. intros. apply deliver_same.
Qed.
Lemma presence_clear_healthy s id payload (w : W) :
  healthy w → healthy (handle_presence_clear g encode_frame session_token_digest authorize s id payload w).2.
Proof using Type.
  intros Hok. unfold handle_presence_clear. after_session w Hok.
  apply with_allowed_quiet. stored w1. etrans; [eassumption|]. etrans; [|apply reply_quiet].
  etrans; [|apply on_hub_quiet; intros; apply publish_same]. apply on_hub_quiet. intros. apply deliver_same.
Qed.
Lemma signal_healthy s id payload (w : W) :
  healthy w → healthy (handle_signal g encode_frame session_token_digest authorize s id payload w).2.
Proof using Type.
  intros Hok. unfold handle_signal. after_session w Hok.
  apply with_allowed_quiet. destruct (_ && _); [apply reply_quiet|].
  stored w1. etrans; [eassumption|]. etrans; [|apply reply_quiet]. apply on_hub_quiet. intros. apply (signal_within same_roster).
Qed.
Lemma call_healthy s id payload (w : W) :
  healthy w → healthy (handle_call_command encode_frame session_token_digest authorize s id payload w).2.
Proof using Type.
  intros Hok. unfold handle_call_command. after_session w Hok.
  destruct (dispatch_call_command _ _ _ _) as [[result|e] calls].
  - simpl. etrans; [|apply reply_quiet]. by destruct (cres_op result), (cres_room result), (cres_invites result).
  - destruct (call_error_to_nack e) as [code reason]. simpl. by etrans; [|apply reply_quiet].
Qed.

Lemma dispatch_healthy s id frame (w : W) :
  healthy w → healthy (dispatch g encode_frame encode_value_len session_token_digest authorize s id frame w).2.
Proof using ws_cap.
  intros Hok. unfold dispatch. destruct (_ && _); [eapply quiet_healthy; [apply reply_quiet | done]|].
  destruct frame; try done; try (by eapply quiet_healthy; [apply reply_quiet|]);
    auto using hello_healthy, subscribe_healthy, append_healthy, upsert_healthy, presence_set_healthy,
      presence_clear_healthy, signal_healthy, call_healthy.
Qed.
Lemma message_healthy s id payload (w : W) : healthy w → healthy (on_message s id payload w).
Proof using ws_cap.
  intros Hok. unfold on_message, handle_raw_frame.
  destruct (_ && _).
  { simpl. apply unregister_ok; [done|]. eapply hub_ok_same; [apply nack_close_same | exact Hok]. }
  destruct (decode_frame payload) as [frame|e]; [|simpl; eapply quiet_healthy; [apply reply_quiet | done]].
  pose proof (dispatch_healthy s id frame w Hok) as Hok1.
  destruct (dispatch _ _ _ _ _ s id frame w) as [[] w1]; simpl in *; [by apply unregister_ok | done].
Qed.

Lemma upgrade_healthy now headers (w : W) : healthy w → healthy (upgrade now headers w).2.
Proof using ws_cap.
  intros Hok. unfold GatewayFrames.upgrade. destruct (bearer_token headers) as [token|].
  - pose proof (resolve_session_hub token now w) as Hh. destruct (resolve_session _ _ token now w) as [r w1]. simpl in Hh.
    pose proof (connect_ok (g_limits g) ws_cap encode_frame (ok r) (Some token) (w_hub w1)) as Hc. rewrite Hh in *.
    destruct (connect _ _ _ _ (w_hub w)) as [x h]. by apply Hc.
  - pose proof (connect_ok (g_limits g) ws_cap encode_frame None None (w_hub w) Hok) as Hc.
    by destruct (connect _ _ _ _ (w_hub w)) as [x h].
Qed.
Lemma step_healthy (w w' : W) : gateway_step w w' → healthy w → healthy w'.
Proof using ws_cap.
  intros Hstep Hok. destruct Hstep.
  - by apply upgrade_healthy.
  - by apply message_healthy.
  - unfold on_heartbeat. destruct (_ <? _); [by apply unregister_ok | eapply quiet_healthy; [apply reply_quiet | done]].
  - by apply unregister_ok.
  - eapply hub_ok_same; [by apply update_same | exact Hok].
  - eapply quiet_healthy; [apply run_store_quiet | done].
  - unfold run_task. destruct (w_tasks w !! n); [|done]. eapply hub_ok_same; [apply deliver_same | exact Hok].
  - unfold on_envelope.
    pose proof (envelope_within same_roster (g_schema g) (g_mode g) (g_hooks g) encode_frame now envelope (w_hub w)) as Hs.
    destruct (handle_cluster_envelope _ _ _ _ _ _ _) as [h ds]. eapply hub_ok_same; [exact Hs | exact Hok].
  - eapply hub_ok_same; [apply close_session_same | exact Hok].
  - eapply hub_ok_same; [|exact Hok]. etrans; [apply (signal_within same_roster) | apply publish_same].
  - unfold fan_out_object_visibility_revoked. destruct (ObjectStore.read _ _ _ _ _ _ _) as [[object|]|]; try done.
    destruct (removal_frame _ _ _ _ _); [|done]. eapply hub_ok_same; [apply deliver_same | exact Hok].
  - by apply set_cluster_bus_ok.
  - match goal with He : w_hub w' = w_hub w |- _ => unfold healthy; by rewrite He end.
Qed.
Lemma steps_healthy (w w' : W) : rtc gateway_step w w' → healthy w → healthy w'.
Proof using ws_cap. induction 1; intros Hok; [done|]. eauto using step_healthy. Qed.
End Steps.

Lemma empty_hub_ok limits : 0 ≤ max_web_socket_connections limits → hub_ok limits empty_hub.
Proof. intros Hc. split; simpl; try done. intros k.
  change (0 ≤ 0 ≤ Z.max 0 (max_connections_per_principal limits)). lia.
Qed.


Import ToyCrypto ToyPacked.

(** The steps of the sample client. *)
Module SampleSteps.
Import SampleGateway SampleAuthz.
Definition step := gateway_step (H := nat) config SampleFanout.encode SampleGateway.decode len digest authorize.
Lemma run : rtc step world appended.
Proof.
  eapply rtc_l; [apply gs_upgrade|]. eapply rtc_l; [apply (gs_message _ _ _ _ _ _ (seams 101) 1 [1])|].
  eapply rtc_l; [apply (gs_message _ _ _ _ _ _ (seams 102) 1 [2])|].
  apply rtc_once. apply (gs_message _ _ _ _ _ _ (seams 103) 1 [3]).
Qed.
End SampleSteps.

