(* ===== verification/GatewayBudgets.v ===== *)
(** * The budgets of a connection

    What a connection may hold at the gateway: subscriptions with distinct ids
    within the cap, and pending writes, which every frame gives back. *)

From Stdlib Require Import ZArith Lia Ascii String.
From stdpp Require Import base gmap strings list relations.
From S2P Require Import Prelude Value Errors Schema Codec Handshake StoreBase Encryption ObjectStore StreamStore Authz ServerErrors Sessions MediaPlane Calls Frames Apps Facade Projections Cluster Gateway GatewayHub GatewayFanout GatewayFrames GatewayInvariants Samples.

(** Every connection of the second hub is one of the first, with its
    subscriptions and pending writes. *)
Definition carries (h h' : Hub) : Prop :=
  ∀ i c', h_connections h' !! i = Some c' →
    ∃ c, h_connections h !! i = Some c ∧ c_subscriptions c' = c_subscriptions c
         ∧ c_pending_writes c' = c_pending_writes c.
#[export] Instance carries_preorder : PreOrder carries.
Proof.
  split; [by intros h i c Hc; exists c|]. intros h1 h2 h3 H12 H23 i c3 Hc3.
  destruct (H23 i c3 Hc3) as (c2 & Hc2 & -> & ->). destruct (H12 i c2 Hc2) as (c1 & Hc1 & -> & ->). by exists c1.
Qed.
Lemma update_carries id f h :
  (∀ c, c_subscriptions (f c) = c_subscriptions c ∧ c_pending_writes (f c) = c_pending_writes c) →
  carries h (update id f h).
Proof.
  intros Hf i c'. unfold update. destruct (h_connections h !! id) as [c|] eqn:Hc; [|by exists c']. simpl.
  destruct (decide (id = i)) as [<-|Hne].
  - rewrite lookup_insert_eq. intros [= <-]. exists c. by destruct (Hf c).
  - rewrite lookup_insert_ne by done. by exists c'.
Qed.
#[export] Instance carries_sends : SendsWithin carries.
Proof.
  split; [apply _ | | | |].
  - intros who h i c'. rewrite deliver_lookup. destruct (h_connections h !! i) as [c|]; [|done]. intros [= <-].
    exists c. pose proof (proj2 (send_all_spec (who i c) c)) as He. unfold profile in He. by injection He.
  - intros mk h i c' Hc. exists c'. unfold publish in Hc. by destruct (h_cluster_bus h).
  - intros encode id frame h. unfold send_frame. destruct (encode frame); [by apply update_carries | done].
  - intros. by apply update_carries.
Qed.
Lemma same_connections_carries h h' : h_connections h' = h_connections h → carries h h'.
Proof. intros He i c Hc. rewrite He in Hc. by exists c. Qed.
Lemma with_counts_carries pp tc h : carries h (with_counts pp tc h).
Proof. by apply same_connections_carries. Qed.
Lemma lifecycle_carries b h : carries h (lifecycle b h).
Proof. by apply same_connections_carries. Qed.
Lemma push_if_connections b h : h_connections (push_if b h) = h_connections h.
Proof. destruct b; [|done]. simpl. unfold push_subscribed_tenants. by destruct (h_cluster_bus h). Qed.
Lemma unregister_carries id h : carries h (unregister id h).
Proof.
  unfold unregister, unregister_locked. destruct (h_connections h !! id) as [c|] eqn:Hc.
  2: { by apply same_connections_carries. }
  assert (∀ h', h_connections h' = base.delete id (h_connections h) → ∀ b, carries h (lifecycle false (push_if b h'))) as Hd.
  { intros h' He b i c' Hc'. exists c'. simpl in Hc'. rewrite push_if_connections, He in Hc'.
    apply lookup_delete_Some in Hc' as [_ Hc']. done. }
  destruct (c_principal c); [destruct (bump_tenant_count _ _ _)|]; by apply Hd.
Qed.
Lemma apply_transitions_connections l : ∀ h, h_connections (apply_transitions h l).2 = h_connections h.
Proof.
  induction l as [|[t d] l IH]; intros h; [done|]. cbn [apply_transitions].
  destruct (bump_tenant_count _ _ _) as [tr tc].
  specialize (IH (with_counts (h_per_principal h) tc h)). destruct (apply_transitions _ l). done.
Qed.
Lemma hello_attach_carries id authed token app h : carries h (hello_attach id authed token app h).
Proof.
  assert (∀ l h', carries h h' → carries h (apply_tenant_transitions l h')) as Ht.
  { intros l h' Hc. etrans; [exact Hc|]. apply same_connections_carries. unfold apply_tenant_transitions.
    destruct l as [|x l]; [done|]. pose proof (apply_transitions_connections (x :: l) h') as He.
    destruct (apply_transitions h' (x :: l)) as [tr h2]. simpl in *. by rewrite push_if_connections. }
  unfold hello_attach, hello_locked. destruct (h_connections h !! id) as [c|]; [|by apply Ht].
  destruct authed; apply Ht; by apply update_carries.
Qed.
Lemma reserve_hello_carries limits id p h : carries h (reserve_hello_principal limits id p h).2.
Proof.
  unfold reserve_hello_principal. destruct (bool_decide _); [done|]. destruct (_ <=? _); [done|]. by apply same_connections_carries.
Qed.
Lemma try_consume_carries limits key now h : carries h (try_consume_write_token limits key now h).2.
Proof.
  unfold try_consume_write_token. destruct (_ <=? _); [done|]. destruct (Bucket.try_consume _ _ _ _).
  by apply same_connections_carries.
Qed.
Lemma close_session_carries target h : carries h (close_session target h).2.
Proof.
  intros i c'. simpl. rewrite lookup_fmap. destruct (h_connections h !! i) as [c|]; [|done]. intros [= <-].
  exists c. by destruct (connection_matches_target c target).
Qed.

(** ** The invariant *)

(** Distinct subscription ids within the cap, and so many pending writes. *)
Definition tidy (limits : FrickLimits) (pending : Z → Z) (h : Hub) : Prop :=
  ∀ i c, h_connections h !! i = Some c →
    NoDup (sk_subscription_id <$> c_subscriptions c)
    ∧ Z.of_nat (length (c_subscriptions c)) ≤ Z.max 0 (max_subscriptions_per_connection limits)
    ∧ c_pending_writes c = pending i.
Definition idle (_ : Z) : Z := 0.
Definition writing (id i : Z) : Z := if i =? id then 1 else 0.

Section Tidy.
Context (limits : FrickLimits).

Lemma carries_tidy pending h h' : carries h h' → tidy limits pending h → tidy limits pending h'.
Proof using Type. intros Hc Ht i c' Hi. destruct (Hc i c' Hi) as (c & Hi' & -> & ->). by apply Ht. Qed.
Lemma without_ids sid subs :
  sk_subscription_id <$> without_subscription sid subs
  = List.filter (λ x, negb (String.eqb x sid)) (sk_subscription_id <$> subs).
Proof.
  unfold without_subscription. induction subs as [|s subs IH]; simpl; [done|].
  destruct (negb _); [rewrite fmap_cons; by f_equal | exact IH].
Qed.
Lemma without_spec sid subs :
  NoDup (sk_subscription_id <$> subs) →
  NoDup (sk_subscription_id <$> without_subscription sid subs)
  ∧ sid ∉ sk_subscription_id <$> without_subscription sid subs
  ∧ (length (without_subscription sid subs)
     + (if existsb (λ s, String.eqb (sk_subscription_id s) sid) subs then 1 else 0) ≤ length subs)%nat.
Proof.
  intros Hnd. rewrite without_ids. split_and!.
  - apply NoDup_ListNoDup, List.NoDup_filter. by apply NoDup_ListNoDup.
  - rewrite list_elem_of_In, filter_In, String.eqb_refl. by intros [_ ?].
  - clear Hnd. unfold without_subscription. induction subs as [|s subs IH]; simpl; [lia|].
    destruct (String.eqb (sk_subscription_id s) sid); simpl; [|lia].
    destruct (existsb _ subs); lia.
Qed.
Lemma update_tidy pending pending' id f h :
  (∀ i, i ≠ id → pending' i = pending i) →
  (∀ c, h_connections h !! id = Some c → tidy limits pending h →
     NoDup (sk_subscription_id <$> c_subscriptions (f c))
     ∧ Z.of_nat (length (c_subscriptions (f c))) ≤ Z.max 0 (max_subscriptions_per_connection limits)
     ∧ c_pending_writes (f c) = pending' id) →
  tidy limits pending h → tidy limits pending' (update id f h).
Proof using Type.
  intros Hp Hf Ht i c'. unfold update. destruct (h_connections h !! id) as [c|] eqn:Hc.
  - simpl. destruct (decide (id = i)) as [<-|Hne].
    + rewrite lookup_insert_eq. intros [= <-]. by apply Hf.
    + rewrite lookup_insert_ne by done. intros Hi. rewrite Hp by done. by apply Ht.
  - intros Hi. destruct (decide (i = id)) as [->|Hne]; [by rewrite Hc in Hi|]. rewrite Hp by done. by apply Ht.
Qed.
Lemma remove_subscription_tidy pending id sid h :
  tidy limits pending h → tidy limits pending (remove_subscription id sid h).
Proof using Type.
  apply update_tidy; [done|]. intros c Hc Ht. destruct (Ht id c Hc) as (Hn & Hl & Hp). simpl.
  destruct (without_spec sid _ Hn) as (Hn' & _ & Hl'). split_and!; [done | lia | done].
Qed.
Lemma add_subscription_tidy pending id sub already count app h :
  subscription_count h id (sk_subscription_id sub) = (already, count, app) →
  negb already && (max_subscriptions_per_connection limits <=? count) = false →
  tidy limits pending h → tidy limits pending (add_subscription id sub h).
Proof using Type.
  intros Hcount Hcap. apply update_tidy; [done|]. intros c Hc Ht. destruct (Ht id c Hc) as (Hn & Hl & Hp). simpl.
  unfold subscription_count in Hcount. rewrite Hc in Hcount. injection Hcount as <- <- <-.
  destruct (without_spec (sk_subscription_id sub) _ Hn) as (Hn' & Hx & Hl').
  rewrite fmap_app, length_app. simpl. split_and!; [|destruct (existsb _ _); simpl in *; lia | done].
  apply NoDup_app. split_and!; [done | set_solver | apply NoDup_singleton].
Qed.
Lemma reserve_pending_tidy id h h' :
  tidy limits idle h → try_reserve_pending_write limits id h = (true, h') → tidy limits (writing id) h'.
Proof using Type.
  intros Ht. unfold try_reserve_pending_write. destruct (h_connections h !! id) as [c|] eqn:Hc; [|done].
  destruct (_ <=? _); [done|]. intros [= <-]. revert Ht. apply update_tidy.
  - intros i Hne. unfold writing. by destruct (Z.eqb_spec i id).
  - intros c' Hc' Ht. rewrite Hc in Hc'. injection Hc' as <-. destruct (Ht id c Hc) as (Hn & Hl & Hp). simpl.
    split_and!; try done. rewrite Hp. unfold writing. by rewrite Z.eqb_refl.
Qed.
Lemma release_pending_tidy id h : tidy limits (writing id) h → tidy limits idle (release_pending_write id h).
Proof using Type.
  apply update_tidy.
  - intros i Hne. unfold writing. by destruct (Z.eqb_spec i id).
  - intros c Hc Ht. destruct (Ht id c Hc) as (Hn & Hl & Hp). simpl. split_and!; try done. rewrite Hp. unfold writing.
    by rewrite Z.eqb_refl.
Qed.
(** With a positive cap an idle connection always gets its slot. *)
Lemma reserve_pending_idle id h c :
  0 < max_pending_appends_per_client limits → tidy limits idle h → h_connections h !! id = Some c →
  (try_reserve_pending_write limits id h).1 = true.
Proof using Type.
  intros Hcap Ht Hc. destruct (Ht id c Hc) as (_ & _ & Hp). unfold try_reserve_pending_write. rewrite Hc, Hp.
  unfold idle. destruct (Z.leb_spec (max_pending_appends_per_client limits) 0); [lia | done].
Qed.
Lemma register_tidy principal bearer h :
  tidy limits idle h →
  tidy limits idle (register {| c_principal := principal; c_session_token := bearer; c_app_id := Apps.DEFAULT_APP_ID;
    c_handshake_complete := false; c_subscriptions := []; c_pending_writes := 0; c_outbound := [];
    c_writer_open := true |} h).2.
Proof using Type.
  intros Ht i c. unfold register, register_locked. simpl.
  destruct (match principal with Some _ => _ | None => _ end) as [tr h2] eqn:He.
  assert (h_connections h2 = h_connections h) as Hh.
  { destruct principal as [p|]; by injection He as <- <-. }
  simpl. rewrite push_if_connections. simpl. rewrite Hh. destruct (decide (h_next_id h = i)) as [<-|Hne].
  - rewrite lookup_insert_eq. intros [= <-]. simpl. split_and!; [apply NoDup_nil_2 | lia | done].
  - rewrite lookup_insert_ne by done. apply Ht.
Qed.
End Tidy.

(** ** Frames *)

Section Frames.
Context {SearchOp Media H : Type}.
Context `{PackedColumn PackedRecord, PackedColumn PackedStreamEvent, PackedColumn Value, Crypto, !MediaPlane Media}.
Context (g : GatewayConfig SearchOp).
Context (encode_frame : FrickFrame → result ProtocolError blob) (decode_frame : blob → result ProtocolError FrickFrame).
Context (encode_value_len : Value → Z) (session_token_digest : string → string).
Context (authorize : AuthState → string → Principal → Z → result ServerError unit).
Local Abbreviation W := (World SearchOp Media H).
Definition neat (pending : Z → Z) (w : W) : Prop := tidy (g_limits g) pending (w_hub w).
Local Abbreviation calm := (within carries).
#[local] Existing Instance within_preorder.

Lemma calm_neat pending (w w' : W) : calm w w' → neat pending w → neat pending w'.
Proof. apply carries_tidy. Qed.
Lemma reply_calm id frame (w : W) : calm w (reply encode_frame id frame w).
Proof using Type. apply (reply_within encode_frame carries). Qed.
Lemma run_store_calm {A} now (op : M (FrickStore SearchOp) StoreError A) (w : W) :
  calm w (run_store g encode_frame now op w).2.
Proof using Type. apply (run_store_within g encode_frame carries). Qed.
Lemma nack_close_calm id frame code message (w w1 : W) :
  w_hub w1 = w_hub w → calm w (on_hub (send_close id code message) (on_hub (send_frame encode_frame id frame) w1)).
Proof using Type. intros He. unfold within. simpl. rewrite He. etrans; [apply sw_frame | apply sw_close]. Qed.
Lemma on_hub_calm f (w : W) : (∀ h, carries h (f h)) → calm w (on_hub f w).
Proof. intros Hf. apply Hf. Qed.

Lemma active_principal_calm now id rid (w : W) :
  calm w (active_principal_for_frame encode_frame session_token_digest authorize now id rid w).2.
Proof using Type.
  unfold active_principal_for_frame. destruct (h_connections (w_hub w) !! id) as [c|] eqn:Hc; [|reflexivity].
  destruct (c_principal c) as [p|] eqn:Hp; [|apply on_hub_calm; intros; apply sw_frame].
  destruct (c_session_token c) as [token|].
  2: { destruct (negb _); [by apply nack_close_calm | reflexivity]. }
  pose proof (resolve_session_hub session_token_digest authorize token now w) as Hh.
  destruct (resolve_session _ _ token now w) as [[active|e] w1]; cbn [fst snd] in *.
  - destruct (negb _); [by apply nack_close_calm|]. unfold within. simpl. rewrite Hh. by apply update_carries.
  - by apply nack_close_calm.
Qed.
Lemma hello_calm now id payload (w : W) :
  calm w (handle_hello g encode_frame session_token_digest authorize now id payload w).2.
Proof using Type.
  assert (∀ authed (w1 : W), calm w1 (hello_after_auth g encode_frame id payload authed w1).2) as Hafter.
  { intros authed w1. unfold hello_after_auth.
    destruct (match _ with Some _ => _ | None => _ end); [apply reply_calm|].
    destruct (hello_compatibility _ _) as [compat|[[code m] d]]; [|apply reply_calm].
    etrans; [|apply reply_calm]. etrans; [|apply reply_calm]. apply hello_attach_carries. }
  unfold handle_hello. destruct (hp_session_token payload) as [token|]; [|apply Hafter].
  pose proof (resolve_session_hub session_token_digest authorize token now w) as Hh.
  destruct (resolve_session _ _ token now w) as [[p|e] w1]; cbn [fst snd] in *.
  2: { by apply nack_close_calm. }
  destruct (match connection_principal _ _ with Some _ => _ | None => _ end).
  { by apply nack_close_calm. }
  pose proof (reserve_hello_carries (g_limits g) id p (w_hub w1)) as Hr. rewrite Hh in Hr |- *.
  destruct (reserve_hello_principal _ id p (w_hub w)) as [taken h]. cbn [fst snd] in *.
  assert (calm w (with_hub h w1)) as Hc by done.
  destruct taken; cbn [negb fst snd]; (etrans; [exact Hc|]); [apply Hafter | by apply nack_close_calm].
Qed.
Lemma subscribe_neat now id payload (w : W) :
  neat idle w → neat idle (handle_subscribe g encode_frame session_token_digest authorize now id payload w).2.
Proof using Type.
  intros Ht. unfold handle_subscribe, subscribe_register.
  destruct (subscription_count _ _ _) as [[already count] app] eqn:Hcount.
  destruct (negb already && _) eqn:Hcap; [eapply calm_neat; [apply reply_calm | done]|].
  destruct (bool_decide _ && _); [eapply calm_neat; [apply reply_calm | done]|].
  destruct (match connection_principal _ _ with Some _ => _ | None => _ end) as [[r m]|].
  { eapply calm_neat; [|exact Ht]. apply on_hub_calm. intros. apply sw_frame. }
  cbn [fst snd]. set (w0 := on_hub _ w).
  assert (neat idle w0) as Ht0.
  { unfold w0, neat. simpl. by eapply add_subscription_tidy. }
  unfold subscribe_finish. pose proof (active_principal_calm now id (sp_subscription_id payload) w0) as Hq.
  destruct (active_principal_for_frame _ _ _ _ _ _ w0) as [[p|] w1]; cbn [fst snd] in *;
    assert (neat idle w1) as Ht1 by (by eapply calm_neat); [|by apply remove_subscription_tidy].
  destruct (if bool_decide _ then _ else _); cbn [fst snd].
  2: { eapply calm_neat; [apply on_hub_calm; intros; apply sw_frame|]. by apply remove_subscription_tidy. }
  unfold subscribe_snapshot. destruct (sp_kind payload); try done; try (by eapply calm_neat; [apply reply_calm|]).
  destruct (sp_key payload); (eapply calm_neat; [apply reply_calm|]); [done | by apply remove_subscription_tidy].
Qed.
Lemma append_neat s id payload (w : W) :
  neat idle w →
  neat idle (handle_append g encode_frame encode_value_len session_token_digest authorize s id payload w).2.
Proof using Type.
  intros Ht. unfold handle_append. pose proof (active_principal_calm (now_ms s) id (ap_request_id payload) w) as Hq.
  destruct (active_principal_for_frame _ _ _ _ _ _ w) as [[p|] w1]; cbn [fst snd] in *; [|by eapply calm_neat].
  assert (neat idle w1) as Ht1 by by eapply calm_neat.
  pose proof (try_consume_carries (g_limits g) (connection_key p) (now_ns s) (w_hub w1)) as Hc.
  destruct (try_consume_write_token _ _ _ _) as [allowed h]. cbn [fst snd] in *.
  assert (tidy (g_limits g) idle h) as Ht2 by by eapply carries_tidy.
  destruct allowed; cbn [negb fst snd]; [|by eapply calm_neat; [apply reply_calm|]].
  destruct (try_reserve_pending_write _ _ _) as [got h1] eqn:Hr. simpl in Hr. destruct got; cbn [negb fst snd].
  2: { eapply calm_neat; [apply reply_calm|]. unfold neat. simpl. revert Hr. unfold try_reserve_pending_write.
       destruct (h_connections h !! id); [destruct (_ <=? _)|]; intros [= <-]; done. }
  assert (neat (writing id) (with_hub h1 (with_hub h w1))) as Ht3 by (unfold neat; simpl; by eapply reserve_pending_tidy).
  unfold append_reserved. destruct (_ && _).
  { eapply calm_neat; [apply reply_calm|]. by apply release_pending_tidy. }
  destruct (apply_policy_hooks _ _ _).
  2: { eapply calm_neat; [apply on_hub_calm; intros; apply sw_frame|]. by apply release_pending_tidy. }
  match goal with |- context [run_store g encode_frame ?now ?op ?w0] => pose proof (run_store_calm now op w0) as Hs;
    destruct (run_store g encode_frame now op w0) as [r w2] end. cbn [fst snd] in Hs.
  destruct r; (eapply calm_neat; [apply reply_calm|]); apply release_pending_tidy; by eapply carries_tidy.
Qed.
Lemma upsert_neat s id payload (w : W) :
  neat idle w → neat idle (handle_object_upsert g encode_frame session_token_digest authorize s id payload w).2.
Proof using Type.
  intros Ht. unfold handle_object_upsert. pose proof (active_principal_calm (now_ms s) id (ou_request_id payload) w) as Hq.
  destruct (active_principal_for_frame _ _ _ _ _ _ w) as [[p|] w1]; cbn [fst snd] in *; [|by eapply calm_neat].
  assert (neat idle w1) as Ht1 by by eapply calm_neat.
  destruct (try_reserve_pending_write _ _ _) as [got h1] eqn:Hr. destruct got; cbn [negb fst snd].
  2: { eapply calm_neat; [apply reply_calm|]. unfold neat. simpl. revert Hr. unfold try_reserve_pending_write.
       destruct (h_connections (w_hub w1) !! id); [destruct (_ <=? _)|]; intros [= <-]; done. }
  assert (neat (writing id) (with_hub h1 w1)) as Ht3 by (unfold neat; simpl; by eapply reserve_pending_tidy).
  unfold upsert_reserved. destruct (relax_object_write_with_grants _ _ _ _ _).
  2: { eapply calm_neat; [apply on_hub_calm; intros; apply sw_frame|]. by apply release_pending_tidy. }
  match goal with |- context [run_store g encode_frame ?now ?op ?w0] => pose proof (run_store_calm now op w0) as Hs;
    destruct (run_store g encode_frame now op w0) as [r w2] end. cbn [fst snd] in Hs.
  destruct r as [|[]]; (eapply calm_neat; [apply reply_calm|]); apply release_pending_tidy; by eapply carries_tidy.
Qed.
Ltac calm_frame w :=
  match goal with
  | |- context [active_principal_for_frame ?e ?d ?a ?now ?id ?rid w] =>
      let Hq := fresh "Hq" in
      pose proof (active_principal_calm now id rid w) as Hq;
      destruct (active_principal_for_frame e d a now id rid w) as [[p|] w1]; cbn [fst snd] in Hq |- *;
      [etrans; [exact Hq|] | exact Hq]
  end.
Ltac calm_store w1 :=
  cbv beta zeta;
  match goal with
  | |- context [run_store g encode_frame ?now ?op w1] =>
      let Hs := fresh "Hs" in
      pose proof (run_store_calm now op w1) as Hs; destruct (run_store g encode_frame now op w1) as [? w2];
      cbn [fst snd] in Hs |- *; etrans; [exact Hs|]
  end.
Lemma with_allowed_calm id rid action p k (w : W) : calm w (k w) → calm w (with_allowed encode_frame id rid action p k w).
Proof using Type.
  intros Hk. unfold with_allowed. destruct (decide_baseline _ _ _); [done|]. apply on_hub_calm. intros. apply sw_frame.
Qed.
Lemma presence_set_calm s id payload (w : W) :
  calm w (handle_presence_set g encode_frame session_token_digest authorize s id payload w).2.
Proof using Type.
  unfold handle_presence_set. calm_frame w. apply with_allowed_calm. calm_store w1. etrans; [|apply reply_calm].
  etrans; [|apply on_hub_calm; intros; apply sw_publish]. apply on_hub_calm. intros. apply sw_deliver.
Qed.
Lemma presence_clear_calm s id payload (w : W) :
  calm w (handle_presence_clear g encode_frame session_token_digest authorize s id payload w).2.
Proof using Type.
  unfold handle_presence_clear. calm_frame w. apply with_allowed_calm. calm_store w1. etrans; [|apply reply_calm].
  etrans; [|apply on_hub_calm; intros; apply sw_publish]. apply on_hub_calm. intros. apply sw_deliver.
Qed.
Lemma signal_calm s id payload (w : W) :
  calm w (handle_signal g encode_frame session_token_digest authorize s id payload w).2.
Proof using Type.
  unfold handle_signal. calm_frame w. apply with_allowed_calm. destruct (_ && _); [apply reply_calm|].
  calm_store w1. etrans; [|apply reply_calm]. apply on_hub_calm. intros. apply (signal_within carries).
Qed.
Lemma call_calm s id payload (w : W) :
  calm w (handle_call_command encode_frame session_token_digest authorize s id payload w).2.
Proof using Type.
  unfold handle_call_command. calm_frame w. destruct (dispatch_call_command _ _ _ _) as [[result|e] calls].
  - cbn [fst snd]. etrans; [|apply reply_calm]. unfold within.
    by destruct (cres_op result), (cres_room result), (cres_invites result).
  - destruct (call_error_to_nack e) as [code reason]. cbn [fst snd]. etrans; [|apply reply_calm]. by unfold within.
Qed.

Lemma message_neat s id payload (w : W) :
  neat idle w →
  neat idle (on_message g encode_frame decode_frame encode_value_len session_token_digest authorize s id payload w).
Proof using Type.
  intros Ht. unfold on_message, handle_raw_frame.
  destruct (_ && _).
  { cbv beta iota zeta. eapply carries_tidy; [apply unregister_carries|].
    eapply calm_neat; [by apply nack_close_calm | exact Ht]. }
  destruct (decode_frame payload) as [frame|e]; [|cbv beta iota zeta; eapply calm_neat; [apply reply_calm | done]].
  assert (neat idle (dispatch g encode_frame encode_value_len session_token_digest authorize s id frame w).2) as Hd.
  { unfold dispatch. destruct (_ && _); [eapply calm_neat; [apply reply_calm | done]|].
    destruct frame; try done; try (by eapply calm_neat; [apply reply_calm|]);
      first [by apply subscribe_neat | by apply append_neat | by apply upsert_neat
            | eapply calm_neat; [first [apply hello_calm | apply presence_set_calm | apply presence_clear_calm
                                       | apply signal_calm | apply call_calm] | done]]. }
  destruct (dispatch _ _ _ _ _ s id frame w) as [[] w1]; cbn [fst snd] in *; [|done].
  eapply carries_tidy; [apply unregister_carries | done].
Qed.
Lemma step_neat (w w' : W) :
  gateway_step g encode_frame decode_frame encode_value_len session_token_digest authorize w w' →
  neat idle w → neat idle w'.
Proof using Type.
  intros Hstep Ht. destruct Hstep.
  - unfold upgrade, connect. destruct (match bearer_token headers with Some _ => _ | None => _ end) as [principal w1] eqn:Hr.
    assert (w_hub w1 = w_hub w) as Hh.
    { destruct (bearer_token headers) as [token|]; [|by injection Hr as <- <-].
      pose proof (resolve_session_hub session_token_digest authorize token now w) as Hh.
      destruct (resolve_session _ _ token now w). by injection Hr as <- <-. }
    rewrite Hh. destruct (_ && _); [done|]. destruct (match principal with Some _ => _ | None => _ end); [done|].
    pose proof (register_tidy (g_limits g) principal (bearer_token headers) (w_hub w) Ht) as Hreg.
    by destruct (register _ (w_hub w)) as [id h].
  - by apply message_neat.
  - unfold on_heartbeat. destruct (_ <? _); [eapply carries_tidy; [apply unregister_carries | done]|].
    eapply calm_neat; [apply reply_calm | done].
  - eapply carries_tidy; [apply unregister_carries | done].
  - eapply carries_tidy; [by apply update_carries | done].
  - eapply calm_neat; [apply run_store_calm | done].
  - unfold run_task. destruct (w_tasks w !! n); [|done]. eapply carries_tidy; [apply sw_deliver | exact Ht].
  - unfold on_envelope.
    pose proof (envelope_within carries (g_schema g) (g_mode g) (g_hooks g) encode_frame now envelope (w_hub w)) as Hs.
    destruct (handle_cluster_envelope _ _ _ _ _ _ _) as [h ds]. eapply carries_tidy; [exact Hs | exact Ht].
  - eapply carries_tidy; [apply close_session_carries | exact Ht].
  - eapply carries_tidy; [|exact Ht]. etrans; [apply (signal_within carries) | apply sw_publish].
  - unfold fan_out_object_visibility_revoked. destruct (ObjectStore.read _ _ _ _ _ _ _) as [[object|]|]; try done.
    destruct (removal_frame _ _ _ _ _); [|done]. eapply carries_tidy; [apply sw_deliver | exact Ht].
  - eapply carries_tidy; [by apply same_connections_carries | exact Ht].
  - match goal with He : w_hub w' = w_hub w |- _ => unfold neat; by rewrite He end.
Qed.
Lemma steps_neat (w w' : W) :
  rtc (gateway_step g encode_frame decode_frame encode_value_len session_token_digest authorize) w w' →
  neat idle w → neat idle w'.
Proof using Type. induction 1; intros Ht; [done|]. eauto using step_neat. Qed.
End Frames.

(** ** What holds between frames *)

(** C27: In every state a node reaches, the subscriptions of a connection have
    distinct ids and are within the configured number. *)
Theorem subscriptions_well_formed {SearchOp Media H} `{PackedColumn PackedRecord, PackedColumn PackedStreamEvent,
    PackedColumn Value, Crypto, !MediaPlane Media} (g : GatewayConfig SearchOp) encode_frame decode_frame
    encode_value_len digest authorize (w w' : World SearchOp Media H) id c :
  w_hub w = empty_hub →
  rtc (gateway_step g encode_frame decode_frame encode_value_len digest authorize) w w' →
  h_connections (w_hub w') !! id = Some c →
  NoDup (sk_subscription_id <$> c_subscriptions c)
  ∧ Z.of_nat (length (c_subscriptions c)) ≤ Z.max 0 (max_subscriptions_per_connection (g_limits g)).
Proof.
  intros Hinit Hrun Hc. assert (neat g idle w) as Ht by (unfold neat; rewrite Hinit; by intros i c').
  destruct (steps_neat _ _ _ _ _ _ _ _ Hrun Ht id c Hc) as (Hn & Hl & _). done.
Qed.

(** Frames of a connection are handled one after the other and each gives its
    pending write back, so between frames none is pending and, for any positive
    limit, the next write gets its slot: the limit on pending writes of a client
    is never what refuses one. *)
Theorem pending_limit_never_reached {SearchOp Media H} `{PackedColumn PackedRecord, PackedColumn PackedStreamEvent,
    PackedColumn Value, Crypto, !MediaPlane Media} (g : GatewayConfig SearchOp) encode_frame decode_frame
    encode_value_len digest authorize (w w' : World SearchOp Media H) id c :
  0 < max_pending_appends_per_client (g_limits g) → w_hub w = empty_hub →
  rtc (gateway_step g encode_frame decode_frame encode_value_len digest authorize) w w' →
  h_connections (w_hub w') !! id = Some c →
  c_pending_writes c = 0 ∧ (try_reserve_pending_write (g_limits g) id (w_hub w')).1 = true.
Proof.
  intros Hcap Hinit Hrun Hc. assert (neat g idle w) as Ht by (unfold neat; rewrite Hinit; by intros i c').
  pose proof (steps_neat _ _ _ _ _ _ _ _ Hrun Ht) as Ht'. split; [by apply (Ht' id c)|].
  by eapply reserve_pending_idle.
Qed.

Import ToyCrypto ToyPacked.

Lemma subscriptions_well_formed_witness :
  ∃ c, h_connections (w_hub SampleGateway.appended) !! 1 = Some c ∧ length (c_subscriptions c) = 1%nat
       ∧ NoDup (sk_subscription_id <$> c_subscriptions c).
Proof.
  destruct (h_connections (w_hub SampleGateway.appended) !! 1) as [c|] eqn:Hc; [|vm_compute in Hc; discriminate Hc].
  exists c. split; [reflexivity|].
  destruct (subscriptions_well_formed _ _ _ _ _ _ SampleGateway.world _ 1 c eq_refl SampleSteps.run Hc) as [Hn _]. split; [|exact Hn].
  vm_compute in Hc. injection Hc as <-. reflexivity.
Defined.
Lemma pending_limit_never_reached_witness :
  (try_reserve_pending_write SampleGateway.limits 1 (w_hub SampleGateway.appended)).1 = true.
Proof.
  destruct (h_connections (w_hub SampleGateway.appended) !! 1) as [c|] eqn:Hc; [|vm_compute in Hc; discriminate Hc].
  refine (proj2 (pending_limit_never_reached _ _ _ _ _ _ SampleGateway.world _ 1 c _ eq_refl SampleSteps.run Hc)). reflexivity.
Defined.
