(* ===== verification/GatewaySafety.v ===== *)
(** * Before and after a session at the gateway

    What the frames of a connection can do before its Hello has succeeded and
    after its session has ended, and what a refused Hello leaves behind. *)

From Stdlib Require Import ZArith Lia Ascii String.
From stdpp Require Import base gmap strings list relations.
From S2P Require Import Prelude Value Errors Schema Codec Handshake StoreBase Encryption ObjectStore StreamStore Authz ServerErrors Sessions MediaPlane Calls Frames Apps Facade Projections Cluster Gateway GatewayHub GatewayFanout GatewayFrames GatewayInvariants GatewayBudgets Samples.

(** Nobody but the connection is affected. *)
Definition only (id : Z) (h h' : Hub) : Prop :=
  ∀ j, j ≠ id → h_connections h' !! j = h_connections h !! j.
#[export] Instance only_preorder id : PreOrder (only id).
Proof. split; [by intros h j _ | intros x y z Hxy Hyz j Hj; by rewrite Hyz, Hxy]. Qed.
Lemma update_only id f h : only id h (update id f h).
Proof.
  intros j Hj. unfold update. destruct (h_connections h !! id); [|done]. simpl. by rewrite lookup_insert_ne.
Qed.
Lemma send_frame_only encode id f h : only id h (send_frame encode id f h).
Proof. unfold send_frame. destruct (encode f); [apply update_only | done]. Qed.
Lemma unregister_only id h : only id h (unregister id h).
Proof.
  intros j Hj. unfold unregister, unregister_locked. destruct (h_connections h !! id) as [c|] eqn:Hc; [|done].
  destruct (c_principal c); [destruct (bump_tenant_count _ _ _)|]; simpl; rewrite ?push_if_connections; simpl;
    by rewrite lookup_delete_ne.
Qed.

Section Safety.
Context {SearchOp Media H : Type}.
Context `{PackedColumn PackedRecord, PackedColumn PackedStreamEvent, PackedColumn Value, Crypto, !MediaPlane Media}.
Context (g : GatewayConfig SearchOp).
Context (encode_frame : FrickFrame → result ProtocolError blob) (decode_frame : blob → result ProtocolError FrickFrame).
Context (encode_value_len : Value → Z) (session_token_digest : string → string).
Context (authorize : AuthState → string → Principal → Z → result ServerError unit).
Local Abbreviation W := (World SearchOp Media H).

(** The world but the hub. *)
Definition rest (w : W) :=
  (w_store w, w_tenants w, w_grants w, w_calls w, w_projections w, w_tasks w, w_intents w).
(** The same without the last-seen times of the sessions. *)
Definition data (w : W) :=
  (fs_objects (w_store w), fs_streams (w_store w), fs_cache (w_store w), fs_leases (w_store w), fs_outbox (w_store w),
   fs_jobs (w_store w), fs_notified (w_store w), w_tenants w, w_grants w, w_calls w, w_projections w, w_tasks w,
   w_intents w).
Definition inert (id : Z) (w w' : W) : Prop := rest w' = rest w ∧ only id (w_hub w) (w_hub w').
#[export] Instance inert_preorder id : PreOrder (inert id).
Proof.
  split; [intros w; by split|]. intros x y z [Hr1 Ho1] [Hr2 Ho2]. split; [congruence | by etrans].
Qed.
Lemma on_hub_inert id f (w : W) : (∀ h, only id h (f h)) → inert id w (on_hub f w).
Proof. intros Hf. split; [done | apply Hf]. Qed.
Lemma reply_inert id frame (w : W) : inert id w (reply encode_frame id frame w).
Proof using Type. apply on_hub_inert. intros. apply send_frame_only. Qed.

Definition greeted (w : W) (id : Z) : bool := handshake_complete (w_hub w) id.
(** A frame that is not a Hello, or does not decode. *)
Definition no_hello (payload : blob) : Prop :=
  ∀ frame, decode_frame payload = Ok frame → frame_kind frame ≠ K_Hello.

Lemma send_handshake encode id f h j : handshake_complete (send_frame encode id f h) j = handshake_complete h j.
Proof.
  unfold send_frame, handshake_complete. destruct (encode f); [|done]. unfold update.
  destruct (h_connections h !! id) as [c|] eqn:Hc; [|done]. simpl. destruct (decide (id = j)) as [<-|Hne].
  - by rewrite lookup_insert_eq, Hc.
  - by rewrite lookup_insert_ne.
Qed.
Lemma pre_hello_message s id payload (w : W) :
  greeted w id = false → no_hello payload →
  let w' := on_message g encode_frame decode_frame encode_value_len session_token_digest authorize s id payload w in
  inert id w w' ∧ greeted w' id = false.
Proof using Type.
  intros Hg Hn. simpl. unfold on_message, handle_raw_frame.
  assert (∀ w1 : W, inert id w w1 → inert id w (on_hub (unregister id) w1) ∧ greeted (on_hub (unregister id) w1) id = false) as Hun.
  { intros w1 Hi. split; [etrans; [exact Hi|]; apply on_hub_inert; intros; apply unregister_only|].
    unfold greeted, handshake_complete. destruct (h_connections (w_hub (on_hub (unregister id) w1)) !! id) as [c|] eqn:Hc; [|done].
    exfalso. simpl in Hc. unfold unregister, unregister_locked in Hc.
    destruct (h_connections (w_hub w1) !! id) as [c0|] eqn:Hc0; [|simpl in Hc; congruence].
    destruct (c_principal c0); [destruct (bump_tenant_count _ _ _)|]; simpl in Hc; rewrite ?push_if_connections in Hc;
      simpl in Hc; by rewrite lookup_delete_eq in Hc. }
  destruct (_ && _).
  { cbv beta iota zeta. apply Hun. etrans; [apply reply_inert|]. apply on_hub_inert. intros. apply update_only. }
  destruct (decode_frame payload) as [frame|e] eqn:Hd.
  2: { cbv beta iota zeta. split; [apply reply_inert|]. unfold greeted. simpl. by rewrite send_handshake. }
  unfold dispatch. fold (greeted w id). rewrite Hg, (bool_decide_false _ (Hn frame Hd)). cbn [negb andb].
  destruct (bool_decide_reflect (frame_kind frame = K_Ping)) as [Hk|Hk]; cbn [negb]; cbv beta iota zeta.
  - destruct frame; try done. simpl. split; [apply reply_inert|]. unfold greeted. simpl. by rewrite send_handshake.
  - split; [apply reply_inert|]. unfold greeted. simpl. by rewrite send_handshake.
Qed.

(** ** After the session *)

(** The frames that ask for the session again. *)
Definition needs_session (frame : FrickFrame) : option string :=
  match frame with
  | F_Append p => Some (ap_request_id p)
  | F_ObjectUpsert p => Some (ou_request_id p)
  | F_PresenceSet p => Some (ps_request_id p)
  | F_PresenceClear p => Some (pc_request_id p)
  | F_SignalSend p => Some (sig_request_id p)
  | F_CallCommand p => Some (cm_request_id p)
  | _ => None
  end.
(** The token of the connection no longer resolves, with this message. *)
Definition session_over (now : Z) (id : Z) (message : string) (w : W) : Prop :=
  ∃ c p token e, h_connections (w_hub w) !! id = Some c ∧ c_principal c = Some p ∧ c_session_token c = Some token
    ∧ (resolve_session session_token_digest authorize token now w).1 = Err e
    ∧ message = match e with SE_SessionExpired => "Session expired" | SE_Authentication m => m | _ => "Invalid session" end.

Lemma resolve_session_data token now (w : W) :
  data (resolve_session session_token_digest authorize token now w).2 = data w.
Proof using Type.
  assert (∀ a, st_tenants (principal_from_active_session_token session_token_digest token now a).2 = st_tenants a) as Ht.
  { intros a. exact (resolve_tenants session_token_digest "" a token now). }
  unfold resolve_session, principal_from_authorized_session_token. run_M.
  set (a := {| st_sessions := _; st_tenants := _ |}). specialize (Ht a).
  destruct (principal_from_active_session_token _ _ _ a) as [[p|e] a1]; simpl in Ht |- *.
  - destruct (authorize a1 token p now); unfold data; simpl; by rewrite Ht.
  - unfold data. simpl. by rewrite Ht.
Qed.
Lemma over_active now id rid message (w : W) :
  session_over now id message w →
  let r := active_principal_for_frame encode_frame session_token_digest authorize now id rid w in
  r.1 = None ∧ data r.2 = data w ∧ only id (w_hub w) (w_hub r.2)
  ∧ w_hub r.2 = send_close id Close.POLICY_VIOLATION message
       (send_frame encode_frame id (simple_nack AuthUnauthenticated message rid false
          (Some (reason_details "unauthenticated")) None) (w_hub w)).
Proof using Type.
  intros (c & p & token & e & Hc & Hp & Htok & He & ->). unfold active_principal_for_frame. rewrite Hc, Hp, Htok.
  pose proof (resolve_session_hub session_token_digest authorize token now w) as Hh.
  pose proof (resolve_session_data token now w) as Hd.
  destruct (resolve_session _ _ token now w) as [[active|e'] w1]; simpl in *; [done|]. injection He as ->.
  rewrite Hh. split_and!; try done.
  etrans; [apply send_frame_only | apply update_only].
Qed.
Lemma over_frame s id frame rid message (w : W) :
  greeted w id = true → needs_session frame = Some rid → session_over (now_ms s) id message w →
  let w' := (dispatch g encode_frame encode_value_len session_token_digest authorize s id frame w).2 in
  data w' = data w ∧ only id (w_hub w) (w_hub w')
  ∧ w_hub w' = send_close id Close.POLICY_VIOLATION message
       (send_frame encode_frame id (simple_nack AuthUnauthenticated message rid false
          (Some (reason_details "unauthenticated")) None) (w_hub w)).
Proof using Type.
  intros Hg Hn Ho. unfold dispatch. fold (greeted w id). rewrite Hg. cbn [negb andb].
  destruct frame; try done; simpl in Hn; injection Hn as <-;
    unfold handle_append, handle_object_upsert, handle_presence_set, handle_presence_clear, handle_signal, handle_call_command;
    match goal with |- context [active_principal_for_frame _ _ _ _ _ ?rid w] =>
      destruct (over_active (now_ms s) id rid message w Ho) as (Hnone & Hdata & Honly & Hhub) end;
    destruct (active_principal_for_frame _ _ _ _ _ _ w) as [x w1]; simpl in Hnone, Hdata, Honly, Hhub; rewrite Hnone; simpl; done.
Qed.
End Safety.

Section Ended.
Context {SearchOp Media H : Type}.
Context (session_token_digest : string → string).
Context (authorize : AuthState → string → Principal → Z → result ServerError unit).
Lemma gone_session_over now id c p token (w : World SearchOp Media H) :
  h_connections (w_hub w) !! id = Some c → c_principal c = Some p → c_session_token c = Some token →
  fs_sessions (w_store w) !! session_token_digest token = None →
  session_over session_token_digest authorize now id "Invalid session" w.
Proof.
  intros Hc Hp Ht Hgone. exists c, p, token, (SE_Authentication "Invalid session"). split_and!; try done.
  unfold resolve_session, principal_from_authorized_session_token. run_M.
  unfold principal_from_active_session_token, read_active, read_any. simpl. rewrite Hgone. simpl. by rewrite Hgone.
Qed.
Lemma send_outbound encode id f code m h c :
  h_connections h !! id = Some c →
  outbound (send_close id code m (send_frame encode id f h)) id
  = Some (c_outbound c ++ match encode f with Ok bytes => [Out_Frame bytes] | Err _ => [] end ++ [Out_Close code m]).
Proof.
  intros Hc. unfold outbound, send_close, send_frame. destruct (encode f) as [bytes|]; unfold update at 1.
  - assert (h_connections (update id (send (Out_Frame bytes)) h) !! id = Some (send (Out_Frame bytes) c)) as Hu.
    { unfold update. rewrite Hc. apply lookup_insert_eq. }
    rewrite Hu. simpl. rewrite lookup_insert_eq. simpl. by rewrite <- app_assoc.
  - rewrite Hc. simpl. by rewrite lookup_insert_eq.
Qed.
End Ended.

(** C28: Until a Hello of it has succeeded, a connection is inert: whatever frames
    other than Hello it sends, the store, grants, calls, projections and tasks
    stay as they are, no other connection is touched, and it stays ungreeted. *)
Theorem pre_hello_inert {SearchOp Media H} `{PackedColumn PackedRecord, PackedColumn PackedStreamEvent,
    PackedColumn Value, Crypto, !MediaPlane Media} (g : GatewayConfig SearchOp) encode_frame decode_frame
    encode_value_len digest authorize id (messages : list (Seams * blob)) (w : World SearchOp Media H) :
  handshake_complete (w_hub w) id = false →
  Forall (λ m, ∀ frame, decode_frame m.2 = Ok frame → frame_kind frame ≠ K_Hello) messages →
  let w' := foldl (λ w m, on_message g encode_frame decode_frame encode_value_len digest authorize m.1 id m.2 w)
              w messages in
  rest w' = rest w ∧ (∀ j, j ≠ id → h_connections (w_hub w') !! j = h_connections (w_hub w) !! j)
  ∧ handshake_complete (w_hub w') id = false.
Proof.
  intros Hg Hm. simpl. assert (inert id w (foldl (λ w m, on_message g encode_frame decode_frame encode_value_len digest
    authorize m.1 id m.2 w) w messages) ∧ handshake_complete (w_hub (foldl (λ w m, on_message g encode_frame decode_frame
    encode_value_len digest authorize m.1 id m.2 w) w messages)) id = false) as [[Hr Ho] Hh]; [|done].
  revert w Hg. induction messages as [|m messages IH]; intros w Hg; simpl; [done|].
  apply Forall_cons in Hm as [Hm Hms].
  destruct (pre_hello_message g encode_frame decode_frame encode_value_len digest authorize m.1 id m.2 w Hg Hm) as [Hi Hg1].
  destruct (IH Hms _ Hg1) as [Hi' Hg']. split; [by etrans | done].
Qed.

(** C23: Once the row of its session is gone (logout, revocation, pruning) an
    authenticated connection can write nothing: an append, upsert, presence
    change, signal or call command changes no table, log, lease, outbox, call,
    projection or task and no other connection; the client gets a Nack and a
    policy-violation close. *)
Theorem ended_session_writes_nothing {SearchOp Media H} `{PackedColumn PackedRecord, PackedColumn PackedStreamEvent,
    PackedColumn Value, Crypto, !MediaPlane Media} (g : GatewayConfig SearchOp) encode_frame
    encode_value_len digest authorize s id frame rid c p token (w : World SearchOp Media H) :
  needs_session frame = Some rid →
  h_connections (w_hub w) !! id = Some c → c_handshake_complete c = true → c_principal c = Some p →
  c_session_token c = Some token → fs_sessions (w_store w) !! digest token = None →
  let w' := (dispatch g encode_frame encode_value_len digest authorize s id frame w).2 in
  data w' = data w
  ∧ (∀ j, j ≠ id → h_connections (w_hub w') !! j = h_connections (w_hub w) !! j)
  ∧ outbound (w_hub w') id = Some (c_outbound c
      ++ match encode_frame (simple_nack AuthUnauthenticated "Invalid session" rid false
                               (Some (reason_details "unauthenticated")) None) with
         | Ok bytes => [Out_Frame bytes] | Err _ => [] end
      ++ [Out_Close Close.POLICY_VIOLATION "Invalid session"]).
Proof.
  intros Hn Hc Hh Hp Ht Hgone. simpl.
  pose proof (gone_session_over digest authorize (now_ms s) id c p token w Hc Hp Ht Hgone) as Ho.
  assert (greeted w id = true) as Hg by (unfold greeted, handshake_complete; by rewrite Hc).
  destruct (over_frame g encode_frame encode_value_len digest authorize s id frame rid _ w Hg Hn Ho) as (Hd & Honly & Hhub).
  split_and!; [done | done |]. rewrite Hhub. by apply send_outbound.
Qed.

(** ** Refused Hellos *)

Lemma reserve_anonymous limits id p h :
  connection_principal h id = None → slots h (connection_key p) < max_connections_per_principal limits →
  reserve_hello_principal limits id p h
  = (true, with_counts (take_principal_slot (h_per_principal h) (connection_key p)) (h_tenant_subscriber_counts h) h).
Proof.
  intros Hn Hs. unfold reserve_hello_principal. rewrite Hn. simpl. unfold slots in Hs.
  by destruct (Z.leb_spec (max_connections_per_principal limits) (default 0 (h_per_principal h !! connection_key p))); [lia|].
Qed.
Lemma unregister_anonymous id h :
  connection_principal h id = None →
  h_per_principal (unregister id h) = h_per_principal h ∧ h_connections (unregister id h) = base.delete id (h_connections h).
Proof.
  unfold connection_principal, unregister, unregister_locked. destruct (h_connections h !! id) as [c|] eqn:Hc; simpl.
  - intros Hp. rewrite Hp. done.
  - intros _. simpl. by rewrite delete_id.
Qed.

(** A Hello refused for its schema keeps the slot it reserved: an anonymous
    connection whose valid token comes with an outdated schema is answered with
    a Nack and stays anonymous, but one more connection of the principal is
    counted, also after it has gone. When it was the last slot, every further
    connection of the principal is turned away although it has none. *)
Theorem refused_hello_leaks_slot {SearchOp Media H} (g : GatewayConfig SearchOp) encode_frame digest authorize
    now id c payload token p bearer (w : World SearchOp Media H) :
  h_connections (w_hub w) !! id = Some c → c_principal c = None →
  hp_session_token payload = Some token →
  (resolve_session digest authorize token now w).1 = Ok p →
  hp_client_capabilities payload = None → hp_schema_hash payload ≠ hash (g_schema g) →
  slots (w_hub w) (connection_key p) < max_connections_per_principal (g_limits g) →
  let r := handle_hello g encode_frame digest authorize now id payload w in
  let h := unregister id (w_hub r.2) in
  r.1 = false ∧ connection_principal (w_hub r.2) id = None
  ∧ h_connections h = base.delete id (h_connections (w_hub w))
  ∧ slots h (connection_key p) = slots (w_hub w) (connection_key p) + 1
  ∧ (slots (w_hub w) (connection_key p) + 1 = max_connections_per_principal (g_limits g) →
     ∃ out, connect (g_limits g) encode_frame (Some p) bearer h = (inl out, h)).
Proof.
  intros Hc Hanon Htok Hres Hcaps Hhash Hslot. simpl. unfold handle_hello. rewrite Htok.
  pose proof (resolve_session_hub digest authorize token now w) as Hh.
  destruct (resolve_session digest authorize token now w) as [r w1]. simpl in Hh, Hres. subst r.
  assert (connection_principal (w_hub w1) id = None) as Hn by (unfold connection_principal; by rewrite Hh, Hc).
  rewrite Hn, (reserve_anonymous (g_limits g) id p (w_hub w1) Hn) by by rewrite Hh. cbn [negb].
  unfold hello_after_auth. rewrite Hcaps. cbn [fmap option_fmap option_map mbind option_bind].
  unfold hello_compatibility, reject_schema_mismatch. rewrite Hcaps.
  destruct (String.eqb_spec (hp_schema_hash payload) (hash (g_schema g))) as [|_]; [done|]. cbn [fst snd].
  unfold hello_nack, reply. simpl. set (h1 := with_counts _ _ (w_hub w1)). set (h2 := send_frame _ _ _ h1).
  assert (same_roster h1 h2) as (Hr & _ & _ & Hpp & _) by apply send_frame_same.
  assert (connection_principal h2 id = None) as Hn2.
  { destruct (connection_principal h2 id) as [q|] eqn:Hq; [|done]. apply principal_roster in Hq. rewrite Hr in Hq.
    apply principal_roster in Hq. change (connection_principal (w_hub w1) id = Some q) in Hq. congruence. }
  destruct (unregister_anonymous id h2 Hn2) as [Hup Huc].
  assert (slots (unregister id h2) (connection_key p) = slots (w_hub w) (connection_key p) + 1) as Hs.
  { unfold slots. rewrite Hup, Hpp. unfold h1. simpl. rewrite take_slot, String.eqb_refl, Hh. done. }
  split_and!; try done.
  - rewrite Huc. unfold h2. apply map_eq. intros j. destruct (decide (j = id)) as [->|Hne]; [by rewrite !lookup_delete_eq|].
    rewrite !lookup_delete_ne, (send_frame_only _ id) by done. unfold h1. simpl. by rewrite Hh.
  - intros Hlast. unfold connect. destruct (_ && _); [by eexists|].
    assert (max_connections_per_principal (g_limits g)
      <=? default 0 (h_per_principal (unregister id h2) !! connection_key p) = true) as ->.
    { apply Z.leb_le. unfold slots in Hs, Hlast. lia. }
    by eexists.
Qed.

Import ToyCrypto ToyPacked.

(** Witness: an append and a broken frame before any Hello. *)
Lemma pre_hello_inert_witness :
  fs_streams (w_store (SampleGateway.message 102 [9] (SampleGateway.message 101 [3] SampleGateway.connected)))
  = fs_streams (w_store SampleGateway.connected).
Proof.
  destruct (pre_hello_inert SampleGateway.config SampleFanout.encode SampleGateway.decode SampleGateway.len
    SampleGateway.digest SampleGateway.authorize 1 [(SampleGateway.seams 101, [3]); (SampleGateway.seams 102, [9])]
    SampleGateway.connected) as (Hr & _).
  - vm_compute. reflexivity.
  - apply Forall_cons. split; [|apply Forall_singleton].
    + intros frame Hf. injection Hf as <-. discriminate.
    + intros frame Hf. discriminate Hf.
  - pose proof (f_equal (λ x, fs_streams x.1.1.1.1.1.1) Hr) as Hs. exact Hs.
Defined.

(** Witness: the sample client after a logout. *)
Definition logged_out : World string Fake.FakeState nat :=
  with_store (Facade.with_sessions ∅ (w_store SampleGateway.subscribed)) SampleGateway.subscribed.
Lemma ended_session_writes_nothing_witness :
  data (dispatch SampleGateway.config SampleFanout.encode SampleGateway.len SampleGateway.digest SampleGateway.authorize
          (SampleGateway.seams 103) 1 SampleGateway.append logged_out).2 = data logged_out.
Proof.
  destruct (h_connections (w_hub logged_out) !! 1) as [c|] eqn:Hc; [|vm_compute in Hc; discriminate Hc].
  refine (proj1 (ended_session_writes_nothing SampleGateway.config SampleFanout.encode SampleGateway.len
    SampleGateway.digest SampleGateway.authorize (SampleGateway.seams 103) 1 SampleGateway.append "q1" c
    (principal_of SampleSessions.phone) "tok-phone" logged_out eq_refl Hc _ _ _ _));
    vm_compute in Hc; injection Hc as <-; reflexivity.
Defined.

(** Witness: with one slot, an outdated client locks its user out. *)
Lemma refused_hello_leaks_slot_witness :
  ∃ out, connect SampleGateway.limits SampleFanout.encode (Some (principal_of SampleSessions.phone)) None
           (unregister 1 (w_hub (SampleGateway.message 101 [4] SampleGateway.connected)))
         = (inl out, unregister 1 (w_hub (SampleGateway.message 101 [4] SampleGateway.connected))).
Proof.
  destruct (h_connections (w_hub SampleGateway.connected) !! 1) as [c|] eqn:Hc; [|vm_compute in Hc; discriminate Hc].
  destruct (refused_hello_leaks_slot SampleGateway.config SampleFanout.encode SampleGateway.digest SampleGateway.authorize
    101 1 c {| hp_replica_id := "r1"; hp_device_id := "phone"; hp_schema_hash := "old"; hp_known_cursors := [];
               hp_session_token := Some "tok-phone"; hp_client_capabilities := None |} "tok-phone"
    (principal_of SampleSessions.phone) None SampleGateway.connected Hc) as (_ & _ & _ & _ & Hlast).
  - vm_compute in Hc. injection Hc as <-. reflexivity.
  - reflexivity.
  - vm_compute. reflexivity.
  - reflexivity.
  - discriminate.
  - vm_compute. reflexivity.
  - apply Hlast. vm_compute. reflexivity.
Defined.
