(* ===== verification/PasswordHasher.v ===== *)
(** * Password hashing ([frick-store/src/stores/password_hasher.rs])

    Self-describing stored hashes, verification dispatched on their tag, and
    which hashes a hasher wants to replace. The crates that compute scrypt,
    Argon2 and base64 are the class [PasswordCrypto]; [PasswordCryptoLaws] states
    what they document, with hashes taken to be free of collisions. The trait is
    the record [FrickPasswordHasher]; [HasherLaws] is what the account store
    relies on, and both hashers of the source have it. *)

From Stdlib Require Import ZArith Lia Ascii String.
From stdpp Require Import base gmap strings list pretty.
From S2P Require Import Prelude Value Timestamp StoreBase Encryption Text.

Definition LEGACY_SCRYPT_PREFIX : string := "legacy-scrypt".
Definition SCRYPT_PREFIX : string := "scrypt".
Definition ARGON2_PREFIX : string := "argon2".
Definition SCRYPT_DEFAULT_N : Z := 16384.
Definition SCRYPT_DEFAULT_R : Z := 8.
Definition SCRYPT_DEFAULT_P : Z := 1.
Definition SCRYPT_DEFAULT_KEYLEN : Z := 32.
Definition ARGON2_DEFAULT_M_COST : Z := 19456.
Definition ARGON2_DEFAULT_T_COST : Z := 2.
Definition ARGON2_DEFAULT_P_COST : Z := 1.

(** The crates: base64url without padding; the checked scrypt parameters
    [(log_n, r, p, keylen)] and the function; Argon2id parameters [(m, t, p)],
    the salt's own encoding, the PHC string of a hash, and its verification
    ([None] when the PHC string does not parse). An error is its text. *)
Class PasswordCrypto := {
  b64_encode : blob → string;
  b64_decode : string → option blob;
  scrypt_params : Z → Z → Z → Z → result string unit;
  scrypt : blob → blob → Z → Z → Z → Z → result string blob;
  argon2_params : Z → Z → Z → result string unit;
  salt_encode : blob → result string string;
  argon2_hash : Z → Z → Z → blob → string → result string string;
  argon2_verify : blob → string → option bool;
}.

(** [FixedSaltSource::fill] for [n] bytes; the production source is the random
    [salt] handed to [hash]. *)
Definition fixed_salt_fill (seed : list Z) (n : nat) : list Z :=
  match seed with
  | [] => replicate n 0
  | _ => (λ i, default 0 (seed !! (i mod length seed)%nat)) <$> seq 0 n
  end.

(** The trait, with the salt an argument of [hash]. *)
Record FrickPasswordHasher : Type := {
  ph_id : string;
  ph_hash : blob → string → result string string;
  ph_verify : string → string → bool;
  ph_needs_rehash : string → bool;
}.

Definition split_tag (stored : string) : string * string :=
  default (stored, EmptyString) (split_once "$" stored).

Definition constant_time_eq (a b : list Z) : bool :=
  if negb (Nat.eqb (length a) (length b)) then false else bool_decide (a = b).

(** [n.is_power_of_two()]; the trailing zeros of a power of two are its
    logarithm. *)
Definition log2_exact (n : Z) : option Z :=
  if (n =? 0) || negb (Z.land n (n - 1) =? 0) then None else Some (Z.log2 n).

Section Verify.
Context `{PasswordCrypto}.

Definition verify_legacy_scrypt (password rest : string) : bool :=
  match split_once "$" rest with
  | None => false
  | Some (salt, digest_b64) =>
      match b64_decode digest_b64 with
      | None => false
      | Some expected =>
          match scrypt_params 14 SCRYPT_DEFAULT_R SCRYPT_DEFAULT_P SCRYPT_DEFAULT_KEYLEN with
          | Err _ => false
          | Ok _ =>
              match scrypt (Str.bytes password) (Str.bytes salt) 14 SCRYPT_DEFAULT_R SCRYPT_DEFAULT_P
                      SCRYPT_DEFAULT_KEYLEN with
              | Err _ => false
              | Ok actual => constant_time_eq expected actual
              end
          end
      end
  end.

Definition verify_scrypt (password rest : string) : bool :=
  match split "$" rest with
  | [n; r; p; keylen; salt; digest] =>
      match parse_uint u32_max n, parse_uint u32_max r, parse_uint u32_max p, parse_uint usize_max keylen with
      | Some n, Some r, Some p, Some keylen =>
          match b64_decode salt, b64_decode digest, log2_exact n with
          | Some salt, Some expected, Some log_n =>
              match scrypt_params log_n r p keylen with
              | Err _ => false
              | Ok _ =>
                  match scrypt (Str.bytes password) salt log_n r p keylen with
                  | Err _ => false
                  | Ok actual => constant_time_eq expected actual
                  end
              end
          | _, _, _ => false
          end
      | _, _, _, _ => false
      end
  | _ => false
  end.

Definition encode_scrypt (salt digest : blob) (n r p keylen : Z) : string :=
  SCRYPT_PREFIX +:+ "$" +:+ fmt n +:+ "$" +:+ fmt r +:+ "$" +:+ fmt p +:+ "$" +:+ fmt keylen
  +:+ "$" +:+ b64_encode salt +:+ "$" +:+ b64_encode digest.

Definition verify_argon2 (password rest : string) : bool :=
  match argon2_verify (Str.bytes password) rest with Some b => b | None => false end.

Definition verify_dispatch (password stored : string) : bool :=
  let '(tag, rest) := split_tag stored in
  if String.eqb tag LEGACY_SCRYPT_PREFIX then verify_legacy_scrypt password rest
  else if String.eqb tag SCRYPT_PREFIX then verify_scrypt password rest
  else if String.eqb tag ARGON2_PREFIX then verify_argon2 password rest
  else false.
End Verify.

(** ** Argon2 parameters *)

Record ParsedArgon2 : Type := {
  pa_variant : string; pa_memory_cost : Z; pa_time_cost : Z; pa_parallelism : Z;
}.

(** The loop over [m=..,t=..,p=..]: a later value of a key replaces an earlier
    one, other keys are skipped, and any malformed pair ends it. *)
Fixpoint parse_costs (m t p : option Z) (kvs : list string) : option (option Z * option Z * option Z) :=
  match kvs with
  | [] => Some (m, t, p)
  | kv :: kvs =>
      match split_once "=" kv with
      | None => None
      | Some (key, value) =>
          match parse_uint u32_max value with
          | None => None
          | Some parsed =>
              if String.eqb key "m" then parse_costs (Some parsed) t p kvs
              else if String.eqb key "t" then parse_costs m (Some parsed) p kvs
              else if String.eqb key "p" then parse_costs m t (Some parsed) kvs
              else parse_costs m t p kvs
          end
      end
  end.

Definition parse_argon2_params (encoded : string) : option ParsedArgon2 :=
  match split "$" encoded with
  | _ :: variant :: _ :: param_segment :: _ =>
      if negb (Str.starts_with "argon2" variant) then None
      else match parse_costs None None None (split "," param_segment) with
           | Some (Some m, Some t, Some p) =>
               Some {| pa_variant := variant; pa_memory_cost := m; pa_time_cost := t; pa_parallelism := p |}
           | _ => None
           end
  | _ => None
  end.

(** ** The hashers *)

Section Hashers.
Context `{PasswordCrypto}.

Definition scrypt_hash (n r p keylen : Z) (salt : blob) (password : string) : result string string :=
  match log2_exact n with
  | None => Err ("scrypt N must be a power of two: " +:+ fmt n)
  | Some log_n =>
      match scrypt_params log_n r p keylen with
      | Err err => Err ("invalid scrypt params: " +:+ err)
      | Ok _ =>
          match scrypt (Str.bytes password) salt log_n r p keylen with
          | Err err => Err ("scrypt failed: " +:+ err)
          | Ok digest => Ok (encode_scrypt salt digest n r p keylen)
          end
      end
  end.

Definition scrypt_needs_rehash (n r p keylen : Z) (stored : string) : bool :=
  let '(tag, rest) := split_tag stored in
  if String.eqb tag LEGACY_SCRYPT_PREFIX then true
  else if String.eqb tag ARGON2_PREFIX then false
  else if negb (String.eqb tag SCRYPT_PREFIX) then true
  else match split "$" rest with
       | [n'; r'; p'; keylen'; _; _] =>
           bool_decide (parse_uint u32_max n' ≠ Some n) || bool_decide (parse_uint u32_max r' ≠ Some r)
           || bool_decide (parse_uint u32_max p' ≠ Some p)
           || bool_decide (parse_uint usize_max keylen' ≠ Some keylen)
       | _ => true
       end.

Definition ScryptPasswordHasher (n r p keylen : Z) : FrickPasswordHasher :=
  {| ph_id := SCRYPT_PREFIX; ph_hash := scrypt_hash n r p keylen; ph_verify := verify_dispatch;
     ph_needs_rehash := scrypt_needs_rehash n r p keylen |}.

Definition argon2_hash_password (m t p : Z) (salt_bytes : blob) (password : string) : result string string :=
  match salt_encode salt_bytes with
  | Err err => Err ("invalid argon2 salt: " +:+ err)
  | Ok salt =>
      match argon2_params m t p with
      | Err err => Err ("invalid argon2 params: " +:+ err)
      | Ok _ =>
          match argon2_hash m t p (Str.bytes password) salt with
          | Err err => Err ("argon2 hash failed: " +:+ err)
          | Ok phc => Ok (ARGON2_PREFIX +:+ "$" +:+ phc)
          end
      end
  end.

Definition argon2_needs_rehash (m t p : Z) (stored : string) : bool :=
  let '(tag, rest) := split_tag stored in
  if negb (String.eqb tag ARGON2_PREFIX) then true
  else match parse_argon2_params rest with
       | None => true
       | Some parsed =>
           negb (pa_memory_cost parsed =? m) || negb (pa_time_cost parsed =? t)
           || negb (pa_parallelism parsed =? p) || negb (String.eqb (pa_variant parsed) "argon2id")
       end.

Definition Argon2PasswordHasher (m t p : Z) : FrickPasswordHasher :=
  {| ph_id := ARGON2_PREFIX; ph_hash := argon2_hash_password m t p; ph_verify := verify_dispatch;
     ph_needs_rehash := argon2_needs_rehash m t p |}.

Inductive FrickPasswordHasherId : Type := Hasher_Argon2 | Hasher_Scrypt.
Definition create_password_hasher (id : FrickPasswordHasherId) : FrickPasswordHasher :=
  match id with
  | Hasher_Argon2 => Argon2PasswordHasher ARGON2_DEFAULT_M_COST ARGON2_DEFAULT_T_COST ARGON2_DEFAULT_P_COST
  | Hasher_Scrypt => ScryptPasswordHasher SCRYPT_DEFAULT_N SCRYPT_DEFAULT_R SCRYPT_DEFAULT_P SCRYPT_DEFAULT_KEYLEN
  end.
Definition default_password_hasher : FrickPasswordHasher := create_password_hasher Hasher_Argon2.
End Hashers.

Definition to_stored_hash (password_hash password_salt : string) : string :=
  if has_char "$" password_hash then password_hash
  else LEGACY_SCRYPT_PREFIX +:+ "$" +:+ password_salt +:+ "$" +:+ password_hash.

(** ** Laws *)

(** What the crates document. The digest of a password determines it, as for a
    hash without collisions. *)
Class PasswordCryptoLaws `{PasswordCrypto} : Prop := {
  b64_roundtrip b : b64_decode (b64_encode b) = Some b;
  b64_alphabet b : has_char "$" (b64_encode b) = false;
  scrypt_inj a b salt log_n r p keylen d :
    scrypt a salt log_n r p keylen = Ok d → scrypt b salt log_n r p keylen = Ok d → a = b;
  argon2_phc m t p a salt phc : argon2_hash m t p a salt = Ok phc →
    ∃ tail, phc = "$argon2id$v=19$m=" +:+ fmt m +:+ ",t=" +:+ fmt t +:+ ",p=" +:+ fmt p +:+ "$" +:+ tail;
  argon2_verifies m t p a b salt phc : argon2_hash m t p a salt = Ok phc →
    argon2_verify b phc = Some (bool_decide (b = a));
  argon2_inj a b phc : argon2_verify a phc = Some true → argon2_verify b phc = Some true → a = b;
}.
#[global] Arguments PasswordCryptoLaws : clear implicits.
#[global] Arguments PasswordCryptoLaws {_}.

(** What the account store relies on: a hash verifies its password and no other,
    carries its tag and is not replaced, and no stored text verifies two passwords. *)
Class HasherLaws (h : FrickPasswordHasher) : Prop := {
  hl_verify salt pw stored other : ph_hash h salt pw = Ok stored →
    ph_verify h other stored = bool_decide (other = pw);
  hl_tagged salt pw stored : ph_hash h salt pw = Ok stored → has_char "$" stored = true;
  hl_settled salt pw stored : ph_hash h salt pw = Ok stored → ph_needs_rehash h stored = false;
  hl_one a b stored : ph_verify h a stored = true → ph_verify h b stored = true → a = b;
}.

Definition is_u32 (z : Z) : Prop := 0 ≤ z ≤ u32_max.

Lemma constant_time_eq_spec a b : constant_time_eq a b = bool_decide (a = b).
Proof.
  unfold constant_time_eq. destruct (Nat.eqb_spec (length a) (length b)) as [|Hl]; [done|].
  simpl. symmetry. apply bool_decide_eq_false. by intros ->.
Qed.
Lemma bytes_eq_decide a b : bool_decide (Str.bytes a = Str.bytes b) = bool_decide (a = b).
Proof. apply bool_decide_ext. split; [apply bytes_inj|by intros ->]. Qed.

Lemma split_tag_app tag rest : has_char "$" tag = false → split_tag (tag +:+ "$" +:+ rest) = (tag, rest).
Proof. intros Ht. unfold split_tag. change ("$" +:+ rest) with (String "$" rest). by rewrite split_once_app. Qed.

Section HasherFacts.
Context `{PasswordCrypto, !PasswordCryptoLaws}.

(** The fields of an encoded scrypt hash. *)
Lemma encode_scrypt_fields salt digest n r p keylen :
  is_u32 n → is_u32 r → is_u32 p → 0 ≤ keylen ≤ usize_max →
  ∃ rest, split_tag (encode_scrypt salt digest n r p keylen) = (SCRYPT_PREFIX, rest)
    ∧ split "$" rest = [fmt n; fmt r; fmt p; fmt keylen; b64_encode salt; b64_encode digest].
Proof.
  intros [Hn _] [Hr _] [Hp _] [Hk _]. unfold encode_scrypt. eexists. split; [by apply split_tag_app|].
  apply (split_join "$" [fmt n; fmt r; fmt p; fmt keylen; b64_encode salt; b64_encode digest]); [done|].
  repeat constructor; (apply fmt_no_char; done) || apply b64_alphabet.
Qed.

Lemma verify_scrypt_hash n r p keylen salt pw stored other :
  is_u32 n → is_u32 r → is_u32 p → 0 ≤ keylen ≤ usize_max →
  scrypt_hash n r p keylen salt pw = Ok stored → verify_dispatch other stored = bool_decide (other = pw).
Proof.
  intros Hn Hr Hp Hk Hh. unfold scrypt_hash in Hh.
  destruct (log2_exact n) as [log_n|] eqn:El; [|done].
  destruct (scrypt_params log_n r p keylen) eqn:Eparams; [|done].
  destruct (scrypt (Str.bytes pw) salt log_n r p keylen) as [digest|] eqn:Ed; [|done].
  injection Hh as <-. unfold verify_dispatch.
  destruct (encode_scrypt_fields salt digest n r p keylen Hn Hr Hp Hk) as (rest & -> & Hs).
  cbn [String.eqb]. change (String.eqb SCRYPT_PREFIX LEGACY_SCRYPT_PREFIX) with false.
  change (String.eqb SCRYPT_PREFIX SCRYPT_PREFIX) with true. cbn iota. unfold verify_scrypt. rewrite Hs.
  rewrite !parse_fmt, !b64_roundtrip, El, Eparams by done.
  destruct (scrypt (Str.bytes other) salt log_n r p keylen) as [actual|] eqn:Eo.
  - rewrite constant_time_eq_spec. rewrite <- bytes_eq_decide. apply bool_decide_ext. split.
    + intros ->. by eapply scrypt_inj.
    + intros Heq. congruence.
  - symmetry. apply bool_decide_eq_false. intros ->. congruence.
Qed.

(** No stored text verifies two passwords. *)
Lemma verify_dispatch_one a b stored :
  verify_dispatch a stored = true → verify_dispatch b stored = true → a = b.
Proof.
  unfold verify_dispatch, verify_legacy_scrypt, verify_scrypt, verify_argon2.
  destruct (split_tag stored) as [tag rest]. intros Ha Hb. apply bytes_inj.
  case_matches; rewrite ?constant_time_eq_spec in *; repeat match goal with
    | H : bool_decide _ = true |- _ => apply bool_decide_eq_true in H end; subst; eauto using scrypt_inj, argon2_inj.
Qed.

#[export] Instance scrypt_hasher_laws n r p keylen :
  is_u32 n → is_u32 r → is_u32 p → 0 ≤ keylen ≤ usize_max → HasherLaws (ScryptPasswordHasher n r p keylen).
Proof.
  intros Hn Hr Hp Hk. split; simpl; [| | |intros a b stored; apply verify_dispatch_one]; intros salt pw stored.
  - intros other. by apply verify_scrypt_hash.
  - unfold scrypt_hash. intros Hh. case_matches.
  - intros Hh. unfold scrypt_needs_rehash. unfold scrypt_hash in Hh.
    destruct (log2_exact n); [|done]. destruct (scrypt_params _ _ _ _); [|done].
    destruct (scrypt _ _ _ _ _ _) as [digest|]; [|done]. injection Hh as <-.
    destruct (encode_scrypt_fields salt digest n r p keylen Hn Hr Hp Hk) as (rest & -> & Hs).
    change (String.eqb SCRYPT_PREFIX LEGACY_SCRYPT_PREFIX) with false.
    change (String.eqb SCRYPT_PREFIX ARGON2_PREFIX) with false.
    change (String.eqb SCRYPT_PREFIX SCRYPT_PREFIX) with true. cbn [negb]. rewrite Hs.
    rewrite !parse_fmt by done. by rewrite !bool_decide_eq_false_2 by tauto.
Qed.

Lemma parse_costs_kv k z m t p kvs :
  Ascii.eqb k "=" = false → is_u32 z →
  parse_costs m t p ((String k "=" +:+ fmt z) :: kvs)
  = if String.eqb (String k "") "m" then parse_costs (Some z) t p kvs
    else if String.eqb (String k "") "t" then parse_costs m (Some z) p kvs
    else if String.eqb (String k "") "p" then parse_costs m t (Some z) kvs
    else parse_costs m t p kvs.
Proof.
  intros Hk Hz. cbn [parse_costs]. change (String k "=" +:+ fmt z) with (String k "" +:+ String "=" (fmt z)).
  rewrite split_once_app by (simpl; by rewrite Hk). cbv iota beta. by rewrite parse_fmt.
Qed.

Lemma argon2_params_read m t p tail :
  is_u32 m → is_u32 t → is_u32 p →
  parse_argon2_params ("$argon2id$v=19$m=" +:+ fmt m +:+ ",t=" +:+ fmt t +:+ ",p=" +:+ fmt p +:+ "$" +:+ tail)
  = Some {| pa_variant := "argon2id"; pa_memory_cost := m; pa_time_cost := t; pa_parallelism := p |}.
Proof.
  intros Hm Ht Hp.
  assert (∀ z k, is_u32 z → is_digit (Str.byte k) = false → has_char k (fmt z) = false) as Hc
    by (intros z k [Hz _] Hk; by apply fmt_no_char).
  set (costs := "m=" +:+ fmt m +:+ ",t=" +:+ fmt t +:+ ",p=" +:+ fmt p).
  assert (split "," costs = ["m=" +:+ fmt m; "t=" +:+ fmt t; "p=" +:+ fmt p]) as Hs.
  { change costs with (join "," ["m=" +:+ fmt m; "t=" +:+ fmt t; "p=" +:+ fmt p]).
    apply split_join; [done|]. repeat constructor; rewrite has_char_app, Hc; done. }
  assert (has_char "$" costs = false) as Hd.
  { subst costs. rewrite !has_char_app, !Hc by done. done. }
  assert (split "$" ("$argon2id$v=19$m=" +:+ fmt m +:+ ",t=" +:+ fmt t +:+ ",p=" +:+ fmt p +:+ "$" +:+ tail)
          = "" :: "argon2id" :: "v=19" :: costs :: split "$" tail) as Hsplit.
  { rewrite <- (split_app "$" costs tail Hd). subst costs.
    rewrite !string_app_assoc. done. }
  unfold parse_argon2_params. rewrite Hsplit. cbn [negb Str.starts_with String.prefix]. rewrite Hs.
  by rewrite !parse_costs_kv by done.
Qed.

#[export] Instance argon2_hasher_laws m t p :
  is_u32 m → is_u32 t → is_u32 p → HasherLaws (Argon2PasswordHasher m t p).
Proof.
  intros Hm Ht Hp.
  assert (∀ salt pw stored, argon2_hash_password m t p salt pw = Ok stored →
    ∃ phc salt', stored = ARGON2_PREFIX +:+ "$" +:+ phc ∧ argon2_hash m t p (Str.bytes pw) salt' = Ok phc) as Hhash.
  { intros salt pw stored. unfold argon2_hash_password. intros Hh. case_matches. eauto. }
  split; simpl; [| | |intros a b stored; apply verify_dispatch_one]; intros salt pw stored.
  - intros other (phc & salt' & -> & Hphc)%Hhash. unfold verify_dispatch. rewrite split_tag_app by done.
    change (String.eqb ARGON2_PREFIX LEGACY_SCRYPT_PREFIX) with false.
    change (String.eqb ARGON2_PREFIX SCRYPT_PREFIX) with false.
    change (String.eqb ARGON2_PREFIX ARGON2_PREFIX) with true. cbn iota. unfold verify_argon2.
    rewrite (argon2_verifies _ _ _ _ _ _ _ Hphc). apply bytes_eq_decide.
  - intros (phc & salt' & -> & _)%Hhash. done.
  - intros (phc & salt' & -> & Hphc)%Hhash. unfold argon2_needs_rehash. rewrite split_tag_app by done.
    change (String.eqb ARGON2_PREFIX ARGON2_PREFIX) with true. cbn [negb].
    destruct (argon2_phc _ _ _ _ _ _ Hphc) as [tail ->]. rewrite argon2_params_read by done.
    cbn. by rewrite !Z.eqb_refl.
Qed.

#[export] Instance created_hasher_laws id : HasherLaws (create_password_hasher id).
Proof. destruct id; [apply argon2_hasher_laws|apply scrypt_hasher_laws]; done. Qed.
End HasherFacts.

#[export] Instance hasher_id_eq_dec : EqDecision FrickPasswordHasherId.
Proof. solve_decision. Defined.

Lemma to_stored_hash_tagged stored column :
  has_char "$" stored = true → to_stored_hash stored column = stored.
Proof. unfold to_stored_hash. by intros ->. Qed.

(** Every stored hash verifies exactly its own password, whichever hasher is
    active when it is read, and the only migration is from scrypt to Argon2: a
    hash of the active algorithm, or of the stronger one, is left alone. *)
Theorem stored_hash_roundtrip `{PasswordCrypto, !PasswordCryptoLaws} writer reader salt pw stored column other :
  ph_hash (create_password_hasher writer) salt pw = Ok stored →
  ph_verify (create_password_hasher reader) other (to_stored_hash stored column) = bool_decide (other = pw)
  ∧ ph_needs_rehash (create_password_hasher reader) (to_stored_hash stored column)
    = bool_decide (writer = Hasher_Scrypt ∧ reader = Hasher_Argon2).
Proof.
  intros Hh. rewrite (to_stored_hash_tagged stored column (hl_tagged _ _ _ Hh)). split.
  - rewrite <- (hl_verify _ _ _ other Hh). by destruct writer, reader.
  - destruct (decide (writer = reader)) as [<-|Hne].
    { rewrite (hl_settled _ _ _ Hh). by destruct writer. }
    destruct writer, reader; try done; simpl in *.
    + unfold argon2_hash_password, scrypt_needs_rehash in *. case_matches.
    + unfold argon2_needs_rehash, scrypt_hash, encode_scrypt in *. case_matches.
Qed.

(** Crates that keep the password in the hash, on which hashers run. *)
Module ToyPassword.
Fixpoint bits (p : positive) : string :=
  match p with xH => EmptyString | xO p' => String "0" (bits p') | xI p' => String "1" (bits p') end.
Fixpoint unbits (s : string) : positive :=
  match s with
  | EmptyString => xH
  | String c s' => if Ascii.eqb c "0" then xO (unbits s') else xI (unbits s')
  end.
Lemma password_unbits p : unbits (bits p) = p.
Proof. induction p as [p IH|p IH|]; cbn; by rewrite ?IH. Qed.
Lemma bits_plain p : has_char "$" (bits p) = false.
Proof. by induction p as [p IH|p IH|]. Qed.
Definition seal (b : blob) : string := bits (encode b).

#[export] Instance crypto : PasswordCrypto := {|
  b64_encode := seal; b64_decode s := decode (unbits s);
  scrypt_params _ _ _ _ := Ok tt; scrypt a _ _ _ _ _ := Ok a;
  argon2_params _ _ _ := Ok tt; salt_encode _ := Ok "salt";
  argon2_hash m t p a salt :=
    Ok ("$argon2id$v=19$m=" +:+ fmt m +:+ ",t=" +:+ fmt t +:+ ",p=" +:+ fmt p +:+ "$" +:+ seal a);
  argon2_verify b phc := (λ x, String.eqb x.2 (seal b)) <$> rsplit_once "$" phc;
|}.

Lemma rsplit_last a b : has_char "$" b = false → rsplit_once "$" (a +:+ String "$" b) = Some (a, b).
Proof.
  intros Hb. induction a as [|x a IH].
  - simpl. pose proof (rsplit_once_spec "$" b) as Hs. destruct (rsplit_once "$" b) as [[y z]|]; [|done].
    destruct Hs as [-> _]. by rewrite has_char_app, orb_comm in Hb.
  - change (rsplit_once "$" (String x (a +:+ String "$" b)) = Some (String x a, b)). simpl. by rewrite IH.
Qed.

#[export] Instance laws : PasswordCryptoLaws.
Proof.
  split; simpl.
  - intros b. unfold seal. by rewrite password_unbits, decode_encode.
  - intros b. apply bits_plain.
  - by intros a b _ _ _ _ _ d [= <-] [= <-].
  - intros m t p a _ phc [= <-]. by eexists.
  - intros m t p a b _ phc [= <-].
    change ("$" +:+ seal a) with (String "$" (seal a)). rewrite <- !string_app_assoc.
    rewrite rsplit_last by apply bits_plain. cbn. f_equal.
    destruct (String.eqb_spec (seal a) (seal b)) as [Heq|Hne]; symmetry.
    + apply bool_decide_eq_true. apply (f_equal unbits) in Heq. unfold seal in Heq. rewrite !password_unbits in Heq.
      symmetry. by apply (inj encode).
    + apply bool_decide_eq_false. by intros ->.
  - intros a b phc. destruct (rsplit_once "$" phc) as [[x y]|]; [|done]. cbn.
    intros [= Ha%String.eqb_eq] [= Hb%String.eqb_eq]. subst y. apply (f_equal unbits) in Hb. unfold seal in Hb.
    rewrite !password_unbits in Hb. by apply (inj encode).
Qed.
End ToyPassword.

Lemma stored_hash_roundtrip_witness :
  ∃ stored, ph_hash (create_password_hasher Hasher_Scrypt (H := ToyPassword.crypto)) [1] "hunter22" = Ok stored
    ∧ ph_needs_rehash (create_password_hasher Hasher_Argon2 (H := ToyPassword.crypto)) (to_stored_hash stored "") = true.
Proof.
  eexists. split; [vm_compute; reflexivity|].
  refine (proj2 (@stored_hash_roundtrip ToyPassword.crypto ToyPassword.laws Hasher_Scrypt Hasher_Argon2 [1] "hunter22" _ "" "other" _)).
  vm_compute. reflexivity.
Defined.
