(* ===== verification/Accounts.v ===== *)
(** * Accounts ([frick-store/src/stores/account.rs])

    The [auth_accounts] table, password verification with its lazy migration to
    the active hasher, and the work it spends: [as_work] records every call of
    the hasher, the observable the constant-work branch of the source is about.
    The hasher is any record of [PasswordHasher]; theorems ask for [HasherLaws]. *)

From Stdlib Require Import ZArith Lia Ascii String.
From stdpp Require Import base gmap strings list sorting pretty.
From S2P Require Import Prelude Value Timestamp StoreBase Encryption Text PasswordHasher.

Definition DUMMY_VERIFY_SECRET : string := "frick-constant-work-dummy-verify-secret".

Record StoredAccount : Type := {
  ac_tenant_id : string; ac_user_id : string; ac_handle : string; ac_display_name : string;
  ac_created_at : string;
}.
Record CreateAccountInput : Type := {
  ca_tenant_id : string; ca_user_id : string; ca_handle : string; ca_display_name : string;
  ca_password : string;
}.
Inductive MoveOutcome : Type := Moved | Move_NotFound | Move_Conflict.

(** A row. The primary key is [user_id], over all tenants; the unique index is
    on the tenant and the handle without case. *)
Record AccountRow : Type := {
  ar_user_id : string; ar_tenant_id : string; ar_handle : string; ar_display_name : string;
  ar_password_salt : string; ar_password_hash : string; ar_created_at : string;
}.
Inductive HasherCall : Type := Called_hash | Called_verify.
Record AccountStore : Type := {
  as_rows : list AccountRow;
  (** the [OnceLock] of the dummy hash *)
  as_dummy_hash : option string;
  as_work : list HasherCall;
}.

Definition with_rows (rows : list AccountRow) (s : AccountStore) : AccountStore :=
  {| as_rows := rows; as_dummy_hash := as_dummy_hash s; as_work := as_work s |}.
Definition spend (call : HasherCall) (s : AccountStore) : AccountStore :=
  {| as_rows := as_rows s; as_dummy_hash := as_dummy_hash s; as_work := as_work s ++ [call] |}.
Definition seed_dummy (dummy : string) (s : AccountStore) : AccountStore :=
  {| as_rows := as_rows s; as_dummy_hash := Some dummy; as_work := as_work s |}.

(** [SET password_salt = '', password_hash = ?] and [SET tenant_id = ?]. *)
Definition set_hash (hash : string) (r : AccountRow) : AccountRow :=
  {| ar_user_id := ar_user_id r; ar_tenant_id := ar_tenant_id r; ar_handle := ar_handle r;
     ar_display_name := ar_display_name r; ar_password_salt := EmptyString; ar_password_hash := hash;
     ar_created_at := ar_created_at r |}.
Definition set_tenant (tenant_id : string) (r : AccountRow) : AccountRow :=
  {| ar_user_id := ar_user_id r; ar_tenant_id := tenant_id; ar_handle := ar_handle r;
     ar_display_name := ar_display_name r; ar_password_salt := ar_password_salt r;
     ar_password_hash := ar_password_hash r; ar_created_at := ar_created_at r |}.

Definition map_account_row (r : AccountRow) : StoredAccount :=
  {| ac_tenant_id := ar_tenant_id r; ac_user_id := ar_user_id r; ac_handle := ar_handle r;
     ac_display_name := ar_display_name r; ac_created_at := ar_created_at r |}.

Definition is_constraint_error (err : StoreError) : bool :=
  contains_str "constraint" (Str.to_lowercase (StoreError_display err)).

(** [COLLATE NOCASE] and [LOWER], which fold ASCII letters. *)
Definition same_handle (a b : string) : bool := String.eqb (Str.to_lowercase a) (Str.to_lowercase b).

(** [tenant_id = ? AND (LOWER(handle) = LOWER(?) OR user_id = ?)]. *)
Definition matches (tenant_id handle user_id : string) (r : AccountRow) : bool :=
  String.eqb (ar_tenant_id r) tenant_id && (same_handle (ar_handle r) handle || String.eqb (ar_user_id r) user_id).
(** [tenant_id = ? AND user_id = ?]. *)
Definition is_account (tenant_id user_id : string) (r : AccountRow) : bool :=
  String.eqb (ar_tenant_id r) tenant_id && String.eqb (ar_user_id r) user_id.

(** [ORDER BY created_at ASC, handle ASC], the handle in its column's collation. *)
Definition account_le (a b : AccountRow) : bool :=
  if String.eqb (ar_created_at a) (ar_created_at b)
  then Str.leb (Str.to_lowercase (ar_handle a)) (Str.to_lowercase (ar_handle b))
  else Str.leb (ar_created_at a) (ar_created_at b).

Section AccountStore.
Context (h : FrickPasswordHasher) (constraint_failed : string).

Definition hash (salt : blob) (password : string) (s : AccountStore) : result string string * AccountStore :=
  (ph_hash h salt password, spend Called_hash s).
Definition verify (password stored : string) (s : AccountStore) : bool * AccountStore :=
  (ph_verify h password stored, spend Called_verify s).

Definition create (input : CreateAccountInput) (salt : blob) (now_ms : Z) :
    M AccountStore StoreError StoredAccount := λ s,
  let now := iso_from_epoch_ms now_ms in
  let '(hashed, s) := hash salt (ca_password input) s in
  match hashed with
  | Err err => (Err (Store err), s)
  | Ok password_hash =>
      if existsb (λ r, String.eqb (ar_user_id r) (ca_user_id input)
                       || (String.eqb (ar_tenant_id r) (ca_tenant_id input)
                           && same_handle (ar_handle r) (ca_handle input))) (as_rows s)
      then let err := Driver constraint_failed in
           (Err (if is_constraint_error err then Store "Handle is already taken" else err), s)
      else
        let row := {| ar_user_id := ca_user_id input; ar_tenant_id := ca_tenant_id input;
                      ar_handle := ca_handle input; ar_display_name := ca_display_name input;
                      ar_password_salt := EmptyString; ar_password_hash := password_hash;
                      ar_created_at := now |} in
        (Ok (map_account_row row), with_rows (as_rows s ++ [row]) s)
  end.

(** [LIMIT ?], negative for no limit. *)
Definition list_ (s : AccountStore) (tenant_id : string) (limit : Z) : list StoredAccount :=
  let rows := order_by account_le (select (λ r, String.eqb (ar_tenant_id r) tenant_id) (as_rows s)) in
  map_account_row <$> (if limit <? 0 then rows else take (Z.to_nat limit) rows).

(** [LIMIT 1] without an order: the statement leaves open which of two matching
    rows it returns, here the earlier. *)
Definition read_row_by_identity (s : AccountStore) (tenant_id identity : string) : option AccountRow :=
  list.head (select (matches tenant_id identity identity) (as_rows s)).
Definition read_by_identity (s : AccountStore) (tenant_id identity : string) : option StoredAccount :=
  map_account_row <$> read_row_by_identity s tenant_id identity.

Definition set_password (tenant_id user_id new_password : string) (salt : blob) :
    M AccountStore StoreError bool := λ s,
  let '(hashed, s) := hash salt new_password s in
  match hashed with
  | Err err => (Err (Store err), s)
  | Ok password_hash =>
      (Ok (0 <? changes (is_account tenant_id user_id) (as_rows s)),
       with_rows (update_where (is_account tenant_id user_id) (set_hash password_hash) (as_rows s)) s)
  end.

Definition verify_dummy_password (password : string) (salt : blob) (s : AccountStore) : bool * AccountStore :=
  let '(dummy, s) :=
    match as_dummy_hash s with
    | Some dummy => (dummy, s)
    | None =>
        let '(hashed, s) := hash salt DUMMY_VERIFY_SECRET s in
        let dummy := match hashed with Ok d => d | Err _ => EmptyString end in
        (dummy, seed_dummy dummy s)
    end in
  (false, (verify password dummy s).2).

Definition stored_hash (r : AccountRow) : string := to_stored_hash (ar_password_hash r) (ar_password_salt r).

Definition verify_password (tenant_id identity password : string) (salt : blob) :
    M AccountStore StoreError (option StoredAccount) := λ s,
  match read_row_by_identity s tenant_id identity with
  | None => (Ok None, (verify_dummy_password password salt s).2)
  | Some row =>
      let stored := stored_hash row in
      let '(verified, s) := verify password stored s in
      if negb verified then (Ok None, s)
      else
        let s :=
          if ph_needs_rehash h stored then
            let '(hashed, s) := hash salt password s in
            match hashed with
            | Ok upgraded =>
                with_rows (update_where (is_account (ar_tenant_id row) (ar_user_id row)) (set_hash upgraded)
                             (as_rows s)) s
            | Err _ => s
            end
          else s in
        (Ok (Some (map_account_row row)), s)
  end.

Definition move_account (from_tenant_id user_id to_tenant_id : string) :
    M AccountStore StoreError MoveOutcome := λ s,
  match list.head (select (is_account from_tenant_id user_id) (as_rows s)) with
  | None => (Ok Move_NotFound, s)
  | Some row =>
      if String.eqb from_tenant_id to_tenant_id then (Ok Moved, s)
      else if existsb (matches to_tenant_id (ar_handle row) user_id) (as_rows s) then (Ok Move_Conflict, s)
      else if existsb (λ r, String.eqb (ar_tenant_id r) to_tenant_id && same_handle (ar_handle r) (ar_handle row))
                (as_rows s)
      then let err := Driver constraint_failed in
           (if is_constraint_error err then Ok Move_Conflict else Err err, s)
      else (Ok Moved,
            with_rows (update_where (is_account from_tenant_id user_id) (set_tenant to_tenant_id) (as_rows s)) s)
  end.

Definition delete (tenant_id user_id : string) : M AccountStore StoreError bool := λ s,
  (Ok (0 <? changes (is_account tenant_id user_id) (as_rows s)),
   with_rows (delete_where (is_account tenant_id user_id) (as_rows s)) s).
End AccountStore.

(** ** The table *)

Lemma update_where_fmap {R K} (key : R → K) (w : R → bool) (f : R → R) t :
  (∀ r, key (f r) = key r) → key <$> update_where w f t = key <$> t.
Proof.
  intros Hf. unfold update_where. rewrite <- list_fmap_compose. apply list_fmap_ext. intros _ r _. simpl.
  by destruct (w r).
Qed.

Definition handle_key (r : AccountRow) : string * string := (ar_tenant_id r, Str.to_lowercase (ar_handle r)).
(** The primary key and the unique index. *)
Definition rows_ok (rows : list AccountRow) : Prop :=
  NoDup (ar_user_id <$> rows) ∧ NoDup (handle_key <$> rows).

Lemma NoDup_key_inj {R K} (key : R → K) (l : list R) a b :
  NoDup (key <$> l) → a ∈ l → b ∈ l → key a = key b → a = b.
Proof.
  intros Hn [i Ha]%list_elem_of_lookup [j Hb]%list_elem_of_lookup Hk.
  assert (i = j) as ->; [|congruence].
  eapply (NoDup_lookup (key <$> l)); [done| |]; rewrite list_lookup_fmap; [by rewrite Ha|].
  by rewrite Hb, Hk.
Qed.

Lemma head_select {R} (w : R → bool) (t : list R) r :
  list.head (select w t) = Some r → r ∈ t ∧ w r = true.
Proof.
  intros Hh. apply elem_of_select. destruct (select w t); [done|]. injection Hh as ->. by left.
Qed.

Lemma same_handle_spec a b : same_handle a b = true ↔ Str.to_lowercase a = Str.to_lowercase b.
Proof. apply String.eqb_eq. Qed.
Lemma is_account_spec tenant user r :
  is_account tenant user r = true ↔ ar_tenant_id r = tenant ∧ ar_user_id r = user.
Proof. unfold is_account. by rewrite andb_true_iff, !String.eqb_eq. Qed.

Section Table.
Context (h : FrickPasswordHasher) (constraint_failed : string).

Lemma account_created input salt now s a s' :
  create h constraint_failed input salt now s = (Ok a, s') →
  ∃ hash, ph_hash h salt (ca_password input) = Ok hash
    ∧ (∀ r, r ∈ as_rows s → ar_user_id r ≠ ca_user_id input
         ∧ handle_key r ≠ (ca_tenant_id input, Str.to_lowercase (ca_handle input)))
    ∧ a = {| ac_tenant_id := ca_tenant_id input; ac_user_id := ca_user_id input;
             ac_handle := ca_handle input; ac_display_name := ca_display_name input;
             ac_created_at := iso_from_epoch_ms now |}
    ∧ as_rows s' = as_rows s ++
        [{| ar_user_id := ca_user_id input; ar_tenant_id := ca_tenant_id input; ar_handle := ca_handle input;
            ar_display_name := ca_display_name input; ar_password_salt := EmptyString;
            ar_password_hash := hash; ar_created_at := iso_from_epoch_ms now |}].
Proof.
  unfold create, Accounts.hash. intros Hc. destruct (ph_hash h salt _) as [hash|] eqn:Eh; [|done].
  destruct (existsb _ _) eqn:Ee; [done|]. injection Hc as <- <-. exists hash. split; [done|]. split; [|done].
  intros r Hr. apply not_true_iff_false in Ee. split; intros Heq; apply Ee; apply existsb_exists;
    exists r; (split; [by apply list_elem_of_In|]).
  - by rewrite Heq, String.eqb_refl.
  - unfold handle_key in Heq. injection Heq as Ht Hh. unfold same_handle.
    by rewrite Ht, Hh, !String.eqb_refl, orb_true_r.
Qed.
Lemma create_err input salt now s e s' :
  create h constraint_failed input salt now s = (Err e, s') → as_rows s' = as_rows s.
Proof. unfold create, hash. intros. case_matches. Qed.

Lemma account_moved from user to s :
  rows_ok (as_rows s) → rows_ok (as_rows (move_account constraint_failed from user to s).2).
Proof.
  intros [Hu Hk]. unfold move_account. destruct (list.head _) as [row|] eqn:Eh; [|done].
  destruct (String.eqb from to); [done|]. destruct (existsb (matches to (ar_handle row) user) (as_rows s)); [done|].
  destruct (existsb (λ r, String.eqb (ar_tenant_id r) to && same_handle (ar_handle r) (ar_handle row)) (as_rows s))
    eqn:Ee; [done|]. cbn [snd as_rows with_rows]. apply head_select in Eh as [Hrow Hw]. split.
  { by rewrite update_where_fmap. }
  apply not_true_iff_false in Ee. apply NoDup_alt. intros i j k Hi Hj.
  unfold update_where in Hi, Hj. rewrite !list_lookup_fmap in Hi, Hj.
  destruct (as_rows s !! i) as [a|] eqn:Ea; [|done]. destruct (as_rows s !! j) as [b|] eqn:Eb; [|done].
  simpl in Hi, Hj.
  pose proof (list_elem_of_lookup_2 _ _ _ Ea) as Ha. pose proof (list_elem_of_lookup_2 _ _ _ Eb) as Hb.
  assert (∀ x, x ∈ as_rows s → is_account from user x = true → x = row) as Honly.
  { intros x Hx Hxw. apply (NoDup_key_inj ar_user_id (as_rows s)); [done..|].
    apply is_account_spec in Hxw, Hw. destruct Hxw, Hw. congruence. }
  assert (∀ x, x ∈ as_rows s → handle_key x = handle_key (set_tenant to row) → False) as Hfree.
  { intros x Hx Heq. apply Ee, existsb_exists. exists x. split; [by apply list_elem_of_In|].
    unfold handle_key in Heq. injection Heq as Ht Hh. unfold same_handle.
    by rewrite Ht, Hh, !String.eqb_refl. }
  destruct (is_account from user a) eqn:Eqa, (is_account from user b) eqn:Eqb.
  - rewrite (Honly a Ha Eqa) in Ea. rewrite (Honly b Hb Eqb) in Eb.
    eapply (NoDup_lookup (ar_user_id <$> as_rows s)); [done| |];
      rewrite list_lookup_fmap; [by rewrite Ea|by rewrite Eb].
  - rewrite (Honly a Ha Eqa) in Hi. destruct (Hfree b Hb). congruence.
  - rewrite (Honly b Hb Eqb) in Hj. destruct (Hfree a Ha). congruence.
  - eapply (NoDup_lookup (handle_key <$> as_rows s)); [done| |]; rewrite list_lookup_fmap;
      [by rewrite Ea|by rewrite Eb].
Qed.

(** What [verify_password] does to the rows: nothing, or the upgrade. *)
Lemma verify_password_rows tenant identity pw salt s :
  let s' := (verify_password h tenant identity pw salt s).2 in
  as_rows s' = as_rows s
  ∨ ∃ row hash, read_row_by_identity s tenant identity = Some row ∧ ph_verify h pw (stored_hash row) = true
    ∧ ph_needs_rehash h (stored_hash row) = true ∧ ph_hash h salt pw = Ok hash
    ∧ as_rows s' = update_where (is_account (ar_tenant_id row) (ar_user_id row)) (set_hash hash) (as_rows s).
Proof.
  unfold verify_password, verify, hash. destruct (read_row_by_identity s tenant identity) as [row|] eqn:Er.
  - cbn. destruct (ph_verify h pw (stored_hash row)) eqn:Ev; [|by left]. simpl.
    destruct (ph_needs_rehash h (stored_hash row)) eqn:En; [|by left].
    destruct (ph_hash h salt pw) as [hash|] eqn:Eh; [|by left]. right. by exists row, hash.
  - left. unfold verify_dummy_password, hash, verify. destruct (as_dummy_hash s); [done|]. by destruct (ph_hash _ _ _).
Qed.
End Table.

(** ** Histories *)

(** The operations that write. *)
Inductive AccountOp : Type :=
| Ac_create (input : CreateAccountInput) (salt : blob) (now_ms : Z)
| Ac_set_password (tenant_id user_id new_password : string) (salt : blob)
| Ac_verify (tenant_id identity password : string) (salt : blob)
| Ac_move (from_tenant_id user_id to_tenant_id : string)
| Ac_delete (tenant_id user_id : string).
Definition account_op (h : FrickPasswordHasher) (msg : string) (s : AccountStore) (op : AccountOp) : AccountStore :=
  match op with
  | Ac_create input salt now => (create h msg input salt now s).2
  | Ac_set_password tenant user pw salt => (set_password h tenant user pw salt s).2
  | Ac_verify tenant identity pw salt => (verify_password h tenant identity pw salt s).2
  | Ac_move from user to => (move_account msg from user to s).2
  | Ac_delete tenant user => (delete tenant user s).2
  end.

Lemma rows_ok_step h msg s op : rows_ok (as_rows s) → rows_ok (as_rows (account_op h msg s op)).
Proof.
  intros Hok. pose proof Hok as [Hu Hk]. destruct op as [input salt now|tenant user pw salt|tenant identity pw salt|from user to|tenant user]; simpl.
  - destruct (create h msg input salt now s) as [[a|e] s'] eqn:E; simpl.
    + apply account_created in E as (hash & _ & Hf & _ & ->). unfold rows_ok. rewrite !fmap_app. split;
        apply NoDup_app; (split; [done|]); (split; [|apply NoDup_singleton]);
        intros k (r & -> & Hr)%list_elem_of_fmap; simpl; rewrite list_elem_of_singleton;
        destruct (Hf r Hr) as [Hf1 Hf2]; done.
    + by apply create_err in E as ->.
  - unfold set_password, hash. destruct (ph_hash h salt pw) as [x|]; [|done]. cbn [snd as_rows with_rows].
    unfold rows_ok. by rewrite !update_where_fmap.
  - destruct (verify_password_rows h tenant identity pw salt s) as [->|(row & x & _ & _ & _ & _ & ->)]; [done|].
    unfold rows_ok. by rewrite !update_where_fmap.
  - by apply account_moved.
  - cbn [snd as_rows with_rows]. split; (eapply sublist_NoDup; [done|]); apply fmap_sublist, select_sublist.
Qed.

(** In every table the store reaches, an account is known by its user id over
    all tenants, and by its handle, without case, within its tenant. *)
Theorem accounts_unique h msg (ops : list AccountOp) (s : AccountStore) a b :
  as_rows s = [] → a ∈ as_rows (foldl (account_op h msg) s ops) → b ∈ as_rows (foldl (account_op h msg) s ops) →
  ar_user_id a = ar_user_id b
  ∨ ar_tenant_id a = ar_tenant_id b ∧ same_handle (ar_handle a) (ar_handle b) = true → a = b.
Proof.
  intros He. assert (rows_ok (as_rows (foldl (account_op h msg) s ops))) as [Hu Hk].
  { assert (rows_ok (as_rows s)) as Hok by (rewrite He; split; constructor). clear He. revert s Hok.
    induction ops as [|op ops IH]; intros s Hok; [done|]. simpl. by apply IH, rows_ok_step. }
  intros Ha Hb [Hid|[Ht Hh]]; [by eapply (NoDup_key_inj ar_user_id)|].
  apply (NoDup_key_inj handle_key (as_rows (foldl (account_op h msg) s ops))); [done..|].
  apply same_handle_spec in Hh. unfold handle_key. by rewrite Ht, Hh.
Qed.

(** ** Lazy migration *)

Section Migration.
Context (h : FrickPasswordHasher) `{!HasherLaws h}.

Definition stale (r : AccountRow) : bool := ph_needs_rehash h (stored_hash r).
Definition stale_rows (s : AccountStore) : nat := length (select stale (as_rows s)).

(** A login attempt: tenant, identity, password and the salt drawn. *)
Definition attempt (s : AccountStore) (a : string * string * string * blob) : AccountStore :=
  (verify_password h a.1.1.1 a.1.1.2 a.1.2 a.2 s).2.
(** How many attempts of a history rewrote a row. *)
Fixpoint upgrades (s : AccountStore) (attempts : list (string * string * string * blob)) : nat :=
  match attempts with
  | [] => 0
  | a :: rest =>
      let s' := attempt s a in
      ((if decide (ar_password_hash <$> as_rows s' = ar_password_hash <$> as_rows s) then 0 else 1)
       + upgrades s' rest)%nat
  end.

Lemma upgraded_fresh salt pw hash r :
  ph_hash h salt pw = Ok hash → stored_hash (set_hash hash r) = hash.
Proof. intros Hh. apply to_stored_hash_tagged. by eapply hl_tagged. Qed.

(** Replacing the hash of a stale row leaves one stale row less. *)
Lemma stale_update tenant user salt pw hash (rows : list AccountRow) row :
  NoDup (ar_user_id <$> rows) → row ∈ rows → is_account tenant user row = true → stale row = true →
  ph_hash h salt pw = Ok hash →
  S (length (select stale (update_where (is_account tenant user) (set_hash hash) rows)))
  = length (select stale rows).
Proof.
  intros Hn Hin Hw Hs Hh. apply list_elem_of_split in Hin as (l1 & l2 & ->).
  assert (∀ l, (∀ r, r ∈ l → ar_user_id r ≠ ar_user_id row) →
    update_where (is_account tenant user) (set_hash hash) l = l) as Hsame.
  { intros l Hl. unfold update_where. rewrite <- (list_fmap_id l) at 2. apply list_fmap_ext. intros _ r Hr%list_elem_of_lookup_2.
    destruct (is_account tenant user r) eqn:E; [|done]. apply is_account_spec in E, Hw. destruct E, Hw.
    destruct (Hl r Hr). congruence. }
  rewrite fmap_app, fmap_cons in Hn. apply NoDup_app in Hn as (_ & Hd & [Hd2 _]%NoDup_cons).
  assert (stale (set_hash hash row) = false) as Hf.
  { unfold stale. rewrite (upgraded_fresh salt pw) by done. by eapply hl_settled. }
  unfold update_where in *. rewrite fmap_app, fmap_cons, Hw. rewrite (Hsame l1), (Hsame l2).
  - unfold select. rewrite !List.filter_app. cbn [List.filter]. rewrite Hs, Hf, !length_app. simpl. lia.
  - intros r Hr Heq. apply Hd2. rewrite <- Heq. by apply list_elem_of_fmap_2.
  - intros r Hr Heq. apply (Hd (ar_user_id r)); [by apply list_elem_of_fmap_2|]. rewrite Heq. left.
Qed.

Lemma attempt_stale s a :
  rows_ok (as_rows s) →
  rows_ok (as_rows (attempt s a))
  ∧ (as_rows (attempt s a) = as_rows s ∨ S (stale_rows (attempt s a)) = stale_rows s).
Proof.
  intros Hok. split.
  { exact (rows_ok_step h "" s (Ac_verify a.1.1.1 a.1.1.2 a.1.2 a.2) Hok). }
  destruct (verify_password_rows h a.1.1.1 a.1.1.2 a.1.2 a.2 s) as [He|(row & hash & Hr & _ & Hs & Hh & He)]; [by left|].
  right. unfold stale_rows. unfold attempt. rewrite He. apply head_select in Hr as [Hin _].
  eapply stale_update; [apply Hok|done| |done|done]. by apply is_account_spec.
Qed.
End Migration.

(** C30: The lazy migration ends: over any history of login attempts, right or wrong,
    a stored hash is rewritten at most once for every row that was stale at the
    start, and a store without stale rows is never rewritten. *)
Theorem rehash_settles (h : FrickPasswordHasher) `{!HasherLaws h} (s : AccountStore)
    (attempts : list (string * string * string * blob)) :
  rows_ok (as_rows s) → (upgrades h s attempts ≤ stale_rows h s)%nat.
Proof.
  revert s. induction attempts as [|a attempts IH]; intros s Hok; simpl; [lia|].
  destruct (attempt_stale h s a Hok) as [Hok' Hs]. specialize (IH _ Hok'). destruct Hs as [He|Hs].
  - assert (stale_rows h (attempt h s a) = stale_rows h s) as Heq by (unfold stale_rows; by rewrite He).
    rewrite He. rewrite decide_True by done. lia.
  - destruct (decide _); lia.
Qed.

(** ** Verification *)

(** The answer of [verify_password], from the rows alone. *)
Definition accepts (h : FrickPasswordHasher) (rows : list AccountRow) (tenant_id identity password : string) :
    option StoredAccount :=
  match list.head (select (matches tenant_id identity identity) rows) with
  | Some row => if ph_verify h password (stored_hash row) then Some (map_account_row row) else None
  | None => None
  end.

Lemma verify_password_answer h tenant identity pw salt s :
  (verify_password h tenant identity pw salt s).1 = Ok (accepts h (as_rows s) tenant identity pw).
Proof.
  unfold verify_password, accepts, read_row_by_identity. destruct (list.head _) as [row|]; [|done].
  simpl. by destruct (ph_verify h pw (stored_hash row)).
Qed.

Lemma head_select_update {R} (w : R → bool) (u : R → bool) (f : R → R) (t : list R) :
  (∀ r, w (f r) = w r) →
  list.head (select w (update_where u f t)) = (λ r, if u r then f r else r) <$> list.head (select w t).
Proof.
  intros Hf. induction t as [|x t IH]; [done|]. simpl. destruct (u x) eqn:E; rewrite ?Hf;
    destruct (w x); simpl; rewrite ?E; done.
Qed.

(** The upgrade of a hash changes no answer. *)
Lemma accepts_upgrade h `{!HasherLaws h} rows row salt pw hash tenant identity other :
  NoDup (ar_user_id <$> rows) → row ∈ rows → ph_verify h pw (stored_hash row) = true → ph_hash h salt pw = Ok hash →
  accepts h (update_where (is_account (ar_tenant_id row) (ar_user_id row)) (set_hash hash) rows) tenant identity other
  = accepts h rows tenant identity other.
Proof.
  intros Hn Hin Hv Hh. unfold accepts. rewrite head_select_update by done.
  destruct (list.head (select (matches tenant identity identity) rows)) as [r|] eqn:Er; [|done]. simpl.
  apply head_select in Er as [Hr _]. destruct (is_account _ _ r) eqn:E; [|done].
  assert (r = row) as ->.
  { apply is_account_spec in E as [_ Hid]. by apply (NoDup_key_inj ar_user_id rows). }
  rewrite (upgraded_fresh h salt pw) by done. rewrite (hl_verify _ _ _ other Hh).
  change (map_account_row (set_hash hash row)) with (map_account_row row).
  destruct (ph_verify h other (stored_hash row)) eqn:Eo.
  - rewrite bool_decide_eq_true_2; [done|]. by eapply hl_one.
  - rewrite bool_decide_eq_false_2; [done|]. intros ->. congruence.
Qed.

(** A login attempt accepts exactly the password of the account the identity
    names and changes no later answer, whether or not it upgraded the hash; and
    once the dummy hash is seeded a refused attempt costs one verification and
    writes nothing, the same for an unknown identity as for a wrong password. *)
Theorem password_check_exact (h : FrickPasswordHasher) `{!HasherLaws h} tenant identity pw salt
    (s : AccountStore) :
  rows_ok (as_rows s) →
  let r := verify_password h tenant identity pw salt s in
  r.1 = Ok (accepts h (as_rows s) tenant identity pw)
  ∧ (∀ tenant' identity' other,
       accepts h (as_rows r.2) tenant' identity' other = accepts h (as_rows s) tenant' identity' other)
  ∧ (r.1 = Ok None → is_Some (as_dummy_hash s) →
     r.2 = {| as_rows := as_rows s; as_dummy_hash := as_dummy_hash s; as_work := as_work s ++ [Called_verify] |}).
Proof.
  intros [Hn _]. cbv zeta. split; [apply verify_password_answer|]. split.
  - intros tenant' identity' other.
    destruct (verify_password_rows h tenant identity pw salt s) as [->|(row & hash & Hr & Hv & _ & Hh & ->)]; [done|].
    apply head_select in Hr as [Hin _]. by eapply accepts_upgrade.
  - intros Hnone [d Hd]. unfold verify_password in *.
    destruct (read_row_by_identity s tenant identity) as [row|]; simpl in *.
    + destruct (ph_verify h pw (stored_hash row)); [done|]. done.
    + unfold verify_dummy_password. destruct s as [rows dummy work]. simpl in Hd. by subst dummy.
Qed.

(** ** Evaluation *)

Module SampleAccounts.
Import ToyPassword.
Definition msg : string := "UNIQUE constraint failed: auth_accounts.user_id".
Definition argon : FrickPasswordHasher := default_password_hasher.
Definition empty : AccountStore := {| as_rows := []; as_dummy_hash := None; as_work := [] |}.
Definition ada : CreateAccountInput :=
  {| ca_tenant_id := "_default"; ca_user_id := "user-ada"; ca_handle := "ada"; ca_display_name := "Ada";
     ca_password := "hunter22" |}.
(** Ada's row, still with a scrypt hash. *)
Definition old : AccountStore := (create (create_password_hasher Hasher_Scrypt) msg ada [1] 1700000000000 empty).2.
Definition seeded : AccountStore := attempt argon old ("_default", "nobody", "x", [2]).
End SampleAccounts.
Import SampleAccounts.

Lemma accounts_unique_witness :
  ∃ a b, as_rows (foldl (account_op argon msg) empty [Ac_create ada [1] 0; Ac_create ada [1] 1]) = [a] ∧ b = a.
Proof.
  eexists _, _. split; [reflexivity|].
  apply (accounts_unique argon msg [Ac_create ada [1] 0; Ac_create ada [1] 1] empty _ _ eq_refl).
  - left.
  - left.
  - left. reflexivity.
Defined.

Lemma rehash_settles_witness :
  (upgrades (@default_password_hasher ToyPassword.crypto) old
     [("_default", "ADA", "hunter22", [3%Z]); ("_default", "ada", "wrong", [4%Z]); ("_default", "ada", "hunter22", [5%Z])]
   ≤ stale_rows (@default_password_hasher ToyPassword.crypto) old)%nat
  ∧ stale_rows (@default_password_hasher ToyPassword.crypto) old = 1%nat.
Proof.
  split; [|vm_compute; reflexivity]. apply rehash_settles.
  - exact (@created_hasher_laws ToyPassword.crypto ToyPassword.laws Hasher_Argon2).
  - split; vm_compute; repeat constructor; by inversion 1.
Defined.

Lemma password_check_exact_witness :
  accepts (@default_password_hasher ToyPassword.crypto) (as_rows seeded) "_default" "Ada" "hunter22"
  = Some (map_account_row (hd {| ar_user_id := ""; ar_tenant_id := ""; ar_handle := ""; ar_display_name := "";
                                 ar_password_salt := ""; ar_password_hash := ""; ar_created_at := "" |} (as_rows seeded)))
  ∧ (attempt argon seeded ("_default", "ada", "wrong", [6])).(as_work) = as_work seeded ++ [Called_verify].
Proof.
  split; [vm_compute; reflexivity|]. unfold attempt.
  assert (rows_ok (as_rows seeded)) as Hok by (split; vm_compute; repeat constructor; by inversion 1).
  pose proof (@password_check_exact argon (@created_hasher_laws ToyPassword.crypto ToyPassword.laws Hasher_Argon2) "_default" "ada" "wrong" [6] seeded Hok)
    as (_ & _ & Hw).
  cbn [fst snd]. rewrite Hw; [done|vm_compute; reflexivity|vm_compute; by eexists].
Defined.
