(* ===== verification/AuthRoutes.v ===== *)
(** * Authentication routes ([frick-server/src/auth_routes.rs])

    The password and email routes over the account, session, tenant, registration
    lock, password reset and refresh token stores, the limiter of [http.rs] and
    the app's lifecycle hooks ([auth_lifecycle.rs]). A route is a step on
    [AuthWorld]; what a hook itself writes into the app's tables is the app's.
    Random tokens and salts are the arguments of [Draws]; digests are
    parameters. *)

From Stdlib Require Import ZArith Lia Ascii String SpecFloat.
From stdpp Require Import base gmap strings list sorting pretty.
From S2P Require Import Prelude Value Timestamp StoreBase Encryption Authz ServerErrors Sessions RegLock Credentials RefreshTokens Text PasswordHasher Accounts Gateway.

(** ** The limiter ([http.rs]) *)

(** Start and count of the window of each key. *)
Abbreviation AuthLimiter := (gmap string (Z * Z)).
Module Limiter.
Definition check (key : string) (now_ms window_ms limit : Z) (windows : AuthLimiter) : bool * AuthLimiter :=
  let entry := default (now_ms, 0) (windows !! key) in
  let entry := if window_ms <=? i64_sub now_ms entry.1 then (now_ms, 0) else entry in
  let count := (entry.2 + 1) mod 2 ^ 32 in
  (count <=? limit, <[key := (entry.1, count)]> windows).
End Limiter.

(** ** Lifecycle hooks ([auth_lifecycle.rs]) *)

Record AuthFullName : Type := { fn_given_name : option string; fn_family_name : option string }.
Inductive AuthIdentity : Type :=
| Identity_Email (email : string)
| Identity_Provider (provider subject handle : string) (email : option string) (full_name : option AuthFullName).
Record FirstSignInContext : Type := {
  fs_now_ms : Z; fs_auth_tenant_id : string; fs_identity : AuthIdentity; fs_proposed_user_id : string;
  fs_proposed_display_name : string;
}.
Record AuthSessionContext : Type := {
  sc_now_ms : Z; sc_auth_tenant_id : string; sc_identity : AuthIdentity; sc_user_id : string;
  sc_display_name : string;
}.
Record AuthLifecycleOutcome : Type := {
  lo_session_tenant_id : string; lo_user_id : string; lo_display_name : string;
}.
Definition unchanged (tenant_id user_id display_name : string) : AuthLifecycleOutcome :=
  {| lo_session_tenant_id := tenant_id; lo_user_id := user_id; lo_display_name := display_name |}.
Record AuthLifecycle : Type := {
  on_first_sign_in : FirstSignInContext → result ServerError AuthLifecycleOutcome;
  resolve_session : AuthSessionContext → result ServerError AuthLifecycleOutcome;
}.
Definition NoopAuthLifecycle : AuthLifecycle := {|
  on_first_sign_in ctx :=
    Ok (unchanged (fs_auth_tenant_id ctx) (fs_proposed_user_id ctx) (fs_proposed_display_name ctx));
  resolve_session ctx := Ok (unchanged (sc_auth_tenant_id ctx) (sc_user_id ctx) (sc_display_name ctx));
|}.

(** ** State *)

Record AuthConfig : Type := {
  demo_auth_enabled : bool; implicit_tenant_creation : bool;
  session_ttl_seconds : spec_float; auth_rate_limit_window_ms : Z; max_auth_attempts_per_window : Z;
  reglock_expiry_seconds : Z; schema_hash : string;
}.
Record PasswordResetEmail : Type := { pe_tenant_id : string; pe_to : string; pe_reset_url : string }.
Record AuthWorld : Type := {
  aw_auth : AuthState; aw_accounts : AccountStore; aw_locks : gmap (string * string) RegistrationLockRecord;
  aw_resets : gmap string ResetRow; aw_refresh : gmap string RefreshRow; aw_limiter : AuthLimiter;
  aw_gateway : option Hub;
  (** what was handed to the email router *)
  aw_emails : list PasswordResetEmail;
}.
Definition with_auth (x : AuthState) (w : AuthWorld) : AuthWorld :=
  {| aw_auth := x; aw_accounts := aw_accounts w; aw_locks := aw_locks w; aw_resets := aw_resets w;
     aw_refresh := aw_refresh w; aw_limiter := aw_limiter w; aw_gateway := aw_gateway w; aw_emails := aw_emails w |}.
Definition with_accounts (x : AccountStore) (w : AuthWorld) : AuthWorld :=
  {| aw_auth := aw_auth w; aw_accounts := x; aw_locks := aw_locks w; aw_resets := aw_resets w;
     aw_refresh := aw_refresh w; aw_limiter := aw_limiter w; aw_gateway := aw_gateway w; aw_emails := aw_emails w |}.
Definition with_locks (x : gmap (string * string) RegistrationLockRecord) (w : AuthWorld) : AuthWorld :=
  {| aw_auth := aw_auth w; aw_accounts := aw_accounts w; aw_locks := x; aw_resets := aw_resets w;
     aw_refresh := aw_refresh w; aw_limiter := aw_limiter w; aw_gateway := aw_gateway w; aw_emails := aw_emails w |}.
Definition with_resets (x : gmap string ResetRow) (w : AuthWorld) : AuthWorld :=
  {| aw_auth := aw_auth w; aw_accounts := aw_accounts w; aw_locks := aw_locks w; aw_resets := x;
     aw_refresh := aw_refresh w; aw_limiter := aw_limiter w; aw_gateway := aw_gateway w; aw_emails := aw_emails w |}.
Definition with_refresh (x : gmap string RefreshRow) (w : AuthWorld) : AuthWorld :=
  {| aw_auth := aw_auth w; aw_accounts := aw_accounts w; aw_locks := aw_locks w; aw_resets := aw_resets w;
     aw_refresh := x; aw_limiter := aw_limiter w; aw_gateway := aw_gateway w; aw_emails := aw_emails w |}.
Definition with_limiter (x : AuthLimiter) (w : AuthWorld) : AuthWorld :=
  {| aw_auth := aw_auth w; aw_accounts := aw_accounts w; aw_locks := aw_locks w; aw_resets := aw_resets w;
     aw_refresh := aw_refresh w; aw_limiter := x; aw_gateway := aw_gateway w; aw_emails := aw_emails w |}.
Definition with_gateway (x : option Hub) (w : AuthWorld) : AuthWorld :=
  {| aw_auth := aw_auth w; aw_accounts := aw_accounts w; aw_locks := aw_locks w; aw_resets := aw_resets w;
     aw_refresh := aw_refresh w; aw_limiter := aw_limiter w; aw_gateway := x; aw_emails := aw_emails w |}.
Definition with_email (x : PasswordResetEmail) (w : AuthWorld) : AuthWorld :=
  {| aw_auth := aw_auth w; aw_accounts := aw_accounts w; aw_locks := aw_locks w; aw_resets := aw_resets w;
     aw_refresh := aw_refresh w; aw_limiter := aw_limiter w; aw_gateway := aw_gateway w;
     aw_emails := aw_emails w ++ [x] |}.
Definition with_sessions (x : gmap string SessionRow) (w : AuthWorld) : AuthWorld :=
  with_auth {| st_sessions := x; st_tenants := st_tenants (aw_auth w) |} w.
Definition with_tenants (x : gmap string TenantRow) (w : AuthWorld) : AuthWorld :=
  with_auth {| st_sessions := st_sessions (aw_auth w); st_tenants := x |} w.

(** A refused request: an error, or the challenge of the registration lock. *)
Inductive AuthRefusal : Type := Refuse (e : ServerError) | Challenged (r : Refusal).
Record SessionBody : Type := {
  sb_schema_hash : string; sb_session_token : string; sb_tenant_id : string; sb_user_id : string;
  sb_display_name : option string; sb_handle : option string; sb_email : option string;
  sb_provider : option string; sb_device_id : string; sb_replica_id : string; sb_expires_at : string;
}.
Inductive AuthReply : Type :=
| Reply_session (status : Z) (body : SessionBody) (is_new_user : option bool)
| Reply_refreshed (body : SessionBody) (refresh_token refresh_token_expires_at : string)
| Reply_ok.

(** The random draws of a request. *)
Record Draws : Type := {
  d_session_token : string; d_device : string; d_replica : string; d_user : string; d_password : string;
  d_reset_token : string; d_fresh_token : string; d_salt : blob;
}.

Abbreviation Route := (M AuthWorld AuthRefusal).
Definition refuse {A} (e : ServerError) : Route A := lift_res (Err (Refuse e)).
(** A store call, its error left to the caller. *)
Definition call {S E A} (get : AuthWorld → S) (put : S → AuthWorld → AuthWorld) (m : M S E A) :
    Route (result E A) := λ w,
  let '(r, t) := m (get w) in (Ok r, put t w).
Definition effect (f : AuthWorld → AuthWorld) : Route unit := λ w, (Ok tt, f w).
(** [match .. { Err(error) => return respond_error(&error, ..) }]. *)
Definition respond {A} (r : result ServerError A) : Route A := lift_res (map_err Refuse r).

(** ** Helpers *)

Definition NUL : string := String (ascii_of_nat 0) EmptyString.
Definition MIN_EMAIL_PASSWORD_LENGTH : Z := 8.

Definition user_id_from_handle (tenant_id handle : string) : string :=
  let base := replace_char "_" "-" handle in
  if String.eqb tenant_id DEFAULT_TENANT_ID then "user-" +:+ base else "user-" +:+ tenant_id +:+ "-" +:+ base.

Definition is_ascii_lowercase (c : ascii) : bool := (97 <=? Str.byte c) && (Str.byte c <=? 122).
Definition is_ascii_digit (c : ascii) : bool := (48 <=? Str.byte c) && (Str.byte c <=? 57).
Definition is_ascii_alphanumeric (c : ascii) : bool := is_ascii_lowercase (Str.lower_ascii c) || is_ascii_digit c.
Definition handle_char (c : ascii) : bool := is_ascii_lowercase c || is_ascii_digit c || Ascii.eqb c "_" || Ascii.eqb c "-".
Fixpoint all_chars (p : ascii → bool) (s : string) : bool :=
  match s with EmptyString => true | String c s' => p c && all_chars p s' end.

(** The loop of [dev_handle_from_user_id]; the bytes of a non-ASCII character
    are one run. *)
Fixpoint dev_handle_from (in_run : bool) (s : string) : string :=
  match s with
  | EmptyString => EmptyString
  | String ch s' =>
      if is_ascii_alphanumeric ch || Ascii.eqb ch "_" || Ascii.eqb ch "-"
      then String (Str.lower_ascii ch) (dev_handle_from false s')
      else if negb in_run then String "-" (dev_handle_from true s') else dev_handle_from true s'
  end.
Definition dev_handle_from_user_id (user_id : string) : string :=
  let stripped := default user_id (strip_prefix "user-" user_id) in
  let truncated := String.substring 0 32 (dev_handle_from false stripped) in
  if Str.is_empty truncated then "dev-user" else truncated.

Definition bad_request (message : string) : ServerError := SE_BadRequest message.
Definition char_count (s : string) : Z := Z.of_nat (length (Str.chars s)).

Definition normalize_display_name (raw : string) : result ServerError string :=
  let collapsed := join " " (split_whitespace raw) in
  if (2 <=? char_count collapsed) && (char_count collapsed <=? 80) then Ok collapsed
  else Err (SE_BadRequest "displayName must be 2–80 characters").

Definition last_char (s : string) : option ascii := String.get (String.length s - 1) s.
Definition normalize_handle_strict (raw : string) : result ServerError string :=
  let handle := Str.to_lowercase raw in
  let valid_len := (3 <=? String.length handle)%nat && (String.length handle <=? 32)%nat in
  let valid_chars := all_chars handle_char handle in
  let end_ok c := match c with Some c => is_ascii_alphanumeric c | None => false end in
  let valid_ends := end_ok (String.get 0 handle) && end_ok (last_char handle) in
  if valid_len && valid_chars && valid_ends then Ok handle else Err (SE_BadRequest "invalid handle").

Definition normalize_email (raw : option string) : string :=
  match raw with Some value => Str.to_lowercase (Str.trim value) | None => EmptyString end.
Definition no_at_or_space (segment : string) : bool :=
  negb (Str.is_empty segment) && negb (has_char "@" segment || has_ws segment).
Definition is_valid_email (email : string) : bool :=
  match split_once "@" email with
  | None => false
  | Some (local, domain) =>
      if negb (no_at_or_space local) then false
      else match rsplit_once "." domain with
           | None => false
           | Some (host, tld) => no_at_or_space host && no_at_or_space tld
           end
  end.
Definition email_local_part (email : string) : string := default email (list.head (split "@" email)).
Definition reset_url (token : string) : string := "/auth/email/reset?token=" +:+ token.

Definition client_ip (headers : HeaderMap) : string :=
  let get (name : string) : option string := value ← (headers !! name : option string); to_str value in
  let nonempty (s : string) : option string := if Str.is_empty s then None else Some s in
  match (forwarded ← get "x-forwarded-for"; nonempty (Str.trim (default EmptyString (list.head (split "," forwarded))))) with
  | Some ip => ip
  | None => default "unknown" (real ← get "x-real-ip"; nonempty (Str.trim real))
  end.

Definition email_taken : ServerError := SE_EmailTaken.
Definition invalid_credentials : ServerError := SE_Authentication "Invalid credentials".
Definition invalid_refresh_token : ServerError := SE_Authentication "Invalid refresh token".

(** [millis as i64]: towards zero, [NaN] is 0; the caller has bounded it. *)
Definition f64_as_i64 (x : spec_float) : Z :=
  match x with
  | S754_finite s m e =>
      let n := if 0 <=? e then Z.pos m * 2 ^ e else Z.pos m / 2 ^ (- e) in
      if s then - n else n
  | _ => 0
  end.
Definition session_ttl_ms (session_ttl_seconds : spec_float) : Z :=
  let millis := Bucket.mul session_ttl_seconds (Bucket.of_Z 1000) in
  if SFleb (Bucket.of_Z 9007199254740992) millis then i64_max
  else if SFleb millis (Bucket.of_Z (-9007199254740992)) then i64_min
  else f64_as_i64 millis.
Definition i64_saturating_add (a b : Z) : Z := Z.max i64_min (Z.min i64_max (a + b)).

(** ** Bodies *)

Record SignupBody : Type := {
  su_display_name : string; su_handle : string; su_password : string; su_tenant_id : option string;
  su_device_id : option string; su_replica_id : option string;
}.
Record LoginBody : Type := {
  lb_identity : string; lb_password : string; lb_tenant_id : option string; lb_device_id : option string;
  lb_replica_id : option string; lb_recovery_pin_verifier : option string;
}.
Record DevLoginBody : Type := {
  dl_user_id : string; dl_tenant_id : option string; dl_device_id : option string; dl_replica_id : option string;
}.
Record EmailSignupBody : Type := {
  es_email : option string; es_password : option string; es_display_name : option string;
  es_tenant_id : option string; es_device_id : option string; es_replica_id : option string;
}.
Record EmailLoginBody : Type := {
  el_email : option string; el_password : option string; el_tenant_id : option string;
  el_device_id : option string; el_replica_id : option string; el_recovery_pin_verifier : option string;
}.

Section Routes.
Context (cfg : AuthConfig) (hasher : FrickPasswordHasher) (lifecycle : AuthLifecycle).
Context (session_token_digest hash_verifier hash_reset hash_refresh : string → string).
Context (constraint_failed : string).

Definition precheck (route tenant_id identity : string) (now_ms : Z) : Route unit :=
  allowed ← call (st_tenants ∘ aw_auth) with_tenants
              (ensure_tenant_allowed tenant_id (implicit_tenant_creation cfg) now_ms);
  respond allowed;;
  let key := route +:+ NUL +:+ tenant_id +:+ NUL +:+ identity in
  let limit := if (0 <=? max_auth_attempts_per_window cfg) && (max_auth_attempts_per_window cfg <=? u32_max)
               then max_auth_attempts_per_window cfg else 30 in
  under ← (λ w, let '(b, t) := Limiter.check key now_ms (auth_rate_limit_window_ms cfg) limit (aw_limiter w) in
                (Ok b, with_limiter t w));
  if under : bool then mret tt else refuse (SE_Limit MaxAuthAttemptsPerWindow VNil).

Definition mint_session (tenant_id user_id device_id replica_id token : string) (now_ms : Z) :
    Route (string * string) :=
  let expires_at := iso_from_epoch_ms (i64_saturating_add now_ms (session_ttl_ms (session_ttl_seconds cfg))) in
  created ← call (st_sessions ∘ aw_auth) with_sessions
    (Sessions.create session_token_digest constraint_failed
       {| cs_session_token := token; cs_tenant_id := tenant_id; cs_user_id := user_id;
          cs_device_id := device_id; cs_replica_id := replica_id; cs_expires_at := expires_at |} now_ms);
  match created with
  | Ok _ => mret (token, expires_at)
  | Err _ => refuse SE_Internal
  end.

Definition device_or (id : option string) (d : Draws) : string := default ("device-" +:+ d_device d) id.
Definition replica_or (id : option string) (d : Draws) : string := default ("replica-" +:+ d_replica d) id.

Definition signup (body : SignupBody) (d : Draws) (now_ms : Z) : Route AuthReply :=
  let tenant_id := default DEFAULT_TENANT_ID (su_tenant_id body) in
  precheck "signup" tenant_id (Str.to_lowercase (su_handle body)) now_ms;;
  display_name ← respond (normalize_display_name (su_display_name body));
  handle ← respond (normalize_handle_strict (su_handle body));
  (if (8 <=? char_count (su_password body)) && (char_count (su_password body) <=? 256) then mret tt
   else refuse (SE_BadRequest "password must be 8–256 characters"));;
  let user_id := user_id_from_handle tenant_id handle in
  created ← call aw_accounts with_accounts
    (Accounts.create hasher constraint_failed
       {| ca_tenant_id := tenant_id; ca_user_id := user_id; ca_handle := handle;
          ca_display_name := display_name; ca_password := su_password body |} (d_salt d) now_ms);
  match created with
  | Err error => refuse (SE_BadRequest (StoreError_display error))
  | Ok _ =>
      let device_id := device_or (su_device_id body) d in
      let replica_id := replica_or (su_replica_id body) d in
      '(token, expires_at) ← mint_session tenant_id user_id device_id replica_id (d_session_token d) now_ms;
      mret (Reply_session 201
        {| sb_schema_hash := schema_hash cfg; sb_session_token := token; sb_tenant_id := tenant_id;
           sb_user_id := user_id; sb_display_name := Some display_name; sb_handle := Some handle;
           sb_email := None; sb_provider := None; sb_device_id := device_id; sb_replica_id := replica_id;
           sb_expires_at := expires_at |} None)
  end.

(** [if let Err(challenge) = check_registration_lock(..) { return challenge; }]. *)
Definition registration_gate (tenant_id user_id : string) (verifier : option string) (now_ms : Z) : Route unit :=
  gate ← call aw_locks with_locks
    (check_registration_lock hash_verifier (reglock_expiry_seconds cfg) tenant_id user_id verifier now_ms);
  lift_res (map_err Challenged gate).

Definition login (body : LoginBody) (d : Draws) (now_ms : Z) : Route AuthReply :=
  let tenant_id := default DEFAULT_TENANT_ID (lb_tenant_id body) in
  precheck "login" tenant_id (Str.to_lowercase (lb_identity body)) now_ms;;
  verified ← call aw_accounts with_accounts
    (verify_password hasher tenant_id (lb_identity body) (lb_password body) (d_salt d));
  match verified with
  | Ok (Some account) =>
      registration_gate tenant_id (ac_user_id account) (lb_recovery_pin_verifier body) now_ms;;
      let device_id := device_or (lb_device_id body) d in
      let replica_id := replica_or (lb_replica_id body) d in
      '(token, expires_at) ← mint_session tenant_id (ac_user_id account) device_id replica_id (d_session_token d) now_ms;
      mret (Reply_session 200
        {| sb_schema_hash := schema_hash cfg; sb_session_token := token; sb_tenant_id := tenant_id;
           sb_user_id := ac_user_id account; sb_display_name := Some (ac_display_name account);
           sb_handle := Some (ac_handle account); sb_email := None; sb_provider := None;
           sb_device_id := device_id; sb_replica_id := replica_id; sb_expires_at := expires_at |} None)
  | _ => refuse (SE_Authentication "Invalid credentials")
  end.

Definition dev_login (body : DevLoginBody) (d : Draws) (now_ms : Z) : Route AuthReply :=
  if negb (demo_auth_enabled cfg)
  then refuse (SE_Authorization "demo auth is disabled" (Some "demoAuthDisabled"))
  else
    let tenant_id := default DEFAULT_TENANT_ID (dl_tenant_id body) in
    precheck "dev-login" tenant_id (dl_user_id body) now_ms;;
    w ← get_state;
    (if bool_decide (is_Some (read_by_identity (aw_accounts w) tenant_id (dl_user_id body))) then mret tt
     else
       created ← call aw_accounts with_accounts
         (Accounts.create hasher constraint_failed
            {| ca_tenant_id := tenant_id; ca_user_id := dl_user_id body;
               ca_handle := dev_handle_from_user_id (dl_user_id body); ca_display_name := dl_user_id body;
               ca_password := d_password d |} (d_salt d) now_ms);
       match created with
       | Err error => refuse (SE_BadRequest (StoreError_display error))
       | Ok _ => mret tt
       end);;
    let device_id := device_or (dl_device_id body) d in
    let replica_id := replica_or (dl_replica_id body) d in
    '(token, expires_at) ← mint_session tenant_id (dl_user_id body) device_id replica_id (d_session_token d) now_ms;
    mret (Reply_session 200
      {| sb_schema_hash := schema_hash cfg; sb_session_token := token; sb_tenant_id := tenant_id;
         sb_user_id := dl_user_id body; sb_display_name := None; sb_handle := None; sb_email := None;
         sb_provider := None; sb_device_id := device_id; sb_replica_id := replica_id;
         sb_expires_at := expires_at |} None).

Definition logout (headers : HeaderMap) (session_token : option string) : Route AuthReply :=
  match (match session_token_from_headers headers with Some t => Some t | None => session_token end) with
  | None => refuse (SE_Authentication "session token required")
  | Some token =>
      call (st_sessions ∘ aw_auth) with_sessions (Sessions.delete session_token_digest token);;
      effect (λ w, match aw_gateway w with
                   | Some hub => with_gateway (Some (close_session (Token token) hub).2) w
                   | None => w
                   end);;
      mret Reply_ok
  end.

(** ** Email *)

Definition mint_email_session_response (tenant_id user_id display_name email : string)
    (device replica : option string) (d : Draws) (now_ms : Z) (is_new_user : bool) : Route AuthReply :=
  let device_id := device_or device d in
  let replica_id := replica_or replica d in
  '(token, expires_at) ← mint_session tenant_id user_id device_id replica_id (d_session_token d) now_ms;
  mret (Reply_session (if is_new_user then 201 else 200)
    {| sb_schema_hash := schema_hash cfg; sb_session_token := token; sb_tenant_id := tenant_id;
       sb_user_id := user_id; sb_display_name := Some display_name; sb_handle := Some email;
       sb_email := Some email; sb_provider := None; sb_device_id := device_id; sb_replica_id := replica_id;
       sb_expires_at := expires_at |} (Some is_new_user)).

Definition email_signup (body : EmailSignupBody) (d : Draws) (now_ms : Z) : Route AuthReply :=
  let tenant_id := default DEFAULT_TENANT_ID (es_tenant_id body) in
  let email := normalize_email (es_email body) in
  let password := default EmptyString (es_password body) in
  if negb (is_valid_email email) then refuse (bad_request "invalid email")
  else if char_count password <? MIN_EMAIL_PASSWORD_LENGTH
  then refuse (bad_request ("Password must be at least " +:+ fmt MIN_EMAIL_PASSWORD_LENGTH +:+ " characters."))
  else
    precheck "email-signup" tenant_id email now_ms;;
    w ← get_state;
    if bool_decide (is_Some (read_by_identity (aw_accounts w) tenant_id email)) then refuse email_taken
    else
      let trimmed := Str.trim (default EmptyString (es_display_name body)) in
      let display_name := if Str.is_empty trimmed then email_local_part email else trimmed in
      first_sign_in ← respond (on_first_sign_in lifecycle
        {| fs_now_ms := now_ms; fs_auth_tenant_id := tenant_id; fs_identity := Identity_Email email;
           fs_proposed_user_id := "user-email-" +:+ d_user d; fs_proposed_display_name := display_name |});
      created ← call aw_accounts with_accounts
        (Accounts.create hasher constraint_failed
           {| ca_tenant_id := tenant_id; ca_user_id := lo_user_id first_sign_in; ca_handle := email;
              ca_display_name := lo_display_name first_sign_in; ca_password := password |} (d_salt d) now_ms);
      match created with
      | Err error =>
          if contains_str "taken" (Str.to_lowercase (StoreError_display error)) then refuse email_taken
          else refuse SE_Internal
      | Ok _ =>
          mint_email_session_response (lo_session_tenant_id first_sign_in) (lo_user_id first_sign_in)
            (lo_display_name first_sign_in) email (es_device_id body) (es_replica_id body) d now_ms true
      end.

Definition email_login (body : EmailLoginBody) (d : Draws) (now_ms : Z) : Route AuthReply :=
  let tenant_id := default DEFAULT_TENANT_ID (el_tenant_id body) in
  let email := normalize_email (el_email body) in
  let password := default EmptyString (el_password body) in
  if Str.is_empty email || Str.is_empty password then refuse (bad_request "email and password are required")
  else
    precheck "email-login" tenant_id email now_ms;;
    verified ← call aw_accounts with_accounts (verify_password hasher tenant_id email password (d_salt d));
    match verified with
    | Ok (Some account) =>
        registration_gate tenant_id (ac_user_id account) (el_recovery_pin_verifier body) now_ms;;
        session ← respond (resolve_session lifecycle
          {| sc_now_ms := now_ms; sc_auth_tenant_id := tenant_id; sc_identity := Identity_Email email;
             sc_user_id := ac_user_id account; sc_display_name := ac_display_name account |});
        mint_email_session_response (lo_session_tenant_id session) (lo_user_id session) (lo_display_name session)
          email (el_device_id body) (el_replica_id body) d now_ms false
    | _ => refuse invalid_credentials
    end.

Definition email_forgot_password (headers : HeaderMap) (email_field tenant_field : option string) (d : Draws)
    (now_ms : Z) : Route AuthReply :=
  let tenant_id := default DEFAULT_TENANT_ID tenant_field in
  let email := normalize_email email_field in
  if Str.is_empty email then refuse (bad_request "invalid email")
  else
    precheck "forgot-password" tenant_id (email +:+ " ip:" +:+ client_ip headers) now_ms;;
    w ← get_state;
    match read_by_identity (aw_accounts w) tenant_id email with
    | None => mret Reply_ok
    | Some account =>
        issued ← call aw_resets with_resets
          (Reset.issue hash_reset constraint_failed (d_reset_token d) tenant_id (ac_user_id account)
             DEFAULT_RESET_TTL_MINUTES now_ms);
        match issued with
        | Err _ => mret Reply_ok
        | Ok issued =>
            effect (with_email {| pe_tenant_id := tenant_id; pe_to := email;
                                  pe_reset_url := reset_url (Credentials.ir_token issued) |});;
            mret Reply_ok
        end
    end.

Definition email_reset_password (token_field password_field : option string) (d : Draws) (now_ms : Z) :
    Route AuthReply :=
  let token := default EmptyString token_field in
  let password := default EmptyString password_field in
  if Str.is_empty token then refuse (bad_request "missing token")
  else
    precheck "reset-password" DEFAULT_TENANT_ID token now_ms;;
    if char_count password <? MIN_EMAIL_PASSWORD_LENGTH
    then refuse (bad_request ("Password must be at least " +:+ fmt MIN_EMAIL_PASSWORD_LENGTH +:+ " characters."))
    else
      consumed ← call aw_resets with_resets (Reset.consume hash_reset token now_ms);
      match consumed with
      | Ok (Some consumed) =>
          ok ← call aw_accounts with_accounts
            (set_password hasher (cr_tenant_id consumed) (cr_user_id consumed) password (d_salt d));
          match ok with
          | Ok true =>
              call (st_sessions ∘ aw_auth) with_sessions
                (Sessions.delete_for_user (cr_user_id consumed) (Some (cr_tenant_id consumed)));;
              call aw_refresh with_refresh
                (RefreshTokens.revoke_for_user (cr_user_id consumed) (Some (cr_tenant_id consumed)) now_ms);;
              mret Reply_ok
          | _ => refuse (bad_request "account no longer exists")
          end
      | _ => refuse (bad_request "invalid or expired token")
      end.

(** ** Refresh *)

Definition refresh (headers : HeaderMap) (refresh_token : option string) (d : Draws) (now_ms : Z) :
    Route AuthReply :=
  let presented := default EmptyString refresh_token in
  if Str.is_empty presented then refuse (bad_request "refreshToken required")
  else
    precheck "refresh" DEFAULT_TENANT_ID (client_ip headers) now_ms;;
    rotated ← call aw_refresh with_refresh
      (RefreshTokens.rotate hash_refresh constraint_failed presented (d_fresh_token d)
         DEFAULT_REFRESH_TTL_SECONDS now_ms);
    match rotated with
    | Ok (Some record) =>
        w ← get_state;
        if bool_decide (is_Some (read_by_identity (aw_accounts w) (RefreshTokens.ir_tenant_id record)
                                   (RefreshTokens.ir_user_id record)))
        then
          effect (λ w, with_locks (touch_reglock_activity (RefreshTokens.ir_tenant_id record)
                                     (RefreshTokens.ir_user_id record) now_ms (aw_locks w)) w);;
          '(token, expires_at) ← mint_session (RefreshTokens.ir_tenant_id record) (RefreshTokens.ir_user_id record)
            (RefreshTokens.ir_device_id record) (RefreshTokens.ir_replica_id record) (d_session_token d) now_ms;
          mret (Reply_refreshed
            {| sb_schema_hash := schema_hash cfg; sb_session_token := token;
               sb_tenant_id := RefreshTokens.ir_tenant_id record; sb_user_id := RefreshTokens.ir_user_id record;
               sb_display_name := None; sb_handle := None; sb_email := None; sb_provider := None;
               sb_device_id := RefreshTokens.ir_device_id record;
               sb_replica_id := RefreshTokens.ir_replica_id record; sb_expires_at := expires_at |}
            (RefreshTokens.ir_token record) (RefreshTokens.ir_expires_at record))
        else refuse invalid_refresh_token
    | _ => refuse invalid_refresh_token
    end.

Definition refresh_revoke (refresh_token : option string) (now_ms : Z) : Route AuthReply :=
  let presented := default EmptyString refresh_token in
  if Str.is_empty presented then refuse (bad_request "refreshToken required")
  else call aw_refresh with_refresh (RefreshTokens.revoke hash_refresh presented now_ms);; mret Reply_ok.
End Routes.
