(* ===== verification/AuthSafety.v ===== *)
(** * Properties of the authentication routes

    What the routes of [AuthRoutes] guarantee about passwords, sessions and
    guesses, and where they fall short of their documentation. *)

From Stdlib Require Import ZArith Lia Ascii String SpecFloat.
From stdpp Require Import base gmap strings list sorting pretty.
From S2P Require Import Prelude Value Timestamp StoreBase Encryption Authz ServerErrors Sessions RegLock Credentials RefreshTokens Text PasswordHasher Accounts Gateway AuthRoutes.

(** ** The first step of every route *)

Section Steps.
Context (cfg : AuthConfig).

(** The tenant gate and the limiter touch nothing else. *)
Lemma precheck_cases route tenant identity now w :
  ∃ tenants limiter, (precheck cfg route tenant identity now w).2 = with_limiter limiter (with_tenants tenants w)
  ∧ ((precheck cfg route tenant identity now w).1 = Ok tt
     ∨ ∃ e, (precheck cfg route tenant identity now w).1 = Err (Refuse e)).
Proof.
  unfold precheck, call, respond, refuse. run_M.
  destruct (ensure_tenant_allowed _ _ _ _) as [[[]|e] tenants]; cbn [map_err].
  - match goal with |- context [Limiter.check ?k ?n ?wi ?l ?t] =>
      destruct (Limiter.check k n wi l t) as [[] limiter]; exists tenants, limiter end;
      (split; [done|]); [by left|right; by eexists].
  - exists tenants, (aw_limiter w). split; [by destruct w|]. right. by eexists.
Qed.
End Steps.

Lemma check_lock_sessions cfg hv tenant user v now (w : AuthWorld) :
  (registration_gate cfg hv tenant user v now w).2 = with_locks (check_registration_lock hv (reglock_expiry_seconds cfg) tenant user v now (aw_locks w)).2 w
  ∧ is_ok (registration_gate cfg hv tenant user v now w).1
    = is_ok (check_registration_lock hv (reglock_expiry_seconds cfg) tenant user v now (aw_locks w)).1.
Proof.
  unfold registration_gate, call. run_M.
  by destruct (check_registration_lock _ _ _ _ _ _ _) as [[]].
Qed.

(** The row [mint_session] inserts. *)
Definition minted (cfg : AuthConfig) (tenant user device replica : string) (now : Z) : SessionRow :=
  {| sn_tenant_id := tenant; sn_user_id := user; sn_device_id := device; sn_replica_id := replica;
     sn_expires_at := iso_from_epoch_ms (i64_saturating_add now (session_ttl_ms (session_ttl_seconds cfg)));
     sn_created_at := iso_from_epoch_ms now; sn_last_seen_at := iso_from_epoch_ms now |}.

Lemma mint_session_run cfg digest msg tenant user device replica token now w :
  mint_session cfg digest msg tenant user device replica token now w
  = match st_sessions (aw_auth w) !! digest token with
    | Some _ => (Err (Refuse SE_Internal), w)
    | None =>
        (Ok (token, sn_expires_at (minted cfg tenant user device replica now)),
         with_sessions (<[digest token := minted cfg tenant user device replica now]> (st_sessions (aw_auth w))) w)
    end.
Proof.
  unfold mint_session, call, refuse, Sessions.create. run_M. cbn [compose cs_session_token].
  change ((st_sessions ∘ aw_auth) w) with (st_sessions (aw_auth w)).
  destruct (st_sessions (aw_auth w) !! digest token); [|done]. cbn. f_equal. destruct w as [[]]. done.
Qed.

Section Login.
Context (cfg : AuthConfig) (h : FrickPasswordHasher) (digest hash_verifier : string → string) (msg : string).

(** What a login has to satisfy, from the state before it. *)
Definition login_passes (body : LoginBody) (now : Z) (w : AuthWorld) : option StoredAccount :=
  let tenant := default DEFAULT_TENANT_ID (lb_tenant_id body) in
  if is_ok (precheck cfg "login" tenant (Str.to_lowercase (lb_identity body)) now w).1 then
    match accepts h (as_rows (aw_accounts w)) tenant (lb_identity body) (lb_password body) with
    | Some account =>
        if is_ok (check_registration_lock hash_verifier (reglock_expiry_seconds cfg) tenant (ac_user_id account)
                    (lb_recovery_pin_verifier body) now (aw_locks w)).1
        then Some account else None
    | None => None
    end
  else None.

Lemma login_run body d now w :
  let tenant := default DEFAULT_TENANT_ID (lb_tenant_id body) in
  let r := login cfg h digest hash_verifier msg body d now w in
  match login_passes body now w with
  | None => is_ok r.1 = false ∧ st_sessions (aw_auth r.2) = st_sessions (aw_auth w)
  | Some account =>
      match st_sessions (aw_auth w) !! digest (d_session_token d) with
      | Some _ => is_ok r.1 = false ∧ st_sessions (aw_auth r.2) = st_sessions (aw_auth w)
      | None =>
          is_ok r.1 = true
          ∧ st_sessions (aw_auth r.2)
            = <[digest (d_session_token d) := minted cfg tenant (ac_user_id account) (device_or (lb_device_id body) d)
                                                 (replica_or (lb_replica_id body) d) now]> (st_sessions (aw_auth w))
      end
  end.
Proof.
  cbv zeta. unfold login_passes, login. run_M.
  set (tenant := default DEFAULT_TENANT_ID (lb_tenant_id body)).
  destruct (precheck_cases cfg "login" tenant (Str.to_lowercase (lb_identity body)) now w)
    as (tenants & limiter & Hw & Hr).
  destruct (precheck cfg "login" tenant (Str.to_lowercase (lb_identity body)) now w) as [r0 w0].
  cbn [fst snd] in Hw, Hr. subst w0. destruct Hr as [->|[e ->]]; [|done]. cbn [is_ok].
  unfold call. pose proof (verify_password_answer h tenant (lb_identity body) (lb_password body) (d_salt d) (aw_accounts w)) as Ha.
  change (aw_accounts (with_limiter limiter (with_tenants tenants w))) with (aw_accounts w).
  destruct (verify_password h tenant (lb_identity body) (lb_password body) (d_salt d) (aw_accounts w)) as [a accounts].
  cbn [fst] in Ha. subst a. destruct (accepts _ _ _ _ _) as [account|]; [|done].
  match goal with |- context [registration_gate ?a ?b ?c ?d ?e ?f ?g] =>
    destruct (check_lock_sessions a b c d e f g) as [Hg1 Hg2];
    destruct (registration_gate a b c d e f g) as [g1 g2] end.
  cbn [fst snd] in Hg1, Hg2. change (aw_locks (with_accounts _ _)) with (aw_locks w) in *.
  rewrite <- Hg2. clear Hg2. subst g2. destruct g1 as [[]|e]; cbn [is_ok]; [|done].
  rewrite mint_session_run. cbn [st_sessions aw_auth with_locks with_accounts with_limiter with_tenants with_auth].
  by destruct (st_sessions (aw_auth w) !! digest (d_session_token d)).
Qed.
End Login.

(** C7: A login is let in exactly when the tenant is open and has attempts left, the
    identity names an account whose password was given and the registration
    lock passes; it then adds one session, of that account in that tenant and
    for the fresh token, and until it expires the token resolves to the account
    while the tenant is not archived. Every other login leaves the sessions as
    they are. *)
Theorem login_exact (cfg : AuthConfig) (h : FrickPasswordHasher) (digest hash_verifier : string → string)
    (msg : string) (body : LoginBody) (d : Draws) (now : Z) (w : AuthWorld) :
  st_sessions (aw_auth w) !! digest (d_session_token d) = None →
  let tenant := default DEFAULT_TENANT_ID (lb_tenant_id body) in
  let r := login cfg h digest hash_verifier msg body d now w in
  is_ok r.1 = bool_decide (is_Some (login_passes cfg h hash_verifier body now w))
  ∧ (is_ok r.1 = false → st_sessions (aw_auth r.2) = st_sessions (aw_auth w))
  ∧ ∀ account, login_passes cfg h hash_verifier body now w = Some account →
      (∀ k, k ≠ digest (d_session_token d) → st_sessions (aw_auth r.2) !! k = st_sessions (aw_auth w) !! k)
      ∧ ∀ later, session_expired (sn_expires_at (minted cfg tenant (ac_user_id account) "" "" now)) later = false →
          is_tenant_archived (st_tenants (aw_auth r.2)) tenant = false →
          resolves digest (aw_auth r.2) (d_session_token d) later
          = Ok {| p_user_id := ac_user_id account; p_device_id := device_or (lb_device_id body) d;
                  p_replica_id := replica_or (lb_replica_id body) d; p_tenant_id := tenant;
                  p_scope := Scope_Tenant; p_service_scopes := [] |}.
Proof.
  intros Hf. cbv zeta. pose proof (login_run cfg h digest hash_verifier msg body d now w) as Hrun. cbv zeta in Hrun.
  destruct (login_passes cfg h hash_verifier body now w) as [account|].
  - rewrite Hf in Hrun. destruct Hrun as [-> Hs]. split; [done|]. split; [done|]. intros ? [= <-]. split.
    + intros k Hk. by rewrite Hs, lookup_insert_ne by done.
    + intros later He Ha. unfold resolves. rewrite resolution_cases, Hs, lookup_insert_eq.
      cbn [sn_expires_at minted] in *. rewrite He. cbn [sn_tenant_id minted]. by rewrite Ha.
  - destruct Hrun as [-> ->]. done.
Qed.

(** ** Password reset *)

Lemma precheck_default cfg route identity now w :
  st_tenants (aw_auth (precheck cfg route DEFAULT_TENANT_ID identity now w).2) = st_tenants (aw_auth w).
Proof.
  unfold precheck, call, respond, refuse. run_M. unfold ensure_tenant_allowed. rewrite String.eqb_refl. cbn [map_err].
  match goal with |- context [Limiter.check ?k ?n ?wi ?l ?t] => by destruct (Limiter.check k n wi l t) as [[] limiter] end.
Qed.

Section ResetRun.
Context (cfg : AuthConfig) (h : FrickPasswordHasher) (hash_reset : string → string).

Lemma consume_run token now (t : gmap string ResetRow) :
  Reset.consume hash_reset token now t
  = match t !! hash_reset token with
    | None => (Ok None, t)
    | Some row =>
        if bool_decide (is_Some (rr_consumed_at row)) || Str.ltb (Credentials.rr_expires_at row) (iso_from_epoch_ms now)
        then (Ok None, t)
        else (Ok (Some {| cr_tenant_id := Credentials.rr_tenant_id row; cr_user_id := Credentials.rr_user_id row |}),
              alter (set_consumed (iso_from_epoch_ms now)) (hash_reset token) t)
    end.
Proof. unfold Reset.consume, transaction. destruct (t !! _) as [row|]; [|done]. by destruct (_ || _). Qed.

(** A successful reset, step by step. *)
Lemma reset_run token pw d now w w' reply :
  email_reset_password cfg h hash_reset token pw d now w = (Ok reply, w') →
  ∃ row hash, aw_resets w !! hash_reset (default EmptyString token) = Some row ∧ rr_consumed_at row = None
    ∧ ph_hash h (d_salt d) (default EmptyString pw) = Ok hash
    ∧ let tenant := Credentials.rr_tenant_id row in let user := Credentials.rr_user_id row in
      (∃ r, r ∈ as_rows (aw_accounts w) ∧ is_account tenant user r = true)
      ∧ as_rows (aw_accounts w') = update_where (is_account tenant user) (set_hash hash) (as_rows (aw_accounts w))
      ∧ st_sessions (aw_auth w') = filter (λ kr, Sessions.of_user user (Some tenant) kr.2 = false) (st_sessions (aw_auth w))
      ∧ aw_refresh w' = revoke_where (RefreshTokens.of_user user (Some tenant)) (iso_from_epoch_ms now) (aw_refresh w)
      ∧ aw_resets w' = alter (set_consumed (iso_from_epoch_ms now)) (hash_reset (default EmptyString token)) (aw_resets w)
      ∧ st_tenants (aw_auth w') = st_tenants (aw_auth w).
Proof.
  unfold email_reset_password. destruct (Str.is_empty _); [done|]. run_M.
  destruct (precheck_cases cfg "reset-password" DEFAULT_TENANT_ID (default EmptyString token) now w)
    as (tenants & limiter & Hw & Hr).
  pose proof (precheck_default cfg "reset-password" (default EmptyString token) now w) as Hd.
  destruct (precheck _ _ _ _ _ w) as [r0 w0]. cbn [fst snd] in Hw, Hr, Hd. subst w0. cbn in Hd. subst tenants.
  destruct Hr as [->|[e ->]]; [|done]. destruct (_ <? _); [done|]. unfold call.
  change (aw_resets (with_limiter _ _)) with (aw_resets w). rewrite consume_run.
  destruct (aw_resets w !! _) as [row|]; [|done].
  destruct (bool_decide (is_Some (rr_consumed_at row))) eqn:Ec; [done|]. cbn [orb].
  destruct (Str.ltb _ _); [done|]. unfold set_password, Accounts.hash.
  cbn [cr_tenant_id cr_user_id].
  destruct (ph_hash h (d_salt d) (default EmptyString pw)) as [hash|]; [|done].
  change (as_rows (spend Called_hash (aw_accounts _))) with (as_rows (aw_accounts w)).
  destruct (Z.ltb_spec 0 (changes (is_account (Credentials.rr_tenant_id row) (Credentials.rr_user_id row))
                            (as_rows (aw_accounts w)))) as [Hc|]; [|done].
  intros [= <- <-]. exists row, hash. split; [done|]. split.
  { apply bool_decide_eq_false in Ec. by apply eq_None_not_Some. }
  split; [done|]. by apply changes_pos in Hc.
Qed.
End ResetRun.

(** C11: A successful password reset cuts off every earlier credential of the account
    in its tenant: no session of it resolves, no refresh token of it is active,
    its password is the new one and nothing else, and the token that was used is
    spent. Accounts, sessions and refresh tokens of others stay as they are. *)
Theorem reset_cuts_off (cfg : AuthConfig) (h : FrickPasswordHasher) `{!HasherLaws h}
    (digest hash_reset hash_refresh : string → string) token pw d now (w w' : AuthWorld) :
  email_reset_password cfg h hash_reset token pw d now w = (Ok Reply_ok, w') →
  ∃ row, aw_resets w !! hash_reset (default EmptyString token) = Some row
  ∧ let tenant := Credentials.rr_tenant_id row in let user := Credentials.rr_user_id row in
    (∀ session later p, resolves digest (aw_auth w') session later = Ok p →
       ¬ (p_tenant_id p = tenant ∧ p_user_id p = user))
    ∧ (∀ refresh later r, RefreshTokens.read_active hash_refresh (aw_refresh w') refresh later = Some r →
         ¬ (RefreshTokens.rr_tenant_id r = tenant ∧ RefreshTokens.rr_user_id r = user))
    ∧ (∃ r, r ∈ as_rows (aw_accounts w') ∧ is_account tenant user r = true)
    ∧ (∀ r other, r ∈ as_rows (aw_accounts w') → is_account tenant user r = true →
         ph_verify h other (stored_hash r) = bool_decide (other = default EmptyString pw))
    ∧ (∀ r, is_account tenant user r = false → r ∈ as_rows (aw_accounts w') ↔ r ∈ as_rows (aw_accounts w))
    ∧ (∀ k r, Sessions.of_user user (Some tenant) r = false →
         st_sessions (aw_auth w') !! k = Some r ↔ st_sessions (aw_auth w) !! k = Some r)
    ∧ ∀ pw' d' now' , is_ok (email_reset_password cfg h hash_reset token pw' d' now' w').1 = false.
Proof.
  intros Hrun. pose proof (reset_run _ _ _ _ _ _ _ _ _ _ Hrun) as (row & hash & Hrow & Hnc & Hh & (ar & Har & Haw) & Ha & Hs & Hf & Ht & _).
  exists row. split; [done|]. cbv zeta. repeat split.
  - intros session later p (srow & Hl & Hu & Ht')%resolved_row [Hpt Hpu]. rewrite Hs in Hl.
    apply map_lookup_filter_Some in Hl as [_ Hno]. unfold Sessions.of_user in Hno. cbn in Hno.
    destruct Ht' as [Ht' _]. by rewrite Hu, Ht', Hpt, Hpu, !String.eqb_refl in Hno.
  - intros refresh later r. rewrite Hf. unfold RefreshTokens.read_active, revoke_where. rewrite lookup_fmap.
    destruct (aw_refresh w !! hash_refresh refresh) as [x|]; [|done]. cbn.
    destruct (RefreshTokens.of_user _ _ x) eqn:Eu; cbn.
    + destruct (bool_decide (rt_revoked_at x = None)) eqn:En; cbn; [done|].
      destruct (bool_decide (is_Some (rt_revoked_at x))) eqn:Es; [done|].
      apply bool_decide_eq_false in En, Es. by apply not_eq_None_Some in En.
    + intros Hr [Hrt Hru]. destruct (bool_decide _); [done|]. destruct (is_expired _ _); [done|].
      injection Hr as <-. cbn in Hrt, Hru. unfold RefreshTokens.of_user in Eu.
      by rewrite Hrt, Hru, !String.eqb_refl in Eu.
  - exists (set_hash hash ar). rewrite Ha. split; [|done]. unfold update_where. apply list_elem_of_fmap.
    exists ar. by rewrite Haw.
  - intros r other Hr Hw. rewrite Ha in Hr. apply list_elem_of_fmap in Hr as (r0 & -> & _).
    destruct (is_account _ _ r0) eqn:E; [|congruence]. rewrite (upgraded_fresh h (d_salt d) _ _ r0 Hh).
    by apply (hl_verify (d_salt d)).
  - rewrite Ha. intros (r0 & -> & Hr0)%list_elem_of_fmap. destruct (is_account _ _ r0) eqn:E; [|done].
    by rewrite (E : is_account _ _ (set_hash hash r0) = true) in H.
  - intros Hr. rewrite Ha. apply list_elem_of_fmap. exists r. by rewrite H.
  - rewrite Hs. intros [? _]%map_lookup_filter_Some. done.
  - intros Hr. rewrite Hs. by apply map_lookup_filter_Some.
  - intros pw' d' now'. destruct (email_reset_password cfg h hash_reset token pw' d' now' w') as [[reply|e] w2] eqn:E2;
      [|done]. apply reset_run in E2 as (row2 & _ & Hrow2 & Hnc2 & _). rewrite Ht, lookup_alter_eq, Hrow in Hrow2.
    by injection Hrow2 as <-.
Qed.

(** A reset deletes the sessions of the tenant of the account only: a session
    that the app's lifecycle hook placed in another tenant, of the same user too,
    survives it. *)
Theorem reset_spares_hook_tenant (cfg : AuthConfig) (h : FrickPasswordHasher) (digest hash_reset : string → string)
    token pw d now (w w' : AuthWorld) row session later p :
  email_reset_password cfg h hash_reset token pw d now w = (Ok Reply_ok, w') →
  aw_resets w !! hash_reset (default EmptyString token) = Some row →
  p_tenant_id p ≠ Credentials.rr_tenant_id row →
  resolves digest (aw_auth w) session later = Ok p → resolves digest (aw_auth w') session later = Ok p.
Proof.
  intros (row' & hash & Hrow & _ & _ & _ & _ & Hs & _ & _ & Ht)%reset_run Hrow' Hne. assert (row' = row) as -> by congruence.
  unfold resolves. rewrite !resolution_cases, Hs, Ht. destruct (st_sessions (aw_auth w) !! digest session) as [r|] eqn:E; [|done].
  intros Hr. assert (sn_tenant_id r = p_tenant_id p) as Htr.
  { destruct (session_expired _ _); [done|]. cbn in Hr. destruct (is_tenant_archived _ _); [done|]. by injection Hr as <-. }
  rewrite (map_lookup_filter_Some_2 _ _ _ r E); [by destruct (session_expired _ _)|]. cbn. unfold Sessions.of_user. apply andb_false_iff. right.
  rewrite Htr. by apply String.eqb_neq.
Qed.

(** ** Guesses *)

Section Window.
Context (window limit t0 : Z).

(** How many attempts an entry still allows in [t0 .. t0 + window): the rest of
    its window and, when that began before [t0], one more. *)
Definition remaining (e : option (Z * Z)) : Z :=
  match e with
  | None => limit
  | Some (start, c) => Z.max 0 (limit - c) + (if start <? t0 then limit else 0)
  end.
(** The entry is of the past of the interval and [n] more attempts do not wrap
    its counter. *)
Definition entry_ok (n : Z) (e : option (Z * Z)) : Prop :=
  match e with
  | None => n < 2 ^ 32
  | Some (start, c) => 0 ≤ start < t0 + window ∧ 0 ≤ c ∧ c + n < 2 ^ 32
  end.

Lemma check_remaining key k now n (l : AuthLimiter) :
  0 ≤ limit → 0 ≤ t0 → t0 + window ≤ i64_max → t0 ≤ now < t0 + window → 0 ≤ n → entry_ok (n + 1) (l !! key) →
  let r := Limiter.check k now window limit l in
  entry_ok n (r.2 !! key)
  ∧ remaining (r.2 !! key) + (if String.eqb k key && r.1 then 1 else 0) ≤ remaining (l !! key).
Proof.
  intros Hlim Ht0 Hmax Hnow Hn Hok. unfold Limiter.check. cbv zeta. cbn [fst snd].
  destruct (String.eqb_spec k key) as [->|Hk].
  2: { rewrite lookup_insert_ne by done. split; [|simpl; lia].
       destruct (l !! key) as [[start c]|]; simpl in *; lia. }
  rewrite lookup_insert_eq. cbn [andb]. destruct (l !! key) as [[start c]|]; cbn [default fst snd entry_ok remaining id] in *.
  - assert (i64_sub now start = now - start) as -> by (apply wrap64_id; unfold is_i64, i64_min, i64_max in *; lia).
    destruct (Z.leb_spec window (now - start)); cbn [fst snd].
    + rewrite Z.mod_small by lia. destruct (Z.leb_spec (0 + 1) limit), (Z.ltb_spec now t0), (Z.ltb_spec start t0); lia.
    + rewrite Z.mod_small by lia. destruct (Z.leb_spec (c + 1) limit), (Z.ltb_spec start t0); lia.
  - assert (i64_sub now now = 0) as -> by (unfold i64_sub; by rewrite Z.sub_diag).
    destruct (Z.leb_spec window 0); cbn [fst snd]; [lia|]. rewrite Z.mod_small by lia.
    destruct (Z.leb_spec (0 + 1) limit), (Z.ltb_spec now t0); lia.
Qed.
End Window.

Section Guesses.
Context (cfg : AuthConfig) (h : FrickPasswordHasher) (digest hash_verifier : string → string) (msg : string).
Let window := auth_rate_limit_window_ms cfg.
Definition attempt_limit : Z :=
  if (0 <=? max_auth_attempts_per_window cfg) && (max_auth_attempts_per_window cfg <=? u32_max)
  then max_auth_attempts_per_window cfg else 30.
Definition login_key (tenant identity : string) : string := "login" +:+ NUL +:+ tenant +:+ NUL +:+ identity.

Definition login_scope (body : LoginBody) : string * string :=
  (default DEFAULT_TENANT_ID (lb_tenant_id body), Str.to_lowercase (lb_identity body)).
(** The attempts on one tenant and identity that got past the limiter, which are
    those that reach the password. *)
Fixpoint guesses (scope : string * string) (w : AuthWorld) (logins : list (LoginBody * Draws * Z)) : Z :=
  match logins with
  | [] => 0
  | (body, d, now) :: rest =>
      (if bool_decide (login_scope body = scope) && is_ok (precheck cfg "login" scope.1 scope.2 now w).1 then 1 else 0)
      + guesses scope (login cfg h digest hash_verifier msg body d now w).2 rest
  end.

Lemma login_limiter body d now w :
  aw_limiter (login cfg h digest hash_verifier msg body d now w).2
  = aw_limiter (precheck cfg "login" (login_scope body).1 (login_scope body).2 now w).2
  ∧ (is_ok (precheck cfg "login" (login_scope body).1 (login_scope body).2 now w).1 = false →
     aw_accounts (login cfg h digest hash_verifier msg body d now w).2 = aw_accounts w).
Proof.
  unfold login, login_scope. run_M. cbn [fst snd].
  destruct (precheck_cases cfg "login" (default DEFAULT_TENANT_ID (lb_tenant_id body))
              (Str.to_lowercase (lb_identity body)) now w) as (tenants & limiter & Hw & Hr).
  destruct (precheck _ _ _ _ _ w) as [r0 w0]. cbn [fst snd] in Hw, Hr. subst w0.
  destruct Hr as [->|[e ->]]; [|done]. split; [|done]. unfold call.
  destruct (verify_password _ _ _ _ _ _) as [[[account|]|] accounts]; [|done..].
  match goal with |- context [registration_gate ?a ?b ?c ?d ?e ?f ?g] =>
    destruct (check_lock_sessions a b c d e f g) as [Hg1 _];
    destruct (registration_gate a b c d e f g) as [[[]|] g2] end; cbn [fst snd] in Hg1; subst g2; [|done].
  rewrite mint_session_run. by destruct (_ !! _).
Qed.

Lemma precheck_limiter scope body now n t0 w :
  0 ≤ t0 → t0 + window ≤ i64_max → t0 ≤ now < t0 + window → 0 ≤ n →
  let key := login_key scope.1 scope.2 in
  let r := precheck cfg "login" (login_scope body).1 (login_scope body).2 now w in
  entry_ok window t0 (n + 1) (aw_limiter w !! key) →
  entry_ok window t0 n (aw_limiter r.2 !! key)
  ∧ remaining attempt_limit t0 (aw_limiter r.2 !! key) + (if bool_decide (login_scope body = scope) && is_ok r.1 then 1 else 0)
    ≤ remaining attempt_limit t0 (aw_limiter w !! key).
Proof.
  intros Ht0 Hmax Hnow Hn. cbv zeta. intros Hok. unfold precheck, call, respond, refuse. run_M.
  assert (0 ≤ attempt_limit) as Hlim.
  { unfold attempt_limit. destruct (Z.leb_spec 0 (max_auth_attempts_per_window cfg)); cbn; [|lia].
    destruct (_ <=? _); lia. }
  destruct (ensure_tenant_allowed _ _ _ _) as [[[]|e] tenants]; cbn [map_err].
  - fold attempt_limit. fold window. change (aw_limiter (with_tenants _ w)) with (aw_limiter w).
    change ("login" +:+ NUL +:+ (login_scope body).1 +:+ NUL +:+ (login_scope body).2)
      with (login_key (login_scope body).1 (login_scope body).2).
    pose proof (check_remaining window attempt_limit t0 (login_key scope.1 scope.2)
      (login_key (login_scope body).1 (login_scope body).2) now n (aw_limiter w) Hlim Ht0 Hmax Hnow Hn Hok) as [H1 H2].
    destruct (Limiter.check _ _ _ _ _) as [b l]. cbn [fst snd] in *.
    assert (bool_decide (login_scope body = scope) && b = true →
            String.eqb (login_key (login_scope body).1 (login_scope body).2) (login_key scope.1 scope.2) && b = true) as Himp.
    { intros [->%bool_decide_eq_true ->]%andb_true_iff. by rewrite String.eqb_refl. }
    destruct b; cbn [aw_limiter with_limiter fst snd is_ok]; (split; [exact H1|]).
    + destruct (bool_decide _); cbn [andb] in *; [rewrite (Himp eq_refl) in H2|destruct (String.eqb _ _); cbn [andb] in H2]; lia.
    + rewrite !andb_false_r in *. lia.
  - cbn [fst snd is_ok]. change (aw_limiter (with_tenants tenants w)) with (aw_limiter w).
    rewrite andb_false_r. split; [|lia].
    destruct (aw_limiter w !! _) as [[start c]|]; simpl in *; lia.
Qed.

Lemma guesses_remaining scope t0 (logins : list (LoginBody * Draws * Z)) : ∀ w,
  0 ≤ t0 → t0 + window ≤ i64_max → Forall (λ l, t0 ≤ l.2 < t0 + window) logins →
  entry_ok window t0 (Z.of_nat (length logins)) (aw_limiter w !! login_key scope.1 scope.2) →
  0 ≤ remaining attempt_limit t0 (aw_limiter w !! login_key scope.1 scope.2)
  → guesses scope w logins ≤ remaining attempt_limit t0 (aw_limiter w !! login_key scope.1 scope.2).
Proof.
  induction logins as [|[[body d] now] logins IH]; intros w Ht0 Hmax Ht Hok Hpos; [done|].
  apply Forall_cons in Ht as [Hnow Ht]. cbn [snd] in Hnow. cbn [guesses length] in *.
  rewrite Nat2Z.inj_succ, <- Z.add_1_r in Hok.
  destruct (precheck_limiter scope body now (Z.of_nat (length logins)) t0 w Ht0 Hmax Hnow ltac:(lia) Hok) as [H1 H2].
  destruct (login_limiter body d now w) as [Hl _]. rewrite <- Hl in H1, H2.
  specialize (IH _ Ht0 Hmax Ht H1).
  assert (bool_decide (login_scope body = scope) && is_ok (precheck cfg "login" scope.1 scope.2 now w).1
          = bool_decide (login_scope body = scope)
            && is_ok (precheck cfg "login" (login_scope body).1 (login_scope body).2 now w).1) as ->.
  { case_bool_decide as He; [by rewrite He|done]. }
  assert (0 ≤ remaining attempt_limit t0 (aw_limiter (login cfg h digest hash_verifier msg body d now w).2 !! login_key scope.1 scope.2)).
  { unfold remaining. unfold attempt_limit. destruct (_ !! _) as [[]|]; repeat case_match; autorewrite with frick in *; lia. }
  destruct (_ && _); lia.
Qed.
End Guesses.

(** Password guessing is bounded: whatever logins are sent in an interval as
    long as the limiter's window, in any order and for any identities, at most
    twice the configured number of them on one tenant and identity reach the
    password, and a login the limiter stops spends no verification. *)
Theorem login_guesses_bounded (cfg : AuthConfig) (h : FrickPasswordHasher) (digest hash_verifier : string → string)
    (msg : string) (scope : string * string) (t0 : Z) (logins : list (LoginBody * Draws * Z)) (w : AuthWorld) :
  let window := auth_rate_limit_window_ms cfg in
  0 ≤ t0 → t0 + window ≤ i64_max → Forall (λ l, t0 ≤ l.2 < t0 + window) logins →
  entry_ok window t0 (Z.of_nat (length logins)) (aw_limiter w !! login_key scope.1 scope.2) →
  guesses cfg h digest hash_verifier msg scope w logins ≤ 2 * attempt_limit cfg
  ∧ ∀ body d now w, is_ok (precheck cfg "login" (login_scope body).1 (login_scope body).2 now w).1 = false →
      as_work (aw_accounts (login cfg h digest hash_verifier msg body d now w).2) = as_work (aw_accounts w).
Proof.
  cbv zeta. intros Ht0 Hmax Ht Hok. split.
  - assert (0 ≤ attempt_limit cfg) as Hl.
    { unfold attempt_limit. repeat case_match; autorewrite with frick in *; lia. }
    pose proof (guesses_remaining cfg h digest hash_verifier msg scope t0 logins w Ht0 Hmax Ht Hok) as Hg.
    unfold remaining, entry_ok in *. destruct (aw_limiter w !! _) as [[start c]|]; [destruct (start <? t0)|]; lia.
  - intros body d now w0 He. by rewrite (proj2 (login_limiter cfg h digest hash_verifier msg body d now w0) He).
Qed.

(** ** Email addresses *)

(** The documented pattern [^[^@\s]+@[^@\s]+\.[^@\s]+$]. *)
Definition email_pattern (email : string) : Prop :=
  ∃ local host tld, email = local +:+ "@" +:+ host +:+ "." +:+ tld
    ∧ no_at_or_space local = true ∧ no_at_or_space host = true ∧ no_at_or_space tld = true.
Definition ends_with_dot (s : string) : Prop := ∃ a, s = a +:+ ".".

(** No encoding of white space continues over an ASCII byte. *)
Lemma strip_ws_ascii a c b :
  a ≠ EmptyString → Str.byte c < 128 →
  bool_decide (is_Some (Str.strip_ws (a +:+ String c b))) = bool_decide (is_Some (Str.strip_ws a)).
Proof.
  intros Ha Hc. destruct a as [|x a]; [done|]. apply bool_decide_ext.
  change (String x a +:+ String c b) with (String x (a +:+ String c b)). unfold Str.strip_ws.
  destruct (_ || _); [split; eauto|].
  destruct a as [|y a].
  - change ("" +:+ String c b) with (String c b). cbv iota beta zeta.
    case_match; [exfalso; lia|]. destruct b as [|z b]; [done|]. case_match; [exfalso; lia|done].
  - change (String y a +:+ String c b) with (String y (a +:+ String c b)). cbv iota beta zeta.
    case_match; [split; eauto|]. destruct a as [|z a].
    + change ("" +:+ String c b) with (String c b). cbv iota beta zeta. case_match; [exfalso; lia|done].
    + change (String z a +:+ String c b) with (String z (a +:+ String c b)). cbv iota beta zeta.
      case_match; split; eauto.
Qed.
Lemma has_ws_ascii a c b : Str.byte c < 128 → has_ws (a +:+ String c b) = has_ws a || has_ws (String c b).
Proof.
  intros Hc. induction a as [|x a IH]; [done|].
  change (has_ws (String x (a +:+ String c b)) = has_ws (String x a) || has_ws (String c b)).
  cbn [has_ws]. rewrite IH. change (String x (a +:+ String c b)) with (String x a +:+ String c b).
  rewrite strip_ws_ascii by done. cbn [has_ws]. by rewrite orb_assoc.
Qed.
Lemma has_ws_dot a b : has_ws (a +:+ String "." b) = has_ws a || has_ws b.
Proof. rewrite has_ws_ascii by done. cbn [has_ws]. by destruct b as [|x [|y b]]. Qed.

Lemma no_at_or_space_spec s :
  no_at_or_space s = true ↔ s ≠ EmptyString ∧ has_char "@" s = false ∧ has_ws s = false.
Proof.
  unfold no_at_or_space. rewrite andb_true_iff, !negb_true_iff, orb_false_iff. split; intros [H1 [H2 H3]]; split; auto.
  - by intros ->.
  - by destruct s.
Qed.

Lemma dot_end_app a b : b ≠ EmptyString → ends_with_dot (a +:+ b) ↔ ends_with_dot b.
Proof.
  intros Hb. split.
  - intros [x Hx]. revert x Hx. induction a as [|c a IH]; intros x Hx; [by exists x|].
    destruct x as [|c' x].
    + change (String c (a +:+ b) = ".") in Hx. injection Hx as _ Hx. destruct a; [|done]. by destruct b.
    + apply (IH x). change (String c (a +:+ b) = String c' (x +:+ ".")) in Hx. by injection Hx.
  - intros [x ->]. exists (a +:+ x). by rewrite string_app_assoc.
Qed.

(** The signup guard accepts the documented pattern except for addresses that
    end in a dot: those match the pattern, the guard turns them away. *)
Theorem email_guard_exact email :
  is_valid_email email = true ↔ email_pattern email ∧ ¬ ends_with_dot email.
Proof.
  unfold is_valid_email. pose proof (split_once_spec "@" email) as Hs.
  destruct (split_once "@" email) as [[local domain]|].
  2: { split; [done|]. intros [(l & host & tld & -> & _) _]. by rewrite has_char_app, orb_comm in Hs. }
  destruct Hs as [-> Hl]. pose proof (rsplit_once_spec "." domain) as Hr. split.
  - destruct (no_at_or_space local) eqn:El; [|done]. cbn [negb].
    destruct (rsplit_once "." domain) as [[host tld]|]; [|done]. destruct Hr as [-> Hd].
    intros [Hh Ht]%andb_true_iff. split; [by exists local, host, tld|].
    apply no_at_or_space_spec in Ht as (Hne & _).
    change (local +:+ String "@" (host +:+ String "." tld)) with (local +:+ ("@" +:+ host +:+ "." +:+ tld)).
    rewrite <- !string_app_assoc. rewrite dot_end_app by done. intros [x ->].
    by rewrite has_char_app, orb_comm in Hd.
  - intros [(l & h & t & He & Hnl & Hnh & Hnt) Hend].
    assert (l = local ∧ h +:+ "." +:+ t = domain) as [-> <-].
    { pose proof (split_once_app "@" local domain Hl) as H1. rewrite He in H1.
      change (l +:+ "@" +:+ h +:+ "." +:+ t) with (l +:+ String "@" (h +:+ "." +:+ t)) in H1.
      rewrite split_once_app in H1 by (apply no_at_or_space_spec in Hnl; tauto). by injection H1. }
    rewrite Hnl. cbn [negb]. apply no_at_or_space_spec in Hnh as (Hh1 & Hh2 & Hh3), Hnt as (Ht1 & Ht2 & Ht3).
    destruct (rsplit_once "." (h +:+ "." +:+ t)) as [[host tld]|]; [|by rewrite !has_char_app, orb_comm in Hr].
    destruct Hr as [Hd Htld]. change (h +:+ "." +:+ t) with (h +:+ String "." t) in Hd.
    assert (has_char "@" host = false ∧ has_char "@" tld = false) as [Ha1 Ha2].
    { apply orb_false_iff. change (has_char "@" tld) with (has_char "@" (String "." tld)).
      rewrite <- has_char_app, <- Hd, has_char_app. cbn. by rewrite Hh2, Ht2. }
    assert (has_ws host = false ∧ has_ws tld = false) as [Hw1 Hw2].
    { apply orb_false_iff. by rewrite <- has_ws_dot, <- Hd, has_ws_dot, Hh3, Ht3. }
    apply andb_true_iff. rewrite !no_at_or_space_spec. repeat split; try done.
    + intros ->. destruct h; [done|]. change (String a (h +:+ String "." t) = String "." tld) in Hd.
      injection Hd as -> Hd. rewrite <- Hd, has_char_app in Htld. by rewrite orb_comm in Htld.
    + intros ->. destruct Hend. exists (local +:+ "@" +:+ host). rewrite string_app_assoc.
      change (local +:+ String "@" (h +:+ String "." t) = local +:+ String "@" (host +:+ ".")). by rewrite Hd.
Qed.

(** ** User ids *)

Lemma replace_char_none c d s : has_char c s = false → replace_char c d s = s.
Proof. induction s as [|a s IH]; [done|]. simpl. intros [-> H]%orb_false_iff. by rewrite IH. Qed.
Lemma replace_char_app c d a b : replace_char c d (a +:+ b) = replace_char c d a +:+ replace_char c d b.
Proof. induction a as [|x a IH]; [done|]. exact (f_equal (String _) IH). Qed.

(** A tenant's user ids are also those of the default tenant. *)
Lemma user_ids_shared tenant handle :
  tenant ≠ DEFAULT_TENANT_ID → has_char "_" tenant = false →
  user_id_from_handle tenant handle = user_id_from_handle DEFAULT_TENANT_ID (tenant +:+ "-" +:+ handle).
Proof.
  intros Hne Ht. unfold user_id_from_handle. rewrite (proj2 (String.eqb_neq _ _) Hne), String.eqb_refl.
  by rewrite !replace_char_app, (replace_char_none _ _ tenant Ht).
Qed.

(** A handle can be taken without anybody having it: an account of the default
    tenant whose handle is a tenant's name, a dash and a handle has the user id
    that handle would get in the tenant, and user ids are unique over all
    tenants, so a signup that passes every check is refused as taken although
    no account of the tenant has the handle. *)
Theorem signup_squatted (cfg : AuthConfig) (h : FrickPasswordHasher) (digest : string → string) (msg : string)
    (body : SignupBody) (d : Draws) (now : Z) (w : AuthWorld) tenant handle hash r :
  su_tenant_id body = Some tenant → tenant ≠ DEFAULT_TENANT_ID → has_char "_" tenant = false →
  is_ok (precheck cfg "signup" tenant (Str.to_lowercase (su_handle body)) now w).1 = true →
  is_ok (normalize_display_name (su_display_name body)) = true →
  normalize_handle_strict (su_handle body) = Ok handle → 8 ≤ char_count (su_password body) ≤ 256 →
  ph_hash h (d_salt d) (su_password body) = Ok hash → is_constraint_error (Driver msg) = true →
  r ∈ as_rows (aw_accounts w) → ar_tenant_id r = DEFAULT_TENANT_ID →
  ar_user_id r = user_id_from_handle DEFAULT_TENANT_ID (tenant +:+ "-" +:+ handle) →
  (signup cfg h digest msg body d now w).1 = Err (Refuse (SE_BadRequest "Handle is already taken")).
Proof.
  intros Htenant Hne Hu Hp Hd Hh [Hl1 Hl2] Hhash Hc Hr _ Hid. unfold signup. rewrite Htenant. cbn [default id]. run_M.
  destruct (precheck_cases cfg "signup" tenant (Str.to_lowercase (su_handle body)) now w) as (tenants & limiter & Hw & Hres).
  destruct (precheck _ _ _ _ _ w) as [r0 w0]. cbn [fst snd] in Hw, Hres, Hp. subst w0.
  destruct Hres as [->|[e ->]]; [|done]. unfold respond. destruct (normalize_display_name _) as [name|]; [|done].
  rewrite Hh. cbn [map_err]. run_M. rewrite (proj2 (Z.leb_le _ _) Hl1), (proj2 (Z.leb_le _ _) Hl2). cbn [andb].
  unfold call, Accounts.create, Accounts.hash. cbn [ca_password]. rewrite Hhash.
  change (as_rows (spend Called_hash (aw_accounts _))) with (as_rows (aw_accounts w)).
  match goal with |- context [existsb ?f ?l] => replace (existsb f l) with true end.
  { by rewrite Hc. }
  symmetry. apply existsb_exists. exists r. split; [by apply list_elem_of_In|]. cbn [ca_user_id].
  by rewrite Hid, <- user_ids_shared, String.eqb_refl by done.
Qed.

(** ** Evaluation *)

Module SampleAuth.
Import ToyPassword.
Definition cfg : AuthConfig :=
  {| demo_auth_enabled := false; implicit_tenant_creation := true; session_ttl_seconds := Bucket.of_Z 3600;
     auth_rate_limit_window_ms := 300000; max_auth_attempts_per_window := 30; reglock_expiry_seconds := 604800;
     schema_hash := "hash" |}.
Definition argon : FrickPasswordHasher := default_password_hasher.
#[export] Instance argon_laws : HasherLaws argon := created_hasher_laws Hasher_Argon2.
Definition tag (s : string) : string := "#" +:+ s.
Definition msg : string := "UNIQUE constraint failed: auth_accounts.user_id".
Definition draws (n : string) : Draws :=
  {| d_session_token := "session" +:+ n; d_device := "d" +:+ n; d_replica := "r" +:+ n; d_user := "u" +:+ n;
     d_password := "p" +:+ n; d_reset_token := "reset" +:+ n; d_fresh_token := "fresh" +:+ n; d_salt := [1] |}.
Definition t0 : Z := 1700000000000.
Definition empty : AuthWorld :=
  {| aw_auth := {| st_sessions := ∅; st_tenants := ∅ |};
     aw_accounts := {| as_rows := []; as_dummy_hash := None; as_work := [] |}; aw_locks := ∅; aw_resets := ∅;
     aw_refresh := ∅; aw_limiter := ∅; aw_gateway := None; aw_emails := [] |}.
Definition sign_up (handle : string) (tenant : option string) : SignupBody :=
  {| su_display_name := "Ada L"; su_handle := handle; su_password := "hunter22"; su_tenant_id := tenant;
     su_device_id := None; su_replica_id := None |}.
Definition log_in (identity password : string) : LoginBody :=
  {| lb_identity := identity; lb_password := password; lb_tenant_id := None; lb_device_id := None;
     lb_replica_id := None; lb_recovery_pin_verifier := None |}.
(** Somebody of the default tenant with a suggestive handle. *)
Definition squatted : AuthWorld := (signup cfg argon tag msg (sign_up "acme-ada" None) (draws "1") t0 empty).2.

(** An app that puts everybody in the tenant [org]. *)
Definition to_org : AuthLifecycle := {|
  on_first_sign_in ctx := Ok (unchanged "org" (fs_proposed_user_id ctx) (fs_proposed_display_name ctx));
  resolve_session ctx := Ok (unchanged "org" (sc_user_id ctx) (sc_display_name ctx)) |}.
Definition by_email : EmailSignupBody :=
  {| es_email := Some "Ada@example.org"; es_password := Some "hunter22"; es_display_name := None;
     es_tenant_id := None; es_device_id := None; es_replica_id := None |}.
Definition signed_up : AuthWorld := (email_signup cfg argon to_org tag msg by_email (draws "1") t0 empty).2.
Definition forgot : AuthWorld :=
  (email_forgot_password cfg tag msg ∅ (Some "ada@example.org") None (draws "2") (t0 + 1000) signed_up).2.
Definition reset : AuthWorld :=
  (email_reset_password cfg argon tag (Some "reset2") (Some "correct horse") (draws "3") (t0 + 2000) forgot).2.
End SampleAuth.
Import SampleAuth.

Lemma login_exact_witness :
  is_ok (login cfg argon tag tag msg (log_in "ACME-ada" "hunter22") (draws "2") t0 squatted).1 = true.
Proof.
  destruct (login_exact cfg argon tag tag msg (log_in "ACME-ada" "hunter22") (draws "2") t0 squatted) as [-> _];
    [vm_compute; reflexivity|]. vm_compute. reflexivity.
Defined.

Lemma reset_cuts_off_witness :
  is_ok (email_reset_password cfg argon tag (Some "reset2") (Some "again and again") (draws "4") (t0 + 3000) reset).1
  = false.
Proof.
  destruct (reset_cuts_off cfg argon tag tag tag (Some "reset2") (Some "correct horse") (draws "3") (t0 + 2000)
              forgot reset) as (row & _ & _ & _ & _ & _ & _ & _ & H).
  - vm_compute. reflexivity.
  - apply H.
Defined.

Lemma reset_spares_hook_tenant_witness :
  ∃ p, resolves tag (aw_auth reset) "session1" (t0 + 5000) = Ok p ∧ p_tenant_id p = "org".
Proof.
  eexists. split.
  - eapply (reset_spares_hook_tenant cfg argon tag tag (Some "reset2") (Some "correct horse") (draws "3") (t0 + 2000)
              forgot reset); [vm_compute; reflexivity..| |vm_compute; reflexivity]. vm_compute. discriminate.
  - vm_compute. reflexivity.
Defined.

Lemma login_guesses_bounded_witness :
  guesses cfg argon tag tag msg ("_default", "ada") empty
    [(log_in "ada" "a", draws "1", t0); (log_in "ADA" "b", draws "2", t0 + 1)] ≤ 60.
Proof.
  destruct (login_guesses_bounded cfg argon tag tag msg ("_default", "ada") t0
    [(log_in "ada" "a", draws "1", t0); (log_in "ADA" "b", draws "2", t0 + 1)] empty) as [H _];
    [vm_compute; discriminate|vm_compute; discriminate|repeat constructor; vm_compute; done| |exact H].
  vm_compute. reflexivity.
Defined.

Lemma signup_squatted_witness :
  (signup cfg argon tag msg (sign_up "ada" (Some "acme")) (draws "2") (t0 + 1) squatted).1
  = Err (Refuse (SE_BadRequest "Handle is already taken"))
  ∧ existsb (λ r, String.eqb (ar_tenant_id r) "acme") (as_rows (aw_accounts squatted)) = false.
Proof.
  split; [|vm_compute; reflexivity].
  eapply (signup_squatted cfg argon tag msg (sign_up "ada" (Some "acme")) (draws "2") (t0 + 1) squatted "acme" "ada");
    try (vm_compute; reflexivity).
  - discriminate.
  - split; vm_compute; discriminate.
  - vm_compute. left.
  - vm_compute. reflexivity.
  - vm_compute. reflexivity.
Defined.
