(* ===== verification/IdTokens.v ===== *)
(** * Identity providers ([frick-server/src/auth/verify.rs], [auth/jwks.rs],
      [auth/routes.rs], [config.rs])

    Verification of RS256 id-tokens against a provider's published keys, the
    caching key provider, and the Apple, Google and OIDC sign-in routes over
    [AuthRoutes]. The base64, JSON and RSA crates are the class [TokenCrates]; a
    key provider is any state with a [fetch]. *)

From Stdlib Require Import ZArith Lia Ascii String SpecFloat.
From stdpp Require Import base gmap strings list sorting pretty.
From S2P Require Import Prelude Value Schema Timestamp StoreBase Encryption Authz ServerErrors Sessions RegLock Credentials RefreshTokens Text PasswordHasher Accounts Gateway AuthRoutes AuthSafety.

(** ** Keys *)

Record RsaJwk : Type := { jwk_kid : string; jwk_n : string; jwk_e : string }.
Definition Jwks : Type := list RsaJwk.
Definition jwks_key (keys : Jwks) (kid : string) : option RsaJwk :=
  List.find (λ k, String.eqb (jwk_kid k) kid) keys.
Record JwkEntry : Type := { je_kty : string; je_kid : string; je_n : string; je_e : string }.

Record JoseHeader : Type := { jh_alg : string; jh_kid : option string }.
Inductive Audience : Type := Aud_One (value : string) | Aud_Many (values : list string).
Inductive FlexibleBool : Type := Flex_Bool (b : bool) | Flex_Str (s : string) | Flex_Num (n : Z).
Record Claims : Type := {
  cl_iss : option string; cl_sub : option string; cl_aud : option Audience; cl_exp : option Z;
  cl_nonce : option string; cl_email : option string; cl_email_verified : option FlexibleBool;
  cl_name : option string;
}.

(** base64url, [serde_json] at the types it is used at, and RSASSA-PKCS1-v1.5
    with SHA-256: a key from modulus and exponent, whether bytes are a signature,
    and verification. *)
Class TokenCrates := {
  b64url_decode : string → option blob;
  json_header : blob → option JoseHeader;
  json_claims : blob → option Claims;
  json_value : blob → option Value;
  json_text : string → option Value;
  json_keys : string → result string (list JwkEntry);
  RsaKey : Type;
  rsa_key : blob → blob → option RsaKey;
  rsa_signature : blob → bool;
  rsa_verify : RsaKey → blob → blob → bool;
}.

(** The trait: resolve the key set at a URI, from a cache unless forced. *)
Class JwksProvider (P : Type) := fetch : string → bool → P → result string Jwks * P.

(** ** The key cache ([jwks.rs]) *)

Definition MIN_CACHE_TTL_MS : Z := 60000.
Definition MAX_CACHE_TTL_MS : Z := 86400000.
Definition DEFAULT_CACHE_TTL_MS : Z := 3600000.

(** [s.parse::<i64>()]. *)
Definition parse_i64 (s : string) : option Z :=
  match s with
  | String "-" s' =>
      match s' with
      | String "+" _ => None
      | _ => match parse_uint (2 ^ 63) s' with Some n => Some (- n) | None => None end
      end
  | _ => parse_uint i64_max s
  end.

Fixpoint max_age_of (directives : list string) : option Z :=
  match directives with
  | [] => None
  | directive :: rest =>
      match strip_prefix "max-age=" (Str.trim directive) with
      | Some value =>
          match parse_i64 (Str.trim value) with
          | Some seconds => Some (Z.max i64_min (Z.min i64_max (seconds * 1000)))
          | None => max_age_of rest
          end
      | None => max_age_of rest
      end
  end.
Definition parse_max_age_ms (header : string) : option Z := max_age_of (split "," header).

(** What the HTTP client returned: no response, a status, or a success with its
    [Cache-Control] header and body. *)
Inductive HttpOutcome : Type :=
| Http_failed (err : string)
| Http_status (status : string)
| Http_success (cache_control : option string) (text : result string string).
Record CachedJwks : Type := { cj_jwks : Jwks; cj_expires_at_ms : Z }.
(** The provider with its clock and the network it talks to. *)
Record ReqwestJwksProvider : Type := {
  rj_cache : gmap string CachedJwks; rj_clock : Z; rj_web : string → HttpOutcome;
}.

Section Keys.
Context `{TokenCrates}.

Definition parse_jwks (body : string) : result string Jwks :=
  match json_keys body with
  | Err err => Err ("invalid JWKS json: " +:+ err)
  | Ok entries =>
      Ok ((λ k, {| jwk_kid := je_kid k; jwk_n := je_n k; jwk_e := je_e k |})
          <$> List.filter (λ k, String.eqb (je_kty k) "RSA" && negb (Str.is_empty (je_kid k))
                                && negb (Str.is_empty (je_n k)) && negb (Str.is_empty (je_e k))) entries)
  end.

#[export] Instance reqwest_fetch : JwksProvider ReqwestJwksProvider := λ jwks_uri force_refresh p,
  match (if force_refresh then None
         else match rj_cache p !! jwks_uri with
              | Some cached => if rj_clock p <? cj_expires_at_ms cached then Some (cj_jwks cached) else None
              | None => None
              end) with
  | Some jwks => (Ok jwks, p)
  | None =>
      match rj_web p jwks_uri with
      | Http_failed err => (Err ("JWKS fetch failed: " +:+ err), p)
      | Http_status status => (Err ("JWKS fetch failed: HTTP " +:+ status), p)
      | Http_success cache_control text =>
          let ttl_ms := Z.max MIN_CACHE_TTL_MS (Z.min MAX_CACHE_TTL_MS
                          (default DEFAULT_CACHE_TTL_MS
                             (v ← cache_control; s ← to_str v; parse_max_age_ms s))) in
          match text with
          | Err err => (Err ("JWKS read failed: " +:+ err), p)
          | Ok body =>
              match parse_jwks body with
              | Err err => (Err err, p)
              | Ok jwks =>
                  (Ok jwks,
                   {| rj_cache := <[jwks_uri := {| cj_jwks := jwks;
                                                   cj_expires_at_ms := i64_saturating_add (rj_clock p) ttl_ms |}]>
                                    (rj_cache p);
                      rj_clock := rj_clock p; rj_web := rj_web p |})
              end
          end
      end
  end.
End Keys.

(** The fixed provider of the source. *)
Record FixedJwksProvider : Type := { fj_jwks : Jwks }.
#[export] Instance fixed_fetch : JwksProvider FixedJwksProvider := λ _ _ p, (Ok (fj_jwks p), p).

(** ** Verification ([verify.rs]) *)

Definition CLOCK_LEEWAY_SECONDS : Z := 60.
Definition APPLE_ISSUER : string := "https://appleid.apple.com".
Definition APPLE_JWKS_URI : string := "https://appleid.apple.com/auth/keys".
Definition GOOGLE_ISSUERS : list string := ["https://accounts.google.com"; "accounts.google.com"].
Definition GOOGLE_JWKS_URI : string := "https://www.googleapis.com/oauth2/v3/certs".

Inductive VerifyError : Type :=
| MalformedToken | UnsupportedAlgorithm | MissingKid | UnknownKey | BadKey | BadSignature | Expired
| IssuerMismatch | AudienceMismatch | MissingSubject | NonceMismatch | EmailUnverified | JwksUnavailable.

Record VerifiedIdentity : Type := {
  vi_subject : string; vi_email : option string; vi_email_verified : bool; vi_name : option string;
}.
Record VerifyParams : Type := {
  vp_issuers : list string; vp_jwks_uri : string; vp_audiences : list string; vp_expected_nonce : option string;
}.

Definition has (l : list string) (s : string) : bool := existsb (String.eqb s) l.
Definition audience_matches (a : Audience) (audiences : list string) : bool :=
  match a with
  | Aud_One value => has audiences value
  | Aud_Many values => existsb (has audiences) values
  end.
Definition flexible_as_bool (b : FlexibleBool) : bool :=
  match b with Flex_Bool b => b | Flex_Str s => String.eqb s "true" | Flex_Num n => n =? 1 end.
Definition non_empty (o : option string) : option string :=
  match o with Some (String _ _ as s) => Some s | _ => None end.

Section Verify.
Context `{TokenCrates} {P : Type} `{!JwksProvider P}.

Definition verify_rs256 (jwk : RsaJwk) (message signature : blob) : result VerifyError unit :=
  match b64url_decode (jwk_n jwk), b64url_decode (jwk_e jwk) with
  | Some n, Some e =>
      match rsa_key n e with
      | None => Err BadKey
      | Some key =>
          if negb (rsa_signature signature) then Err BadSignature
          else if rsa_verify key message signature then Ok tt else Err BadSignature
      end
  | _, _ => Err BadKey
  end.

(** Step 3: the key of [kid], with one forced refresh on a miss. *)
Definition resolve_key (jwks_uri kid : string) : M P VerifyError RsaJwk := λ p,
  match fetch jwks_uri false p with
  | (Err _, p) => (Err JwksUnavailable, p)
  | (Ok key_set, p) =>
      match jwks_key key_set kid with
      | Some jwk => (Ok jwk, p)
      | None =>
          match fetch jwks_uri true p with
          | (Err _, p) => (Err JwksUnavailable, p)
          | (Ok refreshed, p) => (ok_or (jwks_key refreshed kid) UnknownKey, p)
          end
      end
  end.

(** Step 5: the claims, after a good signature. *)
Definition check_claims (params : VerifyParams) (claims : Claims) (now_ms : Z) : result VerifyError VerifiedIdentity :=
  exp ← ok_or (cl_exp claims) Expired;
  guard_res (negb (i64_add exp CLOCK_LEEWAY_SECONDS <? now_ms / 1000)) Expired;;
  guard_res (has (vp_issuers params) (default EmptyString (cl_iss claims))) IssuerMismatch;;
  guard_res (match cl_aud claims with Some aud => audience_matches aud (vp_audiences params) | None => false end)
    AudienceMismatch;;
  guard_res (match vp_expected_nonce params with
             | Some expected => String.eqb (default EmptyString (cl_nonce claims)) expected
             | None => true
             end) NonceMismatch;;
  subject ← ok_or (non_empty (cl_sub claims)) MissingSubject;
  let email_verified := match cl_email_verified claims with Some b => flexible_as_bool b | None => false end in
  guard_res (negb (bool_decide (is_Some (cl_email claims)) && negb email_verified)) EmailUnverified;;
  Ok {| vi_subject := subject; vi_email := cl_email claims; vi_email_verified := email_verified;
        vi_name := cl_name claims |}.

Definition verify_id_token (token : string) (params : VerifyParams) (now_ms : Z) :
    M P VerifyError VerifiedIdentity :=
  match split "." token with
  | [header_b64; payload_b64; sig_b64] =>
      header_bytes ← lift_res (ok_or (b64url_decode header_b64) MalformedToken);
      header ← lift_res (ok_or (json_header header_bytes) MalformedToken);
      lift_res (guard_res (String.eqb (jh_alg header) "RS256") UnsupportedAlgorithm);;
      kid ← lift_res (ok_or (non_empty (jh_kid header)) MissingKid);
      jwk ← resolve_key (vp_jwks_uri params) kid;
      let signing_input := header_b64 +:+ "." +:+ payload_b64 in
      signature ← lift_res (ok_or (b64url_decode sig_b64) MalformedToken);
      lift_res (verify_rs256 jwk (Str.bytes signing_input) signature);;
      payload_bytes ← lift_res (ok_or (b64url_decode payload_b64) MalformedToken);
      claims ← lift_res (ok_or (json_claims payload_bytes) MalformedToken);
      lift_res (check_claims params claims now_ms)
  | _ => lift_res (Err MalformedToken)
  end.
End Verify.

(** ** Configured providers ([config.rs]) *)

Record OidcProviderConfig : Type := {
  op_id : string; op_issuer : string; op_audiences : list string; op_jwks_uri : string;
}.
(** An entry of the parsed JSON array. *)
Record RawOidcProvider : Type := {
  ro_id : string; ro_issuer : string; ro_audience : option Audience; ro_audiences : option Audience;
  ro_jwks_uri : string;
}.
Definition raw_audiences (raw : RawOidcProvider) : list string :=
  let field := match ro_audiences raw with Some f => Some f | None => ro_audience raw end in
  List.filter (λ a, negb (Str.is_empty a))
    (Str.trim <$> match field with Some (Aud_One v) => [v] | Some (Aud_Many vs) => vs | None => [] end).

Fixpoint oidc_providers_from (seen : gset string) (raws : list RawOidcProvider) :
    result string (list OidcProviderConfig) :=
  match raws with
  | [] => Ok []
  | raw :: rest =>
      let id := Str.trim (ro_id raw) in
      let named := "FRICK_OIDC_PROVIDERS provider " +:+ quote +:+ id +:+ quote in
      if Str.is_empty id then Err ("FRICK_OIDC_PROVIDERS entry has an empty " +:+ quote +:+ "id" +:+ quote)
      else if bool_decide (id ∈ seen)
      then Err ("FRICK_OIDC_PROVIDERS has a duplicate provider id " +:+ quote +:+ id +:+ quote)
      else
        let issuer := Str.trim (ro_issuer raw) in
        let jwks_uri := Str.trim (ro_jwks_uri raw) in
        let audiences := raw_audiences raw in
        if Str.is_empty issuer then Err (named +:+ " has an empty " +:+ quote +:+ "issuer" +:+ quote)
        else if Str.is_empty jwks_uri then Err (named +:+ " has an empty " +:+ quote +:+ "jwksUri" +:+ quote)
        else if bool_decide (audiences = []) then Err (named +:+ " needs at least one audience")
        else
          providers ← oidc_providers_from ({[id]} ∪ seen) rest;
          Ok ({| op_id := id; op_issuer := issuer; op_audiences := audiences; op_jwks_uri := jwks_uri |} :: providers)
  end.
(** [raws] is the parsed variable, or its error, or nothing when it is unset. *)
Definition parse_oidc_providers (raws : option (result string (list RawOidcProvider))) :
    result string (list OidcProviderConfig) :=
  match raws with
  | None => Ok []
  | Some (Err err) =>
      Err ("Invalid FRICK_OIDC_PROVIDERS: expected a JSON array of {id, issuer, audiences, jwksUri}: " +:+ err)
  | Some (Ok raws) => oidc_providers_from ∅ raws
  end.

Record ProviderConfig : Type := {
  apple_audiences : list string; google_client_ids : list string; oidc_providers : list OidcProviderConfig;
}.
Definition oidc_provider (c : ProviderConfig) (id : string) : option OidcProviderConfig :=
  List.find (λ p, String.eqb (op_id p) id) (oidc_providers c).

(** ** Routes ([auth/routes.rs]) *)

Record ProviderBody : Type := {
  pb_token : option string; pb_nonce : option string; pb_device_id : option string;
  pb_replica_id : option string; pb_tenant_id : option string; pb_full_name : option AuthFullName;
}.
Inductive NotificationReply : Type :=
| Notify_unknown_user
| Notify_applied (event_type : string) (sessions_killed : Z)
| Notify_acknowledged (event_type : string).

Definition provider_handle (provider subject : string) : string := provider +:+ ":" +:+ subject.
Definition invalid_provider_token : ServerError := SE_Authentication "Invalid credentials".
Definition apple_display_name (full_name : option AuthFullName) (email : option string) : string :=
  let parts := match full_name with
               | Some name => List.filter (λ s, negb (Str.is_empty s))
                                (Str.trim <$> omap id [fn_given_name name; fn_family_name name])
               | None => []
               end in
  if bool_decide (parts = []) then match email with Some e => email_local_part e | None => "Frick user" end
  else join " " parts.
Definition named_or_email (v : VerifiedIdentity) : string :=
  match vi_name v with
  | Some name => name
  | None => match vi_email v with Some e => email_local_part e | None => "Frick user" end
  end.

Section ProviderRoutes.
Context `{TokenCrates} {P : Type} `{!JwksProvider P}.
Context (cfg : AuthConfig) (providers : ProviderConfig) (hasher : FrickPasswordHasher) (lifecycle : AuthLifecycle).
Context (session_token_digest : string → string) (constraint_failed : string).

Definition finish_provider_login (provider tenant_id : string) (verified : VerifiedIdentity) (display_name : string)
    (full_name : option AuthFullName) (device replica : option string) (d : Draws) (now_ms : Z) : Route AuthReply :=
  let handle := provider_handle provider (vi_subject verified) in
  let identity := Identity_Provider provider (vi_subject verified) handle (vi_email verified) full_name in
  let resolve account := respond (resolve_session lifecycle
    {| sc_now_ms := now_ms; sc_auth_tenant_id := tenant_id; sc_identity := identity;
       sc_user_id := ac_user_id account; sc_display_name := ac_display_name account |}) in
  w ← get_state;
  '(outcome, is_new_user) ←
    (match read_by_identity (aw_accounts w) tenant_id handle with
     | Some account => resolved ← resolve account; mret (resolved, false)
     | None =>
         first_sign_in ← respond (on_first_sign_in lifecycle
           {| fs_now_ms := now_ms; fs_auth_tenant_id := tenant_id; fs_identity := identity;
              fs_proposed_user_id := "user-" +:+ provider +:+ "-" +:+ d_user d;
              fs_proposed_display_name := display_name |});
         created ← call aw_accounts with_accounts
           (Accounts.create hasher constraint_failed
              {| ca_tenant_id := tenant_id; ca_user_id := lo_user_id first_sign_in; ca_handle := handle;
                 ca_display_name := lo_display_name first_sign_in; ca_password := d_password d |} (d_salt d) now_ms);
         match created with
         | Ok _ => mret (first_sign_in, true)
         | Err _ =>
             w ← get_state;
             match read_by_identity (aw_accounts w) tenant_id handle with
             | Some account => resolved ← resolve account; mret (resolved, false)
             | None => refuse SE_Internal
             end
         end
     end : Route (AuthLifecycleOutcome * bool));
  let device_id := device_or device d in
  let replica_id := replica_or replica d in
  '(token, expires_at) ← mint_session cfg session_token_digest constraint_failed (lo_session_tenant_id outcome)
                           (lo_user_id outcome) device_id replica_id (d_session_token d) now_ms;
  mret (Reply_session (if is_new_user : bool then 201 else 200)
    {| sb_schema_hash := schema_hash cfg; sb_session_token := token;
       sb_tenant_id := lo_session_tenant_id outcome; sb_user_id := lo_user_id outcome;
       sb_display_name := Some (lo_display_name outcome); sb_handle := Some handle;
       sb_email := vi_email verified; sb_provider := Some provider; sb_device_id := device_id;
       sb_replica_id := replica_id; sb_expires_at := expires_at |} (Some is_new_user)).

(** A step of the stores, and a verification, on the pair of both states; every
    verification error is the same answer. *)
Definition on_world {A} (m : Route A) : M (AuthWorld * P) AuthRefusal A := λ s,
  let '(r, w) := m s.1 in (r, (w, s.2)).
Definition verified_or_refuse (token : string) (params : VerifyParams) (now_ms : Z) :
    M (AuthWorld * P) AuthRefusal VerifiedIdentity := λ s,
  let '(r, p) := verify_id_token token params now_ms s.2 in
  (map_err (λ _, Refuse invalid_provider_token) r, (s.1, p)).

Definition apple_verify (headers : HeaderMap) (body : ProviderBody) (d : Draws) (now : Z) :
    M (AuthWorld * P) AuthRefusal AuthReply :=
  if bool_decide (apple_audiences providers = []) then on_world (refuse (SE_ProviderNotConfigured "apple"))
  else
    let tenant_id := default DEFAULT_TENANT_ID (pb_tenant_id body) in
    on_world (precheck cfg "apple-verify" tenant_id (client_ip headers) now);;
    match non_empty (pb_token body) with
    | None => on_world (refuse (bad_request "identityToken required"))
    | Some token =>
        verified ← verified_or_refuse token
          {| vp_issuers := [APPLE_ISSUER]; vp_jwks_uri := APPLE_JWKS_URI;
             vp_audiences := apple_audiences providers; vp_expected_nonce := pb_nonce body |} now;
        on_world (finish_provider_login "apple" tenant_id verified
          (apple_display_name (pb_full_name body) (vi_email verified)) (pb_full_name body)
          (pb_device_id body) (pb_replica_id body) d now)
    end.

Definition google_verify (headers : HeaderMap) (body : ProviderBody) (d : Draws) (now : Z) :
    M (AuthWorld * P) AuthRefusal AuthReply :=
  if bool_decide (google_client_ids providers = []) then on_world (refuse (SE_ProviderNotConfigured "google"))
  else
    let tenant_id := default DEFAULT_TENANT_ID (pb_tenant_id body) in
    on_world (precheck cfg "google-verify" tenant_id (client_ip headers) now);;
    match non_empty (pb_token body) with
    | None => on_world (refuse (bad_request "idToken required"))
    | Some token =>
        verified ← verified_or_refuse token
          {| vp_issuers := GOOGLE_ISSUERS; vp_jwks_uri := GOOGLE_JWKS_URI;
             vp_audiences := google_client_ids providers; vp_expected_nonce := pb_nonce body |} now;
        on_world (finish_provider_login "google" tenant_id verified (named_or_email verified) None
          (pb_device_id body) (pb_replica_id body) d now)
    end.

Definition oidc_verify (id : string) (headers : HeaderMap) (body : ProviderBody) (d : Draws) (now : Z) :
    M (AuthWorld * P) AuthRefusal AuthReply :=
  match oidc_provider providers id with
  | None => on_world (refuse (SE_ProviderNotConfigured ("oidc:" +:+ id)))
  | Some provider =>
      let tenant_id := default DEFAULT_TENANT_ID (pb_tenant_id body) in
      on_world (precheck cfg ("oidc-verify:" +:+ id) tenant_id (client_ip headers) now);;
      match non_empty (pb_token body) with
      | None => on_world (refuse (bad_request "idToken required"))
      | Some token =>
          match non_empty (pb_nonce body) with
          | None => on_world (refuse invalid_provider_token)
          | Some nonce =>
              verified ← verified_or_refuse token
                {| vp_issuers := [op_issuer provider]; vp_jwks_uri := op_jwks_uri provider;
                   vp_audiences := op_audiences provider; vp_expected_nonce := Some nonce |} now;
              on_world (finish_provider_login ("oidc:" +:+ id) tenant_id verified (named_or_email verified) None
                (pb_device_id body) (pb_replica_id body) d now)
          end
      end
  end.

Definition parse_apple_notification_event (jwt : string) : option string :=
  payload_b64 ← split "." jwt !! 1%nat;
  payload ← b64url_decode payload_b64;
  claims ← json_value payload;
  raw_events ← match claims with VMap es => map_get "events" es | _ => None end;
  events ← match raw_events with VStr text => json_text text | other => Some other end;
  t ← match events with VMap es => map_get "type" es | _ => None end;
  as_str t.

Definition apple_notifications (payload_field : option string) (now : Z) :
    M (AuthWorld * P) AuthRefusal NotificationReply :=
  if bool_decide (apple_audiences providers = []) then on_world (refuse (SE_ProviderNotConfigured "apple"))
  else
    match non_empty payload_field with
    | None => on_world (refuse (bad_request "payload required"))
    | Some payload =>
        verified ← verified_or_refuse payload
          {| vp_issuers := [APPLE_ISSUER]; vp_jwks_uri := APPLE_JWKS_URI;
             vp_audiences := apple_audiences providers; vp_expected_nonce := None |} now;
        let event_type := default EmptyString (parse_apple_notification_event payload) in
        on_world (
          w ← get_state;
          match read_by_identity (aw_accounts w) DEFAULT_TENANT_ID (provider_handle "apple" (vi_subject verified)) with
          | None => mret Notify_unknown_user
          | Some account =>
              if String.eqb event_type "consent-revoked" || String.eqb event_type "account-delete" then
                killed ← call (st_sessions ∘ aw_auth) with_sessions
                  (Sessions.delete_for_user (ac_user_id account) (Some DEFAULT_TENANT_ID));
                call aw_refresh with_refresh
                  (RefreshTokens.revoke_for_user (ac_user_id account) (Some DEFAULT_TENANT_ID) now);;
                mret (Notify_applied event_type (match killed with Ok n => n | Err _ => 0 end))
              else mret (Notify_acknowledged event_type)
          end)
    end.
End ProviderRoutes.

(** ** What an accepted token is *)

Definition audience_values (a : Audience) : list string :=
  match a with Aud_One v => [v] | Aud_Many vs => vs end.
(** The claims a provider's token must make. *)
Definition good_claims (params : VerifyParams) (claims : Claims) (now : Z) (v : VerifiedIdentity) : Prop :=
  (∃ exp, cl_exp claims = Some exp ∧ now / 1000 ≤ i64_add exp CLOCK_LEEWAY_SECONDS)
  ∧ default EmptyString (cl_iss claims) ∈ vp_issuers params
  ∧ (∃ aud a, cl_aud claims = Some aud ∧ a ∈ audience_values aud ∧ a ∈ vp_audiences params)
  ∧ (∀ nonce, vp_expected_nonce params = Some nonce → default EmptyString (cl_nonce claims) = nonce)
  ∧ cl_sub claims = Some (vi_subject v) ∧ vi_subject v ≠ EmptyString
  ∧ vi_email v = cl_email claims ∧ vi_name v = cl_name claims
  ∧ vi_email_verified v = match cl_email_verified claims with Some b => flexible_as_bool b | None => false end
  ∧ (is_Some (vi_email v) → vi_email_verified v = true).

Lemma has_elem l s : has l s = true ↔ s ∈ l.
Proof.
  unfold has. rewrite existsb_exists. split.
  - intros (x & Hx & <-%String.eqb_eq). by apply list_elem_of_In.
  - intros Hs. exists s. split; [by apply list_elem_of_In|apply String.eqb_refl].
Qed.
Lemma audience_matches_spec a l : audience_matches a l = true ↔ ∃ x, x ∈ audience_values a ∧ x ∈ l.
Proof.
  destruct a as [v|vs]; cbn.
  - rewrite has_elem. split; [intros Hv; exists v; by rewrite list_elem_of_singleton|].
    by intros (x & ->%list_elem_of_singleton & Hx).
  - rewrite existsb_exists. split; intros (x & Hx & Hl); exists x;
      (split; [by apply list_elem_of_In|by apply has_elem]).
Qed.
Lemma non_empty_spec o s : non_empty o = Some s ↔ o = Some s ∧ s ≠ EmptyString.
Proof.
  destruct o as [[|c t]|]; cbn; split; try done.
  - intros [[= <-] Hne]. done.
  - intros [= <-]. done.
  - by intros [[= <-] _].
  - by intros [? _].
Qed.
Lemma ok_or_Ok {E A} (o : option A) (e : E) a : ok_or o e = Ok a ↔ o = Some a.
Proof. destruct o; cbn; split; congruence. Qed.
Lemma guard_Ok {E} b (e : E) u : guard_res b e = Ok u ↔ b = true.
Proof. destruct b, u; cbn; split; congruence. Qed.

Lemma check_claims_exact params claims now v :
  check_claims params claims now = Ok v ↔ good_claims params claims now v.
Proof.
  unfold check_claims, good_claims. repeat setoid_rewrite bind_Ok. repeat setoid_rewrite ok_or_Ok.
  repeat setoid_rewrite guard_Ok. setoid_rewrite non_empty_spec. setoid_rewrite has_elem.
  setoid_rewrite negb_true_iff. setoid_rewrite Z.ltb_ge. split.
  - intros (exp & He & _ & Hx & _ & Hi & _ & Ha & _ & Hn & sub & [Hs Hne] & _ & Hm & [= <-]). cbn.
    split; [by exists exp|]. split; [done|]. split.
    { destruct (cl_aud claims) as [aud|]; [|done]. apply audience_matches_spec in Ha as (x & ? & ?). eauto. }
    split. { intros nonce Hnn. rewrite Hnn in Hn. by apply String.eqb_eq. }
    repeat split; try done. intros Hemail. rewrite bool_decide_eq_true_2 in Hm by done. 
    cbn [andb] in Hm. by apply negb_false_iff in Hm.
  - intros ((exp & He & Hx) & Hi & (aud & a & Haud & Ha1 & Ha2) & Hn & Hs & Hne & Hemail & Hname & Hv & Hm).
    exists exp. split; [done|]. exists tt. split; [done|]. exists tt. split; [done|]. exists tt. split.
    { rewrite Haud. apply audience_matches_spec. eauto. }
    exists tt. split. { destruct (vp_expected_nonce params); [|done]. apply String.eqb_eq. by apply Hn. }
    exists (vi_subject v). split; [done|]. exists tt. rewrite <- Hv, <- Hemail, <- Hname. split; [|by destruct v].
    destruct (bool_decide (is_Some (vi_email v))) eqn:E; [|done]. apply bool_decide_eq_true in E. by rewrite Hm.
Qed.

Section Accepted.
Context `{TokenCrates} {P : Type} `{!JwksProvider P}.

(** The token is signed, with the one algorithm allowed, by a key the provider's
    endpoint publishes under the key id it names, and makes good claims. *)
Definition authentic (params : VerifyParams) (token : string) (now : Z) (p : P) (v : VerifiedIdentity) : Prop :=
  ∃ header_b64 payload_b64 sig_b64 hb header kid jwk signature pb claims,
    split "." token = [header_b64; payload_b64; sig_b64]
    ∧ b64url_decode header_b64 = Some hb ∧ json_header hb = Some header ∧ jh_alg header = "RS256"
    ∧ jh_kid header = Some kid ∧ kid ≠ EmptyString ∧ (resolve_key (vp_jwks_uri params) kid p).1 = Ok jwk
    ∧ b64url_decode sig_b64 = Some signature
    ∧ verify_rs256 jwk (Str.bytes (header_b64 +:+ "." +:+ payload_b64)) signature = Ok tt
    ∧ b64url_decode payload_b64 = Some pb ∧ json_claims pb = Some claims ∧ good_claims params claims now v.

Lemma verify_exact params token now p v :
  (verify_id_token token params now p).1 = Ok v ↔ authentic params token now p v.
Proof.
  unfold verify_id_token, authentic. split.
  - destruct (split "." token) as [|h [|y [|z [|]]]]; try done. run_M.
    destruct (b64url_decode h) as [hb|] eqn:E1; [|done]. cbn [ok_or].
    destruct (json_header hb) as [header|] eqn:E2; [|done]. cbn [ok_or].
    destruct (String.eqb_spec (jh_alg header) "RS256") as [E3|]; [|done]. cbn [guard_res].
    destruct (non_empty (jh_kid header)) as [kid|] eqn:E4; [|done]. cbn [ok_or].
    apply non_empty_spec in E4 as [E4 Hne].
    destruct (resolve_key (vp_jwks_uri params) kid p) as [[jwk|] p'] eqn:E5; [|done].
    destruct (b64url_decode z) as [signature|] eqn:E6; [|done]. cbn [ok_or].
    destruct (verify_rs256 _ _ _) as [[]|] eqn:E7; [|done].
    destruct (b64url_decode y) as [pb|] eqn:E8; [|done]. cbn [ok_or].
    destruct (json_claims pb) as [claims|] eqn:E9; [|done]. cbn [ok_or fst].
    intros Hc%check_claims_exact. exists h, y, z, hb, header, kid, jwk, signature, pb, claims.
    by rewrite E5.
  - intros (h & y & z & hb & header & kid & jwk & signature & pb & claims & -> & E1 & E2 & E3 & E4 & Hne & E5 & E6 & E7 & E8 & E9 & Hc).
    run_M. rewrite E1. cbn [ok_or]. rewrite E2. cbn [ok_or]. rewrite E3. cbn [String.eqb Ascii.eqb Bool.eqb guard_res].
    rewrite (proj2 (non_empty_spec _ _) (conj E4 Hne)). cbn [ok_or].
    destruct (resolve_key (vp_jwks_uri params) kid p) as [r p']. cbn [fst] in E5. subst r.
    rewrite E6. cbn [ok_or]. rewrite E7, E8. cbn [ok_or]. rewrite E9. cbn [ok_or fst]. by apply check_claims_exact.
Qed.

Lemma verified_run token params now (s : AuthWorld * P) :
  (verified_or_refuse token params now s).2.1 = s.1
  ∧ match (verified_or_refuse token params now s).1 with
    | Ok v => authentic params token now s.2 v
    | Err e => e = Refuse invalid_provider_token
    end.
Proof.
  unfold verified_or_refuse. destruct (verify_id_token token params now s.2) as [r p] eqn:E. cbn. split; [done|].
  destruct r; cbn; [|done]. apply verify_exact. by rewrite E.
Qed.

Context (cfg : AuthConfig) (hasher : FrickPasswordHasher) (lifecycle : AuthLifecycle) (digest : string → string) (msg : string).

(** A provider login changes no session unless it succeeds, and then answers
    with the provider's handle. *)
Lemma finish_run provider tenant v name full device replica d now w :
  let r := finish_provider_login cfg hasher lifecycle digest msg provider tenant v name full device replica d now w in
  match r.1 with
  | Ok reply => ∃ status body is_new, reply = Reply_session status body is_new
                  ∧ sb_handle body = Some (provider_handle provider (vi_subject v))
  | Err _ => st_sessions (aw_auth r.2) = st_sessions (aw_auth w)
  end.
Proof.
  cbv zeta. unfold finish_provider_login, respond, call. run_M.
  destruct (read_by_identity (aw_accounts w) tenant _) as [account|].
  - destruct (resolve_session lifecycle _) as [o|]; [|done]. cbn [map_err]. rewrite mint_session_run.
    destruct (_ !! _); [done|]. cbn. eauto 10.
  - destruct (on_first_sign_in lifecycle _) as [o|]; [|done]. cbn [map_err].
    destruct (Accounts.create _ _ _ _ _ _) as [[a|] acc].
    + rewrite mint_session_run. destruct (_ !! _); [done|]. cbn. eauto 10.
    + destruct (read_by_identity _ tenant _) as [account|]; [|done].
      destruct (resolve_session lifecycle _) as [o'|]; [|done]. cbn [map_err]. rewrite mint_session_run.
      destruct (_ !! _); [done|]. cbn. eauto 10.
Qed.

(** The tail all three sign-in routes share, from the limiter on. *)
Lemma sign_in_tail route tenant ip now token params provider name full device replica d (s : AuthWorld * P) r :
  (on_world (precheck cfg route tenant ip now);;
   verified ← verified_or_refuse token params now;
   on_world (finish_provider_login cfg hasher lifecycle digest msg provider tenant verified (name verified) full
               device replica d now)) s = r →
  match r.1 with
  | Ok reply => ∃ v status body is_new, authentic params token now s.2 v
      ∧ reply = Reply_session status body is_new ∧ sb_handle body = Some (provider_handle provider (vi_subject v))
  | Err _ => st_sessions (aw_auth r.2.1) = st_sessions (aw_auth s.1)
  end.
Proof.
  intros <-. run_M. unfold on_world.
  destruct (precheck_cases cfg route tenant ip now s.1) as (tenants & limiter & Hw & Hr).
  destruct (precheck _ _ _ _ _ s.1) as [r0 w0]. cbn [fst snd] in Hw, Hr. subst w0.
  destruct Hr as [->|[e ->]]; [|done].
  destruct (verified_run token params now (with_limiter limiter (with_tenants tenants s.1), s.2)) as [Hs Hv].
  destruct (verified_or_refuse _ _ _ _) as [[v|e] [w1 p1]]; cbn [fst snd] in *; subst w1; [|done].
  cbn [fst snd].
  pose proof (finish_run provider tenant v (name v) full device replica d now (with_limiter limiter (with_tenants tenants s.1))) as Hf.
  cbv zeta in Hf. destruct (finish_provider_login _ _ _ _ _ _ _ _ _ _ _ _ _ _ _) as [[reply|e] w2]; cbn [fst snd] in *; [|done].
  destruct Hf as (status & body & is_new & -> & Hb). exists v, status, body, is_new. done.
Qed.
Lemma refused_after_limiter {A} route tenant ip now e (s : AuthWorld * P) (K : A → Prop) :
  let r := (on_world (precheck cfg route tenant ip now);; on_world (refuse (A := A) e)) s in
  match r.1 with Ok a => K a | Err _ => st_sessions (aw_auth r.2.1) = st_sessions (aw_auth s.1) end.
Proof.
  cbv zeta. run_M. unfold on_world. destruct (precheck_cases cfg route tenant ip now s.1) as (tenants & limiter & Hw & Hr).
  destruct (precheck _ _ _ _ _ s.1) as [r0 w0]. cbn [fst snd] in *. subst w0. by destruct Hr as [->|[e' ->]].
Qed.
End Accepted.


(** ** Whose account a provider login is *)

Section Adoption.
Context (cfg : AuthConfig) (h : FrickPasswordHasher) (digest : string → string) (msg : string).

(** A successful email signup appends the account of the email. *)
Lemma email_signup_run body d now w reply w' :
  email_signup cfg h NoopAuthLifecycle digest msg body d now w = (Ok reply, w') →
  let tenant := default DEFAULT_TENANT_ID (es_tenant_id body) in
  ∃ row, as_rows (aw_accounts w') = as_rows (aw_accounts w) ++ [row]
    ∧ read_row_by_identity (aw_accounts w) tenant (normalize_email (es_email body)) = None
    ∧ ar_tenant_id row = tenant ∧ ar_handle row = normalize_email (es_email body) ∧ ar_password_salt row = EmptyString
    ∧ ph_hash h (d_salt d) (default EmptyString (es_password body)) = Ok (ar_password_hash row).
Proof.
  cbv zeta. unfold email_signup. destruct (negb _); [done|]. destruct (_ <? _); [done|]. run_M.
  match goal with |- context [precheck ?a ?b ?c ?d ?e w] =>
    destruct (precheck_cases a b c d e w) as (tenants & limiter & Hw & Hr); destruct (precheck a b c d e w) as [r0 w0] end.
  cbn [fst snd] in Hw, Hr. subst w0. destruct Hr as [->|[e ->]]; [|done].
  change (aw_accounts (with_limiter limiter (with_tenants tenants w))) with (aw_accounts w).
  case_bool_decide as Hex; [done|]. unfold respond. cbn [on_first_sign_in NoopAuthLifecycle map_err]. run_M. unfold call.
  change (aw_accounts (with_limiter limiter (with_tenants tenants w))) with (aw_accounts w).
  destruct (Accounts.create _ _ _ _ _ _) as [[a|e] acc] eqn:Ec; [|by destruct (contains_str _ _)].
  apply account_created in Ec as (hash & Hh & _ & _ & Hrows). unfold mint_email_session_response. run_M. rewrite mint_session_run.
  destruct (_ !! _); [done|]. intros [= _ <-]. eexists. split; [exact Hrows|]. cbn. repeat split; try done.
  unfold read_by_identity in Hex. destruct (read_row_by_identity _ _ _); [|done]. destruct Hex. by eexists.
Qed.

Lemma accounts_with_sessions sessions w : aw_accounts (with_sessions sessions w) = aw_accounts w.
Proof. reflexivity. Qed.

Lemma head_select_app {R} (f : R → bool) (l k : list R) :
  list.head (select f (l ++ k)) = match list.head (select f l) with Some r => Some r | None => list.head (select f k) end.
Proof. unfold select. rewrite List.filter_app. by destruct (List.filter f l). Qed.
End Adoption.

(** Whoever signs up first by email with the handle of a provider identity owns
    its account: email signup checks no ownership of the address, and a handle
    [oidc:id:subject] is a valid address when the subject is one. The provider's
    user then signs in to the account that already exists, and the password of
    the one who made it keeps working. *)
Theorem provider_login_adopts (cfg : AuthConfig) (h : FrickPasswordHasher) `{!HasherLaws h} (digest : string → string)
    (msg : string) body d now w reply w' provider v name full device replica d2 now2 :
  email_signup cfg h NoopAuthLifecycle digest msg body d now w = (Ok reply, w') →
  provider_handle provider (vi_subject v) = normalize_email (es_email body) →
  st_sessions (aw_auth w') !! digest (d_session_token d2) = None →
  let tenant := default DEFAULT_TENANT_ID (es_tenant_id body) in
  let r := finish_provider_login cfg h NoopAuthLifecycle digest msg provider tenant v name full device replica d2 now2 w' in
  ∃ b account, r.1 = Ok (Reply_session 200 b (Some false)) ∧ sb_tenant_id b = tenant ∧ sb_user_id b = ac_user_id account
    ∧ accepts h (as_rows (aw_accounts r.2)) tenant (normalize_email (es_email body)) (default EmptyString (es_password body))
      = Some account.
Proof.
  intros (row & Hrows & Hnone & Ht & Hh & Hs & Hhash)%email_signup_run Heq Hfresh. cbv zeta.
  set (tenant := default DEFAULT_TENANT_ID (es_tenant_id body)) in *. set (email := normalize_email (es_email body)) in *.
  assert (read_row_by_identity (aw_accounts w') tenant email = Some row) as Hread.
  { unfold read_row_by_identity in *. rewrite Hrows, head_select_app, Hnone. cbn. unfold matches, same_handle.
    by rewrite Ht, Hh, !String.eqb_refl. }
  unfold finish_provider_login. run_M. rewrite Heq. unfold read_by_identity. rewrite Hread. cbn [fmap option_fmap option_map].
  unfold respond. cbn [resolve_session NoopAuthLifecycle map_err]. run_M. rewrite mint_session_run, Hfresh.
  eexists _, (map_account_row row). split; [reflexivity|]. split; [done|]. split; [done|].
  unfold accepts. cbn [snd]. rewrite accounts_with_sessions. unfold read_row_by_identity in Hread.
  rewrite Hread. unfold stored_hash. rewrite to_stored_hash_tagged by (by eapply hl_tagged).
  rewrite (hl_verify _ _ _ _ Hhash). by rewrite bool_decide_eq_true_2.
Qed.

Import SampleAuth.
Module SampleProviders.
Definition mallory : EmailSignupBody :=
  {| es_email := Some "oidc:corp:bob@corp.example"; es_password := Some "mallory-knows"; es_display_name := None;
     es_tenant_id := None; es_device_id := None; es_replica_id := None |}.
Definition bob : VerifiedIdentity :=
  {| vi_subject := "bob@corp.example"; vi_email := None; vi_email_verified := false; vi_name := Some "Bob" |}.
Definition prepared : AuthWorld := (email_signup cfg argon NoopAuthLifecycle tag msg mallory (draws "1") t0 empty).2.
End SampleProviders.

Lemma provider_login_adopts_witness :
  ∃ b, (finish_provider_login cfg argon NoopAuthLifecycle tag msg "oidc:corp" "_default" SampleProviders.bob "Bob" None
          None None (draws "2") (t0 + 1000) SampleProviders.prepared).1 = Ok (Reply_session 200 b (Some false))
    ∧ sb_user_id b = "user-email-u1".
Proof.
  destruct (provider_login_adopts cfg argon tag msg SampleProviders.mallory (draws "1") t0 empty
    (match (email_signup cfg argon NoopAuthLifecycle tag msg SampleProviders.mallory (draws "1") t0 empty).1 with
     | Ok r => r | Err _ => Reply_ok end) SampleProviders.prepared "oidc:corp" SampleProviders.bob "Bob" None None None
    (draws "2") (t0 + 1000)) as (b & account & Hr & _ & Hu & Ha).
  - vm_compute. reflexivity.
  - reflexivity.
  - vm_compute. reflexivity.
  - exists b. split; [exact Hr|]. rewrite Hu. vm_compute in Ha. injection Ha as <-. reflexivity.
Defined.
