(* ===== verification/SealedSender.v ===== *)
(** * Sealed-sender delivery ([frick-server/src/sealed_sender.rs])

    Sender certificates, the recipient's access token routes, and the delivery
    route that appends without a session. A route is a step on [SealedWorld]:
    the store facade, the tenants, the access tokens and the limiter that the
    authentication routes also use. P-256, base64, JSON and msgpack are
    parameters; a poisoned lock and a failing database driver are left out. *)

From Stdlib Require Import ZArith Lia Ascii String.
From stdpp Require Import base gmap strings list sorting pretty.
From S2P Require Import Prelude Value Schema Codec Timestamp StoreBase Encryption Samples ObjectStore IdempotencyCache StreamStore JobStore Authz ServerErrors Sessions Sharing Credentials Ephemeral Facade Text PasswordHasher Accounts Gateway AuthRoutes AuthSafety.

Definition SEALED_SENDER_CERT_VERSION : Z := 1.
Definition SEALED_DEVICE_ID : string := "_sealed".
Definition SEALED_SENDER_ALGORITHM : string := "ECDSA-P256-SHA256".
Definition P256_POINT_LEN : Z := 65.
Definition MIN_ACCESS_TOKEN_LEN : Z := 16.
Definition MAX_ACCESS_TOKEN_LEN : Z := 128.

(** The crates [p256] and [base64]. *)
Class CertCrates : Type := {
  SigningKey : Type; VerifyingKey : Type; Signature : Type;
  from_pkcs8_pem : string → result string SigningKey;
  verifying_key : SigningKey → VerifyingKey;
  to_encoded_point : VerifyingKey → blob;                     (* uncompressed *)
  from_sec1_bytes : blob → option VerifyingKey;
  sign : SigningKey → blob → Signature;
  sig_to_bytes : Signature → blob;
  sig_from_slice : blob → option Signature;
  sig_verify : VerifyingKey → blob → Signature → bool;
  std_encode : blob → string;
  std_decode : string → option blob;
}.
Definition is_byte (b : Z) : Prop := 0 ≤ b < 256.
Class CertCratesLaws `{CertCrates} : Prop := {
  point_roundtrip k : from_sec1_bytes (to_encoded_point k) = Some k;
  signature_roundtrip s : sig_from_slice (sig_to_bytes s) = Some s;
  signature_correct k m : sig_verify (verifying_key k) m (sign k m) = true;
  signature_bytes s : Forall is_byte (sig_to_bytes s);
  std_roundtrip b : Forall is_byte b → std_decode (std_encode b) = Some b;
}.

(** ** Certificates *)

Record SenderCertificate : Type := {
  sd_version : Z; sd_user_id : string; sd_device_id : string; sd_identity_key : string;
  sd_expires_at : Z; sd_signature : string;
}.
Inductive CertificateError : Type :=
| Cert_Expired | Cert_Version | Cert_Malformed (what : string) | Cert_BadSignature.

(** [to_be_bytes] of an integer of [n] bytes. *)
Fixpoint to_be_bytes (n : nat) (v : Z) : blob :=
  match n with 0%nat => [] | S n => to_be_bytes n (v / 256) ++ [v mod 256] end.
(** [u32::try_from(len).unwrap_or(u32::MAX).to_be_bytes()]. *)
Definition length_prefix {A} (bytes : list A) : blob :=
  to_be_bytes 4 (Z.min (Z.of_nat (length bytes)) u32_max).
Definition certificate_payload (version : Z) (user_id device_id : string) (identity_key : blob)
    (expires_at_ms : Z) : blob :=
  let user := Str.bytes user_id in
  let device := Str.bytes device_id in
  [version] ++ length_prefix user ++ user ++ length_prefix device ++ device
  ++ length_prefix identity_key ++ identity_key ++ to_be_bytes 8 expires_at_ms.

Record SealedConfig : Type := {
  sealed_sender_cert_ttl_seconds : Z; sealed_sender_key_pem : option string;
  sealed_delivery_window_ms : Z; max_sealed_deliveries_per_window : Z;
  sealed_max_append_payload_bytes : Z; sealed_implicit_tenant_creation : bool;
}.

Section Certificates.
Context `{CertCrates}.

Definition verify_certificate_with_key (cert : SenderCertificate) (server_public_key : blob) (now_ms : Z) :
    result CertificateError unit :=
  guard_res (sd_version cert =? SEALED_SENDER_CERT_VERSION) Cert_Version;;
  guard_res (now_ms <=? sd_expires_at cert) Cert_Expired;;
  identity_key ← ok_or (std_decode (sd_identity_key cert)) (Cert_Malformed "identityKey is not base64");
  signature_bytes ← ok_or (std_decode (sd_signature cert)) (Cert_Malformed "signature is not base64");
  signature ← ok_or (sig_from_slice signature_bytes) (Cert_Malformed "signature is not r||s ECDSA");
  key ← ok_or (from_sec1_bytes server_public_key) (Cert_Malformed "server public key is not a P-256 point");
  let payload := certificate_payload (sd_version cert) (sd_user_id cert) (sd_device_id cert) identity_key
                   (sd_expires_at cert) in
  guard_res (sig_verify key payload signature) Cert_BadSignature.

Record SealedSenderState : Type := { ss_signing : SigningKey; ss_cert_ttl_ms : Z }.

(** [random] is the key an ephemeral boot draws. *)
Definition ephemeral (cert_ttl_ms : Z) (random : SigningKey) : SealedSenderState :=
  {| ss_signing := random; ss_cert_ttl_ms := cert_ttl_ms |}.
Definition from_config (config : SealedConfig) (random : SigningKey) : result string SealedSenderState :=
  let cert_ttl_ms := i64_saturating_mul (sealed_sender_cert_ttl_seconds config) 1000 in
  match sealed_sender_key_pem config with
  | Some pem =>
      match from_pkcs8_pem pem with
      | Ok signing => Ok {| ss_signing := signing; ss_cert_ttl_ms := cert_ttl_ms |}
      | Err err => Err ("Invalid FRICK_SEALED_SENDER_KEY_PEM (expected a PKCS#8 PEM ECDSA P-256 private key): " +:+ err)
      end
  | None => Ok (ephemeral cert_ttl_ms random)
  end.
Definition public_key_bytes (s : SealedSenderState) : blob := to_encoded_point (verifying_key (ss_signing s)).
Definition public_key_base64 (s : SealedSenderState) : string := std_encode (public_key_bytes s).

Definition SealedSenderState_issue_certificate (s : SealedSenderState) (user_id device_id : string) (identity_key : blob)
    (now_ms : Z) : SenderCertificate :=
  let expires_at := i64_saturating_add now_ms (ss_cert_ttl_ms s) in
  let payload := certificate_payload SEALED_SENDER_CERT_VERSION user_id device_id identity_key expires_at in
  {| sd_version := SEALED_SENDER_CERT_VERSION; sd_user_id := user_id; sd_device_id := device_id;
     sd_identity_key := std_encode identity_key; sd_expires_at := expires_at;
     sd_signature := std_encode (sig_to_bytes (sign (ss_signing s) payload)) |}.
Definition verify_certificate (s : SealedSenderState) (cert : SenderCertificate) (now_ms : Z) :
    result CertificateError unit :=
  verify_certificate_with_key cert (public_key_bytes s) now_ms.
End Certificates.

(** ** State of the routes *)

Record SealedWorld {SearchOp : Type} : Type := {
  sw_store : FrickStore SearchOp; sw_tenants : gmap string TenantRow; sw_access : SealedTable; sw_limiter : AuthLimiter;
}.
Arguments SealedWorld : clear implicits.
Section World.
Context {SearchOp : Type}.
Definition put_store (x : FrickStore SearchOp) (w : SealedWorld SearchOp) : SealedWorld SearchOp :=
  {| sw_store := x; sw_tenants := sw_tenants w; sw_access := sw_access w; sw_limiter := sw_limiter w |}.
Definition put_tenants (x : gmap string TenantRow) (w : SealedWorld SearchOp) : SealedWorld SearchOp :=
  {| sw_store := sw_store w; sw_tenants := x; sw_access := sw_access w; sw_limiter := sw_limiter w |}.
Definition put_access (x : SealedTable) (w : SealedWorld SearchOp) : SealedWorld SearchOp :=
  {| sw_store := sw_store w; sw_tenants := sw_tenants w; sw_access := x; sw_limiter := sw_limiter w |}.
Definition put_limiter (x : AuthLimiter) (w : SealedWorld SearchOp) : SealedWorld SearchOp :=
  {| sw_store := sw_store w; sw_tenants := sw_tenants w; sw_access := sw_access w; sw_limiter := x |}.
(** The sessions of the store and the tenants, as the session routes see them. *)
Definition sw_auth (w : SealedWorld SearchOp) : AuthState :=
  {| st_sessions := fs_sessions (sw_store w); st_tenants := sw_tenants w |}.
Definition put_auth (x : AuthState) (w : SealedWorld SearchOp) : SealedWorld SearchOp :=
  put_tenants (st_tenants x) (put_store (Facade.with_sessions (st_sessions x) (sw_store w)) w).
End World.

Inductive SealedReply : Type :=
| Sealed_config (public_key algorithm : string) (cert_version cert_ttl_ms : Z)
| Issued (certificate : SenderCertificate) (server_public_key : string)
| Token (token : string) (minted : bool)
| Token_revoked (revoked : bool)
| Delivered (event : StoredEvent).

Definition access_denied : ServerError :=
  SE_Authorization "Invalid unidentified-access token" (Some "unidentifiedAccessDenied").

Definition sealed_principal (tenant_id recipient_user_id : string) : Principal :=
  {| p_user_id := recipient_user_id; p_device_id := SEALED_DEVICE_ID;
     p_replica_id := SEALED_DEVICE_ID +:+ ":" +:+ recipient_user_id; p_tenant_id := tenant_id;
     p_scope := Scope_Tenant; p_service_scopes := [] |}.

Record DeliverRequest : Type := {
  dr_recipient : string; dr_access_token : string; dr_tenant_id : string; dr_stream : string; dr_key : string;
  dr_event : string; dr_append_request_id : string; dr_payload : Value;
}.
Definition require_record (value : Value) (name : string) : result ServerError Value :=
  match value with VMap _ => Ok value | _ => Err (SE_BadRequest (name +:+ " must be an object")) end.

(** ** Routes *)

Section Routes.
Context `{CertCrates, PackedColumn PackedRecord, PackedColumn PackedStreamEvent, Crypto} {SearchOp : Type}.
Context (config : SealedConfig) (sealed_sender : SealedSenderState).
(** Sessions, access tokens, and the gate of the app on sessions. *)
Context (session_token_digest hash_access_token : string → string).
Context (authorize : AuthState → string → Principal → Z → result ServerError unit).
(** [serde_json::from_slice] and [rmpv::encode::write_value]. *)
Context (from_slice : string → result string Value) (write_value : Value → option blob).
Context (policy_hooks : list PolicyHook).
(** The store's own parameters. *)
Context (schema : FrickSchema) (encryption : option KeyProvider) (constraint_failed : string).
Context (projector : option (FrickStoreWriteEvent → option (list SearchOp))) (has_listener : bool) (replay_window_ms : Z).
Local Abbreviation World := (SealedWorld SearchOp).
Local Abbreviation Step := (M World ServerError).

(** A call on a part of the state, its error left to the caller. *)
Definition call_on {S E A} (get : World → S) (put : S → World → World) (m : M S E A) : Step (result E A) := λ w,
  let '(r, t) := m (get w) in (Ok r, put t w).

Definition sealed_config : SealedReply :=
  Sealed_config (public_key_base64 sealed_sender) SEALED_SENDER_ALGORITHM SEALED_SENDER_CERT_VERSION
    (ss_cert_ttl_ms sealed_sender).

Definition signed_in (headers : HeaderMap) (now : Z) : Step Principal :=
  principal ← call_on sw_auth put_auth
    (Sharing.authenticate session_token_digest authorize (sealed_implicit_tenant_creation config) headers now);
  lift_res principal.

Definition issue_certificate (headers : HeaderMap) (identity_key : option string) (now : Z) : Step SealedReply :=
  principal ← signed_in headers now;
  let refused := SE_BadRequest "identityKey must be base64 of a 65-byte uncompressed P-256 point" in
  bytes ← lift_res (ok_or (raw ← identity_key; std_decode raw) refused);
  lift_res (guard_res ((Z.of_nat (length bytes) =? P256_POINT_LEN) && bool_decide (bytes !! 0%nat = Some 4)) refused);;
  mret (Issued (SealedSenderState_issue_certificate sealed_sender (p_user_id principal) (p_device_id principal) bytes now)
          (public_key_base64 sealed_sender)).

(** [token32] is the random draw. *)
Definition register_token (headers : HeaderMap) (body_token : option string) (token32 : string) (now : Z) :
    Step SealedReply :=
  principal ← signed_in headers now;
  '(token, minted) ←
    lift_res (match body_token with
              | Some token =>
                  if (MIN_ACCESS_TOKEN_LEN <=? char_count token) && (char_count token <=? MAX_ACCESS_TOKEN_LEN)
                  then Ok (token, false) else Err (SE_BadRequest "token must be 16..=128 characters")
              | None => Ok (token32, true)
              end);
  issued ← call_on sw_access put_access
    (Sealed.issue hash_access_token (p_tenant_id principal) (p_user_id principal) token now);
  match issued with
  | Err _ => lift_res (Err SE_Internal)
  | Ok _ => mret (Token token minted)
  end.

Definition revoke_token (headers : HeaderMap) (now : Z) : Step SealedReply :=
  principal ← signed_in headers now;
  revoked ← call_on sw_access put_access (Sealed.revoke (p_tenant_id principal) (p_user_id principal) now);
  match revoked with
  | Ok revoked => mret (Token_revoked revoked)
  | Err _ => lift_res (Err SE_Internal)
  end.

Definition parse_deliver_request (body : string) : result ServerError DeliverRequest :=
  parsed ← parse_body_value from_slice body;
  payload ← (value ← ok_or (field parsed "payload") (SE_BadRequest "payload must be an object");
             require_record value "payload");
  recipient ← require_string parsed "recipientUserId" "recipientUserId";
  access_token ← require_string parsed "accessToken" "accessToken";
  let tenant_id := match field parsed "tenantId" with
                   | Some value => match as_str value with Some (String _ _ as s) => s | _ => DEFAULT_TENANT_ID end
                   | None => DEFAULT_TENANT_ID
                   end in
  stream ← require_string parsed "stream" "stream";
  key ← require_string parsed "key" "key";
  event ← require_string parsed "event" "event";
  append_request_id ← require_string parsed "requestId" "requestId";
  Ok {| dr_recipient := recipient; dr_access_token := access_token; dr_tenant_id := tenant_id; dr_stream := stream;
        dr_key := key; dr_event := event; dr_append_request_id := append_request_id; dr_payload := payload |}.

Definition delivery_limit : Z :=
  if (0 <=? max_sealed_deliveries_per_window config) && (max_sealed_deliveries_per_window config <=? u32_max)
  then max_sealed_deliveries_per_window config else u32_max.
Definition delivery_key (tenant_id recipient : string) : string :=
  "sealedDeliver" +:+ NUL +:+ tenant_id +:+ NUL +:+ recipient.
Definition check_delivery_window (request : DeliverRequest) (now : Z) : Step unit := λ w,
  let '(allowed, t) := Limiter.check (delivery_key (dr_tenant_id request) (dr_recipient request)) now
                         (sealed_delivery_window_ms config) delivery_limit (sw_limiter w) in
  (if allowed then Ok tt
   else Err (SE_Limit MaxAuthAttemptsPerWindow (VMap [(VStr "reason", VStr "sealedDeliveryThrottled")])),
   put_limiter t w).

Definition msgpack_byte_len (value : Value) : Z :=
  match write_value value with Some bytes => Z.of_nat (length bytes) | None => usize_max end.
Definition check_payload_size (payload : Value) (max_bytes : Z) : result ServerError unit :=
  let payload_bytes := Z.min (msgpack_byte_len payload) i64_max in
  if payload_bytes <=? max_bytes then Ok tt
  else Err (SE_Limit MaxStreamAppendPayloadBytes
         (VMap [(VStr "reason", VStr "payloadTooLarge"); (VStr "limit", VStr "maxStreamAppendPayloadBytes");
                (VStr "actualValue", VInt payload_bytes); (VStr "configuredMax", VInt max_bytes)])).

Definition append_input (principal : Principal) (request : DeliverRequest) : PolicyInput :=
  {| pi_principal := principal; pi_action := Authz.StreamAppend;
     pi_resource := {| pr_kind := "stream"; pr_name := Some (dr_stream request); pr_key := Some (dr_key request);
                       pr_event := Some (dr_event request); pr_owner_id := None;
                       pr_tenant_id := p_tenant_id principal |};
     pi_context := Some (dr_payload request) |}.
Definition sealed_append_decision (principal : Principal) (request : DeliverRequest) : result ServerError unit :=
  let baseline := decide_baseline principal Authz.StreamAppend
                    {| rc_tenant_id := p_tenant_id principal; rc_owner_user_id := None |} in
  match apply_policy_hooks baseline (append_input principal request) policy_hooks with
  | Allow => Ok tt
  | Deny reason public_message => Err (SE_Authorization public_message (Some (DenyReason_as_str reason)))
  end.

(** [nonce] and [uuid] are the random draws of the append. *)
Definition deliver (app_id body : string) (nonce : blob) (uuid : string) (now : Z) : Step SealedReply :=
  request ← lift_res (parse_deliver_request body);
  check_delivery_window request now;;
  verified ← (λ w, (Ok (Sealed.verify hash_access_token (sw_access w) (dr_tenant_id request) (dr_recipient request)
                          (dr_access_token request)), w));
  (if verified : bool then mret tt else lift_res (Err access_denied));;
  allowed ← call_on sw_tenants put_tenants
    (ensure_tenant_allowed (dr_tenant_id request) (sealed_implicit_tenant_creation config) now);
  lift_res allowed;;
  lift_res (check_payload_size (dr_payload request) (sealed_max_append_payload_bytes config));;
  let principal := sealed_principal (dr_tenant_id request) (dr_recipient request) in
  lift_res (sealed_append_decision principal request);;
  appended ← call_on sw_store put_store
    (append_event schema encryption constraint_failed projector has_listener replay_window_ms nonce
       (p_tenant_id principal) (dr_stream request) (dr_key request) (p_replica_id principal)
       (dr_append_request_id request) (dr_event request) (dr_payload request) app_id uuid now);
  match appended with
  | Ok result => mret (Delivered (ar_event result))
  | Err error => lift_res (Err (SE_BadRequest (StoreError_display error)))
  end.
End Routes.

(** ** What a certificate binds *)

Lemma to_be_bytes_length n : ∀ v, length (to_be_bytes n v) = n.
Proof. induction n as [|n IH]; intros v; cbn [to_be_bytes]; [done|]. rewrite length_app, IH. simpl. lia. Qed.

Lemma to_be_bytes_inj n : ∀ v w, to_be_bytes n v = to_be_bytes n w → v mod 256 ^ Z.of_nat n = w mod 256 ^ Z.of_nat n.
Proof.
  induction n as [|n IH]; intros v w; cbn [to_be_bytes]; [by rewrite !Z.mod_1_r|].
  intros [Hq [= Hm]]%app_inj_2; [|done]. apply IH in Hq.
  rewrite Nat2Z.inj_succ, Z.pow_succ_r by lia.
  rewrite !Z.rem_mul_r by lia. by rewrite Hq, Hm.
Qed.

Lemma prefixed_inj (a b x y : blob) :
  Z.of_nat (length a) ≤ u32_max → Z.of_nat (length b) ≤ u32_max →
  length_prefix a ++ a ++ x = length_prefix b ++ b ++ y → a = b ∧ x = y.
Proof.
  unfold length_prefix. intros Ha Hb [Hl Hr]%app_inj_1; [|by rewrite !to_be_bytes_length].
  apply to_be_bytes_inj in Hl. change (256 ^ Z.of_nat 4) with (2 ^ 32) in Hl. unfold u32_max in *.
  rewrite !Z.min_l, !Z.mod_small in Hl by lia. apply app_inj_1 in Hr as [-> ->]; [done|lia].
Qed.

Definition fits_u32 {A} (l : list A) : Prop := Z.of_nat (length l) ≤ u32_max.

Lemma certificate_payload_inj version user device key expires version' user' device' key' expires' :
  fits_u32 (Str.bytes user) → fits_u32 (Str.bytes device) → fits_u32 key →
  fits_u32 (Str.bytes user') → fits_u32 (Str.bytes device') → fits_u32 key' → is_i64 expires → is_i64 expires' →
  certificate_payload version user device key expires = certificate_payload version' user' device' key' expires' →
  version = version' ∧ user = user' ∧ device = device' ∧ key = key' ∧ expires = expires'.
Proof.
  intros Hu Hd Hk Hu' Hd' Hk' He He'. unfold certificate_payload. intros Heq.
  apply app_inj_1 in Heq as [[= ->] Heq]; [|done].
  apply prefixed_inj in Heq as [<-%bytes_inj Heq]; [|done..].
  apply prefixed_inj in Heq as [<-%bytes_inj Heq]; [|done..].
  apply prefixed_inj in Heq as [<- H]; [|done..].
  apply to_be_bytes_inj in H. change (256 ^ Z.of_nat 8) with (2 ^ 64) in H.
  split_and!; try done. rewrite <- (wrap64_id expires He), <- (wrap64_id expires' He'). unfold wrap64.
  rewrite <- (Zplus_mod_idemp_l expires), <- (Zplus_mod_idemp_l expires'). by rewrite H.
Qed.

(** C29: A certificate binds its user, device, key and expiry: the one the server
    issues verifies under its published key until it expires and is refused as
    expired afterwards, and no certificate with another user, device, identity key
    or expiry is signed over the same bytes, so its signature fits no other. *)
Theorem certificate_binds `{CertCratesLaws} (s : SealedSenderState) (user device : string) (key : blob) (now : Z) :
  fits_u32 (Str.bytes user) → fits_u32 (Str.bytes device) → fits_u32 key → Forall is_byte key →
  let cert := SealedSenderState_issue_certificate s user device key now in
  (∀ t, verify_certificate s cert t = if t <=? sd_expires_at cert then Ok tt else Err Cert_Expired)
  ∧ ∀ cert' key', std_decode (sd_identity_key cert') = Some key' →
      fits_u32 (Str.bytes (sd_user_id cert')) → fits_u32 (Str.bytes (sd_device_id cert')) → fits_u32 key' →
      is_i64 (sd_expires_at cert') →
      certificate_payload (sd_version cert') (sd_user_id cert') (sd_device_id cert') key' (sd_expires_at cert')
        = certificate_payload (sd_version cert) user device key (sd_expires_at cert) →
      sd_user_id cert' = user ∧ sd_device_id cert' = device ∧ key' = key ∧ sd_expires_at cert' = sd_expires_at cert.
Proof.
  intros Hu Hd Hk Hb. cbv zeta. split.
  - intros t. unfold verify_certificate, verify_certificate_with_key, SealedSenderState_issue_certificate.
    cbn [sd_version sd_user_id sd_device_id sd_identity_key sd_expires_at sd_signature].
    rewrite Z.eqb_refl. unfold guard_res at 1. destruct (_ <=? _); [|done]. cbn.
    rewrite (std_roundtrip key Hb). cbn. rewrite (std_roundtrip _ (signature_bytes _)). cbn. rewrite signature_roundtrip. cbn. unfold public_key_bytes. rewrite point_roundtrip. cbn.
    by rewrite signature_correct.
  - intros cert' key' _ Hu' Hd' Hk' He' Heq.
    apply certificate_payload_inj in Heq as (_ & ? & ? & ? & ?); try done.
    unfold SealedSenderState_issue_certificate, i64_saturating_add, is_i64, i64_min, i64_max. cbn. lia.
Qed.

(** ** Deliveries *)

Section Deliveries.
Context `{CertCrates, PackedColumn PackedRecord, PackedColumn PackedStreamEvent, Crypto} {SearchOp : Type}.
Context (config : SealedConfig) (hash_access_token : string → string).
Context (from_slice : string → result string Value) (write_value : Value → option blob) (policy_hooks : list PolicyHook).
Context (schema : FrickSchema) (encryption : option KeyProvider) (constraint_failed : string).
Context (projector : option (FrickStoreWriteEvent → option (list SearchOp))) (has_listener : bool) (replay_window_ms : Z).
Local Abbreviation World := (SealedWorld SearchOp).
Local Abbreviation delivery := (deliver config hash_access_token from_slice write_value policy_hooks schema encryption
  constraint_failed projector has_listener replay_window_ms).
Local Abbreviation window_check request now w :=
  (Limiter.check (delivery_key (dr_tenant_id request) (dr_recipient request)) now (sealed_delivery_window_ms config)
     (delivery_limit config) (sw_limiter w)).
Local Abbreviation append_of request app_id nonce uuid now :=
  (append_event schema encryption constraint_failed projector has_listener replay_window_ms nonce (dr_tenant_id request)
     (dr_stream request) (dr_key request) (SEALED_DEVICE_ID +:+ ":" +:+ dr_recipient request)
     (dr_append_request_id request) (dr_event request) (dr_payload request) app_id uuid now).

(** The token of the request is the recipient's current one. *)
Definition token_accepted (request : DeliverRequest) (w : World) : bool :=
  Sealed.verify hash_access_token (sw_access w) (dr_tenant_id request) (dr_recipient request) (dr_access_token request).

Lemma sealed_append_decision_exact request :
  dr_recipient request ≠ EmptyString →
  let principal := sealed_principal (dr_tenant_id request) (dr_recipient request) in
  sealed_append_decision policy_hooks principal request = Ok tt
  ↔ Forall (no_deny (append_input principal request)) policy_hooks.
Proof using Type.
  intros Hne. cbv zeta. unfold sealed_append_decision, decide_baseline.
  cbn [p_user_id p_tenant_id p_scope sealed_principal rc_tenant_id]. rewrite String.eqb_refl.
  destruct (dr_recipient request) eqn:E; [done|]. cbn [Str.is_empty]. rewrite !andb_false_r.
  rewrite apply_policy_hooks_allow, <- run_hooks_allow. by destruct (run_hooks _ _ _).
Qed.

Lemma require_string_non_empty body key name s : require_string body key name = Ok s → s ≠ EmptyString.
Proof using Type. unfold require_string. intros Hr. repeat case_match; by simplify_eq/=. Qed.

Lemma parse_recipient body request : parse_deliver_request from_slice body = Ok request → dr_recipient request ≠ EmptyString.
Proof using Type.
  unfold parse_deliver_request. intros Hp.
  repeat match type of Hp with (?m ≫= _) = _ => let E := fresh "E" in destruct m eqn:E; cbn [mbind result_bind] in Hp; [|done] end.
  simplify_eq. cbn [dr_recipient]. by eapply require_string_non_empty.
Qed.

(** Every delivery that is answered with an event went through all the gates. *)
Lemma deliver_Ok app_id body nonce uuid now w reply w' :
  delivery app_id body nonce uuid now w = (Ok reply, w') →
  ∃ request limiter tenants result store,
    parse_deliver_request from_slice body = Ok request
    ∧ window_check request now w = (true, limiter)
    ∧ token_accepted request w = true
    ∧ ensure_tenant_allowed (dr_tenant_id request) (sealed_implicit_tenant_creation config) now (sw_tenants w) = (Ok tt, tenants)
    ∧ check_payload_size write_value (dr_payload request) (sealed_max_append_payload_bytes config) = Ok tt
    ∧ Forall (no_deny (append_input (sealed_principal (dr_tenant_id request) (dr_recipient request)) request)) policy_hooks
    ∧ append_of request app_id nonce uuid now (sw_store w) = (Ok result, store)
    ∧ reply = Delivered (ar_event result)
    ∧ w' = {| sw_store := store; sw_tenants := tenants; sw_access := sw_access w; sw_limiter := limiter |}.
Proof using Type.
  unfold deliver, call_on, check_delivery_window. run_M.
  destruct (parse_deliver_request from_slice body) as [request|] eqn:Ep; [|done].
  destruct (window_check request now w) as [[] limiter] eqn:Ew; [|done].
  change (sw_access (put_limiter limiter w)) with (sw_access w).
  destruct (Sealed.verify _ _ _ _ _) eqn:Ev; [|done].
  change (sw_tenants (put_limiter limiter w)) with (sw_tenants w).
  destruct (ensure_tenant_allowed _ _ _ _) as [[[]|] tenants] eqn:Et; [|done].
  destruct (check_payload_size _ _ _) as [[]|] eqn:Es; [|done].
  destruct (sealed_append_decision _ _ _) as [[]|] eqn:Ed; [|done].
  change (sw_store (put_tenants tenants (put_limiter limiter w))) with (sw_store w).
  cbn [p_tenant_id p_replica_id sealed_principal].
  destruct (append_event _ _ _ _ _ _ _ _ _ _ _ _ _ _ _ _ _ _) as [[result|] store] eqn:Ea; [|done].
  intros [= <- <-]. exists request, limiter, tenants, result, store.
  split_and!; try done. apply sealed_append_decision_exact; [by eapply parse_recipient|done].
Qed.

(** A request whose token is not accepted gets no further than the limiter. *)
Lemma deliver_refused app_id body nonce uuid now w :
  (∀ request, parse_deliver_request from_slice body = Ok request → token_accepted request w = false) →
  delivery app_id body nonce uuid now w
  = match parse_deliver_request from_slice body with
    | Err e => (Err e, w)
    | Ok request =>
        match check_delivery_window config request now w with
        | (Ok _, w) => (Err access_denied, w)
        | (Err e, w) => (Err e, w)
        end
    end.
Proof using Type.
  intros Hno. unfold deliver. run_M. destruct (parse_deliver_request from_slice body) as [request|]; [|done].
  specialize (Hno request eq_refl). unfold token_accepted in Hno. unfold check_delivery_window.
  destruct (window_check request now w) as [[] limiter]; [|done]. cbn [sw_access put_limiter]. by rewrite Hno.
Qed.
End Deliveries.

(** An anonymous sender without the token learns nothing of the recipient: in any
    two states of the server that refuse the token, whether the recipient is
    unknown, never enrolled, revoked the token or has another, and whatever their
    tenants, sessions and streams, the same request gets the same answer; and it
    changes nothing but the counter of the window, no tenant is made. *)
Theorem sealed_denials_uniform `{CertCrates, PackedColumn PackedRecord, PackedColumn PackedStreamEvent, Crypto}
    {SearchOp : Type} (config : SealedConfig) (hash : string → string) (from_slice : string → result string Value)
    (write_value : Value → option blob) (hooks : list PolicyHook) (schema : FrickSchema)
    (encryption : option KeyProvider) (msg : string)
    (projector : option (FrickStoreWriteEvent → option (list SearchOp))) (has_listener : bool) (replay_window_ms : Z)
    (app_id body : string) (nonce : blob) (uuid : string) (now : Z) (w1 w2 : SealedWorld SearchOp) :
  (∀ request, parse_deliver_request from_slice body = Ok request → token_accepted hash request w1 = false) →
  (∀ request, parse_deliver_request from_slice body = Ok request → token_accepted hash request w2 = false) →
  sw_limiter w1 = sw_limiter w2 →
  let delivery := deliver config hash from_slice write_value hooks schema encryption msg projector has_listener
                    replay_window_ms app_id body nonce uuid now in
  ∃ e limiter, delivery w1 = (Err e, put_limiter limiter w1) ∧ delivery w2 = (Err e, put_limiter limiter w2).
Proof.
  intros Hw1 Hw2 Hl. cbv zeta. rewrite !deliver_refused by done.
  destruct (parse_deliver_request from_slice body) as [request|e].
  - unfold check_delivery_window. rewrite Hl. destruct (Limiter.check _ _ _ _ _) as [[] limiter]; by eexists _, limiter.
  - exists e, (sw_limiter w1). split; [by destruct w1|]. rewrite Hl. by destruct w2.
Qed.

Lemma append_event_Ok `{PackedColumn PackedRecord, PackedColumn PackedStreamEvent, Crypto} {SearchOp : Type}
    schema encryption msg (projector : option (FrickStoreWriteEvent → option (list SearchOp))) has_listener window
    nonce tenant stream key replica request event payload app uuid now s r s' :
  append_event schema encryption msg projector has_listener window nonce tenant stream key replica request event
    payload app uuid now s = (Ok r, s') →
  append schema (new_window (Some window)) encryption msg nonce tenant stream key replica request event payload app
    ("event-" +:+ uuid) now (fs_streams s, fs_cache s) = (Ok r, (fs_streams s', fs_cache s')).
Proof.
  unfold append_event, on. run_M. destruct (append _ _ _ _ _ _ _ _ _ _ _ _ _ _ _ _) as [[r0|] [db cache]]; [|done].
  unfold announce, notify_write_listener, run_search_projector. destruct (ar_created r0).
  - intros [= <- <-]. repeat case_match; done.
  - intros [= <- <-]. done.
Qed.


(** ** How many tokens can be tried *)

Lemma delivery_limit_nonneg config : 0 ≤ delivery_limit config.
Proof. unfold delivery_limit, u32_max. repeat case_match; autorewrite with frick in *; lia. Qed.

Section Tries.
Context `{CertCrates, PackedColumn PackedRecord, PackedColumn PackedStreamEvent, Crypto} {SearchOp : Type}.
Context (config : SealedConfig) (hash_access_token : string → string).
Context (from_slice : string → result string Value) (write_value : Value → option blob) (policy_hooks : list PolicyHook).
Context (schema : FrickSchema) (encryption : option KeyProvider) (constraint_failed : string).
Context (projector : option (FrickStoreWriteEvent → option (list SearchOp))) (has_listener : bool) (replay_window_ms : Z).
Local Abbreviation World := (SealedWorld SearchOp).
Local Abbreviation delivery := (deliver config hash_access_token from_slice write_value policy_hooks schema encryption
  constraint_failed projector has_listener replay_window_ms).

Record Attempt : Type := { at_app_id : string; at_body : string; at_nonce : blob; at_uuid : string; at_now : Z }.
Definition attempted (a : Attempt) (w : World) : World :=
  (delivery (at_app_id a) (at_body a) (at_nonce a) (at_uuid a) (at_now a) w).2.
(** The attempt is on the recipient and got past the limiter, so it compares its
    token. *)
Definition tries (scope : string * string) (a : Attempt) (w : World) : bool :=
  match parse_deliver_request from_slice (at_body a) with
  | Ok request => bool_decide ((dr_tenant_id request, dr_recipient request) = scope)
                  && is_ok (check_delivery_window config request (at_now a) w).1
  | Err _ => false
  end.
Fixpoint tried (scope : string * string) (w : World) (attempts : list Attempt) : Z :=
  match attempts with
  | [] => 0
  | a :: rest => (if tries scope a w then 1 else 0) + tried scope (attempted a w) rest
  end.

Lemma attempted_limiter a w :
  sw_limiter (attempted a w)
  = match parse_deliver_request from_slice (at_body a) with
    | Ok request => sw_limiter (check_delivery_window config request (at_now a) w).2
    | Err _ => sw_limiter w
    end.
Proof using Type.
  unfold attempted, deliver, call_on, check_delivery_window. run_M.
  destruct (parse_deliver_request from_slice (at_body a)) as [request|]; [|done].
  destruct (Limiter.check _ _ _ _ _) as [[] limiter]; [|done].
  repeat (case_match; cbn [fst snd] in *; simplify_eq; try done).
Qed.

Lemma attempt_remaining scope t0 a n w :
  0 ≤ t0 → t0 + sealed_delivery_window_ms config ≤ i64_max → t0 ≤ at_now a < t0 + sealed_delivery_window_ms config →
  0 ≤ n → entry_ok (sealed_delivery_window_ms config) t0 (n + 1) (sw_limiter w !! delivery_key scope.1 scope.2) →
  entry_ok (sealed_delivery_window_ms config) t0 n (sw_limiter (attempted a w) !! delivery_key scope.1 scope.2)
  ∧ remaining (delivery_limit config) t0 (sw_limiter (attempted a w) !! delivery_key scope.1 scope.2)
    + (if tries scope a w then 1 else 0)
    ≤ remaining (delivery_limit config) t0 (sw_limiter w !! delivery_key scope.1 scope.2).
Proof using Type.
  intros Ht0 Hmax Hnow Hn Hok. rewrite attempted_limiter. unfold tries.
  destruct (parse_deliver_request from_slice (at_body a)) as [request|].
  - pose proof (delivery_limit_nonneg config) as Hlim. pose proof (check_remaining _ _ _ (delivery_key scope.1 scope.2) (delivery_key (dr_tenant_id request) (dr_recipient request))
      (at_now a) n (sw_limiter w) Hlim Ht0 Hmax Hnow Hn Hok) as [Hok' Hle].
    unfold check_delivery_window. destruct (Limiter.check _ _ _ _ _) as [b l]. cbn [fst snd] in *.
    cbn [sw_limiter put_limiter]. split; [exact Hok'|]. case_bool_decide as Hs.
    + rewrite <- Hs in Hle |- *. cbn [fst snd] in *. rewrite String.eqb_refl in Hle. by destruct b.
    + cbn [andb]. destruct (_ && _); lia.
  - split; [|lia]. destruct (sw_limiter w !! _) as [[start c]|]; simpl in *; lia.
Qed.

Lemma tried_remaining scope t0 attempts : ∀ w,
  0 ≤ t0 → t0 + sealed_delivery_window_ms config ≤ i64_max →
  Forall (λ a, t0 ≤ at_now a < t0 + sealed_delivery_window_ms config) attempts →
  entry_ok (sealed_delivery_window_ms config) t0 (Z.of_nat (length attempts)) (sw_limiter w !! delivery_key scope.1 scope.2) →
  tried scope w attempts ≤ remaining (delivery_limit config) t0 (sw_limiter w !! delivery_key scope.1 scope.2).
Proof using Type.
  pose proof (delivery_limit_nonneg config) as Hlim.
  induction attempts as [|a attempts IH]; intros w Ht0 Hmax Ht Hok; cbn [tried].
  - unfold remaining. destruct (_ !! _) as [[]|]; repeat case_match; lia.
  - apply Forall_cons in Ht as [Hnow Ht]. cbn [length] in Hok. rewrite Nat2Z.inj_succ, <- Z.add_1_r in Hok.
    destruct (attempt_remaining scope t0 a (Z.of_nat (length attempts)) w Ht0 Hmax Hnow ltac:(lia) Hok) as [H' Hle].
    specialize (IH _ Ht0 Hmax Ht H'). lia.
Qed.
End Tries.

(** Guessing a recipient's token is throttled: of any anonymous deliveries in an
    interval as long as the window, whatever they carry and whomever they are
    for, at most twice the configured number compare a token of one recipient,
    and at most the configured number when its window begins in the interval. *)
Theorem sealed_tries_bounded `{CertCrates, PackedColumn PackedRecord, PackedColumn PackedStreamEvent, Crypto}
    {SearchOp : Type} (config : SealedConfig) (hash : string → string) (from_slice : string → result string Value)
    (write_value : Value → option blob) (hooks : list PolicyHook) (schema : FrickSchema)
    (encryption : option KeyProvider) (msg : string)
    (projector : option (FrickStoreWriteEvent → option (list SearchOp))) (has_listener : bool) (replay_window_ms : Z)
    (scope : string * string) (t0 : Z) (attempts : list Attempt) (w : SealedWorld SearchOp) :
  let window := sealed_delivery_window_ms config in
  let entry := sw_limiter w !! delivery_key scope.1 scope.2 in
  0 ≤ t0 → t0 + window ≤ i64_max → Forall (λ a, t0 ≤ at_now a < t0 + window) attempts →
  entry_ok window t0 (Z.of_nat (length attempts)) entry →
  tried config hash from_slice write_value hooks schema encryption msg projector has_listener replay_window_ms
    scope w attempts ≤ match entry with Some (start, _) => if start <? t0 then 2 else 1 | None => 1 end * delivery_limit config.
Proof.
  cbv zeta. intros Ht0 Hmax Ht Hok.
  pose proof (tried_remaining config hash from_slice write_value hooks schema encryption msg projector has_listener
    replay_window_ms scope t0 attempts w Ht0 Hmax Ht Hok) as Hle.
  pose proof (delivery_limit_nonneg config) as Hlim.
  unfold remaining, entry_ok in *. destruct (sw_limiter w !! _) as [[start c]|]; [destruct (start <? t0)|]; lia.
Qed.

(** ** Samples *)

Lemma bytes_of_bytes b : Forall is_byte b → Str.bytes (of_bytes b) = b.
Proof.
  induction 1 as [|x b Hx _ IH]; [done|]. cbn [of_bytes Str.bytes]. rewrite IH. f_equal.
  unfold Str.byte. unfold is_byte in Hx. rewrite nat_ascii_embedding by lia. lia.
Qed.
Lemma bytes_are_bytes s : Forall is_byte (Str.bytes s).
Proof.
  induction s as [|a s IH]; [constructor|]. cbn [Str.bytes]. constructor; [|exact IH].
  unfold Str.byte, is_byte. pose proof (nat_ascii_bounded a). lia.
Qed.

Module ToyCert.
(** A signature that is the message, under the key that is the public one. *)
#[export] Instance crates : CertCrates := {|
  SigningKey := string; VerifyingKey := string; Signature := string;
  from_pkcs8_pem := Ok; verifying_key k := k; to_encoded_point := Str.bytes; from_sec1_bytes b := Some (of_bytes b);
  sign k m := k +:+ of_bytes m; sig_to_bytes := Str.bytes; sig_from_slice b := Some (of_bytes b);
  sig_verify k m s := String.eqb s (k +:+ of_bytes m); std_encode := of_bytes; std_decode s := Some (Str.bytes s) |}.
#[export] Instance laws : CertCratesLaws.
Proof.
  split; cbn.
  - intros k. by rewrite of_bytes_bytes.
  - intros s. by rewrite of_bytes_bytes.
  - intros k m. apply String.eqb_refl.
  - apply bytes_are_bytes.
  - intros b Hb. by rewrite bytes_of_bytes.
Qed.
End ToyCert.
Import ToyCert ToyCrypto ToyPacked SampleAuth.

Module SampleSealed.
Definition config : SealedConfig :=
  {| sealed_sender_cert_ttl_seconds := 86400; sealed_sender_key_pem := Some "pem"; sealed_delivery_window_ms := 60000;
     max_sealed_deliveries_per_window := 2; sealed_max_append_payload_bytes := 1000; sealed_implicit_tenant_creation := true |}.
Definition server : SealedSenderState := {| ss_signing := "pem"; ss_cert_ttl_ms := 86400000 |}.
(** A body is the token, sent to [bob] with a title. *)
Definition from_slice (token : string) : result string Value :=
  Ok (VMap [(VStr "payload", SampleFacade.task token); (VStr "recipientUserId", VStr "bob");
            (VStr "accessToken", VStr token); (VStr "stream", VStr "TaskStream"); (VStr "key", VStr "s1");
            (VStr "event", VStr "TaskDone"); (VStr "requestId", VStr "q1")]).
Definition write_value (_ : Value) : option blob := Some [0; 0].
Definition enrolled : SealedWorld string :=
  {| sw_store := SampleFacade.empty; sw_tenants := ∅;
     sw_access := (Sealed.issue tag "_default" "bob" "correct horse battery" t0 ∅).2; sw_limiter := ∅ |}.
Definition unknown : SealedWorld string :=
  {| sw_store := SampleFacade.empty; sw_tenants := ∅; sw_access := ∅; sw_limiter := ∅ |}.
Definition send (body uuid : string) (now : Z) : M (SealedWorld string) ServerError SealedReply :=
  deliver config tag from_slice write_value [] SampleSchema.schema enc msg (Some SampleFacade.projector) true 60000
    "app1" body nonce uuid now.
Definition delivered : SealedWorld string := (send "correct horse battery" "u1" t0 enrolled).2.
Definition again : SealedWorld string := (send "correct horse battery" "u2" (t0 + 5000) delivered).2.
Definition request (token : string) : DeliverRequest :=
  {| dr_recipient := "bob"; dr_access_token := token; dr_tenant_id := "_default"; dr_stream := "TaskStream"; dr_key := "s1";
     dr_event := "TaskDone"; dr_append_request_id := "q1"; dr_payload := SampleFacade.task token |}.
Definition event : StoredEvent :=
  match (send "correct horse battery" "u1" t0 enrolled).1 with
  | Ok (Delivered e) => e
  | _ => {| st_event := {| se_stream := ""; se_stream_id := ""; se_sequence := 0; se_event_id := ""; se_event := ""; se_payload := VNil |};
            st_tenant_id := ""; st_app_id := "" |}
  end.
Definition attempt (token : string) (now : Z) : Attempt :=
  {| at_app_id := "app1"; at_body := token; at_nonce := nonce; at_uuid := "u"; at_now := now |}.
End SampleSealed.
Import SampleSealed.

Lemma certificate_binds_witness :
  verify_certificate server (SealedSenderState_issue_certificate server "ann" "phone" [4; 5] t0) (t0 + 86400000) = Ok tt
  ∧ verify_certificate server (SealedSenderState_issue_certificate server "ann" "phone" [4; 5] t0) (t0 + 86400001)
    = Err Cert_Expired.
Proof.
  destruct (certificate_binds server "ann" "phone" [4; 5] t0) as [Hv _].
  - vm_compute. discriminate.
  - vm_compute. discriminate.
  - vm_compute. discriminate.
  - repeat constructor; unfold is_byte; lia.
  - rewrite !Hv. split; vm_compute; reflexivity.
Defined.

Lemma sealed_denials_uniform_witness :
  (send "wrong" "u1" t0 enrolled).1 = (send "wrong" "u1" t0 unknown).1
  ∧ (send "wrong" "u1" t0 enrolled).1 = Err access_denied.
Proof.
  split; [|vm_compute; reflexivity].
  destruct (sealed_denials_uniform config tag from_slice write_value [] SampleSchema.schema enc msg
    (Some SampleFacade.projector) true 60000 "app1" "wrong" nonce "u1" t0 enrolled unknown) as (e & l & H1 & H2).
  - intros request. vm_compute. by intros [= <-].
  - intros request. vm_compute. by intros [= <-].
  - reflexivity.
  - unfold send. by rewrite H1, H2.
Defined.


Lemma sealed_tries_bounded_witness :
  tried config tag from_slice write_value [] SampleSchema.schema enc msg (Some SampleFacade.projector) true 60000
    ("_default", "bob") enrolled [attempt "a" t0; attempt "b" t0; attempt "c" (t0 + 1)] ≤ 2.
Proof.
  apply (sealed_tries_bounded config tag from_slice write_value [] SampleSchema.schema enc msg (Some SampleFacade.projector)
    true 60000 ("_default", "bob") t0 [attempt "a" t0; attempt "b" t0; attempt "c" (t0 + 1)] enrolled).
  - vm_compute. discriminate.
  - vm_compute. discriminate.
  - repeat constructor; vm_compute; done.
  - vm_compute. reflexivity.
Defined.
