(* ===== verification/BlobStore.v ===== *)
(** * Blobs: metadata, bytes and derivatives ([frick-store/src/stores/blob.rs],
      [blob_bytes.rs], and their part of [facade.rs])

    Metadata and derivatives are tables by their primary keys. The bytes are
    behind the class [BlobBytes], with the SQL and the filesystem driver as
    instances; a filesystem is a map from paths to contents whose calls succeed.
    SHA-256 in hex is a parameter. *)

From Stdlib Require Import ZArith Lia Ascii String.
From stdpp Require Import base gmap strings list sorting pretty.
From S2P Require Import Prelude Value Timestamp Text StoreBase Encryption Samples JobStore ServerErrors Sessions.

(** ** Metadata *)

Record BlobMetadataInput : Type := {
  bi_blob_id : string; bi_owner_id : string; bi_content_hash : string; bi_byte_length : Z; bi_mime_type : string;
  bi_storage_key : option string;
}.
Record BlobMetadata : Type := {
  bm_blob_id : string; bm_owner_id : string; bm_content_hash : string; bm_byte_length : Z; bm_mime_type : string;
  bm_storage_key : option string; bm_tenant_id : string; bm_app_id : string; bm_created_at : string;
}.
Record BlobPageCursor : Type := { bc_created_at : string; bc_blob_id : string }.
Record BlobGcReport : Type := { gc_scanned : nat; gc_collectable : list string; gc_deleted : nat }.

(** The primary key is [blob_id] alone. *)
Abbreviation BlobTable := (gmap string BlobMetadata).
Definition blob_rows (t : BlobTable) : list BlobMetadata := (map_to_list t).*2.

Definition derivative_storage_key (parent_blob_id derivative_id : string) : string :=
  "derivative/" +:+ parent_blob_id +:+ "/" +:+ derivative_id.

Module Blobs.
Definition create (tenant_id : string) (metadata : BlobMetadataInput) (app_id : string) (now_ms : Z) :
    M BlobTable StoreError unit := λ t,
  let insert :=
    (Ok tt,
     <[bi_blob_id metadata :=
         {| bm_blob_id := bi_blob_id metadata; bm_owner_id := bi_owner_id metadata;
            bm_content_hash := bi_content_hash metadata; bm_byte_length := bi_byte_length metadata;
            bm_mime_type := bi_mime_type metadata; bm_storage_key := bi_storage_key metadata;
            bm_tenant_id := tenant_id; bm_app_id := app_id; bm_created_at := iso_from_epoch_ms now_ms |}]> t) in
  match t !! bi_blob_id metadata with
  | Some owner =>
      if String.eqb (bm_app_id owner) app_id then insert
      else (Err (CrossAppAccess app_id (bm_app_id owner) tenant_id "blob_metadata" (bi_blob_id metadata)), t)
  | None => insert
  end.

(** [app_id = ? AND tenant_id = ?]. *)
Definition in_partition (tenant_id app_id : string) (r : BlobMetadata) : bool :=
  String.eqb (bm_app_id r) app_id && String.eqb (bm_tenant_id r) tenant_id.

Definition read (t : BlobTable) (tenant_id blob_id app_id : string) : option BlobMetadata :=
  match t !! blob_id with
  | Some r => if in_partition tenant_id app_id r then Some r else None
  | None => None
  end.

(** [ORDER BY created_at DESC, blob_id ASC] and [ORDER BY created_at ASC, blob_id ASC]. *)
Definition newest_first (a b : BlobMetadata) : bool :=
  if String.eqb (bm_created_at a) (bm_created_at b) then Str.leb (bm_blob_id a) (bm_blob_id b)
  else Str.leb (bm_created_at b) (bm_created_at a).
Definition oldest_first (a b : BlobMetadata) : bool :=
  if String.eqb (bm_created_at a) (bm_created_at b) then Str.leb (bm_blob_id a) (bm_blob_id b)
  else Str.leb (bm_created_at a) (bm_created_at b).

Definition list_ (t : BlobTable) (tenant_id : string) (owner_id : option string) (app_id : string) : list BlobMetadata :=
  order_by newest_first
    (select (λ r, in_partition tenant_id app_id r
                  && match owner_id with Some o => String.eqb (bm_owner_id r) o | None => true end) (blob_rows t)).

Definition owned_by (tenant_id owner_id app_id : string) (r : BlobMetadata) : bool :=
  in_partition tenant_id app_id r && String.eqb (bm_owner_id r) owner_id.
(** [SUM(byte_length)], as long as it is within [i64]: SQLite fails the statement
    when it is not. *)
Definition total_bytes_for_owner (t : BlobTable) (tenant_id owner_id app_id : string) : Z :=
  foldr (λ r total, bm_byte_length r + total) 0 (select (owned_by tenant_id owner_id app_id) (blob_rows t)).

Definition delete_metadata (tenant_id blob_id app_id : string) : M BlobTable StoreError bool := λ t,
  match read t tenant_id blob_id app_id with
  | Some _ => (Ok true, base.delete blob_id t)
  | None => (Ok false, t)
  end.

Definition list_all_oldest_first (t : BlobTable) (tenant_id app_id : string) : list BlobMetadata :=
  order_by oldest_first (select (in_partition tenant_id app_id) (blob_rows t)).

(** [created_at > ? OR (created_at = ? AND blob_id > ?)]. *)
Definition after_cursor (cursor : BlobPageCursor) (r : BlobMetadata) : bool :=
  Str.ltb (bc_created_at cursor) (bm_created_at r)
  || (String.eqb (bm_created_at r) (bc_created_at cursor) && Str.ltb (bc_blob_id cursor) (bm_blob_id r)).
Definition list_oldest_first_page (t : BlobTable) (tenant_id : string) (limit : Z) (cursor : option BlobPageCursor)
    (app_id : string) : list BlobMetadata :=
  let safe_limit := if 0 <? limit then limit else 1 in
  take (Z.to_nat safe_limit)
    (order_by oldest_first
       (select (λ r, in_partition tenant_id app_id r
                     && match cursor with Some c => after_cursor c r | None => true end) (blob_rows t))).

(** [SELECT DISTINCT app_id .. ORDER BY app_id ASC]. *)
Definition list_app_ids_with_blobs (t : BlobTable) (tenant_id : string) : list string :=
  order_by Str.leb
    (remove_dups (bm_app_id <$> select (λ r, String.eqb (bm_tenant_id r) tenant_id) (blob_rows t))).

Fixpoint delete_all (tenant_id app_id : string) (blob_ids : list string) : M BlobTable StoreError nat :=
  match blob_ids with
  | [] => mret 0%nat
  | blob_id :: rest =>
      gone ← delete_metadata tenant_id blob_id app_id;
      deleted ← delete_all tenant_id app_id rest;
      mret (if gone : bool then S deleted else deleted)
  end.
Definition gc_unreferenced (tenant_id app_id : string) (referenced : gset string) (older_than_iso : string)
    (dry_run : bool) : M BlobTable StoreError BlobGcReport :=
  t ← get_state;
  let blobs := list_all_oldest_first t tenant_id app_id in
  let collectable :=
    List.filter (λ id, negb (bool_decide (id ∈ referenced)))
      (bm_blob_id <$> List.filter (λ b, Str.ltb (bm_created_at b) older_than_iso) blobs) in
  deleted ← (if dry_run then mret 0%nat else delete_all tenant_id app_id collectable);
  mret {| gc_scanned := length blobs; gc_collectable := collectable; gc_deleted := deleted |}.
End Blobs.

(** ** Derivatives, with their bytes inline; no app *)

Record DerivativeRec : Type := {
  dv_processor_id : string; dv_mime_type : string; dv_byte_length : Z; dv_content_hash : string;
  dv_storage_key : string; dv_content : blob; dv_metadata : option string; dv_created_at : string;
}.
(** By tenant, parent blob and derivative id. *)
Abbreviation DerivativeTable := (gmap (string * string * string) DerivativeRec).
Record DerivativeRow : Type := {
  dw_parent_blob_id : string; dw_derivative_id : string; dw_tenant_id : string; dw_processor_id : string;
  dw_mime_type : string; dw_byte_length : Z; dw_content_hash : string; dw_storage_key : string;
  dw_created_at : string; dw_metadata : option Value;
}.
Record DerivativeReadResult : Type := { rr_row : DerivativeRow; rr_bytes : blob }.
Record DerivativeRecordInput : Type := {
  di_parent_blob_id : string; di_derivative_id : string; di_tenant_id : string; di_processor_id : string;
  di_mime_type : string; di_content : blob; di_metadata_json : option string; di_storage_key : option string;
}.

Module Derivatives.
Definition of_parent (parent_blob_id tenant_id : string) (kr : (string * string * string) * DerivativeRec) : bool :=
  String.eqb kr.1.1.1 tenant_id && String.eqb kr.1.1.2 parent_blob_id.

Definition record_derivative (parent_blob_id derivative_id tenant_id processor_id mime_type : string) (byte_length : Z)
    (content_hash storage_key : string) (content : blob) (metadata_json : option string) (now_ms : Z) :
    M DerivativeTable StoreError unit := λ t,
  (Ok tt,
   <[(tenant_id, parent_blob_id, derivative_id) :=
       {| dv_processor_id := processor_id; dv_mime_type := mime_type; dv_byte_length := byte_length;
          dv_content_hash := content_hash; dv_storage_key := storage_key; dv_content := content;
          dv_metadata := metadata_json; dv_created_at := iso_from_epoch_ms now_ms |}]> t).

Definition delete_derivatives (parent_blob_id tenant_id : string) : M DerivativeTable StoreError Z := λ t,
  (Ok (changes (of_parent parent_blob_id tenant_id) (map_to_list t)),
   filter (λ kr, of_parent parent_blob_id tenant_id kr = false) t).
Definition count_derivatives (t : DerivativeTable) (parent_blob_id tenant_id : string) : Z :=
  changes (of_parent parent_blob_id tenant_id) (map_to_list t).
End Derivatives.

(** ** Bytes *)

(** [write], [read], [delete] and [exists] of a bytes driver, by tenant, blob and
    app. *)
Class BlobBytes (B : Type) := {
  bytes_write : string → string → blob → string → Z → M B StoreError unit;
  bytes_read : B → string → string → string → result StoreError (option blob);
  bytes_delete : string → string → string → M B StoreError unit;
  bytes_exists : B → string → string → string → result StoreError bool;
}.

(** *** The SQL driver *)

Record ContentRow : Type := { cr_app_id : string; cr_tenant_id : string; cr_content : blob; cr_updated_at : string }.
(** The primary key is [blob_id]. *)
Record SqlBlobBytesDriver : Type := { blob_content : gmap string ContentRow }.

Module SqlBytes.
Definition lookup (d : SqlBlobBytesDriver) (tenant_id blob_id app_id : string) : option ContentRow :=
  match blob_content d !! blob_id with
  | Some r => if String.eqb (cr_app_id r) app_id && String.eqb (cr_tenant_id r) tenant_id then Some r else None
  | None => None
  end.
Definition write (tenant_id blob_id : string) (content : blob) (app_id : string) (now_ms : Z) :
    M SqlBlobBytesDriver StoreError unit := λ d,
  (Ok tt, {| blob_content := <[blob_id := {| cr_app_id := app_id; cr_tenant_id := tenant_id; cr_content := content;
                                             cr_updated_at := iso_from_epoch_ms now_ms |}]> (blob_content d) |}).
Definition read (d : SqlBlobBytesDriver) (tenant_id blob_id app_id : string) : option blob :=
  cr_content <$> lookup d tenant_id blob_id app_id.
Definition delete (tenant_id blob_id app_id : string) : M SqlBlobBytesDriver StoreError unit := λ d,
  match lookup d tenant_id blob_id app_id with
  | Some _ => (Ok tt, {| blob_content := base.delete blob_id (blob_content d) |})
  | None => (Ok tt, d)
  end.
Definition exists_ (d : SqlBlobBytesDriver) (tenant_id blob_id app_id : string) : bool :=
  bool_decide (is_Some (lookup d tenant_id blob_id app_id)).
End SqlBytes.

#[export] Instance sql_bytes : BlobBytes SqlBlobBytesDriver := {|
  bytes_write := SqlBytes.write;
  bytes_read d tenant_id blob_id app_id := Ok (SqlBytes.read d tenant_id blob_id app_id);
  bytes_delete := SqlBytes.delete;
  bytes_exists d tenant_id blob_id app_id := Ok (SqlBytes.exists_ d tenant_id blob_id app_id) |}.

(** *** The filesystem driver *)

(** The characters a segment keeps. *)
Definition segment_char (c : ascii) : bool :=
  (97 <=? Str.byte c) && (Str.byte c <=? 122) || (48 <=? Str.byte c) && (Str.byte c <=? 57)
  || Ascii.eqb c "_" || Ascii.eqb c "-".
(** The loop of [encode_segment]; the bytes of a non-ASCII character are one run. *)
Fixpoint sanitize (in_run : bool) (s : string) : string :=
  match s with
  | EmptyString => EmptyString
  | String c s' =>
      if segment_char c then String c (sanitize false s')
      else if negb in_run then String "-" (sanitize true s') else sanitize true s'
  end.
(** [trim_matches('-')]. *)
Fixpoint trim_start_dash (l : list ascii) : list ascii :=
  match l with c :: l' => if Ascii.eqb c "-" then trim_start_dash l' else l | [] => [] end.
Definition trim_dashes (s : string) : string :=
  String.string_of_list_ascii (rev (trim_start_dash (rev (trim_start_dash (String.list_ascii_of_string s))))).

(** Paths below the root, segment by segment, and their contents. *)
Record FilesystemBlobBytesDriver : Type := { fs_files : gmap (list string) blob }.

Class Sha256 := sha256_hex : blob → string.

Section Filesystem.
Context `{Sha256}.

Definition encode_segment (id : string) : string :=
  let hash := String.substring 0 32 (sha256_hex (Str.bytes id)) in
  let trimmed := trim_dashes (sanitize false (Str.to_lowercase id)) in
  let readable := String.substring 0 40 trimmed in
  if Str.is_empty readable then hash else readable +:+ "." +:+ hash.

Definition path_for (tenant_id blob_id app_id : string) : list string :=
  let tenant_segment := encode_segment tenant_id in
  let blob_segment := encode_segment blob_id in
  let fanout := String.substring 0 2 blob_segment in
  if String.eqb app_id DEFAULT_APP_ID then [tenant_segment; fanout; blob_segment]
  else [encode_segment app_id; tenant_segment; fanout; blob_segment].

(** The temporary sibling is renamed onto the target in one step. *)
Definition fs_write (tenant_id blob_id : string) (content : blob) (app_id : string) (now_ms : Z) :
    M FilesystemBlobBytesDriver StoreError unit := λ d,
  (Ok tt, {| fs_files := <[path_for tenant_id blob_id app_id := content]> (fs_files d) |}).
Definition fs_read (d : FilesystemBlobBytesDriver) (tenant_id blob_id app_id : string) : option blob :=
  fs_files d !! path_for tenant_id blob_id app_id.
Definition fs_delete (tenant_id blob_id app_id : string) : M FilesystemBlobBytesDriver StoreError unit := λ d,
  (Ok tt, {| fs_files := base.delete (path_for tenant_id blob_id app_id) (fs_files d) |}).
Definition fs_exists (d : FilesystemBlobBytesDriver) (tenant_id blob_id app_id : string) : bool :=
  bool_decide (is_Some (fs_read d tenant_id blob_id app_id)).

#[export] Instance filesystem_bytes : BlobBytes FilesystemBlobBytesDriver := {|
  bytes_write := fs_write;
  bytes_read d tenant_id blob_id app_id := Ok (fs_read d tenant_id blob_id app_id);
  bytes_delete := fs_delete;
  bytes_exists d tenant_id blob_id app_id := Ok (fs_exists d tenant_id blob_id app_id) |}.
End Filesystem.

(** ** The facade's part: sealed bytes, and derivatives by its clock *)

Section Facade.
Context `{Sha256, Crypto, BlobBytes B}.
Context (encryption : option KeyProvider) (json : string → option Value).

Definition write_content (nonce : blob) (tenant_id blob_id : string) (content : blob) (app_id : string) (now_ms : Z) :
    M B StoreError unit :=
  stored ← lift_res (match encryption with
                     | Some provider => encrypt provider nonce tenant_id content
                     | None => Ok content
                     end);
  bytes_write tenant_id blob_id stored app_id now_ms.
Definition read_content (d : B) (tenant_id blob_id app_id : string) : result StoreError (option blob) :=
  stored ← bytes_read d tenant_id blob_id app_id;
  match encryption, stored with
  | Some provider, Some bytes => plain ← decrypt provider tenant_id bytes; Ok (Some plain)
  | None, stored => Ok stored
  | _, None => Ok None
  end.

(** An absent or unparsable [metadata] column gives none. *)
Definition map_derivative_row (kr : (string * string * string) * DerivativeRec) : DerivativeRow :=
  let '((tenant_id, parent_blob_id, derivative_id), r) := kr in
  {| dw_parent_blob_id := parent_blob_id; dw_derivative_id := derivative_id; dw_tenant_id := tenant_id;
     dw_processor_id := dv_processor_id r; dw_mime_type := dv_mime_type r; dw_byte_length := dv_byte_length r;
     dw_content_hash := dv_content_hash r; dw_storage_key := dv_storage_key r; dw_created_at := dv_created_at r;
     dw_metadata := raw ← dv_metadata r; json raw |}.
Definition derivative_le (a b : (string * string * string) * DerivativeRec) : bool := Str.leb a.1.2 b.1.2.
Definition list_derivatives (t : DerivativeTable) (parent_blob_id tenant_id : string) : list DerivativeRow :=
  map_derivative_row
  <$> order_by derivative_le (select (Derivatives.of_parent parent_blob_id tenant_id) (map_to_list t)).
Definition read_derivative (t : DerivativeTable) (parent_blob_id derivative_id tenant_id : string) :
    option DerivativeReadResult :=
  r ← t !! (tenant_id, parent_blob_id, derivative_id);
  Some {| rr_row := map_derivative_row ((tenant_id, parent_blob_id, derivative_id), r); rr_bytes := dv_content r |}.

Definition content_hash_of (content : blob) : string := "sha256-" +:+ sha256_hex content.
Definition record_derivative (input : DerivativeRecordInput) (now_ms : Z) : M DerivativeTable StoreError unit :=
  let byte_length := Z.min (Z.of_nat (length (di_content input))) i64_max in
  let storage_key := default (derivative_storage_key (di_parent_blob_id input) (di_derivative_id input))
                       (di_storage_key input) in
  Derivatives.record_derivative (di_parent_blob_id input) (di_derivative_id input) (di_tenant_id input)
    (di_processor_id input) (di_mime_type input) byte_length (content_hash_of (di_content input)) storage_key
    (di_content input) (di_metadata_json input) now_ms.
End Facade.

(** ** Isolation of the filesystem *)

(** SHA-256 in hex: 64 lower-case hexadecimal digits. *)
Definition is_hex (c : ascii) : bool :=
  (97 <=? Str.byte c) && (Str.byte c <=? 102) || (48 <=? Str.byte c) && (Str.byte c <=? 57).
Class Sha256Laws `{Sha256} : Prop := {
  sha256_length b : String.length (sha256_hex b) = 64%nat;
  sha256_digits b : Forall (λ c, is_hex c = true) (String.list_ascii_of_string (sha256_hex b));
}.

Local Abbreviation chars := String.list_ascii_of_string.

Lemma chars_app a b : chars (a +:+ b) = chars a ++ chars b.
Proof. induction a as [|c a IH]; [done|]. change (c :: chars (a +:+ b) = c :: chars a ++ chars b). by rewrite IH. Qed.
Lemma chars_length s : length (chars s) = String.length s.
Proof. induction s; simpl; congruence. Qed.
Lemma chars_inj a b : chars a = chars b → a = b.
Proof. intros E. by rewrite <- (string_of_list_ascii_of_string a), E, string_of_list_ascii_of_string. Qed.
Lemma chars_prefix n s : chars (String.substring 0 n s) = take n (chars s).
Proof.
  revert n. induction s as [|c s IH]; intros [|n]; try done.
  cbn [String.substring String.list_ascii_of_string take]. f_equal. apply IH.
Qed.

Lemma sanitize_chars in_run s : Forall (λ c, segment_char c = true) (chars (sanitize in_run s)).
Proof.
  revert in_run. induction s as [|c s IH]; intros in_run; [constructor|]. cbn [sanitize].
  destruct (segment_char c) eqn:E; [by constructor|]. destruct in_run; cbn [negb]; [done|by constructor].
Qed.
Lemma trim_start_sublist l : sublist (trim_start_dash l) l.
Proof. induction l as [|c l IH]; [constructor|]. cbn. destruct (Ascii.eqb c "-"); [by constructor|done]. Qed.
Lemma trim_dashes_chars s : Forall (λ c, segment_char c = true) (chars s) → Forall (λ c, segment_char c = true) (chars (trim_dashes s)).
Proof.
  assert (∀ l, Forall (λ c, segment_char c = true) l → Forall (λ c, segment_char c = true) (trim_start_dash l)) as Ht.
  { intros l Hl. apply Forall_forall. intros c Hc. rewrite Forall_forall in Hl. apply Hl.
    by eapply elem_of_sublist, trim_start_sublist. }
  intros Hs. unfold trim_dashes. rewrite list_ascii_of_string_of_list_ascii.
  by apply List.Forall_rev, Ht, List.Forall_rev, Ht.
Qed.

(** A segment: its characters, none of which is a separator, and its last 32,
    which are the hash. *)
Definition plain (c : ascii) : Prop := segment_char c = true ∨ c = "."%char.
Definition safe_segment (s : string) : Prop :=
  s ≠ EmptyString ∧ s ≠ "." ∧ s ≠ ".." ∧ Forall (λ c, c ≠ "/"%char) (chars s).

Section Paths.
Context `{Sha256Laws}.
Definition hash32 (id : string) : string := String.substring 0 32 (sha256_hex (Str.bytes id)).

Lemma hash32_chars id : length (chars (hash32 id)) = 32%nat ∧ Forall (λ c, segment_char c = true) (chars (hash32 id)).
Proof using Type*.
  unfold hash32. rewrite chars_prefix. split.
  - rewrite length_take, chars_length, sha256_length. done.
  - apply Forall_take. eapply Forall_impl; [apply sha256_digits|]. intros c. unfold is_hex, segment_char.
    rewrite !orb_true_iff, !andb_true_iff, !Z.leb_le. lia.
Qed.

Lemma encode_segment_shape id :
  ∃ pre, chars (encode_segment id) = pre ++ chars (hash32 id)
    ∧ (pre = [] ∨ ∃ c r, pre = c :: r ++ ["."%char] ∧ Forall (λ c, segment_char c = true) (c :: r)).
Proof using Type*.
  unfold encode_segment. fold (hash32 id). set (readable := String.substring 0 40 _).
  assert (Forall (λ c, segment_char c = true) (chars readable)) as Hr.
  { unfold readable. rewrite chars_prefix. apply Forall_take, trim_dashes_chars, sanitize_chars. }
  destruct readable as [|c r] eqn:E; cbn [Str.is_empty].
  - exists []. by split; [|left].
  - exists (chars (String c r) ++ ["."%char]). rewrite !chars_app. cbn. rewrite <- (assoc_L (++)). split; [done|]. right. eauto.
Qed.

Lemma encode_segment_plain id : ∃ c r, chars (encode_segment id) = c :: r ∧ segment_char c = true ∧ Forall plain r ∧ (31 ≤ length r)%nat.
Proof using Type*.
  destruct (encode_segment_shape id) as (pre & -> & Hpre). destruct (hash32_chars id) as [Hl Hh].
  assert (Forall plain (chars (hash32 id))) as Hp by (eapply Forall_impl; [exact Hh|]; by left).
  destruct Hpre as [->|(c & r & -> & Hc)].
  - destruct (chars (hash32 id)) as [|c r]; [done|]. apply Forall_cons in Hh as [? _], Hp as [_ ?]. exists c, r.
    simpl in Hl. split_and!; try done. lia.
  - apply Forall_cons in Hc as [Hc Hr]. exists c, ((r ++ ["."%char]) ++ chars (hash32 id)). cbn. split_and!; try done.
    + apply Forall_app. split; [|done]. apply Forall_app. split; [|by repeat constructor; right].
      eapply Forall_impl; [exact Hr|]. by left.
    + rewrite !length_app. simpl. lia.
Qed.

Lemma encode_segment_hash a b : encode_segment a = encode_segment b → hash32 a = hash32 b.
Proof using Type*.
  intros E. destruct (encode_segment_shape a) as (pa & Ha & _), (encode_segment_shape b) as (pb & Hb & _).
  rewrite E, Hb in Ha. apply app_inj_2 in Ha as [_ Ha]; [by apply chars_inj|].
  by rewrite !(proj1 (hash32_chars _)).
Qed.

Lemma plain_safe s c r : chars s = c :: r → segment_char c = true → Forall plain r → safe_segment s.
Proof using Type.
  intros Es Hc Hr.
  assert (∀ x, segment_char x = true → x ≠ "/"%char ∧ x ≠ "."%char) as Hx by (intros x Hx; split; by intros ->).
  assert (∀ t, chars t = c :: r → t ≠ EmptyString ∧ t ≠ "." ∧ t ≠ "..") as Hd.
  { intros t Et. split_and!; intros ->; cbn in Et; try discriminate; injection Et as <- <-; by destruct (Hx "."%char Hc). }
  destruct (Hd s Es) as (? & ? & ?). split_and!; try done.
  - rewrite Es. constructor; [by apply Hx|]. eapply Forall_impl; [exact Hr|]. intros x [?| ->]; [by apply Hx|done].
Qed.

Lemma path_safe tenant blob_id app : Forall safe_segment (path_for tenant blob_id app).
Proof using Type*.
  assert (∀ id, safe_segment (encode_segment id)) as He.
  { intros id. destruct (encode_segment_plain id) as (c & r & Es & Hc & Hr & _). by eapply plain_safe. }
  assert (safe_segment (String.substring 0 2 (encode_segment blob_id))) as Hf.
  { destruct (encode_segment_plain blob_id) as (c & r & Es & Hc & Hr & _).
    apply (plain_safe _ c (take 1 r)); [by rewrite chars_prefix, Es|done|by apply Forall_take]. }
  unfold path_for. destruct (String.eqb _ _); rewrite !Forall_cons; split_and!; done.
Qed.

(** No collision of the hashes of two ids. *)
Definition apart (a b : string) : Prop := hash32 a = hash32 b → a = b.

Lemma path_for_inj tenant blob_id app tenant' blob_id' app' :
  apart tenant tenant' → apart blob_id blob_id' → apart app app' →
  path_for tenant blob_id app = path_for tenant' blob_id' app' →
  tenant = tenant' ∧ blob_id = blob_id' ∧ app = app'.
Proof using Type*.
  intros Ht Hb Ha. unfold path_for.
  destruct (String.eqb_spec app DEFAULT_APP_ID) as [->|], (String.eqb_spec app' DEFAULT_APP_ID) as [->|]; try done.
  - intros [= E1%encode_segment_hash _ E2%encode_segment_hash]. auto.
  - intros [= E1%encode_segment_hash E2%encode_segment_hash _ E3%encode_segment_hash]. auto.
Qed.
End Paths.

(** C21: No id leaves its place on disk: every path segment is a plain file name, so no
    tenant, blob or app id, whatever separators and dots it has, reaches outside
    the root; and unless two ids collide in SHA-256, what is written or deleted
    under one app, tenant and blob id is never read under another. *)
Theorem filesystem_isolated `{Sha256Laws} (tenant blob_id app tenant' blob_id' app' : string) (content : blob) (now : Z)
    (d : FilesystemBlobBytesDriver) :
  apart tenant tenant' → apart blob_id blob_id' → apart app app' →
  (tenant, blob_id, app) ≠ (tenant', blob_id', app') →
  Forall safe_segment (path_for tenant blob_id app)
  ∧ fs_read (fs_write tenant blob_id content app now d).2 tenant blob_id app = Some content
  ∧ fs_read (fs_write tenant blob_id content app now d).2 tenant' blob_id' app' = fs_read d tenant' blob_id' app'
  ∧ fs_read (fs_delete tenant blob_id app d).2 tenant blob_id app = None
  ∧ fs_read (fs_delete tenant blob_id app d).2 tenant' blob_id' app' = fs_read d tenant' blob_id' app'.
Proof.
  intros Ht Hb Ha Hne. split; [apply path_safe|]. unfold fs_read, fs_write, fs_delete. cbn [snd fs_files].
  rewrite lookup_insert_eq, lookup_delete_eq.
  assert (path_for tenant blob_id app ≠ path_for tenant' blob_id' app') as Hp.
  { intros (-> & -> & ->)%path_for_inj; done. }
  by rewrite lookup_insert_ne, lookup_delete_ne by done.
Qed.

(** The SQL driver has no such isolation: its key is the blob id alone and the
    write takes the row over, so that a write of another tenant or app under the
    same blob id leaves the first with nothing. *)
Theorem sql_bytes_taken_over (tenant blob_id app tenant' app' : string) (content : blob) (now : Z)
    (d : SqlBlobBytesDriver) :
  (tenant, app) ≠ (tenant', app') →
  SqlBytes.read (SqlBytes.write tenant' blob_id content app' now d).2 tenant blob_id app = None
  ∧ SqlBytes.read (SqlBytes.write tenant' blob_id content app' now d).2 tenant' blob_id app' = Some content.
Proof.
  intros Hne. unfold SqlBytes.read, SqlBytes.lookup, SqlBytes.write. cbn. rewrite lookup_insert_eq. cbn.
  rewrite !String.eqb_refl. split; [|done].
  destruct (String.eqb_spec app' app), (String.eqb_spec tenant' tenant); cbn; by subst.
Qed.

(** ** Sweeping the metadata *)

(** Every row is under its own id. *)
Definition blobs_ok (t : BlobTable) : Prop := ∀ k r, t !! k = Some r → bm_blob_id r = k.

Lemma blob_created tenant metadata app now t : blobs_ok t → blobs_ok (Blobs.create tenant metadata app now t).2.
Proof.
  intros Hok. unfold Blobs.create.
  assert (∀ row, bm_blob_id row = bi_blob_id metadata → blobs_ok (<[bi_blob_id metadata := row]> t)) as Hi.
  { intros row Hrow k r. rewrite lookup_insert_Some. intros [[<- <-]|[_ Hr]]; [done|by apply Hok]. }
  destruct (t !! bi_blob_id metadata) as [owner|]; [destruct (String.eqb _ _)|]; [by apply Hi|done|by apply Hi].
Qed.

Lemma elem_of_blob_rows t r : blobs_ok t → r ∈ blob_rows t ↔ t !! bm_blob_id r = Some r.
Proof.
  intros Hok. unfold blob_rows. rewrite list_elem_of_fmap. split.
  - intros ([k r'] & -> & Hk%elem_of_map_to_list). cbn. by rewrite (Hok k r').
  - intros Hr. exists (bm_blob_id r, r). split; [done|]. by apply elem_of_map_to_list.
Qed.
Lemma blob_rows_ids t : blobs_ok t → NoDup (bm_blob_id <$> blob_rows t).
Proof.
  intros Hok. unfold blob_rows. rewrite <- list_fmap_compose.
  rewrite (list_fmap_ext _ fst); [apply NoDup_fst_map_to_list|].
  intros i [k r] Hk. cbn. apply Hok, elem_of_map_to_list. by eapply list_elem_of_lookup_2.
Qed.

Import Blobs.
Lemma oldest_first_total a b : oldest_first a b = true ∨ oldest_first b a = true.
Proof.
  unfold oldest_first. destruct (String.eqb_spec (bm_created_at a) (bm_created_at b)) as [E|E].
  - rewrite E, String.eqb_refl. apply lex_le_total.
  - destruct (String.eqb_spec (bm_created_at b) (bm_created_at a)); [congruence|]. apply lex_le_total.
Qed.
Lemma oldest_first_trans a b c : oldest_first a b = true → oldest_first b c = true → oldest_first a c = true.
Proof.
  unfold oldest_first. destruct (String.eqb_spec (bm_created_at a) (bm_created_at b)) as [E|E].
  - rewrite E. destruct (String.eqb _ _); [by apply lex_le_trans|done].
  - destruct (String.eqb_spec (bm_created_at b) (bm_created_at c)) as [E'|E'].
    + rewrite <- E'. destruct (String.eqb_spec (bm_created_at a) (bm_created_at b)); [congruence|done].
    + intros H1 H2. destruct (String.eqb_spec (bm_created_at a) (bm_created_at c)) as [E2|E2].
      * rewrite E2 in H1. destruct E'. by apply str_leb_antisym.
      * by eapply lex_le_trans.
Qed.
Lemma oldest_first_antisym a b : oldest_first a b = true → oldest_first b a = true → bm_blob_id a = bm_blob_id b.
Proof.
  unfold oldest_first. destruct (String.eqb_spec (bm_created_at a) (bm_created_at b)) as [E|E].
  - rewrite E, String.eqb_refl. apply str_leb_antisym.
  - destruct (String.eqb_spec (bm_created_at b) (bm_created_at a)); [congruence|]. intros H1 H2. by destruct E; apply str_leb_antisym.
Qed.

Definition cursor_of (r : BlobMetadata) : BlobPageCursor :=
  {| bc_created_at := bm_created_at r; bc_blob_id := bm_blob_id r |}.
Lemma after_cursor_of x r : after_cursor (cursor_of x) r = negb (oldest_first r x).
Proof.
  unfold after_cursor, oldest_first, Str.ltb. cbn [bc_created_at bc_blob_id cursor_of].
  destruct (String.eqb_spec (bm_created_at r) (bm_created_at x)) as [->|]; cbn [andb]; [|by rewrite orb_false_r].
  destruct (lex_le_total (Str.bytes (bm_created_at x)) (Str.bytes (bm_created_at x))) as [E|E];
    unfold Str.leb at 1; by rewrite E.
Qed.

Lemma select_after (A B : list BlobMetadata) x :
  StronglySorted (λ a b, oldest_first a b = true) (A ++ x :: B) → NoDup (bm_blob_id <$> A ++ x :: B) →
  select (after_cursor (cursor_of x)) (A ++ x :: B) = B.
Proof.
  unfold select. intros Hs Hn. induction A as [|a A IH]; cbn [app List.filter fmap list_fmap] in *.
  - rewrite after_cursor_of. destruct (oldest_first_total x x) as [E|E]; rewrite E; cbn [negb].
    all: apply StronglySorted_inv in Hs as [_ Hf]; apply NoDup_cons in Hn as [Hx _].
    all: assert (∀ y, y ∈ B → after_cursor (cursor_of x) y = true) as Hb.
    1,3: intros y Hy; rewrite after_cursor_of, negb_true_iff; apply not_true_is_false; intros Hyx; rewrite Forall_forall in Hf;
         apply Hx; rewrite (oldest_first_antisym x y (Hf y Hy) Hyx); by apply list_elem_of_fmap_2.
    all: clear - Hb; induction B as [|y B IH]; [done|]; cbn; rewrite Hb by set_solver; f_equal; apply IH; set_solver.
  - apply StronglySorted_inv in Hs as [Hs Hf]. apply NoDup_cons in Hn as [_ Hn]. rewrite after_cursor_of.
    rewrite Forall_forall in Hf. rewrite (Hf x) by set_solver. by apply IH.
Qed.

Lemma list_all_ids t tenant app : blobs_ok t → NoDup (bm_blob_id <$> list_all_oldest_first t tenant app).
Proof.
  intros Hok. unfold list_all_oldest_first. rewrite order_by_perm.
  eapply sublist_NoDup; [by apply blob_rows_ids|]. apply fmap_sublist, select_sublist.
Qed.
Lemma elem_of_list_all t tenant app r :
  blobs_ok t → r ∈ list_all_oldest_first t tenant app ↔ read t tenant (bm_blob_id r) app = Some r.
Proof.
  intros Hok. unfold list_all_oldest_first, read. rewrite elem_of_order_by, elem_of_select, elem_of_blob_rows by done.
  split; [by intros [-> ->]|].
  destruct (t !! bm_blob_id r) as [r'|]; [|done]. destruct (in_partition tenant app r') eqn:Ep; [|done]. by intros [= ->].
Qed.
Lemma read_id t tenant id app r : blobs_ok t → read t tenant id app = Some r → bm_blob_id r = id.
Proof.
  unfold read. intros Hok. destruct (t !! id) as [r'|] eqn:E; [|done]. destruct (in_partition _ _ _); [|done].
  intros [= <-]. by apply Hok.
Qed.

Section Sweep.
Context (t : BlobTable) (tenant app : string) (limit : Z).
Let rows := list_all_oldest_first t tenant app.

(** Page after page, from the last row of the page before. *)
Fixpoint sweep (fuel : nat) (cursor : option BlobPageCursor) : list BlobMetadata :=
  match fuel with
  | O => []
  | S fuel =>
      let page := list_oldest_first_page t tenant limit cursor app in
      match last page with
      | Some r => page ++ sweep fuel (Some (cursor_of r))
      | None => page
      end
  end.

Lemma page_rows cursor :
  list_oldest_first_page t tenant limit cursor app
  = take (Z.to_nat (if 0 <? limit then limit else 1))
      (match cursor with Some c => select (after_cursor c) rows | None => rows end).
Proof using Type.
  unfold list_oldest_first_page, rows, list_all_oldest_first. f_equal. destruct cursor as [c|].
  - rewrite <- order_by_select by (apply oldest_first_total || apply oldest_first_trans). f_equal.
    unfold select. induction (blob_rows t) as [|r l IH]; [done|]. cbn [List.filter].
    destruct (in_partition tenant app r); cbn [andb List.filter]; [|done]. by destruct (after_cursor c r); rewrite IH.
  - f_equal. unfold select. apply List.filter_ext. intros r. apply andb_true_r.
Qed.

Lemma sweep_suffix fuel : ∀ A B cursor,
  blobs_ok t → rows = A ++ B → cursor = cursor_of <$> last A → (length B < fuel)%nat → sweep fuel cursor = B.
Proof using Type.
  induction fuel as [|fuel IH]; intros A B cursor Hok HR -> Hfuel; [lia|]. cbn [sweep]. rewrite page_rows.
  assert (match cursor_of <$> last A with Some c => select (after_cursor c) rows | None => rows end = B) as ->.
  { destruct (last A) as [x|] eqn:El; cbn [fmap option_fmap option_map].
    - apply last_Some in El as [A' ->]. rewrite HR, <- (assoc_L (++)). cbn [Datatypes.app]. apply select_after.
      + change (A' ++ x :: B) with (A' ++ [x] ++ B). rewrite (assoc_L (++)), <- HR. unfold rows.
        apply order_by_sorted; [apply oldest_first_total|apply oldest_first_trans].
      + change (A' ++ x :: B) with (A' ++ [x] ++ B). rewrite (assoc_L (++)), <- HR. by apply list_all_ids.
    - apply last_None in El as ->. by rewrite HR. }
  set (n := Z.to_nat _). assert (0 < n)%nat by (unfold n; destruct (Z.ltb_spec 0 limit); lia).
  destruct (last (take n B)) as [r|] eqn:El.
  - rewrite <- (take_drop n B) in HR. rewrite (assoc_L (++)) in HR.
    rewrite (IH (A ++ take n B) (drop n B) (Some (cursor_of r)) Hok HR); [apply take_drop| |].
    + rewrite last_app, El. done.
    + apply last_Some in El as [l El]. assert (length (take n B) = S (length l)) as Hl by (rewrite El, length_app; simpl; lia).
      rewrite length_take in Hl. rewrite length_drop. lia.
  - apply last_None in El. destruct B as [|b B]; [by rewrite take_nil|]. destruct n; [lia|done].
Qed.
End Sweep.

(** A sweep by pages sees every blob once: reading page after page, each from the
    last row of the one before, ends, and gives exactly the blobs of the app and
    tenant from the oldest to the newest, whatever the page size. *)
Theorem blob_sweep_complete (t : BlobTable) (tenant app : string) (limit : Z) (fuel : nat) :
  blobs_ok t → (length (list_all_oldest_first t tenant app) < fuel)%nat →
  sweep t tenant app limit fuel None = list_all_oldest_first t tenant app
  ∧ (∀ r, r ∈ list_all_oldest_first t tenant app ↔ read t tenant (bm_blob_id r) app = Some r).
Proof.
  intros Hok Hf. split; [by apply (sweep_suffix t tenant app limit fuel [])|].
  intros r. by apply elem_of_list_all.
Qed.

(** ** Garbage collection *)

Lemma delete_all_spec tenant app ids : ∀ t,
  NoDup ids → Forall (λ id, is_Some (read t tenant id app)) ids →
  delete_all tenant app ids t = (Ok (length ids), filter (λ kr, kr.1 ∉ ids) t).
Proof.
  induction ids as [|id ids IH]; intros t Hn Hr; cbn [delete_all].
  - run_M. rewrite map_filter_id; [done|]. intros k r _. apply not_elem_of_nil.
  - apply NoDup_cons in Hn as [Hid Hn]. apply Forall_cons in Hr as [[row Hrow] Hr].
    run_M. unfold delete_metadata at 1. rewrite Hrow. rewrite IH; [|done|].
    + cbn. f_equal. apply map_eq. intros k. apply option_eq. intros r.
      rewrite !map_lookup_filter_Some, lookup_delete_Some. cbn. set_solver.
    + rewrite Forall_forall in Hr |- *. intros id' Hid'. destruct (Hr id' Hid') as [row' Hrow'].
      unfold read in *. rewrite lookup_delete_ne by set_solver. by rewrite Hrow'.
Qed.

Lemma collectable_spec t tenant app referenced cutoff :
  blobs_ok t →
  let ids := List.filter (λ id, negb (bool_decide (id ∈ (referenced : gset string))))
    (bm_blob_id <$> List.filter (λ b, Str.ltb (bm_created_at b) cutoff) (list_all_oldest_first t tenant app)) in
  NoDup ids ∧ ∀ id, id ∈ ids ↔ id ∉ referenced ∧ ∃ r, read t tenant id app = Some r ∧ Str.ltb (bm_created_at r) cutoff = true.
Proof.
  intros Hok. cbv zeta. split.
  - eapply sublist_NoDup; [by apply (list_all_ids t tenant app)|].
    etrans; [apply select_sublist|]. apply fmap_sublist, select_sublist.
  - intros id. rewrite (elem_of_select _ _ id), list_elem_of_fmap, negb_true_iff, bool_decide_eq_false. split.
    + intros [(r & -> & [Hr Hc]%elem_of_select) Hid]. split; [done|]. exists r. split; [|done]. by apply elem_of_list_all.
    + intros [Hid (r & Hr & Hc)]. split; [|done]. exists r. pose proof (read_id _ _ _ _ _ Hok Hr) as <-.
      split; [done|]. apply elem_of_select. split; [|done]. by apply elem_of_list_all.
Qed.

(** C22: Collection takes exactly the garbage: a live run deletes the blobs of the app
    and tenant that are older than the cutoff and not referenced, each once,
    and no other row of any app or tenant; a dry run names the same blobs and
    deletes nothing. *)
Theorem gc_exact (t : BlobTable) (tenant app : string) (referenced : gset string) (cutoff : string) (dry_run : bool) :
  blobs_ok t →
  ∃ report, gc_unreferenced tenant app referenced cutoff dry_run t
      = (Ok report, if dry_run then t else filter (λ kr, kr.1 ∉ gc_collectable report) t)
    ∧ (∀ id, id ∈ gc_collectable report ↔
         id ∉ referenced ∧ ∃ r, read t tenant id app = Some r ∧ Str.ltb (bm_created_at r) cutoff = true)
    ∧ NoDup (gc_collectable report)
    ∧ gc_deleted report = (if dry_run then 0 else length (gc_collectable report))%nat.
Proof.
  intros Hok. unfold gc_unreferenced. run_M.
  destruct (collectable_spec t tenant app referenced cutoff Hok) as [Hn Hs]. cbv zeta in Hn, Hs.
  set (ids := List.filter _ _) in *. destruct dry_run.
  - exists {| gc_scanned := length (list_all_oldest_first t tenant app); gc_collectable := ids; gc_deleted := 0 |}. done.
  - rewrite delete_all_spec; [|done|].
    + exists {| gc_scanned := length (list_all_oldest_first t tenant app); gc_collectable := ids; gc_deleted := length ids |}.
      done.
    + apply Forall_forall. intros id (_ & r & -> & _)%Hs. by eexists.
Qed.

(** ** What the rest relies on of a bytes driver *)

Class BlobBytesLaws (B : Type) `{BlobBytes B} : Prop :=
  bytes_write_read d tenant blob_id content app now :
    ∃ d', bytes_write tenant blob_id content app now d = (Ok tt, d') ∧ bytes_read d' tenant blob_id app = Ok (Some content).

#[export] Instance sql_bytes_laws : BlobBytesLaws SqlBlobBytesDriver.
Proof.
  intros d tenant blob_id content app now. eexists. split; [done|]. cbn. unfold SqlBytes.read, SqlBytes.lookup. cbn.
  rewrite lookup_insert_eq. cbn. by rewrite !String.eqb_refl.
Qed.
#[export] Instance filesystem_bytes_laws `{Sha256} : BlobBytesLaws FilesystemBlobBytesDriver.
Proof. intros d tenant blob_id content app now. eexists. split; [done|]. cbn. unfold fs_read. cbn. by rewrite lookup_insert_eq. Qed.

(** What sealing needs so that the content can be opened. *)
Definition sealing_ok (encryption : option KeyProvider) (nonce content : blob) : Prop :=
  ∀ e, encryption = Some e →
    match active_key_id e with
    | Some k => utf8_valid (Str.bytes k) = true ∧ length nonce = NONCE_LEN
    | None => starts_with_bytes ENVELOPE_MAGIC content = false
    end.

Lemma content_roundtrip `{BlobBytesLaws B, CryptoLaws} encryption nonce tenant blob_id content app now d r d' :
  sealing_ok encryption nonce content →
  write_content encryption nonce tenant blob_id content app now d = (Ok r, d') →
  read_content encryption d' tenant blob_id app = Ok (Some content).
Proof.
  intros Hs. unfold write_content, read_content. run_M. destruct encryption as [e|].
  - destruct (encrypt e nonce tenant content) as [sealed|] eqn:Ee; [|done].
    destruct (bytes_write_read d tenant blob_id sealed app now) as (d1 & -> & Hr). intros [= _ <-]. rewrite Hr.
    specialize (Hs e eq_refl). cbn [mbind result_bind]. destruct (active_key_id e) as [k|] eqn:Ek.
    + destruct Hs as [Hu Hn]. by rewrite (decrypt_sealed e e nonce tenant content sealed k).
    + unfold encrypt in Ee. rewrite Ek in Ee. injection Ee as <-. unfold decrypt. by rewrite Hs.
  - destruct (bytes_write_read d tenant blob_id content app now) as (d1 & -> & Hr). intros [= _ <-]. by rewrite Hr.
Qed.

(** ** Concrete runs *)

(** A digest for evaluation: the hexadecimal digits of the first 32 bytes, padded. *)
Module SampleBlobs.
Definition hex (n : Z) : ascii := let d := n mod 16 in ascii_of_nat (Z.to_nat (if d <? 10 then 48 + d else 87 + d)).
Definition digits (b : blob) : list ascii := take 64 ((x ← b; [hex (x / 16); hex x]) ++ replicate 64 "0"%char).
#[export] Instance digest : Sha256 := λ b, String.string_of_list_ascii (digits b).

Lemma hex_is_hex n : is_hex (hex n) = true.
Proof.
  assert (∀ k, (k < 16)%nat → is_hex (hex (Z.of_nat k)) = true) as Hk
    by (intros k Hk; do 16 (destruct k as [|k]; [done|]); lia).
  pose proof (Z.mod_pos_bound n 16 ltac:(lia)).
  specialize (Hk (Z.to_nat (n mod 16)) ltac:(lia)). rewrite Z2Nat.id in Hk by lia.
  unfold hex in *. by rewrite Z.mod_mod in Hk by lia.
Qed.

#[export] Instance digest_laws : Sha256Laws.
Proof.
  split; intros b; unfold sha256_hex, digest, digits.
  - rewrite <- chars_length, list_ascii_of_string_of_list_ascii, length_take, length_app, length_replicate. lia.
  - rewrite list_ascii_of_string_of_list_ascii. apply Forall_take, Forall_app. split.
    + apply Forall_bind, Forall_true. intros x. repeat constructor; apply hex_is_hex.
    + apply Forall_forall. by intros c [-> _]%elem_of_replicate.
Qed.

Definition files : FilesystemBlobBytesDriver := {| fs_files := ∅ |}.
Definition content : SqlBlobBytesDriver := {| blob_content := ∅ |}.
Definition input (id owner : string) (size : Z) : BlobMetadataInput :=
  {| bi_blob_id := id; bi_owner_id := owner; bi_content_hash := "h"; bi_byte_length := size;
     bi_mime_type := "image/png"; bi_storage_key := None |}.
Definition declared : BlobTable :=
  (Blobs.create "t2" (input "d" "carol" 4) "_default" 1
    (Blobs.create "t1" (input "c" "bob" 3) "_default" 9000
      (Blobs.create "t1" (input "b" "alice" 2) "_default" 2
        (Blobs.create "t1" (input "a" "alice" 1) "_default" 1 ∅).2).2).2).2.
Lemma declared_ok : blobs_ok declared.
Proof. unfold declared. repeat apply blob_created. done. Qed.
End SampleBlobs.
#[local] Existing Instances SampleBlobs.digest SampleBlobs.digest_laws.

Lemma filesystem_isolated_witness :
  fs_read (fs_write "t1" "a" [1; 2] "_default" 0 SampleBlobs.files).2 "t2" "a" "_default" = None.
Proof.
  refine (proj1 (proj2 (proj2 (filesystem_isolated "t1" "a" "_default" "t2" "a" "_default" [1; 2] 0
                                  SampleBlobs.files _ _ _ _)))); unfold apart; vm_compute; congruence.
Defined.

Lemma sql_bytes_taken_over_witness :
  SqlBytes.read (SqlBytes.write "t2" "a" [9] "_default" 1
    (SqlBytes.write "t1" "a" [1; 2] "_default" 0 SampleBlobs.content).2).2 "t1" "a" "_default" = None.
Proof. refine (proj1 (sql_bytes_taken_over "t1" "a" "_default" "t2" "_default" [9] 1 _ _)). discriminate. Defined.

Lemma blob_sweep_complete_witness :
  sweep SampleBlobs.declared "t1" "_default" 2 4 None = list_all_oldest_first SampleBlobs.declared "t1" "_default"
  ∧ length (list_all_oldest_first SampleBlobs.declared "t1" "_default") = 3%nat.
Proof.
  split; [|by vm_compute].
  refine (proj1 (blob_sweep_complete SampleBlobs.declared "t1" "_default" 2 4 SampleBlobs.declared_ok _)).
  vm_compute. lia.
Defined.

Lemma gc_exact_witness :
  ∃ report, (gc_unreferenced "t1" "_default" {["a"]} (iso_from_epoch_ms 1000) false SampleBlobs.declared).1 = Ok report
    ∧ "b" ∈ gc_collectable report.
Proof.
  destruct (gc_exact SampleBlobs.declared "t1" "_default" {["a"]} (iso_from_epoch_ms 1000) false SampleBlobs.declared_ok)
    as (report & E & Hc & _).
  exists report. rewrite E. split; [done|]. apply Hc. split; [by vm_compute|].
  eexists. split; by vm_compute.
Defined.
