(* ===== verification/BlobProcessors.v ===== *)
(** * Blob processors ([frick-server/src/blob_processors/mod.rs])

    The registry of processors, the two stock ones, and the [blob.process] job
    that runs a processor over a stored blob and keeps what it derives. A
    processor is a record over the store it is given; the moderation hook and
    JSON text are parameters. *)

From Stdlib Require Import ZArith Lia Ascii String.
From stdpp Require Import base gmap strings list sorting pretty.
From S2P Require Import Prelude Value Schema Timestamp StoreBase Encryption Samples JobStore Authz BlobStore.

Definition BLOB_PROCESS_JOB_TYPE : string := "blob.process".

(** ** The processor surface *)

Record ProcessorMatch : Type := { mime_prefixes : list string; max_byte_length : option Z }.
Definition match_any : ProcessorMatch := {| mime_prefixes := []; max_byte_length := None |}.
Definition accepts (m : ProcessorMatch) (mime_type : string) (byte_length : Z) : bool :=
  if negb (bool_decide (mime_prefixes m = []))
     && negb (existsb (λ prefix, Str.starts_with prefix mime_type) (mime_prefixes m)) then false
  else match max_byte_length m with
       | Some max => negb (max <? byte_length)
       | None => true
       end.

Record BlobValidateContext : Type := {
  vc_tenant_id : string; vc_blob_id : string; vc_owner_id : string; vc_mime_type : string; vc_byte_length : Z;
  vc_preview : blob;
}.
Record BlobProcessContext : Type := {
  pc_tenant_id : string; pc_blob_id : string; pc_owner_id : string; pc_mime_type : string; pc_byte_length : Z;
  pc_content_path : string;
}.
Inductive BlobValidation : Type := Validation_Ok | Validation_Reject (reason : string).
Record BlobDerivative : Type := {
  bd_derivative_id : string; bd_mime_type : string; bd_bytes : blob; bd_metadata : option Value;
}.
Record BlobProcessOutcome : Type := { derivatives : list BlobDerivative }.
Record BlobProcessError : Type := { be_message : string; be_retryable : bool }.

(** The part of the store that blobs touch, over a bytes driver. *)
Record BlobFiles {B : Type} : Type := {
  bf_meta : BlobTable; bf_derivatives : DerivativeTable; bf_bytes : B; bf_jobs : JobTable; bf_grants : GrantTable;
}.
Arguments BlobFiles : clear implicits.
Definition put_meta {B : Type} (x : BlobTable) (f : BlobFiles B) : BlobFiles B :=
  {| bf_meta := x; bf_derivatives := bf_derivatives f; bf_bytes := bf_bytes f; bf_jobs := bf_jobs f;
     bf_grants := bf_grants f |}.
Definition put_derivatives {B : Type} (x : DerivativeTable) (f : BlobFiles B) : BlobFiles B :=
  {| bf_meta := bf_meta f; bf_derivatives := x; bf_bytes := bf_bytes f; bf_jobs := bf_jobs f;
     bf_grants := bf_grants f |}.
Definition put_bytes {B : Type} (x : B) (f : BlobFiles B) : BlobFiles B :=
  {| bf_meta := bf_meta f; bf_derivatives := bf_derivatives f; bf_bytes := x; bf_jobs := bf_jobs f;
     bf_grants := bf_grants f |}.
Definition put_jobs {B : Type} (x : JobTable) (f : BlobFiles B) : BlobFiles B :=
  {| bf_meta := bf_meta f; bf_derivatives := bf_derivatives f; bf_bytes := bf_bytes f; bf_jobs := x;
     bf_grants := bf_grants f |}.

(** The trait, over the store it is handed. *)
Record BlobProcessor {W : Type} : Type := {
  bp_id : string; bp_matches : ProcessorMatch; bp_has_validate : bool; bp_has_process : bool;
  bp_validate : BlobValidateContext → W → BlobValidation;
  bp_process : BlobProcessContext → M W BlobProcessError BlobProcessOutcome;
}.
Arguments BlobProcessor : clear implicits.
(** The default methods. *)
Definition validate_default {W} (ctx : BlobValidateContext) (w : W) : BlobValidation := Validation_Ok.
Definition process_default {W} (ctx : BlobProcessContext) : M W BlobProcessError BlobProcessOutcome :=
  mret {| derivatives := [] |}.

(** ** The registry *)

Record DuplicateBlobProcessorError : Type := { dup_processor_id : string }.
Definition DuplicateBlobProcessorError_display (e : DuplicateBlobProcessorError) : string :=
  "A blob processor is already registered with id " +:+ quote +:+ dup_processor_id e +:+ quote.

Record BlobProcessorRegistry {W : Type} : Type := { processors : list (BlobProcessor W); registry_ids : gset string }.
Arguments BlobProcessorRegistry : clear implicits.

Module Registry.
Definition new {W} : BlobProcessorRegistry W := {| processors := []; registry_ids := ∅ |}.
Definition register {W} (processor : BlobProcessor W) :
    M (BlobProcessorRegistry W) DuplicateBlobProcessorError unit := λ r,
  let id := bp_id processor in
  if bool_decide (id ∈ registry_ids r) then (Err {| dup_processor_id := id |}, r)
  else (Ok tt, {| processors := processors r ++ [processor]; registry_ids := {[id]} ∪ registry_ids r |}).
Definition matching {W} (r : BlobProcessorRegistry W) (mime_type : string) (byte_length : Z) :
    list (BlobProcessor W) :=
  List.filter (λ p, accepts (bp_matches p) mime_type byte_length) (processors r).
Definition resolve {W} (r : BlobProcessorRegistry W) (id : string) : option (BlobProcessor W) :=
  List.find (λ p, String.eqb (bp_id p) id) (processors r).
Definition ids {W} (r : BlobProcessorRegistry W) : list string := order_by Str.leb (bp_id <$> processors r).
End Registry.

(** ** The stock processors *)

Record MimeSizeValidatorOptions : Type := {
  mo_id : string; mo_allowed_mime_types : list string; mo_max_bytes : option Z; mo_reject_empty : bool;
  mo_matches : ProcessorMatch;
}.
Definition MimeSizeValidatorOptions_default : MimeSizeValidatorOptions :=
  {| mo_id := "frick-mime-size"; mo_allowed_mime_types := []; mo_max_bytes := None; mo_reject_empty := true;
     mo_matches := match_any |}.
(** [entry.ends_with('/')]. *)
Fixpoint ends_with_slash (s : string) : bool :=
  match s with
  | EmptyString => false
  | String c EmptyString => Ascii.eqb c "/"
  | String _ s' => ends_with_slash s'
  end.
Definition mime_allowed (mime_type : string) (allowed : list string) : bool :=
  bool_decide (allowed = [])
  || existsb (λ entry, if ends_with_slash entry then Str.starts_with entry mime_type else String.eqb mime_type entry)
       allowed.
Definition mime_size_validate (options : MimeSizeValidatorOptions) (ctx : BlobValidateContext) : BlobValidation :=
  if mo_reject_empty options && (vc_byte_length ctx =? 0) then Validation_Reject "Empty upload."
  else match (max ← mo_max_bytes options; if max <? vc_byte_length ctx then Some max else None) with
       | Some max =>
           Validation_Reject ("Upload is " +:+ fmt (vc_byte_length ctx) +:+ " bytes; the limit is " +:+ fmt max +:+ ".")
       | None =>
           if negb (mime_allowed (vc_mime_type ctx) (mo_allowed_mime_types options))
           then Validation_Reject ("MIME type " +:+ quote +:+ vc_mime_type ctx +:+ quote +:+ " is not allowed.")
           else Validation_Ok
       end.
Definition mime_size_validator {W} (options : MimeSizeValidatorOptions) : BlobProcessor W :=
  {| bp_id := mo_id options; bp_matches := mo_matches options; bp_has_validate := true; bp_has_process := false;
     bp_validate ctx _ := mime_size_validate options ctx; bp_process := process_default |}.

Inductive ModerationDecision : Type := Moderate_Allow | Moderate_Flag | Moderate_Reject.
Definition ModerationDecision_as_str (d : ModerationDecision) : string :=
  match d with Moderate_Allow => "allow" | Moderate_Flag => "flag" | Moderate_Reject => "reject" end.
Record ModerationVerdict : Type := {
  mv_decision : ModerationDecision; mv_reason : option string; mv_details : option Value;
}.
Record ModerationContext : Type := {
  mc_tenant_id : string; mc_blob_id : string; mc_owner_id : string; mc_mime_type : string; mc_byte_length : Z;
  mc_content : option blob;
}.
Record ModerationProcessorOptions : Type := {
  mp_id : string; mp_hook : ModerationContext → result BlobProcessError ModerationVerdict;
  mp_derivative_id : string; mp_matches : ProcessorMatch;
}.
Definition ModerationProcessorOptions_new (hook : ModerationContext → result BlobProcessError ModerationVerdict) :
    ModerationProcessorOptions :=
  {| mp_id := "frick-moderation"; mp_hook := hook; mp_derivative_id := "moderation"; mp_matches := match_any |}.

(** The entries, in the order of their keys. *)
Definition moderation_metadata (verdict : ModerationVerdict) : Value :=
  VMap ([(VStr "decision", VStr (ModerationDecision_as_str (mv_decision verdict)))]
        ++ match mv_reason verdict with Some reason => [(VStr "reason", VStr reason)] | None => [] end).
Definition moderation_sidecar (verdict : ModerationVerdict) : Value :=
  VMap ([(VStr "decision", VStr (ModerationDecision_as_str (mv_decision verdict)))]
        ++ match mv_details verdict with Some details => [(VStr "details", details)] | None => [] end
        ++ match mv_reason verdict with Some reason => [(VStr "reason", VStr reason)] | None => [] end).

(** ** The payload of [blob.process] *)

Record BlobProcessPayload : Type := { bpp_blob_id : string; bpp_processor_id : string }.
Definition encode_blob_process_payload (payload : BlobProcessPayload) : Value :=
  VMap [(VStr "blobId", VStr (bpp_blob_id payload)); (VStr "processorId", VStr (bpp_processor_id payload))].
Definition payload_text (entries : list (Value * Value)) (key : string) : option string :=
  v ← map_get key entries; s ← as_str v; if Str.is_empty s then None else Some s.
Definition decode_blob_process_payload (payload : Value) : result string BlobProcessPayload :=
  match payload with
  | VMap entries =>
      blob_id ← ok_or (payload_text entries "blobId") "blob.process payload.blobId must be a non-empty string";
      processor_id ← ok_or (payload_text entries "processorId")
        "blob.process payload.processorId must be a non-empty string";
      Ok {| bpp_blob_id := blob_id; bpp_processor_id := processor_id |}
  | _ => Err "blob.process payload must be an object"
  end.
Definition job_result (derivative_count : nat) : Value :=
  VMap [(VStr "derivatives", VInt (Z.min (Z.of_nat derivative_count) i64_max))].
Definition retryable_error (code message : string) : JobError :=
  {| je_code := code; je_message := message; je_retryable := true |}.
Definition fatal_error (code message : string) : JobError :=
  {| je_code := code; je_message := message; je_retryable := false |}.

Section Handler.
Context `{Sha256, Crypto, BlobBytes B} (encryption : option KeyProvider).
(** [serde_json::to_string]. *)
Context (to_json : Value → result string string).
Local Abbreviation Files := (BlobFiles B).

Definition moderation_process (options : ModerationProcessorOptions) (ctx : BlobProcessContext) :
    M Files BlobProcessError BlobProcessOutcome :=
  files ← get_state;
  raw ← lift_res (match read_content encryption (bf_bytes files) (pc_tenant_id ctx) (pc_blob_id ctx) DEFAULT_APP_ID with
                  | Ok raw => Ok raw
                  | Err error => Err {| be_message := StoreError_display error; be_retryable := true |}
                  end);
  verdict ← lift_res (mp_hook options
    {| mc_tenant_id := pc_tenant_id ctx; mc_blob_id := pc_blob_id ctx; mc_owner_id := pc_owner_id ctx;
       mc_mime_type := pc_mime_type ctx; mc_byte_length := pc_byte_length ctx; mc_content := raw |});
  mret {| derivatives :=
    [{| bd_derivative_id := mp_derivative_id options; bd_mime_type := "application/json";
        bd_bytes := match to_json (moderation_sidecar verdict) with Ok text => Str.bytes text | Err _ => [] end;
        bd_metadata := Some (moderation_metadata verdict) |}] |}.
Definition moderation_processor (options : ModerationProcessorOptions) : BlobProcessor Files :=
  {| bp_id := mp_id options; bp_matches := mp_matches options; bp_has_validate := false; bp_has_process := true;
     bp_validate := validate_default; bp_process := moderation_process options |}.

Fixpoint persist_derivatives (tenant_id blob_id processor_id : string) (items : list BlobDerivative) (now : Z) :
    M Files JobError unit :=
  match items with
  | [] => mret tt
  | derivative :: rest =>
      metadata_json ← lift_res (match bd_metadata derivative with
                                | Some metadata =>
                                    match to_json metadata with
                                    | Ok json => Ok (Some json)
                                    | Err error => Err (fatal_error "blob.processorError" error)
                                    end
                                | None => Ok None
                                end);
      (λ f, match record_derivative
                    {| di_parent_blob_id := blob_id; di_derivative_id := bd_derivative_id derivative;
                       di_tenant_id := tenant_id; di_processor_id := processor_id;
                       di_mime_type := bd_mime_type derivative; di_content := bd_bytes derivative;
                       di_metadata_json := metadata_json; di_storage_key := None |} now (bf_derivatives f) with
            | (Ok tt, t) => (Ok tt, put_derivatives t f)
            | (Err error, t) =>
                (Err (retryable_error "blob.processorError" (StoreError_display error)), put_derivatives t f)
            end);;
      persist_derivatives tenant_id blob_id processor_id rest now
  end.

(** [run_job]; [now] is the store's clock. *)
Definition run_blob_job (registry : BlobProcessorRegistry Files) (tenant_id : string) (payload : Value) (now : Z) :
    M Files JobError Value :=
  decoded ← lift_res (match decode_blob_process_payload payload with
                      | Ok decoded => Ok decoded
                      | Err message => Err (fatal_error "blob.invalidPayload" message)
                      end);
  let blob_id := bpp_blob_id decoded in
  let processor_id := bpp_processor_id decoded in
  processor ← lift_res (ok_or (Registry.resolve registry processor_id)
    (fatal_error "blob.unknownProcessor"
       ("No blob processor registered with id " +:+ quote +:+ processor_id +:+ quote)));
  if negb (bp_has_process processor) then mret (job_result 0)
  else
    files ← get_state;
    metadata ← lift_res (ok_or (Blobs.read (bf_meta files) tenant_id blob_id DEFAULT_APP_ID)
      (fatal_error "blob.notFound" ("Blob " +:+ blob_id +:+ " not found in tenant " +:+ tenant_id)));
    let content_path := default (bm_blob_id metadata) (bm_storage_key metadata) in
    outcome ← (λ f, match bp_process processor
                            {| pc_tenant_id := tenant_id; pc_blob_id := blob_id; pc_owner_id := bm_owner_id metadata;
                               pc_mime_type := bm_mime_type metadata; pc_byte_length := bm_byte_length metadata;
                               pc_content_path := content_path |} f with
                    | (Ok outcome, f) => (Ok outcome, f)
                    | (Err error, f) =>
                        (Err (if be_retryable error then retryable_error "blob.processorError" (be_message error)
                              else fatal_error "blob.processorError" (be_message error)), f)
                    end);
    persist_derivatives tenant_id blob_id processor_id (derivatives outcome) now;;
    mret (job_result (length (derivatives outcome))).
End Handler.

(** ** The registry, and the jobs it serves *)

(** What registering keeps: the guard set holds the ids of the processors, each
    once. *)
Definition registry_ok {W} (r : BlobProcessorRegistry W) : Prop :=
  NoDup (bp_id <$> processors r) ∧ ∀ id, id ∈ registry_ids r ↔ id ∈ bp_id <$> processors r.

Lemma processor_registered {W} (p : BlobProcessor W) r : registry_ok r → registry_ok (Registry.register p r).2.
Proof.
  intros [Hn Hs]. unfold Registry.register. case_bool_decide as Hid; [done|]. unfold registry_ok. cbn.
  rewrite fmap_app. cbn. split.
  - apply NoDup_app. split_and!; [done| |apply NoDup_singleton]. intros x Hx. rewrite list_elem_of_singleton. intros ->.
    by apply Hid, Hs.
  - intros id. rewrite elem_of_union, elem_of_singleton, elem_of_app, list_elem_of_singleton, Hs. naive_solver.
Qed.

Lemma resolve_spec {W} (r : BlobProcessorRegistry W) p :
  registry_ok r → p ∈ processors r → Registry.resolve r (bp_id p) = Some p.
Proof.
  intros [Hn _]. unfold Registry.resolve. induction (processors r) as [|q l IH]; [by intros ?%elem_of_nil|].
  apply NoDup_cons in Hn as [Hq Hn]. cbn [List.find]. intros [<-|Hp]%elem_of_cons; [by rewrite String.eqb_refl|].
  destruct (String.eqb_spec (bp_id q) (bp_id p)) as [E|]; [|by apply IH].
  destruct Hq. rewrite E. by apply list_elem_of_fmap_2.
Qed.

Lemma payload_roundtrip p :
  bpp_blob_id p ≠ EmptyString → bpp_processor_id p ≠ EmptyString →
  decode_blob_process_payload (encode_blob_process_payload p) = Ok p.
Proof. destruct p as [b q]. cbn. intros Hb Hq. by destruct b, q. Qed.
