(* ===== verification/BlobRoutes.v ===== *)
(** * Blob routes ([frick-server/src/routes/blobs.rs])

    Listing, declaring, uploading (at once or in chunks), downloading, and the
    derivatives. A route is a step on [BlobWorld]: the sessions and tenants, and
    the part of the store that blobs touch. Uploads by both routes share their
    second half, [finish_upload]. JSON, SHA-256, the bytes driver and the HTTP
    library's test of a header value are parameters; the clock is read once per
    request, and paths and the listing's query arrive decoded. *)

From Stdlib Require Import ZArith Lia Ascii String.
From stdpp Require Import base gmap strings list sorting pretty.
From S2P Require Import Prelude Value Schema Timestamp Text StoreBase Encryption Samples IdempotencyCache JobStore Authz ServerErrors Sessions Sharing Cluster BlobStore BlobProcessors.

Definition OWNER_ID_HEADER : string := "x-frick-owner-id".
Definition CONTENT_TYPE : string := "content-type".
Definition CONTENT_RANGE : string := "content-range".
Definition u64_max : Z := 2 ^ 64 - 1.

(** [i64::try_from(len).unwrap_or(i64::MAX)]. *)
Definition i64_of (n : Z) : Z := Z.min n i64_max.
Definition i64_len {A} (l : list A) : Z := i64_of (Z.of_nat (length l)).

Definition header_str (headers : HeaderMap) (name : string) : option string :=
  value ← (headers !! name : option string); to_str value.

(** ** Requests *)

Record ContentRange : Type := { rg_start : Z; rg_end : Z; rg_total : Z }.
Definition is_final (range : ContentRange) : bool := rg_end range + 1 =? rg_total range.

Definition parse_content_range (raw : string) : result ServerError ContentRange :=
  let bad := SE_BadRequest ("invalid Content-Range header: " +:+ raw) in
  rest ← ok_or (strip_prefix "bytes " (Str.trim raw)) bad;
  '(range, total) ← ok_or (split_once "/" rest) bad;
  '(start, end_) ← ok_or (split_once "-" range) bad;
  start ← ok_or (parse_uint u64_max (Str.trim start)) bad;
  end_ ← ok_or (parse_uint u64_max (Str.trim end_)) bad;
  total ← ok_or (parse_uint u64_max (Str.trim total)) bad;
  if (end_ <? start) || (total <=? end_) then Err bad
  else Ok {| rg_start := start; rg_end := end_; rg_total := total |}.

(** [char::to_digit(16)] of a byte. *)
Definition hex_digit (b : Z) : option Z :=
  if is_digit b then Some (b - 48)
  else if (97 <=? b) && (b <=? 102) then Some (b - 87)
  else if (65 <=? b) && (b <=? 70) then Some (b - 55)
  else None.
Fixpoint decode_form_bytes (input : blob) : blob :=
  match input with
  | [] => []
  | c :: rest =>
      if c =? 43 then 32 :: decode_form_bytes rest
      else if c =? 37 then
        match rest with
        | a :: (b :: after) =>
            match hex_digit a, hex_digit b with
            | Some hi, Some lo => (hi * 16 + lo) :: decode_form_bytes after
            | _, _ => 37 :: decode_form_bytes rest
            end
        | _ => 37 :: decode_form_bytes rest
        end
      else c :: decode_form_bytes rest
  end.

(** [String::from_utf8_lossy]: the length of the next character, or that of the
    ill-formed sequence a replacement character stands for. *)
Definition continuation (b : Z) : bool := (128 <=? b) && (b <=? 191).
Definition utf8_next (bs : blob) : bool * nat :=
  let at_ i := default 0 (bs !! i) in
  let a := at_ 0%nat in
  let second := at_ 1%nat in
  if a <? 128 then (true, 1%nat)
  else if (194 <=? a) && (a <=? 223) then
    if continuation second then (true, 2%nat) else (false, 1%nat)
  else if (224 <=? a) && (a <=? 239) then
    if (if a =? 224 then (160 <=? second) && (second <=? 191)
        else if a =? 237 then (128 <=? second) && (second <=? 159) else continuation second)
    then if continuation (at_ 2%nat) then (true, 3%nat) else (false, 2%nat)
    else (false, 1%nat)
  else if (240 <=? a) && (a <=? 244) then
    if (if a =? 240 then (144 <=? second) && (second <=? 191)
        else if a =? 244 then (128 <=? second) && (second <=? 143) else continuation second)
    then if continuation (at_ 2%nat)
         then if continuation (at_ 3%nat) then (true, 4%nat) else (false, 3%nat)
         else (false, 2%nat)
    else (false, 1%nat)
  else (false, 1%nat).
Fixpoint lossy_fuel (fuel : nat) (bs : blob) : blob :=
  match fuel, bs with
  | S fuel, _ :: _ =>
      let '(valid, n) := utf8_next bs in
      (if valid : bool then take n bs else [239; 191; 189]) ++ lossy_fuel fuel (drop n bs)
  | _, _ => []
  end.
Definition from_utf8_lossy (bs : blob) : string := of_bytes (lossy_fuel (length bs) bs).
Definition decode_form_component (input : string) : string := from_utf8_lossy (decode_form_bytes (Str.bytes input)).

Definition owner_id_from_query (query : option string) : option string :=
  query ← query;
  '(_, value) ← List.find (λ kv, String.eqb (decode_form_component kv.1) "ownerId")
    ((λ pair, default (pair, EmptyString) (split_once "=" pair)) <$> split "&" query);
  Some (decode_form_component value).

Definition infer_mime_type (headers : HeaderMap) : string :=
  let mime := value ← header_str headers CONTENT_TYPE; first ← list.head (split ";" value); Some (Str.trim first) in
  match mime with
  | Some (String _ _ as mime) => mime
  | _ => "application/octet-stream"
  end.

(** [float as i64] of a finite number: towards zero, saturating. *)
Definition f64_as_i64 (x : f64) : Z :=
  match x with
  | F64_fin m e => Z.max i64_min (Z.min i64_max (if 0 <=? e then m * 2 ^ e else Z.quot m (2 ^ (- e))))
  | F64_inf true => i64_min
  | F64_inf false => i64_max
  | F64_nan => 0
  end.
Definition require_number (body : Value) (key name : string) : result ServerError Z :=
  let bad := SE_BadRequest (name +:+ " must be a finite number") in
  value ← ok_or (field body key) bad;
  match Env.as_i64 value with
  | Some int => Ok int
  | None =>
      match as_f64 value with
      | Some float => if f64_is_finite float then Ok (f64_as_i64 float) else Err bad
      | None => Err bad
      end
  end.

(** ** Errors and replies *)

Definition quota_configured (quota : Z) : bool := quota <? 9007199254740991.
Definition too_large (actual configured_max : Z) : ServerError :=
  SE_Limit MaxBlobBytes
    (VMap [(VStr "limit", VStr "maxBlobBytes"); (VStr "configuredMax", VInt configured_max);
           (VStr "actualValue", VInt (i64_of actual))]).
Definition quota_exceeded (owner_id : string) (projected quota : Z) : ServerError :=
  SE_Limit MaxBlobBytesPerPrincipal
    (VMap [(VStr "limit", VStr "maxBlobBytesPerPrincipal"); (VStr "configuredMax", VInt quota);
           (VStr "actualValue", VInt projected);
           (VStr "message", VStr ("blob quota exceeded for owner " +:+ owner_id +:+ ": " +:+ fmt projected
                                  +:+ " > " +:+ fmt quota))]).

(** A JSON object has its keys in order. *)
Inductive BlobReply : Type :=
| Json (status : Z) (body : Value)
| Blob_bytes (mime_type blob_id content_hash : string) (etag : option string) (bytes : blob)
| Upload_offset (offset : Z)
| Status_500.
Definition blob_not_found (code : string) : BlobReply := Json 404 (VMap [(VStr "error", VStr code)]).

Definition blob_metadata_json (m : BlobMetadata) : Value :=
  VMap ([(VStr "appId", VStr (bm_app_id m)); (VStr "blobId", VStr (bm_blob_id m));
         (VStr "byteLength", VInt (bm_byte_length m)); (VStr "contentHash", VStr (bm_content_hash m));
         (VStr "createdAt", VStr (bm_created_at m)); (VStr "mimeType", VStr (bm_mime_type m));
         (VStr "ownerId", VStr (bm_owner_id m))]
        ++ match bm_storage_key m with Some key => [(VStr "storageKey", VStr key)] | None => [] end
        ++ [(VStr "tenantId", VStr (bm_tenant_id m))]).
Definition derivative_row_json (r : DerivativeRow) : Value :=
  VMap ([(VStr "byteLength", VInt (dw_byte_length r)); (VStr "contentHash", VStr (dw_content_hash r));
         (VStr "createdAt", VStr (dw_created_at r)); (VStr "derivativeId", VStr (dw_derivative_id r))]
        ++ match dw_metadata r with Some metadata => [(VStr "metadata", metadata)] | None => [] end
        ++ [(VStr "mimeType", VStr (dw_mime_type r)); (VStr "parentBlobId", VStr (dw_parent_blob_id r));
            (VStr "processorId", VStr (dw_processor_id r)); (VStr "storageKey", VStr (dw_storage_key r));
            (VStr "tenantId", VStr (dw_tenant_id r))]).
Definition uploaded (status : Z) (blob_id : string) (byte_length : Z) (content_hash : string) : BlobReply :=
  Json status (VMap [(VStr "blobId", VStr blob_id); (VStr "byteLength", VInt byte_length);
                     (VStr "contentHash", VStr content_hash); (VStr "ok", VBool true)]).

Definition validate_blob_content (blob_id : string) (expected_byte_length : Z) (expected_content_hash : string)
    (content : blob) (actual_content_hash : string) : result ServerError unit :=
  let actual_len := i64_len content in
  if negb (actual_len =? expected_byte_length)
  then Err (SE_BadRequest ("blob " +:+ blob_id +:+ " byteLength mismatch: expected " +:+ fmt expected_byte_length
                           +:+ ", got " +:+ fmt actual_len))
  else if Str.starts_with "sha256-" expected_content_hash
          && negb (String.eqb expected_content_hash actual_content_hash)
  then Err (SE_BadRequest ("blob " +:+ blob_id +:+ " contentHash mismatch: expected " +:+ expected_content_hash
                           +:+ ", got " +:+ actual_content_hash))
  else Ok tt.

(** ** Staging *)

Definition nul : string := String (ascii_of_nat 0) EmptyString.
Definition STAGING_NAMESPACE : string := nul +:+ "aura-432-upload" +:+ nul.
Definition STAGING_DERIVATIVE_ID : string := "chunk".
Definition stage_key_for (blob_id : string) : string := STAGING_NAMESPACE +:+ blob_id.
Definition is_staging_namespace (blob_id : string) : bool := Str.starts_with STAGING_NAMESPACE blob_id.

Definition read_staged_bytes (t : DerivativeTable) (tenant_id blob_id : string) : blob :=
  match read_derivative (λ _, None) t (stage_key_for blob_id) STAGING_DERIVATIVE_ID tenant_id with
  | Some result => rr_bytes result
  | None => []
  end.
Definition write_staged_bytes `{Sha256} (tenant_id blob_id : string) (content : blob) (now : Z) :
    M DerivativeTable StoreError unit :=
  record_derivative
    {| di_parent_blob_id := stage_key_for blob_id; di_derivative_id := STAGING_DERIVATIVE_ID;
       di_tenant_id := tenant_id; di_processor_id := "aura-432-chunk-stage";
       di_mime_type := "application/octet-stream"; di_content := content; di_metadata_json := None;
       di_storage_key := None |} now.
Definition clear_staged_bytes (tenant_id blob_id : string) : M DerivativeTable StoreError unit :=
  Derivatives.delete_derivatives (stage_key_for blob_id) tenant_id;; mret tt.

(** ** Decisions *)

Definition decision_to_server (decision : AuthDecision) : result ServerError unit :=
  match decision with
  | Allow => Ok tt
  | Deny reason public_message => Err (SE_Authorization public_message (Some (DenyReason_as_str reason)))
  end.
Definition blob_resource (principal : Principal) (owner_id : string) : ResourceContext :=
  {| rc_tenant_id := p_tenant_id principal; rc_owner_user_id := Some owner_id |}.
Definition read_blob_decision (principal : Principal) (owner_id : string) : result ServerError unit :=
  decision_to_server (decide_baseline principal BlobRead (blob_resource principal owner_id)).
Definition assert_can_read_blob (grants : GrantTable) (principal : Principal) (owner_id blob_id : string) :
    result ServerError unit :=
  let decision := decide_baseline principal BlobRead (blob_resource principal owner_id) in
  match decision with
  | Allow => Ok tt
  | Deny reason _ =>
      if bool_decide (reason = OwnerMismatch)
         && has_active_grant_for_record_id grants (p_tenant_id principal) (p_user_id principal) blob_id
      then Ok tt else decision_to_server decision
  end.
Definition ownership_decision (policy_hooks : list PolicyHook) (principal : Principal) (owner_id : string)
    (blob_id : option string) (context : option Value) : result ServerError unit :=
  let decision := decide_baseline principal BlobWrite (blob_resource principal owner_id) in
  decision_to_server
    (apply_policy_hooks decision
       {| pi_principal := principal; pi_action := BlobWrite;
          pi_resource := {| pr_kind := "blob"; pr_name := None; pr_key := blob_id; pr_event := None;
                            pr_owner_id := Some owner_id; pr_tenant_id := p_tenant_id principal |};
          pi_context := context |} policy_hooks).

(** The owner of a blob that has none yet. *)
Definition new_owner (query : option string) (headers : HeaderMap) : result ServerError string :=
  match (match owner_id_from_query query with Some o => Some o | None => header_str headers OWNER_ID_HEADER end) with
  | Some (String _ _ as owner) => Ok owner
  | _ => Err (SE_BadRequest "ownerId must be a non-empty string")
  end.
Definition resolve_chunk_owner (metadata : option BlobMetadata) (query : option string) (headers : HeaderMap) :
    result ServerError string :=
  match metadata with Some m => Ok (bm_owner_id m) | None => new_owner query headers end.

Record ResolvedUpload : Type := {
  ru_status : Z; ru_response_content_hash : string; ru_owner_id : string; ru_mime_type : string;
  ru_existing_byte_length : Z;
}.
Definition resolve_upload (policy_hooks : list PolicyHook) (principal : Principal) (metadata : option BlobMetadata)
    (query : option string) (headers : HeaderMap) (blob_id : string) (content : blob) (content_hash : string) :
    result ServerError ResolvedUpload :=
  match metadata with
  | Some m =>
      ownership_decision policy_hooks principal (bm_owner_id m) (Some blob_id) None;;
      validate_blob_content blob_id (bm_byte_length m) (bm_content_hash m) content content_hash;;
      Ok {| ru_status := 200; ru_response_content_hash := bm_content_hash m; ru_owner_id := bm_owner_id m;
            ru_mime_type := bm_mime_type m; ru_existing_byte_length := bm_byte_length m |}
  | None =>
      owner_id ← new_owner query headers;
      ownership_decision policy_hooks principal owner_id (Some blob_id) None;;
      Ok {| ru_status := 201; ru_response_content_hash := content_hash; ru_owner_id := owner_id;
            ru_mime_type := infer_mime_type headers; ru_existing_byte_length := 0 |}
  end.

(** ** Routes *)

Record BlobWorld {B : Type} : Type := { bl_auth : AuthState; bl_files : BlobFiles B }.
Arguments BlobWorld : clear implicits.
Definition put_auth {B : Type} (a : AuthState) (w : BlobWorld B) : BlobWorld B :=
  {| bl_auth := a; bl_files := bl_files w |}.
Definition put_files {B : Type} (f : BlobFiles B) (w : BlobWorld B) : BlobWorld B :=
  {| bl_auth := bl_auth w; bl_files := f |}.
Record BlobLimits : Type := { max_blob_bytes : Z; max_blob_bytes_per_principal : Z }.

Section Routes.
Context `{Sha256, Crypto, PackedColumn Value, BlobBytes B}.
Context (limits : BlobLimits) (implicit_tenant_creation : bool) (schema_hash : string).
Context (encryption : option KeyProvider) (constraint_failed : string).
Context (session_token_digest : string → string).
Context (authorize : AuthState → string → Principal → Z → result ServerError unit).
(** [serde_json] on a body, and on a [metadata] column. *)
Context (from_slice : string → result string Value) (json : string → option Value).
(** [HeaderValue::try_from]. *)
Context (header_ok : string → bool).
Context (policy_hooks : list PolicyHook) (registry : BlobProcessorRegistry (BlobFiles B)).
Local Abbreviation Files := (BlobFiles B).
Local Abbreviation World := (BlobWorld B).
Local Abbreviation Step := (M World ServerError).
(** The steps after authentication work on the store alone. *)
Local Abbreviation FileStep := (M Files ServerError).

(** A call of the store, its error as the routes answer it. *)
Definition on {S A} (get : Files → S) (put : S → Files → Files) (m : M S StoreError A) : FileStep A := λ f,
  match m (get f) with
  | (Ok a, s) => (Ok a, put s f)
  | (Err e, s) => (Err (store_error e), put s f)
  end.
Definition look {A} (r : Files → result StoreError A) : FileStep A := λ f,
  match r f with Ok a => (Ok a, f) | Err e => (Err (store_error e), f) end.

Definition authenticated {A} (headers : HeaderMap) (now : Z) (k : Principal → FileStep A) : Step A := λ w,
  match Sharing.authenticate session_token_digest authorize implicit_tenant_creation headers now (bl_auth w) with
  | (Err e, a) => (Err e, put_auth a w)
  | (Ok principal, a) => let '(r, f) := k principal (bl_files w) in (r, put_files f (put_auth a w))
  end.

Definition list_as (principal : Principal) (app_id : string) (query_owner : option string) : FileStep BlobReply :=
  let requested := match query_owner with
                   | Some o => Some o
                   | None => if is_admin principal then None else Some (p_user_id principal)
                   end in
  lift_res (match requested with
            | Some owner => if is_admin principal then Ok tt else read_blob_decision principal owner
            | None => Ok tt
            end);;
  files ← get_state;
  let data := VArr (blob_metadata_json <$> Blobs.list_ (bf_meta files) (p_tenant_id principal) requested app_id) in
  let usage :=
    match requested with
    | Some owner =>
        let quota := max_blob_bytes_per_principal limits in
        [(VStr "usage",
          VMap [(VStr "ownerId", VStr owner);
                (VStr "quotaBytes", if quota_configured quota then VInt quota else VNil);
                (VStr "usedBytes", VInt (Blobs.total_bytes_for_owner (bf_meta files) (p_tenant_id principal) owner app_id))])]
    | None => []
    end in
  mret (Json 200 (VMap ([(VStr "data", data); (VStr "schemaHash", VStr schema_hash)] ++ usage))).
Definition list_blobs (headers : HeaderMap) (app_id : string) (query_owner : option string) (now : Z) : Step BlobReply :=
  authenticated headers now (λ principal, list_as principal app_id query_owner).

Definition declare_as (principal : Principal) (app_id body : string) (now : Z) : FileStep BlobReply :=
  parsed ← lift_res (parse_body_value from_slice body);
  owner_id ← lift_res (require_string parsed "ownerId" "ownerId");
  lift_res (ownership_decision policy_hooks principal owner_id None (Some parsed));;
  blob_id ← lift_res (require_string parsed "blobId" "blobId");
  content_hash ← lift_res (require_string parsed "contentHash" "contentHash");
  byte_length ← lift_res (require_number parsed "byteLength" "byteLength");
  mime_type ← lift_res (require_string parsed "mimeType" "mimeType");
  let storage_key := v ← field parsed "storageKey"; as_str v in
  on bf_meta put_meta
    (Blobs.create (p_tenant_id principal)
       {| bi_blob_id := blob_id; bi_owner_id := owner_id; bi_content_hash := content_hash;
          bi_byte_length := byte_length; bi_mime_type := mime_type; bi_storage_key := storage_key |} app_id now);;
  mret (Json 201 (VMap [(VStr "blobId", VStr blob_id); (VStr "ok", VBool true)])).
Definition declare_blob (headers : HeaderMap) (app_id body : string) (now : Z) : Step BlobReply :=
  authenticated headers now (λ principal, declare_as principal app_id body now).

Definition metadata_as (principal : Principal) (app_id blob_id : string) : FileStep BlobReply :=
  files ← get_state;
  match (if Str.is_empty blob_id then None else Blobs.read (bf_meta files) (p_tenant_id principal) blob_id app_id) with
  | None => mret (blob_not_found "blob_not_found")
  | Some metadata =>
      lift_res (assert_can_read_blob (bf_grants files) principal (bm_owner_id metadata) (bm_blob_id metadata));;
      mret (Json 200 (blob_metadata_json metadata))
  end.
Definition get_metadata (headers : HeaderMap) (app_id blob_id : string) (now : Z) : Step BlobReply :=
  authenticated headers now (λ principal, metadata_as principal app_id blob_id).

(** *** Uploads *)

(** The first matching processor that rejects. *)
Fixpoint run_sync_validators (ps : list (BlobProcessor Files)) (principal : Principal)
    (owner_id mime_type blob_id : string) (content : blob) (store : Files) : result ServerError unit :=
  match ps with
  | [] => Ok tt
  | processor :: rest =>
      if negb (bp_has_validate processor) then run_sync_validators rest principal owner_id mime_type blob_id content store
      else match bp_validate processor
                   {| vc_tenant_id := p_tenant_id principal; vc_blob_id := blob_id; vc_owner_id := owner_id;
                      vc_mime_type := mime_type; vc_byte_length := i64_len content;
                      vc_preview := take (4 * 1024) content |} store with
           | Validation_Reject reason =>
               Err (SE_BlobValidationRejected
                      ("Blob rejected by processor " +:+ bp_id processor +:+ ": " +:+ reason) (bp_id processor) (Some reason))
           | Validation_Ok => run_sync_validators rest principal owner_id mime_type blob_id content store
           end
  end.

(** [job_nonce] draws the nonce of a processor's job. *)
Definition process_job (tenant_id app_id blob_id content_hash : string) (processor : BlobProcessor Files) : EnqueueInput :=
  {| en_tenant_id := tenant_id; en_app_id := Some app_id; en_job_type := BLOB_PROCESS_JOB_TYPE;
     en_payload := encode_blob_process_payload {| bpp_blob_id := blob_id; bpp_processor_id := bp_id processor |};
     en_idempotency_key := Some (blob_id +:+ ":" +:+ bp_id processor +:+ ":" +:+ content_hash);
     en_available_at := None; en_max_attempts := None |}.
Fixpoint enqueue_process_jobs (ps : list (BlobProcessor Files)) (tenant_id app_id blob_id content_hash : string)
    (job_nonce : string → blob) (now : Z) : M JobTable StoreError unit :=
  match ps with
  | [] => mret tt
  | processor :: rest =>
      (if negb (bp_has_process processor) then mret tt
       else enqueue encryption constraint_failed (job_nonce (bp_id processor))
              (process_job tenant_id app_id blob_id content_hash processor) now;; mret tt);;
      enqueue_process_jobs rest tenant_id app_id blob_id content_hash job_nonce now
  end.

(** What an upload draws: the nonces of its content and of its jobs. *)
Record UploadDraws : Type := { ud_nonce : blob; ud_job_nonce : string → blob }.
Record UploadRequest : Type := {
  up_principal : Principal; up_app_id : string; up_blob_id : string; up_query : option string; up_headers : HeaderMap;
  up_now : Z;
}.

(** The owner, the validators, the quota; then the row, the bytes and the jobs, and
    before the jobs whatever the route does with the staged bytes. *)
Definition finish_upload (rq : UploadRequest) (metadata : option BlobMetadata) (content : blob)
    (settle : FileStep unit) (d : UploadDraws) : FileStep BlobReply :=
  let tenant_id := p_tenant_id (up_principal rq) in
  let content_hash := content_hash_of content in
  resolved ← lift_res (resolve_upload policy_hooks (up_principal rq) metadata (up_query rq) (up_headers rq)
                         (up_blob_id rq) content content_hash);
  let matching := Registry.matching registry (ru_mime_type resolved) (i64_len content) in
  files ← get_state;
  lift_res (run_sync_validators matching (up_principal rq) (ru_owner_id resolved) (ru_mime_type resolved)
              (up_blob_id rq) content files);;
  let quota := max_blob_bytes_per_principal limits in
  lift_res (if quota_configured quota then
              let current_bytes := Blobs.total_bytes_for_owner (bf_meta files) tenant_id (ru_owner_id resolved) (up_app_id rq) in
              let projected := i64_add (i64_sub current_bytes (ru_existing_byte_length resolved)) (i64_len content) in
              if quota <? projected then Err (quota_exceeded (ru_owner_id resolved) projected quota) else Ok tt
            else Ok tt);;
  (if bool_decide (metadata = None) then
     on bf_meta put_meta
       (Blobs.create tenant_id
          {| bi_blob_id := up_blob_id rq; bi_owner_id := ru_owner_id resolved; bi_content_hash := content_hash;
             bi_byte_length := i64_len content; bi_mime_type := infer_mime_type (up_headers rq); bi_storage_key := None |}
          (up_app_id rq) (up_now rq))
   else mret tt);;
  on bf_bytes put_bytes
    (write_content encryption (ud_nonce d) tenant_id (up_blob_id rq) content (up_app_id rq) (up_now rq));;
  settle;;
  on bf_jobs put_jobs
    (enqueue_process_jobs matching tenant_id (up_app_id rq) (up_blob_id rq) content_hash (ud_job_nonce d) (up_now rq));;
  mret (uploaded (ru_status resolved) (up_blob_id rq) (i64_len content) (ru_response_content_hash resolved)).

Definition put_whole (rq : UploadRequest) (content : blob) (d : UploadDraws) : FileStep BlobReply :=
  lift_res (guard_res (i64_len content <=? max_blob_bytes limits)
              (too_large (Z.of_nat (length content)) (max_blob_bytes limits)));;
  files ← get_state;
  let metadata := Blobs.read (bf_meta files) (p_tenant_id (up_principal rq)) (up_blob_id rq) (up_app_id rq) in
  finish_upload rq metadata content (mret tt) d.

Definition put_content_chunk (rq : UploadRequest) (range : ContentRange) (chunk : blob) (d : UploadDraws) :
    FileStep BlobReply :=
  let tenant_id := p_tenant_id (up_principal rq) in
  let blob_id := up_blob_id rq in
  let declared := rg_end range - rg_start range + 1 in
  lift_res (guard_res (Z.of_nat (length chunk) =? declared)
    (SE_BadRequest ("Content-Range declared " +:+ fmt declared +:+ " bytes but the body carried "
                    +:+ fmt (Z.of_nat (length chunk)))));;
  lift_res (guard_res (i64_of (rg_total range) <=? max_blob_bytes limits)
    (too_large (rg_total range) (max_blob_bytes limits)));;
  files ← get_state;
  let metadata := Blobs.read (bf_meta files) tenant_id blob_id (up_app_id rq) in
  owner_id ← lift_res (resolve_chunk_owner metadata (up_query rq) (up_headers rq));
  lift_res (ownership_decision policy_hooks (up_principal rq) owner_id (Some blob_id) None);;
  let staged := read_staged_bytes (bf_derivatives files) tenant_id blob_id in
  let staged_len := Z.of_nat (length staged) in
  lift_res (guard_res (rg_start range =? staged_len)
    (SE_StorageConflict (VMap [(VStr "reason", VStr "uploadOffsetMismatch");
                               (VStr "expectedOffset", VInt (i64_of staged_len));
                               (VStr "receivedOffset", VInt (i64_of (rg_start range)))])));;
  let assembled := staged ++ chunk in
  if negb (is_final range) then
    on bf_derivatives put_derivatives (write_staged_bytes tenant_id blob_id assembled (up_now rq));;
    mret (Json 202 (VMap [(VStr "blobId", VStr blob_id); (VStr "ok", VBool true);
                          (VStr "receivedOffset", VInt (Z.of_nat (length assembled)));
                          (VStr "totalBytes", VInt (rg_total range))]))
  else
    lift_res (guard_res (Z.of_nat (length assembled) =? rg_total range)
      (SE_BadRequest ("assembled upload is " +:+ fmt (Z.of_nat (length assembled))
                      +:+ " bytes but Content-Range declared " +:+ fmt (rg_total range))));;
    finish_upload rq metadata assembled
      (on bf_derivatives put_derivatives (clear_staged_bytes tenant_id blob_id)) d.

Definition put_content (headers : HeaderMap) (app_id blob_id : string) (query : option string) (body : blob)
    (d : UploadDraws) (now : Z) : Step BlobReply :=
  authenticated headers now (λ principal,
    let rq := {| up_principal := principal; up_app_id := app_id; up_blob_id := blob_id; up_query := query;
                 up_headers := headers; up_now := now |} in
    match header_str headers CONTENT_RANGE with
    | Some range_header =>
        range ← lift_res (parse_content_range range_header);
        put_content_chunk rq range body d
    | None => put_whole rq body d
    end).

Definition head_as (principal : Principal) (app_id blob_id : string) : FileStep BlobReply :=
  files ← get_state;
  let metadata := Blobs.read (bf_meta files) (p_tenant_id principal) blob_id app_id in
  let owner_id := match metadata with Some m => bm_owner_id m | None => p_user_id principal end in
  lift_res (ownership_decision policy_hooks principal owner_id (Some blob_id) None);;
  mret (Upload_offset (match metadata with
                       | Some _ => 0
                       | None => Z.of_nat (length (read_staged_bytes (bf_derivatives files) (p_tenant_id principal) blob_id))
                       end)).
Definition head_content (headers : HeaderMap) (app_id blob_id : string) (now : Z) : Step BlobReply :=
  authenticated headers now (λ principal, head_as principal app_id blob_id).

(** *** Downloads *)

Definition blob_bytes_response (mime_type blob_id content_hash : string) (etag : option string) (bytes : blob) : BlobReply :=
  if header_ok mime_type && header_ok blob_id && header_ok content_hash
     && match etag with Some etag => header_ok etag | None => true end
  then Blob_bytes mime_type blob_id content_hash etag bytes else Status_500.

Definition content_as (principal : Principal) (app_id blob_id : string) : FileStep BlobReply :=
  files ← get_state;
  content ← look (λ f, read_content encryption (bf_bytes f) (p_tenant_id principal) blob_id app_id);
  match Blobs.read (bf_meta files) (p_tenant_id principal) blob_id app_id, content with
  | Some metadata, Some content =>
      lift_res (assert_can_read_blob (bf_grants files) principal (bm_owner_id metadata) (bm_blob_id metadata));;
      mret (blob_bytes_response (bm_mime_type metadata) (bm_blob_id metadata) (bm_content_hash metadata) None content)
  | _, _ => mret (blob_not_found "blob_content_not_found")
  end.
Definition get_content (headers : HeaderMap) (app_id blob_id : string) (now : Z) : Step BlobReply :=
  authenticated headers now (λ principal, content_as principal app_id blob_id).

Definition derivatives_as (principal : Principal) (app_id blob_id : string) : FileStep BlobReply :=
  files ← get_state;
  match Blobs.read (bf_meta files) (p_tenant_id principal) blob_id app_id with
  | None => mret (blob_not_found "blob_not_found")
  | Some metadata =>
      lift_res (assert_can_read_blob (bf_grants files) principal (bm_owner_id metadata) (bm_blob_id metadata));;
      mret (Json 200 (VMap [(VStr "derivatives",
        VArr (derivative_row_json <$> list_derivatives json (bf_derivatives files) blob_id (p_tenant_id principal)))]))
  end.
Definition list_derivatives_route (headers : HeaderMap) (app_id blob_id : string) (now : Z) : Step BlobReply :=
  if is_staging_namespace blob_id then mret (blob_not_found "blob_not_found")
  else authenticated headers now (λ principal, derivatives_as principal app_id blob_id).

Definition derivative_as (principal : Principal) (app_id blob_id derivative_id : string) : FileStep BlobReply :=
  files ← get_state;
  match Blobs.read (bf_meta files) (p_tenant_id principal) blob_id app_id with
  | None => mret (blob_not_found "blob_not_found")
  | Some metadata =>
      lift_res (assert_can_read_blob (bf_grants files) principal (bm_owner_id metadata) (bm_blob_id metadata));;
      match read_derivative json (bf_derivatives files) blob_id derivative_id (p_tenant_id principal) with
      | None => mret (blob_not_found "blob_derivative_not_found")
      | Some result =>
          let hash := dw_content_hash (rr_row result) in
          mret (blob_bytes_response (dw_mime_type (rr_row result)) (bm_blob_id metadata) hash
                  (Some (quote +:+ hash +:+ quote)) (rr_bytes result))
      end
  end.
Definition get_derivative_content (headers : HeaderMap) (app_id blob_id derivative_id : string) (now : Z) :
    Step BlobReply :=
  if is_staging_namespace blob_id then mret (blob_not_found "blob_not_found")
  else authenticated headers now (λ principal, derivative_as principal app_id blob_id derivative_id).
End Routes.
