(* ===== verification/BlobSafety.v ===== *)
(** * Blobs: uploads and their readers

    An upload in chunks does what an upload at once does, what is uploaded is what
    is downloaded, the quota holds, and who can read a blob; with the runs in which
    a declaration, a staged upload or a job of a named app goes wrong. *)

From Stdlib Require Import ZArith Lia Ascii String.
From stdpp Require Import base gmap strings list sorting pretty.
From S2P Require Import Prelude Value Schema Timestamp Text StoreBase Encryption Samples IdempotencyCache JobStore Authz ServerErrors Sessions Sharing Cluster BlobStore BlobProcessors BlobRoutes.

(** ** Staged bytes *)

Lemma staged_insert `{Sha256} t tenant blob_id content now :
  ∃ row, write_staged_bytes tenant blob_id content now t
         = (Ok tt, <[(tenant, stage_key_for blob_id, STAGING_DERIVATIVE_ID) := row]> t) ∧ dv_content row = content.
Proof. by eexists. Qed.

Lemma read_staged_insert t tenant blob_id row :
  read_staged_bytes (<[(tenant, stage_key_for blob_id, STAGING_DERIVATIVE_ID) := row]> t) tenant blob_id = dv_content row.
Proof. unfold read_staged_bytes, read_derivative. by rewrite lookup_insert_eq. Qed.

(** The derivatives without what is staged for a blob. *)
Definition unstaged (tenant blob_id : string) (t : DerivativeTable) : DerivativeTable :=
  filter (λ kr, Derivatives.of_parent (stage_key_for blob_id) tenant kr = false) t.
Lemma clear_staged t tenant blob_id : clear_staged_bytes tenant blob_id t = (Ok tt, unstaged tenant blob_id t).
Proof. done. Qed.
Lemma unstaged_insert t tenant blob_id row :
  unstaged tenant blob_id (<[(tenant, stage_key_for blob_id, STAGING_DERIVATIVE_ID) := row]> t) = unstaged tenant blob_id t.
Proof.
  unfold unstaged. apply map_eq. intros k. apply option_eq. intros r.
  rewrite !map_lookup_filter_Some, lookup_insert_Some. split; [|intros [Hr Hp]; split; [|done]].
  - intros [[[<- <-]|[_ Hr]] Hp]; [|done]. unfold Derivatives.of_parent in Hp. cbn [fst snd] in Hp.
    by rewrite !String.eqb_refl in Hp.
  - right. split; [|done]. intros <-. unfold Derivatives.of_parent in Hp. cbn [fst snd] in Hp.
    by rewrite !String.eqb_refl in Hp.
Qed.
Lemma read_unstaged t tenant blob_id : unstaged tenant blob_id t = t → read_staged_bytes t tenant blob_id = [].
Proof.
  intros E. unfold read_staged_bytes, read_derivative. set (k := (tenant, stage_key_for blob_id, STAGING_DERIVATIVE_ID)).
  destruct (t !! k) as [r|] eqn:Ek; [|done]. rewrite <- E in Ek. unfold unstaged in Ek.
  apply map_lookup_filter_Some in Ek as [_ Hp]. unfold Derivatives.of_parent, k in Hp. cbn [fst snd] in Hp.
  by rewrite !String.eqb_refl in Hp.
Qed.

(** ** In chunks or at once *)

Section Uploads.
Context `{Sha256, Crypto, PackedColumn Value, BlobBytes B}.
Context (limits : BlobLimits) (encryption : option KeyProvider) (constraint_failed : string).
Context (policy_hooks : list PolicyHook) (registry : BlobProcessorRegistry (BlobFiles B)).
Local Abbreviation Files := (BlobFiles B).
Local Abbreviation chunk_route := (put_content_chunk limits encryption constraint_failed policy_hooks registry).
Local Abbreviation whole_route := (put_whole limits encryption constraint_failed policy_hooks registry).
Local Abbreviation finish := (finish_upload limits encryption constraint_failed policy_hooks registry).

(** The request at another time. *)
Definition at_time (now : Z) (rq : UploadRequest) : UploadRequest :=
  {| up_principal := up_principal rq; up_app_id := up_app_id rq; up_blob_id := up_blob_id rq; up_query := up_query rq;
     up_headers := up_headers rq; up_now := now |}.

(** The client: each chunk from where the one before ended, up to the first
    refusal. *)
Definition range_of (offset total : Z) (chunk : blob) : ContentRange :=
  {| rg_start := offset; rg_end := offset + Z.of_nat (length chunk) - 1; rg_total := total |}.
Fixpoint send_chunks (rq : UploadRequest) (d : UploadDraws) (total offset : Z) (now : Z) (chunk : blob)
    (more : list (Z * blob)) : M Files ServerError BlobReply :=
  reply ← chunk_route (at_time now rq) (range_of offset total chunk) chunk d;
  match more with
  | [] => mret reply
  | (now', chunk') :: more => send_chunks rq d total (offset + Z.of_nat (length chunk)) now' chunk' more
  end.

(** Validators that look at the upload and not at derivatives. *)
Definition validators_apart : Prop :=
  ∀ p ctx (f : Files) t, p ∈ processors registry → bp_validate p ctx (put_derivatives t f) = bp_validate p ctx f.

Lemma validators_same ps principal owner mime id content (f : Files) t :
  validators_apart → ps ⊆ processors registry →
  run_sync_validators ps principal owner mime id content (put_derivatives t f)
  = run_sync_validators ps principal owner mime id content f.
Proof using Type.
  intros Hv. induction ps as [|p ps IH]; [done|]. intros Hs. cbn [run_sync_validators].
  rewrite Hv by set_solver. rewrite IH by set_solver. done.
Qed.
Lemma matching_subset mime n : Registry.matching registry mime n ⊆ processors registry.
Proof using Type. intros p. unfold Registry.matching. by rewrite !list_elem_of_In, filter_In; intros [? _]. Qed.

(** The second half, on files that differ in their derivatives. *)
Lemma finish_staged rq metadata content d (f : Files) t :
  validators_apart →
  let tenant := p_tenant_id (up_principal rq) in
  let clear := on bf_derivatives put_derivatives (clear_staged_bytes tenant (up_blob_id rq)) in
  let '(r, g) := finish rq metadata content (mret tt) d f in
  ∃ t', finish rq metadata content clear d (put_derivatives t f) = (r, put_derivatives t' g)
    ∧ bf_derivatives g = bf_derivatives f
    ∧ (∀ reply, r = Ok reply → t' = unstaged tenant (up_blob_id rq) t).
Proof using Type.
  intros Hv. cbv zeta. unfold finish_upload. run_M.
  destruct (resolve_upload _ _ _ _ _ _ _ _) as [resolved|e]; [|by exists t].
  rewrite validators_same by (done || apply matching_subset). cbn [bf_meta put_derivatives].
  destruct (run_sync_validators _ _ _ _ _ _ _) as [[]|e]; [|by exists t].
  match goal with |- context [if quota_configured ?q then ?x else ?y] =>
    destruct (if quota_configured q then x else y) as [[]|e] end; [|by exists t].
  unfold on. cbn [bf_meta bf_bytes bf_jobs bf_derivatives put_derivatives put_meta put_bytes put_jobs].
  destruct (bool_decide (metadata = None)).
  - destruct (Blobs.create _ _ _ _ _) as [[[]|e] m]; [|by exists t].
    cbn [bf_meta bf_bytes bf_jobs bf_derivatives put_derivatives put_meta put_bytes put_jobs].
    destruct (write_content _ _ _ _ _ _ _ _) as [[[]|e] b]; [|by exists t]. rewrite clear_staged.
    cbn [bf_meta bf_bytes bf_jobs bf_derivatives put_derivatives put_meta put_bytes put_jobs].
    destruct (enqueue_process_jobs _ _ _ _ _ _ _ _ _ _) as [[[]|e] j]; eexists; by split_and!; try intros.
  - destruct (write_content _ _ _ _ _ _ _ _) as [[[]|e] b]; [|by exists t]. rewrite clear_staged.
    cbn [bf_meta bf_bytes bf_jobs bf_derivatives put_derivatives put_meta put_bytes put_jobs].
    destruct (enqueue_process_jobs _ _ _ _ _ _ _ _ _ _) as [[[]|e] j]; eexists; by split_and!; try intros.
Qed.

(** The owner a request names, and whether it may write. *)
Definition admitted (rq : UploadRequest) (metadata : option BlobMetadata) : result ServerError unit :=
  owner_id ← resolve_chunk_owner metadata (up_query rq) (up_headers rq);
  ownership_decision policy_hooks (up_principal rq) owner_id (Some (up_blob_id rq)) None.
Definition metadata_of (rq : UploadRequest) (f : Files) : option BlobMetadata :=
  Blobs.read (bf_meta f) (p_tenant_id (up_principal rq)) (up_blob_id rq) (up_app_id rq).

Lemma resolve_refused rq metadata content hash e :
  admitted rq metadata = Err e →
  resolve_upload policy_hooks (up_principal rq) metadata (up_query rq) (up_headers rq) (up_blob_id rq) content hash = Err e.
Proof using Type.
  unfold admitted, resolve_upload, resolve_chunk_owner. destruct metadata as [m|]; cbn [mbind result_bind].
  - by intros ->.
  - destruct (new_owner _ _) as [o|e']; cbn [mbind result_bind]; [by intros ->|by intros [= ->]].
Qed.
Lemma whole_refused rq content d f e :
  i64_len content ≤ max_blob_bytes limits → admitted rq (metadata_of rq f) = Err e → whole_route rq content d f = (Err e, f).
Proof using Type.
  intros Hm He. unfold put_whole, finish_upload, guard_res. rewrite (proj2 (Z.leb_le _ _) Hm). run_M.
  by rewrite (resolve_refused _ _ _ _ e).
Qed.
Lemma whole_admitted rq content d f :
  i64_len content ≤ max_blob_bytes limits →
  whole_route rq content d f = finish rq (metadata_of rq f) content (mret tt) d f.
Proof using Type. intros Hm. unfold put_whole, guard_res. by rewrite (proj2 (Z.leb_le _ _) Hm). Qed.

Lemma chunk_step rq d total chunk (f : Files) t pre :
  read_staged_bytes t (p_tenant_id (up_principal rq)) (up_blob_id rq) = pre →
  total ≤ max_blob_bytes limits → max_blob_bytes limits ≤ i64_max →
  let tenant := p_tenant_id (up_principal rq) in
  let range := range_of (Z.of_nat (length pre)) total chunk in
  let clear := on bf_derivatives put_derivatives (clear_staged_bytes tenant (up_blob_id rq)) in
  match admitted rq (metadata_of rq f) with
  | Err e => chunk_route rq range chunk d (put_derivatives t f) = (Err e, put_derivatives t f)
  | Ok _ =>
      if Z.of_nat (length pre + length chunk) =? total
      then chunk_route rq range chunk d (put_derivatives t f)
           = finish rq (metadata_of rq f) (pre ++ chunk) clear d (put_derivatives t f)
      else ∃ reply row, chunk_route rq range chunk d (put_derivatives t f)
           = (Ok reply, put_derivatives (<[(tenant, stage_key_for (up_blob_id rq), STAGING_DERIVATIVE_ID) := row]> t) f)
           ∧ dv_content row = pre ++ chunk
  end.
Proof using Type.
  intros Hp Ht Hm. cbv zeta. unfold put_content_chunk, guard_res, range_of, is_final, admitted, metadata_of.
  cbn [rg_start rg_end rg_total]. run_M.
  replace (Z.of_nat (length pre) + Z.of_nat (length chunk) - 1 - Z.of_nat (length pre) + 1) with (Z.of_nat (length chunk)) by lia.
  rewrite Z.eqb_refl. unfold i64_of. rewrite (Z.min_l total) by lia. rewrite (proj2 (Z.leb_le _ _) Ht).
  cbn [bf_meta bf_derivatives put_derivatives].
  destruct (resolve_chunk_owner _ _ _) as [owner|e]; cbn [mbind result_bind]; [|done].
  destruct (ownership_decision _ _ _ _ _) as [[]|e]; [|done]. rewrite Hp, Z.eqb_refl.
  replace (Z.of_nat (length pre) + Z.of_nat (length chunk) - 1 + 1) with (Z.of_nat (length pre + length chunk)) by lia.
  destruct (Z.eqb_spec (Z.of_nat (length pre + length chunk)) total) as [E|E]; cbn [negb].
  - rewrite length_app, E, Z.eqb_refl. done.
  - destruct (staged_insert t (p_tenant_id (up_principal rq)) (up_blob_id rq) (pre ++ chunk) (up_now rq)) as (row & E' & Hr).
    eexists _, row. split; [|exact Hr]. unfold on. cbn [bf_derivatives put_derivatives]. by rewrite E'.
Qed.

(** When the last chunk is sent, and what the chunks add up to. *)
Definition last_time (now : Z) (more : list (Z * blob)) : Z := default now (last more.*1).
Definition body_of (chunk : blob) (more : list (Z * blob)) : blob := chunk ++ concat more.*2.

Lemma last_time_cons now now' chunk more : last_time now ((now', chunk) :: more) = last_time now' more.
Proof using Type. unfold last_time. rewrite fmap_cons, last_cons. by destruct (last more.*1). Qed.

(** The last chunk, and the whole upload. *)
Lemma last_chunk rq d (f : Files) t pre chunk :
  validators_apart → read_staged_bytes t (p_tenant_id (up_principal rq)) (up_blob_id rq) = pre →
  unstaged (p_tenant_id (up_principal rq)) (up_blob_id rq) t = bf_derivatives f →
  Z.of_nat (length (pre ++ chunk)) ≤ max_blob_bytes limits → max_blob_bytes limits ≤ i64_max →
  let range := range_of (Z.of_nat (length pre)) (Z.of_nat (length (pre ++ chunk))) chunk in
  let sent := chunk_route rq range chunk d (put_derivatives t f) in
  let whole := whole_route rq (pre ++ chunk) d f in
  sent.1 = whole.1 ∧ (is_ok whole.1 → sent.2 = whole.2).
Proof using Type.
  intros Hv Hp Hu Hm Hi. cbv zeta.
  assert (i64_len (pre ++ chunk) ≤ max_blob_bytes limits) as Hl by (unfold i64_len, i64_of; lia).
  pose proof (chunk_step rq d _ chunk f t pre Hp Hm Hi) as Hs. cbv zeta in Hs.
  destruct (admitted rq (metadata_of rq f)) as [[]|e] eqn:Ea.
  - rewrite (proj2 (Z.eqb_eq _ _)) in Hs by (rewrite length_app; lia). rewrite Hs, whole_admitted by done.
    pose proof (finish_staged rq (metadata_of rq f) (pre ++ chunk) d f t Hv) as Hf. cbv zeta in Hf.
    destruct (finish rq _ _ (mret tt) d f) as [r g]. destruct Hf as (t' & -> & Hd & Ht). cbn [fst snd]. split; [done|].
    destruct r as [reply|]; [|done]. intros _. rewrite (Ht reply) by done. rewrite Hu, <- Hd. by destruct g.
  - rewrite Hs, (whole_refused rq _ d f e) by done. by split.
Qed.

Lemma send_chunks_from rq d (f : Files) more : ∀ now chunk t pre,
  validators_apart → read_staged_bytes t (p_tenant_id (up_principal rq)) (up_blob_id rq) = pre →
  unstaged (p_tenant_id (up_principal rq)) (up_blob_id rq) t = bf_derivatives f →
  Forall (λ c, c.2 ≠ []) more →
  Z.of_nat (length (pre ++ body_of chunk more)) ≤ max_blob_bytes limits → max_blob_bytes limits ≤ i64_max →
  let sent := send_chunks rq d (Z.of_nat (length (pre ++ body_of chunk more))) (Z.of_nat (length pre)) now chunk more
                (put_derivatives t f) in
  let whole := whole_route (at_time (last_time now more) rq) (pre ++ body_of chunk more) d f in
  sent.1 = whole.1 ∧ (is_ok whole.1 → sent.2 = whole.2).
Proof using Type.
  induction more as [|[now' chunk'] more IH]; intros now chunk t pre Hv Hp Hu Hf Hm Hi; cbn [send_chunks]; cbv zeta; run_M.
  - unfold body_of in *. cbn [concat fmap list_fmap] in *. rewrite app_nil_r in *.
    pose proof (last_chunk (at_time now rq) d f t pre chunk Hv Hp Hu Hm Hi) as Hs. cbv zeta in Hs.
    change (last_time now []) with now. by destruct (chunk_route _ _ _ _ _) as [[reply|e] g].
  - apply Forall_cons in Hf as [Hc Hf]. cbn [snd] in Hc. rewrite last_time_cons.
    assert (pre ++ body_of chunk ((now', chunk') :: more) = (pre ++ chunk) ++ body_of chunk' more) as E.
    { unfold body_of. rewrite fmap_cons. cbn [concat snd]. by rewrite <- !(assoc_L (++)). }
    rewrite E in *. pose proof (chunk_step (at_time now rq) d _ chunk f t pre Hp Hm Hi) as Hs. cbv zeta in Hs.
    destruct (admitted _ _) as [[]|e] eqn:Ea.
    + rewrite (proj2 (Z.eqb_neq _ _)) in Hs
        by (rewrite !length_app; unfold body_of; rewrite length_app; destruct chunk'; [done|simpl; lia]).
      destruct Hs as (reply & row & -> & Hr).
      specialize (IH now' chunk' (<[(p_tenant_id (up_principal rq), stage_key_for (up_blob_id rq), STAGING_DERIVATIVE_ID) := row]> t)
                    (pre ++ chunk) Hv). cbv zeta in IH.
      replace (Z.of_nat (length pre) + Z.of_nat (length chunk)) with (Z.of_nat (length (pre ++ chunk)))
        by (rewrite length_app; lia).
      apply IH; try done; [by rewrite read_staged_insert|by rewrite unstaged_insert].
    + rewrite Hs. rewrite (whole_refused _ _ d f e); [by split| |done]. unfold i64_len, i64_of. lia.
Qed.

(** C8: An upload in chunks is an upload at once: when nothing is staged for the blob
    and the chunks, each from where the one before ended, add up to a content
    within the limit, then the client is told what a whole upload of that content
    at the time of the last chunk tells it, refusals included, and when it
    succeeds the store is left the same, with no staged bytes behind. *)
Theorem chunks_as_whole (rq : UploadRequest) (d : UploadDraws) (f : Files) (now : Z) (chunk : blob) (more : list (Z * blob)) :
  validators_apart →
  unstaged (p_tenant_id (up_principal rq)) (up_blob_id rq) (bf_derivatives f) = bf_derivatives f →
  Forall (λ c, c.2 ≠ []) more →
  Z.of_nat (length (body_of chunk more)) ≤ max_blob_bytes limits → max_blob_bytes limits ≤ i64_max →
  let sent := send_chunks rq d (Z.of_nat (length (body_of chunk more))) 0 now chunk more f in
  let whole := whole_route (at_time (last_time now more) rq) (body_of chunk more) d f in
  sent.1 = whole.1 ∧ (is_ok whole.1 → sent.2 = whole.2).
Proof using Type.
  intros Hv Hu Hf Hm Hi. pose proof (read_unstaged _ _ _ Hu) as Hp.
  pose proof (send_chunks_from rq d f more now chunk (bf_derivatives f) [] Hv Hp Hu Hf Hm Hi) as Hs.
  by destruct f.
Qed.

(** ** What an upload leaves, and who reads it *)

Lemma finish_ok rq metadata content d (f : Files) reply g :
  finish rq metadata content (mret tt) d f = (Ok reply, g) →
  let tenant := p_tenant_id (up_principal rq) in
  ∃ ru,
    resolve_upload policy_hooks (up_principal rq) metadata (up_query rq) (up_headers rq) (up_blob_id rq) content
      (content_hash_of content) = Ok ru
    ∧ (quota_configured (max_blob_bytes_per_principal limits) = true →
       i64_add (i64_sub (Blobs.total_bytes_for_owner (bf_meta f) tenant (ru_owner_id ru) (up_app_id rq))
                  (ru_existing_byte_length ru)) (i64_len content) ≤ max_blob_bytes_per_principal limits)
    ∧ match metadata with
      | Some _ => bf_meta g = bf_meta f
      | None =>
          Blobs.create tenant
            {| bi_blob_id := up_blob_id rq; bi_owner_id := ru_owner_id ru; bi_content_hash := content_hash_of content;
               bi_byte_length := i64_len content; bi_mime_type := infer_mime_type (up_headers rq); bi_storage_key := None |}
            (up_app_id rq) (up_now rq) (bf_meta f) = (Ok tt, bf_meta g)
      end
    ∧ write_content encryption (ud_nonce d) tenant (up_blob_id rq) content (up_app_id rq) (up_now rq) (bf_bytes f)
      = (Ok tt, bf_bytes g)
    ∧ bf_grants g = bf_grants f.
Proof using Type.
  unfold finish_upload. run_M. intros Hf.
  destruct (resolve_upload _ _ _ _ _ _ _ _) as [ru|e]; [|done]. exists ru. split; [done|].
  destruct (run_sync_validators _ _ _ _ _ _ _) as [[]|e]; [|done].
  match type of Hf with context [if quota_configured ?q then ?x else ?y] =>
    destruct (if quota_configured q then x else y) as [[]|e] eqn:Eq end; [|done].
  split. { intros Hq. rewrite Hq in Eq. destruct (Z.ltb_spec (max_blob_bytes_per_principal limits)
    (i64_add (i64_sub (Blobs.total_bytes_for_owner (bf_meta f) (p_tenant_id (up_principal rq)) (ru_owner_id ru) (up_app_id rq))
       (ru_existing_byte_length ru)) (i64_len content))); [done|lia]. }
  unfold on in Hf. destruct metadata as [m|]; [rewrite bool_decide_false in Hf by done|rewrite bool_decide_true in Hf by done].
  - destruct (write_content _ _ _ _ _ _ _ _) as [[[]|e] b]; [|done]. cbn [bf_jobs put_bytes] in Hf.
    destruct (enqueue_process_jobs _ _ _ _ _ _ _ _ _ _) as [[[]|e] j]; [|done]. by injection Hf as _ <-.
  - destruct (Blobs.create _ _ _ _ _) as [[[]|e] t]; [|done]. cbn [bf_bytes put_meta] in Hf.
    destruct (write_content _ _ _ _ _ _ _ _) as [[[]|e] b]; [|done]. cbn [bf_jobs put_bytes] in Hf.
    destruct (enqueue_process_jobs _ _ _ _ _ _ _ _ _ _) as [[[]|e] j]; [|done]. by injection Hf as _ <-.
Qed.

Lemma ownership_ok principal owner blob_id context :
  ownership_decision policy_hooks principal owner blob_id context = Ok tt →
  owner = p_user_id principal ∧ p_user_id principal ≠ EmptyString.
Proof using Type.
  unfold ownership_decision, apply_policy_hooks, decide_baseline, blob_resource. cbn [rc_tenant_id rc_owner_user_id].
  destruct (Str.is_empty (p_user_id principal)) eqn:Eu; [done|]. rewrite String.eqb_refl, andb_false_r.
  destruct (String.eqb_spec owner (p_user_id principal)) as [->|]; [|done]. intros _. split; [done|].
  intros E. by rewrite E in Eu.
Qed.
Lemma resolved_owner rq metadata content hash ru :
  resolve_upload policy_hooks (up_principal rq) metadata (up_query rq) (up_headers rq) (up_blob_id rq) content hash = Ok ru →
  ru_owner_id ru = p_user_id (up_principal rq) ∧ p_user_id (up_principal rq) ≠ EmptyString.
Proof using Type.
  unfold resolve_upload. destruct metadata as [m|].
  - intros [Ho [_ [= <-]]%bind_unit_Ok]%bind_unit_Ok. by apply ownership_ok in Ho.
  - intros (o & _ & [Ho [= <-]]%bind_unit_Ok)%bind_Ok. by apply ownership_ok in Ho.
Qed.

(** The row of an uploaded blob. *)
Definition row_of (rq : UploadRequest) (content : blob) (m : BlobMetadata) : Prop :=
  bm_blob_id m = up_blob_id rq ∧ bm_owner_id m = p_user_id (up_principal rq) ∧ bm_byte_length m = i64_len content
  ∧ (Str.starts_with "sha256-" (bm_content_hash m) = true → bm_content_hash m = content_hash_of content).
Lemma uploaded_row rq content d (f : Files) reply g :
  blobs_ok (bf_meta f) → finish rq (metadata_of rq f) content (mret tt) d f = (Ok reply, g) →
  ∃ m, metadata_of rq g = Some m ∧ row_of rq content m.
Proof using Type.
  intros Hok Hf. apply finish_ok in Hf as (ru & Hr & _ & Hm & _). destruct (resolved_owner _ _ _ _ _ Hr) as [Ho _].
  destruct (metadata_of rq f) as [m|] eqn:Em.
  - exists m. unfold metadata_of in *. rewrite Hm. split; [done|].
    apply read_id in Em as Hid; [|done]. unfold row_of, resolve_upload, validate_blob_content in *.
    apply bind_unit_Ok in Hr as [_ [Hv [= <-]]%bind_unit_Ok]. cbn [ru_owner_id] in Ho. split_and!; [done..| |].
    + destruct (Z.eqb_spec (i64_len content) (bm_byte_length m)); [done|by cbn in Hv].
    + intros Hp. destruct (negb (i64_len content =? bm_byte_length m)); [done|]. rewrite Hp in Hv.
      destruct (String.eqb_spec (bm_content_hash m) (content_hash_of content)); [done|]. by cbn in Hv.
  - unfold Blobs.create in Hm. cbn [bi_blob_id] in Hm.
    assert (∀ row, bf_meta g = <[up_blob_id rq := row]> (bf_meta f) →
              Blobs.in_partition (p_tenant_id (up_principal rq)) (up_app_id rq) row = true → metadata_of rq g = Some row) as Hg.
    { intros row E Hp. unfold metadata_of, Blobs.read. by rewrite E, lookup_insert_eq, Hp. }
    eexists. split.
    + apply Hg.
      * destruct (bf_meta f !! up_blob_id rq) as [owner|]; [destruct (String.eqb _ _); [|done]|]; cbn in Hm; by inversion Hm.
      * unfold Blobs.in_partition. cbn. by rewrite !String.eqb_refl.
    + by split_and!.
Qed.

Lemma reader_allowed grants principal owner blob_id :
  assert_can_read_blob grants principal owner blob_id = Ok tt ↔
  p_user_id principal ≠ EmptyString
  ∧ (owner = p_user_id principal
     ∨ has_active_grant_for_record_id grants (p_tenant_id principal) (p_user_id principal) blob_id = true).
Proof using Type.
  unfold assert_can_read_blob, decide_baseline, blob_resource. cbn [rc_tenant_id rc_owner_user_id].
  rewrite String.eqb_refl, andb_false_r. destruct (p_user_id principal) as [|c u]; cbn [Str.is_empty]; [naive_solver|].
  destruct (String.eqb_spec owner (String c u)) as [->|]; [naive_solver|]. rewrite bool_decide_true by done.
  cbn [andb]. destruct (has_active_grant_for_record_id _ _ _ _); naive_solver.
Qed.
End Uploads.

(** ** Totals *)

Definition bytes_of (rows : list BlobMetadata) : Z := foldr (λ r total, bm_byte_length r + total) 0 rows.
#[local] Instance bytes_of_perm : Proper ((≡ₚ) ==> (=)) bytes_of.
Proof. intros l l' Hp. unfold bytes_of. induction Hp; cbn; lia. Qed.
#[local] Instance select_perm {R} (w : R → bool) : Proper ((≡ₚ) ==> (≡ₚ)) (select w).
Proof.
  intros l l' Hp. unfold select. induction Hp as [|x l l' _ IH|x y l|l1 l2 l3 _ IH1 _ IH2]; cbn; [done| | |by rewrite IH1].
  - destruct (w x); by rewrite IH.
  - destruct (w x), (w y); done || by apply perm_swap.
Qed.

Lemma select_cons {R} (w : R → bool) x l : select w (x :: l) = if w x then x :: select w l else select w l.
Proof. done. Qed.

Lemma total_insert t tenant owner app id row :
  Blobs.owned_by tenant owner app row = true → Blobs.read t tenant id app = None →
  Blobs.total_bytes_for_owner (<[id := row]> t) tenant owner app
  = bm_byte_length row + Blobs.total_bytes_for_owner t tenant owner app.
Proof.
  intros Hr Hn. set (own := Blobs.owned_by tenant owner app) in *.
  change (bytes_of (select own (blob_rows (<[id := row]> t))) = bm_byte_length row + bytes_of (select own (blob_rows t))).
  unfold blob_rows. rewrite <- (insert_delete_eq t id row), map_to_list_insert by apply lookup_delete_eq.
  rewrite fmap_cons, select_cons. cbn [snd]. rewrite Hr. cbn [bytes_of foldr]. f_equal.
  destruct (t !! id) as [old|] eqn:E; [|by rewrite delete_id].
  rewrite <- (insert_delete_id t id old E) at 2. rewrite map_to_list_insert by apply lookup_delete_eq.
  rewrite fmap_cons, select_cons. cbn [snd]. unfold own at 2, Blobs.owned_by. unfold Blobs.read in Hn. rewrite E in Hn.
  by destruct (Blobs.in_partition tenant app old).
Qed.

(** ** The theorems of the upload *)

Section Stored.
Context `{Sha256, CryptoLaws, PackedColumn Value, BlobBytesLaws B}.
Context (limits : BlobLimits) (encryption : option KeyProvider) (constraint_failed : string) (header_ok : string → bool).
Context (policy_hooks : list PolicyHook) (registry : BlobProcessorRegistry (BlobFiles B)).
Local Abbreviation Files := (BlobFiles B).
Local Abbreviation chunk_route := (put_content_chunk limits encryption constraint_failed policy_hooks registry).
Local Abbreviation whole_route := (put_whole limits encryption constraint_failed policy_hooks registry).
Local Abbreviation download := (content_as encryption header_ok).

Lemma download_allowed principal app blob_id (f : Files) m content :
  Blobs.read (bf_meta f) (p_tenant_id principal) blob_id app = Some m →
  read_content encryption (bf_bytes f) (p_tenant_id principal) blob_id app = Ok (Some content) →
  assert_can_read_blob (bf_grants f) principal (bm_owner_id m) (bm_blob_id m) = Ok tt →
  download principal app blob_id f
  = (Ok (blob_bytes_response header_ok (bm_mime_type m) (bm_blob_id m) (bm_content_hash m) None content), f).
Proof using Type. intros Hm Hc Ha. unfold content_as, look. run_M. by rewrite Hc, Hm, Ha. Qed.
Lemma download_refused principal app blob_id (f : Files) m content :
  Blobs.read (bf_meta f) (p_tenant_id principal) blob_id app = Some m →
  read_content encryption (bf_bytes f) (p_tenant_id principal) blob_id app = Ok (Some content) →
  bm_owner_id m ≠ p_user_id principal →
  has_active_grant_for_record_id (bf_grants f) (p_tenant_id principal) (p_user_id principal) (bm_blob_id m) = false →
  ∃ message reason, download principal app blob_id f = (Err (SE_Authorization message reason), f).
Proof using Type.
  intros Hm Hc Ho Hg. unfold content_as, look. run_M. rewrite Hc, Hm.
  assert (∃ message reason, assert_can_read_blob (bf_grants f) principal (bm_owner_id m) (bm_blob_id m)
    = Err (SE_Authorization message reason)) as (message & reason & ->); [|by eauto].
  unfold assert_can_read_blob. rewrite Hg. destruct (decide_baseline _ _ _) as [|reason message] eqn:Ed.
  - unfold decide_baseline, blob_resource in Ed. cbn [rc_tenant_id rc_owner_user_id] in Ed.
    destruct (Str.is_empty _); [done|]. rewrite String.eqb_refl, andb_false_r in Ed.
    by destruct (String.eqb_spec (bm_owner_id m) (p_user_id principal)).
  - rewrite andb_false_r. cbn. eauto.
Qed.

Lemma stored_content rq content d (f : Files) reply g :
  blobs_ok (bf_meta f) → sealing_ok encryption (ud_nonce d) content → whole_route rq content d f = (Ok reply, g) →
  ∃ m, metadata_of rq g = Some m ∧ row_of rq content m
    ∧ download (up_principal rq) (up_app_id rq) (up_blob_id rq) g
      = (Ok (blob_bytes_response header_ok (bm_mime_type m) (up_blob_id rq) (bm_content_hash m) None content), g).
Proof using Type*.
  intros Hok Hs. unfold put_whole, guard_res. destruct (_ <=? _); [|done]. run_M. fold (metadata_of rq f). intros Hf.
  destruct (uploaded_row _ _ _ _ _ _ _ _ _ _ _ Hok Hf) as (m & Hm & Hrow). exists m. split_and!; [done..|].
  apply finish_ok in Hf as (ru & Hr & _ & _ & Hw & _). destruct (resolved_owner _ _ _ _ _ _ Hr) as [_ Hu].
  destruct Hrow as (Hid & Ho & _). rewrite <- Hid at 2. apply download_allowed; [done| |].
  - by eapply content_roundtrip.
  - apply reader_allowed. split; [done|]. by left.
Qed.


(** Who reads a blob: the bytes are returned exactly when the blob is declared in
    the caller's tenant and app, its bytes are stored, and the caller is its owner
    or has a grant on a record of that id that is not revoked; then they are the
    stored bytes. *)
Theorem blob_readers_exact (principal : Principal) (app blob_id : string) (f : Files) (mime id hash : string)
    (etag : option string) (bytes : blob) :
  download principal app blob_id f = (Ok (Blob_bytes mime id hash etag bytes), f) ↔
  ∃ m, Blobs.read (bf_meta f) (p_tenant_id principal) blob_id app = Some m
    ∧ read_content encryption (bf_bytes f) (p_tenant_id principal) blob_id app = Ok (Some bytes)
    ∧ p_user_id principal ≠ EmptyString
    ∧ (bm_owner_id m = p_user_id principal
       ∨ has_active_grant_for_record_id (bf_grants f) (p_tenant_id principal) (p_user_id principal) (bm_blob_id m) = true)
    ∧ mime = bm_mime_type m ∧ id = bm_blob_id m ∧ hash = bm_content_hash m ∧ etag = None
    ∧ header_ok mime = true ∧ header_ok id = true ∧ header_ok hash = true.
Proof using Type.
  assert (∀ m content,
    blob_bytes_response header_ok (bm_mime_type m) (bm_blob_id m) (bm_content_hash m) None content
      = Blob_bytes mime id hash etag bytes
    ↔ content = bytes ∧ mime = bm_mime_type m ∧ id = bm_blob_id m ∧ hash = bm_content_hash m ∧ etag = None
      ∧ header_ok mime = true ∧ header_ok id = true ∧ header_ok hash = true) as Hb.
  { intros m content. unfold blob_bytes_response. rewrite andb_true_r.
    destruct (header_ok (bm_mime_type m)) eqn:E1, (header_ok (bm_blob_id m)) eqn:E2, (header_ok (bm_content_hash m)) eqn:E3;
      cbn [andb]; naive_solver congruence. }
  assert (∀ r : result ServerError BlobReply, (∀ reply, r = Ok reply → ∃ code, reply = blob_not_found code) → ∀ P : Prop, ¬ P →
    (r, f) = (Ok (Blob_bytes mime id hash etag bytes), f) ↔ P) as Hno.
  { intros r Hr P HP. split; [|done]. intros [= E]. by destruct (Hr _ E). }
  unfold content_as, look. run_M. destruct (read_content _ _ _ _ _) as [[content|]|e].
  - destruct (Blobs.read _ _ _ _) as [m|].
    2: { apply Hno; [|by intros (m & ? & _)]. intros reply [= <-]. by eexists. }
    destruct (assert_can_read_blob _ _ _ _) as [[]|e] eqn:Ea.
    + apply reader_allowed in Ea as [Hu Ho]. split.
      * intros E. injection E as E. apply Hb in E as (<- & E). by exists m.
      * intros (m' & [= <-] & [= <-] & _ & _ & Hr). do 2 f_equal. by apply Hb.
    + split; [done|]. intros (m' & [= <-] & _ & Hu & Ho & _).
      by rewrite (proj2 (reader_allowed _ _ _ _) (conj Hu Ho)) in Ea.
  - destruct (Blobs.read _ _ _ _); (apply Hno; [|by intros (m' & _ & ? & _)]); intros reply [= <-]; by eexists.
  - apply Hno; [done|]. by intros (m & _ & ? & _).
Qed.

(** The quota holds: after a whole upload that succeeded under a configured quota,
    the bytes its owner has declared in the app and tenant are within the quota,
    as long as they were not negative and no sum leaves [i64]. *)
Theorem quota_kept (rq : UploadRequest) (content : blob) (d : UploadDraws) (f : Files) (reply : BlobReply) (g : Files) :
  let tenant := p_tenant_id (up_principal rq) in
  let owner := p_user_id (up_principal rq) in
  let used := Blobs.total_bytes_for_owner (bf_meta f) tenant owner (up_app_id rq) in
  quota_configured (max_blob_bytes_per_principal limits) = true →
  0 ≤ used → used + i64_len content ≤ i64_max → whole_route rq content d f = (Ok reply, g) →
  Blobs.total_bytes_for_owner (bf_meta g) tenant owner (up_app_id rq) ≤ max_blob_bytes_per_principal limits.
Proof using Type.
  cbv zeta. intros Hq Hu Hs. unfold put_whole, guard_res. destruct (_ <=? _); [|done]. run_M. fold (metadata_of rq f). intros Hf.
  apply finish_ok in Hf as (ru & Hr & Hquota & Hm & _). specialize (Hquota Hq).
  destruct (resolved_owner _ _ _ _ _ _ Hr) as [Ho _]. rewrite Ho in *.
  set (used := Blobs.total_bytes_for_owner (bf_meta f) _ _ _) in *.
  assert (0 ≤ i64_len content ≤ i64_max) as Hl by (unfold i64_len, i64_of, i64_max; lia).
  unfold i64_add, i64_sub in Hquota. destruct (metadata_of rq f) as [m|] eqn:Em.
  - rewrite Hm. fold used. unfold resolve_upload, validate_blob_content in Hr.
    apply bind_unit_Ok in Hr as [_ [Hv [= <-]]%bind_unit_Ok]. cbn [ru_existing_byte_length] in Hquota.
    destruct (Z.eqb_spec (i64_len content) (bm_byte_length m)) as [E|]; [|by cbn in Hv]. rewrite <- E in Hquota.
    rewrite (wrap64_id (used - _)), wrap64_id in Hquota by (unfold is_i64, i64_min, i64_max in *; lia). lia.
  - assert (ru_existing_byte_length ru = 0) as E.
    { unfold resolve_upload in Hr. apply bind_Ok in Hr as (o & _ & [_ [= <-]]%bind_unit_Ok). done. }
    rewrite E in Hquota. rewrite (wrap64_id (used - _)), wrap64_id in Hquota by (unfold is_i64, i64_min, i64_max in *; lia).
    unfold Blobs.create in Hm. cbn [bi_blob_id] in Hm.
    assert (∀ row, bf_meta g = <[up_blob_id rq := row]> (bf_meta f) → bm_byte_length row = i64_len content →
      Blobs.owned_by (p_tenant_id (up_principal rq)) (p_user_id (up_principal rq)) (up_app_id rq) row = true →
      Blobs.total_bytes_for_owner (bf_meta g) (p_tenant_id (up_principal rq)) (p_user_id (up_principal rq)) (up_app_id rq)
        ≤ max_blob_bytes_per_principal limits) as Hg.
    { intros row -> Hlen Hown. rewrite total_insert by done. fold used. lia. }
    eapply Hg.
    + destruct (bf_meta f !! up_blob_id rq) as [owner|]; [destruct (String.eqb _ _); [|done]|]; by inversion Hm.
    + done.
    + unfold Blobs.owned_by, Blobs.in_partition. cbn. by rewrite !String.eqb_refl.
Qed.

(** Staged bytes have no owner: whatever bytes are staged for a blob in the tenant
    and by whom, any user of it whose own upload of them with one more chunk would
    be accepted can send that chunk, and then owns the blob and downloads the
    staged bytes. *)
Theorem staged_bytes_adopted (rq : UploadRequest) (chunk : blob) (d : UploadDraws) (f : Files) (reply : BlobReply) (g : Files) :
  let tenant := p_tenant_id (up_principal rq) in
  let staged := read_staged_bytes (bf_derivatives f) tenant (up_blob_id rq) in
  let total := Z.of_nat (length (staged ++ chunk)) in
  validators_apart registry → blobs_ok (bf_meta f) → sealing_ok encryption (ud_nonce d) (staged ++ chunk) →
  total ≤ max_blob_bytes limits → max_blob_bytes limits ≤ i64_max →
  whole_route rq (staged ++ chunk) d (put_derivatives (unstaged tenant (up_blob_id rq) (bf_derivatives f)) f) = (Ok reply, g) →
  chunk_route rq (range_of (Z.of_nat (length staged)) total chunk) chunk d f = (Ok reply, g)
  ∧ ∃ m, download (up_principal rq) (up_app_id rq) (up_blob_id rq) g
      = (Ok (blob_bytes_response header_ok (bm_mime_type m) (up_blob_id rq) (bm_content_hash m) None (staged ++ chunk)), g)
    ∧ bm_owner_id m = p_user_id (up_principal rq).
Proof using Type*.
  cbv zeta. intros Hv Hok Hs Hm Hi Hw. set (staged := read_staged_bytes _ _ _) in *. split.
  - pose proof (last_chunk limits encryption constraint_failed policy_hooks registry rq d
      (put_derivatives (unstaged (p_tenant_id (up_principal rq)) (up_blob_id rq) (bf_derivatives f)) f)
      (bf_derivatives f) staged chunk Hv eq_refl eq_refl Hm Hi) as Hl. cbv zeta in Hl.
    rewrite Hw in Hl. cbn [fst snd is_ok] in Hl. destruct Hl as [Hl1 Hl2]. specialize (Hl2 I).
    assert (put_derivatives (bf_derivatives f)
      (put_derivatives (unstaged (p_tenant_id (up_principal rq)) (up_blob_id rq) (bf_derivatives f)) f) = f) as E by by destruct f.
    rewrite E in *. by destruct (chunk_route _ _ _ _ _); simpl in *; subst.
  - apply stored_content in Hw as (m & _ & Hrow & Hd); [|done..]. exists m. split; [done|]. apply Hrow.
Qed.

(** The offset probe misleads the owner of a declared blob: with bytes staged for
    it, the probe answers 0, and a chunk from offset 0 is refused as a conflict. *)
Theorem declared_offset_refused (rq : UploadRequest) (m : BlobMetadata) (total : Z) (chunk : blob) (d : UploadDraws) (f : Files) :
  metadata_of rq f = Some m →
  ownership_decision policy_hooks (up_principal rq) (bm_owner_id m) (Some (up_blob_id rq)) None = Ok tt →
  read_staged_bytes (bf_derivatives f) (p_tenant_id (up_principal rq)) (up_blob_id rq) ≠ [] →
  total ≤ max_blob_bytes limits →
  head_as policy_hooks (up_principal rq) (up_app_id rq) (up_blob_id rq) f = (Ok (Upload_offset 0), f)
  ∧ ∃ detail, chunk_route rq (range_of 0 total chunk) chunk d f = (Err (SE_StorageConflict detail), f).
Proof using Type.
  intros Hm Ho Hs Ht. unfold metadata_of in Hm. split.
  - unfold head_as. run_M. by rewrite Hm, Ho.
  - unfold put_content_chunk, guard_res, range_of. cbn [rg_start rg_end rg_total]. run_M.
    rewrite (proj2 (Z.eqb_eq (Z.of_nat (length chunk)) _)) by lia.
    rewrite (proj2 (Z.leb_le (i64_of total) _)) by (unfold i64_of; lia). rewrite Hm. cbn [resolve_chunk_owner]. rewrite Ho.
    destruct (read_staged_bytes _ _ _) as [|b staged]; [done|]. eexists. done.
Qed.

(** C40: A declaration takes over a blob: it is checked against the owner it names and
    not against the owner the blob has, so that a user who may not read a blob of
    the tenant declares it again as its own and then downloads its bytes. *)
Theorem redeclared_blob_read (from_slice : string → result string Value) (principal : Principal)
    (app blob_id body hash mime : string) (len now : Z) (m : BlobMetadata) (content : blob) (f : Files) :
  Blobs.read (bf_meta f) (p_tenant_id principal) blob_id app = Some m → blobs_ok (bf_meta f) →
  read_content encryption (bf_bytes f) (p_tenant_id principal) blob_id app = Ok (Some content) →
  bm_owner_id m ≠ p_user_id principal →
  has_active_grant_for_record_id (bf_grants f) (p_tenant_id principal) (p_user_id principal) blob_id = false →
  p_user_id principal ≠ EmptyString → blob_id ≠ EmptyString → hash ≠ EmptyString → mime ≠ EmptyString → is_i64 len →
  policy_hooks = [] →
  parse_body_value from_slice body
  = Ok (VMap [(VStr "blobId", VStr blob_id); (VStr "byteLength", VInt len); (VStr "contentHash", VStr hash);
              (VStr "mimeType", VStr mime); (VStr "ownerId", VStr (p_user_id principal))]) →
  (∃ message reason, download principal app blob_id f = (Err (SE_Authorization message reason), f))
  ∧ ∃ reply g, declare_as from_slice policy_hooks principal app body now f = (Ok reply, g)
    ∧ download principal app blob_id g = (Ok (blob_bytes_response header_ok mime blob_id hash None content), g).
Proof using Type.
  intros Hm Hok Hc Ho Hg Hu Hid Hh Hmi Hl Hooks Hb. pose proof (read_id _ _ _ _ _ Hok Hm) as Hbm. split.
  { eapply download_refused; [done..|by rewrite Hbm]. }
  unfold declare_as. run_M. rewrite Hb. rewrite (require_string_ok _ "ownerId" _ (p_user_id principal)) by done.
  assert (∀ context, ownership_decision policy_hooks principal (p_user_id principal) None context = Ok tt) as Hown.
  { intros context. unfold ownership_decision, decide_baseline, blob_resource. rewrite Hooks. cbn [rc_tenant_id rc_owner_user_id].
    rewrite !String.eqb_refl, andb_false_r. by destruct (p_user_id principal). }
  rewrite Hown, (require_string_ok _ "blobId" _ blob_id), (require_string_ok _ "contentHash" _ hash) by done.
  assert (require_number (VMap [(VStr "blobId", VStr blob_id); (VStr "byteLength", VInt len); (VStr "contentHash", VStr hash);
     (VStr "mimeType", VStr mime); (VStr "ownerId", VStr (p_user_id principal))]) "byteLength" "byteLength" = Ok len) as ->.
  { unfold require_number. cbn [field map_get]. cbn. unfold Env.as_i64. destruct Hl as [Hl1%Z.leb_le Hl2%Z.leb_le]. by rewrite Hl1, Hl2. }
  rewrite (require_string_ok _ "mimeType" _ mime) by done.
  unfold on, Blobs.create. cbn [bi_blob_id]. unfold Blobs.read in Hm. destruct (bf_meta f !! blob_id) as [old|] eqn:E; [|done].
  destruct (Blobs.in_partition _ _ old) eqn:Ep; [|done]. unfold Blobs.in_partition in Ep. apply andb_true_iff in Ep as [-> _].
  eexists _, _. split; [done|]. etrans; [eapply download_allowed|].
  - cbn [bf_meta put_meta]. unfold Blobs.read. rewrite lookup_insert_eq. unfold Blobs.in_partition. cbn.
    by rewrite !String.eqb_refl.
  - exact Hc.
  - apply reader_allowed. split; [done|]. by left.
  - done.
Qed.
End Stored.

(** ** The [blob.process] job *)

Section Jobs.
Context `{Sha256, Crypto, BlobBytes B} (encryption : option KeyProvider) (to_json : Value → result string string).
Context (json : string → option Value).
Local Abbreviation Files := (BlobFiles B).
Local Abbreviation persist := (persist_derivatives to_json).

Lemma record_derivative_insert (input : DerivativeRecordInput) (now : Z) (t : DerivativeTable) :
  ∃ row, record_derivative input now t
      = (Ok tt, <[(di_tenant_id input, di_parent_blob_id input, di_derivative_id input) := row]> t)
    ∧ dv_content row = di_content input ∧ dv_mime_type row = di_mime_type input
    ∧ dv_processor_id row = di_processor_id input ∧ dv_content_hash row = content_hash_of (di_content input).
Proof using Type. by eexists. Qed.

(** What a stored derivative answers a reader. *)
Definition derived (t : DerivativeTable) (tenant blob_id processor_id : string) (d : BlobDerivative) : Prop :=
  ∃ result, read_derivative json t blob_id (bd_derivative_id d) tenant = Some result
    ∧ rr_bytes result = bd_bytes d ∧ dw_mime_type (rr_row result) = bd_mime_type d
    ∧ dw_processor_id (rr_row result) = processor_id ∧ dw_content_hash (rr_row result) = content_hash_of (bd_bytes d).

Lemma persist_spec (tenant blob_id processor_id : string) (now : Z) (ds : list BlobDerivative) : ∀ (f : Files),
  NoDup (bd_derivative_id <$> ds) → Forall (λ d, ∀ v, bd_metadata d = Some v → is_ok (to_json v)) ds →
  ∃ t, persist tenant blob_id processor_id ds now f = (Ok tt, put_derivatives t f)
    ∧ Forall (derived t tenant blob_id processor_id) ds
    ∧ (∀ tenant' parent id, (tenant', parent) ≠ (tenant, blob_id) ∨ id ∉ bd_derivative_id <$> ds →
         t !! (tenant', parent, id) = bf_derivatives f !! (tenant', parent, id)).
Proof using Type.
  induction ds as [|d ds IH]; intros f Hn Hj; cbn [persist_derivatives].
  - exists (bf_derivatives f). run_M. by destruct f.
  - apply NoDup_cons in Hn as [Hd Hn]. apply Forall_cons in Hj as [Hj Hjs]. run_M.
    assert (∃ text, match bd_metadata d with
                    | Some metadata => match to_json metadata with
                                       | Ok json => Ok (Some json)
                                       | Err error => Err (fatal_error "blob.processorError" error)
                                       end
                    | None => Ok None
                    end = Ok text) as [text ->].
    { destruct (bd_metadata d) as [v|]; [|by eexists]. specialize (Hj v eq_refl). destruct (to_json v); [by eexists|done]. }
    set (input := {| di_parent_blob_id := blob_id; di_metadata_json := text |}).
    destruct (record_derivative_insert input now (bf_derivatives f)) as (row & Ei & Hc & Hm & Hp & Hh). rewrite Ei.
    cbn [input di_parent_blob_id di_derivative_id di_tenant_id di_content di_mime_type di_processor_id] in Hc, Hm, Hp, Hh |- *.
    destruct (IH (put_derivatives (<[(tenant, blob_id, bd_derivative_id d) := row]> (bf_derivatives f)) f) Hn Hjs)
      as (t & -> & Hds & Ho).
    exists t. split_and!; [done| |].
    + constructor; [|done]. unfold derived, read_derivative. rewrite Ho by auto. cbn [bf_derivatives put_derivatives].
      rewrite lookup_insert_eq. by eexists.
    + intros tenant' parent id Hne. rewrite Ho by set_solver. cbn [bf_derivatives put_derivatives].
      apply lookup_insert_ne. intros [= <- <- <-]. set_solver.
Qed.

(** A processing job leaves what its processor derived: for a blob of the default
    app whose processor succeeds with distinct derivatives, the job completes with
    their number, each derivative can then be read back under its id with its
    bytes, type, processor and hash, and no other derivative of any blob has
    changed since the processor ran. *)
Theorem blob_job_derives (registry : BlobProcessorRegistry Files) (tenant : string) (payload : BlobProcessPayload)
    (processor : BlobProcessor Files) (m : BlobMetadata) (now : Z) (f f1 : Files) (outcome : BlobProcessOutcome) :
  let blob_id := bpp_blob_id payload in
  bpp_blob_id payload ≠ EmptyString → bpp_processor_id payload ≠ EmptyString →
  registry_ok registry → processor ∈ processors registry → bp_id processor = bpp_processor_id payload →
  bp_has_process processor = true →
  Blobs.read (bf_meta f) tenant blob_id DEFAULT_APP_ID = Some m →
  bp_process processor
    {| pc_tenant_id := tenant; pc_blob_id := blob_id; pc_owner_id := bm_owner_id m; pc_mime_type := bm_mime_type m;
       pc_byte_length := bm_byte_length m; pc_content_path := default (bm_blob_id m) (bm_storage_key m) |} f
    = (Ok outcome, f1) →
  NoDup (bd_derivative_id <$> derivatives outcome) →
  Forall (λ d, ∀ v, bd_metadata d = Some v → is_ok (to_json v)) (derivatives outcome) →
  ∃ t, run_blob_job to_json registry tenant (encode_blob_process_payload payload) now f
      = (Ok (job_result (length (derivatives outcome))), put_derivatives t f1)
    ∧ Forall (derived t tenant blob_id (bpp_processor_id payload)) (derivatives outcome)
    ∧ (∀ tenant' parent id, (tenant', parent) ≠ (tenant, blob_id) ∨ id ∉ bd_derivative_id <$> derivatives outcome →
         t !! (tenant', parent, id) = bf_derivatives f1 !! (tenant', parent, id)).
Proof using Type.
  cbv zeta. intros Hb Hp Hreg Hin Hid Hhas Hm Hrun Hn Hj.
  destruct (persist_spec tenant (bpp_blob_id payload) (bpp_processor_id payload) now _ f1 Hn Hj) as (t & Ht & Hd & Ho).
  exists t. split_and!; [|done..]. unfold run_blob_job. rewrite payload_roundtrip by done. run_M.
  rewrite <- Hid at 1. rewrite resolve_spec by done. cbn [ok_or]. rewrite Hhas. cbn [negb]. rewrite Hm. cbn [ok_or].
  rewrite Hrun. by rewrite Ht.
Qed.

(** The jobs of a named app cannot run: for a blob of any other app, the job its
    upload enqueued fails for good with [blob.notFound], whatever its processor,
    and nothing is derived. *)
Theorem named_app_job_fails (registry : BlobProcessorRegistry Files) (tenant app blob_id hash : string)
    (processor : BlobProcessor Files) (m : BlobMetadata) (now : Z) (f : Files) :
  registry_ok registry → processor ∈ processors registry → bp_has_process processor = true →
  bp_id processor ≠ EmptyString → blob_id ≠ EmptyString →
  Blobs.read (bf_meta f) tenant blob_id app = Some m → app ≠ DEFAULT_APP_ID →
  ∃ message, run_blob_job to_json registry tenant (en_payload (process_job tenant app blob_id hash processor)) now f
    = (Err (fatal_error "blob.notFound" message), f).
Proof using Type.
  intros Hreg Hin Hhas Hp Hb Hm Happ. unfold run_blob_job, process_job. cbn [en_payload]. rewrite payload_roundtrip by done.
  run_M. cbn [bpp_processor_id bpp_blob_id]. rewrite resolve_spec by done. cbn [ok_or]. rewrite Hhas. cbn [negb].
  assert (Blobs.read (bf_meta f) tenant blob_id DEFAULT_APP_ID = None) as ->; [|by eexists].
  unfold Blobs.read in *. destruct (bf_meta f !! blob_id) as [r|]; [|done]. unfold Blobs.in_partition in *.
  destruct (String.eqb_spec (bm_app_id r) app) as [E|]; [|done].
  by destruct (String.eqb_spec (bm_app_id r) DEFAULT_APP_ID) as [E'|]; [congruence|].
Qed.
End Jobs.

(** ** Concrete runs *)

Import ToyCrypto ToyPacked.
#[local] Existing Instances SampleBlobs.digest SampleBlobs.digest_laws.

(** A tenant with two users, a size validator and a processor that keeps the first
    byte, under a quota of 50 bytes. *)
Module SampleUploads.
(** Maps of two texts. *)
Definition encode_pair (v : Value) : result StoreError blob :=
  match v with
  | VMap [(VStr k, VStr a); (VStr l, VStr b)] => Ok (130 :: enc_str k ++ enc_str a ++ enc_str l ++ enc_str b)
  | _ => Err (Driver "packed encode: unsupported")
  end.
Definition decode_pair (b : blob) : result StoreError Value :=
  match b with
  | 130 :: b =>
      ok_or ('(k, b) ← dec_str b; '(a, b) ← dec_str b; '(l, b) ← dec_str b; '(c, _) ← dec_str b;
             Some (VMap [(VStr k, VStr a); (VStr l, VStr c)])) (Driver "packed decode")
  | _ => Err (Driver "packed decode")
  end.
Lemma decode_encode_pair k a l b :
  decode_pair (130 :: enc_str k ++ enc_str a ++ enc_str l ++ enc_str b) = Ok (VMap [(VStr k, VStr a); (VStr l, VStr b)]).
Proof.
  cbv beta iota delta [decode_pair]. do 3 (rewrite dec_enc_str; cbn [mbind option_bind]).
  rewrite <- (app_nil_r (enc_str _)). by rewrite dec_enc_str.
Qed.
#[export, refine] Instance pairs : PackedColumn Value := {| encode_packed := encode_pair; decode_packed := decode_pair |}.
Proof.
  intros v b. unfold encode_pair. repeat (case_match; try discriminate). intros E. injection E as <-. apply decode_encode_pair.
Defined.
Definition user (id : string) : Principal :=
  {| p_user_id := id; p_device_id := "d"; p_replica_id := "r"; p_tenant_id := "t1"; p_scope := Scope_Tenant;
     p_service_scopes := [] |}.
Local Abbreviation Files := (BlobFiles SqlBlobBytesDriver).
Definition limits : BlobLimits := {| max_blob_bytes := 100; max_blob_bytes_per_principal := 50 |}.
Definition head_byte : BlobProcessor Files :=
  {| bp_id := "head"; bp_matches := match_any; bp_has_validate := false; bp_has_process := true;
     bp_validate := validate_default;
     bp_process ctx := mret {| derivatives := [{| bd_derivative_id := "first"; bd_mime_type := "text/plain";
                                                   bd_bytes := [1]; bd_metadata := None |}] |} |}.
Definition registry : BlobProcessorRegistry Files :=
  (Registry.register head_byte
     (Registry.register (mime_size_validator MimeSizeValidatorOptions_default) Registry.new).2).2.
Definition empty : Files :=
  {| bf_meta := ∅; bf_derivatives := ∅; bf_bytes := SampleBlobs.content; bf_jobs := {| jobs := []; job_seq := 0 |};
     bf_grants := [] |}.
Definition draws : UploadDraws := {| ud_nonce := nonce; ud_job_nonce := λ _, nonce |}.
Definition request (who app id : string) : UploadRequest :=
  {| up_principal := user who; up_app_id := app; up_blob_id := id; up_query := Some ("ownerId=" +:+ who);
     up_headers := ∅; up_now := 1000 |}.
Definition whole (who app id : string) (content : blob) : M Files ServerError BlobReply :=
  put_whole limits enc "UNIQUE" [] registry (request who app id) content draws.
Definition chunk (who id : string) (offset total : Z) (bytes : blob) : M Files ServerError BlobReply :=
  put_content_chunk limits enc "UNIQUE" [] registry (request who "_default" id) (range_of offset total bytes) bytes draws.
Definition get (who id : string) : M Files ServerError BlobReply :=
  content_as enc (λ _, true) (user who) "_default" id.

(** A declaration, as its body parses. *)
Definition body_value (id who hash mime : string) (len : Z) : Value :=
  VMap [(VStr "blobId", VStr id); (VStr "byteLength", VInt len); (VStr "contentHash", VStr hash);
        (VStr "mimeType", VStr mime); (VStr "ownerId", VStr who)].
Definition declare (who id : string) (len : Z) : M Files ServerError BlobReply :=
  declare_as (λ _, Ok (body_value id who "h" "text/plain" len)) [] (user who) "_default" "{}" 1000.

Definition stored : Files := (whole "alice" "_default" "b1" [1; 2; 3; 4; 5] empty).2.
Definition staged : Files := (chunk "alice" "b2" 0 4 [1; 2; 3] empty).2.
Definition declared : Files := (chunk "alice" "b2" 0 4 [1; 2; 3] (declare "alice" "b2" 4 empty).2).2.
Definition named : Files := (whole "alice" "chat" "b1" [1; 2; 3; 4; 5] empty).2.

Lemma apart : validators_apart registry.
Proof. intros p ctx f t. cbn. by intros [->|[->|?%elem_of_nil]%elem_of_cons]%elem_of_cons. Qed.
Lemma registered : registry_ok registry.
Proof. apply processor_registered, processor_registered. split; [constructor|]. set_solver. Qed.
Lemma head_registered : head_byte ∈ processors registry.
Proof. cbn. apply elem_of_cons. right. by apply list_elem_of_singleton. Qed.
Lemma stored_ok : blobs_ok (bf_meta stored).
Proof. refine (bool_decide_unpack (map_Forall (λ k r, bm_blob_id r = k) (bf_meta stored)) _). by vm_compute. Qed.
Lemma whole_stored : whole "alice" "_default" "b1" [1; 2; 3; 4; 5] empty
  = (Ok (uploaded 201 "b1" 5 (content_hash_of [1; 2; 3; 4; 5])), stored).
Proof. by vm_compute. Qed.
End SampleUploads.
Import SampleUploads.

Lemma chunks_as_whole_witness :
  (send_chunks limits enc "UNIQUE" [] registry (request "alice" "_default" "b1") draws 5 0 1000 [1; 2] [(1000, [3]); (1000, [4; 5])] empty).1
  = (whole "alice" "_default" "b1" [1; 2; 3; 4; 5] empty).1
  ∧ is_ok (whole "alice" "_default" "b1" [1; 2; 3; 4; 5] empty).1.
Proof.
  split; [|by vm_compute].
  refine (proj1 (chunks_as_whole limits enc "UNIQUE" [] registry (request "alice" "_default" "b1") draws empty 1000 [1; 2]
    [(1000, [3]); (1000, [4; 5])] SampleUploads.apart _ _ _ _)); [by vm_compute|by repeat constructor|by vm_compute..].
Defined.


Lemma quota_kept_witness :
  Blobs.total_bytes_for_owner (bf_meta stored) "t1" "alice" "_default" ≤ 50.
Proof.
  refine (quota_kept limits enc "UNIQUE" [] registry (request "alice" "_default" "b1") [1; 2; 3; 4; 5] draws empty _ stored
    _ _ _ whole_stored); vm_compute; congruence.
Defined.

Lemma staged_bytes_adopted_witness :
  ∃ reply g m, chunk "mallory" "b2" 3 4 [9] staged = (Ok reply, g)
    ∧ (get "mallory" "b2" g).1 = Ok (Blob_bytes (bm_mime_type m) "b2" (bm_content_hash m) None [1; 2; 3; 9]).
Proof.
  destruct (staged_bytes_adopted limits enc "UNIQUE" (λ _, true) [] registry (request "mallory" "_default" "b2") [9] draws
    staged (uploaded 201 "b2" 4 (content_hash_of [1; 2; 3; 9]))
    (whole "mallory" "_default" "b2" [1; 2; 3; 9] empty).2 SampleUploads.apart ltac:(done)
    ltac:(by intros e [= <-]; vm_compute) ltac:(by vm_compute) ltac:(by vm_compute) ltac:(by vm_compute))
    as (E & m & Ed & _).
  eexists _, _, m. split; [exact E|]. exact (f_equal fst Ed).
Defined.

Lemma declared_offset_refused_witness :
  head_as [] (user "alice") "_default" "b2" declared = (Ok (Upload_offset 0), declared)
  ∧ (chunk "alice" "b2" 3 4 [4] declared).1 = Ok (uploaded 200 "b2" 4 "h").
Proof.
  split; [|by vm_compute].
  destruct (metadata_of (request "alice" "_default" "b2") declared) as [m|] eqn:E; [|by vm_compute in E].
  refine (proj1 (declared_offset_refused limits enc "UNIQUE" [] registry (request "alice" "_default" "b2") m 4 [4] draws
    declared E _ _ _)); [|by vm_compute..].
  vm_compute in E. injection E as <-. by vm_compute.
Defined.

Lemma redeclared_blob_read_witness :
  ∃ reply g, declare "mallory" "b1" 5 stored = (Ok reply, g)
    ∧ (get "mallory" "b1" g).1 = Ok (Blob_bytes "text/plain" "b1" "h" None [1; 2; 3; 4; 5]).
Proof.
  destruct (Blobs.read (bf_meta stored) "t1" "b1" "_default") as [m|] eqn:E; [|by vm_compute in E].
  destruct (redeclared_blob_read enc (λ _, true) [] (λ _, Ok (body_value "b1" "mallory" "h" "text/plain" 5)) (user "mallory")
    "_default" "b1" "{}" "h" "text/plain" 5 1000 m [1; 2; 3; 4; 5] stored E) as [_ (reply & g & Ed & Eg)].
  - exact stored_ok.
  - by vm_compute.
  - vm_compute in E. by injection E as <-.
  - by vm_compute.
  - done.
  - done.
  - done.
  - done.
  - by vm_compute.
  - done.
  - done.
  - exists reply, g. split; [exact Ed|]. exact (f_equal fst Eg).
Defined.

Lemma blob_job_derives_witness :
  ∃ g, run_blob_job (λ _, Err "no json") registry "t1"
         (encode_blob_process_payload {| bpp_blob_id := "b1"; bpp_processor_id := "head" |}) 2000 stored
       = (Ok (job_result 1), g).
Proof.
  destruct (Blobs.read (bf_meta stored) "t1" "b1" "_default") as [m|] eqn:E; [|by vm_compute in E].
  destruct (blob_job_derives (λ _, Err "no json") (λ _, None) registry "t1"
    {| bpp_blob_id := "b1"; bpp_processor_id := "head" |} head_byte m 2000 stored stored
    {| derivatives := [{| bd_derivative_id := "first"; bd_mime_type := "text/plain"; bd_bytes := [1]; bd_metadata := None |}] |}
    ltac:(done) ltac:(done) registered head_registered ltac:(done) ltac:(done) E ltac:(done)
    ltac:(apply NoDup_singleton) ltac:(by repeat constructor)) as (t & Ht & _).
  by eexists.
Defined.

Lemma named_app_job_fails_witness :
  ∃ message, (run_blob_job (λ _, Err "no json") registry "t1"
    (en_payload (process_job "t1" "chat" "b1" "h" head_byte)) 2000 named).1 = Err (fatal_error "blob.notFound" message).
Proof.
  destruct (Blobs.read (bf_meta named) "t1" "b1" "chat") as [m|] eqn:E; [|by vm_compute in E].
  destruct (named_app_job_fails (λ _, Err "no json") registry "t1" "chat" "b1" "h" head_byte m 2000 named registered
    head_registered ltac:(done) ltac:(done) ltac:(done) E ltac:(done)) as [message Hj].
  exists message. by rewrite Hj.
Defined.

(** A declared length is not checked: declaring a negative one makes room for an
    upload beyond the quota. *)
Lemma negative_length_lifts_quota :
  ¬ is_ok (whole "alice" "_default" "b3" (replicate 60 7) empty).1
  ∧ is_ok (whole "alice" "_default" "b3" (replicate 60 7) (declare "alice" "b4" (-1000) empty).2).1.
Proof. split; [by vm_compute; intros []|by vm_compute]. Qed.
