(* ===== verification/Push.v ===== *)
(** * Push notifications ([frick-store/src/stores/push_registration.rs],
      [frick-server/src/push/types.rs], [registry.rs], [router.rs],
      [test_adapter.rs] and [routes/push.rs])

    The registrations of devices with their sealed tokens, the routes that make and
    revoke them, and the router that fans a notification out to them in a
    [push.deliver] job. An adapter is a record over what its [send] answers; the
    platforms' services, JSON and at-rest crypto are parameters. The clock is read
    once per request or job. *)

From Stdlib Require Import ZArith Lia Ascii String.
From stdpp Require Import base gmap strings list sorting pretty.
From S2P Require Import Prelude Value Schema Timestamp Text StoreBase Encryption Samples IdempotencyCache JobStore Authz ServerErrors Sessions Sharing Cluster BlobStore BlobProcessors.

(** ** Registrations *)

Inductive PushPlatform : Type := Apns | ApnsVoip | Fcm | WebPush | Platform_Test.
#[export] Instance PushPlatform_eq_dec : EqDecision PushPlatform.
Proof. solve_decision. Defined.
Definition PushPlatform_as_str (p : PushPlatform) : string :=
  match p with Apns => "apns" | ApnsVoip => "apnsVoip" | Fcm => "fcm" | WebPush => "webPush" | Platform_Test => "test" end.
Definition PUSH_PLATFORMS : list PushPlatform := [Apns; ApnsVoip; Fcm; WebPush; Platform_Test].
Definition PushPlatform_parse (value : string) : option PushPlatform :=
  if String.eqb value "apns" then Some Apns
  else if String.eqb value "apnsVoip" then Some ApnsVoip
  else if String.eqb value "fcm" then Some Fcm
  else if String.eqb value "webPush" then Some WebPush
  else if String.eqb value "test" then Some Platform_Test
  else None.

Inductive PushEnvironment : Type := Production | Sandbox.
Definition PushEnvironment_as_str (e : PushEnvironment) : string :=
  match e with Production => "production" | Sandbox => "sandbox" end.
Definition from_column (value : string) : PushEnvironment := if String.eqb value "sandbox" then Sandbox else Production.

Record PushDeviceRegistration : Type := {
  pd_registration_id : string; pd_tenant_id : string; pd_user_id : string; pd_device_id : string;
  pd_platform : PushPlatform; pd_token : string; pd_environment : PushEnvironment; pd_created_at : string;
  pd_last_seen_at : string; pd_revoked_at : option string;
}.
Record PushRegistrationInput : Type := {
  pn_tenant_id : string; pn_user_id : string; pn_device_id : string; pn_platform : PushPlatform; pn_token : string;
  pn_environment : PushEnvironment;
}.

(** The columns. *)
Record PushRow : Type := {
  px_registration_id : string; px_tenant_id : string; px_user_id : string; px_device_id : string; px_platform : string;
  px_token : string; px_environment : string; px_created_at : string; px_last_seen_at : string;
  px_revoked_at : option string;
}.
(** Rows, with the primary key [registration_id] and the unique index on tenant,
    user, device and platform of the rows that are not revoked. *)
Definition PushTable : Type := list PushRow.
Definition active (r : PushRow) : bool := bool_decide (px_revoked_at r = None).

Definition with_token (token environment now : string) (r : PushRow) : PushRow :=
  {| px_registration_id := px_registration_id r; px_tenant_id := px_tenant_id r; px_user_id := px_user_id r;
     px_device_id := px_device_id r; px_platform := px_platform r; px_token := token; px_environment := environment;
     px_created_at := px_created_at r; px_last_seen_at := now; px_revoked_at := px_revoked_at r |}.
Definition with_seen (now : string) (r : PushRow) : PushRow :=
  {| px_registration_id := px_registration_id r; px_tenant_id := px_tenant_id r; px_user_id := px_user_id r;
     px_device_id := px_device_id r; px_platform := px_platform r; px_token := px_token r;
     px_environment := px_environment r; px_created_at := px_created_at r; px_last_seen_at := now;
     px_revoked_at := px_revoked_at r |}.
Definition with_revoked (now : string) (r : PushRow) : PushRow :=
  {| px_registration_id := px_registration_id r; px_tenant_id := px_tenant_id r; px_user_id := px_user_id r;
     px_device_id := px_device_id r; px_platform := px_platform r; px_token := px_token r;
     px_environment := px_environment r; px_created_at := px_created_at r; px_last_seen_at := px_last_seen_at r;
     px_revoked_at := Some now |}.

Definition map_row (r : PushRow) : PushDeviceRegistration :=
  {| pd_registration_id := px_registration_id r; pd_tenant_id := px_tenant_id r; pd_user_id := px_user_id r;
     pd_device_id := px_device_id r; pd_platform := default Platform_Test (PushPlatform_parse (px_platform r));
     pd_token := px_token r; pd_environment := from_column (px_environment r); pd_created_at := px_created_at r;
     pd_last_seen_at := px_last_seen_at r;
     pd_revoked_at := at_ ← px_revoked_at r; if Str.is_empty at_ then None else Some at_ |}.
Definition opened (token : string) (p : PushDeviceRegistration) : PushDeviceRegistration :=
  {| pd_registration_id := pd_registration_id p; pd_tenant_id := pd_tenant_id p; pd_user_id := pd_user_id p;
     pd_device_id := pd_device_id p; pd_platform := pd_platform p; pd_token := token;
     pd_environment := pd_environment p; pd_created_at := pd_created_at p; pd_last_seen_at := pd_last_seen_at p;
     pd_revoked_at := pd_revoked_at p |}.

Module Registrations.
Section Store.
Context `{Crypto} (encryption : option KeyProvider) (constraint_failed : string).

Definition seal_token (nonce : blob) (tenant_id token : string) : result StoreError string :=
  match encryption with Some e => encrypt_text e nonce tenant_id token | None => Ok token end.
Definition map_row_opened (r : PushRow) : result StoreError PushDeviceRegistration :=
  match encryption with
  | Some e => token ← decrypt_text e (px_tenant_id r) (px_token r); Ok (opened token (map_row r))
  | None => Ok (map_row r)
  end.
(** [row.map(map_row_opened).transpose()]. *)
Definition transposed (r : option PushRow) : result StoreError (option PushDeviceRegistration) :=
  match r with Some r => p ← map_row_opened r; Ok (Some p) | None => Ok None end.

Definition is_device (tenant_id user_id device_id platform : string) (r : PushRow) : bool :=
  String.eqb (px_tenant_id r) tenant_id && String.eqb (px_user_id r) user_id
  && String.eqb (px_device_id r) device_id && String.eqb (px_platform r) platform && active r.
Definition find_active (t : PushTable) (tenant_id user_id device_id : string) (platform : PushPlatform) :
    result StoreError (option PushDeviceRegistration) :=
  transposed (list.head (select (is_device tenant_id user_id device_id (PushPlatform_as_str platform)) t)).

Definition fresh_row (input : PushRegistrationInput) (stored id now : string) : PushRow :=
  {| px_registration_id := id; px_tenant_id := pn_tenant_id input; px_user_id := pn_user_id input;
     px_device_id := pn_device_id input; px_platform := PushPlatform_as_str (pn_platform input); px_token := stored;
     px_environment := PushEnvironment_as_str (pn_environment input); px_created_at := now; px_last_seen_at := now;
     px_revoked_at := None |}.
Definition insert_row (row : PushRow) : M PushTable StoreError unit := λ t,
  if existsb (λ r, String.eqb (px_registration_id r) (px_registration_id row)
                   || is_device (px_tenant_id row) (px_user_id row) (px_device_id row) (px_platform row) r) t
  then (Err (Driver constraint_failed), t)
  else (Ok tt, t ++ [row]).

Definition register (nonce : blob) (input : PushRegistrationInput) (new_registration_id : string) (now_ms : Z) :
    M PushTable StoreError PushDeviceRegistration :=
  t ← get_state;
  existing ← lift_res (find_active t (pn_tenant_id input) (pn_user_id input) (pn_device_id input) (pn_platform input));
  let now := iso_from_epoch_ms now_ms in
  stored ← lift_res (seal_token nonce (pn_tenant_id input) (pn_token input));
  match existing with
  | Some existing =>
      put_state (update_where (λ r, String.eqb (px_registration_id r) (pd_registration_id existing))
                   (with_token stored (PushEnvironment_as_str (pn_environment input)) now) t);;
      mret {| pd_registration_id := pd_registration_id existing; pd_tenant_id := pd_tenant_id existing;
              pd_user_id := pd_user_id existing; pd_device_id := pd_device_id existing;
              pd_platform := pd_platform existing; pd_token := pn_token input; pd_environment := pn_environment input;
              pd_created_at := pd_created_at existing; pd_last_seen_at := now; pd_revoked_at := pd_revoked_at existing |}
  | None =>
      insert_row (fresh_row input stored new_registration_id now);;
      mret {| pd_registration_id := new_registration_id; pd_tenant_id := pn_tenant_id input;
              pd_user_id := pn_user_id input; pd_device_id := pn_device_id input; pd_platform := pn_platform input;
              pd_token := pn_token input; pd_environment := pn_environment input; pd_created_at := now;
              pd_last_seen_at := now; pd_revoked_at := None |}
  end.

Definition at_registration (registration_id tenant_id : string) (r : PushRow) : bool :=
  String.eqb (px_registration_id r) registration_id && String.eqb (px_tenant_id r) tenant_id.
Definition revoke (registration_id tenant_id : string) (now_ms : Z) : M PushTable StoreError bool := λ t,
  let where_ r := at_registration registration_id tenant_id r && active r in
  (Ok (0 <? changes where_ t), update_where where_ (with_revoked (iso_from_epoch_ms now_ms)) t).
Definition get_by_id (t : PushTable) (registration_id tenant_id : string) :
    result StoreError (option PushDeviceRegistration) :=
  transposed (list.head (select (at_registration registration_id tenant_id) t)).
(** Rows of the same time stay in the order of their insertion. *)
Definition oldest_le (a b : PushRow) : bool := Str.leb (px_created_at a) (px_created_at b).
Definition of_user (tenant_id user_id : string) (r : PushRow) : bool :=
  String.eqb (px_tenant_id r) tenant_id && String.eqb (px_user_id r) user_id && active r.
Definition list_by_user (t : PushTable) (tenant_id user_id : string) : result StoreError (list PushDeviceRegistration) :=
  map_res map_row_opened (order_by oldest_le (select (of_user tenant_id user_id) t)).
Definition touch (registration_id tenant_id : string) (now_ms : Z) : M PushTable StoreError unit := λ t,
  (Ok tt, update_where (at_registration registration_id tenant_id) (with_seen (iso_from_epoch_ms now_ms)) t).
End Store.
End Registrations.

(** ** Intents and deliveries *)

Record NotificationBody : Type := { nb_title : option string; nb_body : option string; nb_data : option Value }.
Definition NotificationBody_default : NotificationBody := {| nb_title := None; nb_body := None; nb_data := None |}.
Record FrickNotificationIntent : Type := {
  ni_intent : string; ni_tenant_id : string; ni_recipient_user_ids : list string; ni_body : NotificationBody;
  ni_thread_id : option string; ni_deep_link : option string;
}.
Inductive PushDeliveryStatus : Type := Status_Delivered | Status_Failed | Status_Skipped.
Definition PushDeliveryStatus_as_str (s : PushDeliveryStatus) : string :=
  match s with Status_Delivered => "delivered" | Status_Failed => "failed" | Status_Skipped => "skipped" end.
Record PushDeliveryError : Type := { pe_code : string; pe_message : string }.
Record FrickPushDelivery : Type := {
  fd_registration : PushDeviceRegistration; fd_attempted_at : string; fd_status : PushDeliveryStatus;
  fd_error : option PushDeliveryError; fd_receipt_id : option string;
}.
Definition delivered (registration : PushDeviceRegistration) (attempted_at : string) (receipt_id : option string) :
    FrickPushDelivery :=
  {| fd_registration := registration; fd_attempted_at := attempted_at; fd_status := Status_Delivered; fd_error := None;
     fd_receipt_id := receipt_id |}.
Definition failed (registration : PushDeviceRegistration) (attempted_at code message : string) : FrickPushDelivery :=
  {| fd_registration := registration; fd_attempted_at := attempted_at; fd_status := Status_Failed;
     fd_error := Some {| pe_code := code; pe_message := message |}; fd_receipt_id := None |}.
Definition skipped (registration : PushDeviceRegistration) (attempted_at code message : string) : FrickPushDelivery :=
  {| fd_registration := registration; fd_attempted_at := attempted_at; fd_status := Status_Skipped;
     fd_error := Some {| pe_code := code; pe_message := message |}; fd_receipt_id := None |}.

Definition PUSH_REVOCATION_ERROR_CODES : list string := ["push.badDeviceToken"; "push.unregistered"; "push.tokenExpired"].
Definition is_push_revocation_error (code : option string) : bool :=
  match code with Some c => bool_decide (c ∈ PUSH_REVOCATION_ERROR_CODES) | None => false end.

(** The payload of [push.deliver]. *)
Definition opt_text (key : string) (v : option string) : list (Value * Value) :=
  match v with Some s => [(VStr key, VStr s)] | None => [] end.
Definition encode_body (body : NotificationBody) : Value :=
  VMap (opt_text "title" (nb_title body) ++ opt_text "body" (nb_body body)
        ++ match nb_data body with Some data => [(VStr "data", data)] | None => [] end).
Definition encode_intent (intent : FrickNotificationIntent) : Value :=
  VMap ([(VStr "intent", VStr (ni_intent intent)); (VStr "tenantId", VStr (ni_tenant_id intent));
         (VStr "recipientUserIds", VArr (VStr <$> ni_recipient_user_ids intent));
         (VStr "body", encode_body (ni_body intent))]
        ++ opt_text "threadId" (ni_thread_id intent) ++ opt_text "deepLink" (ni_deep_link intent)).

Definition text_at (entries : list (Value * Value)) (key : string) : option string := v ← map_get key entries; as_str v.
Definition decode_body (entries : list (Value * Value)) : NotificationBody :=
  {| nb_title := text_at entries "title"; nb_body := text_at entries "body";
     nb_data := v ← map_get "data" entries; match v with VMap _ => Some v | _ => None end |}.
Definition decode_recipient (v : Value) : result string string :=
  ok_or (s ← as_str v; if Str.is_empty s then None else Some s)
    "push.deliver payload.recipientUserIds must be strings".
Definition decode_intent (payload : Value) : result string FrickNotificationIntent :=
  match payload with
  | VMap entries =>
      intent ← ok_or (payload_text entries "intent") "push.deliver payload.intent must be a non-empty string";
      tenant_id ← ok_or (payload_text entries "tenantId") "push.deliver payload.tenantId must be a non-empty string";
      recipients ← match map_get "recipientUserIds" entries with
                   | Some (VArr values) => map_res decode_recipient values
                   | _ => Err "push.deliver payload.recipientUserIds must be an array"
                   end;
      let body := match map_get "body" entries with
                  | Some (VMap body) => decode_body body
                  | _ => NotificationBody_default
                  end in
      Ok {| ni_intent := intent; ni_tenant_id := tenant_id; ni_recipient_user_ids := recipients; ni_body := body;
            ni_thread_id := text_at entries "threadId"; ni_deep_link := text_at entries "deepLink" |}
  | _ => Err "push.deliver payload must be an object"
  end.

Definition serialize_delivery (delivery : FrickPushDelivery) : Value :=
  let reg := fd_registration delivery in
  VMap ([(VStr "registrationId", VStr (pd_registration_id reg)); (VStr "userId", VStr (pd_user_id reg));
         (VStr "deviceId", VStr (pd_device_id reg)); (VStr "platform", VStr (PushPlatform_as_str (pd_platform reg)));
         (VStr "attemptedAt", VStr (fd_attempted_at delivery));
         (VStr "status", VStr (PushDeliveryStatus_as_str (fd_status delivery)))]
        ++ match fd_error delivery with
           | Some e => [(VStr "error", VMap [(VStr "code", VStr (pe_code e)); (VStr "message", VStr (pe_message e))])]
           | None => []
           end
        ++ opt_text "receiptId" (fd_receipt_id delivery)).
Definition push_job_result (intent : FrickNotificationIntent) (deliveries : list FrickPushDelivery) : Value :=
  VMap [(VStr "intent", VStr (ni_intent intent)); (VStr "tenantId", VStr (ni_tenant_id intent));
        (VStr "deliveries", VArr (serialize_delivery <$> deliveries))].

(** ** Adapters *)

Record PushAdapter : Type := {
  pa_platform : PushPlatform;
  pa_send : FrickNotificationIntent → PushDeviceRegistration → result string FrickPushDelivery;
}.
Record DuplicatePushAdapterError : Type := { dup_platform : string }.
Definition PushRegistry : Type := gmap string PushAdapter.
Module Adapters.
Definition new : PushRegistry := ∅.
Definition register_adapter (adapter : PushAdapter) : M PushRegistry DuplicatePushAdapterError unit := λ r,
  let key := PushPlatform_as_str (pa_platform adapter) in
  match r !! key with
  | Some _ => (Err {| dup_platform := key |}, r)
  | None => (Ok tt, <[key := adapter]> r)
  end.
Definition resolve_adapter (r : PushRegistry) (platform : string) : option PushAdapter := r !! platform.
Definition resolve (r : PushRegistry) (platform : PushPlatform) : option PushAdapter :=
  resolve_adapter r (PushPlatform_as_str platform).
Definition contains (r : PushRegistry) (platform : PushPlatform) : bool :=
  bool_decide (is_Some (r !! PushPlatform_as_str platform)).
Definition list_ (r : PushRegistry) : list PushAdapter :=
  (order_by (λ a b, Str.leb a.1 b.1) (map_to_list r)).*2.
End Adapters.

(** The in-memory adapter: every send is delivered. The list of deliveries that it
    keeps for tests is not part of it. *)
Definition TestPushAdapter (attempted_at receipt_id : string) : PushAdapter :=
  {| pa_platform := Platform_Test;
     pa_send intent registration := Ok (delivered registration attempted_at (Some receipt_id)) |}.

(** ** The router *)

Definition PUSH_DELIVER_JOB_TYPE : string := "push.deliver".
Record PushTelemetryEvent : Type := {
  pt_tenant_id : string; pt_intent : string; pt_platform : string; pt_registration_id : string; pt_user_id : string;
  pt_status : string; pt_error_code : option string; pt_receipt_id : option string;
}.
Record PushWorld : Type := { pw_registrations : PushTable; pw_telemetry : list PushTelemetryEvent }.

Section Router.
Context `{Crypto} (encryption : option KeyProvider) (registry : PushRegistry).
Local Abbreviation Step := (M PushWorld StoreError).

Definition telemetry_event (intent_id : string) (delivery : FrickPushDelivery) : PushTelemetryEvent :=
  let reg := fd_registration delivery in
  {| pt_tenant_id := pd_tenant_id reg; pt_intent := intent_id; pt_platform := PushPlatform_as_str (pd_platform reg);
     pt_registration_id := pd_registration_id reg; pt_user_id := pd_user_id reg;
     pt_status := PushDeliveryStatus_as_str (fd_status delivery);
     pt_error_code := pe_code <$> fd_error delivery; pt_receipt_id := fd_receipt_id delivery |}.
Definition record_telemetry (intent_id : string) (delivery : FrickPushDelivery) : Step unit := λ w,
  (Ok tt, {| pw_registrations := pw_registrations w;
             pw_telemetry := pw_telemetry w ++ [telemetry_event intent_id delivery] |}).
Definition on_registrations {A} (m : M PushTable StoreError A) : Step A := λ w,
  let '(r, t) := m (pw_registrations w) in (r, {| pw_registrations := t; pw_telemetry := pw_telemetry w |}).

Definition deliver_one (intent : FrickNotificationIntent) (registration : PushDeviceRegistration) (now_ms : Z) :
    Step FrickPushDelivery :=
  let attempted_at := iso_from_epoch_ms now_ms in
  match Adapters.resolve registry (pd_platform registration) with
  | None =>
      let delivery := skipped registration attempted_at "push.unknownAdapter"
        ("No adapter registered for platform " +:+ quote +:+ PushPlatform_as_str (pd_platform registration) +:+ quote) in
      record_telemetry (ni_intent intent) delivery;; mret delivery
  | Some adapter =>
      let delivery := match pa_send adapter intent registration with
                      | Ok delivery => delivery
                      | Err message => failed registration attempted_at "adapter.threw" message
                      end in
      let id := pd_registration_id (fd_registration delivery) in
      let tenant_id := pd_tenant_id (fd_registration delivery) in
      match fd_status delivery with
      | Status_Delivered => on_registrations (Registrations.touch id tenant_id now_ms)
      | Status_Failed =>
          if is_push_revocation_error (pe_code <$> fd_error delivery)
          then on_registrations (Registrations.revoke id tenant_id now_ms);; mret tt
          else mret tt
      | Status_Skipped => mret tt
      end;;
      record_telemetry (ni_intent intent) delivery;; mret delivery
  end.

(** Whether a registration is passed over: a PushKit token for anything but a call,
    an ordinary APNs token for a call when the device has a PushKit one. *)
Definition passed_over (intent : FrickNotificationIntent) (voip_devices : gset string)
    (registration : PushDeviceRegistration) : bool :=
  (bool_decide (pd_platform registration = ApnsVoip) && negb (String.eqb (ni_intent intent) "call.ringing"))
  || (String.eqb (ni_intent intent) "call.ringing" && bool_decide (pd_platform registration = Apns)
      && bool_decide (pd_device_id registration ∈ voip_devices)).
Definition voip_devices (registrations : list PushDeviceRegistration) : gset string :=
  list_to_set (pd_device_id <$> List.filter (λ r, bool_decide (pd_platform r = ApnsVoip)) registrations).

Fixpoint deliver_registrations (intent : FrickNotificationIntent) (voip : gset string) (now_ms : Z)
    (registrations : list PushDeviceRegistration) (seen : gset string) : Step (list FrickPushDelivery * gset string) :=
  match registrations with
  | [] => mret ([], seen)
  | registration :: rest =>
      if passed_over intent voip registration then deliver_registrations intent voip now_ms rest seen
      else if bool_decide (pd_registration_id registration ∈ seen)
      then deliver_registrations intent voip now_ms rest seen
      else
        delivery ← deliver_one intent registration now_ms;
        '(deliveries, seen) ← deliver_registrations intent voip now_ms rest ({[pd_registration_id registration]} ∪ seen);
        mret (delivery :: deliveries, seen)
  end.
Fixpoint deliver_users (intent : FrickNotificationIntent) (now_ms : Z) (users : list string) (seen : gset string) :
    Step (list FrickPushDelivery) :=
  match users with
  | [] => mret []
  | user_id :: rest =>
      w ← get_state;
      registrations ← lift_res (Registrations.list_by_user encryption (pw_registrations w) (ni_tenant_id intent) user_id);
      '(here, seen) ← deliver_registrations intent (voip_devices registrations) now_ms registrations seen;
      there ← deliver_users intent now_ms rest seen;
      mret (here ++ there)
  end.
Definition deliver (intent : FrickNotificationIntent) (now_ms : Z) : Step (list FrickPushDelivery) :=
  deliver_users intent now_ms (ni_recipient_user_ids intent) ∅.

Definition run_push_job (payload : Value) (now_ms : Z) : M PushWorld JobError Value := λ w,
  match decode_intent payload with
  | Err message => (Err (fatal_error "push.invalidIntent" message), w)
  | Ok intent =>
      match deliver intent now_ms w with
      | (Ok deliveries, w) => (Ok (push_job_result intent deliveries), w)
      | (Err error, w) => (Err (retryable_error "push.routerError" (StoreError_display error)), w)
      end
  end.
End Router.

Definition intent_job (intent : FrickNotificationIntent) : EnqueueInput :=
  {| en_tenant_id := ni_tenant_id intent; en_app_id := None; en_job_type := PUSH_DELIVER_JOB_TYPE;
     en_payload := encode_intent intent; en_idempotency_key := None; en_available_at := None; en_max_attempts := None |}.
Definition enqueue_intent `{Crypto, PackedColumn Value} (encryption : option KeyProvider) (constraint_failed : string)
    (nonce : blob) (intent : FrickNotificationIntent) (now_ms : Z) : M JobTable StoreError JobRow :=
  enqueue encryption constraint_failed nonce (intent_job intent) now_ms.

(** ** The routes *)

(** [str::parse::<IpAddr>()]. *)
Inductive IpAddr : Type := V4 (octets : list Z) | V6 (segments : list Z).
(** A decimal octet: one to three digits, without a leading zero unless it is 0. *)
Definition parse_octet (s : string) : option Z :=
  if (3 <? Z.of_nat (String.length s)) || ((1 <? Z.of_nat (String.length s)) && Str.starts_with "0" s) then None
  else if Str.is_empty s then None
  else match parse_digits (Str.bytes s) with
       | Some n => if n <=? 255 then Some n else None
       | None => None
       end.
Definition parse_ipv4 (s : string) : option (list Z) :=
  let pieces := split "." s in
  if Z.of_nat (length pieces) =? 4 then mapM parse_octet pieces else None.
Definition hex_value (b : Z) : option Z :=
  if is_digit b then Some (b - 48)
  else if (97 <=? b) && (b <=? 102) then Some (b - 87)
  else if (65 <=? b) && (b <=? 70) then Some (b - 55)
  else None.
(** One to four hexadecimal digits. *)
Definition parse_group (s : string) : option Z :=
  if Str.is_empty s || (4 <? Z.of_nat (String.length s)) then None
  else foldl (λ acc b, a ← acc; d ← hex_value b; Some (a * 16 + d)) (Some 0) (Str.bytes s).
(** Groups of a side of the address; the last of the whole may be an IPv4. *)
Fixpoint parse_groups (v4_last : bool) (pieces : list string) : option (list Z) :=
  match pieces with
  | [] => Some []
  | [piece] =>
      match parse_group piece with
      | Some g => Some [g]
      | None =>
          if v4_last then
            match parse_ipv4 piece with
            | Some [a; b; c; d] => Some [a * 256 + b; c * 256 + d]
            | _ => None
            end
          else None
      end
  | piece :: rest => g ← parse_group piece; gs ← parse_groups v4_last rest; Some (g :: gs)
  end.
(** A side of [::] may be empty. *)
Definition side (s : string) : list string := if Str.is_empty s then [] else split ":" s.
(** The text before and after the first [::]. *)
Fixpoint split_double (s : string) : option (string * string) :=
  match s with
  | String a (String b rest as s') =>
      if Ascii.eqb a ":" && Ascii.eqb b ":" then Some (EmptyString, rest)
      else match split_double s' with Some (h, t) => Some (String a h, t) | None => None end
  | _ => None
  end.
Definition parse_ipv6 (s : string) : option (list Z) :=
  match split_double s with
  | None => gs ← parse_groups true (split ":" s); if Z.of_nat (length gs) =? 8 then Some gs else None
  | Some (head, tail) =>
      hs ← parse_groups false (side head); ts ← parse_groups true (side tail);
      if Z.of_nat (length hs + length ts) <=? 7 then Some (hs ++ replicate (8 - length hs - length ts) 0 ++ ts) else None
  end.
Definition parse_ip (s : string) : option IpAddr :=
  match parse_ipv4 s with
  | Some octets => Some (V4 octets)
  | None => segments ← parse_ipv6 s; Some (V6 segments)
  end.

(** [is_private], [is_loopback], [is_link_local], [is_unspecified], [is_broadcast]
    and the carrier-grade range. *)
Definition is_unsafe_ipv4 (octets : list Z) : bool :=
  match octets with
  | [a; b; c; d] =>
      (a =? 10) || ((a =? 172) && (16 <=? b) && (b <=? 31)) || ((a =? 192) && (b =? 168))
      || (a =? 127) || ((a =? 169) && (b =? 254)) || (a + b + c + d =? 0) || (a + b + c + d =? 4 * 255)
      || ((a =? 100) && (64 <=? b) && (b <=? 127))
  | _ => false
  end.
Definition to_ipv4_mapped (segments : list Z) : option (list Z) :=
  match segments with
  | [0; 0; 0; 0; 0; 65535; x; y] => Some [x / 256; x mod 256; y / 256; y mod 256]
  | _ => None
  end.
Definition is_unsafe_ip (ip : IpAddr) : bool :=
  match ip with
  | V4 octets => is_unsafe_ipv4 octets
  | V6 segments =>
      let first := default 0 (list.head segments) in
      bool_decide (segments = [0; 0; 0; 0; 0; 0; 0; 1]) || bool_decide (segments = replicate 8 0)
      || (Z.land first 65024 =? 64512) || (Z.land first 65472 =? 65152)
      || match to_ipv4_mapped segments with Some v4 => is_unsafe_ipv4 v4 | None => false end
  end.

(** [trim_end_matches('.')] and [trim_start_matches('[')]. *)
Fixpoint trim_start_char (c : ascii) (l : list ascii) : list ascii :=
  match l with a :: l' => if Ascii.eqb a c then trim_start_char c l' else l | [] => [] end.
Definition trim_end_char (c : ascii) (s : string) : string :=
  String.string_of_list_ascii (rev (trim_start_char c (rev (String.list_ascii_of_string s)))).
Definition ends_with (suffix s : string) : bool :=
  Str.starts_with (String.string_of_list_ascii (rev (String.list_ascii_of_string suffix)))
    (String.string_of_list_ascii (rev (String.list_ascii_of_string s))).
Definition is_unsafe_host (host : string) : bool :=
  let lower := Str.to_lowercase (trim_end_char "." host) in
  if String.eqb lower "localhost" || ends_with ".localhost" lower || String.eqb lower "metadata.google.internal" then true
  else match parse_ip lower with Some ip => is_unsafe_ip ip | None => false end.

(** [split(['/', '?', '#']).next()]. *)
Fixpoint before_path (s : string) : string :=
  match s with
  | EmptyString => EmptyString
  | String a s' =>
      if Ascii.eqb a "/" || Ascii.eqb a "?" || Ascii.eqb a "#" then EmptyString else String a (before_path s')
  end.
Definition endpoint_host (rest : string) : string :=
  let host := default EmptyString (list.last (split "@" (before_path rest))) in
  if Str.starts_with "[" host
  then String.string_of_list_ascii (trim_start_char "[" (String.list_ascii_of_string (default host (list.head (split "]" host)))))
  else default host (list.head (split ":" host)).
Definition is_safe_web_push_endpoint (endpoint : string) : bool :=
  match strip_prefix "https://" endpoint with
  | None => false
  | Some rest => let host := endpoint_host rest in negb (Str.is_empty host) && negb (is_unsafe_host host)
  end.

Definition parse_environment (body : Value) : result ServerError PushEnvironment :=
  match (v ← field body "environment"; as_str v) with
  | None => Ok Production
  | Some s =>
      if String.eqb s "" || String.eqb s "production" then Ok Production
      else if String.eqb s "sandbox" then Ok Sandbox
      else Err (SE_BadRequest ("environment must be " +:+ quote +:+ "production" +:+ quote +:+ " or " +:+ quote
                               +:+ "sandbox" +:+ quote))
  end.
(** In the order of the keys. *)
Definition registration_json (r : PushDeviceRegistration) : Value :=
  VMap [(VStr "createdAt", VStr (pd_created_at r)); (VStr "deviceId", VStr (pd_device_id r));
        (VStr "environment", VStr (PushEnvironment_as_str (pd_environment r)));
        (VStr "lastSeenAt", VStr (pd_last_seen_at r)); (VStr "platform", VStr (PushPlatform_as_str (pd_platform r)));
        (VStr "registrationId", VStr (pd_registration_id r));
        (VStr "revokedAt", match pd_revoked_at r with Some at_ => VStr at_ | None => VNil end);
        (VStr "tenantId", VStr (pd_tenant_id r)); (VStr "token", VStr (pd_token r)); (VStr "userId", VStr (pd_user_id r))].

Record PushRouteState : Type := { ps_auth : AuthState; ps_registrations : PushTable }.
Inductive PushReply : Type := Registered (registration : Value) | Revoked_204 | Registration_not_found.

Section Routes.
Context `{Crypto} (encryption : option KeyProvider) (constraint_failed : string).
Context (session_token_digest : string → string).
Context (authorize : AuthState → string → Principal → Z → result ServerError unit) (implicit_tenant_creation : bool).
(** [serde_json] on a body and on a token. *)
Context (from_slice : string → result string Value) (from_str : string → option Value).

Definition validate_web_push_token (token : string) : result ServerError unit :=
  let bad := SE_BadRequest "webPush token must be a PushSubscription JSON with a public https endpoint" in
  parsed ← ok_or (from_str token) bad;
  endpoint ← ok_or (v ← field parsed "endpoint"; as_str v) bad;
  guard_res (is_safe_web_push_endpoint endpoint) bad.

Definition push_authenticated {A} (headers : HeaderMap) (now : Z) (k : Principal → M PushTable ServerError A) :
    M PushRouteState ServerError A := λ s,
  match Sharing.authenticate session_token_digest authorize implicit_tenant_creation headers now (ps_auth s) with
  | (Err e, a) => (Err e, {| ps_auth := a; ps_registrations := ps_registrations s |})
  | (Ok principal, a) =>
      let '(r, t) := k principal (ps_registrations s) in (r, {| ps_auth := a; ps_registrations := t |})
  end.

Definition respond_registered (m : M PushTable StoreError PushDeviceRegistration) : M PushTable ServerError PushReply := λ t,
  match m t with
  | (Ok registration, t) => (Ok (Registered (registration_json registration)), t)
  | (Err error, t) => (Err (store_error error), t)
  end.
(** [uuid] is the random draw. *)
Definition register_as (principal : Principal) (body uuid : string) (nonce : blob) (now : Z) :
    M PushTable ServerError PushReply :=
  parsed ← lift_res (parse_body_value from_slice body);
  device_id ← lift_res (require_string parsed "deviceId" "deviceId");
  platform_str ← lift_res (require_string parsed "platform" "platform");
  platform ← lift_res (ok_or (PushPlatform_parse platform_str)
    (SE_BadRequest ("platform must be one of apns, apnsVoip, fcm, webPush, test (got " +:+ quote +:+ platform_str +:+ quote
                    +:+ ")")));
  token ← lift_res (require_string parsed "token" "token");
  lift_res (if bool_decide (platform = WebPush) then validate_web_push_token token else Ok tt);;
  environment ← lift_res (parse_environment parsed);
  respond_registered
    (Registrations.register encryption constraint_failed nonce
       {| pn_tenant_id := p_tenant_id principal; pn_user_id := p_user_id principal; pn_device_id := device_id;
          pn_platform := platform; pn_token := token; pn_environment := environment |} ("push-" +:+ uuid) now).
Definition register_route (headers : HeaderMap) (body uuid : string) (nonce : blob) (now : Z) :
    M PushRouteState ServerError PushReply :=
  push_authenticated headers now (λ principal, register_as principal body uuid nonce now).

Definition revoke_as (principal : Principal) (registration_id : string) (now : Z) : M PushTable ServerError PushReply := λ t,
  if Str.is_empty registration_id then (Ok Registration_not_found, t)
  else match Registrations.get_by_id encryption t registration_id (p_tenant_id principal) with
       | Err error => (Err (store_error error), t)
       | Ok existing =>
           match existing with
           | Some r =>
               if String.eqb (pd_user_id r) (p_user_id principal) then
                 match Registrations.revoke registration_id (p_tenant_id principal) now t with
                 | (Ok _, t) => (Ok Revoked_204, t)
                 | (Err error, t) => (Err (store_error error), t)
                 end
               else (Ok Registration_not_found, t)
           | None => (Ok Registration_not_found, t)
           end
       end.
Definition revoke_route (headers : HeaderMap) (registration_id : string) (now : Z) :
    M PushRouteState ServerError PushReply :=
  push_authenticated headers now (λ principal, revoke_as principal registration_id now).
End Routes.

(** ** Fan-out *)

(** Registration ids are unique, and so are the devices that are registered. *)
Definition device_key (r : PushRow) : string * string * string * string :=
  (px_tenant_id r, px_user_id r, px_device_id r, px_platform r).
Definition push_ok (t : PushTable) : Prop :=
  NoDup (px_registration_id <$> t) ∧ NoDup (device_key <$> select active t).

(** An adapter answers for the registration it was given. *)
Definition adapters_honest (registry : PushRegistry) : Prop :=
  ∀ key a intent reg d, registry !! key = Some a → pa_send a intent reg = Ok d → fd_registration d = reg.

Section FanOut.
Context `{Crypto} (encryption : option KeyProvider) (registry : PushRegistry).

(** What a delivery attempt comes to. *)
Definition outcome_of (intent : FrickNotificationIntent) (now_ms : Z) (reg : PushDeviceRegistration) : FrickPushDelivery :=
  match Adapters.resolve registry (pd_platform reg) with
  | None => skipped reg (iso_from_epoch_ms now_ms) "push.unknownAdapter"
      ("No adapter registered for platform " +:+ quote +:+ PushPlatform_as_str (pd_platform reg) +:+ quote)
  | Some adapter =>
      match pa_send adapter intent reg with
      | Ok delivery => delivery
      | Err message => failed reg (iso_from_epoch_ms now_ms) "adapter.threw" message
      end
  end.
(** What it does to a row: a delivery marks it as seen, a dead token revokes it. *)
Definition settled (now_ms : Z) (d : FrickPushDelivery) (r : PushRow) : PushRow :=
  if Registrations.at_registration (pd_registration_id (fd_registration d)) (pd_tenant_id (fd_registration d)) r then
    match fd_status d with
    | Status_Delivered => with_seen (iso_from_epoch_ms now_ms) r
    | Status_Failed =>
        if is_push_revocation_error (pe_code <$> fd_error d) && active r then with_revoked (iso_from_epoch_ms now_ms) r else r
    | Status_Skipped => r
    end
  else r.
Definition settled_all (now_ms : Z) (ds : list FrickPushDelivery) (r : PushRow) : PushRow :=
  foldl (λ r d, settled now_ms d r) r ds.
(** The registrations of a user that the intent goes to. *)
Definition qualified (intent : FrickNotificationIntent) (regs : list PushDeviceRegistration) : list PushDeviceRegistration :=
  List.filter (λ r, negb (passed_over intent (voip_devices regs) r)) regs.

Lemma settled_keeps now d r :
  px_registration_id (settled now d r) = px_registration_id r ∧ px_tenant_id (settled now d r) = px_tenant_id r
  ∧ px_user_id (settled now d r) = px_user_id r.
Proof using Type. unfold settled. by repeat case_match. Qed.
Lemma settled_all_id now ds r : px_registration_id (settled_all now ds r) = px_registration_id r.
Proof using Type.
  revert r. unfold settled_all. induction ds as [|d ds IH]; intros r; [done|]. cbn. rewrite IH. apply settled_keeps.
Qed.

Lemma deliver_one_spec intent reg now w :
  adapters_honest registry →
  fd_registration (outcome_of intent now reg) = reg
  ∧ deliver_one registry intent reg now w
    = (Ok (outcome_of intent now reg),
       {| pw_registrations := settled now (outcome_of intent now reg) <$> pw_registrations w;
          pw_telemetry := pw_telemetry w ++ [telemetry_event (ni_intent intent) (outcome_of intent now reg)] |}).
Proof using Type.
  intros Hh. unfold deliver_one, outcome_of, Adapters.resolve, Adapters.resolve_adapter.
  destruct (registry !! PushPlatform_as_str (pd_platform reg)) as [a|] eqn:Ea.
  - assert (∃ d, match pa_send a intent reg with
                 | Ok delivery => delivery
                 | Err message => failed reg (iso_from_epoch_ms now) "adapter.threw" message
                 end = d ∧ fd_registration d = reg) as (d & -> & Hd).
    { destruct (pa_send a intent reg) as [d|e] eqn:Es; [|by eexists]. exists d. split; [done|]. by eapply Hh. }
    split; [done|]. run_M. unfold on_registrations, record_telemetry. destruct (fd_status d) eqn:Est.
    + cbn. do 3 f_equal. unfold update_where, settled. by rewrite Est.
    + destruct (is_push_revocation_error _) eqn:Er; cbn; do 3 f_equal.
      * unfold update_where, settled. rewrite Est, Er. cbn [andb]. apply list_fmap_ext. intros _ r _.
        by destruct (Registrations.at_registration _ _ r), (active r).
      * rewrite <- (list_fmap_id (pw_registrations w)) at 1. apply list_fmap_ext. intros _ r _. unfold settled.
        rewrite Est, Er. by destruct (Registrations.at_registration _ _ r).
    + cbn. do 3 f_equal. rewrite <- (list_fmap_id (pw_registrations w)) at 1. apply list_fmap_ext. intros _ r _.
      unfold settled. rewrite Est. by destruct (Registrations.at_registration _ _ r).
  - split; [done|]. unfold record_telemetry. run_M. do 2 f_equal.
    rewrite <- (list_fmap_id (pw_registrations w)) at 1. apply list_fmap_ext. intros _ r _. unfold settled. cbn.
    by destruct (Registrations.at_registration _ _ r).
Qed.

Lemma settled_all_app now ds d r : settled_all now (d :: ds) r = settled_all now ds (settled now d r).
Proof using Type. done. Qed.

Lemma deliver_registrations_spec intent voip now regs : ∀ seen w,
  adapters_honest registry → NoDup (pd_registration_id <$> regs) → (∀ r, r ∈ regs → pd_registration_id r ∉ (seen : gset string)) →
  let chosen := List.filter (λ r, negb (passed_over intent voip r)) regs in
  let ds := outcome_of intent now <$> chosen in
  deliver_registrations registry intent voip now regs seen w
  = (Ok (ds, list_to_set (pd_registration_id <$> chosen) ∪ seen),
     {| pw_registrations := settled_all now ds <$> pw_registrations w;
        pw_telemetry := pw_telemetry w ++ (telemetry_event (ni_intent intent) <$> ds) |}).
Proof using Type.
  induction regs as [|reg regs IH]; intros seen w Hh Hn Hs; cbn [deliver_registrations List.filter]; cbv zeta; run_M.
  - cbn. rewrite union_empty_l_L, app_nil_r. unfold settled_all. cbn. rewrite list_fmap_id. by destruct w.
  - apply NoDup_cons in Hn as [Hreg Hn]. destruct (passed_over intent voip reg); cbn [negb].
    { apply IH; [done..|]. intros r Hr. apply Hs. by right. }
    rewrite bool_decide_false by (apply Hs; by left).
    destruct (deliver_one_spec intent reg now w Hh) as [_ ->].
    rewrite IH; [|done..|].
    + cbn [fmap list_fmap pw_registrations pw_telemetry list_to_set]. f_equal; [|f_equal].
      * do 2 f_equal. set_solver.
      * rewrite <- list_fmap_compose. done.
      * by rewrite <- (assoc_L (++)).
    + intros r Hr. rewrite elem_of_union, elem_of_singleton. intros [E|E].
      * apply Hreg. rewrite <- E. by apply list_elem_of_fmap_2.
      * eapply Hs; [|exact E]. by right.
Qed.

Lemma map_row_opened_keeps r p :
  Registrations.map_row_opened encryption r = Ok p →
  pd_registration_id p = px_registration_id r ∧ pd_tenant_id p = px_tenant_id r ∧ pd_user_id p = px_user_id r.
Proof using Type.
  unfold Registrations.map_row_opened. destruct encryption as [e|]; [|by intros [= <-]].
  intros (token & _ & [= <-])%bind_Ok. done.
Qed.
Lemma map_res_ids l ps :
  map_res (Registrations.map_row_opened encryption) l = Ok ps → pd_registration_id <$> ps = px_registration_id <$> l.
Proof using Type.
  revert ps. induction l as [|r l IH]; intros ps; cbn; [by intros [= <-]|].
  destruct (Registrations.map_row_opened encryption r) as [p|] eqn:Er; [|done].
  destruct (map_res _ l) as [ps'|]; [|done]. intros [= <-]. cbn. rewrite (proj1 (map_row_opened_keeps _ _ Er)). f_equal. by apply IH.
Qed.

(** The ids of a user's listed registrations are those of its rows. *)
Lemma listed_ids t tenant user regs :
  Registrations.list_by_user encryption t tenant user = Ok regs →
  pd_registration_id <$> regs ≡ₚ px_registration_id <$> select (Registrations.of_user tenant user) t.
Proof using Type. unfold Registrations.list_by_user. intros ->%map_res_ids. by rewrite order_by_perm. Qed.
Lemma listed_nodup t tenant user regs :
  NoDup (px_registration_id <$> t) → Registrations.list_by_user encryption t tenant user = Ok regs →
  NoDup (pd_registration_id <$> regs).
Proof using Type.
  intros Hn Hl. rewrite (listed_ids _ _ _ _ Hl). eapply sublist_NoDup; [exact Hn|]. apply fmap_sublist, select_sublist.
Qed.

(** Settling deliveries of other users' registrations leaves a user's rows alone. *)
Lemma settled_other now ds r :
  (∀ d, d ∈ ds → pd_registration_id (fd_registration d) ≠ px_registration_id r) → settled_all now ds r = r.
Proof using Type.
  unfold settled_all. induction ds as [|d ds IH]; intros Hd; [done|]. cbn.
  assert (settled now d r = r) as ->.
  { unfold settled, Registrations.at_registration. destruct (String.eqb_spec (px_registration_id r) (pd_registration_id (fd_registration d)));
      [|done]. destruct (Hd d); [by left|done]. }
  apply IH. intros d' Hd'. apply Hd. by right.
Qed.
Lemma settled_all_user now ds r :
  px_tenant_id (settled_all now ds r) = px_tenant_id r ∧ px_user_id (settled_all now ds r) = px_user_id r.
Proof using Type.
  revert r. unfold settled_all. induction ds as [|d ds IH]; intros r; [done|]. cbn. destruct (IH (settled now d r)) as [-> ->].
  destruct (settled_keeps now d r) as (_ & -> & ->). done.
Qed.
Lemma select_settled now ds tenant user t :
  (∀ r d, r ∈ t → px_user_id r = user → d ∈ ds → pd_registration_id (fd_registration d) ≠ px_registration_id r) →
  select (Registrations.of_user tenant user) (settled_all now ds <$> t) = select (Registrations.of_user tenant user) t.
Proof using Type.
  induction t as [|r t IH]; intros Hd; [done|]. cbn [fmap list_fmap select List.filter].
  assert (∀ r', r' ∈ t → r' ∈ r :: t) as Hsub by (intros; by right).
  unfold select in *. rewrite IH by eauto. destruct (decide (px_user_id r = user)) as [E|Hne].
  - rewrite (settled_other now ds r); [done|]. intros d Hdd. eapply Hd; [by left|done..].
  - assert (∀ x, px_user_id x ≠ user → Registrations.of_user tenant user x = false) as Hf.
    { intros x Hx. unfold Registrations.of_user. apply String.eqb_neq in Hx. by rewrite Hx, andb_false_r. }
    rewrite !Hf; [done|done|]. by destruct (settled_all_user now ds r) as [_ ->].
Qed.

(** Two users' listed registrations have no id in common. *)
Lemma listed_disjoint t tenant u v regs r d :
  NoDup (px_registration_id <$> t) → u ≠ v → Registrations.list_by_user encryption t tenant u = Ok regs →
  d ∈ regs → r ∈ t → px_user_id r = v → pd_registration_id d ≠ px_registration_id r.
Proof using Type.
  intros Hn Huv Hl Hd Hr Hv E.
  assert (px_registration_id r ∈ pd_registration_id <$> regs) as Hi by (rewrite <- E; by apply list_elem_of_fmap_2).
  rewrite (listed_ids _ _ _ _ Hl) in Hi. apply list_elem_of_fmap in Hi as (r' & Eid & [Hr' Hu]%elem_of_select).
  assert (r = r') as <-.
  { apply list_elem_of_lookup in Hr as [i Hi], Hr' as [j Hj].
    assert (i = j) as <-; [|congruence]. eapply (NoDup_lookup _ i j (px_registration_id r) Hn).
    - by rewrite list_lookup_fmap, Hi.
    - rewrite list_lookup_fmap, Hj. cbn. by rewrite <- Eid. }
  unfold Registrations.of_user in Hu. rewrite Hv in Hu. destruct (String.eqb_spec v u); [congruence|]. by rewrite andb_false_r in Hu.
Qed.

Lemma deliver_users_spec intent now (regs : string → list PushDeviceRegistration) users : ∀ t tel seen,
  adapters_honest registry → NoDup (px_registration_id <$> t) → NoDup users →
  (∀ u, u ∈ users → Registrations.list_by_user encryption t (ni_tenant_id intent) u = Ok (regs u)
                    ∧ ∀ r, r ∈ regs u → pd_registration_id r ∉ (seen : gset string)) →
  let ds := u ← users; outcome_of intent now <$> qualified intent (regs u) in
  deliver_users encryption registry intent now users seen {| pw_registrations := t; pw_telemetry := tel |}
  = (Ok ds, {| pw_registrations := settled_all now ds <$> t; pw_telemetry := tel ++ (telemetry_event (ni_intent intent) <$> ds) |}).
Proof using Type.
  induction users as [|u users IH]; intros t tel seen Hh Hn Hu Hl; cbv zeta.
  - cbn. rewrite app_nil_r. unfold settled_all. cbn. by rewrite list_fmap_id.
  - apply NoDup_cons in Hu as [Hu Hus]. destruct (Hl u ltac:(by left)) as [Hlu Hsu]. cbn [deliver_users]. run_M.
    cbn [pw_registrations]. rewrite Hlu.
    rewrite deliver_registrations_spec; [|done|by eapply listed_nodup|done]. cbv zeta. fold (qualified intent (regs u)).
    cbn [pw_registrations pw_telemetry]. set (here := outcome_of intent now <$> qualified intent (regs u)).
    assert (∀ d, d ∈ here → ∃ reg, reg ∈ regs u ∧ pd_registration_id (fd_registration d) = pd_registration_id reg) as Hhere.
    { intros d (reg & -> & Hreg)%list_elem_of_fmap. exists reg. split.
      - by apply list_elem_of_In, filter_In, proj1, list_elem_of_In in Hreg.
      - destruct (deliver_one_spec intent reg now {| pw_registrations := []; pw_telemetry := [] |} Hh) as [-> _]. done. }
    rewrite IH; [|done| |done|].
    + cbn [mbind list_bind]. fold here. rewrite fmap_app, <- (assoc_L (++)), <- list_fmap_compose. do 2 f_equal.
      apply list_fmap_ext. intros _ r _. unfold settled_all. cbn. by rewrite foldl_app.
    + rewrite <- list_fmap_compose. rewrite (list_fmap_ext _ px_registration_id); [done|].
      intros _ r _. cbn. apply settled_all_id.
    + intros v Hv. assert (u ≠ v) as Huv by (intros ->; done). destruct (Hl v ltac:(by right)) as [Hlv Hsv]. split.
      * unfold Registrations.list_by_user in *. rewrite select_settled; [done|].
        intros r d Hr Hrv Hd. destruct (Hhere d Hd) as (reg & Hreg & ->). by eapply (listed_disjoint t _ u v).
      * intros r Hr. rewrite elem_of_union. intros [E|E]; [|by eapply Hsv].
        apply elem_of_list_to_set, list_elem_of_fmap in E as (reg & Eid & Hreg).
        apply list_elem_of_In, filter_In, proj1, list_elem_of_In in Hreg.
        assert (pd_registration_id r ∈ pd_registration_id <$> regs v) as Hi by by apply list_elem_of_fmap_2.
        rewrite (listed_ids _ _ _ _ Hlv) in Hi. apply list_elem_of_fmap in Hi as (row & Erow & [Hrow Hof]%elem_of_select).
        eapply (listed_disjoint t _ u v _ row reg); [done..|exact Hreg|done| |congruence].
        unfold Registrations.of_user in Hof. rewrite !andb_true_iff, !String.eqb_eq in Hof. naive_solver.
Qed.
End FanOut.


(** ** Payloads *)

Definition intent_ok (i : FrickNotificationIntent) : Prop :=
  ni_intent i ≠ EmptyString ∧ ni_tenant_id i ≠ EmptyString ∧ Forall (λ u, u ≠ EmptyString) (ni_recipient_user_ids i)
  ∧ match nb_data (ni_body i) with Some (VMap _) | None => True | _ => False end.

Lemma decode_recipients users :
  Forall (λ u, u ≠ EmptyString) users → map_res decode_recipient (VStr <$> users) = Ok users.
Proof.
  induction users as [|u users IH]; intros Hu; [done|]. apply Forall_cons in Hu as [Hu Hus]. cbn. rewrite IH by done.
  by destruct u.
Qed.
Lemma decode_encode_body b :
  match nb_data b with Some (VMap _) | None => True | _ => False end →
  match encode_body b with VMap entries => decode_body entries | _ => NotificationBody_default end = b.
Proof. destruct b as [[title|] [body|] [data|]]; cbn; try done; by destruct data. Qed.

(** A job carries its intent: what [encode_intent] puts in a [push.deliver] payload,
    [decode_intent] reads back, for every intent with non-empty ids and, if any,
    a map of data. *)
Theorem intent_roundtrip (i : FrickNotificationIntent) : intent_ok i → decode_intent (encode_intent i) = Ok i.
Proof.
  destruct i as [intent tenant users body thread link]. intros (Hi & Ht & Hu & Hb).
  cbn [ni_intent ni_tenant_id ni_recipient_user_ids ni_body] in *.
  pose proof (decode_encode_body body Hb) as Ebody.
  unfold encode_intent, decode_intent, payload_text, text_at. cbn -[encode_body decode_body map_res].
  destruct intent as [|a intent]; [done|]. destruct tenant as [|b tenant]; [done|]. cbn -[encode_body decode_body map_res].
  rewrite decode_recipients by done. cbn -[encode_body decode_body].
  destruct (encode_body body) as [| | | | | | | | |entries|] eqn:E; try (by unfold encode_body in E).
  rewrite Ebody. by destruct thread, link.
Qed.

(** ** Registering a device *)

(** What sealing needs so that the token can be opened. *)
Definition token_ok `{Crypto} (encryption : option KeyProvider) (nonce : blob) (token : string) : Prop :=
  ∀ e, encryption = Some e →
    match active_key_id e with
    | Some k => utf8_valid (Str.bytes k) = true ∧ length nonce = NONCE_LEN ∧ utf8_valid (Str.bytes token) = true
                ∧ ∀ tenant b, encrypt e nonce tenant (Str.bytes token) = Ok b → base64_decode (base64_encode b) = Some b
    | None => strip_prefix TEXT_ENVELOPE_PREFIX token = None
    end.

Section Register.
Context `{CryptoLaws} (encryption : option KeyProvider) (constraint_failed : string).
Local Abbreviation opened_row := (Registrations.map_row_opened encryption).

Lemma opens_sealed nonce tenant token stored row :
  token_ok encryption nonce token → Registrations.seal_token encryption nonce tenant token = Ok stored →
  px_tenant_id row = tenant → px_token row = stored → opened_row row = Ok (opened token (map_row row)).
Proof using Type*.
  intros Hok Hs Ht Hst. unfold Registrations.seal_token, Registrations.map_row_opened in *.
  destruct encryption as [e|]; [|injection Hs as ->; rewrite <- Hst; by destruct row].
  rewrite Ht, Hst. specialize (Hok e eq_refl). destruct (active_key_id e) as [k|] eqn:Ek.
  - destruct Hok as (Hu & Hn & Hp & Hb). by rewrite (decrypt_encrypt_text e nonce tenant token stored k) by eauto.
  - unfold encrypt_text, is_active in Hs. rewrite bool_decide_false in Hs by (rewrite Ek; by intros [? ?]).
    injection Hs as <-. unfold decrypt_text. by rewrite Hok.
Qed.

(** The key of a device, and its row. *)
Definition device_of (input : PushRegistrationInput) : string * string * string * string :=
  (pn_tenant_id input, pn_user_id input, pn_device_id input, PushPlatform_as_str (pn_platform input)).
Local Abbreviation is_input input :=
  (Registrations.is_device (pn_tenant_id input) (pn_user_id input) (pn_device_id input) (PushPlatform_as_str (pn_platform input))).
Lemma is_device_spec input r : is_input input r = true ↔ device_key r = device_of input ∧ active r = true.
Proof using Type.
  unfold Registrations.is_device, device_key, device_of. rewrite !andb_true_iff, !String.eqb_eq. naive_solver congruence.
Qed.

Lemma update_where_id t id f :
  (∀ r, px_registration_id (f r) = px_registration_id r) →
  px_registration_id <$> update_where (λ r, String.eqb (px_registration_id r) id) f t = px_registration_id <$> t.
Proof using Type.
  intros Hf. unfold update_where. rewrite <- list_fmap_compose. apply list_fmap_ext. intros _ r _. cbn.
  by destruct (String.eqb _ _).
Qed.
Lemma select_update t p f :
  (∀ r, active (f r) = active r ∧ device_key (f r) = device_key r) →
  device_key <$> select active (update_where p f t) = device_key <$> select active t.
Proof using Type.
  intros Hf. unfold select, update_where. induction t as [|r t IH]; [done|]. cbn [fmap list_fmap List.filter].
  assert (active (if p r then f r else r) = active r ∧ device_key (if p r then f r else r) = device_key r) as [-> Ek]
    by (destruct (p r); [apply Hf|done]).
  destruct (active r); cbn; rewrite ?Ek, IH; done.
Qed.

Lemma push_head_update {R} (w p : R → bool) f t :
  (∀ r, w (f r) = w r) →
  list.head (select w (update_where p f t)) = (λ r, if p r then f r else r) <$> list.head (select w t).
Proof using Type.
  intros Hw. unfold select, update_where. induction t as [|r t IH]; [done|]. cbn [fmap list_fmap List.filter].
  assert (w (if p r then f r else r) = w r) as -> by (by destruct (p r)). by destruct (w r).
Qed.

Lemma opened_shape row q : opened_row row = Ok q → ∃ token, q = opened token (map_row row).
Proof using Type.
  unfold Registrations.map_row_opened. destruct encryption as [e|].
  - intros (token & _ & [= <-])%bind_Ok. by eexists.
  - intros [= <-]. exists (px_token row). by destruct row.
Qed.

(** A registered device is refreshed in place. *)
Lemma refresh_stored nonce input now t row q stored :
  push_ok t → token_ok encryption nonce (pn_token input) →
  Registrations.seal_token encryption nonce (pn_tenant_id input) (pn_token input) = Ok stored →
  list.head (select (is_input input) t) = Some row → opened_row row = Ok q →
  let f := with_token stored (PushEnvironment_as_str (pn_environment input)) now in
  let t' := update_where (λ r, String.eqb (px_registration_id r) (pd_registration_id q)) f t in
  Registrations.find_active encryption t' (pn_tenant_id input) (pn_user_id input) (pn_device_id input) (pn_platform input)
    = Ok (Some {| pd_registration_id := pd_registration_id q; pd_tenant_id := pd_tenant_id q; pd_user_id := pd_user_id q;
                  pd_device_id := pd_device_id q; pd_platform := pd_platform q; pd_token := pn_token input;
                  pd_environment := pn_environment input; pd_created_at := pd_created_at q; pd_last_seen_at := now;
                  pd_revoked_at := pd_revoked_at q |})
  ∧ push_ok t' ∧ (∀ r, px_registration_id r ≠ pd_registration_id q → r ∈ t' ↔ r ∈ t).
Proof using Type*.
  intros [Hn Hk] Htok Hs Hrow Hq. cbv zeta. destruct (opened_shape _ _ Hq) as [token ->]. cbn [opened map_row pd_registration_id].
  assert (row ∈ t ∧ is_input input row = true) as [Hin Hdev].
  { apply elem_of_select. apply list.head_Some_elem_of in Hrow. done. }
  apply is_device_spec in Hdev as [Hdev _]. unfold device_key, device_of in Hdev.
  set (f := with_token stored _ now). split_and!.
  - unfold Registrations.find_active. rewrite push_head_update by done. rewrite Hrow. cbn [fmap option_fmap option_map].
    rewrite String.eqb_refl. cbn [Registrations.transposed]. rewrite (opens_sealed nonce (pn_tenant_id input) (pn_token input) stored); try done.
    + unfold opened, map_row, f, with_token. cbn. by destruct (pn_environment input).
    + cbn. congruence.
  - split; [by rewrite update_where_id|]. by rewrite select_update.
  - intros r Hr. unfold update_where. rewrite list_elem_of_fmap. split.
    + intros (r' & -> & Hr'). destruct (String.eqb_spec (px_registration_id r') (px_registration_id row)); [|done].
      by destruct Hr.
    + intros Hr'. exists r. split; [|done]. by destruct (String.eqb_spec (px_registration_id r) (px_registration_id row)).
Qed.

(** Any other gets a row. *)
Lemma insert_stored nonce input id now t t' stored :
  push_ok t → token_ok encryption nonce (pn_token input) →
  Registrations.seal_token encryption nonce (pn_tenant_id input) (pn_token input) = Ok stored →
  list.head (select (is_input input) t) = None →
  Registrations.insert_row constraint_failed (Registrations.fresh_row input stored id now) t = (Ok tt, t') →
  Registrations.find_active encryption t' (pn_tenant_id input) (pn_user_id input) (pn_device_id input) (pn_platform input)
    = Ok (Some {| pd_registration_id := id; pd_tenant_id := pn_tenant_id input; pd_user_id := pn_user_id input;
                  pd_device_id := pn_device_id input; pd_platform := pn_platform input; pd_token := pn_token input;
                  pd_environment := pn_environment input; pd_created_at := now; pd_last_seen_at := now;
                  pd_revoked_at := None |})
  ∧ push_ok t' ∧ (∀ r, px_registration_id r ≠ id → r ∈ t' ↔ r ∈ t).
Proof using Type*.
  intros [Hn Hk] Htok Hs Hnone. unfold Registrations.insert_row. destruct (existsb _ t) eqn:Ex; [done|]. intros [= <-].
  set (row := Registrations.fresh_row input stored id now) in *.
  change (existsb (λ r, String.eqb (px_registration_id r) id || is_input input r) t = false) in Ex.
  assert (∀ r, r ∈ t → px_registration_id r ≠ id ∧ is_input input r = false) as Hfree.
  { intros r Hr. assert (¬ Exists (λ r, String.eqb (px_registration_id r) id || is_input input r = true) t) as Hno.
    { intros (x & Hx & Hb)%Exists_exists. assert (existsb (λ r, String.eqb (px_registration_id r) id || is_input input r) t = true) as Hy
        by (apply existsb_exists; exists x; split; [by apply list_elem_of_In|done]). by rewrite Hy in Ex. }
    split.
    - intros E. apply Hno, Exists_exists. exists r. split; [done|]. by rewrite E, String.eqb_refl.
    - apply not_true_is_false. intros E. apply Hno, Exists_exists. exists r. split; [done|]. by rewrite E, orb_true_r. }
  split_and!.
  - unfold Registrations.find_active, select. rewrite List.filter_app.
    assert (List.filter (is_input input) t = []) as ->.
    { destruct (List.filter (is_input input) t) as [|x l] eqn:E; [done|]. unfold select in Hnone. by rewrite E in Hnone. }
    cbn [List.filter app]. assert (is_input input row = true) as -> by (by apply is_device_spec). cbn [list.head Registrations.transposed].
    rewrite (opens_sealed nonce (pn_tenant_id input) (pn_token input) stored) by done.
    unfold row, Registrations.fresh_row, opened, map_row. cbn. by destruct (pn_platform input), (pn_environment input).
  - split.
    + rewrite fmap_app. apply NoDup_app. split_and!; [done| |apply NoDup_singleton]. intros x (r & -> & Hr)%list_elem_of_fmap.
      cbn. rewrite list_elem_of_singleton. by apply Hfree.
    + unfold select. rewrite List.filter_app. cbn [List.filter]. rewrite fmap_app. apply NoDup_app.
      split_and!; [done| |apply NoDup_singleton]. intros x (r & -> & [Hr Ha]%elem_of_select)%list_elem_of_fmap.
      cbn. rewrite list_elem_of_singleton. intros E. destruct (Hfree r Hr) as [_ Hd].
      by rewrite (proj2 (is_device_spec input r) (conj E Ha)) in Hd.
  - intros r Hr. rewrite elem_of_app, list_elem_of_singleton. split; [|by left]. intros [?| ->]; done.
Qed.

(** What a registration returns is what is stored: it succeeds with a registration
    that the device's lookup then finds, its token opened; a device that is
    registered keeps its id and gets no second row; the rows with other ids,
    revoked ones among them, are as they were, and ids and devices stay unique. *)
Theorem register_stored (nonce : blob) (input : PushRegistrationInput) (id : string) (now : Z) (t t' : PushTable)
    (p : PushDeviceRegistration) :
  push_ok t → token_ok encryption nonce (pn_token input) →
  Registrations.register encryption constraint_failed nonce input id now t = (Ok p, t') →
  let lookup s := Registrations.find_active encryption s (pn_tenant_id input) (pn_user_id input) (pn_device_id input)
                    (pn_platform input) in
  lookup t' = Ok (Some p) ∧ pd_token p = pn_token input ∧ push_ok t'
  ∧ (∀ q, lookup t = Ok (Some q) → pd_registration_id p = pd_registration_id q ∧ length t' = length t)
  ∧ (∀ r, px_registration_id r ≠ pd_registration_id p → r ∈ t' ↔ r ∈ t).
Proof using Type*.
  intros Hok Htok. unfold Registrations.register. run_M. intros Hr. cbv zeta.
  destruct (list.head (select (is_input input) t)) as [row|] eqn:Erow.
  - assert (Registrations.find_active encryption t (pn_tenant_id input) (pn_user_id input) (pn_device_id input) (pn_platform input)
      = (p ← opened_row row; Ok (Some p))) as Efind by (unfold Registrations.find_active; by rewrite Erow).
    rewrite Efind in *. destruct (opened_row row) as [q|] eqn:Eq; [|done]. cbn [mbind result_bind] in *.
    destruct (Registrations.seal_token _ _ _ _) as [stored|] eqn:Es; [|done]. injection Hr as <- <-.
    destruct (refresh_stored nonce input (iso_from_epoch_ms now) t row q stored Hok Htok Es Erow Eq) as (Hf & Hp & Hrest).
    cbn [pd_registration_id]. split_and!; [exact Hf|done|done| |done]. intros q' Hq'. injection Hq' as <-.
    split; [done|]. unfold update_where. by rewrite length_fmap.
  - unfold Registrations.find_active in Hr. rewrite Erow in Hr. cbn [Registrations.transposed] in Hr.
    destruct (Registrations.seal_token _ _ _ _) as [stored|] eqn:Es; [|done].
    destruct (Registrations.insert_row _ _ t) as [[[]|e] t1] eqn:Ei; [|done]. injection Hr as <- <-.
    destruct (insert_stored nonce input id _ t t1 stored Hok Htok Es Erow Ei) as (Hf & Hp & Hrest).
    cbn [pd_registration_id]. split_and!; [exact Hf|done|done| |done]. intros q Hq. unfold Registrations.find_active in Hq.
    by rewrite Erow in Hq.
Qed.
End Register.

(** ** Concrete runs *)

Import ToyCrypto ToyPacked.
(** Two users: one with a live and a dead device, one with a PushKit token. *)
Module SamplePush.
Definition dead_apns : PushAdapter :=
  {| pa_platform := Apns; pa_send intent reg := Ok (failed reg "t" "push.unregistered" "gone") |}.
Definition registry : PushRegistry :=
  (Adapters.register_adapter dead_apns (Adapters.register_adapter (TestPushAdapter "t" "receipt") Adapters.new).2).2.
Definition input (user device : string) (platform : PushPlatform) : PushRegistrationInput :=
  {| pn_tenant_id := "t1"; pn_user_id := user; pn_device_id := device; pn_platform := platform; pn_token := "token-" +:+ device;
     pn_environment := Production |}.
Definition add (user device : string) (platform : PushPlatform) (id : string) (t : PushTable) : PushTable :=
  (Registrations.register enc "UNIQUE" nonce (input user device platform) id 1000 t).2.
Definition table : PushTable :=
  add "bob" "d3" ApnsVoip "p3" (add "alice" "d2" Apns "p2" (add "alice" "d1" Platform_Test "p1" [])).
Definition intent : FrickNotificationIntent :=
  {| ni_intent := "message.new"; ni_tenant_id := "t1"; ni_recipient_user_ids := ["alice"; "bob"];
     ni_body := {| nb_title := Some "Hi"; nb_body := None; nb_data := Some (VMap []) |}; ni_thread_id := None;
     ni_deep_link := Some "app://x" |}.
Definition listed (user : string) : list PushDeviceRegistration :=
  match Registrations.list_by_user enc table "t1" user with Ok regs => regs | Err _ => [] end.

Lemma honest : adapters_honest registry.
Proof.
  intros key a i reg d Hk Hs.
  assert (registry = <["apns" := dead_apns]> (<["test" := TestPushAdapter "t" "receipt"]> ∅)) as Er by reflexivity.
  rewrite Er in Hk. apply lookup_insert_Some in Hk as [[_ <-]|[_ Hk]]; [by injection Hs as <-|].
  apply lookup_insert_Some in Hk as [[_ <-]|[_ Hk]]; [by injection Hs as <-|done].
Qed.
Lemma table_ok : push_ok table.
Proof. split; apply (bool_decide_unpack _); by vm_compute. Qed.
(** The same device registered on a server without a key. *)
Definition plain : PushTable := (Registrations.register None "UNIQUE" nonce (input "alice" "d2" Apns) "p2" 1000 []).2.
Lemma plain_ok : push_ok plain.
Proof. split; apply (bool_decide_unpack _); by vm_compute. Qed.
End SamplePush.
Import SamplePush.


Lemma intent_roundtrip_witness : decode_intent (encode_intent intent) = Ok intent.
Proof. apply intent_roundtrip. repeat split; try done. by repeat constructor. Defined.

Lemma register_stored_witness :
  ∃ p, Registrations.find_active None (Registrations.register None "UNIQUE" nonce (input "alice" "d2" Apns) "p9" 1000 plain).2
         "t1" "alice" "d2" Apns = Ok (Some p)
    ∧ pd_registration_id p = "p2" ∧ pd_token p = "token-d2".
Proof.
  destruct (Registrations.register None "UNIQUE" nonce (input "alice" "d2" Apns) "p9" 1000 plain) as [[p|e] t'] eqn:E;
    [|by vm_compute in E].
  destruct (register_stored None "UNIQUE" nonce (input "alice" "d2" Apns) "p9" 1000 plain t' p plain_ok) as (Hf & Ht & _);
    [by intros e|done|].
  exists p. split_and!; [exact Hf| |exact Ht]. vm_compute in E. by injection E as <- _.
Defined.
